(* ===== verification/_CoqProject ===== *)
-Q . S2P
Prelude.v
Wire.v
Rto.v
Text.v
Hub.v
Rooms.v
IpFilter.v
Js.v
NgCore.v
NgUrl.v
NgResource.v
Console.v
NgCache.v
NgLexer.v
NgParser.v
NgQ.v
NgScope.v
NgDigest.v
NgFilters.v
NgFormat.v
NgEval.v
NgInjector.v
NgRepeat.v
NgForm.v
NgInput.v
NgModal.v
NgHttp.v
NgInterpolate.v
NgTimers.v
NgLocation.v
NgDirective.v
NgCompile.v
NgBinding.v
NgSce.v
UiPaging.v
UiTabs.v
NgDom.v
NgBlocks.v
NgSelect.v
JqCallbacks.v
