(* ===== verification/Prelude.v ===== *)
(** * SkyTime: a verification library for the push server and its console

    SkyTime ([src/]) is a web-socket push server in Go with an operator's
    console, a single page on AngularJS.  Peers connect to the server, each is
    placed in a room, and an operator broadcasts messages to all rooms, to a
    range or a set of them, or to a list of peers.  A targeted message is
    retransmitted until the peer acknowledges it.  The console is served by the
    same process; it shows the rooms and the traffic and has the dialogs from
    which broadcasts are sent.  Most of the code is the console's JavaScript and
    the framework it runs on, of which the library models the parts that carry
    state or an algorithm.

    ** The files

    This file has the vocabulary the others share: [result] (a return or an
    error) with its monad notation, tactics, and lemmas on lists and options.
    Text has the string functions of the two languages; Js the values, objects
    and heap of JavaScript, its [trim] and its sort.

    The server:
    - Wire: the frames ([src/server/hub.go], [src/client/wsbk.go]), both ways.
    - Rto: the writer of one connection, [writeRTO]: [conn_step] is one
      iteration of its [select], [rto_tick] one tick over the queue.
    - Hub: one room, [hub.run]: [room_step] is one iteration of its [select];
      the connections are objects in a heap with their channel and its closed
      flag, shared with the goroutines that created them.
    - Rooms: all rooms, [hub_rooms] and the handlers of [apis.go].
    - IpFilter: [ipfilter.go] and the guards that use it.

    The console ([src/static/scripts]):
    - Console: [main.js] (overview and chart, room list, the five dialogs),
      [utils.js] and [ws.js].  The requests go through NgResource to the handlers of Rooms,
      so that a click is followed to the queues of the rooms.

    Its framework ([angular.js], [angular-resource.js], [ui-bootstrap.js], [jquery.js]):
    - NgCore: ids, hash keys and maps, case conversion, lists, [equals], [copy].
    - NgUrl: encoding and decoding of URLs, the strategies of [$location].
    - NgResource: URL templates, the calling convention of actions, requests.
    - NgCache: the caches of [$cacheFactory], with their recency list.
    - NgLexer, NgParser, NgEval: an expression from its text to its value.
    - NgQ: promises ([$q]).
    - NgScope, NgDigest: scopes, watchers, events and the digest loop.
    - NgFilters, NgFormat: the filters of lists, of numbers and of dates.
    - NgInjector: modules, the injector and the recipes of [$provide].
    - NgRepeat: [$watchCollection], and the rows of [ngRepeat] among DOM nodes.
    - NgForm, NgInput: forms and controls in one store, their validity and
      dirtiness; a control's value, its validators and its text on the page.
    - NgModal: the stack of dialogs, what the page shows of it, the queue of
      requests before it.
    - NgHttp: requests: the headers, the chain of interceptors, what is pending
      and what the caches hold.
    - NgInterpolate: texts with expressions in them.
    - NgTimers: the timers of the browser, [$timeout] and [$interval].
    - NgLocation: the address bar and [$location], each following the other.
    - NgDirective, NgCompile: which directives a node asks for; compiling a
      template into link functions, kept as values, and linking it.
    - NgBinding: attributes and their listeners, classes, and the locals of an
      isolate scope.
    - NgDom: the data and listeners jqLite hangs on elements.
    - NgBlocks: classes that follow a value ([ngClass]) and the blocks of [ngIf],
      [ngSwitch] and [ngInclude].
    - NgSelect: the options of [ng-options] and the select element they are in.
    - NgSce: the patterns, policy and trusted values of [$sce], and the marking
      of links.
    - JqCallbacks: the lists of callbacks and the deferred objects of jQuery.
    - UiPaging, UiTabs: the links of a list's pages; sets of tabs, accordions.

    The page itself loads a minified bundle of these libraries; what is modelled
    is their readable copy in [src/static/bower_components].

    A component's definitions keep the names of the code; each file says which
    of the code's closures, pointers and globals became which part of its state.

    ** What the theorems show

    The comment of a theorem states the conditions it holds under; the
    Examples near it show what the code does where one of them fails.

    - Server safety: with distinct peer ids no sequence of events makes a room
      send on or close a closed channel ([Hub.room_never_panics]), and without
      that assumption one does ([Hub.reconnect_double_close]); a broadcast is
      delivered once to each connection with room for it
      ([Hub.broadcast_exactly_once]).
    - Delivery: frames round-trip between server and client; a message is sent
      a bounded number of times, on the schedule its two parameters give, and
      never again after its acknowledgement; a configuration panics.
    - Broadcasts: a range or set reaches the queues of exactly the rooms it
      names, and [Console.range_dialog_exact] follows it from the dialog
      (Console has when the dialog loses it).
    - Framework, functional: encoders and printers are inverted by the parsers
      (URLs, query strings, locations, string literals, expressions, dates,
      texts with expressions),
      the cache refines a least-recently-used list, [orderBy] sorts, [filter]
      partitions, numbers that have few enough digits are rounded within half a unit; interceptors nest.
    - Framework, control: the parser returns on every input; promises settle
      once and call back in order; a digest whose functions keep to the model ends with every watcher calm or
      with an error; the call operator of expressions makes only calls that were checked;
      the two implementations of a path agree.
    - Framework, composition: services are made once and on demand, a circle of
      them is refused, an error leaves nothing half made, and a module is loaded
      once with everything it requires; a repeated row is shown once for each
      item, in order, and reused while its item stays; through every history of
      a page's controls a form is valid exactly when the controls below it are,
      and what is typed reaches the model and stays on the page; through every
      history of dialogs the backdrop and the classes are those of the open ones;
      no request is lost, and one of a cached URL is under way at a time; what is
      outstanding is counted exactly; the address bar and [$location] agree when a
      digest has ended, which it does.
    - Framework, templates: the attribute of a directive's name reaches it but
      for the names [NgDirective.attribute_reaches_directive] lists; the
      directives of a node are applied or refused as their priorities and what
      they ask for say; the two passes of [$compile] are one recursion over the
      nodes, in which link functions nest; a two-way binding agrees after a
      watch.
    - Framework, trust: a value reaches a context only if it was trusted for it
      or the policy or the sanitizer lets it; a pattern's regular expression
      accepts what the pattern says, and a URL is allowed as the two lists say.
    - Framework, elements: the stores, numbers and handlers of jqLite amount to a
      list of listeners for each element and type, and nothing is left of a
      subtree that is let go; through every history the classes of an element are
      those of its present values and parity, and a conditional or fetched block is
      on the page, alone and with its scope, exactly when the present value or the
      latest answer says so; a select shows the options its collection asks for and
      selects the model's, unless a label is the text of the view value
      ([NgSelect.Examples] has what happens then).
    - jQuery: a deferred calls each callback once for each time it was added, in
      order and with the first value, whatever its callbacks do; they may not throw
      ([JqCallbacks.DeferredExamples.thrown_list_is_stuck]).
    - Widgets: one tab is active at most, and after a digest one group of an
      accordion; the page links are a run around the page shown, and stay so
      through every history.

    ** Fuel, bounds and integers

    Go's 32-bit fields are [Z] with their wrap-around written out.  JavaScript
    numbers are safe integers and NaN, exact decimals in NgFormat; a result
    outside is an error or stops the model.  Four kinds of recursion take fuel:
    the parser, for which [NgParser.parse_terminates] gives an amount that is
    always enough; recursion through application code (NgScope, NgDigest, NgQ),
    where the theorems say how much suffices or that none does; and deep
    comparison or copy of a heap that may be cyclic.  Compiling nodes takes their
    height ([NgCompile.compile_enough]), and a template that holds itself takes
    more than any ([NgCompile.Examples.loop_never_compiles]).  A table that the code
    keeps in an object literal is a map; where a name of [Object.prototype] can
    get there, the definition does what the code does with it, or the file or the
    theorem says that it is left out.  Where application code,
    Go's [net] package, the consistent hash or the browser's URL parser is
    called, it is an argument.

    ** Not modelled

    Sockets, HTTP and goroutine scheduling below the events; the flags, the
    configuration file and the coordination service ([skytime.go], [config.go],
    [zknode.go]); the PHP SDK; what needs a browser (most of jqLite, the
    framework's own directives but for those of forms, inputs, selects, classes, blocks and rows,
    animation, the transport of [$http]); of [$compile] transclusion, [replace] and
    [templateUrl]; and the
    third-party libraries without a part in the console's logic (the rest of jQuery,
    Highcharts, DataTables, Bootstrap's own scripts, [vendor/]). *)

From Stdlib Require Export ZArith Lia Ascii.
#[local] Set Warnings "-clear-no-such-hyp".
From stdpp Require Export base gmap strings list fin_maps relations pretty.

Declare Scope sky_scope.
Delimit Scope sky_scope with sky.

(** ** Results of fallible code

    [Ok a] is a normal return, [Err e] an exception, a returned error or a
    panic, with the reason [e]. *)
Inductive result (E A : Type) : Type :=
| Ok (a : A)
| Err (e : E).
Arguments Ok {E A} a.
Arguments Err {E A} e.

#[global] Instance result_ret {E} : MRet (result E) := fun A a => Ok a.
#[global] Instance result_bind {E} : MBind (result E) :=
  fun A B f r => match r with Ok a => f a | Err e => Err e end.
#[global] Instance result_fmap {E} : FMap (result E) :=
  fun A B f r => match r with Ok a => Ok (f a) | Err e => Err e end.

Definition is_ok {E A} (r : result E A) : bool :=
  match r with Ok _ => true | Err _ => false end.

Lemma result_bind_ok {E A B} (f : A -> result E B) r b :
  r ≫= f = Ok b -> exists a, r = Ok a /\ f a = Ok b.
Proof. destruct r; naive_solver. Qed.

Lemma result_bind_err {E A B} (f : A -> result E B) r e :
  r ≫= f = Err e -> r = Err e \/ exists a, r = Ok a /\ f a = Err e.
Proof. destruct r; naive_solver. Qed.

(** [inv_result] splits every hypothesis that equates a bound computation
    with a result. *)
Ltac inv_result :=
  repeat match goal with
  | H : _ ≫= _ = Ok _ |- _ =>
      let a := fresh "a" in let Ha := fresh "Ha" in
      apply result_bind_ok in H as (a & Ha & H)
  | H : mret _ = Ok _ |- _ => injection H as H
  | H : Ok _ = Ok _ |- _ => injection H as H
  | H : Err _ = Ok _ |- _ => discriminate H
  | H : Ok _ = Err _ |- _ => discriminate H
  end.

(** [split_ifs] destructs the conditions of the goal. *)
Ltac split_ifs :=
  repeat match goal with
  | |- context [if ?b then _ else _] => destruct b eqn:?
  end.

(** ** Machine integers *)

Open Scope Z_scope.

(** Go's [uint32(x)]. *)
Definition u32 (x : Z) : Z := x mod 2 ^ 32.

(** JavaScript's [ToInt32] and [ToUint32]: the operands of the bitwise
    operators. *)
Definition to_uint32 (x : Z) : Z := x mod 2 ^ 32.
Definition to_int32 (x : Z) : Z :=
  let u := to_uint32 x in if u <? 2 ^ 31 then u else u - 2 ^ 32.

Lemma u32_range x : 0 <= u32 x < 2 ^ 32.
Proof. apply Z.mod_pos_bound; lia. Qed.

Lemma u32_small x : 0 <= x < 2 ^ 32 -> u32 x = x.
Proof. apply Z.mod_small. Qed.

Lemma to_int32_range x : - 2 ^ 31 <= to_int32 x < 2 ^ 31.
Proof.
  unfold to_int32, to_uint32. pose proof (Z.mod_pos_bound x (2 ^ 32)).
  destruct (Z.ltb_spec (x mod 2 ^ 32) (2 ^ 31)); lia.
Qed.

Lemma to_int32_small x : - 2 ^ 31 <= x < 2 ^ 31 -> to_int32 x = x.
Proof.
  intros H. unfold to_int32, to_uint32.
  destruct (Z.ltb_spec (x mod 2 ^ 32) (2 ^ 31)) as [Hl|Hl].
  - destruct (Z.lt_ge_cases x 0).
    + rewrite <- (Z.mod_add x 1), Z.mod_small in Hl by lia. lia.
    + rewrite Z.mod_small by lia. lia.
  - destruct (Z.lt_ge_cases x 0).
    + rewrite <- (Z.mod_add x 1), Z.mod_small by lia. lia.
    + rewrite Z.mod_small in Hl by lia. lia.
Qed.

Lemma to_int32_mod x : to_int32 x mod 2 ^ 32 = x mod 2 ^ 32.
Proof.
  unfold to_int32, to_uint32. destruct (_ <? _).
  - apply Z.mod_mod; lia.
  - rewrite Zminus_mod, Z.mod_same, Z.sub_0_r, !Z.mod_mod by lia. done.
Qed.

Create HintDb sky discriminated.
#[export] Hint Resolve u32_range u32_small to_int32_range to_int32_small : sky.

(** ** Finite maps *)

Lemma size_delete_Some `{Countable K} {A} (m : gmap K A) i x :
  m !! i = Some x -> Z.of_nat (size (delete i m)) = Z.of_nat (size m) - 1.
Proof.
  intros Hi. rewrite <- (insert_delete_id m i x Hi) at 2.
  rewrite map_size_insert_None by apply lookup_delete_eq. lia.
Qed.

Lemma size_insert_None `{Countable K} {A} (m : gmap K A) i x :
  m !! i = None -> Z.of_nat (size (<[i := x]> m)) = Z.of_nat (size m) + 1.
Proof. intros Hi. rewrite map_size_insert_None by done. lia. Qed.

Lemma imap_imap {A B C} (f : nat -> B -> C) (g : nat -> A -> B) l :
  imap f (imap g l) = imap (fun i x => f i (g i x)) l.
Proof. apply list_eq. intros i. rewrite !list_lookup_imap. by destruct (l !! i). Qed.

(** ** Filters of lists *)

Lemma filter_keep {A} (P : A -> Prop) `{!forall x, Decision (P x)} l : Forall P l -> filter P l = l.
Proof. induction 1 as [|x l Hx _ IH]; [done|]. rewrite filter_cons, decide_True by done. by rewrite IH. Qed.

Lemma filter_drop {A} (P : A -> Prop) `{!forall x, Decision (P x)} l : Forall (fun x => ~ P x) l -> filter P l = [].
Proof. induction 1 as [|x l Hx _ IH]; [done|]. by rewrite filter_cons, decide_False. Qed.

Lemma filter_ext_in {A} (P Q : A -> Prop) `{!forall x, Decision (P x), !forall x, Decision (Q x)} l :
  Forall (fun x => P x <-> Q x) l -> filter P l = filter Q l.
Proof. induction 1 as [|x l Hx _ IH]; [done|]. rewrite !filter_cons, IH. by repeat case_decide; naive_solver. Qed.

(** Dropping a segment of a list without duplicates. *)
Lemma filter_segment `{!EqDecision T} (A ns D : list T) : NoDup (A ++ ns ++ D) -> filter (fun n => n ∉ ns) (A ++ ns ++ D) = A ++ D.
Proof.
  intros (_ & H1 & (_ & H2 & _)%NoDup_app)%NoDup_app. rewrite !filter_app.
  rewrite (filter_keep _ A), (filter_drop _ ns), (filter_keep _ D); [done|..].
  - apply Forall_forall. intros x Hx Hx'. by apply (H2 x).
  - apply Forall_forall. intros x Hx Hx'. done.
  - apply Forall_forall. intros x Hx Hx'. apply (H1 x Hx). apply elem_of_app. by left.
Qed.

(** ** Removing one element *)

(** [arrayRemove(array, value)], and [splice] at [indexOf]. *)
Definition array_remove `{EqDecision A} (x : A) (l : list A) : list A :=
  match list_find (fun y => y = x) l with Some (i, _) => delete i l | None => l end.

Lemma array_remove_spec `{EqDecision A} (x : A) l :
  NoDup l -> NoDup (array_remove x l) /\ forall y, y ∈ array_remove x l <-> (y ∈ l) /\ y <> x.
Proof.
  intros Hnd. unfold array_remove. destruct (list_find (fun y => y = x) l) as [[i z]|] eqn:Hf.
  - apply list_find_Some in Hf as (Hi & -> & _). apply list_elem_of_split_length in Hi as (l1 & l2 & -> & ->).
    rewrite delete_middle. rewrite <- Permutation_middle in Hnd. apply NoDup_cons in Hnd as [Hk Hnd]. split; [done|].
    intros y. rewrite !elem_of_app, elem_of_cons. rewrite elem_of_app in Hk. naive_solver.
  - apply list_find_None in Hf. split; [done|]. intros y. split; [|by intros [? _]]. intros Hy. split; [done|].
    by eapply Forall_forall in Hf.
Qed.
