(* ===== verification/Wire.v ===== *)
(** * Wire: the push/ack frames exchanged by the server and its clients

    [src/server/hub.go] builds push frames (9-byte header and payload) and
    acknowledgement frames (5 bytes); [src/client/wsbk.go] parses the former
    and answers with the latter, which [checkPongMessage] parses back.  A
    frame is a list of byte values (0..255); an out-of-range index is Go's
    run-time panic, here [Err]. *)

From S2P Require Import Prelude.

(** [binary.BigEndian.PutUint32] and [binary.BigEndian.Uint32]. *)
Definition put_be32 (v : Z) : list Z :=
  [Z.land (Z.shiftr v 24) 255; Z.land (Z.shiftr v 16) 255;
   Z.land (Z.shiftr v 8) 255; Z.land v 255].

Definition get_be32 (b0 b1 b2 b3 : Z) : Z :=
  Z.lor b3 (Z.lor (Z.shiftl b2 8) (Z.lor (Z.shiftl b1 16) (Z.shiftl b0 24))).

(** The descriptor byte: version in the high nibble, message type in bits
    1 to 3, server flag in bit 0. *)
Definition b4_push : Z := Z.lor (Z.lor (Z.shiftl 1 4) (Z.shiftl 1 1)) 1.
Definition b4_br_all : Z := Z.lor (Z.lor (Z.shiftl 1 4) (Z.shiftl 0 3)) 1.
Definition b4_ack : Z := Z.lor (Z.lor (Z.shiftl 1 4) (Z.shiftl 3 1)) 1.
Definition b4_client_ack : Z := Z.lor (Z.lor (Z.shiftl 1 4) (Z.shiftl 3 1)) 0.
Definition b4_client_notify : Z := Z.lor (Z.lor (Z.shiftl 1 4) (Z.shiftl 2 1)) 0.

Definition send_push_msg_to_peer (ack_seq : Z) (payload : list Z) (is_br_all : bool)
  : list Z :=
  put_be32 (u32 ack_seq) ++
  [if is_br_all then b4_br_all else b4_push] ++
  put_be32 (u32 (Z.of_nat (length payload))) ++ payload.

Definition send_ack_msg_to_peer (ack_seq : Z) : list Z :=
  put_be32 (u32 ack_seq) ++ [b4_ack].

Definition send_ack_msg_to_server (ack_seq : Z) : list Z :=
  put_be32 (u32 ack_seq) ++ [b4_client_ack].

(** The body is the constant greeting of the benchmark client. *)
Definition send_notify_msg_to_server (ack_seq : Z) (body : list Z) : list Z :=
  put_be32 (u32 ack_seq) ++ [b4_client_notify] ++
  put_be32 (u32 (Z.of_nat (length body))) ++ body.

Record header := Header {
  h_ack_seq : Z; h_msg_ver : Z; h_msg_type : Z; h_svr_flag : Z
}.

(** [message[4] & 0xf >> 1]: in Go [&] and [>>] have one precedence and
    associate to the left. *)
Definition parse_header (message : list Z) : result string header :=
  match message with
  | b0 :: b1 :: b2 :: b3 :: b4 :: _ =>
      Ok {| h_ack_seq := get_be32 b0 b1 b2 b3;
            h_msg_ver := Z.shiftr b4 4;
            h_msg_type := Z.shiftr (Z.land b4 15) 1;
            h_svr_flag := Z.land b4 1 |}
  | _ => Err "index out of range"
  end.

(** What one text message makes the server do: [c.recv_ack_seq <- seq] then
    [hrooms.recv_ack_ch <- seq] for an acknowledgement, the queueing of an
    acknowledgement of ours for a notification. *)
Inductive server_event :=
| RecvAckSeq (seq : Z)
| StatAck (seq : Z)
| NotifyAck (seq : Z).

(** The text-message branch of [checkPongMessage]; [cap] is the capacity of
    the buffer the message is a slice of ([message[5:9]] panics beyond the
    capacity, [message[9:]] beyond the length). *)
Definition on_client_message (verbose : bool) (cap : Z) (message : list Z)
  : result string (list server_event) :=
  h ← parse_header message;
  if h_msg_type h =? 3 then
    Ok [RecvAckSeq (h_ack_seq h); StatAck (h_ack_seq h)]
  else if h_msg_type h =? 2 then
    if cap <? 9 then Err "slice bounds out of range" else
    if verbose && (Z.of_nat (length message) <? 9)
    then Err "slice bounds out of range"
    else Ok [NotifyAck (h_ack_seq h)]
  else Ok [].

(** What one message makes the client do. *)
Inductive client_event :=
| AckSent (frame : list Z)
| HaveMsg.

Definition on_server_message (ack_rto : bool) (cap : Z) (message : list Z)
  : result string (list client_event) :=
  if negb ack_rto then Ok [HaveMsg] else
  h ← parse_header message;
  if h_msg_type h =? 3 then Ok [] else
  if cap <? 9 then Err "slice bounds out of range" else
  if h_msg_type h =? 1 then
    if Z.of_nat (length message) <? 9 then Err "slice bounds out of range"
    else Ok [AckSent (send_ack_msg_to_server (h_ack_seq h)); HaveMsg]
  else Ok [HaveMsg].

(** The body of a push frame as a receiver reads it: [message[9:]]. *)
Definition frame_body (message : list Z) : list Z := drop 9 message.
Definition frame_body_len (message : list Z) : option Z :=
  match drop 5 message with
  | b0 :: b1 :: b2 :: b3 :: _ => Some (get_be32 b0 b1 b2 b3)
  | _ => None
  end.

(** ** Lemmas *)

Lemma land_255 x : Z.land x 255 = x mod 256.
Proof. change 255 with (Z.ones 8). by rewrite Z.land_ones. Qed.

Lemma lor_add a b n :
  0 <= n -> 0 <= a < 2 ^ n -> Z.lor a (b * 2 ^ n) = a + b * 2 ^ n.
Proof.
  intros Hn Ha.
  assert (Hz : Z.land a (b * 2 ^ n) = 0).
  { apply Z.bits_inj_0; intros i; rewrite Z.land_spec.
    destruct (Z.lt_ge_cases i n); [rewrite Z.mul_pow2_bits_low by lia; apply andb_false_r|].
    rewrite <- (Z.mod_small a (2 ^ n)), Z.mod_pow2_bits_high by lia. done. }
  by rewrite <- Z.lxor_lor, <- Z.add_nocarry_lxor.
Qed.

Lemma get_be32_sum b0 b1 b2 b3 :
  0 <= b1 < 256 -> 0 <= b2 < 256 -> 0 <= b3 < 256 ->
  get_be32 b0 b1 b2 b3 = b3 + b2 * 2 ^ 8 + b1 * 2 ^ 16 + b0 * 2 ^ 24.
Proof.
  intros. unfold get_be32. rewrite !Z.shiftl_mul_pow2 by lia.
  rewrite (lor_add _ b0 24) by lia.
  replace (b1 * 2 ^ 16 + b0 * 2 ^ 24) with ((b1 + b0 * 2 ^ 8) * 2 ^ 16) by lia.
  rewrite lor_add by lia.
  replace (b2 * 2 ^ 8 + (b1 + b0 * 2 ^ 8) * 2 ^ 16)
    with ((b2 + (b1 + b0 * 2 ^ 8) * 2 ^ 8) * 2 ^ 8) by lia.
  rewrite lor_add by lia. lia.
Qed.

(** Reading back what [PutUint32] wrote. *)
Lemma get_put_be32 v : 0 <= v < 2 ^ 32 ->
  exists b0 b1 b2 b3, put_be32 v = [b0; b1; b2; b3] /\ get_be32 b0 b1 b2 b3 = v.
Proof.
  intros Hv. unfold put_be32. do 4 eexists. split; [done|].
  assert (Hb : forall x, 0 <= Z.land x 255 < 256)
    by (intros; rewrite land_255; apply Z.mod_pos_bound; lia).
  rewrite get_be32_sum by auto.
  rewrite !land_255, !Z.shiftr_div_pow2 by lia. Z.div_mod_to_equations. lia.
Qed.

Lemma parse_header_frame v b4 rest : 0 <= v < 2 ^ 32 ->
  parse_header (put_be32 v ++ b4 :: rest) =
  Ok (Header v (Z.shiftr b4 4) (Z.shiftr (Z.land b4 15) 1) (Z.land b4 1)).
Proof.
  intros Hv. destruct (get_put_be32 v Hv) as (b0 & b1 & b2 & b3 & -> & Hg).
  simpl. by rewrite Hg.
Qed.

Lemma parse_push ack_seq payload br :
  parse_header (send_push_msg_to_peer ack_seq payload br) =
  Ok (Header (u32 ack_seq) 1 (if br then 0 else 1) 1).
Proof.
  etransitivity; [apply (parse_header_frame (u32 ack_seq)), u32_range|]. by destruct br.
Qed.

Lemma length_put_be32 v : length (put_be32 v) = 4%nat.
Proof. done. Qed.

Lemma frame_body_push ack_seq payload br :
  frame_body (send_push_msg_to_peer ack_seq payload br) = payload.
Proof. done. Qed.

Lemma length_push ack_seq payload br :
  Z.of_nat (length (send_push_msg_to_peer ack_seq payload br)) = 9 + Z.of_nat (length payload).
Proof. unfold send_push_msg_to_peer. rewrite !length_app. simpl. lia. Qed.

Create Rewrite HintDb wire.
#[export] Hint Rewrite parse_push frame_body_push length_push : wire.

(** ** Properties *)

(** C5: a push frame carries its sequence number (as 32 bits), version 1, the
    server flag, a type that tells a targeted push (1) from a broadcast (0),
    the length of the payload as a 32-bit word and the payload itself, for
    every payload the 32-bit length field can describe. *)
Theorem push_frame_roundtrip ack_seq payload br :
  Z.of_nat (length payload) < 2 ^ 32 ->
  let m := send_push_msg_to_peer ack_seq payload br in
  parse_header m = Ok (Header (u32 ack_seq) 1 (if br then 0 else 1) 1) /\
  frame_body_len m = Some (Z.of_nat (length payload)) /\
  frame_body m = payload.
Proof.
  intros Hlen m. unfold m. autorewrite with wire. split_and!; [done| |done].
  destruct (get_put_be32 (Z.of_nat (length payload))) as (b0 & b1 & b2 & b3 & He & Hg); [lia|].
  unfold frame_body_len, send_push_msg_to_peer.
  rewrite (u32_small (Z.of_nat _)), He by lia. simpl. by rewrite Hg.
Qed.

Lemma push_frame_roundtrip_witness :
  frame_body (send_push_msg_to_peer 7 [104; 105] false) = [104; 105].
Proof. apply (push_frame_roundtrip 7 [104; 105] false). vm_compute. reflexivity. Defined.

(** The acknowledgement loop closes.  A client that runs with
    acknowledgements answers a targeted push with exactly one frame, and that
    frame makes the server deliver the push's own sequence number to the
    connection and to the statistics; a broadcast frame is never
    acknowledged, and no received frame of either kind is out of bounds. *)
Theorem push_ack_loop ack_seq payload br verbose cap :
  9 + Z.of_nat (length payload) <= cap ->
  exists replies,
    on_server_message true cap (send_push_msg_to_peer ack_seq payload br)
      = Ok (replies ++ [HaveMsg]) /\
    (if br then replies = [] else
     exists f, replies = [AckSent f] /\
       forall cap', on_client_message verbose cap' f
         = Ok [RecvAckSeq (u32 ack_seq); StatAck (u32 ack_seq)]).
Proof.
  intros Hcap. unfold on_server_message. autorewrite with wire. simpl.
  destruct (Z.ltb_spec cap 9); [lia|].
  destruct br; simpl; [by exists []|].
  destruct (Z.ltb_spec (9 + Z.of_nat (length payload)) 9); [lia|].
  eexists [_]. split; [done|]. eexists; split; [done|]. intros cap'.
  unfold on_client_message, send_ack_msg_to_server.
  rewrite parse_header_frame by apply u32_range. simpl.
  by rewrite (u32_small (u32 _)) by apply u32_range.
Qed.

Lemma push_ack_loop_witness :
  exists r, on_server_message true 64 (send_push_msg_to_peer 5 [1; 2] false) = Ok (r ++ [HaveMsg]).
Proof.
  destruct (push_ack_loop 5 [1; 2] false true 64) as (r & H & _);
    [vm_compute; discriminate | exists r; exact H].
Defined.

(** A client message the server cannot parse is a run-time panic: every
    message shorter than five bytes, and in verbose mode a notification
    shorter than nine. *)
Theorem short_message_panics verbose cap message :
  (length message < 5)%nat -> exists e, on_client_message verbose cap message = Err e.
Proof.
  intros H. destruct message as [|? [|? [|? [|? [|]]]]]; simpl in *; try lia; by eexists.
Qed.

Lemma short_message_panics_witness : exists e, on_client_message false 512 [0; 0; 0; 1] = Err e.
Proof. apply (short_message_panics false 512 [0; 0; 0; 1]). simpl. lia. Defined.
