(* ===== verification/Rto.v ===== *)
(** * Rto: the per-connection writer with retransmission

    The goroutine [writeRTO] of [src/server/hub.go]: targeted messages wait
    in [write_msg_Q] for an acknowledgement, a one-second ticker retransmits
    the overdue ones and drops those that waited too long.  One iteration of
    its [select] loop is one [conn_step].  Go iterates over a map in an
    unspecified order: the order of a tick is part of its event. *)

From S2P Require Import Prelude Wire.

(** The two tunables [max_wait_ttl] and [max_retry_ttl]. *)
Record rto_cfg := RtoCfg { max_retry_ttl : Z; max_wait_ttl : Z }.

Definition default_cfg : rto_cfg := {| max_retry_ttl := 8; max_wait_ttl := 64 |}.

Record write_msg_t := WriteMsg {
  msg_body : list Z; retry_times : Z; wait_ttl : Z
}.

Record push_msg_t := PushMsg { pm_id : Z; pm_body : list Z; pm_br_all : bool }.

(** What the writer hands to the socket and to the statistics goroutine. *)
Inductive conn_out :=
| OutPush (seq : Z) (frame : list Z)
| OutStatSend (seq : Z)
| OutPing
| OutClose.

(** One entry of the queue on one tick of [rto_ticker]: what remains of it,
    whether it is sent again. *)
Definition rto_entry (cfg : rto_cfg) (msg : write_msg_t)
  : result string (option write_msg_t * bool) :=
  let wait := wait_ttl msg - 1 in
  let drop := wait <=? 0 in
  if max_retry_ttl cfg =? 0 then Err "integer divide by zero" else
  let resend := wait <? (retry_times msg - 1) * Z.quot (max_wait_ttl cfg) (max_retry_ttl cfg) in
  let msg' := WriteMsg (msg_body msg)
                (if resend then retry_times msg - 1 else retry_times msg) wait in
  Ok (if drop then None else Some msg', resend).

Definition resend_outs (seq : Z) (body : list Z) : list conn_out :=
  [OutPush seq (send_push_msg_to_peer (u32 seq) body false); OutStatSend seq].

(** The whole tick: the range loop over [write_msg_Q] in the order given. *)
Fixpoint rto_tick (cfg : rto_cfg) (order : list Z) (Q : gmap Z write_msg_t)
  : result string (gmap Z write_msg_t * list conn_out) :=
  match order with
  | [] => Ok (Q, [])
  | seq :: order =>
      match Q !! seq with
      | None => rto_tick cfg order Q
      | Some msg =>
          '(msg', resend) ← rto_entry cfg msg;
          let Q' := match msg' with Some m => <[seq := m]> Q | None => delete seq Q end in
          '(Q'', outs) ← rto_tick cfg order Q';
          Ok (Q'', (if resend : bool then resend_outs seq (msg_body msg) else []) ++ outs)
      end
  end.

(** The events one [select] of the loop can receive. *)
Inductive conn_event :=
| EvSend (m : push_msg_t)
| EvSendClosed
| EvPing (write_ok : bool)
| EvAck (seq : Z)
| EvTick (order : list Z).

Record conn_state := ConnState { write_msg_Q : gmap Z write_msg_t; running : bool }.

Definition conn_step (cfg : rto_cfg) (ev : conn_event) (st : conn_state)
  : result string (conn_state * list conn_out) :=
  if negb (running st) then Ok (st, []) else
  match ev with
  | EvSend m =>
      let frame := send_push_msg_to_peer (u32 (pm_id m)) (pm_body m) (pm_br_all m) in
      if pm_br_all m then Ok (st, [OutPush (pm_id m) frame])
      else
        let w := WriteMsg (pm_body m) (max_retry_ttl cfg) (max_wait_ttl cfg) in
        Ok (ConnState (<[pm_id m := w]> (write_msg_Q st)) true,
            [OutPush (pm_id m) frame; OutStatSend (pm_id m)])
  | EvSendClosed => Ok (ConnState (write_msg_Q st) false, [OutClose])
  | EvPing ok => Ok (ConnState (write_msg_Q st) ok, [OutPing])
  | EvAck seq => Ok (ConnState (delete seq (write_msg_Q st)) true, [])
  | EvTick order =>
      '(Q, outs) ← rto_tick cfg order (write_msg_Q st);
      Ok (ConnState Q true, outs)
  end.

Fixpoint conn_run (cfg : rto_cfg) (evs : list conn_event) (st : conn_state)
  : result string (conn_state * list conn_out) :=
  match evs with
  | [] => Ok (st, [])
  | ev :: evs =>
      '(st1, o1) ← conn_step cfg ev st;
      '(st2, o2) ← conn_run cfg evs st1;
      Ok (st2, o1 ++ o2)
  end.

(** ** Observations *)

(** The push frames of a sequence number among the outputs. *)
Definition is_push (seq : Z) (o : conn_out) : bool :=
  match o with OutPush s _ => s =? seq | _ => false end.
Definition push_count (seq : Z) (outs : list conn_out) : nat :=
  length (filter (fun o => is_push seq o = true) outs).

(** One entry followed over [n] ticks without an acknowledgement. *)
Fixpoint entry_ticks (cfg : rto_cfg) (n : nat) (m : option write_msg_t)
  : result string (option write_msg_t * nat) :=
  match n, m with
  | O, _ | _, None => Ok (m, O)
  | S n, Some msg =>
      '(m', r) ← rto_entry cfg msg;
      '(m'', k) ← entry_ticks cfg n m';
      Ok (m'', (if r : bool then 1 else 0)%nat + k)%nat
  end.

(** An event that neither sends nor acknowledges [seq], and whose tick (if it
    is one) visits the queue's keys once each, as a Go range loop does. *)
Definition event_quiet (seq : Z) (ev : conn_event) (st : conn_state) : Prop :=
  match ev with
  | EvSend m => pm_id m <> seq
  | EvAck s => s <> seq
  | EvTick order => NoDup order /\ forall k, k ∈ order <-> is_Some (write_msg_Q st !! k)
  | _ => True
  end.

Fixpoint events_quiet (cfg : rto_cfg) (seq : Z) (evs : list conn_event) (st : conn_state) : Prop :=
  match evs with
  | [] => True
  | ev :: evs =>
      event_quiet seq ev st /\
      forall st' o, conn_step cfg ev st = Ok (st', o) -> events_quiet cfg seq evs st'
  end.

Definition is_tick (ev : conn_event) : bool :=
  match ev with EvTick _ => true | _ => false end.
Definition ticks (evs : list conn_event) : nat := length (filter (fun e => is_tick e = true) evs).

(** ** Lemmas *)

Lemma push_count_app k o1 o2 : push_count k (o1 ++ o2) = (push_count k o1 + push_count k o2)%nat.
Proof. unfold push_count. by rewrite filter_app, length_app. Qed.

Lemma push_count_resend k seq body :
  push_count k (resend_outs seq body) = if decide (k = seq) then 1%nat else 0%nat.
Proof.
  unfold push_count, resend_outs. rewrite !filter_cons, filter_nil. simpl.
  case_decide; case_decide; simpl; try done.
  all: destruct (Z.eqb_spec seq k); naive_solver.
Qed.

Create Rewrite HintDb rto.
#[export] Hint Rewrite push_count_app push_count_resend : rto.

(** One range loop treats each key by [rto_entry], whatever the order. *)
Lemma rto_tick_lookup cfg order Q Q' outs :
  NoDup order -> rto_tick cfg order Q = Ok (Q', outs) ->
  forall k,
    match Q !! k with
    | Some msg =>
        if decide (k ∈ order)
        then exists r, rto_entry cfg msg = Ok (Q' !! k, r) /\
                       push_count k outs = if r : bool then 1%nat else 0%nat
        else Q' !! k = Some msg /\ push_count k outs = 0%nat
    | None => Q' !! k = None /\ push_count k outs = 0%nat
    end.
Proof.
  revert Q Q' outs; induction order as [|seq order IH]; intros Q Q' outs Hnd Hrun k.
  { injection Hrun as <- <-. destruct (Q !! k); [rewrite decide_False by set_solver|]; done. }
  apply NoDup_cons in Hnd as [Hnotin Hnd]. simpl in Hrun.
  destruct (Q !! seq) as [msg|] eqn:Hseq.
  - destruct (rto_entry cfg msg) as [[m' r]|] eqn:He; [|done]. simpl in Hrun.
    destruct (rto_tick cfg order _) as [[Q1 o1]|] eqn:Ht; [|done]. simpl in Hrun.
    injection Hrun as <- <-. specialize (IH _ _ _ Hnd Ht k).
    rewrite push_count_app. destruct (decide (k = seq)) as [->|Hne].
    + rewrite Hseq, decide_True by set_solver.
      exists r. assert (Q1 !! seq = m' /\ push_count seq o1 = 0%nat) as [<- ->].
      { destruct m'; rewrite ?lookup_insert_eq, ?lookup_delete_eq, ?decide_False in IH by done;
          destruct IH; split; congruence. }
      split; [done|]. destruct r; autorewrite with rto; [by rewrite decide_True|done].
    + replace (push_count k (if r then _ else _)) with 0%nat
        by (destruct r; autorewrite with rto; [by rewrite decide_False|done]).
      replace (match m' with Some m => <[seq:=m]> Q | None => delete seq Q end !! k) with (Q !! k) in IH
        by (destruct m'; by rewrite ?lookup_insert_ne, ?lookup_delete_ne).
      destruct (Q !! k); [|done]. by rewrite (decide_ext _ (k ∈ order)) by (rewrite elem_of_cons; intuition congruence).
  - specialize (IH _ _ _ Hnd Hrun k). destruct (Q !! k) eqn:Hk; [|done].
    assert (k <> seq) by congruence.
    by rewrite (decide_ext _ (k ∈ order)) by (rewrite elem_of_cons; intuition congruence).
Qed.

Lemma rto_entry_ok cfg msg : max_retry_ttl cfg <> 0 -> exists m r, rto_entry cfg msg = Ok (m, r).
Proof.
  intros H. unfold rto_entry. destruct (Z.eqb_spec (max_retry_ttl cfg) 0); [done|]. eauto.
Qed.

Lemma rto_tick_ok cfg order Q :
  max_retry_ttl cfg <> 0 -> exists Q' outs, rto_tick cfg order Q = Ok (Q', outs).
Proof.
  intros H; revert Q; induction order as [|seq order IH]; intros Q; simpl; [by eauto|].
  destruct (Q !! seq) as [msg|]; [|by eauto].
  destruct (rto_entry_ok cfg msg H) as (m & r & ->). simpl.
  destruct (IH (match m with Some m => <[seq:=m]> Q | None => delete seq Q end)) as (Q' & o & ->).
  simpl. eauto.
Qed.

Lemma conn_step_ok cfg ev st :
  max_retry_ttl cfg <> 0 -> exists st' o, conn_step cfg ev st = Ok (st', o).
Proof.
  intros H. unfold conn_step. destruct (running st); simpl; [|by eauto].
  destruct ev; simpl; eauto; [destruct (pm_br_all m); eauto|].
  destruct (rto_tick_ok cfg order (write_msg_Q st) H) as (Q' & o & ->). simpl. eauto.
Qed.

Lemma entry_ticks_none cfg n : entry_ticks cfg n None = Ok (None, 0%nat).
Proof. by destruct n. Qed.

Lemma entry_ticks_add cfg n m x :
  entry_ticks cfg (n + m) x =
    '(x', k) ← entry_ticks cfg n x; '(x'', k') ← entry_ticks cfg m x'; Ok (x'', k + k')%nat.
Proof.
  revert x; induction n as [|n IH]; intros [msg|]; simpl; rewrite ?entry_ticks_none; simpl; try done.
  - by destruct (entry_ticks cfg m (Some msg)) as [[]|].
  - destruct (rto_entry cfg msg) as [[m' r]|]; simpl; [|done].
    rewrite IH. destruct (entry_ticks cfg n m') as [[x' k]|]; simpl; [|done].
    destruct (entry_ticks cfg m x') as [[x'' k']|]; simpl; [|done].
    by rewrite Nat.add_assoc.
Qed.

Lemma conn_run_stopped cfg evs st :
  running st = false -> conn_run cfg evs st = Ok (st, []).
Proof.
  intros H. induction evs as [|ev evs IH]; simpl; [done|].
  unfold conn_step. by rewrite H; simpl; rewrite IH.
Qed.

(** One step of the loop moves an undisturbed entry by one [rto_entry] when
    the event is a tick, and leaves it alone otherwise. *)
Lemma conn_step_quiet cfg seq ev st st' outs :
  running st = true -> event_quiet seq ev st -> conn_step cfg ev st = Ok (st', outs) ->
  entry_ticks cfg (if is_tick ev then 1 else 0) (write_msg_Q st !! seq)
    = Ok (write_msg_Q st' !! seq, push_count seq outs).
Proof.
  intros Hr Hq Hs. unfold conn_step in Hs. rewrite Hr in Hs. simpl in Hs.
  destruct ev as [m| |ok|s|order]; simpl in *.
  - destruct (pm_br_all m); injection Hs as <- <-; simpl; rewrite ?lookup_insert_ne by done.
    all: unfold push_count; rewrite ?filter_cons, ?filter_nil; simpl.
    all: by destruct (Z.eqb_spec (pm_id m) seq).
  - by injection Hs as <- <-.
  - by injection Hs as <- <-.
  - injection Hs as <- <-. simpl. by rewrite lookup_delete_ne.
  - destruct (rto_tick cfg order (write_msg_Q st)) as [[Q o]|] eqn:Ht; simpl in Hs; [|done].
    injection Hs as <- <-. simpl. destruct Hq as [Hnd Hdom].
    pose proof (rto_tick_lookup _ _ _ _ _ Hnd Ht seq) as Hl.
    destruct (write_msg_Q st !! seq) as [msg|] eqn:Hm.
    + rewrite decide_True in Hl by (apply Hdom; by rewrite Hm).
      destruct Hl as (r & -> & ->). simpl. by destruct (Q !! seq), r.
    + by destruct Hl as [-> ->].
Qed.

Lemma ticks_cons ev evs : ticks (ev :: evs) = ((if is_tick ev then 1 else 0) + ticks evs)%nat.
Proof. unfold ticks. rewrite filter_cons. by destruct (is_tick ev). Qed.

Lemma conn_run_quiet cfg seq evs st st' outs :
  running st' = true -> events_quiet cfg seq evs st -> conn_run cfg evs st = Ok (st', outs) ->
  entry_ticks cfg (ticks evs) (write_msg_Q st !! seq)
    = Ok (write_msg_Q st' !! seq, push_count seq outs).
Proof.
  revert st outs; induction evs as [|ev evs IH]; intros st outs Hr Hq Hrun.
  { by injection Hrun as <- <-. }
  destruct (running st) eqn:Hrun0; [|by rewrite conn_run_stopped in Hrun; [injection Hrun as <- <-; congruence|]].
  simpl in Hrun. destruct (conn_step cfg ev st) as [[st1 o1]|] eqn:Hs; simpl in Hrun; [|done].
  destruct (conn_run cfg evs st1) as [[st2 o2]|] eqn:Hr2; simpl in Hrun; [|done].
  injection Hrun as <- <-. destruct Hq as [Hq Hqs].
  rewrite ticks_cons, entry_ticks_add, (conn_step_quiet _ _ _ _ _ _ Hrun0 Hq Hs); simpl.
  rewrite (IH _ _ Hr (Hqs _ _ Hs) Hr2); simpl. by rewrite push_count_app.
Qed.

(** An entry with [r] tries and [w] ticks left is sent again fewer than [r]
    times and lasts exactly [w] ticks. *)
Lemma entry_ticks_bound cfg n body r w :
  1 <= max_retry_ttl cfg -> 1 <= r -> 1 <= w ->
  exists x k, entry_ticks cfg n (Some (WriteMsg body r w)) = Ok (x, k) /\
    Z.of_nat k <= r - 1 /\ (is_Some x <-> Z.of_nat n < w).
Proof.
  intros Hc. revert r w; induction n as [|n IH]; intros r w Hr Hw.
  { simpl. do 2 eexists. split_and!; [done|lia|]. split; [lia|by eauto]. }
  simpl. unfold rto_entry at 1. simpl.
  destruct (Z.eqb_spec (max_retry_ttl cfg) 0); [lia|]. simpl.
  destruct (Z.ltb_spec (w - 1) ((r - 1) * Z.quot (max_wait_ttl cfg) (max_retry_ttl cfg))) as [Hl|Hl];
    (destruct (Z.leb_spec (w - 1) 0);
     [rewrite entry_ticks_none; simpl; do 2 eexists; split_and!; [done|..];
      [destruct (decide (r = 1)); [subst; lia|lia]|split; [by intros []|lia]]|]).
  - assert (r <> 1) by (intros ->; lia).
    destruct (IH (r - 1) (w - 1)) as (x & k & -> & Hk & Hx); [lia..|].
    simpl. do 2 eexists. split_and!; [done|lia|]. rewrite Hx. lia.
  - destruct (IH r (w - 1)) as (x & k & -> & Hk & Hx); [lia..|].
    simpl. do 2 eexists. split_and!; [done|lia|]. rewrite Hx. lia.
Qed.

(** What [writeRTO] with the shipped tunables does to a fresh entry: sent
    again at ticks 9, 17, ..., 57. *)
Definition default_resends (n : nat) : nat := Nat.min 7 ((n - 1) / 8).

Lemma entry_ticks_default n body :
  exists x, entry_ticks default_cfg n (Some (WriteMsg body 8 64)) = Ok (x, default_resends n) /\
            (is_Some x <-> (n < 64)%nat).
Proof.
  assert (Hsmall : forall k, (k <= 64)%nat ->
    exists x, entry_ticks default_cfg k (Some (WriteMsg body 8 64)) = Ok (x, default_resends k) /\
      (is_Some x <-> (k < 64)%nat)).
  { intros k Hk.
    assert (Hall : forallb (fun k =>
      match entry_ticks default_cfg k (Some (WriteMsg body 8 64)) with
      | Ok (x, c) => (c =? default_resends k)%nat &&
                     eqb (match x with Some _ => true | None => false end) (k <? 64)%nat
      | Err _ => false
      end) (List.seq 0 65) = true) by (vm_compute; reflexivity).
    rewrite forallb_forall in Hall. specialize (Hall k ltac:(apply in_seq; lia)).
    destruct (entry_ticks _ _ _) as [[x c]|]; [|done].
    apply andb_prop in Hall as [Hc%Nat.eqb_eq Hx%eqb_prop]. subst c.
    exists x; split; [done|]. rewrite <- Nat.ltb_lt, <- Hx.
    destruct x; split; intros Hs; [done|by eexists|by destruct Hs|done]. }
  destruct (Nat.le_gt_cases n 64) as [H|H]; [by apply Hsmall|].
  assert (exists k, n = (64 + k)%nat) as [k ->] by (exists (n - 64)%nat; lia).
  rewrite entry_ticks_add.
  destruct (Hsmall 64%nat) as (x & -> & Hx); [done|]. simpl.
  destruct x as [x|]; [exfalso; assert (64 < 64)%nat by (apply Hx; by eexists); lia|].
  rewrite entry_ticks_none. simpl. eexists; split; [f_equal; f_equal|].
  - change (default_resends 64) with 7%nat. unfold default_resends.
    rewrite Nat.min_l; [done|]. apply Nat.div_le_lower_bound; lia.
  - split; [by intros []|lia].
Qed.

(** ** Properties *)

(** With the shipped tunables (8 tries, 64 ticks) a targeted message that
    is never acknowledged is put on the wire once when it is sent and again
    at ticks 9, 17, ..., 57: [default_resends n] times in the first [n] ticks,
    hence exactly seven times in all; it leaves the queue at tick 64.  Other
    messages, acknowledgements and the order in which Go visits the queue do
    not change this. *)
Theorem retransmission_schedule m evs st st' outs :
  pm_br_all m = false -> running st = true ->
  conn_run default_cfg (EvSend m :: evs) st = Ok (st', outs) -> running st' = true ->
  (forall st1 o, conn_step default_cfg (EvSend m) st = Ok (st1, o) ->
     events_quiet default_cfg (pm_id m) evs st1) ->
  push_count (pm_id m) outs = S (default_resends (ticks evs)) /\
  (is_Some (write_msg_Q st' !! pm_id m) <-> (ticks evs < 64)%nat).
Proof.
  intros Hbr Hr Hrun Hr' Hq. cbn [conn_run] in Hrun.
  destruct (conn_step default_cfg (EvSend m) st) as [[st1 o1]|] eqn:Hs; [|done]. cbn in Hrun.
  specialize (Hq _ _ eq_refl). unfold conn_step in Hs. rewrite Hr, Hbr in Hs. injection Hs as <- <-.
  destruct (conn_run default_cfg evs _) as [[st2 o2]|] eqn:Hr2; [|done]. injection Hrun as <- <-.
  pose proof (conn_run_quiet _ _ _ _ _ _ Hr' Hq Hr2) as H. simpl in H. rewrite lookup_insert_eq in H.
  destruct (entry_ticks_default (ticks evs) (pm_body m)) as (x & He & Hx).
  rewrite He in H. injection H as <- ->. split; [|done].
  unfold push_count. rewrite !filter_cons. simpl. by rewrite Z.eqb_refl.
Qed.

(** A run in which message 3 is pending and one tick fires. *)
Definition demo_msg : push_msg_t := PushMsg 3 [65] false.
Definition demo_frame : list Z := send_push_msg_to_peer (u32 3) [65] false.

Lemma demo_quiet_tick cfg Q w : events_quiet cfg 3 [EvTick [3]] (ConnState (<[3 := w]> Q) true) <->
  (forall k, k ∈ [3] <-> is_Some ((<[3 := w]> Q : gmap Z write_msg_t) !! k)).
Proof. simpl. split; [tauto|]. intros H. split; [split; [apply NoDup_singleton|done]|done]. Qed.

Lemma retransmission_schedule_witness :
  push_count 3 [OutPush 3 demo_frame; OutStatSend 3] = S (default_resends 1).
Proof.
  refine (proj1 (retransmission_schedule demo_msg [EvTick [3]] (ConnState ∅ true)
    (ConnState {[3 := WriteMsg [65] 8 63]} true) _ eq_refl eq_refl _ eq_refl _)).
  - vm_compute. reflexivity.
  - intros st1 o Hs. unfold conn_step in Hs. cbn [running negb demo_msg pm_br_all] in Hs.
    injection Hs as <- <-. apply demo_quiet_tick. cbn [pm_id demo_msg write_msg_Q]. intros k.
    rewrite list_elem_of_singleton, lookup_insert. case_decide; [subst; split; [by eexists|done]|].
    split; [congruence|]. rewrite lookup_empty. intros [? Hk]. discriminate Hk.
Defined.

(** C6: for every configuration with at least one try and one tick, a pending
    message is sent again fewer than [retry_times] times and is dropped at
    exactly its last tick: retransmission is bounded and the queue drains. *)
Theorem retransmission_bounded cfg seq body r w evs st st' outs :
  1 <= max_retry_ttl cfg -> 1 <= r -> 1 <= w ->
  write_msg_Q st !! seq = Some (WriteMsg body r w) ->
  conn_run cfg evs st = Ok (st', outs) -> running st' = true ->
  events_quiet cfg seq evs st ->
  Z.of_nat (push_count seq outs) <= r - 1 /\
  (is_Some (write_msg_Q st' !! seq) <-> Z.of_nat (ticks evs) < w).
Proof.
  intros Hc Hr Hw Hl Hrun Hr' Hq.
  pose proof (conn_run_quiet _ _ _ _ _ _ Hr' Hq Hrun) as H. rewrite Hl in H.
  destruct (entry_ticks_bound cfg (ticks evs) body r w Hc Hr Hw) as (x & k & He & Hk & Hx).
  rewrite He in H. by injection H as <- <-.
Qed.

Lemma retransmission_bounded_witness :
  Z.of_nat (push_count 3 [OutPush 3 demo_frame; OutStatSend 3]) <= 3 - 1.
Proof.
  refine (proj1 (retransmission_bounded (RtoCfg 3 9) 3 [65] 3 5 [EvTick [3]]
    (ConnState {[3 := WriteMsg [65] 3 5]} true) (ConnState {[3 := WriteMsg [65] 2 4]} true) _
    _ _ _ _ _ _ _)); try (simpl; lia); try (vm_compute; reflexivity).
  apply demo_quiet_tick. intros k.
  rewrite list_elem_of_singleton, lookup_insert. case_decide; [subst; split; [by eexists|done]|].
  split; [congruence|]. rewrite lookup_empty. intros [? Hk]. discriminate Hk.
Defined.

(** C7: an acknowledgement stops retransmission for good: after [EvAck seq]
    no frame with that number leaves the connection unless it is sent anew,
    and the entry never reappears. *)
Theorem ack_stops_retransmission cfg seq evs st st' outs :
  running st = true -> running st' = true ->
  conn_run cfg (EvAck seq :: evs) st = Ok (st', outs) ->
  (forall st1 o, conn_step cfg (EvAck seq) st = Ok (st1, o) -> events_quiet cfg seq evs st1) ->
  push_count seq outs = 0%nat /\ write_msg_Q st' !! seq = None.
Proof.
  intros Hr Hr' Hrun Hq. cbn [conn_run] in Hrun.
  destruct (conn_step cfg (EvAck seq) st) as [[st1 o1]|] eqn:Hs; [|done]. cbn in Hrun.
  specialize (Hq _ _ eq_refl). unfold conn_step in Hs. rewrite Hr in Hs. injection Hs as <- <-.
  destruct (conn_run cfg evs _) as [[st2 o2]|] eqn:Hr2; [|done]. injection Hrun as <- <-.
  pose proof (conn_run_quiet _ _ _ _ _ _ Hr' Hq Hr2) as H. simpl in H.
  rewrite lookup_delete_eq, entry_ticks_none in H. injection H as <- ->. done.
Qed.

Lemma ack_stops_retransmission_witness : push_count 3 [] = 0%nat.
Proof.
  refine (proj1 (ack_stops_retransmission default_cfg 3 [EvTick []]
    (ConnState {[3 := WriteMsg [65] 8 10]} true) (ConnState ∅ true) _ eq_refl eq_refl _ _)).
  - vm_compute. reflexivity.
  - intros st1 o Hs. unfold conn_step in Hs. cbn [running negb] in Hs. injection Hs as <- <-.
    simpl. split; [split; [constructor|]|done]. intros k.
    rewrite lookup_delete. case_decide; [split; [set_solver|intros [? Hk]; discriminate Hk]|].
    rewrite lookup_singleton_ne by done.
    split; [set_solver|intros [? Hk]; discriminate Hk].
Defined.

(** The unspecified order of Go's map iteration is harmless: two ticks that
    visit the same keys in different orders leave the same queue and send each
    number equally often. *)
Theorem tick_order_irrelevant cfg o1 o2 Q Q1 Q2 outs1 outs2 :
  NoDup o1 -> o1 ≡ₚ o2 ->
  rto_tick cfg o1 Q = Ok (Q1, outs1) -> rto_tick cfg o2 Q = Ok (Q2, outs2) ->
  Q1 = Q2 /\ forall k, push_count k outs1 = push_count k outs2.
Proof.
  intros Hnd Hp H1 H2. assert (Hnd2 : NoDup o2) by by rewrite <- Hp.
  pose proof (rto_tick_lookup _ _ _ _ _ Hnd H1) as L1.
  pose proof (rto_tick_lookup _ _ _ _ _ Hnd2 H2) as L2.
  assert (Hall : forall k, Q1 !! k = Q2 !! k /\ push_count k outs1 = push_count k outs2).
  { intros k. specialize (L1 k). specialize (L2 k). destruct (Q !! k) as [msg|].
    - rewrite (decide_ext (k ∈ o1) (k ∈ o2)) in L1 by by rewrite Hp.
      destruct (decide (k ∈ o2)); [|by destruct L1 as [-> ->], L2 as [-> ->]].
      destruct L1 as (r1 & E1 & ->), L2 as (r2 & E2 & ->).
      rewrite E1 in E2. by injection E2 as -> ->.
    - by destruct L1 as [-> ->], L2 as [-> ->]. }
  split; [apply map_eq|]; intros k; apply Hall.
Qed.

Lemma tick_order_irrelevant_witness :
  let Q := {[1 := WriteMsg [] 8 2; 2 := WriteMsg [] 8 1]} : gmap Z write_msg_t in
  exists Q1 Q2 o1 o2, rto_tick default_cfg [1; 2] Q = Ok (Q1, o1) /\
    rto_tick default_cfg [2; 1] Q = Ok (Q2, o2) /\ Q1 = Q2.
Proof.
  intros Q. destruct (rto_tick_ok default_cfg [1; 2] Q) as (Q1 & o1 & H1); [done|].
  destruct (rto_tick_ok default_cfg [2; 1] Q) as (Q2 & o2 & H2); [done|].
  exists Q1, Q2, o1, o2. split_and!; [done|done|].
  refine (proj1 (tick_order_irrelevant default_cfg [1; 2] [2; 1] Q Q1 Q2 o1 o2 _ _ H1 H2)).
  - apply (bool_decide_unpack (NoDup [1; 2])). vm_compute. exact I.
  - apply Permutation_swap.
Defined.

(** The configuration [max_retry_ttl = 0], which the server accepts, makes
    the first tick with a pending message a run-time panic of the writer. *)
Theorem zero_retry_panics w seq order Q :
  seq ∈ order -> is_Some (Q !! seq) -> exists e, rto_tick (RtoCfg 0 w) order Q = Err e.
Proof.
  intros Hin [m Hm]. induction order as [|k order IH]; [set_solver|]. simpl.
  destruct (Q !! k) eqn:Hk; [by eexists|].
  apply IH. apply elem_of_cons in Hin as [->|Hin]; [congruence|done].
Qed.

Lemma zero_retry_panics_witness :
  exists e, rto_tick (RtoCfg 0 64) [4] {[4 := WriteMsg [] 0 64]} = Err e.
Proof.
  apply (zero_retry_panics 64 4 [4] {[4 := WriteMsg [] 0 64]}).
  - by apply list_elem_of_singleton.
  - rewrite lookup_singleton_eq. by eexists.
Defined.
