(* ===== verification/Text.v ===== *)
(** * Text: the string operations the components share

    Strings are sequences of 8-bit code units.  The functions of Go's
    [strings] and [bytes] packages and of JavaScript's [String.prototype] that
    the sources call, on single-character separators. *)

From S2P Require Import Prelude.

Definition is_space (c : ascii) : bool :=
  let n := nat_of_ascii c in ((n =? 32) || ((9 <=? n) && (n <=? 13)))%nat.

(** [strings.Split(s, sep)] for a one-character separator: never empty. *)
Fixpoint split_char (sep : ascii) (s : string) : list string :=
  match s with
  | EmptyString => [EmptyString]
  | String c s =>
      if Ascii.eqb c sep then EmptyString :: split_char sep s
      else match split_char sep s with
           | w :: ws => String c w :: ws
           | [] => [String c EmptyString]
           end
  end.

Fixpoint trim_left (s : string) : string :=
  match s with
  | String c s' => if is_space c then trim_left s' else s
  | EmptyString => EmptyString
  end.

Fixpoint trim_right (s : string) : string :=
  match s with
  | EmptyString => EmptyString
  | String c s =>
      match trim_right s with
      | EmptyString => if is_space c then EmptyString else String c EmptyString
      | s' => String c s'
      end
  end.

(** [strings.TrimSpace]. *)
Definition trim_space (s : string) : string := trim_right (trim_left s).

(** [bytes.Fields]: the maximal runs of non-space characters. *)
Fixpoint fields_from (cur : string) (s : string) : list string :=
  match s with
  | EmptyString => match cur with EmptyString => [] | _ => [cur] end
  | String c s =>
      if is_space c
      then match cur with EmptyString => fields_from "" s | _ => cur :: fields_from "" s end
      else fields_from (cur +:+ String c "") s
  end.
Definition fields (s : string) : list string := fields_from "" s.

(** [bytes.IndexByte(s, c) >= 0]. *)
Fixpoint contains_char (c : ascii) (s : string) : bool :=
  match s with
  | EmptyString => false
  | String d s => Ascii.eqb d c || contains_char c s
  end.

(** [s[:strings.LastIndex(s, c)]], [None] when [c] does not occur. *)
Fixpoint before_last (c : ascii) (s : string) : option string :=
  match s with
  | EmptyString => None
  | String d s =>
      match before_last c s with
      | Some p => Some (String d p)
      | None => if Ascii.eqb d c then Some EmptyString else None
      end
  end.

(** The part after the last [c] (the whole string when [c] does not occur). *)
Fixpoint after_last (c : ascii) (s : string) : string :=
  match s with
  | EmptyString => EmptyString
  | String d s' => if contains_char c s' then after_last c s'
                   else if Ascii.eqb d c then s' else s
  end.

(** [Array.prototype.join] and its inverse use. *)
Fixpoint join (sep : string) (ws : list string) : string :=
  match ws with
  | [] => EmptyString
  | [w] => w
  | w :: ws => w +:+ sep +:+ join sep ws
  end.

(** ** Lemmas *)

Lemma string_app_assoc (a b c : string) : a +:+ (b +:+ c) = (a +:+ b) +:+ c.
Proof. induction a as [|x a IH]; [done|]. exact (f_equal (String x) IH). Qed.

Lemma string_app_nil_r (a : string) : a +:+ "" = a.
Proof. induction a as [|x a IH]; [done|]. exact (f_equal (String x) IH). Qed.

Lemma string_app_inj_l (a b c : string) : a +:+ b = a +:+ c -> b = c.
Proof. induction a as [|x a IH]; simpl; [done|]. intros [= H]. by apply IH. Qed.

Lemma split_char_nonempty sep s : split_char sep s <> [].
Proof. destruct s as [|c s]; simpl; [done|]. destruct (Ascii.eqb c sep); [done|]. by destruct (split_char sep s). Qed.

Lemma split_char_none sep s : contains_char sep s = false -> split_char sep s = [s].
Proof.
  induction s as [|c s IH]; simpl; [done|]. intros [-> H]%orb_false_iff. by rewrite IH.
Qed.

Lemma split_char_cons sep w s : contains_char sep w = false ->
  split_char sep (w +:+ String sep s) = w :: split_char sep s.
Proof.
  induction w as [|c w IH]; simpl; [by rewrite Ascii.eqb_refl|].
  intros [-> H]%orb_false_iff. by rewrite IH.
Qed.

(** Splitting a joined list gives the list back when no item holds the
    separator. *)
Lemma split_join sep ws :
  ws <> [] -> Forall (fun w => contains_char sep w = false) ws ->
  split_char sep (join (String sep "") ws) = ws.
Proof.
  induction ws as [|w ws IH]; [done|]. intros _ [Hw Hws]%Forall_cons.
  destruct ws as [|w' ws]; [by apply split_char_none|].
  change (join _ _) with (w +:+ String sep (join (String sep "") (w' :: ws))).
  rewrite split_char_cons by done. by rewrite IH.
Qed.

Lemma contains_char_app c s t : contains_char c (s +:+ t) = contains_char c s || contains_char c t.
Proof. induction s as [|d s IH]; simpl; [done|]. by rewrite IH, orb_assoc. Qed.

Lemma before_last_app c s t : contains_char c t = false ->
  before_last c (s +:+ String c t) = Some s.
Proof.
  intros Ht.
  assert (Hn : before_last c t = None).
  { induction t as [|d t IH]; simpl in *; [done|].
    apply orb_false_iff in Ht as [-> Ht]. by rewrite IH. }
  induction s as [|d s IH]; simpl; [by rewrite Hn, Ascii.eqb_refl|]. by rewrite IH.
Qed.

Lemma after_last_app c s t : contains_char c t = false -> after_last c (s +:+ String c t) = t.
Proof.
  intros Ht. induction s as [|d s IH]; simpl; [by rewrite Ht, Ascii.eqb_refl|].
  rewrite contains_char_app. simpl. rewrite Ascii.eqb_refl, orb_true_l, orb_true_r. done.
Qed.

(** Every character satisfies [p]. *)
Fixpoint all_chars (p : ascii -> bool) (s : string) : bool :=
  match s with EmptyString => true | String c s => p c && all_chars p s end.

Lemma all_chars_app p s t : all_chars p (s +:+ t) = all_chars p s && all_chars p t.
Proof. induction s as [|c s IH]; simpl; [done|]. by rewrite <- andb_assoc, <- IH. Qed.

Lemma contains_char_all c s : contains_char c s = negb (all_chars (fun d => negb (Ascii.eqb d c)) s).
Proof. induction s as [|d s IH]; simpl; [done|]. rewrite IH. by destruct (Ascii.eqb d c). Qed.

Lemma all_chars_mono p q s :
  (forall c, p c = true -> q c = true) -> all_chars p s = true -> all_chars q s = true.
Proof.
  intros Hpq. induction s as [|c s IH]; simpl; [done|].
  intros [Hc Hs]%andb_prop. rewrite (Hpq _ Hc). by apply IH.
Qed.

Lemma trim_left_id s : all_chars (fun c => negb (is_space c)) s = true -> trim_left s = s.
Proof. destruct s as [|c s]; simpl; [done|]. by destruct (is_space c). Qed.

Lemma trim_right_last s c : is_space c = false -> trim_right (s +:+ String c "") = s +:+ String c "".
Proof.
  intros Hc. induction s as [|d s IH]; simpl; [by rewrite Hc|].
  change (trim_right (s +:+ String c "")) with (trim_right (String.append s (String c ""))) in IH.
  rewrite IH. by destruct s.
Qed.

Lemma trim_right_id s : all_chars (fun c => negb (is_space c)) s = true -> trim_right s = s.
Proof.
  induction s as [|c s IH]; simpl; [done|]. intros [Hc Hs]%andb_prop. rewrite IH by done.
  destruct s; [by destruct (is_space c)|done].
Qed.

Lemma trim_space_id s : all_chars (fun c => negb (is_space c)) s = true -> trim_space s = s.
Proof. intros H. unfold trim_space. rewrite trim_left_id by done. by apply trim_right_id. Qed.

(** ** Decimal numerals *)

Definition is_digit (c : ascii) : bool :=
  let n := nat_of_ascii c in ((48 <=? n) && (n <=? 57))%nat.
Definition numeral_char (c : ascii) : bool := is_digit c || Ascii.eqb c "-".

Lemma pretty_N_char_digit d : is_digit (pretty_N_char d) = true.
Proof. destruct d as [|[[[]|[]|]|[[]|[]|]|]]; try reflexivity; by destruct p. Qed.

Lemma pretty_N_go_digits x s : all_chars is_digit s = true -> all_chars is_digit (pretty_N_go x s) = true.
Proof.
  revert s. induction (N.lt_wf_0 x) as [x _ IH]; intros s Hs.
  destruct (decide (x = 0)%N) as [->|Hx]; [done|].
  rewrite pretty_N_go_step by lia. apply IH; [apply N.div_lt; lia|].
  simpl. by rewrite pretty_N_char_digit.
Qed.

Lemma pretty_N_digits (n : N) : all_chars is_digit (pretty n) = true.
Proof. unfold pretty, pretty_N. case_decide; [done|]. by apply pretty_N_go_digits. Qed.

Lemma pretty_Z_numeral (z : Z) : all_chars numeral_char (pretty z) = true.
Proof.
  assert (Hd : forall n : N, all_chars numeral_char (pretty n) = true).
  { intros n. eapply all_chars_mono; [|apply pretty_N_digits]. unfold numeral_char. by intros c ->. }
  destruct z as [|p|p]; [done|apply (Hd (Npos p))|].
  change (pretty (Z.neg p)) with ("-" +:+ pretty (Npos p)). rewrite all_chars_app, Hd. done.
Qed.

Lemma numeral_char_not_space c : numeral_char c = true -> negb (is_space c) = true.
Proof. destruct c as [[] [] [] [] [] [] [] []]; by vm_compute. Qed.

Lemma numeral_char_ne c d : numeral_char d = false -> numeral_char c = true -> negb (Ascii.eqb c d) = true.
Proof. intros Hd Hc. destruct (Ascii.eqb_spec c d); [congruence|done]. Qed.

Lemma pretty_no_char (z : Z) d : numeral_char d = false -> contains_char d (pretty z) = false.
Proof.
  intros Hd. rewrite contains_char_all.
  rewrite (all_chars_mono numeral_char) by (try apply pretty_Z_numeral; intros; by apply numeral_char_ne).
  done.
Qed.

Lemma pretty_no_space (z : Z) : all_chars (fun c => negb (is_space c)) (pretty z) = true.
Proof. eapply all_chars_mono; [apply numeral_char_not_space|apply pretty_Z_numeral]. Qed.

Lemma contains_char_in c s t : contains_char c (s +:+ String c t) = true.
Proof. rewrite contains_char_app. simpl. by rewrite Ascii.eqb_refl, orb_true_r. Qed.

Lemma trim_right_app s t : trim_right t = t -> t <> "" -> trim_right (s +:+ t) = s +:+ t.
Proof.
  intros Ht Hne. induction s as [|c s IH]; [done|].
  change (trim_right (String c s +:+ t)) with
    (match trim_right (s +:+ t) with
     | EmptyString => if is_space c then EmptyString else String c EmptyString
     | s' => String c s' end).
  rewrite IH. change (String c s +:+ t) with (String c (s +:+ t)).
  destruct s; [by destruct t|done].
Qed.

Lemma pretty_N_go_nonempty x s : s <> "" -> pretty_N_go x s <> "".
Proof.
  revert s. induction (N.lt_wf_0 x) as [x _ IH]; intros s Hs.
  destruct (decide (x = 0)%N) as [->|Hx]; [done|].
  rewrite pretty_N_go_step by lia. by apply IH; [apply N.div_lt; lia|].
Qed.

Lemma pretty_Z_nonempty (z : Z) : pretty z <> "".
Proof.
  assert (Hp : forall p : positive, pretty (Npos p) <> "").
  { intros p. unfold pretty, pretty_N. rewrite decide_False by done.
    rewrite pretty_N_go_step by lia. by apply pretty_N_go_nonempty. }
  destruct z as [|p|p]; [done|apply Hp|done].
Qed.

Lemma substring_all s n : (String.length s <= n)%nat -> String.substring 0 n s = s.
Proof. revert n. induction s as [|c s IH]; intros [|n] Hn; simpl in *; try done; try lia. by rewrite IH by lia. Qed.

Lemma length_app_string (a b : string) : String.length (a +:+ b) = (String.length a + String.length b)%nat.
Proof. induction a as [|c a IH]; [done|]. simpl. by rewrite <- IH. Qed.

Lemma string_app_inj_r (a b s : string) : a +:+ s = b +:+ s -> a = b.
Proof.
  revert b. induction a as [|c a IH]; intros [|d b] H; [done| | |].
  1,2: exfalso; apply (f_equal String.length) in H; rewrite !length_app_string in H; simpl in H; lia.
  change (String c (a +:+ s) = String d (b +:+ s)) in H. injection H as -> H. f_equal. by apply IH.
Qed.
