(* ===== verification/Hub.v ===== *)
(** * Hub: the rooms of the server and the connections registered in them

    The goroutine [hub.run] of [src/server/hub.go] (one per room) and the
    handlers of [hub_rooms].  Connections are pointers shared by the rooms,
    the writers and the readers, so they live in a heap; the [send] channel of
    a connection is its queue and its closed flag.  Sending on or closing a
    closed channel is a run-time panic, which kills the whole process. *)

From S2P Require Import Prelude Rto.

(** ** Connections *)

(** Life of a connection object: created by [websocketHandler], registered
    once, unregistered once by the deferred call of its reader. *)
Inductive phase := Created | Live | Gone.
#[global] Instance phase_eq_dec : EqDecision phase.
Proof. solve_decision. Defined.

Record connection := Connection {
  peer_id : string;
  send : list push_msg_t;
  closed : bool;
  life : phase
}.

Definition set_life (p : phase) (c : connection) : connection :=
  Connection (peer_id c) (send c) (closed c) p.

Abbreviation heap := (gmap nat connection).

(** [close(c.send)]. *)
Definition close_send (h : heap) (p : nat) : result string heap :=
  match h !! p with
  | None => Err "nil pointer dereference"
  | Some c => if closed c then Err "close of closed channel"
              else Ok (<[p := Connection (peer_id c) (send c) true (life c)]> h)
  end.

(** ** One room *)

Record hub := Hub {
  connections : gmap string nat;
  broadcast_q : list push_msg_t;
  peercnt : Z
}.

Definition Newhub : hub := Hub ∅ [] 0.

Section Room.
(** Capacity of every [send] channel (4096 in [websocketHandler]). *)
Context (send_cap : nat).

(** [case c := <-h.register]. *)
Definition hub_register (h : heap) (r : hub) (p : nat) : result string (heap * hub) :=
  match h !! p with
  | None => Err "nil pointer dereference"
  | Some c => Ok (<[p := set_life Live c]> h,
                  Hub (<[peer_id c := p]> (connections r)) (broadcast_q r) (peercnt r + 1))
  end.

(** [case c := <-h.unregister]. *)
Definition hub_unregister (h : heap) (r : hub) (p : nat) : result string (heap * hub) :=
  match h !! p with
  | None => Err "nil pointer dereference"
  | Some c =>
      match connections r !! peer_id c with
      | Some _ =>
          h' ← close_send (<[p := set_life Gone c]> h) p;
          Ok (h', Hub (delete (peer_id c) (connections r)) (broadcast_q r) (peercnt r - 1))
      | None => Ok (<[p := set_life Gone c]> h, r)
      end
  end.

(** The inner [select] of a broadcast: a non-blocking send; a full channel
    closes the connection and forgets it. *)
Definition hub_push (m : push_msg_t) (h : heap) (r : hub) (id : string)
  : result string (heap * hub) :=
  match connections r !! id with
  | None => Ok (h, r)
  | Some p =>
      match h !! p with
      | None => Err "nil pointer dereference"
      | Some c =>
          if closed c then Err "send on closed channel"
          else if (length (send c) <? send_cap)%nat then
            Ok (<[p := Connection (peer_id c) (send c ++ [m]) false (life c)]> h, r)
          else
            h' ← close_send h p;
            Ok (h', Hub (delete (peer_id c) (connections r)) (broadcast_q r) (peercnt r - 1))
      end
  end.

Fixpoint hub_push_all (m : push_msg_t) (order : list string) (h : heap) (r : hub)
  : result string (heap * hub) :=
  match order with
  | [] => Ok (h, r)
  | id :: order => '(h', r') ← hub_push m h r id; hub_push_all m order h' r'
  end.

(** [case m := <-h.broadcast], the map visited in the order given. *)
Definition hub_broadcast (order : list string) (h : heap) (r : hub)
  : result string (heap * hub) :=
  match broadcast_q r with
  | [] => Ok (h, r)
  | m :: q => hub_push_all m order h (Hub (connections r) q (peercnt r))
  end.

(** The events of a room, with those of the goroutines that share its
    connections: creation, delivery by the writer, a queued broadcast. *)
Inductive room_event :=
| EvNew (p : nat) (id : string)
| EvRegister (p : nat)
| EvUnregister (p : nat)
| EvQueue (m : push_msg_t)
| EvBroadcast (order : list string)
| EvDeliver (p : nat).

Definition room_step (ev : room_event) (s : heap * hub) : result string (heap * hub) :=
  let '(h, r) := s in
  match ev with
  | EvNew p id => Ok (<[p := Connection id [] false Created]> h, r)
  | EvRegister p => hub_register h r p
  | EvUnregister p => hub_unregister h r p
  | EvQueue m => Ok (h, Hub (connections r) (broadcast_q r ++ [m]) (peercnt r))
  | EvBroadcast order => hub_broadcast order h r
  | EvDeliver p =>
      match h !! p with
      | None => Err "nil pointer dereference"
      | Some c => Ok (<[p := Connection (peer_id c) (tail (send c)) (closed c) (life c)]> h, r)
      end
  end.

Fixpoint room_run (evs : list room_event) (s : heap * hub) : result string (heap * hub) :=
  match evs with
  | [] => Ok s
  | ev :: evs => s' ← room_step ev s; room_run evs s'
  end.

(** What the program guarantees of its events: objects are fresh, registered
    once, unregistered once after that, and a delivery concerns a known
    object. *)
Definition disciplined (s : heap * hub) (ev : room_event) : Prop :=
  match ev with
  | EvNew p _ => s.1 !! p = None
  | EvRegister p => exists c, s.1 !! p = Some c /\ life c = Created
  | EvUnregister p => exists c, s.1 !! p = Some c /\ life c = Live
  | EvDeliver p => is_Some (s.1 !! p)
  | _ => True
  end.

(** What it does not enforce: no live connection already uses the id. *)
Definition id_free (s : heap * hub) (ev : room_event) : Prop :=
  match ev with
  | EvRegister p => forall c, s.1 !! p = Some c ->
      forall q d, s.1 !! q = Some d -> life d = Live -> peer_id d <> peer_id c
  | _ => True
  end.

Inductive reach (ok : heap * hub -> room_event -> Prop) : list room_event -> heap * hub -> Prop :=
| reach_nil : reach ok [] (∅, Newhub)
| reach_snoc evs s ev s' :
    reach ok evs s -> ok s ev -> room_step ev s = Ok s' -> reach ok (evs ++ [ev]) s'.

(** ** The room invariant *)

Record room_inv (h : heap) (r : hub) : Prop := {
  inv_entry : forall id p, connections r !! id = Some p ->
    exists c, h !! p = Some c /\ peer_id c = id /\ life c = Live /\ closed c = false;
  inv_live : forall p c, h !! p = Some c -> life c = Live -> closed c = false ->
    connections r !! peer_id c = Some p;
  inv_created : forall p c, h !! p = Some c -> life c = Created -> closed c = false;
  inv_distinct : forall p q c d, h !! p = Some c -> h !! q = Some d ->
    life c = Live -> life d = Live -> peer_id c = peer_id d -> p = q;
  inv_cap : forall p c, h !! p = Some c -> (length (send c) <= send_cap)%nat;
  inv_count : peercnt r = Z.of_nat (size (connections r))
}.
End Room.

Arguments room_inv : clear implicits.

(** ** Preservation of the invariant *)

Ltac lookup_cases :=
  repeat match goal with
  | H : <[_ := _]> _ !! _ = Some _ |- _ =>
      rewrite lookup_insert in H; case_decide; simplify_eq/=
  | H : delete _ _ !! _ = Some _ |- _ =>
      rewrite lookup_delete in H; case_decide; simplify_eq/=
  end.

Section RoomLemmas.
Context (cap : nat).

(** Only the queue of a connection changes. *)
Lemma inv_requeue h r p c q :
  room_inv cap h r -> h !! p = Some c -> (length q <= cap)%nat ->
  room_inv cap (<[p := Connection (peer_id c) q (closed c) (life c)]> h) r.
Proof.
  intros [He Hl Hc Hd Hq Hn] Hp Hlen. split.
  - intros id p' Hin. destruct (He _ _ Hin) as (d & Hd' & ?).
    rewrite lookup_insert. case_decide; simplify_eq; eexists; split_and!; by eauto || tauto.
  - intros p' d Hd' ? ?. lookup_cases; eauto.
  - intros p' d Hd' ?. lookup_cases; eauto.
  - intros p' q' d d' H1 H2 ? ? Heq. lookup_cases; eauto.
  - intros p' d Hd'. lookup_cases; eauto.
  - done.
Qed.

(** A listed connection is closed and forgotten. *)
Lemma inv_drop h r id p c l :
  room_inv cap h r -> connections r !! id = Some p -> h !! p = Some c -> l <> Created ->
  room_inv cap (<[p := Connection (peer_id c) (send c) true l]> h)
               (Hub (delete id (connections r)) (broadcast_q r) (peercnt r - 1)).
Proof.
  intros [He Hl Hc Hd Hq Hn] Hin Hp Hnc.
  destruct (He _ _ Hin) as (c' & Hc' & Hid & Hlive & Hopen). simplify_eq.
  split; simpl.
  - intros id' p' Hin'. lookup_cases. destruct (He _ _ Hin') as (d & Hd' & Hid' & ?).
    rewrite lookup_insert_ne; [eauto|]. intros ->. simplify_eq.
  - intros p' d Hd' ? ?. lookup_cases. rewrite lookup_delete_ne; [by eauto|]. eauto.
  - intros p' d Hd' ?. lookup_cases; eauto.
  - intros p' q' d d' H1 H2 ? ? Heq. lookup_cases; eauto.
  - intros p' d Hd'. lookup_cases; eauto.
  - by rewrite (size_delete_Some _ _ p), Hn.
Qed.

Lemma inv_new h r p id :
  room_inv cap h r -> h !! p = None -> room_inv cap (<[p := Connection id [] false Created]> h) r.
Proof.
  intros [He Hl Hc Hd Hq Hn] Hp. split; [|..|done].
  - intros id' p' Hin. destruct (He _ _ Hin) as (d & Hd' & ?).
    rewrite lookup_insert_ne by congruence. eauto.
  - intros p' d Hd' ? ?. lookup_cases; eauto.
  - intros p' d Hd' ?. lookup_cases; eauto.
  - intros p' q' d d' H1 H2 ? ? Heq. lookup_cases; eauto.
  - intros p' d Hd'. lookup_cases; simpl; eauto; lia.
Qed.

Lemma inv_register h r p c :
  room_inv cap h r -> h !! p = Some c -> life c = Created ->
  (forall q d, h !! q = Some d -> life d = Live -> peer_id d <> peer_id c) ->
  room_inv cap (<[p := set_life Live c]> h)
               (Hub (<[peer_id c := p]> (connections r)) (broadcast_q r) (peercnt r + 1)).
Proof.
  intros [He Hl Hc Hd Hq Hn] Hp Hcr Hfree.
  assert (Hnone : connections r !! peer_id c = None).
  { destruct (connections r !! peer_id c) as [q|] eqn:Hin; [|done].
    destruct (He _ _ Hin) as (d & Hd' & Hid & Hlive & _). by destruct (Hfree _ _ Hd'). }
  split; simpl.
  - intros id p' Hin. lookup_cases.
    { rewrite lookup_insert_eq. exists (set_life Live c). split_and!; [done..|exact (Hc _ _ Hp Hcr)]. }
    destruct (He _ _ Hin) as (d & Hd' & ? & ? & ?).
    rewrite lookup_insert_ne by congruence. eauto.
  - intros p' d Hd' ? ?. lookup_cases; [by rewrite lookup_insert_eq|].
    rewrite lookup_insert_ne; [by eauto|]. intros Heq. by eapply Hfree.
  - intros p' d Hd' ?. lookup_cases; eauto.
  - intros p' q' d d' H1 H2 ? ? Heq. lookup_cases; try done; eauto.
    all: exfalso; by eapply Hfree.
  - intros p' d Hd'. lookup_cases; eauto.
  - by rewrite size_insert_None, Hn.
Qed.

(** An unlisted connection leaves. *)
Lemma inv_gone h r p c :
  room_inv cap h r -> h !! p = Some c -> connections r !! peer_id c = None ->
  room_inv cap (<[p := set_life Gone c]> h) r.
Proof.
  intros [He Hl Hc Hd Hq Hn] Hp Hnone. split; [|..|done].
  - intros id p' Hin. destruct (He _ _ Hin) as (d & Hd' & ? & ?).
    rewrite lookup_insert_ne; [eauto|]. intros ->. simplify_eq.
  - intros p' d Hd' ? ?. lookup_cases; eauto.
  - intros p' d Hd' ?. lookup_cases; eauto.
  - intros p' q' d d' H1 H2 ? ? Heq. lookup_cases; eauto.
  - intros p' d Hd'. lookup_cases; eauto.
Qed.

Lemma inv_queue h r q : room_inv cap h r -> room_inv cap h (Hub (connections r) q (peercnt r)).
Proof. by intros []. Qed.

Lemma hub_push_inv m h r id :
  room_inv cap h r ->
  exists h' r', hub_push cap m h r id = Ok (h', r') /\ room_inv cap h' r'.
Proof.
  intros Hi. unfold hub_push. destruct (connections r !! id) as [p|] eqn:Hin; [|by eauto].
  destruct (inv_entry _ _ _ Hi _ _ Hin) as (c & Hc & Hid & Hl & Hopen).
  rewrite Hc, Hopen. destruct (Nat.ltb_spec (length (send c)) cap) as [Hlt|Hge].
  - do 2 eexists; split; [done|]. rewrite <- Hopen.
    apply inv_requeue; [done|done|]. rewrite length_app. simpl. lia.
  - unfold close_send. rewrite Hc, Hopen. simpl. do 2 eexists; split; [done|].
    rewrite Hid. rewrite <- Hid at 1. rewrite Hid, Hl.
    pose proof (inv_drop h r id p c Live Hi Hin Hc) as H. rewrite Hid in H. by apply H.
Qed.

Lemma hub_push_all_inv m order h r :
  room_inv cap h r ->
  exists h' r', hub_push_all cap m order h r = Ok (h', r') /\ room_inv cap h' r'.
Proof.
  revert h r; induction order as [|id order IH]; intros h r Hi; simpl; [by eauto|].
  destruct (hub_push_inv m h r id Hi) as (h1 & r1 & -> & Hi1). simpl. by apply IH.
Qed.

(** Every disciplined event whose id is free succeeds and keeps the
    invariant. *)
Lemma room_step_inv ev h r :
  room_inv cap h r -> disciplined (h, r) ev -> id_free (h, r) ev ->
  exists h' r', room_step cap ev (h, r) = Ok (h', r') /\ room_inv cap h' r'.
Proof.
  intros Hi Hd Hf. destruct ev as [p id|p|p|m|order|p]; simpl in *.
  - do 2 eexists; split; [done|]. by apply inv_new.
  - destruct Hd as (c & Hc & Hcr). unfold hub_register. rewrite Hc.
    do 2 eexists; split; [done|]. apply inv_register; eauto.
  - destruct Hd as (c & Hc & Hl). unfold hub_unregister. rewrite Hc.
    destruct (connections r !! peer_id c) as [q|] eqn:Hin.
    + destruct (inv_entry _ _ _ Hi _ _ Hin) as (d & Hd & Hid & Hld & Ho).
      assert (q = p) as -> by (eapply (inv_distinct _ _ _ Hi); eauto). simplify_eq.
      unfold close_send. rewrite lookup_insert_eq. simpl. rewrite Ho. simpl.
      do 2 eexists; split; [done|]. rewrite insert_insert_eq. by apply inv_drop.
    + do 2 eexists; split; [done|]. by apply inv_gone.
  - do 2 eexists; split; [done|]. by apply inv_queue.
  - unfold hub_broadcast. destruct (broadcast_q r) as [|m q]; [by eauto|].
    apply hub_push_all_inv. by apply inv_queue.
  - destruct Hd as [c Hc]. rewrite Hc. do 2 eexists; split; [done|].
    apply inv_requeue; [done|done|].
    pose proof (inv_cap _ _ _ Hi _ _ Hc). destruct (send c); simpl in *; lia.
Qed.

Lemma reach_inv evs h r :
  reach cap (fun s ev => disciplined s ev /\ id_free s ev) evs (h, r) -> room_inv cap h r.
Proof.
  remember (h, r) as s eqn:Hs. intros Hr. revert h r Hs.
  induction Hr as [|evs [h0 r0] ev s' Hr IH [Hd Hf] Hstep]; intros h r Hs; simplify_eq.
  - split; simpl; intros; try by rewrite ?lookup_empty in *.
  - destruct (room_step_inv ev h0 r0) as (h' & r' & He & Hi); [by apply IH|done|done|].
    rewrite He in Hstep. by simplify_eq.
Qed.
End RoomLemmas.

(** ** Counting registrations *)

Section Counting.
Context (cap : nat).

(** Registrations that replaced an id already listed. *)
Fixpoint collisions (evs : list room_event) (s : heap * hub) : Z :=
  match evs with
  | [] => 0
  | ev :: evs =>
      (match ev with
       | EvRegister p =>
           match s.1 !! p with
           | Some c => match connections s.2 !! peer_id c with Some _ => 1 | None => 0 end
           | None => 0
           end
       | _ => 0
       end) +
      match room_step cap ev s with Ok s' => collisions evs s' | Err _ => 0 end
  end.

Definition excess (r : hub) : Z := peercnt r - Z.of_nat (size (connections r)).

(** Every listed pointer is allocated and listed under its own id: all that
    the counters need. *)
Definition listed_ok (s : heap * hub) : Prop :=
  forall id p, connections s.2 !! id = Some p -> exists c, s.1 !! p = Some c /\ peer_id c = id.

Lemma listed_ok_same_id h r p c c' :
  listed_ok (h, r) -> h !! p = Some c -> peer_id c' = peer_id c -> listed_ok (<[p := c']> h, r).
Proof.
  intros Hok Hp Hid id q Hin. destruct (Hok _ _ Hin) as (d & Hd & He). simpl in *.
  rewrite lookup_insert. case_decide; simplify_eq; eauto.
Qed.

Lemma listed_ok_sub h r r' :
  listed_ok (h, r) -> connections r' ⊆ connections r -> listed_ok (h, r').
Proof. intros Hok Hsub id q Hin. apply (Hok id q). by eapply lookup_weaken. Qed.

Lemma hub_push_excess m h r id h' r' :
  listed_ok (h, r) -> hub_push cap m h r id = Ok (h', r') ->
  excess r' = excess r /\ listed_ok (h', r').
Proof.
  intros Hok. unfold hub_push. destruct (connections r !! id) as [p|] eqn:Hin; [|by intros; simplify_eq].
  destruct (Hok _ _ Hin) as (c & Hp & Hid). simpl in Hp. rewrite Hp.
  destruct (closed c) eqn:Hcl; [done|]. destruct (_ <? _)%nat.
  - intros; simplify_eq. split; [done|]. by eapply listed_ok_same_id.
  - unfold close_send. rewrite Hp, Hcl. simpl. intros; simplify_eq. split.
    + unfold excess. simpl. rewrite (size_delete_Some _ _ p) by done. lia.
    + apply (listed_ok_sub _ r); [by eapply listed_ok_same_id|]. apply delete_subseteq.
Qed.

Lemma hub_push_all_excess m order h r h' r' :
  listed_ok (h, r) -> hub_push_all cap m order h r = Ok (h', r') ->
  excess r' = excess r /\ listed_ok (h', r').
Proof.
  revert h r; induction order as [|id order IH]; intros h r Hok Hrun; simpl in Hrun.
  { by simplify_eq. }
  destruct (hub_push cap m h r id) as [[h1 r1]|] eqn:Hpush; [|done]. simpl in Hrun.
  destruct (hub_push_excess _ _ _ _ _ _ Hok Hpush) as [<- Hok1]. by eapply IH.
Qed.

Lemma hub_unregister_excess h r p h' r' :
  listed_ok (h, r) -> hub_unregister h r p = Ok (h', r') ->
  excess r' = excess r /\ listed_ok (h', r').
Proof.
  intros Hok. unfold hub_unregister. destruct (h !! p) as [c|] eqn:Hp; [|done].
  destruct (connections r !! peer_id c) as [q|] eqn:Hin.
  - unfold close_send. rewrite lookup_insert_eq. simpl. destruct (closed c); [done|]. simpl.
    intros; simplify_eq. unfold excess; simpl. rewrite (size_delete_Some _ _ q) by done.
    split; [lia|]. rewrite insert_insert_eq.
    apply (listed_ok_sub _ r); [by eapply listed_ok_same_id|]. apply delete_subseteq.
  - intros; simplify_eq. split; [done|]. by eapply listed_ok_same_id.
Qed.

Lemma hub_register_excess h r p c h' r' :
  listed_ok (h, r) -> h !! p = Some c -> hub_register h r p = Ok (h', r') ->
  excess r' = excess r + (if connections r !! peer_id c is Some _ then 1 else 0) /\ listed_ok (h', r').
Proof.
  intros Hok Hp. unfold hub_register. rewrite Hp. intros; simplify_eq. split.
  - unfold excess; simpl. destruct (connections r !! peer_id c) eqn:Hin.
    + rewrite map_size_insert_Some by done. lia.
    + rewrite size_insert_None by done. lia.
  - intros id q Hin; simpl in *. lookup_cases; [rewrite lookup_insert_eq; by eexists|].
    destruct (Hok _ _ Hin) as (d & Hd & He). simpl in Hd.
    rewrite lookup_insert. case_decide; simplify_eq; eauto.
Qed.

Lemma room_step_excess ev s s' :
  listed_ok s -> disciplined s ev -> room_step cap ev s = Ok s' ->
  excess s'.2 = excess s.2 + collisions [ev] s /\ listed_ok s'.
Proof.
  destruct s as [h r]. intros Hok Hd Hs. cbn [collisions]. rewrite Hs, Z.add_0_r.
  destruct ev as [p id|p|p|m|order|p]; simpl in *.
  - simplify_eq. split; [simpl; lia|]. intros id' q Hin. destruct (Hok _ _ Hin) as (c & Hc & ?).
    simpl in *. rewrite lookup_insert_ne by congruence. eauto.
  - destruct Hd as (c & Hc & _). rewrite Hc. destruct s' as [h' r'].
    pose proof (hub_register_excess _ _ _ _ _ _ Hok Hc Hs) as H. by destruct (connections r !! peer_id c).
  - destruct s' as [h' r']. rewrite Z.add_0_r. by eapply hub_unregister_excess.
  - simplify_eq. split; [unfold excess; simpl; lia|]. by apply (listed_ok_sub h r).
  - destruct s' as [h' r']. rewrite Z.add_0_r. unfold hub_broadcast in Hs.
    destruct (broadcast_q r); [by simplify_eq|].
    eapply hub_push_all_excess in Hs; [exact Hs|]. by apply (listed_ok_sub h r).
  - destruct Hd as [c Hc]. rewrite Hc in Hs. simplify_eq.
    split; [simpl; lia|]. by eapply listed_ok_same_id.
Qed.

(** A run every event of which is disciplined. *)
Fixpoint disciplined_run (evs : list room_event) (s : heap * hub) : Prop :=
  match evs with
  | [] => True
  | ev :: evs => disciplined s ev /\
                 forall s', room_step cap ev s = Ok s' -> disciplined_run evs s'
  end.

Lemma room_run_excess evs s s' :
  listed_ok s -> disciplined_run evs s -> room_run cap evs s = Ok s' ->
  excess s'.2 = excess s.2 + collisions evs s.
Proof.
  revert s; induction evs as [|ev evs IH]; intros s Hok Hd Hrun.
  { simpl in *. simplify_eq. lia. }
  cbn [room_run] in Hrun. destruct Hd as [Hd Hds].
  destruct (room_step cap ev s) as [s1|] eqn:Hs; [|done]. cbn in Hrun.
  destruct (room_step_excess _ _ _ Hok Hd Hs) as [He Hok1].
  rewrite (IH _ Hok1 (Hds _ eq_refl) Hrun), He. cbn [collisions]. rewrite Hs. lia.
Qed.

Lemma listed_ok_init : listed_ok (∅, Newhub).
Proof. intros id p Hin. simpl in Hin. by rewrite lookup_empty in Hin. Qed.
End Counting.

(** ** Delivery of a broadcast *)

Section Delivery.
Context (cap : nat).

(** What a broadcast of [m] leaves of a listed connection. *)
Definition pushed (m : push_msg_t) (c : connection) : connection :=
  if (length (send c) <? cap)%nat then Connection (peer_id c) (send c ++ [m]) false (life c)
  else Connection (peer_id c) (send c) true (life c).

Lemma hub_push_spec m h r id h' r' :
  room_inv cap h r -> hub_push cap m h r id = Ok (h', r') ->
  match connections r !! id with
  | None => h' = h /\ connections r' = connections r
  | Some p => exists c, h !! p = Some c /\ h' = <[p := pushed m c]> h /\
      connections r' = if (length (send c) <? cap)%nat then connections r
                       else delete id (connections r)
  end.
Proof.
  intros Hi. unfold hub_push. destruct (connections r !! id) as [p|] eqn:Hin; [|by intros; simplify_eq].
  destruct (inv_entry _ _ _ Hi _ _ Hin) as (c & Hc & Hid & Hl & Ho). rewrite Hc, Ho.
  unfold pushed. intros Hrun. exists c. destruct (_ <? _)%nat; [by simplify_eq|].
  unfold close_send in Hrun. rewrite Hc, Ho in Hrun. simpl in Hrun. by simplify_eq.
Qed.

(** A run of pushes touches the listed connections of the visited ids only. *)
Lemma hub_push_all_frame m order h r h' r' :
  room_inv cap h r -> hub_push_all cap m order h r = Ok (h', r') ->
  (forall p, (forall id, connections r !! id = Some p -> id ∉ order) -> h' !! p = h !! p) /\
  (forall id, id ∉ order \/ connections r !! id = None -> connections r' !! id = connections r !! id).
Proof.
  revert h r; induction order as [|k order IH]; intros h r Hi Hrun; simpl in Hrun.
  { by simplify_eq. }
  destruct (hub_push cap m h r k) as [[h1 r1]|] eqn:Hpush; [|done]. simpl in Hrun.
  pose proof (hub_push_spec _ _ _ _ _ _ Hi Hpush) as Hsp.
  destruct (hub_push_inv cap m h r k Hi) as (h2 & r2 & Heq & Hi1). rewrite Hpush in Heq.
  injection Heq as <- <-.
  destruct (IH _ _ Hi1 Hrun) as [Hheap Hconn].
  assert (Hr1 : forall id, connections r1 !! id = connections r !! id \/
                           (id = k /\ connections r1 !! id = None)).
  { intros id. destruct (connections r !! k) as [q|] eqn:Hk; [|left; by destruct Hsp as [_ ->]].
    destruct Hsp as (c & _ & _ & ->). destruct (_ <? _)%nat; [by left|].
    rewrite lookup_delete. case_decide; subst; auto. }
  split.
  - intros p Hp. rewrite Hheap.
    + destruct (connections r !! k) as [q|] eqn:Hk; [|by destruct Hsp as [-> _]].
      destruct Hsp as (c & _ & -> & _). rewrite lookup_insert_ne; [done|].
      intros ->. apply (Hp k); [done|]. apply list_elem_of_here.
    + intros id Hid Hin. destruct (Hr1 id) as [He|[_ He]]; [|congruence].
      apply (Hp id); [congruence|]. by apply list_elem_of_further.
  - intros id Hid. destruct (Hr1 id) as [He|[-> He]].
    + rewrite <- He. apply Hconn. rewrite He. destruct Hid as [Hid|]; [|by right].
      left. intros Hin. apply Hid. by apply list_elem_of_further.
    + destruct Hid as [Hid|Hid]; [exfalso; apply Hid; apply list_elem_of_here|].
      rewrite Hid, <- He. apply Hconn. by right.
Qed.

Lemma hub_push_all_spec m order h r h' r' :
  room_inv cap h r -> NoDup order -> hub_push_all cap m order h r = Ok (h', r') ->
  forall id p c, id ∈ order -> connections r !! id = Some p -> h !! p = Some c ->
    h' !! p = Some (pushed m c) /\
    connections r' !! id = if (length (send c) <? cap)%nat then Some p else None.
Proof.
  revert h r; induction order as [|k order IH]; intros h r Hi Hnd Hrun id p c Hel Hin Hp.
  { by apply not_elem_of_nil in Hel. }
  simpl in Hrun. apply NoDup_cons in Hnd as [Hk Hnd].
  destruct (hub_push cap m h r k) as [[h1 r1]|] eqn:Hpush; [|done]. simpl in Hrun.
  pose proof (hub_push_spec _ _ _ _ _ _ Hi Hpush) as Hsp.
  destruct (hub_push_inv cap m h r k Hi) as (h2 & r2 & Heq & Hi1). rewrite Hpush in Heq.
  injection Heq as <- <-.
  destruct (decide (id = k)) as [->|Hne].
  - rewrite Hin in Hsp. destruct Hsp as (c' & Hc' & -> & Hr1). simplify_eq.
    destruct (hub_push_all_frame _ _ _ _ _ _ Hi1 Hrun) as [Hheap Hconn]. split.
    + rewrite Hheap, lookup_insert_eq; [done|]. intros id Hid.
      destruct (inv_entry _ _ _ Hi1 _ _ Hid) as (d & Hd & Hpd & _).
      rewrite lookup_insert_eq in Hd. simplify_eq.
      destruct (inv_entry _ _ _ Hi _ _ Hin) as (d' & Hd' & Hpd' & _). simplify_eq.
      unfold pushed in *. by destruct (_ <? _)%nat.
    + rewrite Hconn by by left. rewrite Hr1. destruct (_ <? _)%nat; [done|apply lookup_delete_eq].
  - apply elem_of_cons in Hel as [|Hel]; [done|].
    assert (Hpq : forall q, connections r !! k = Some q -> q <> p).
    { intros q Hq ->. destruct (inv_entry _ _ _ Hi _ _ Hq) as (d & Hd & Hpd & _).
      destruct (inv_entry _ _ _ Hi _ _ Hin) as (d' & Hd' & Hpd' & _). congruence. }
    assert (Hin1 : connections r1 !! id = Some p /\ h1 !! p = Some c).
    { destruct (connections r !! k) as [q|]; [destruct Hsp as (d & _ & -> & ->)|by destruct Hsp as [-> ->]].
      rewrite lookup_insert_ne by (by apply Hpq). split; [|done].
      destruct (_ <? _)%nat; [done|]. by rewrite lookup_delete_ne. }
    destruct Hin1. by apply (IH _ _ Hi1 Hnd Hrun id p c).
Qed.
End Delivery.

(** ** Properties *)

(** C1: as long as no two live connections use one [peer_id], a room never
    panics: after any sequence of creations, registrations, deregistrations,
    broadcasts and deliveries, every further event goes through (no send on
    and no close of a closed channel), and [peercnt] is the number of listed
    connections, each of them live and open. *)
Theorem room_never_panics cap evs s ev :
  reach cap (fun s ev => disciplined s ev /\ id_free s ev) evs s ->
  disciplined s ev -> id_free s ev ->
  is_ok (room_step cap ev s) = true /\
  peercnt s.2 = Z.of_nat (size (connections s.2)) /\
  forall id p, connections s.2 !! id = Some p ->
    exists c, s.1 !! p = Some c /\ peer_id c = id /\ life c = Live /\ closed c = false.
Proof.
  destruct s as [h r]. intros Hr Hd Hf. pose proof (reach_inv _ _ _ _ Hr) as Hi.
  destruct (room_step_inv cap ev h r Hi Hd Hf) as (h' & r' & -> & _).
  split_and!; [done|apply (inv_count _ _ _ Hi)|apply (inv_entry _ _ _ Hi)].
Qed.

Lemma room_never_panics_witness :
  is_ok (room_step 4096 (EvNew 0 "a") (∅, Newhub)) = true.
Proof.
  apply (room_never_panics 4096 [] (∅, Newhub) (EvNew 0 "a"));
    [constructor|exact (lookup_empty _)|exact I].
Defined.

(** C3: a broadcast reaches every listed connection exactly once: visiting the
    room's ids in any order, each connection whose channel has room gets one
    copy appended and stays listed, each full one is closed and forgotten, and
    nothing else in the heap changes. *)
Theorem broadcast_exactly_once cap evs h r m q order h' r' :
  reach cap (fun s ev => disciplined s ev /\ id_free s ev) evs (h, r) ->
  broadcast_q r = m :: q ->
  NoDup order -> (forall id, id ∈ order <-> is_Some (connections r !! id)) ->
  hub_broadcast cap order h r = Ok (h', r') ->
  (forall id p c, connections r !! id = Some p -> h !! p = Some c ->
     h' !! p = Some (pushed cap m c) /\
     connections r' !! id = if (length (send c) <? cap)%nat then Some p else None) /\
  (forall p, (forall id, connections r !! id <> Some p) -> h' !! p = h !! p).
Proof.
  intros Hr Hq Hnd Hdom Hrun. pose proof (reach_inv _ _ _ _ Hr) as Hi.
  unfold hub_broadcast in Hrun. rewrite Hq in Hrun.
  pose proof (inv_queue cap h r q Hi) as Hi'. split.
  - intros id p c Hin Hc. eapply (hub_push_all_spec cap m order h _ h' r' Hi'); eauto.
    by apply Hdom.
  - intros p Hp. eapply (hub_push_all_frame cap m order h _ h' r' Hi'); [done|].
    intros id Hin. by destruct (Hp id).
Qed.

Definition demo_room : heap * hub :=
  ({[0%nat := Connection "a" [] false Live]}, Hub {["a" := 0%nat]} [PushMsg 1 [65] true] 1).

Lemma demo_room_reach :
  reach 2 (fun s ev => disciplined s ev /\ id_free s ev)
    [EvNew 0 "a"; EvRegister 0; EvQueue (PushMsg 1 [65] true)] demo_room.
Proof.
  change [_; _; _] with (([] ++ [EvNew 0 "a"]) ++ [EvRegister 0] ++ [EvQueue (PushMsg 1 [65] true)]).
  rewrite app_assoc. eapply reach_snoc; [eapply reach_snoc; [eapply reach_snoc; [constructor|..]|..]|..].
  all: try (vm_compute; reflexivity).
  - split; [exact (lookup_empty _)|exact I].
  - split; [by eexists|]. intros c Hc q d Hd Hl.
    change (<[0%nat := Connection "a" [] false Created]> (∅ : heap) !! q = Some d) in Hd.
    apply lookup_insert_Some in Hd as [[<- <-]|[_ Hd]]; [done|]. by rewrite lookup_empty in Hd.
  - done.
Qed.

Lemma broadcast_exactly_once_witness :
  ({[0%nat := Connection "a" [PushMsg 1 [65] true] false Live]} : heap) !! 0%nat
  = Some (pushed 2 (PushMsg 1 [65] true) (Connection "a" [] false Live)).
Proof.
  destruct (broadcast_exactly_once 2 _ demo_room.1 demo_room.2 (PushMsg 1 [65] true) []
    ["a"] {[0%nat := Connection "a" [PushMsg 1 [65] true] false Live]} (Hub {["a" := 0%nat]} [] 1)
    demo_room_reach eq_refl) as [H _].
  - apply NoDup_singleton.
  - intros id. rewrite list_elem_of_singleton. unfold demo_room; simpl.
    destruct (decide (id = "a")) as [->|Hne].
    { rewrite lookup_singleton_eq. split; [by eexists|done]. }
    rewrite lookup_singleton_ne by done. split; [done|intros [x Hx]; discriminate Hx].
  - vm_compute. reflexivity.
  - apply (H "a" 0%nat (Connection "a" [] false Live)); reflexivity.
Defined.

(** [peercnt] counts registrations, not connections: on every disciplined
    run it exceeds the number of listed connections by the number of
    registrations whose [peer_id] was already listed, so one duplicate id
    leaves the count too high for ever. *)
Theorem peercnt_excess cap evs s :
  disciplined_run cap evs (∅, Newhub) -> room_run cap evs (∅, Newhub) = Ok s ->
  peercnt s.2 - Z.of_nat (size (connections s.2)) = collisions cap evs (∅, Newhub).
Proof.
  intros Hd Hrun. pose proof (room_run_excess _ _ _ _ listed_ok_init Hd Hrun) as H.
  unfold excess in H. rewrite H. done.
Qed.

(** Two connections with one id come and go. *)
Definition duplicate_trace : list room_event :=
  [EvNew 0 "a"; EvNew 1 "a"; EvRegister 0; EvRegister 1; EvUnregister 0; EvUnregister 1].

Lemma peercnt_excess_witness :
  exists s, room_run 4096 duplicate_trace (∅, Newhub) = Ok s /\
    peercnt s.2 - Z.of_nat (size (connections s.2)) = 1.
Proof.
  eexists. split; [vm_compute; reflexivity|].
  rewrite (peercnt_excess 4096 duplicate_trace).
  - vm_compute. reflexivity.
  - repeat (split; [solve [reflexivity|by eexists]|intros ? [= <-]]). exact I.
  - vm_compute. reflexivity.
Defined.

(** The scenario of a slow client that reconnects: its first connection fills
    up and is dropped by a broadcast, the second one registers under the same
    id, then the reader of the first one deregisters it. *)
Definition reconnect_trace (cap : nat) : list room_event :=
  [EvNew 0 "a"; EvNew 1 "a"; EvRegister 0] ++
  mjoin (replicate (S cap) [EvQueue (PushMsg 1 [65] true); EvBroadcast ["a"]]) ++
  [EvRegister 1; EvUnregister 0].

Lemma room_run_app cap e1 e2 s :
  room_run cap (e1 ++ e2) s = (s' ← room_run cap e1 s; room_run cap e2 s').
Proof.
  revert s; induction e1 as [|ev e1 IH]; intros s; simpl; [done|].
  destruct (room_step cap ev s); simpl; [apply IH|done].
Qed.

Lemma disciplined_run_app cap e1 e2 s :
  disciplined_run cap e1 s -> (forall s', room_run cap e1 s = Ok s' -> disciplined_run cap e2 s') ->
  disciplined_run cap (e1 ++ e2) s.
Proof.
  revert s; induction e1 as [|ev e1 IH]; intros s; simpl; [by intros _ H; apply H|].
  intros [Hd Hds] H. split; [done|]. intros s' Hs. apply IH; [by apply Hds|].
  intros s'' Hs''. apply H. by rewrite Hs.
Qed.

(** The room after [k] undelivered broadcasts to connection 0. *)
Definition filling (k : nat) : heap * hub :=
  (<[0%nat := Connection "a" (replicate k (PushMsg 1 [65] true)) false Live]>
     (<[1%nat := Connection "a" [] false Created]> ∅),
   Hub {["a" := 0%nat]} [] 1).

Definition queue_and_broadcast : list room_event :=
  [EvQueue (PushMsg 1 [65] true); EvBroadcast ["a"]].

Lemma filling_step cap k : (k < cap)%nat ->
  room_run cap queue_and_broadcast (filling k) = Ok (filling (S k)).
Proof.
  intros Hk. unfold filling, queue_and_broadcast. simpl. unfold hub_broadcast. simpl.
  unfold hub_push. simpl. rewrite lookup_singleton_eq. simpl. rewrite lookup_insert_eq. simpl.
  rewrite length_replicate. destruct (Nat.ltb_spec k cap); [|lia]. simpl.
  by rewrite insert_insert_eq, <- replicate_S_end.
Qed.

Lemma filling_run cap n k : (k + n <= cap)%nat ->
  room_run cap (mjoin (replicate n queue_and_broadcast)) (filling k) = Ok (filling (k + n)).
Proof.
  revert k; induction n as [|n IH]; intros k Hk.
  { by rewrite Nat.add_0_r. }
  change (mjoin (replicate (S n) queue_and_broadcast))
    with (queue_and_broadcast ++ mjoin (replicate n queue_and_broadcast)).
  rewrite room_run_app, filling_step by lia. simpl. rewrite IH by lia. by rewrite Nat.add_succ_r.
Qed.

(** The slow connection has been dropped. *)
Definition dropped (cap : nat) : heap * hub :=
  (<[0%nat := Connection "a" (replicate cap (PushMsg 1 [65] true)) true Live]>
     (<[1%nat := Connection "a" [] false Created]> ∅), Hub ∅ [] 0).

Lemma filling_full cap : room_run cap queue_and_broadcast (filling cap) = Ok (dropped cap).
Proof.
  unfold filling, queue_and_broadcast. simpl. unfold hub_broadcast. simpl.
  unfold hub_push. simpl. rewrite lookup_singleton_eq. simpl. rewrite lookup_insert_eq. simpl.
  rewrite length_replicate, Nat.ltb_irrefl. unfold close_send. rewrite lookup_insert_eq. simpl.
  unfold dropped. by rewrite insert_insert_eq, delete_singleton_eq.
Qed.

Lemma reconnect_prefix cap :
  room_run cap ([EvNew 0 "a"; EvNew 1 "a"; EvRegister 0] ++
    mjoin (replicate (S cap) queue_and_broadcast)) (∅, Newhub) = Ok (dropped cap).
Proof.
  rewrite replicate_S_end, join_app, room_run_app.
  replace (room_run cap [EvNew 0 "a"; EvNew 1 "a"; EvRegister 0] (∅, Newhub)) with
    (Ok (E:=string) (filling 0)).
  - simpl mbind. cbn [mbind result_bind]. rewrite room_run_app, filling_run by lia.
    cbn [mbind result_bind]. 
    change (mjoin [queue_and_broadcast]) with queue_and_broadcast. apply filling_full.
  - simpl. unfold hub_register. rewrite lookup_insert_ne, lookup_insert_eq by done. simpl.
    unfold filling, set_life. simpl.
    by rewrite (insert_insert_ne ∅ 1%nat 0%nat), insert_insert_eq by done.
Qed.

(** C2: without the distinct-id assumption the server can crash: for every
    channel capacity, a client that stops reading until its channel fills,
    reconnects under its id and only then has its first reader deregister it
    makes the room close a channel twice.  Every event of the trace is one
    the program produces. *)
Theorem reconnect_double_close cap :
  disciplined_run cap (reconnect_trace cap) (∅, Newhub) /\
  room_run cap (reconnect_trace cap) (∅, Newhub) = Err "close of closed channel".
Proof.
  unfold reconnect_trace. rewrite app_assoc. pose proof (reconnect_prefix cap) as Hp.
  change [EvQueue (PushMsg 1 [65] true); EvBroadcast ["a"]] with queue_and_broadcast. split.
  - apply disciplined_run_app.
    + apply disciplined_run_app.
      * simpl. split; [apply lookup_empty|]. intros s' [= <-].
        split; [simpl; by rewrite lookup_insert_ne|].
        intros s' [= <-]. split; [|by intros]. eexists; split; [simpl; by rewrite lookup_insert_ne, lookup_insert_eq|done].
      * intros s' _. clear Hp. revert s'. induction (S cap) as [|n IH]; intros s'; [exact I|].
        simpl. split; [exact I|]. intros. split; [exact I|]. intros. apply IH.
    + intros s' Hs. rewrite Hp in Hs. injection Hs as <-. split.
      { unfold dropped. eexists; split; [simpl; by rewrite lookup_insert_ne, lookup_insert_eq|done]. }
      intros s' Hs. split; [|by intros]. unfold dropped in Hs. simpl in Hs. unfold hub_register in Hs.
      rewrite lookup_insert_ne, lookup_insert_eq in Hs by done. injection Hs as <-.
      eexists; split; [simpl; by rewrite lookup_insert_ne, lookup_insert_eq|done].
  - rewrite room_run_app, Hp. unfold dropped. simpl. unfold hub_register.
    rewrite lookup_insert_ne, lookup_insert_eq by done. simpl. unfold hub_unregister.
    rewrite lookup_insert_ne, lookup_insert_eq by done. simpl.
    rewrite lookup_insert_eq. unfold close_send. by rewrite lookup_insert_eq.
Qed.
