(* ===== verification/Rooms.v ===== *)
(** * Rooms: the hub of rooms, its counters and the console's HTTP handlers

    [hub_rooms] of [src/server/hub.go] and the handlers of
    [src/server/apis.go].  The consistent hash that places a peer in a room is
    third-party code: a parameter [cst_get] of the definitions. *)

From S2P Require Import Prelude Text Rto Hub.

(** ** State *)

Record msg_stat_t := MsgStat { send_msg_cnt : Z; recv_ack_cnt : Z }.

Record hub_room_stat_t := HubStat {
  total_msg_cnt : Z; total_msg_size : Z; total_consume_time : Z; total_peer_cnt : Z
}.

Record hub_rooms := HubRooms {
  rooms : gmap string hub;
  rooms_ids : list string;
  stats : hub_room_stat_t;
  msg_stats : gmap Z msg_stat_t
}.

Definition set_rooms (r : gmap string hub) (hr : hub_rooms) : hub_rooms :=
  HubRooms r (rooms_ids hr) (stats hr) (msg_stats hr).
Definition set_stats (s : hub_room_stat_t) (hr : hub_rooms) : hub_rooms :=
  HubRooms (rooms hr) (rooms_ids hr) s (msg_stats hr).

(** ** Start *)

Definition MAX_ROOM_NUM : Z := 100.
Definition RESERVED_ROOM_NUM : Z := 10.

Definition clamp_room_limit (room_limit : Z) : Z :=
  let n := if MAX_ROOM_NUM <? room_limit then MAX_ROOM_NUM else room_limit in
  if n <? RESERVED_ROOM_NUM then RESERVED_ROOM_NUM else n.

(** [fmt.Sprintf] of the room number; [strconv.Itoa] in the handlers gives the
    same digits. *)
Definition room_name (i : Z) : string := "room_" +:+ pretty i.

Definition hub_rooms_run (room_limit : Z) : hub_rooms :=
  let ids := map room_name (seqZ 0 (clamp_room_limit room_limit)) in
  HubRooms (list_to_map (map (fun id => (id, Newhub)) ids)) ids (HubStat 0 0 0 0) ∅.

(** ** Broadcasting *)

(** The part every broadcast starts with: a fresh number and its counters. *)
Definition new_push (is_br_all : bool) (br_msg : list Z) (hr : hub_rooms)
  : push_msg_t * hub_rooms :=
  let s := stats hr in
  let id := total_msg_cnt s + 1 in
  (PushMsg id br_msg is_br_all,
   HubRooms (rooms hr) (rooms_ids hr)
     (HubStat id (total_msg_size s) (total_consume_time s) (total_peer_cnt s))
     (<[id := MsgStat 0 0]> (msg_stats hr))).

(** The part every broadcast ends with; [diff] is the elapsed time. *)
Definition account (br_msg : list Z) (diff : Z) (hr : hub_rooms) : hub_rooms :=
  let s := stats hr in
  set_stats (HubStat (total_msg_cnt s) (total_msg_size s + Z.of_nat (length br_msg))
               (total_consume_time s + diff) (total_peer_cnt s)) hr.

Definition enqueue (m : push_msg_t) (h : hub) : hub :=
  Hub (connections h) (broadcast_q h ++ [m]) (peercnt h).

(** [for _, room_id := range room_ids]: unknown rooms are skipped. *)
Definition push_rooms (m : push_msg_t) (ids : list string) (rs : gmap string hub)
  : gmap string hub :=
  foldl (fun rs id => alter (enqueue m) id rs) rs ids.

Definition broadcast_rooms (room_ids : list string) (br_msg : list Z) (diff : Z) (hr : hub_rooms)
  : hub_rooms :=
  let '(m, hr) := new_push true br_msg hr in
  account br_msg diff (set_rooms (push_rooms m room_ids (rooms hr)) hr).

(** One iteration of the goroutine [broadcast]: all rooms, in map order. *)
Definition broadcast_all (order : list string) (bmsg : list Z) (diff : Z) (hr : hub_rooms)
  : hub_rooms := broadcast_rooms order bmsg diff hr.

Definition stat_send (seq : Z) (hr : hub_rooms) : hub_rooms :=
  HubRooms (rooms hr) (rooms_ids hr) (stats hr)
    (alter (fun v => MsgStat (send_msg_cnt v + 1) (recv_ack_cnt v)) seq (msg_stats hr)).
Definition stat_ack (seq : Z) (hr : hub_rooms) : hub_rooms :=
  HubRooms (rooms hr) (rooms_ids hr) (stats hr)
    (alter (fun v => MsgStat (send_msg_cnt v) (recv_ack_cnt v + 1)) seq (msg_stats hr)).

Section Placement.
(** [cstHash.Get]: [None] when the circle is empty. *)
Context (cst_get : string -> option string).

Definition get_room_id (peer : string) : string := default "" (cst_get peer).

(** A nil room is dereferenced. *)
Definition room_of (peer : string) (hr : hub_rooms) : result string (string * hub) :=
  let id := get_room_id peer in
  match rooms hr !! id with
  | Some h => Ok (id, h)
  | None => Err "nil pointer dereference"
  end.

Definition bump_peers (d : Z) (hr : hub_rooms) : hub_rooms :=
  let s := stats hr in
  set_stats (HubStat (total_msg_cnt s) (total_msg_size s) (total_consume_time s)
               (total_peer_cnt s + d)) hr.

Definition rooms_register (p : nat) (h : heap) (hr : hub_rooms)
  : result string (heap * hub_rooms) :=
  match h !! p with
  | None => Err "nil pointer dereference"
  | Some c =>
      '(id, r) ← room_of (peer_id c) hr;
      '(h', r') ← hub_register h r p;
      Ok (h', bump_peers 1 (set_rooms (<[id := r']> (rooms hr)) hr))
  end.

Definition rooms_unregister (p : nat) (h : heap) (hr : hub_rooms)
  : result string (heap * hub_rooms) :=
  match h !! p with
  | None => Err "nil pointer dereference"
  | Some c =>
      '(id, r) ← room_of (peer_id c) hr;
      '(h', r') ← hub_unregister h r p;
      Ok (h', bump_peers (-1) (set_rooms (<[id := r']> (rooms hr)) hr))
  end.

Definition get_connection_by_peer_id (peer : string) (hr : hub_rooms)
  : result string (option nat) :=
  '(_, r) ← room_of peer hr; Ok (connections r !! peer).

Definition peer_is_online (peer : string) (hr : hub_rooms) : result string bool :=
  c ← get_connection_by_peer_id peer hr;
  Ok (match c with Some _ => true | None => false end).

(** [c.send <- push_msg]: panics on a closed channel. *)
Definition send_direct (m : push_msg_t) (p : nat) (h : heap) : result string heap :=
  match h !! p with
  | None => Err "nil pointer dereference"
  | Some c => if closed c then Err "send on closed channel"
              else Ok (<[p := Connection (peer_id c) (send c ++ [m]) false (life c)]> h)
  end.

Fixpoint push_peers (m : push_msg_t) (peers : list string) (hr : hub_rooms) (h : heap)
  : result string heap :=
  match peers with
  | [] => Ok h
  | peer :: peers =>
      c ← get_connection_by_peer_id peer hr;
      h' ← match c with Some p => send_direct m p h | None => Ok h end;
      push_peers m peers hr h'
  end.

(** [broadcast_peers] with a nil [sc], as its only caller passes it. *)
Definition broadcast_peers (peers : list string) (br_msg : list Z) (diff : Z)
  (h : heap) (hr : hub_rooms) : result string (heap * hub_rooms) :=
  let '(m, hr) := new_push false br_msg hr in
  h' ← push_peers m peers hr h;
  Ok (h', account br_msg diff hr).

Fixpoint online_list (peers : list string) (hr : hub_rooms) : result string (list string) :=
  match peers with
  | [] => Ok []
  | peer :: peers =>
      b ← peer_is_online peer hr;
      l ← online_list peers hr;
      Ok (if b : bool then peer :: l else l)
  end.

(** The answer is the comma-separated list, or nothing when the buffer (with
    its trailing comma) is at most 32 bytes long. *)
Definition peers_is_online (peers : list string) (hr : hub_rooms) : result string string :=
  l ← online_list peers hr;
  let joined := join "," l in
  let buf_len := match l with [] => O | _ => S (String.length joined) end in
  Ok (if (32 <? buf_len)%nat then joined else "").
End Placement.

(** ** HTTP handlers

    A request that passed [check_console_ipf] and whose body was read;
    [decoded] is what [json.Unmarshal] left in [dat] with whether it returned
    no error. *)

Record range_br_msg := RangeMsg { r_from : Z; r_to : Z; r_msg : list Z }.
Record set_br_msg := SetMsg { s_from : string; s_msg : list Z }.
Record peers_br_msg := PeersMsg { p_peers : string; p_msg : list Z }.

Definition int_max : Z := 2 ^ 63 - 1.

(** Go's [int] wraps around. *)
Definition go_int_wrap (z : Z) : Z := (z + 2 ^ 63) mod 2 ^ 64 - 2 ^ 63.

(** [for i := st; i <= et; i++], with as many turns as [fuel] says: [None]
    when there are more. *)
Fixpoint range_loop (fuel : nat) (i et : Z) : option (list string) :=
  match fuel with
  | O => None
  | S n =>
      if i <=? et then ids ← range_loop n (go_int_wrap (i + 1)) et; Some (room_name i :: ids)
      else Some []
  end.

(** A turn for each number of the range and one for the test that ends it. *)
Definition range_fuel (st et : Z) : nat := S (Z.to_nat (et - st + 1)).

(** [None] when the handler never returns. *)
Definition apiBroadcastRange (dat : range_br_msg) (ok : bool) (diff : Z) (hr : hub_rooms)
  : option hub_rooms :=
  room_ids ← (if ok then range_loop (range_fuel (r_from dat) (r_to dat)) (r_from dat) (r_to dat)
              else Some []);
  Some (broadcast_rooms room_ids (r_msg dat) diff hr).

Definition set_room_ids (from : string) : list string :=
  map (fun v => trim_space ("room_" +:+ v)) (split_char ","%char from).

Definition apiBroadcastSet (dat : set_br_msg) (ok : bool) (diff : Z) (hr : hub_rooms)
  : hub_rooms :=
  let room_ids := if ok then set_room_ids (s_from dat) else [] in
  broadcast_rooms room_ids (s_msg dat) diff hr.

Definition parse_peers (peers : string) : list string := map trim_space (split_char ","%char peers).

Definition apiBroadcastPeers (cst_get : string -> option string) (dat : peers_br_msg) (ok : bool)
  (diff : Z) (h : heap) (hr : hub_rooms) : result string (heap * hub_rooms) :=
  let peer_ids := if ok then parse_peers (p_peers dat) else [] in
  broadcast_peers cst_get peer_ids (p_msg dat) diff h hr.

Definition apiPeersIsOnline (cst_get : string -> option string) (peers : string) (ok : bool)
  (hr : hub_rooms) : result string string :=
  peers_is_online cst_get (if ok then parse_peers peers else []) hr.

Definition apiGetServerGroup (hr : hub_rooms) : result string (list (string * Z)) :=
  mapM (M := result string) (fun id =>
    match rooms hr !! id with
    | Some h => Ok (id, Z.of_nat (size (connections h)))
    | None => Err "nil pointer dereference"
    end) (rooms_ids hr).

(** The room is the part of the path after its last slash; a room that does
    not exist is a nil pointer. *)
Definition apiRoomview (path : string) (hr : hub_rooms) : result string (list (string * nat)) :=
  match rooms hr !! after_last "/"%char path with
  | Some h => Ok (map_to_list (connections h))
  | None => Err "nil pointer dereference"
  end.

Record overview := Overview {
  hub_room_cnt : Z; online_peer_cnt : Z; total_br_msg_cnt : Z; total_br_msg_size : Z;
  br_msg_avg_time : Z; ops : Z
}.

(** Go's integer division: [None] is the division-by-zero panic. *)
Definition go_div (a b : Z) : result string Z :=
  if b =? 0 then Err "integer divide by zero" else Ok (Z.quot a b).

Definition apiOverview (hr : hub_rooms) : result string overview :=
  let s := stats hr in
  avg ← (if 0 <? total_msg_cnt s then go_div (total_consume_time s) (total_msg_cnt s) else Ok 0);
  o ← (if (0 <? total_msg_cnt s) && (1000 <? total_consume_time s)
       then t ← go_div (total_consume_time s) 1000; go_div (total_msg_cnt s) t
       else Ok 0);
  Ok (Overview (Z.of_nat (length (rooms_ids hr))) (total_peer_cnt s) (total_msg_cnt s)
        (total_msg_size s) avg o).

(** ** Lemmas *)

Lemma room_name_inj i j : room_name i = room_name j -> i = j.
Proof. intros H. apply string_app_inj_l in H. by apply (inj pretty). Qed.

Lemma clamp_room_limit_range n : RESERVED_ROOM_NUM <= clamp_room_limit n <= MAX_ROOM_NUM.
Proof.
  unfold clamp_room_limit, RESERVED_ROOM_NUM, MAX_ROOM_NUM.
  destruct (Z.ltb_spec 100 n); [simpl; lia|]. destruct (Z.ltb_spec n 10); lia.
Qed.

Definition occurrences (id : string) (ids : list string) : nat :=
  length (filter (fun x => x = id) ids).

Definition enqueue_n (n : nat) (m : push_msg_t) (h : hub) : hub :=
  Hub (connections h) (broadcast_q h ++ replicate n m) (peercnt h).

Lemma push_rooms_lookup m ids rs id :
  push_rooms m ids rs !! id = enqueue_n (occurrences id ids) m <$> rs !! id.
Proof.
  unfold push_rooms, occurrences. revert rs; induction ids as [|k ids IH]; intros rs; simpl.
  { destruct (rs !! id) as [[]|]; simpl; [|done]. unfold enqueue_n. simpl. by rewrite app_nil_r. }
  rewrite IH, filter_cons, lookup_alter. destruct (decide (k = id)) as [->|Hk]; simpl.
  - destruct (rs !! id) as [h|]; simpl; [|done]. unfold enqueue_n, enqueue. simpl.
    by rewrite <- app_assoc.
  - by destruct (rs !! id).
Qed.

Lemma occurrences_app id a b : occurrences id (a ++ b) = (occurrences id a + occurrences id b)%nat.
Proof. unfold occurrences. by rewrite filter_app, length_app. Qed.

Lemma occurrences_notin id ids : id ∉ ids -> occurrences id ids = 0%nat.
Proof.
  unfold occurrences. induction ids as [|k ids IH]; [done|]. rewrite filter_cons.
  intros [Hk H]%not_elem_of_cons. case_decide; [congruence|by apply IH].
Qed.

Lemma occurrences_NoDup id ids : NoDup ids -> id ∈ ids -> occurrences id ids = 1%nat.
Proof.
  induction 1 as [|k ids Hk Hnd IH]; [by intros ?%not_elem_of_nil|]. intros [->|Hin]%elem_of_cons.
  - unfold occurrences. rewrite filter_cons, decide_True by done. simpl.
    f_equal. by apply occurrences_notin.
  - unfold occurrences. rewrite filter_cons. case_decide; [by subst|by apply IH].
Qed.

Lemma go_int_wrap_small z : - 2 ^ 63 <= z <= int_max -> go_int_wrap z = z.
Proof. unfold go_int_wrap, int_max. intros H. rewrite Z.mod_small; lia. Qed.

Lemma go_int_wrap_range z : - 2 ^ 63 <= go_int_wrap z <= int_max.
Proof. unfold go_int_wrap, int_max. pose proof (Z.mod_pos_bound (z + 2 ^ 63) (2 ^ 64)). lia. Qed.

(** The rooms of a range, while no number of it is the last [int]. *)
Definition range_room_ids (st et : Z) : list string :=
  map room_name (seqZ st (et - st + 1)).

Lemma range_loop_spec n st et : - 2 ^ 63 <= st -> et < int_max -> (Z.to_nat (et - st + 1) < n)%nat ->
  range_loop n st et = Some (range_room_ids st et).
Proof.
  intros Hs He. revert st Hs. induction n as [|n IH]; intros st Hs Hn; [lia|]. cbn [range_loop]. unfold range_room_ids.
  destruct (Z.leb_spec st et).
  - rewrite go_int_wrap_small by (unfold int_max in *; lia). rewrite IH by lia. cbn. rewrite seqZ_cons by lia. cbn.
    unfold range_room_ids. by replace (Z.pred (et - st + 1)) with (et - (st + 1) + 1) by lia.
  - by rewrite seqZ_nil by lia.
Qed.

(** Up to the last [int], the loop never ends: every [int] is at most that. *)
Lemma range_loop_endless n st : - 2 ^ 63 <= st <= int_max -> range_loop n st int_max = None.
Proof.
  revert st. induction n as [|n IH]; intros st Hs; [done|]. cbn [range_loop].
  rewrite (proj2 (Z.leb_le st int_max)) by lia. rewrite IH by apply go_int_wrap_range. done.
Qed.

Lemma range_room_ids_NoDup st et : NoDup (range_room_ids st et).
Proof. apply NoDup_fmap_2; [intros i j; apply room_name_inj|apply NoDup_seqZ]. Qed.

Lemma elem_of_range_room_ids st et i : room_name i ∈ range_room_ids st et <-> st <= i <= et.
Proof.
  unfold range_room_ids. rewrite list_elem_of_fmap. setoid_rewrite elem_of_seqZ. split.
  - intros (j & Hj%room_name_inj & Hr). lia.
  - intros H. exists i. split; [done|lia].
Qed.

Lemma broadcast_rooms_lookup ids msg diff hr id :
  rooms (broadcast_rooms ids msg diff hr) !! id =
  enqueue_n (occurrences id ids) (PushMsg (total_msg_cnt (stats hr) + 1) msg true) <$> rooms hr !! id.
Proof. apply push_rooms_lookup. Qed.

Lemma trim_room_name s :
  all_chars (fun c => negb (is_space c)) s = true -> trim_space ("room_" +:+ s) = "room_" +:+ s.
Proof. intros H. apply trim_space_id. by rewrite all_chars_app, H. Qed.

Lemma set_room_ids_join (ns : list Z) :
  ns <> [] -> set_room_ids (join "," (map pretty ns)) = map room_name ns.
Proof.
  intros Hne. unfold set_room_ids. rewrite (split_join ","%char).
  - rewrite map_map. apply map_ext. intros i. apply trim_room_name, pretty_no_space.
  - by destruct ns.
  - apply Forall_fmap, Forall_true. intros i. by apply pretty_no_char.
Qed.

(** ** Message numbers *)

(** The requests and notifications that reach the hub of rooms. *)
Inductive rooms_op :=
| OpRooms (ids : list string) (msg : list Z) (diff : Z)
| OpPeers (peers : list string) (msg : list Z) (diff : Z)
| OpStatSend (seq : Z)
| OpStatAck (seq : Z)
| OpRegister (p : nat)
| OpUnregister (p : nat).

Section Ops.
Context (cst_get : string -> option string).

Definition rooms_exec (op : rooms_op) (s : heap * hub_rooms) : result string (heap * hub_rooms) :=
  let '(h, hr) := s in
  match op with
  | OpRooms ids msg diff => Ok (h, broadcast_rooms ids msg diff hr)
  | OpPeers peers msg diff => broadcast_peers cst_get peers msg diff h hr
  | OpStatSend seq => Ok (h, stat_send seq hr)
  | OpStatAck seq => Ok (h, stat_ack seq hr)
  | OpRegister p => rooms_register cst_get p h hr
  | OpUnregister p => rooms_unregister cst_get p h hr
  end.

Fixpoint rooms_execs (ops : list rooms_op) (s : heap * hub_rooms) : result string (heap * hub_rooms) :=
  match ops with
  | [] => Ok s
  | op :: ops => s' ← rooms_exec op s; rooms_execs ops s'
  end.

Definition is_broadcast (op : rooms_op) : bool :=
  match op with OpRooms _ _ _ | OpPeers _ _ _ => true | _ => false end.

(** The numbers that have counters are 1, 2, ..., [total_msg_cnt]. *)
Definition numbered (hr : hub_rooms) : Prop :=
  0 <= total_msg_cnt (stats hr) /\
  forall k, is_Some (msg_stats hr !! k) <-> 1 <= k <= total_msg_cnt (stats hr).

Lemma numbered_new_push b msg hr m hr' :
  numbered hr -> new_push b msg hr = (m, hr') ->
  numbered hr' /\ total_msg_cnt (stats hr') = total_msg_cnt (stats hr) + 1 /\
  pm_id m = total_msg_cnt (stats hr') /\ msg_stats hr !! pm_id m = None.
Proof.
  intros [Hpos Hn] [= <- <-]. unfold numbered; simpl. split_and!; try lia.
  - intros k. rewrite lookup_insert. case_decide; [subst; split; [lia|by eexists]|].
    rewrite Hn. lia.
  - apply eq_None_not_Some. rewrite Hn. lia.
Qed.

Lemma numbered_stats hr hr' :
  numbered hr -> total_msg_cnt (stats hr') = total_msg_cnt (stats hr) ->
  (forall k, is_Some (msg_stats hr' !! k) <-> is_Some (msg_stats hr !! k)) -> numbered hr'.
Proof. intros [Hpos Hn] He Hk. split; [lia|]. intros k. by rewrite Hk, Hn, He. Qed.

Lemma is_Some_alter {A} (f : A -> A) i (m : gmap Z A) k :
  is_Some (alter f i m !! k) <-> is_Some (m !! k).
Proof. rewrite lookup_alter. case_decide; subst; [by rewrite fmap_is_Some|done]. Qed.

Lemma rooms_exec_numbered op h hr h' hr' :
  numbered hr -> rooms_exec op (h, hr) = Ok (h', hr') ->
  numbered hr' /\
  total_msg_cnt (stats hr') = total_msg_cnt (stats hr) + (if is_broadcast op then 1 else 0).
Proof.
  intros Hn He. destruct op as [ids msg diff|peers msg diff|seq|seq|p|p]; simpl in He |- *.
  - simplify_eq. destruct (numbered_new_push true msg hr _ _ Hn eq_refl) as (Hn' & Ht & _).
    split; [by eapply numbered_stats|done].
  - unfold broadcast_peers in He. destruct (new_push false msg hr) as [m hr1] eqn:Hp.
    destruct (numbered_new_push _ _ _ _ _ Hn Hp) as (Hn' & Ht & _).
    destruct (push_peers _ _ _ _ _); simpl in He; [|done]. simplify_eq.
    split; [by eapply numbered_stats|done].
  - simplify_eq. rewrite Z.add_0_r. split; [|done].
    eapply numbered_stats; [done..|]. intros k. apply is_Some_alter.
  - simplify_eq. rewrite Z.add_0_r. split; [|done].
    eapply numbered_stats; [done..|]. intros k. apply is_Some_alter.
  - unfold rooms_register in He. destruct (h !! p); [|done].
    destruct (room_of _ _ _) as [[id r]|]; simpl in He; [|done].
    destruct (hub_register _ _ _) as [[h1 r1]|]; simpl in He; [|done]. simplify_eq.
    rewrite Z.add_0_r. split; [by apply (numbered_stats hr)|done].
  - unfold rooms_unregister in He. destruct (h !! p); [|done].
    destruct (room_of _ _ _) as [[id r]|]; simpl in He; [|done].
    destruct (hub_unregister _ _ _) as [[h1 r1]|]; simpl in He; [|done]. simplify_eq.
    rewrite Z.add_0_r. split; [by apply (numbered_stats hr)|done].
Qed.

Lemma rooms_execs_numbered ops s s' :
  numbered s.2 -> rooms_execs ops s = Ok s' ->
  numbered s'.2 /\
  total_msg_cnt (stats s'.2) =
    total_msg_cnt (stats s.2) + Z.of_nat (length (filter (fun op => is_broadcast op = true) ops)).
Proof.
  revert s; induction ops as [|op ops IH]; intros [h hr] Hn He; cbn [rooms_execs] in He.
  { simplify_eq. simpl. split; [done|lia]. }
  destruct (rooms_exec op (h, hr)) as [[h1 hr1]|] eqn:H1; cbn in He; [|done].
  destruct (rooms_exec_numbered _ _ _ _ _ Hn H1) as [Hn1 Ht1].
  destruct (IH (h1, hr1) Hn1 He) as [Hn' ->]. split; [done|]. rewrite filter_cons. cbn [snd].
  rewrite Ht1. destruct (is_broadcast op); case_decide; try done; simpl in *; lia.
Qed.

Lemma numbered_start n : numbered (hub_rooms_run n).
Proof.
  split; [done|]. intros k. simpl. rewrite lookup_empty. split; [by intros []|lia].
Qed.
End Ops.

(** What a range broadcast does to each room. *)
Lemma range_broadcast_lookup dat diff hr : - 2 ^ 63 <= r_from dat -> r_to dat < int_max ->
  exists hr', apiBroadcastRange dat true diff hr = Some hr' /\
  (forall i, rooms hr' !! room_name i =
     (if decide (r_from dat <= i <= r_to dat)
      then enqueue (PushMsg (total_msg_cnt (stats hr) + 1) (r_msg dat) true)
      else id) <$> rooms hr !! room_name i) /\
  (forall name, (forall i, name <> room_name i) -> rooms hr' !! name = rooms hr !! name).
Proof.
  intros Hf Ht. unfold apiBroadcastRange, range_fuel. rewrite (range_loop_spec _ _ _ Hf Ht) by lia. eexists. split; [reflexivity|]. split.
  - intros i. rewrite broadcast_rooms_lookup. case_decide as Hi.
    + rewrite occurrences_NoDup by (apply range_room_ids_NoDup || by apply elem_of_range_room_ids).
      done.
    + rewrite occurrences_notin by by rewrite elem_of_range_room_ids.
      destruct (rooms hr !! room_name i) as [[]|]; [|done]. unfold enqueue_n; simpl.
      by rewrite app_nil_r.
  - intros name Hn. rewrite broadcast_rooms_lookup, occurrences_notin.
    + destruct (rooms hr !! name) as [[]|]; [|done]. unfold enqueue_n; simpl. by rewrite app_nil_r.
    + unfold range_room_ids. rewrite list_elem_of_fmap. intros (i & -> & _). by apply (Hn i).
Qed.

(** ** Properties *)

(** Whatever [max_room_limit] the configuration holds, the server starts
    with between 10 and 100 rooms, all named differently and all empty. *)
Theorem start_rooms room_limit :
  let hr := hub_rooms_run room_limit in
  10 <= Z.of_nat (length (rooms_ids hr)) <= 100 /\ NoDup (rooms_ids hr) /\
  forall id, rooms hr !! id = if decide (id ∈ rooms_ids hr) then Some Newhub else None.
Proof.
  pose proof (clamp_room_limit_range room_limit) as Hr. unfold RESERVED_ROOM_NUM, MAX_ROOM_NUM in Hr.
  assert (Hnd : NoDup (map room_name (seqZ 0 (clamp_room_limit room_limit)))).
  { apply NoDup_fmap_2; [intros i j; apply room_name_inj|apply NoDup_seqZ]. }
  simpl. split_and!; [rewrite length_map, length_seqZ; lia|rewrite length_map, length_seqZ; lia|done|].
  intros id. set (ids := map _ _) in *. case_decide as Hin.
  - apply elem_of_list_to_map; [by rewrite map_map, map_id|].
    apply list_elem_of_fmap. by exists id.
  - apply not_elem_of_list_to_map. by rewrite map_map, map_id.
Qed.

(** A set broadcast whose list was written without blanks reaches each
    existing room as many times as the list names it, and no other room. *)
Theorem set_broadcast_exact ns msg diff hr name :
  ns <> [] ->
  rooms (apiBroadcastSet (SetMsg (join "," (map pretty ns)) msg) true diff hr) !! name =
  enqueue_n (occurrences name (map room_name ns)) (PushMsg (total_msg_cnt (stats hr) + 1) msg true)
    <$> rooms hr !! name.
Proof.
  intros Hne. unfold apiBroadcastSet. simpl. rewrite set_room_ids_join by done.
  apply (broadcast_rooms_lookup _ _ diff).
Qed.

Lemma set_broadcast_exact_witness :
  rooms (apiBroadcastSet (SetMsg (join "," (map pretty [0; 3])) [65]) true 0 (hub_rooms_run 10))
    !! "room_3" = Some (Hub ∅ [PushMsg 1 [65] true] 0).
Proof.
  rewrite (set_broadcast_exact [0; 3] [65] 0 (hub_rooms_run 10) "room_3"); [|discriminate].
  vm_compute. reflexivity.
Defined.

(** A blank after the comma of a room list makes its room unreachable: the
    blank stays inside the name [room_ j], which is the name of no room. *)
Theorem set_broadcast_blank (i j : Z) :
  set_room_ids (pretty i +:+ ", " +:+ pretty j) = [room_name i; "room_ " +:+ pretty j] /\
  forall k, "room_ " +:+ pretty j <> room_name k.
Proof.
  split.
  - change (pretty i +:+ ", " +:+ pretty j) with (pretty i +:+ String "," (" " +:+ pretty j)).
    unfold set_room_ids. rewrite split_char_cons by by apply pretty_no_char.
    rewrite split_char_none by (simpl; by apply pretty_no_char). cbn [map].
    rewrite trim_room_name by apply pretty_no_space. f_equal. f_equal.
    change ("room_" +:+ " " +:+ pretty j) with ("room_ " +:+ pretty j).
    unfold trim_space. apply (trim_right_app "room_ ");
      [apply trim_right_id, pretty_no_space|apply pretty_Z_nonempty].
  - intros k Hk. assert (Hs : contains_char " " ("room_ " +:+ pretty j) = true) by done.
    rewrite Hk in Hs. unfold room_name in Hs. rewrite contains_char_app, pretty_no_char in Hs by done.
    done.
Qed.

(** Every broadcast gets a number of its own: whatever requests,
    acknowledgements and registrations reach the server, the numbers in use
    are exactly 1, ..., n where n is the number of broadcasts so far, and the
    next broadcast takes a number no counter has. *)
Theorem message_numbers_fresh cst_get limit ops h s' b msg :
  rooms_execs cst_get ops (h, hub_rooms_run limit) = Ok s' ->
  let n := Z.of_nat (length (filter (fun op => is_broadcast op = true) ops)) in
  (forall k, is_Some (msg_stats s'.2 !! k) <-> 1 <= k <= n) /\
  pm_id (new_push b msg s'.2).1 = n + 1 /\
  msg_stats s'.2 !! pm_id (new_push b msg s'.2).1 = None.
Proof.
  intros He n. destruct (rooms_execs_numbered cst_get ops (h, hub_rooms_run limit) s' (numbered_start limit) He) as [Hn Ht].
  destruct (numbered_new_push b msg s'.2 _ _ Hn eq_refl) as (_ & Ht' & Hid & Hf).
  destruct Hn as [_ Hn]. simpl in Ht. split_and!; [|simpl; lia|done].
  intros k. rewrite Hn. lia.
Qed.

Lemma message_numbers_fresh_witness :
  pm_id (new_push true [] (broadcast_rooms ["room_1"] [65] 3 (hub_rooms_run 10))).1 = 2.
Proof.
  refine (proj1 (proj2 (message_numbers_fresh (fun _ => Some "room_0") 10
    [OpRooms ["room_1"] [65] 3] ∅ (∅, broadcast_rooms ["room_1"] [65] 3 (hub_rooms_run 10)) true [] _))).
  reflexivity.
Defined.

(** The overview never divides by zero, whatever the counters hold, and
    when it reports a rate the rate is messages per whole second spent. *)
Theorem overview_total hr :
  exists o, apiOverview hr = Ok o /\
    ops o = if (0 <? total_msg_cnt (stats hr)) && (1000 <? total_consume_time (stats hr))
            then Z.quot (total_msg_cnt (stats hr)) (Z.quot (total_consume_time (stats hr)) 1000)
            else 0.
Proof.
  unfold apiOverview, go_div. destruct (Z.ltb_spec 0 (total_msg_cnt (stats hr))) as [H|H]; simpl; [|eauto].
  destruct (Z.eqb_spec (total_msg_cnt (stats hr)) 0); [lia|]. simpl.
  destruct (Z.ltb_spec 1000 (total_consume_time (stats hr))) as [Ht|Ht]; simpl; [|eauto].
  destruct (Z.eqb_spec (Z.quot (total_consume_time (stats hr)) 1000) 0) as [He|He]; simpl; [|eauto].
  exfalso. assert (1 <= Z.quot (total_consume_time (stats hr)) 1000); [|lia].
  rewrite Z.quot_div_nonneg by lia. apply Z.div_le_lower_bound; lia.
Qed.

(** A peer its room lists. *)
Definition online (cst_get : string -> option string) (hr : hub_rooms) (p : string) : bool :=
  match peer_is_online cst_get p hr with Ok b => b | Err _ => false end.

Lemma online_list_spec cst_get peers hr l :
  online_list cst_get peers hr = Ok l ->
  l = filter (fun p => online cst_get hr p = true) peers.
Proof.
  revert l; induction peers as [|p peers IH]; intros l He; cbn [online_list] in He.
  { by simplify_eq. }
  destruct (peer_is_online cst_get p hr) as [b|] eqn:Hb; cbn in He; [|done].
  destruct (online_list cst_get peers hr) as [l'|]; cbn in He; [|done]. simplify_eq.
  assert (Ho : online cst_get hr p = b) by (unfold online; by rewrite Hb).
  rewrite filter_cons, Ho, (IH l' eq_refl). by destruct b.
Qed.

(** The presence query answers with the comma-separated list of exactly
    those asked peers that are online, except that an answer shorter than 32
    bytes is lost: it is reported as nobody online. *)
Theorem presence_answer cst_get peers hr ans :
  peers_is_online cst_get peers hr = Ok ans ->
  let joined := join "," (filter (fun p => online cst_get hr p = true) peers) in
  ans = if (32 <=? String.length joined)%nat then joined else "".
Proof.
  unfold peers_is_online. intros He. destruct (online_list cst_get peers hr) as [l|] eqn:Hl; cbn in He; [|done].
  rewrite <- (online_list_spec _ _ _ _ Hl). cbn zeta. injection He as <-.
  by destruct l.
Qed.

Lemma presence_answer_witness :
  let hr := HubRooms {["room_0" := Hub {["a" := 0%nat]} [] 1]} ["room_0"] (HubStat 0 0 0 1) ∅ in
  exists ans, peers_is_online (fun _ => Some "room_0") ["a"] hr = Ok ans /\ ans = "".
Proof.
  eexists. split; [vm_compute; reflexivity|].
  refine (eq_trans (presence_answer (fun _ => Some "room_0") ["a"]
    (HubRooms {["room_0" := Hub {["a" := 0%nat]} [] 1]} ["room_0"] (HubStat 0 0 0 1) ∅) "" _) _);
    vm_compute; reflexivity.
Defined.
