(* ===== verification/IpFilter.v ===== *)
(** * IpFilter: which addresses may talk to the server

    [src/server/ipfilter.go] and the two guards of [src/server/skytime.go].
    Addresses, networks and their parsers are Go's [net] package: parameters
    of the section. *)

From S2P Require Import Prelude Text.

Section Filter.
Context {IP IPNet : Type}.
Context (ParseIP : string -> option IP) (ParseCIDR : string -> option IPNet).
Context (net_contains : IPNet -> IP -> bool) (ip_equal : IP -> IP -> bool).

Record IPFilter := MkFilter { ipnets : list IPNet; ips : list IP }.

Definition empty_filter : IPFilter := MkFilter [] [].

Definition FilterIP (f : IPFilter) (ip : IP) : bool :=
  existsb (fun item => net_contains item ip) (ipnets f) ||
  existsb (fun item => ip_equal item ip) (ips f).

Definition FilterIPString (f : IPFilter) (s : string) : bool :=
  match ParseIP s with None => false | Some ip => FilterIP f ip end.

Definition AddIPNet (f : IPFilter) (item : IPNet) : IPFilter := MkFilter (ipnets f ++ [item]) (ips f).
Definition AddIP (f : IPFilter) (ip : IP) : IPFilter := MkFilter (ipnets f) (ips f ++ [ip]).

(** The receiver is a pointer, so an error leaves the filter as it is. *)
Definition AddIPNetString (f : IPFilter) (s : string) : IPFilter * bool :=
  match ParseCIDR s with None => (f, false) | Some n => (AddIPNet f n, true) end.
Definition AddIPString (f : IPFilter) (s : string) : IPFilter * bool :=
  match ParseIP s with None => (f, false) | Some ip => (AddIP f ip, true) end.

(** The loop of [Load]: it stops at the first item that does not parse and
    keeps what it added before. *)
Fixpoint load_items (f : IPFilter) (items : list string) : IPFilter * bool :=
  match items with
  | [] => (f, true)
  | item :: items =>
      let '(f', ok) := if contains_char "/" item then AddIPNetString f item else AddIPString f item in
      if ok : bool then load_items f' items else (f', false)
  end.

Definition Load (f : IPFilter) (data : string) : IPFilter * bool := load_items f (fields data).

(** [check_client_ipf] and [check_console_ipf]: they differ in the filter and
    the configured limit only.  [remoteAddr[:pos]] panics without a colon. *)
Definition check_ipf (ip_limit : string) (f : IPFilter) (remoteAddr : string) : result string bool :=
  if String.eqb ip_limit "0.0.0.0" then Ok true else
  match before_last ":" remoteAddr with
  | None => Err "slice bounds out of range"
  | Some remote_peer_ip => Ok (FilterIPString f remote_peer_ip)
  end.

(** ** Specification *)

(** An item of the configuration admits an address. *)
Definition admits (item : string) (ip : IP) : bool :=
  if contains_char "/" item
  then match ParseCIDR item with Some n => net_contains n ip | None => false end
  else match ParseIP item with Some i => ip_equal i ip | None => false end.

Definition parses (item : string) : bool :=
  if contains_char "/" item
  then match ParseCIDR item with Some _ => true | None => false end
  else match ParseIP item with Some _ => true | None => false end.

(** The items that are read before the first bad one. *)
Fixpoint good_prefix (items : list string) : list string :=
  match items with
  | [] => []
  | item :: items => if parses item then item :: good_prefix items else []
  end.

Lemma FilterIP_AddIPNet f n ip : FilterIP (AddIPNet f n) ip = FilterIP f ip || net_contains n ip.
Proof.
  unfold FilterIP, AddIPNet. simpl. rewrite existsb_app. simpl.
  destruct (existsb _ (ipnets f)), (net_contains n ip), (existsb _ (ips f)); done.
Qed.

Lemma FilterIP_AddIP f i ip : FilterIP (AddIP f i) ip = FilterIP f ip || ip_equal i ip.
Proof.
  unfold FilterIP, AddIP. simpl. rewrite existsb_app. simpl.
  destruct (existsb _ (ipnets f)), (ip_equal i ip), (existsb _ (ips f)); done.
Qed.

Lemma load_items_spec items f ip :
  FilterIP (load_items f items).1 ip
    = FilterIP f ip || existsb (fun item => admits item ip) (good_prefix items) /\
  (load_items f items).2 = forallb parses items.
Proof.
  revert f; induction items as [|item items IH]; intros f; [by rewrite orb_false_r|].
  cbn [load_items good_prefix forallb]. unfold AddIPNetString, AddIPString.
  assert (Ha : admits item ip = if contains_char "/" item
    then match ParseCIDR item with Some n => net_contains n ip | None => false end
    else match ParseIP item with Some i => ip_equal i ip | None => false end) by done.
  assert (Hp : parses item = if contains_char "/" item
    then match ParseCIDR item with Some _ => true | None => false end
    else match ParseIP item with Some _ => true | None => false end) by done.
  destruct (contains_char "/" item); [destruct (ParseCIDR item)|destruct (ParseIP item)];
    rewrite Hp; simpl; rewrite ?orb_false_r, ?Ha; [|done| |done].
  - destruct (IH (AddIPNet f i)) as [-> ->]. by rewrite FilterIP_AddIPNet, orb_assoc.
  - destruct (IH (AddIP f i)) as [-> ->]. by rewrite FilterIP_AddIP, orb_assoc.
Qed.

(** ** Properties *)

(** Loading a configured list admits exactly the addresses some item
    before the first malformed one admits (on top of what the filter held),
    and reports success exactly when every item is well formed. *)
Theorem load_exact f data ip :
  FilterIP (Load f data).1 ip
    = FilterIP f ip || existsb (fun item => admits item ip) (good_prefix (fields data)) /\
  (Load f data).2 = forallb parses (fields data).
Proof. apply load_items_spec. Qed.

(** The access guard: with the limit [0.0.0.0] everybody passes; otherwise
    a [host:port] address passes exactly when its host parses and the filter
    admits it. *)
Theorem guard_exact limit f host port :
  contains_char ":" port = false ->
  check_ipf limit f (host +:+ ":" +:+ port) =
  Ok (String.eqb limit "0.0.0.0" ||
      match ParseIP host with Some ip => FilterIP f ip | None => false end).
Proof.
  intros Hp. unfold check_ipf. destruct (String.eqb limit "0.0.0.0"); [done|].
  change (host +:+ ":" +:+ port) with (host +:+ String ":" port). by rewrite before_last_app.
Qed.
End Filter.

Lemma guard_exact_witness :
  check_ipf (IP := string) (IPNet := string) Some (fun _ _ => false) String.eqb "127.0.0.1"
    (MkFilter [] ["10.0.0.7"]) "10.0.0.7:4711" = Ok true.
Proof.
  refine (guard_exact (IPNet := string) Some (fun _ _ => false) String.eqb "127.0.0.1"
    (MkFilter [] ["10.0.0.7"]) "10.0.0.7" "4711" _).
  reflexivity.
Defined.
