(* ===== verification/Js.v ===== *)
(** * Js: the fragment of JavaScript's data the scripts of the console use

    Values, objects in a heap of references, truthiness, [typeof], strict
    equality and property access.  Numbers are the safe integers (exact as
    doubles, [-2^53 < n < 2^53]) and NaN; strings are sequences of 8-bit code
    units; own enumerable properties are kept in insertion order, which is the
    order [for ... in] visits them (non-index keys).  Also: upper and lower case,
    [trim], and sorting with a comparator. *)

From Stdlib Require Import Sorted.
From S2P Require Import Prelude Text.

Inductive jsval : Type :=
| JUndef
| JNull
| JBool (b : bool)
| JNum (n : Z)
| JNaN
| JStr (s : string)
| JRef (r : nat).

#[global] Instance jsval_eq_dec : EqDecision jsval.
Proof. solve_decision. Defined.

(** Objects by class; an invalid date has no time. *)
Inductive jsobj : Type :=
| OPlain (props : list (string * jsval))
| OArray (elems : list jsval)
| ODate (time : option Z)
| ORegExp (source flags : string) (last_index : Z)
| OFun (fid : nat) (props : list (string * jsval)).

Abbreviation jsheap := (gmap nat jsobj).

Definition truthy (v : jsval) : bool :=
  match v with
  | JUndef | JNull | JNaN => false
  | JBool b => b
  | JNum n => negb (n =? 0)
  | JStr s => negb (String.eqb s "")
  | JRef _ => true
  end.

(** [===]. *)
Definition strict_eq (a b : jsval) : bool :=
  match a, b with
  | JNaN, _ | _, JNaN => false
  | _, _ => bool_decide (a = b)
  end.

Section Heap.
Context (h : jsheap).

Definition is_fun (v : jsval) : bool :=
  match v with
  | JRef r => match h !! r with Some (OFun _ _) => true | _ => false end
  | _ => false
  end.

Definition typeof (v : jsval) : string :=
  match v with
  | JUndef => "undefined"
  | JNull => "object"
  | JBool _ => "boolean"
  | JNum _ | JNaN => "number"
  | JStr _ => "string"
  | JRef _ => if is_fun v then "function" else "object"
  end.

Definition isUndefined (v : jsval) : bool := String.eqb (typeof v) "undefined".
Definition isDefined (v : jsval) : bool := negb (String.eqb (typeof v) "undefined").
Definition isString (v : jsval) : bool := String.eqb (typeof v) "string".
Definition isNumber (v : jsval) : bool := String.eqb (typeof v) "number".
Definition isFunction (v : jsval) : bool := String.eqb (typeof v) "function".
Definition isBoolean (v : jsval) : bool := String.eqb (typeof v) "boolean".
Definition isObject (v : jsval) : bool :=
  match v with JUndef | JNull => false | _ => String.eqb (typeof v) "object" end.

Definition isArray (v : jsval) : bool :=
  match v with JRef r => match h !! r with Some (OArray _) => true | _ => false end | _ => false end.
Definition isDate (v : jsval) : bool :=
  match v with JRef r => match h !! r with Some (ODate _) => true | _ => false end | _ => false end.
Definition isRegExp (v : jsval) : bool :=
  match v with JRef r => match h !! r with Some (ORegExp _ _ _) => true | _ => false end | _ => false end.
End Heap.

(** ** Properties: association lists in insertion order *)

Fixpoint prop_get (ps : list (string * jsval)) (k : string) : jsval :=
  match ps with
  | [] => JUndef
  | (k', v) :: ps => if String.eqb k' k then v else prop_get ps k
  end.

Fixpoint prop_has (ps : list (string * jsval)) (k : string) : bool :=
  match ps with
  | [] => false
  | (k', _) :: ps => String.eqb k' k || prop_has ps k
  end.

Fixpoint prop_set (ps : list (string * jsval)) (k : string) (v : jsval) : list (string * jsval) :=
  match ps with
  | [] => [(k, v)]
  | (k', v') :: ps => if String.eqb k' k then (k', v) :: ps else (k', v') :: prop_set ps k v
  end.

Fixpoint prop_del (ps : list (string * jsval)) (k : string) : list (string * jsval) :=
  match ps with
  | [] => []
  | (k', v) :: ps => if String.eqb k' k then ps else (k', v) :: prop_del ps k
  end.

(** The members every object has from [Object.prototype]. *)
Definition object_names : list string :=
  ["constructor"; "toString"; "toLocaleString"; "valueOf"; "hasOwnProperty"; "isPrototypeOf"; "propertyIsEnumerable"; "__proto__";
   "__defineGetter__"; "__defineSetter__"; "__lookupGetter__"; "__lookupSetter__"].

Definition object_name (k : string) : bool := bool_decide (k ∈ object_names).

(** [String(v)] of a primitive; objects are given by their own printer. *)
Definition prim_str (obj_str : nat -> string) (v : jsval) : string :=
  match v with
  | JUndef => "undefined"
  | JNull => "null"
  | JBool b => if b then "true" else "false"
  | JNum n => pretty n
  | JNaN => "NaN"
  | JStr s => s
  | JRef r => obj_str r
  end.

(** The own properties an object enumerates. *)
Definition obj_props (o : jsobj) : list (string * jsval) :=
  match o with
  | OPlain ps | OFun _ ps => ps
  | OArray es => imap (fun i v => (pretty (N.of_nat i), v)) es
  | ODate _ | ORegExp _ _ _ => []
  end.

(** ** Comparing and sorting

    [Array.prototype.sort] with a comparator: the insertion sort, to which every
    stable sort is equal when the comparator is coherent. *)

Definition comparison_of (A : Type) : Type := A -> A -> Z.

Section Sort.
Context {A : Type}.
Abbreviation comparator := (comparison_of A).

Fixpoint first_difference (ps : list comparator) : comparator := fun o1 o2 =>
  match ps with
  | [] => 0
  | p :: ps => let comp := p o1 o2 in if comp =? 0 then first_difference ps o1 o2 else comp
  end.

Fixpoint array_insert (comp : comparator) (x : A) (l : list A) : list A :=
  match l with
  | [] => [x]
  | y :: l => if comp x y <=? 0 then x :: y :: l else y :: array_insert comp x l
  end.
Definition array_sort (comp : comparator) (l : list A) : list A := foldr (array_insert comp) [] l.

Record coherent (P : A -> Prop) (comp : comparator) : Prop := Coherent {
  comp_anti : forall a b, P a -> P b -> comp b a = - comp a b;
  comp_trans : forall a b c, P a -> P b -> P c -> comp a b <= 0 -> comp b c <= 0 -> comp a c <= 0
}.

Definition in_order (comp : comparator) (a b : A) : Prop := comp a b <= 0.

End Sort.

(** [a < b] and the order of strings, by code units. *)
Definition str_lt (a b : string) : bool := String.leb a b && negb (String.eqb a b).

(** ** Text: [toLowerCase], [toUpperCase], [\s] and [trim] on 8-bit code units

    The two letters whose upper case is not one such unit, and the German one
    that becomes two letters, are left as they are. *)

Definition lower_char (c : ascii) : ascii :=
  let n := N_of_ascii c in
  if ((65 <=? n) && (n <=? 90) || (192 <=? n) && (n <=? 222) && negb (n =? 215))%N then ascii_of_N (n + 32) else c.

Definition upper_char (c : ascii) : ascii :=
  let n := N_of_ascii c in
  if ((97 <=? n) && (n <=? 122) || (224 <=? n) && (n <=? 254) && negb (n =? 247))%N then ascii_of_N (n - 32) else c.

Fixpoint lowercase (s : string) : string :=
  match s with
  | EmptyString => EmptyString
  | String c s => String (lower_char c) (lowercase s)
  end.

Fixpoint uppercase (s : string) : string :=
  match s with
  | EmptyString => EmptyString
  | String c s => String (upper_char c) (uppercase s)
  end.

Definition js_space (c : ascii) : bool :=
  let n := nat_of_ascii c in ((n =? 32) || (n =? 160) || ((9 <=? n) && (n <=? 13)))%nat.

Fixpoint trim_start (s : string) : string :=
  match s with
  | String c s' => if js_space c then trim_start s' else s
  | EmptyString => EmptyString
  end.

Fixpoint trim_end (s : string) : string :=
  match s with
  | EmptyString => EmptyString
  | String c s => match trim_end s with
                  | EmptyString => if js_space c then EmptyString else String c EmptyString
                  | s' => String c s'
                  end
  end.

Definition trim (s : string) : string := trim_end (trim_start s).

(** ** Lemmas *)

Lemma prop_get_set_eq ps k v : prop_get (prop_set ps k v) k = v.
Proof.
  induction ps as [|[k' v'] ps IH]; simpl; [by rewrite String.eqb_refl|].
  destruct (String.eqb k' k) eqn:He; simpl; by rewrite ?He.
Qed.

Lemma prop_get_set_ne ps k k' v : k <> k' -> prop_get (prop_set ps k v) k' = prop_get ps k'.
Proof.
  intros Hne. induction ps as [|[q w] ps IH]; simpl.
  { by destruct (String.eqb_spec k k'). }
  destruct (String.eqb_spec q k) as [->|]; simpl; [by destruct (String.eqb_spec k k')|by rewrite IH].
Qed.

Lemma prop_has_set ps k v k' : prop_has (prop_set ps k v) k' = String.eqb k k' || prop_has ps k'.
Proof.
  induction ps as [|[q w] ps IH]; simpl; [done|].
  destruct (String.eqb_spec q k) as [->|]; simpl; [by destruct (String.eqb k k')|].
  rewrite IH. by destruct (String.eqb q k'), (String.eqb k k').
Qed.

Lemma prop_has_false ps k : prop_has ps k = false <-> k ∉ ps.*1.
Proof.
  induction ps as [|[q w] ps IH]; simpl; [split; [by intros _ ?%not_elem_of_nil|done]|].
  rewrite not_elem_of_cons, orb_false_iff, IH. destruct (String.eqb_spec q k); clear IH; intuition congruence.
Qed.

Lemma prop_keys_set ps k v :
  (prop_set ps k v).*1 = if prop_has ps k then ps.*1 else ps.*1 ++ [k].
Proof.
  induction ps as [|[q w] ps IH]; csimpl; [done|].
  destruct (String.eqb_spec q k) as [->|]; csimpl; [done|]. rewrite IH. by destruct (prop_has ps k).
Qed.

Lemma prop_set_NoDup ps k v : NoDup ps.*1 -> NoDup (prop_set ps k v).*1.
Proof.
  intros H. rewrite prop_keys_set. destruct (prop_has ps k) eqn:Hk; [done|].
  apply prop_has_false in Hk. apply NoDup_app. split_and!; [done| |apply NoDup_singleton].
  intros x Hx ->%list_elem_of_singleton. done.
Qed.

Lemma prop_get_del_eq ps k : NoDup ps.*1 -> prop_get (prop_del ps k) k = JUndef.
Proof.
  induction ps as [|[q w] ps IH]; simpl; [done|]. intros [Hq Hnd]%NoDup_cons.
  destruct (String.eqb_spec q k) as [->|]; simpl.
  - apply prop_has_false in Hq. clear -Hq. induction ps as [|[q' w'] ps IH]; simpl in *; [done|].
    apply orb_false_iff in Hq as [-> Hq]. by apply IH.
  - destruct (String.eqb_spec q k); [done|by apply IH].
Qed.

Lemma prop_get_del_ne ps k k' : k <> k' -> prop_get (prop_del ps k) k' = prop_get ps k'.
Proof.
  intros Hne. induction ps as [|[q w] ps IH]; simpl; [done|].
  destruct (String.eqb_spec q k) as [->|]; simpl; [by destruct (String.eqb_spec k k')|].
  by rewrite IH.
Qed.

Lemma strict_eq_true a b : strict_eq a b = true -> a = b.
Proof. destruct a, b; simpl; try done; by intros ?%bool_decide_eq_true. Qed.

Lemma strict_eq_refl a : a <> JNaN -> strict_eq a a = true.
Proof. destruct a; simpl; try done; intros _; by apply bool_decide_eq_true. Qed.

(** ** Coherent comparators sort *)

Definition str_compare (a b : string) : Z := if String.eqb a b then 0 else if str_lt a b then -1 else 1.

Lemma str_lt_flip a b : a <> b -> str_lt b a = negb (str_lt a b).
Proof.
  intros Hne. unfold str_lt. rewrite (proj2 (String.eqb_neq a b)), (proj2 (String.eqb_neq b a)), !andb_true_r by congruence.
  destruct (String.leb a b) eqn:H1, (String.leb b a) eqn:H2; try done.
  - by apply String.leb_antisym in H1.
  - destruct (String.leb_total a b); congruence.
Qed.

Lemma str_compare_anti a b : str_compare b a = - str_compare a b.
Proof.
  unfold str_compare. destruct (String.eqb_spec a b) as [->|Hne]; [by rewrite String.eqb_refl|].
  rewrite (proj2 (String.eqb_neq b a)) by congruence. rewrite (str_lt_flip a b Hne). by destruct (str_lt a b).
Qed.

Lemma str_compare_le a b : str_compare a b <= 0 <-> String.le a b.
Proof.
  unfold str_compare, str_lt, String.le. destruct (String.eqb_spec a b) as [->|Hne].
  - split; [|lia]. intros _. apply String.le_po.
  - rewrite andb_true_r. destruct (String.leb a b); simpl; [split; [done|lia]|split; [lia|done]].
Qed.

Lemma str_compare_trans a b c : str_compare a b <= 0 -> str_compare b c <= 0 -> str_compare a c <= 0.
Proof. rewrite !str_compare_le. apply String.le_po. Qed.

Section SortFacts.
Context {A : Type}.
Abbreviation comparator := (comparison_of A).

Lemma pullback_coherent {B} (P : B -> Prop) (Q : A -> Prop) (comp : comparator) (get : B -> A) : coherent Q comp -> (forall v, P v -> Q (get v)) ->
  coherent P (fun a b => comp (get a) (get b)).
Proof. intros [Ha Ht] Hg. split; [intros; apply Ha; auto|]. intros a b c Hpa Hpb Hpc. apply Ht; auto. Qed.

Lemma first_coherent (P : A -> Prop) (ps : list comparator) : Forall (coherent P) ps -> coherent P (first_difference ps).
Proof.
  induction 1 as [|p ps [Ha Ht] Hps [IHa IHt]]; [by split|]. split.
  - intros a b Hpa Hpb. cbn [first_difference]. rewrite (Ha a b Hpa Hpb), (IHa a b Hpa Hpb).
    destruct (Z.eqb_spec (p a b) 0), (Z.eqb_spec (- p a b) 0); lia.
  - intros a b c Hpa Hpb Hpc. cbn [first_difference].
    pose proof (Ht a b c Hpa Hpb Hpc). pose proof (Ht b c a Hpb Hpc Hpa). pose proof (Ht c a b Hpc Hpa Hpb).
    pose proof (IHt a b c Hpa Hpb Hpc).
    pose proof (Ha a b Hpa Hpb). pose proof (Ha b c Hpb Hpc). pose proof (Ha a c Hpa Hpc).
    destruct (Z.eqb_spec (p a b) 0), (Z.eqb_spec (p b c) 0), (Z.eqb_spec (p a c) 0); lia.
Qed.

Lemma insert_perm (comp : comparator) x l : array_insert comp x l ≡ₚ x :: l.
Proof.
  induction l as [|y l IH]; simpl; [done|]. destruct (comp x y <=? 0); [done|]. rewrite IH. by constructor.
Qed.

Lemma sort_perm (comp : comparator) l : array_sort comp l ≡ₚ l.
Proof. induction l as [|x l IH]; simpl; [done|]. by rewrite insert_perm, IH. Qed.

Lemma insert_sorted (P : A -> Prop) (comp : comparator) x l : coherent P comp -> P x -> Forall P l ->
  StronglySorted (in_order comp) l -> StronglySorted (in_order comp) (array_insert comp x l).
Proof.
  intros [Ha Ht] Hx Hl. induction 1 as [|y l Hs IH Hy]; simpl; [repeat constructor|].
  apply Forall_cons in Hl as [Hpy Hl]. destruct (Z.leb_spec (comp x y) 0) as [Hle|Hgt].
  - constructor; [by constructor|]. constructor; [done|].
    apply Forall_forall. intros z Hz. apply (Ht x y z); [done|done| |done|].
    + by eapply (proj1 (Forall_forall _ _) Hl).
    + by apply (proj1 (Forall_forall _ _) Hy z Hz).
  - constructor; [by apply IH|]. rewrite insert_perm. constructor; [|done].
    unfold in_order. rewrite (Ha x y) by done. lia.
Qed.

Lemma sort_sorted (P : A -> Prop) (comp : comparator) l : coherent P comp -> Forall P l -> StronglySorted (in_order comp) (array_sort comp l).
Proof.
  intros Hc. induction 1 as [|x l Hx Hl IH]; simpl; [constructor|]. eapply insert_sorted; [done|done| |done].
  change (foldr (array_insert comp) [] l) with (array_sort comp l). by rewrite sort_perm.
Qed.

End SortFacts.
