(* ===== verification/NgCore.v ===== *)
(** * NgCore: the utility functions of the console's framework

    The helpers at the top of [angular.js] that its services and directives
    are written with: unique ids, hash keys and the hash map of [ngRepeat],
    case conversion, list helpers, [equals] and [copy]. *)

From S2P Require Import Prelude Text Js.

(** ** Unique ids *)
Module Uid.

(** The body of the [while] loop of [nextUid], over the digits from the last
    to the first; running out of digits falls through to [unshift('0')]. *)
Fixpoint uid_loop (rev_uid : list ascii) : list ascii :=
  match rev_uid with
  | [] => ["0"%char]
  | d :: rest =>
      let digit := nat_of_ascii d in
      if (digit =? 57)%nat then "A"%char :: rest
      else if (digit =? 90)%nat then "0"%char :: uid_loop rest
      else ascii_of_nat (digit + 1) :: rest
  end.

Definition nextUid (uid : list ascii) : list ascii := reverse (uid_loop (reverse uid)).

Definition initial_uid : list ascii := ["0"; "0"; "0"]%char.

(** A digit of an id and its value. *)
Definition uid_digit (c : ascii) : bool :=
  let n := nat_of_ascii c in (((48 <=? n) && (n <=? 57)) || ((65 <=? n) && (n <=? 90)))%nat.
Definition digit_value (c : ascii) : nat :=
  let n := nat_of_ascii c in if (n <=? 57)%nat then (n - 48)%nat else (n - 55)%nat.

(** The position of an id in the order by length, then by digits. *)
Fixpoint rank (rev_uid : list ascii) : nat :=
  match rev_uid with
  | [] => 0
  | d :: rest => 1 + digit_value d + 36 * rank rest
  end.

Lemma uid_digit_step c :
  uid_digit c = true -> nat_of_ascii c <> 57%nat -> nat_of_ascii c <> 90%nat ->
  uid_digit (ascii_of_nat (nat_of_ascii c + 1)) = true /\
  digit_value (ascii_of_nat (nat_of_ascii c + 1)) = S (digit_value c).
Proof. destruct c as [[] [] [] [] [] [] [] []]; vm_compute; intros; split; congruence. Qed.

Lemma uid_loop_rank u :
  forallb uid_digit u = true ->
  forallb uid_digit (uid_loop u) = true /\ rank (uid_loop u) = S (rank u).
Proof.
  induction u as [|c u IH]; [done|]. simpl. intros [Hc Hu]%andb_prop.
  destruct (Nat.eqb_spec (nat_of_ascii c) 57) as [He|H57].
  { simpl. rewrite Hu. split; [done|]. unfold digit_value. rewrite He. simpl. lia. }
  destruct (Nat.eqb_spec (nat_of_ascii c) 90) as [He|H90].
  { destruct (IH Hu) as [Hv Hr]. simpl. rewrite Hv, Hr. split; [done|].
    unfold digit_value. rewrite He. simpl. lia. }
  destruct (uid_digit_step c Hc H57 H90) as [Hd Hr]. simpl. rewrite Hd, Hr, Hu. split; [done|lia].
Qed.

Definition uid_rank (uid : list ascii) : nat := rank (reverse uid).
Definition uid_ok (uid : list ascii) : bool := forallb uid_digit (reverse uid).

Lemma nextUid_rank u : uid_ok u = true -> uid_ok (nextUid u) = true /\ uid_rank (nextUid u) = S (uid_rank u).
Proof.
  unfold uid_ok, uid_rank, nextUid. intros H. rewrite reverse_involutive. by apply uid_loop_rank.
Qed.

Lemma iter_rank n u : uid_ok u = true ->
  uid_ok (Nat.iter n nextUid u) = true /\ uid_rank (Nat.iter n nextUid u) = (n + uid_rank u)%nat.
Proof.
  intros Hu. induction n as [|n [IH1 IH2]]; simpl; [done|].
  destruct (nextUid_rank _ IH1) as [-> ->]. by rewrite IH2.
Qed.
End Uid.

(** ** Case conversion, booleans, lists *)
Module Basics.

Definition manualLowercase_char (ch : ascii) : ascii :=
  let n := N_of_ascii ch in if ((65 <=? n) && (n <=? 90))%N then ascii_of_N (N.lor n 32) else ch.
Definition manualUppercase_char (ch : ascii) : ascii :=
  let n := N_of_ascii ch in
  if ((97 <=? n) && (n <=? 122))%N then ascii_of_N (N.ldiff n 32) else ch.

Fixpoint string_map (f : ascii -> ascii) (s : string) : string :=
  match s with EmptyString => EmptyString | String c s => String (f c) (string_map f s) end.

(** [manualLowercase] and [manualUppercase]; non-strings are returned. *)
(** [SNAKE_CASE_REGEXP]. *)
Definition is_upper (c : ascii) : bool := let n := nat_of_ascii c in ((65 <=? n) && (n <=? 90))%nat.

(** [snake_case]; [pos] is whether the offset is not 0. *)
Fixpoint snake_from (pos : bool) (separator name : string) : string :=
  match name with
  | EmptyString => ""
  | String c s =>
      if is_upper c then (if pos then separator else "") +:+ String (lower_char c) (snake_from true separator s)
      else String c (snake_from true separator s)
  end.

Definition snake_case (name separator : string) : string :=
  snake_from false (if String.eqb separator "" then "_" else separator) name.

Definition manualLowercase (v : jsval) : jsval :=
  match v with JStr s => JStr (string_map manualLowercase_char s) | _ => v end.
Definition manualUppercase (v : jsval) : jsval :=
  match v with JStr s => JStr (string_map manualUppercase_char s) | _ => v end.

(** [toBoolean]: what the configuration attributes and [filter] accept as
    true.  [value.length] is looked up by [len]. *)
Definition toBoolean (h : jsheap) (len : jsval -> jsval) (obj_str : nat -> string) (value : jsval) : bool :=
  if is_fun h value then true
  else if truthy value && negb (strict_eq (len value) (JNum 0)) then
    let v := string_map manualLowercase_char (prim_str obj_str value) in
    negb (String.eqb v "f" || String.eqb v "0" || String.eqb v "false" ||
          String.eqb v "no" || String.eqb v "n" || String.eqb v "[]")
  else false.

(** The loop of [indexOf] ([===]), and what is built on it. *)
Fixpoint index_from (i : Z) (array : list jsval) (obj : jsval) : Z :=
  match array with
  | [] => -1
  | a :: array => if strict_eq obj a then i else index_from (i + 1) array obj
  end.
Definition indexOf (array : list jsval) (obj : jsval) : Z := index_from 0 array obj.
Definition includes (array : list jsval) (obj : jsval) : bool := negb (indexOf array obj =? -1).

(** [arrayRemove]: the array afterwards; the value is returned unchanged. *)
Definition arrayRemove (array : list jsval) (value : jsval) : list jsval * jsval :=
  let index := indexOf array value in
  (if 0 <=? index then take (Z.to_nat index) array ++ drop (S (Z.to_nat index)) array else array,
   value).

Definition makeMap (str : string) : list (string * jsval) :=
  foldl (fun obj item => prop_set obj item (JBool true)) [] (split_char "," str).

(** [size]: arrays and strings have a length, objects their own properties. *)
Definition size_of (h : jsheap) (v : jsval) : Z :=
  match v with
  | JStr s => Z.of_nat (String.length s)
  | JRef r => match h !! r with
              | Some (OArray es) => Z.of_nat (length es)
              | Some (OFun _ _) | None => 0
              | Some o => Z.of_nat (length (obj_props o))
              end
  | _ => 0
  end.

(** [sortedKeys]: own keys in code-unit order ([Array.prototype.sort]). *)
Fixpoint insert_key (k : string) (l : list string) : list string :=
  match l with
  | [] => [k]
  | x :: l => if String.leb k x then k :: x :: l else x :: insert_key k l
  end.
Definition sortedKeys (ps : list (string * jsval)) : list string :=
  foldr insert_key [] (map fst ps).

(** [forEachSorted]: the calls it makes, in order. *)
Definition forEachSorted (ps : list (string * jsval)) : list (jsval * string) :=
  map (fun k => (prop_get ps k, k)) (sortedKeys ps).

Lemma index_from_range i array obj :
  0 <= i -> index_from i array obj = -1 \/ i <= index_from i array obj < i + Z.of_nat (length array).
Proof.
  revert i; induction array as [|a array IH]; intros i Hi; simpl; [by left|].
  destruct (strict_eq obj a); [right; lia|]. destruct (IH (i + 1)); lia.
Qed.

Lemma index_from_split i array obj :
  0 <= i ->
  (index_from i array obj = -1 /\ Forall (fun a => strict_eq obj a = false) array) \/
  exists l1 a l2, array = l1 ++ a :: l2 /\ strict_eq obj a = true /\
    Forall (fun a => strict_eq obj a = false) l1 /\ index_from i array obj = i + Z.of_nat (length l1).
Proof.
  revert i; induction array as [|a array IH]; intros i Hi; simpl; [by left|].
  destruct (strict_eq obj a) eqn:Ha.
  { right. exists [], a, array. split_and!; [done..|simpl; lia]. }
  destruct (IH (i + 1)) as [[-> Hf]|(l1 & b & l2 & -> & Hb & Hl & ->)]; [lia|left; by auto|].
  right. exists (a :: l1), b, l2. split_and!; [done|done|by constructor|simpl; lia].
Qed.
End Basics.

(** ** Structural equality *)
Module Equals.

Definition dollar (k : string) : bool := match k with String c _ => Ascii.eqb c "$" | _ => false end.

Section Equals.
(** [isScope] or [isWindow] of the object. *)
Context (special : nat -> bool) (h : jsheap).

Definition is_special (v : jsval) : bool := match v with JRef r => special r | _ => false end.

(** [getTime] values compared as [equals] does: NaN equals NaN. *)
Definition same_time (a b : option Z) : bool :=
  match a, b with None, None => true | Some x, Some y => x =? y | _, _ => false end.

Section Loops.
Context (rec : jsval -> jsval -> option bool).

Fixpoint equals_elems (a b : list jsval) : option bool :=
  match a, b with
  | x :: a, y :: b => r ← rec x y; if r : bool then equals_elems a b else Some false
  | _, _ => Some true
  end.

(** The loop over the keys of [o1]: the keys compared, or [None] as soon as a
    comparison fails. *)
Fixpoint equals_props (p1 p2 : list (string * jsval)) : option (option (list string)) :=
  match p1 with
  | [] => Some (Some [])
  | (key, v) :: p1 =>
      if dollar key || is_fun h v then equals_props p1 p2
      else
        r ← rec v (prop_get p2 key);
        if r : bool then
          ks ← equals_props p1 p2;
          Some (match ks with Some ks => Some (key :: ks) | None => None end)
        else Some None
  end.
End Loops.

(** The loop over the keys of [o2]. *)
Fixpoint no_extra (keySet : list string) (p2 : list (string * jsval)) : bool :=
  match p2 with
  | [] => true
  | (key, v) :: p2 =>
      if negb (bool_decide (key ∈ keySet)) && negb (dollar key) &&
         negb (bool_decide (v = JUndef)) && negb (is_fun h v)
      then false else no_extra keySet p2
  end.

(** Functions are [typeof] 'function' and equal only to themselves. *)
Definition props_of (v : jsval) : list (string * jsval) :=
  match v with
  | JRef r => match h !! r with Some o => obj_props o | None => [] end
  | _ => []
  end.

(** [equals], [None] when the fuel (the depth of the recursion) runs out. *)
Fixpoint equals (fuel : nat) (o1 o2 : jsval) : option bool :=
  match fuel with
  | O => None
  | S fuel =>
      if strict_eq o1 o2 then Some true
      else if bool_decide (o1 = JNull) || bool_decide (o2 = JNull) then Some false
      else if bool_decide (o1 = JNaN) && bool_decide (o2 = JNaN) then Some true
      else if String.eqb (typeof h o1) (typeof h o2) && String.eqb (typeof h o1) "object" then
        match o1, o2 with
        | JRef r1, JRef r2 =>
            match h !! r1, h !! r2 with
            | Some (OArray a), Some (OArray b) =>
                if (length a =? length b)%nat then equals_elems (equals fuel) a b else Some false
            | Some (OArray _), _ => Some false
            | Some (ODate t1), Some (ODate t2) => Some (same_time t1 t2)
            | Some (ODate _), _ => Some false
            | Some (ORegExp s1 f1 _), Some (ORegExp s2 f2 _) =>
                Some (String.eqb s1 s2 && String.eqb f1 f2)
            | _, _ =>
                if is_special o1 || is_special o2 || isArray h o2 then Some false else
                ks ← equals_props (equals fuel) (props_of o1) (props_of o2);
                Some (match ks with None => false | Some ks => no_extra ks (props_of o2) end)
            end
        | _, _ => Some false
        end
      else Some false
  end.

(** Every value equals itself, NaN included. *)
Lemma equals_refl fuel v : equals (S fuel) v v = Some true.
Proof.
  simpl. destruct (decide (v = JNaN)) as [->|Hv]; [done|]. by rewrite strict_eq_refl.
Qed.

Lemma strict_eq_sym a b : strict_eq a b = strict_eq b a.
Proof. destruct a, b; simpl; try done; apply bool_decide_ext; naive_solver. Qed.
End Equals.
End Equals.

(** ** Hash keys and the hash map of [ngRepeat] *)
Module Hash.
Section Hash.
(** The id generator: [HashMap]'s own counter or [nextUid]. *)
Context {U : Type} (nextUidFn : U -> string * U).
(** [obj.$$hashKey()] of an object that has a method of that name. *)
Context (call_hashKey : nat -> string).

Record hstate := HState { hs_heap : jsheap; hs_uid : U }.

Definition get_props (o : jsobj) : list (string * jsval) :=
  match o with OPlain ps | OFun _ ps => ps | _ => [] end.

(** [obj.$$hashKey = key]. *)
Definition set_props (o : jsobj) (ps : list (string * jsval)) : jsobj :=
  match o with OPlain _ => OPlain ps | OFun f _ => OFun f ps | _ => o end.

(** Plain objects and functions only carry a [$$hashKey] here. *)
Definition hashKey (obj : jsval) (s : hstate) : string * hstate :=
  let objType := typeof (hs_heap s) obj in
  match obj with
  | JRef r =>
      match hs_heap s !! r with
      | Some o =>
          let key := prop_get (get_props o) "$$hashKey" in
          if is_fun (hs_heap s) key then (objType +:+ ":" +:+ call_hashKey r, s)
          else if bool_decide (key = JUndef) then
            let '(k, u) := nextUidFn (hs_uid s) in
            (objType +:+ ":" +:+ k,
             HState (<[r := set_props o (prop_set (get_props o) "$$hashKey" (JStr k))]> (hs_heap s)) u)
          else (objType +:+ ":" +:+ prim_str (fun _ => "[object Object]") key, s)
      | None => (objType +:+ ":undefined", s)
      end
  | _ => (objType +:+ ":" +:+ prim_str (fun _ => "") obj, s)
  end.

(** The map's entries are properties of the map object. *)
Definition HashMap_put (m : list (string * jsval)) (key value : jsval) (s : hstate)
  : list (string * jsval) * hstate :=
  let '(k, s') := hashKey key s in (prop_set m k value, s').

Definition HashMap_get (m : list (string * jsval)) (key : jsval) (s : hstate) : jsval * hstate :=
  let '(k, s') := hashKey key s in (prop_get m k, s').

Definition HashMap_remove (m : list (string * jsval)) (key : jsval) (s : hstate)
  : jsval * list (string * jsval) * hstate :=
  let '(k, s') := hashKey key s in (prop_get m k, prop_del m k, s').

(** [HashMap(array)]: [forEach(array, this.put, this)]; [forEach] passes the
    element and its index. *)
Fixpoint HashMap_fill (m : list (string * jsval)) (i : Z) (array : list jsval) (s : hstate)
  : list (string * jsval) * hstate :=
  match array with
  | [] => (m, s)
  | v :: array => let '(m', s') := HashMap_put m v (JNum i) s in HashMap_fill m' (i + 1) array s'
  end.

(** An object that can carry a key. *)
Definition hashable (h : jsheap) (v : jsval) : Prop :=
  match v with
  | JRef r => exists o, h !! r = Some o /\ (forall ps, get_props (set_props o ps) = ps)
  | _ => True
  end.

Lemma typeof_set_key h r o ps v :
  h !! r = Some o -> typeof (<[r := set_props o ps]> h) v = typeof h v /\
                     is_fun (<[r := set_props o ps]> h) v = is_fun h v.
Proof.
  intros Hr. assert (Hf : is_fun (<[r := set_props o ps]> h) v = is_fun h v).
  { destruct v as [| | | | | |q]; try done. simpl. rewrite lookup_insert.
    case_decide as Hq; [subst; rewrite Hr; by destruct o|done]. }
  split; [|done]. destruct v; try done. unfold typeof. by rewrite Hf.
Qed.

(** Asking for a key twice gives the same key and changes nothing more. *)
Lemma hashKey_stable v s k s' :
  hashable (hs_heap s) v -> hashKey v s = (k, s') -> hashKey v s' = (k, s').
Proof.
  intros Hh. destruct v as [| | | | | |r]; try (by intros; simpl in *; simplify_eq).
  destruct Hh as (o & Ho & Hset). unfold hashKey at 1. rewrite Ho.
  destruct (is_fun (hs_heap s) _) eqn:Hf; [intros; simplify_eq; unfold hashKey; by rewrite Ho, Hf|].
  case_bool_decide as Hk.
  - destruct (nextUidFn (hs_uid s)) as [k0 u] eqn:Hu. intros; simplify_eq. unfold hashKey. cbn [hs_heap hs_uid].
    rewrite lookup_insert_eq, Hset, prop_get_set_eq.
    rewrite (proj1 (typeof_set_key _ _ _ _ (JRef r) Ho)). done.
  - intros; simplify_eq. unfold hashKey. rewrite Ho, Hf. by rewrite bool_decide_false.
Qed.
End Hash.
End Hash.

(** ** Copying *)
Module Copy.

Definition setHashKey (ps : list (string * jsval)) (h : jsval) : list (string * jsval) :=
  if truthy h then prop_set ps "$$hashKey" h else prop_del ps "$$hashKey".

(** [extend(dst, obj, ...)] over own properties: the hash key of [dst] is kept
    ([obj === dst] is skipped by the caller's list). *)
Definition extend (dst : list (string * jsval)) (objs : list (list (string * jsval)))
  : list (string * jsval) :=
  let h := prop_get dst "$$hashKey" in
  let dst' := foldl (fun d obj => foldl (fun d kv => prop_set d kv.1 kv.2) d obj) dst objs in
  setHashKey dst' h.

Definition double_dollar (k : string) : bool :=
  match k with String c1 (String c2 _) => Ascii.eqb c1 "$" && Ascii.eqb c2 "$" | _ => false end.

(** [shallowCopy(src)] of an object without [dst]: own keys without a leading
    double dollar. *)
Definition shallowCopy_props (src : list (string * jsval)) : list (string * jsval) :=
  foldl (fun d kv => if double_dollar kv.1 then d else prop_set d kv.1 kv.2) [] src.

(** [toJsonReplacer]: what [JSON.stringify] sees of a property. *)
Definition toJsonReplacer (is_window is_document is_scope : jsval -> bool) (key : string) (value : jsval)
  : jsval :=
  if Equals.dollar key then JUndef
  else if is_window value then JStr "$WINDOW"
  else if truthy value && is_document value then JStr "$DOCUMENT"
  else if is_scope value then JStr "$SCOPE"
  else value.

Section Copy.
Context (special : nat -> bool).

(** [stackSource] and [stackDest], pairwise. *)
Abbreviation stack := (list (jsval * jsval)).

Definition alloc (o : jsobj) (h : jsheap) : nat * jsheap :=
  let r := fresh (dom h) in (r, <[r := o]> h).

Fixpoint stack_find (st : stack) (source : jsval) : option jsval :=
  match st with
  | [] => None
  | (s, d) :: st => if strict_eq source s then Some d else stack_find st source
  end.

Definition push_if_object (h : jsheap) (source result : jsval) (st : stack) : stack :=
  if isObject h source then st ++ [(source, result)] else st.

Section Loops.
(** [copy(source, null, stackSource, stackDest)]. *)
Context (rec : jsheap -> stack -> jsval -> result string (jsval * jsheap * stack)).

(** [for (i = 0; ...) destination.push(copy(source[i]))]. *)
Fixpoint copy_elems (d : nat) (source : list jsval) (h : jsheap) (st : stack)
  : result string (jsheap * stack) :=
  match source with
  | [] => Ok (h, st)
  | x :: source =>
      '(r, h1, st1) ← rec h st x;
      let st2 := push_if_object h x r st1 in
      let h2 := alter (fun o => match o with OArray es => OArray (es ++ [r]) | _ => o end) d h1 in
      copy_elems d source h2 st2
  end.

(** [for (key in source) destination[key] = copy(source[key])]. *)
Fixpoint copy_props (d : nat) (source : list (string * jsval)) (h : jsheap) (st : stack)
  : result string (jsheap * stack) :=
  match source with
  | [] => Ok (h, st)
  | (key, x) :: source =>
      '(r, h1, st1) ← rec h st x;
      let st2 := push_if_object h x r st1 in
      let h2 := alter (fun o => match o with OPlain ps => OPlain (prop_set ps key r) | _ => o end) d h1 in
      copy_props d source h2 st2
  end.

(** The branch with a destination: [source] is an object, [d] of its class
    (a fresh array or object in the calls [copy] makes itself). *)
Definition copy_into (h : jsheap) (st : stack) (source : nat) (d : nat)
  : result string (jsval * jsheap * stack) :=
  if (source =? d)%nat then Err "cpi" else
  match stack_find st (JRef source) with
  | Some r => Ok (r, h, st)
  | None =>
      let st := st ++ [(JRef source, JRef d)] in
      match h !! source with
      | Some (OArray es) =>
          '(h', st') ← copy_elems d es (<[d := OArray []]> h) st;
          Ok (JRef d, h', st')
      | Some o =>
          let hk := match h !! d with Some (OPlain ps) => prop_get ps "$$hashKey" | _ => JUndef end in
          '(h', st') ← copy_props d (obj_props o) (<[d := OPlain []]> h) st;
          Ok (JRef d,
              alter (fun o => match o with OPlain ps => OPlain (setHashKey ps hk) | _ => o end) d h', st')
      | None => Err "dangling reference"
      end
  end.
End Loops.

(** [copy(source)] without a destination. *)
Fixpoint copy (fuel : nat) (h : jsheap) (st : stack) (source : jsval)
  : result string (jsval * jsheap * stack) :=
  match fuel with
  | O => Err "out of fuel"
  | S fuel =>
      match source with
      | JRef r =>
          if special r then Err "cpws" else
          match h !! r with
          | Some (OArray _) => let '(d, h1) := alloc (OArray []) h in copy_into (copy fuel) h1 st r d
          | Some (ODate t) => let '(d, h1) := alloc (ODate t) h in Ok (JRef d, h1, st)
          | Some (ORegExp s f li) => let '(d, h1) := alloc (ORegExp s f li) h in Ok (JRef d, h1, st)
          | Some (OPlain _) => let '(d, h1) := alloc (OPlain []) h in copy_into (copy fuel) h1 st r d
          | Some (OFun _ _) => Ok (source, h, st)
          | None => Err "dangling reference"
          end
      | _ => Ok (source, h, st)
      end
  end.

(** ** The source is left alone *)

(** [frame h h' ds]: every object of [h] outside [ds] is the same in [h']. *)
Definition frame (h h' : jsheap) (d : nat -> Prop) : Prop :=
  forall r o, h !! r = Some o -> ~ d r -> h' !! r = Some o.

Lemma alloc_spec o h : h !! (alloc o h).1 = None /\ (alloc o h).2 = <[(alloc o h).1 := o]> h.
Proof. split; [|done]. apply not_elem_of_dom, is_fresh. Qed.

(** Growing heaps: nothing is ever freed. *)
Definition grows (h h' : jsheap) : Prop := forall r, is_Some (h !! r) -> is_Some (h' !! r).

Lemma grows_insert h d o : grows h (<[d := o]> h).
Proof. intros r [x Hx]. rewrite lookup_insert. case_decide; eauto. Qed.

Lemma grows_alter f h d : grows h (alter f d h).
Proof. intros r Hr. rewrite lookup_alter. case_decide; [by apply fmap_is_Some; subst|done]. Qed.

Definition good_rec (rec : jsheap -> stack -> jsval -> result string (jsval * jsheap * stack)) : Prop :=
  forall h st v r h' st', rec h st v = Ok (r, h', st') -> frame h h' (fun _ => False).

Lemma frame_refl h d : frame h h d.
Proof. by intros r o. Qed.

Lemma frame_only h1 h2 h3 d :
  frame h1 h2 (fun r => r = d) -> frame h2 h3 (fun r => r = d) -> frame h1 h3 (fun r => r = d).
Proof. intros H1 H2 r o Hr Hd. apply H2; [by apply H1|done]. Qed.

Lemma frame_weaken h h' d : frame h h' (fun _ => False) -> frame h h' (fun r => r = d).
Proof. intros H r o Hr _. apply H; [done|tauto]. Qed.

Lemma frame_alter f d h : frame h (alter f d h) (fun r => r = d).
Proof. intros r o Hr Hd. by rewrite lookup_alter_ne by congruence. Qed.

Lemma frame_insert d o h : frame h (<[d := o]> h) (fun r => r = d).
Proof. intros r x Hr Hd. by rewrite lookup_insert_ne by congruence. Qed.

Lemma copy_elems_frame rec d es h st h' st' :
  good_rec rec -> copy_elems rec d es h st = Ok (h', st') -> frame h h' (fun r => r = d).
Proof.
  intros Hrec. revert h st; induction es as [|x es IH]; intros h st H; simpl in H.
  { simplify_eq. apply frame_refl. }
  destruct (rec h st x) as [[[r h1] st1]|] eqn:Hx; simpl in H; [|done].
  eapply frame_only; [apply frame_weaken; by eapply Hrec|].
  eapply frame_only; [apply frame_alter|]. by eapply IH.
Qed.

Lemma copy_props_frame rec d ps h st h' st' :
  good_rec rec -> copy_props rec d ps h st = Ok (h', st') -> frame h h' (fun r => r = d).
Proof.
  intros Hrec. revert h st; induction ps as [|[k x] ps IH]; intros h st H; simpl in H.
  { simplify_eq. apply frame_refl. }
  destruct (rec h st x) as [[[r h1] st1]|] eqn:Hx; simpl in H; [|done].
  eapply frame_only; [apply frame_weaken; by eapply Hrec|].
  eapply frame_only; [apply frame_alter|]. by eapply IH.
Qed.

Lemma copy_into_frame rec h st source d r h' st' :
  good_rec rec -> copy_into rec h st source d = Ok (r, h', st') -> frame h h' (fun q => q = d).
Proof.
  intros Hrec H. unfold copy_into in H. destruct (source =? d)%nat; [done|].
  destruct (stack_find st _); [simplify_eq; apply frame_refl|].
  destruct (h !! source) as [[ps|es|t|s f li|fid ps]|]; [..|done].
  2: { destruct (copy_elems _ _ _ _ _) as [[h1 st1]|] eqn:Hc; simpl in H; [|done]. simplify_eq.
       eapply frame_only; [apply frame_insert|]. by eapply copy_elems_frame. }
  all: destruct (copy_props _ _ _ _ _) as [[h1 st1]|] eqn:Hc; simpl in H; [|done]; simplify_eq;
    eapply frame_only; [apply frame_insert|];
    eapply frame_only; [by eapply copy_props_frame|apply frame_alter].
Qed.

Lemma alloc_frame o h h' d :
  (alloc o h).1 = d -> frame (alloc o h).2 h' (fun q => q = d) -> frame h h' (fun _ => False).
Proof.
  intros <- H r x Hr _. destruct (alloc_spec o h) as [Hf He]. apply H.
  - rewrite He, lookup_insert_ne; [done|congruence].
  - congruence.
Qed.

Lemma copy_frame fuel : good_rec (copy fuel).
Proof.
  induction fuel as [|fuel IH]; intros h st v r h' st' H; simpl in H; [done|].
  destruct v as [| | | | | |q]; try (simplify_eq; apply frame_refl).
  destruct (special q); [done|]. destruct (h !! q) as [[ps|es|t|s f li|fid ps]|]; [..|done].
  - eapply (alloc_frame (OPlain [])); [reflexivity|]. by eapply copy_into_frame.
  - eapply (alloc_frame (OArray [])); [reflexivity|]. by eapply copy_into_frame.
  - simplify_eq. eapply (alloc_frame (ODate t)); [reflexivity|]. apply frame_refl.
  - simplify_eq. eapply (alloc_frame (ORegExp s f li)); [reflexivity|]. apply frame_refl.
  - simplify_eq. apply frame_refl.
Qed.
End Copy.
End Copy.

(** ** Properties *)

(** Ids never repeat: starting from any id over the digits 0-9A-Z, the
    ids [nextUid] produces one after the other are pairwise different. *)
Theorem nextUid_unique u i j :
  Uid.uid_ok u = true ->
  Nat.iter i Uid.nextUid u = Nat.iter j Uid.nextUid u -> i = j.
Proof.
  intros Hu He. destruct (Uid.iter_rank i u Hu) as [_ Hi]. destruct (Uid.iter_rank j u Hu) as [_ Hj].
  rewrite He in Hi. lia.
Qed.

Lemma nextUid_unique_witness : 1%nat = 1%nat.
Proof. apply (nextUid_unique Uid.initial_uid 1 1); vm_compute; reflexivity. Defined.

(** [arrayRemove] deletes exactly the first element strictly equal to the
    value, keeps the rest in order, and leaves the array alone when there is
    none. *)
Theorem arrayRemove_spec array v :
  (Forall (fun a => strict_eq v a = false) array /\ Basics.arrayRemove array v = (array, v)) \/
  exists l1 a l2, array = l1 ++ a :: l2 /\ strict_eq v a = true /\
    Forall (fun a => strict_eq v a = false) l1 /\ Basics.arrayRemove array v = (l1 ++ l2, v).
Proof.
  unfold Basics.arrayRemove, Basics.indexOf.
  destruct (Basics.index_from_split 0 array v) as [[-> H]|(l1 & a & l2 & -> & Ha & H & ->)];
    [lia|by left|right].
  exists l1, a, l2. split_and!; [done..|]. destruct (Z.leb_spec 0 (0 + Z.of_nat (length l1))); [|lia].
  rewrite Z.add_0_l, Nat2Z.id, take_app_length, cons_middle, app_assoc.
  f_equal. f_equal. rewrite drop_app_length'; [done|]. rewrite length_app. simpl. lia.
Qed.

(** [copy] is a pure reader of its argument: whatever the heap (cycles and
    sharing included), a copy that succeeds leaves every object that existed
    before unchanged; all it builds is new. *)
Theorem copy_preserves_source special fuel h v r h' st' q o :
  Copy.copy special fuel h [] v = Ok (r, h', st') -> h !! q = Some o -> h' !! q = Some o.
Proof. intros H Hq. apply (Copy.copy_frame special fuel _ _ _ _ _ _ H q o Hq). tauto. Qed.

(** An array that contains itself. *)
Definition cyclic_heap : jsheap := {[0%nat := OArray [JRef 0]]}.

Lemma copy_preserves_source_witness :
  exists d h' st', Copy.copy (fun _ => false) 5 cyclic_heap [] (JRef 0) = Ok (JRef d, h', st') /\
    h' !! d = Some (OArray [JRef d]) /\ h' !! 0%nat = Some (OArray [JRef 0]).
Proof.
  eexists _, _, _. split; [vm_compute; reflexivity|]. split; [vm_compute; reflexivity|].
  refine (copy_preserves_source (fun _ => false) 5 cyclic_heap (JRef 0) _ _ _ 0 (OArray [JRef 0]) _ _);
    vm_compute; reflexivity.
Defined.

(** [equals] is reflexive on every value, and it is not symmetric: the
    empty object equals any date, but no date equals the empty object. *)
Theorem equals_refl_not_sym special h fuel r1 r2 t :
  h !! r1 = Some (OPlain []) -> h !! r2 = Some (ODate t) ->
  special r1 = false -> special r2 = false ->
  (forall v, Equals.equals special h (S fuel) v v = Some true) /\
  Equals.equals special h (S fuel) (JRef r1) (JRef r2) = Some true /\
  Equals.equals special h (S fuel) (JRef r2) (JRef r1) = Some false.
Proof.
  intros H1 H2 S1 S2. split; [intros; apply Equals.equals_refl|].
  assert (Hne : r1 <> r2) by congruence.
  cbn -[String.eqb]. unfold typeof, is_fun, isArray, Equals.props_of.
  rewrite H1, H2, S1, S2. rewrite !bool_decide_false by congruence. done.
Qed.

Lemma equals_refl_not_sym_witness :
  Equals.equals (fun _ => false) {[0%nat := OPlain []; 1%nat := ODate (Some 5)]} 1 (JRef 1) (JRef 0)
  = Some false.
Proof.
  refine (proj2 (proj2 (equals_refl_not_sym (fun _ => false) {[0%nat := OPlain []; 1%nat := ODate (Some 5)]}
    0 0 1 (Some 5) _ _ eq_refl eq_refl))); vm_compute; reflexivity.
Defined.

(** [hashKey] is stable: asking an object for its key assigns one at most
    once, so the hash map finds under an object what was stored under it. *)
Theorem hashmap_get_put {U} (nextUidFn : U -> string * U) call m key value s m' s' :
  Hash.hashable (Hash.hs_heap s) key ->
  Hash.HashMap_put nextUidFn call m key value s = (m', s') ->
  Hash.HashMap_get nextUidFn call m' key s' = (value, s').
Proof.
  intros Hh. unfold Hash.HashMap_put, Hash.HashMap_get.
  destruct (Hash.hashKey nextUidFn call key s) as [k s1] eqn:Hk. intros [= <- <-].
  rewrite (Hash.hashKey_stable _ _ _ _ _ _ Hh Hk). by rewrite prop_get_set_eq.
Qed.

Definition demo_uid (u : nat) : string * nat := (pretty (N.of_nat u), S u).

Lemma hashmap_get_put_witness :
  exists m' s', Hash.HashMap_put demo_uid (fun _ => "") [] (JRef 0) (JNum 7)
      (Hash.HState {[0%nat := OPlain []]} 1%nat) = (m', s') /\
    Hash.HashMap_get demo_uid (fun _ => "") m' (JRef 0) s' = (JNum 7, s').
Proof.
  eexists _, _. split; [vm_compute; reflexivity|].
  refine (hashmap_get_put demo_uid (fun _ => "") [] (JRef 0) (JNum 7)
    (Hash.HState {[0%nat := OPlain []]} 1%nat) _ _ _ _).
  - eexists. split; reflexivity.
  - vm_compute. reflexivity.
Defined.
