(* ===== verification/NgUrl.v ===== *)
(** * NgUrl: URLs as the bundled framework encodes, parses and composes them

    [encodeUriSegment], [encodeUriQuery], [toKeyValue], [parseKeyValue]
    (angular.js, and the copies of the first two in angular-resource.js), and
    the three URL strategies of [$location].  Strings are given by their UTF-8
    bytes, so that [encodeURIComponent] works byte by byte; every character
    the code looks for is ASCII, where the two views agree.  [urlResolve] asks
    the browser to parse a URL and is a parameter. *)

From S2P Require Import Prelude Text Js.

(** ** The language's [encodeURIComponent] and [decodeURIComponent] *)

Module Uri.
Definition hex_digit (n : N) : ascii :=
  ascii_of_N (if (n <? 10)%N then 48 + n else 55 + n).

Definition hex_val (c : ascii) : option N :=
  let n := N_of_ascii c in
  if ((48 <=? n) && (n <=? 57))%N then Some (n - 48)%N
  else if ((65 <=? n) && (n <=? 70))%N then Some (n - 55)%N
  else if ((97 <=? n) && (n <=? 102))%N then Some (n - 87)%N
  else None.

Definition pct (c : ascii) : string :=
  String "%" (String (hex_digit (N_of_ascii c / 16)) (String (hex_digit (N_of_ascii c mod 16)) "")).

Definition is_alnum (c : ascii) : bool :=
  let n := N_of_ascii c in
  ((48 <=? n) && (n <=? 57) || (65 <=? n) && (n <=? 90) || (97 <=? n) && (n <=? 122))%N.

(** The characters [encodeURIComponent] leaves alone. *)
Definition unreserved (c : ascii) : bool := is_alnum c || contains_char c "-_.!~*'()".

(** A token encoder maps each character to the text that stands for it. *)
Fixpoint enc (t : ascii -> string) (s : string) : string :=
  match s with "" => "" | String c s => t c +:+ enc t s end.

Definition uri_tok (c : ascii) : string := if unreserved c then String c "" else pct c.

Definition encodeURIComponent (s : string) : string := enc uri_tok s.

(** RFC 3629: the byte sequences that encode a string of scalar values. [need]
    continuation bytes are still due, the first of them between [lo] and [hi]. *)
Fixpoint utf8_from (need : nat) (lo hi : N) (s : string) : bool :=
  match s with
  | "" => match need with O => true | S _ => false end
  | String c s =>
      let b := N_of_ascii c in
      match need with
      | S n => ((lo <=? b) && (b <=? hi))%N && utf8_from n 128 191 s
      | O =>
          if (b <? 128)%N then utf8_from 0 128 191 s
          else if (b <? 194)%N then false
          else if (b <? 224)%N then utf8_from 1 128 191 s
          else if (b =? 224)%N then utf8_from 2 160 191 s
          else if (b =? 237)%N then utf8_from 2 128 159 s
          else if (b <? 240)%N then utf8_from 2 128 191 s
          else if (b =? 240)%N then utf8_from 3 144 191 s
          else if (b <? 244)%N then utf8_from 3 128 191 s
          else if (b =? 244)%N then utf8_from 3 128 143 s
          else false
      end
  end.

Definition utf8 (s : string) : bool := utf8_from 0 128 191 s.

(** [%XY] becomes the byte, anything else stays; [None] for a bare [%]. *)
Fixpoint pct_decode (s : string) : option string :=
  match s with
  | "" => Some ""
  | String "%" (String a (String b s)) =>
      match hex_val a, hex_val b with
      | Some x, Some y => String (ascii_of_N (16 * x + y)) <$> pct_decode s
      | _, _ => None
      end
  | String "%" _ => None
  | String c s => String c <$> pct_decode s
  end.

Definition decodeURIComponent (s : string) : result string string :=
  match pct_decode s with
  | Some d => if utf8 d then Ok d else Err "URIError"
  | None => Err "URIError"
  end.

(** [s.replace(/pat/g, rep)] for a pattern of plain characters: the matches
    from left to right, without overlap. *)
Definition lower (c : ascii) : ascii :=
  let n := N_of_ascii c in if ((65 <=? n) && (n <=? 90))%N then ascii_of_N (n + 32) else c.

Fixpoint prefix_of (ci : bool) (pat s : string) : bool :=
  match pat, s with
  | "", _ => true
  | String a pat, String b s =>
      (if ci then Ascii.eqb (lower a) (lower b) else Ascii.eqb a b) && prefix_of ci pat s
  | _, _ => false
  end.

Fixpoint replace_from (ci : bool) (pat rep : string) (skip : nat) (s : string) : string :=
  match s with
  | "" => ""
  | String c s' =>
      match skip with
      | S k => replace_from ci pat rep k s'
      | O =>
          if prefix_of ci pat s then rep +:+ replace_from ci pat rep (Nat.pred (String.length pat)) s'
          else String c (replace_from ci pat rep 0 s')
      end
  end.

Definition replace_all (ci : bool) (pat rep s : string) : string := replace_from ci pat rep 0 s.

(** angular.js 1320-1327; angular-resource.js 462-469 *)
Definition encodeUriQuery (val : string) (pctEncodeSpaces : bool) : string :=
  replace_all false "%20" (if pctEncodeSpaces then "%20" else "+")
    (replace_all true "%2C" ","
      (replace_all false "%24" "$"
        (replace_all true "%3A" ":"
          (replace_all true "%40" "@" (encodeURIComponent val))))).

(** angular.js 1300-1305; angular-resource.js 443-448 *)
Definition encodeUriSegment (val : string) : string :=
  replace_all true "%2B" "+"
    (replace_all true "%3D" "="
      (replace_all true "%26" "&" (encodeUriQuery val true))).

(** angular.js 1193-1199 *)
Definition tryDecodeURIComponent (value : string) : option string :=
  match decodeURIComponent value with Ok s => Some s | Err _ => None end.

(** *** Lemmas: encoders as token maps *)

(** A token encoder the replacements keep: a character stands for itself, for
    another plain character, or for its escape. *)
Definition good_tok (t : ascii -> string) : Prop :=
  forall c, t c = pct c \/ exists e, t c = String e "" /\ e <> "%"%char.

Lemma hex_digit_inv n m : (n < 16)%N -> (m < 16)%N ->
  lower (hex_digit n) = lower (hex_digit m) -> n = m.
Proof.
  intros Hn Hm.
  assert (Hd : forall k, (k < 16)%N -> In k [0;1;2;3;4;5;6;7;8;9;10;11;12;13;14;15]%N)
    by (intros k Hk; simpl; lia).
  pose proof (Hd n Hn) as H1. pose proof (Hd m Hm) as H2. clear Hn Hm Hd.
  simpl in H1, H2.
  repeat (destruct H1 as [<-|H1]; [repeat (destruct H2 as [<-|H2]; [done || by intros ?%(f_equal N_of_ascii)|]); done|]).
  done.
Qed.

Lemma hex_digit_not_pct n : (n < 16)%N -> hex_digit n <> "%"%char.
Proof.
  intros Hn. assert (H1 : In n [0;1;2;3;4;5;6;7;8;9;10;11;12;13;14;15]%N) by (simpl; lia).
  simpl in H1. repeat (destruct H1 as [<-|H1]; [done|]). done.
Qed.

Lemma hex_val_digit n : (n < 16)%N -> hex_val (hex_digit n) = Some n.
Proof.
  intros Hn. assert (H1 : In n [0;1;2;3;4;5;6;7;8;9;10;11;12;13;14;15]%N) by (simpl; lia).
  simpl in H1. repeat (destruct H1 as [<-|H1]; [done|]). done.
Qed.

Lemma nibbles c : (N_of_ascii c / 16 < 16)%N /\ (N_of_ascii c mod 16 < 16)%N /\
  ascii_of_N (16 * (N_of_ascii c / 16) + N_of_ascii c mod 16) = c.
Proof.
  pose proof (N_ascii_bounded c). split_and!.
  - apply N.Div0.div_lt_upper_bound. lia.
  - apply N.mod_lt. lia.
  - rewrite <- N.Div0.div_mod. apply ascii_N_embedding.
Qed.

Lemma lower_pct c : lower c = "%"%char -> c = "%"%char.
Proof. destruct c as [[] [] [] [] [] [] [] []]; vm_compute; congruence. Qed.

Lemma pct_app c s : pct c +:+ s =
  String "%" (String (hex_digit (N_of_ascii c / 16)) (String (hex_digit (N_of_ascii c mod 16)) s)).
Proof. reflexivity. Qed.

Lemma prefix_pct ci c d s : prefix_of ci (pct d) (pct c +:+ s) = true <-> c = d.
Proof.
  destruct (nibbles c) as (C1 & C2 & Hc). destruct (nibbles d) as (D1 & D2 & Hd).
  rewrite pct_app. cbn [pct prefix_of]. split.
  - destruct ci; rewrite !andb_true_iff, !Ascii.eqb_eq; intros (_ & H1 & H2 & _).
    + apply hex_digit_inv in H1, H2; [|done..]. rewrite <- Hc, <- Hd. congruence.
    + apply (f_equal lower) in H1, H2. apply hex_digit_inv in H1, H2; [|done..].
      rewrite <- Hc, <- Hd. congruence.
  - intros ->. destruct ci; by rewrite !Ascii.eqb_refl.
Qed.

Lemma prefix_plain ci d e s : e <> "%"%char -> prefix_of ci (pct d) (String e s) = false.
Proof.
  intros He. cbn [pct prefix_of]. apply andb_false_iff. left. destruct ci.
  - apply Ascii.eqb_neq. intros H. symmetry in H. by apply lower_pct in H.
  - apply Ascii.eqb_neq. congruence.
Qed.

Lemma good_ext_tok t d e : good_tok t -> e <> "%"%char ->
  good_tok (fun c => if Ascii.eqb c d then (if String.eqb (t c) (pct c) then String e "" else t c) else t c).
Proof.
  intros Ht He c. destruct (Ascii.eqb c d); [|done]. destruct (String.eqb _ _); eauto.
Qed.

Lemma replace_enc ci t d rep s : good_tok t ->
  replace_all ci (pct d) rep (enc t s) =
  enc (fun c => if Ascii.eqb c d then (if String.eqb (t c) (pct c) then rep else t c) else t c) s.
Proof.
  intros Ht. unfold replace_all. induction s as [|c s IH]; [done|].
  cbn [enc]. destruct (Ht c) as [Hc|(e & Hc & He)]; rewrite Hc.
  - rewrite String.eqb_refl. pose proof (prefix_pct ci c d (enc t s)) as Hp.
    rewrite pct_app in Hp |- *. cbn [replace_from].
    destruct (Ascii.eqb_spec c d) as [->|Hne].
    + rewrite (proj2 Hp eq_refl). cbn [pct String.length Nat.pred replace_from]. by rewrite IH.
    + destruct (prefix_of ci _ _) eqn:Hq; [by apply proj1 in Hp; specialize (Hp eq_refl)|].
      destruct (nibbles c) as (C1 & C2 & _).
      rewrite !prefix_plain by by apply hex_digit_not_pct. by rewrite IH.
  - assert (Hn : String.eqb (String e "") (pct c) = false) by (apply String.eqb_neq; discriminate).
    rewrite Hn. change (String e "" +:+ enc t s) with (String e (enc t s)). cbn [replace_from].
    rewrite prefix_plain, IH by done. by destruct (Ascii.eqb c d).
Qed.

Lemma enc_ext t1 t2 s : (forall c, t1 c = t2 c) -> enc t1 s = enc t2 s.
Proof. intros H. induction s as [|c s IH]; simpl; [done|]. by rewrite H, IH. Qed.

Lemma uri_tok_good : good_tok uri_tok.
Proof.
  intros c. unfold uri_tok. destruct (unreserved c) eqn:Hu; [right|by left].
  exists c. split; [done|]. intros ->. vm_compute in Hu. done.
Qed.

(** What the two encoders keep readable. *)
Definition query_tok (c : ascii) : string :=
  if unreserved c || contains_char c "@:$," then String c "" else pct c.
Definition segment_tok (c : ascii) : string :=
  if unreserved c || contains_char c "@:$,&=+" then String c "" else pct c.

Lemma encodeUriQuery_enc s : encodeUriQuery s true = enc query_tok s.
Proof.
  unfold encodeUriQuery, encodeURIComponent.
  change "%40" with (pct "@"). change "%3A" with (pct ":"). change "%24" with (pct "$").
  change "%2C" with (pct ","). change "%20" with (pct " ").
  rewrite !replace_enc; repeat first [apply good_ext_tok; [|done] | apply uri_tok_good].
  apply enc_ext. intros [[] [] [] [] [] [] [] []]; vm_compute; reflexivity.
Qed.

Lemma query_tok_good : good_tok query_tok.
Proof.
  intros c. unfold query_tok. destruct (_ || _) eqn:Hu; [right|by left].
  exists c. split; [done|]. intros ->. vm_compute in Hu. done.
Qed.

Lemma encodeUriSegment_enc s : encodeUriSegment s = enc segment_tok s.
Proof.
  unfold encodeUriSegment. rewrite encodeUriQuery_enc.
  change "%26" with (pct "&"). change "%3D" with (pct "="). change "%2B" with (pct "+").
  rewrite !replace_enc; repeat first [apply good_ext_tok; [|done] | apply query_tok_good].
  apply enc_ext. intros [[] [] [] [] [] [] [] []]; vm_compute; reflexivity.
Qed.

(** A decodable encoder writes each character as itself or as its escape. *)
Definition faithful_tok (t : ascii -> string) : Prop :=
  forall c, t c = pct c \/ (t c = String c "" /\ c <> "%"%char).

Lemma pct_decode_plain c s : c <> "%"%char -> pct_decode (String c s) = String c <$> pct_decode s.
Proof. intros H. destruct c as [[] [] [] [] [] [] [] []]; try reflexivity. by destruct H. Qed.

Lemma pct_decode_enc t s : faithful_tok t -> pct_decode (enc t s) = Some s.
Proof.
  intros Ht. induction s as [|c s IH]; [done|]. cbn [enc].
  destruct (Ht c) as [->|(-> & Hc)].
  - destruct (nibbles c) as (C1 & C2 & Hc). rewrite pct_app. cbn [pct_decode].
    rewrite !hex_val_digit, IH, Hc by done. done.
  - change (String c "" +:+ enc t s) with (String c (enc t s)). by rewrite pct_decode_plain, IH.
Qed.

Lemma query_tok_faithful : faithful_tok query_tok.
Proof.
  intros c. unfold query_tok. destruct (_ || _) eqn:Hu; [right|by left].
  split; [done|]. intros ->. vm_compute in Hu. done.
Qed.

Lemma segment_tok_faithful : faithful_tok segment_tok.
Proof.
  intros c. unfold segment_tok. destruct (_ || _) eqn:Hu; [right|by left].
  split; [done|]. intros ->. vm_compute in Hu. done.
Qed.

Lemma decode_enc t s : faithful_tok t -> utf8 s = true -> decodeURIComponent (enc t s) = Ok s.
Proof. intros Ht Hs. unfold decodeURIComponent. by rewrite pct_decode_enc, Hs. Qed.

Lemma enc_lacks t d s : (forall c, contains_char d (t c) = false) -> contains_char d (enc t s) = false.
Proof.
  intros H. induction s as [|c s IH]; [done|]. cbn [enc]. by rewrite contains_char_app, H, IH.
Qed.

Lemma query_tok_lacks d : contains_char d "&=+/?#" = true -> forall s, contains_char d (enc query_tok s) = false.
Proof.
  intros Hd s. apply enc_lacks. intros c.
  destruct d as [[] [] [] [] [] [] [] []]; try discriminate Hd;
    destruct c as [[] [] [] [] [] [] [] []]; vm_compute; reflexivity.
Qed.

Lemma segment_tok_lacks d : contains_char d "/?#" = true -> forall s, contains_char d (enc segment_tok s) = false.
Proof.
  intros Hd s. apply enc_lacks. intros c.
  destruct d as [[] [] [] [] [] [] [] []]; try discriminate Hd;
    destruct c as [[] [] [] [] [] [] [] []]; vm_compute; reflexivity.
Qed.

Lemma enc_empty t s : good_tok t -> enc t s = "" -> s = "".
Proof.
  intros Ht. destruct s as [|c s]; [done|]. cbn [enc].
  destruct (Ht c) as [->|(e & -> & _)]; discriminate.
Qed.

Lemma replace_all_none ci a pat rep s : contains_char a s = false -> ci = false ->
  replace_all ci (String a pat) rep s = s.
Proof.
  intros Hs ->. unfold replace_all. induction s as [|c s IH]; [done|]. simpl in Hs.
  apply orb_false_iff in Hs as [Hc Hs]. cbn [replace_from prefix_of].
  replace (Ascii.eqb a c) with false; [by rewrite IH|]. symmetry. by rewrite Ascii.eqb_sym.
Qed.
End Uri.

(** ** Query strings *)

Module Query.
Import Uri.

(** What a search parameter holds: [true] for a bare key, [undefined] when its
    text could not be decoded, a string, or a number or [null] the program
    stored. *)
Inductive scalar : Type :=
| STrue
| SUndef
| SNull
| SStr (s : string)
| SNum (n : Z).

Inductive kv : Type :=
| One (v : scalar)
| Many (vs : list scalar).

(** An object as the list of its own properties, in the order [for ... in]
    visits them: the array indices, ascending, then the other keys as they were
    added. *)
Abbreviation params := (list (string * kv)).

Fixpoint read_index (acc : Z) (s : string) : option Z :=
  match s with
  | "" => Some acc
  | String c s => if is_digit c then read_index (10 * acc + (Z.of_N (N_of_ascii c) - 48)) s else None
  end.

Definition index_key (k : string) : option Z :=
  n ← read_index 0 k; if String.eqb (pretty n) k && (n <? 2 ^ 32 - 1) then Some n else None.

(** [k] is visited before the keys that are there. *)
Definition comes_before (k k' : string) : bool :=
  match index_key k, index_key k' with
  | Some i, Some j => i <? j
  | Some _, None => true
  | None, _ => false
  end.

Fixpoint pget (obj : params) (k : string) : option kv :=
  match obj with
  | [] => None
  | (k', v) :: obj => if String.eqb k' k then Some v else pget obj k
  end.

(** Assigning to [__proto__] creates no own property. *)
Fixpoint pset (obj : params) (k : string) (v : kv) : params :=
  match obj with
  | [] => if String.eqb k "__proto__" then [] else [(k, v)]
  | (k', v') :: obj =>
      if String.eqb k' k then (k', v) :: obj
      else if comes_before k k' then (k, v) :: (k', v') :: obj
      else (k', v') :: pset obj k v
  end.

Fixpoint pdel (obj : params) (k : string) : params :=
  match obj with
  | [] => []
  | (k', v) :: obj => if String.eqb k' k then obj else (k', v) :: pdel obj k
  end.

Definition scalar_str (v : scalar) : string :=
  match v with
  | STrue => "true"
  | SUndef => "undefined"
  | SNull => "null"
  | SStr s => s
  | SNum n => pretty n
  end.

(** The body of [forEach] in [parseKeyValue] (angular.js 1209-1222). *)
Definition add_param (obj : params) (key : string) (val : scalar) : params :=
  match pget obj key with
  | None => pset obj key (One val)
  | Some (Many l) => pset obj key (Many (l ++ [val]))
  | Some (One v) => pset obj key (Many [v; val])
  end.

Definition parse_piece (obj : params) (keyValue : string) : params :=
  if String.eqb keyValue "" then obj
  else
    match split_char "=" (replace_all false "+" "%20" keyValue) with
    | [] => obj
    | k0 :: rest =>
        match tryDecodeURIComponent k0 with
        | None => obj
        | Some key =>
            let val :=
              match rest with
              | [] => STrue
              | v0 :: _ =>
                  match tryDecodeURIComponent v0 with Some s => SStr s | None => SUndef end
              end in
            add_param obj key val
        end
    end.

(** angular.js 1206-1225 *)
Definition parseKeyValue (keyValue : string) : params :=
  fold_left parse_piece (split_char "&" keyValue) [].

Definition param_piece (key : string) (v : scalar) : string :=
  encodeUriQuery key true +:+
  match v with STrue => "" | _ => "=" +:+ encodeUriQuery (scalar_str v) true end.

Definition truthy_kv (v : option kv) : bool :=
  match v with
  | None | Some (One SUndef) | Some (One SNull) => false
  | Some (One (SStr s)) => negb (String.eqb s "")
  | Some (One (SNum n)) => negb (n =? 0)
  | Some (One STrue) | Some (Many _) => true
  end.

(** What [forEach] visits (angular.js 320-345 with [isArrayLike], 263-276): the
    elements of an object whose [length] makes it an array; otherwise its own
    properties, but a parameter [forEach] that holds something is called for a
    method, and so is one named [hasOwnProperty].  ([nodeType], which a URL
    cannot make the number 1, is left out.) *)
Definition each (obj : params) : result string params :=
  let elements n := map (fun i => (pretty i, default (One SUndef) (pget obj (pretty i)))) (seqZ 0 n) in
  let own :=
    if truthy_kv (pget obj "forEach") then Err "TypeError"
    else match pget obj "hasOwnProperty" with Some _ => Err "TypeError" | None => Ok obj end in
  match pget obj "length" with
  | Some (One (SNum n)) =>
      if (n =? 0) || (0 <? n) && bool_decide (is_Some (pget obj (pretty (n - 1)))) then Ok (elements n) else own
  | _ => own
  end.

Definition print_params (ps : params) : string :=
  join "&"
    (flat_map (fun p => match p.2 with
                        | Many vs => map (param_piece p.1) vs
                        | One v => [param_piece p.1 v]
                        end) ps).

(** angular.js 1227-1241 *)
Definition toKeyValue (obj : params) : result string string :=
  ps ← each obj; Ok (print_params ps).

(** *** Lemmas *)

Lemma pget_None obj k : pget obj k = None <-> k ∉ obj.*1.
Proof.
  induction obj as [|[k' v] obj IH]; csimpl; [split; [by intros _ ?%not_elem_of_nil|done]|].
  rewrite not_elem_of_cons. destruct (String.eqb_spec k' k); clear -IH n || clear IH; intuition congruence.
Qed.

(** [k] is visited after all of [ks]; the keys are in the order they are visited. *)
Definition follows (k : string) (ks : list string) : bool := forallb (fun k' => negb (comes_before k k')) ks.

Fixpoint enumerated (ks : list string) : bool :=
  match ks with
  | [] => true
  | k :: ks => forallb (fun k' => negb (comes_before k' k)) ks && enumerated ks
  end.

Lemma enumerated_follows ks k ks' : enumerated (ks ++ k :: ks') = true -> follows k ks = true.
Proof.
  unfold follows. induction ks as [|k0 ks IH]; [done|]. cbn. intros [H1 H2]%andb_true_iff. rewrite IH by done.
  rewrite forallb_app in H1. apply andb_true_iff in H1 as [_ H1]. cbn in H1. apply andb_true_iff in H1 as [-> _]. done.
Qed.

Lemma pset_new obj k v : k ∉ obj.*1 -> follows k obj.*1 = true -> k <> "__proto__" -> pset obj k v = obj ++ [(k, v)].
Proof.
  intros Hk Hf Hp. induction obj as [|[k' v'] obj IH]; csimpl.
  - by destruct (String.eqb_spec k "__proto__").
  - csimpl in Hk. apply not_elem_of_cons in Hk as [Hne Hk]. cbn in Hf. apply andb_true_iff in Hf as [Hb%negb_true_iff Hf].
    destruct (String.eqb_spec k' k); [congruence|]. rewrite Hb. by rewrite IH.
Qed.

Lemma pget_last obj k v : k ∉ obj.*1 -> pget (obj ++ [(k, v)]) k = Some v.
Proof.
  induction obj as [|[k' v'] obj IH]; csimpl; [by rewrite String.eqb_refl|].
  intros [Hne Hk]%not_elem_of_cons. destruct (String.eqb_spec k' k); [congruence|auto].
Qed.

Lemma pset_last obj k v w : k ∉ obj.*1 -> follows k obj.*1 = true -> pset (obj ++ [(k, v)]) k w = obj ++ [(k, w)].
Proof.
  induction obj as [|[k' v'] obj IH]; csimpl; [by rewrite String.eqb_refl|].
  intros [Hne Hk]%not_elem_of_cons [Hb%negb_true_iff Hf]%andb_true_iff. destruct (String.eqb_spec k' k); [congruence|].
  rewrite Hb. by rewrite IH.
Qed.

(** The parameters the printer writes so that the parser reads them back. *)
Definition scalar_ok (k : string) (v : scalar) : bool :=
  match v with
  | STrue => negb (String.eqb k "")
  | SStr s => utf8 s
  | SUndef | SNull | SNum _ => false
  end.

Definition param_ok (p : string * kv) : bool :=
  utf8 p.1 && negb (String.eqb p.1 "__proto__") &&
  match p.2 with
  | One v => scalar_ok p.1 v
  | Many vs => (2 <=? length vs)%nat && forallb (scalar_ok p.1) vs
  end.

Lemma split_eq_query k s : split_char "=" (enc query_tok k +:+ String "=" (enc query_tok s)) =
  [enc query_tok k; enc query_tok s].
Proof.
  rewrite split_char_cons by by apply query_tok_lacks.
  by rewrite split_char_none by by apply query_tok_lacks.
Qed.

Lemma try_decode_query s : utf8 s = true -> tryDecodeURIComponent (enc query_tok s) = Some s.
Proof. intros H. unfold tryDecodeURIComponent. by rewrite decode_enc by (apply query_tok_faithful || done). Qed.

Lemma parse_param_piece obj k v : utf8 k = true -> scalar_ok k v = true ->
  parse_piece obj (param_piece k v) = add_param obj k v.
Proof.
  intros Hk Hv. unfold param_piece, parse_piece. rewrite !encodeUriQuery_enc.
  destruct v as [| | |s|n]; simpl in Hv; try done; cbn [scalar_str].
  - rewrite string_app_nil_r. destruct (String.eqb_spec (enc query_tok k) "") as [He|_].
    { apply (enc_empty _ _ query_tok_good) in He as ->. done. }
    rewrite replace_all_none by (apply query_tok_lacks || done; done).
    rewrite split_char_none by by apply query_tok_lacks. by rewrite try_decode_query.
  - change ("=" +:+ enc query_tok s) with (String "=" (enc query_tok s)).
    destruct (String.eqb_spec (enc query_tok k +:+ String "=" (enc query_tok s)) "") as [He|_].
    { destruct (enc query_tok k); discriminate. }
    rewrite replace_all_none by (rewrite ?contains_char_app; cbn [contains_char];
      rewrite ?query_tok_lacks by done; done).
    by rewrite split_eq_query, !try_decode_query.
Qed.

Lemma param_piece_lacks k v : contains_char "&" (param_piece k v) = false.
Proof.
  unfold param_piece. rewrite !encodeUriQuery_enc, contains_char_app, query_tok_lacks by done.
  destruct v; [done|..]; change ("=" +:+ ?x) with (String "=" x); cbn [contains_char];
    by rewrite query_tok_lacks.
Qed.

Lemma parse_many obj k vs ws :
  k ∉ obj.*1 -> follows k obj.*1 = true -> utf8 k = true -> forallb (scalar_ok k) ws = true ->
  fold_left parse_piece (map (param_piece k) ws) (obj ++ [(k, Many vs)]) = obj ++ [(k, Many (vs ++ ws))].
Proof.
  intros Hk Hf Hu. revert vs; induction ws as [|w ws IH]; intros vs Hws; cbn [map fold_left].
  { by rewrite app_nil_r. }
  simpl in Hws. apply andb_true_iff in Hws as [Hw Hws]. rewrite parse_param_piece by done.
  unfold add_param. rewrite pget_last, pset_last, IH by done. by rewrite <- app_assoc.
Qed.

Lemma parse_param obj p :
  p.1 ∉ obj.*1 -> follows p.1 obj.*1 = true -> param_ok p = true ->
  fold_left parse_piece
    (match p.2 with Many vs => map (param_piece p.1) vs | One v => [param_piece p.1 v] end) obj
  = obj ++ [p].
Proof.
  destruct p as [k w]. unfold param_ok. cbn [fst snd]. intros Hk Hf [[Hu Hp]%andb_true_iff Hw]%andb_true_iff.
  apply negb_true_iff, String.eqb_neq in Hp.
  assert (Hadd : forall v, add_param obj k v = obj ++ [(k, One v)]).
  { intros v. unfold add_param. rewrite (proj2 (pget_None _ _) Hk). by apply pset_new. }
  destruct w as [v|vs]; cbn [fold_left].
  - by rewrite parse_param_piece, Hadd.
  - apply andb_true_iff in Hw as [Hl Hw].
    destruct vs as [|v1 [|v2 vs]]; [done..|]. cbn [map fold_left].
    cbn [forallb] in Hw. apply andb_true_iff in Hw as [H1 Hw]. apply andb_true_iff in Hw as [H2 Hw].
    rewrite !parse_param_piece, Hadd by done. unfold add_param at 1.
    rewrite pget_last, pset_last by done. by apply (parse_many obj k [v1; v2]).
Qed.

Lemma parse_pieces obj ps :
  NoDup (obj ++ ps).*1 -> enumerated (obj ++ ps).*1 = true -> forallb param_ok ps = true ->
  fold_left parse_piece
    (flat_map (fun p => match p.2 with
                        | Many vs => map (param_piece p.1) vs
                        | One v => [param_piece p.1 v]
                        end) ps) obj = obj ++ ps.
Proof.
  revert obj; induction ps as [|p ps IH]; intros obj Hnd Hen Hok; cbn [flat_map].
  { simpl. by rewrite app_nil_r. }
  simpl in Hok. apply andb_true_iff in Hok as [Hp Hok].
  rewrite fold_left_app, parse_param; [| | |done].
  - rewrite IH; [by rewrite <- app_assoc|by rewrite <- app_assoc|by rewrite <- app_assoc|done].
  - rewrite fmap_app, fmap_cons in Hnd. apply NoDup_app in Hnd as (_ & Hd & _).
    intros Hin. by apply (Hd p.1 Hin), elem_of_cons; left.
  - rewrite fmap_app, fmap_cons in Hen. by eapply enumerated_follows.
Qed.

Lemma flat_pieces_lacks obj :
  Forall (fun w => contains_char "&" w = false)
    (flat_map (fun p => match p.2 with
                        | Many vs => map (param_piece p.1) vs
                        | One v => [param_piece p.1 v]
                        end) obj).
Proof.
  apply Forall_forall. intros w Hw. apply list_elem_of_In, in_flat_map in Hw as ([k [v|vs]] & _ & Hw).
  - destruct Hw as [<-|[]]. apply param_piece_lacks.
  - apply in_map_iff in Hw as (v & <- & _). apply param_piece_lacks.
Qed.

Lemma parse_print_params obj : NoDup obj.*1 -> enumerated obj.*1 = true -> forallb param_ok obj = true ->
  parseKeyValue (print_params obj) = obj.
Proof.
  intros Hnd Hen Hok. unfold parseKeyValue, print_params.
  pose proof (parse_pieces [] obj Hnd Hen Hok) as Hp. pose proof (flat_pieces_lacks obj) as Hl.
  destruct (flat_map _ obj) as [|w ws]; [exact Hp|].
  rewrite (split_join "&"); done.
Qed.

Lemma toKeyValue_each obj : each obj = Ok obj -> toKeyValue obj = Ok (print_params obj).
Proof. unfold toKeyValue. by intros ->. Qed.

Lemma print_lacks d obj : contains_char d "#?/" = true -> contains_char d (print_params obj) = false.
Proof.
  intros Hd. assert (Hq : contains_char d "&=+/?#" = true).
  { destruct d as [[] [] [] [] [] [] [] []]; try discriminate Hd; reflexivity. }
  assert (Hp : forall k v, contains_char d (param_piece k v) = false).
  { intros k v. unfold param_piece. rewrite encodeUriQuery_enc, contains_char_app, query_tok_lacks by done.
    destruct v; [done|..]; rewrite encodeUriQuery_enc;
      change ("=" +:+ ?x) with (String "=" x); cbn [contains_char];
      rewrite query_tok_lacks by done;
      destruct d as [[] [] [] [] [] [] [] []]; try discriminate Hd; reflexivity. }
  assert (Hj : forall ws, Forall (fun w => contains_char d w = false) ws -> contains_char d (join "&" ws) = false).
  { induction ws as [|w [|w' ws] IH]; intros Hws; [done|by apply Forall_cons in Hws as [? _]|].
    apply Forall_cons in Hws as [Hw Hws].
    change (join "&" (w :: w' :: ws)) with (w +:+ String "&" (join "&" (w' :: ws))).
    rewrite contains_char_app, Hw. cbn [contains_char]. rewrite IH by done.
    destruct d as [[] [] [] [] [] [] [] []]; try discriminate Hd; reflexivity. }
  apply Hj, Forall_forall. intros w Hw. apply list_elem_of_In, in_flat_map in Hw as ([k [v|vs]] & _ & Hw).
  - destruct Hw as [<-|[]]. apply Hp.
  - apply in_map_iff in Hw as (v & <- & _). apply Hp.
Qed.
End Query.

(** ** [$location]: one URL object, three strategies *)

Module Location.
Import Uri Query.

(** What the browser reports of a parsed URL. *)
Record anchor := Anchor {
  a_protocol : string;
  a_host : string;
  a_hostname : string;
  a_port : string;
  a_pathname : string;
  a_search : string;
  a_hash : string
}.

Record parsed := Parsed {
  protocol : string;
  host : string;
  hostname : string;
  port : string;
  pathname : string;
  search : string;
  hash : string
}.

(** [s.replace(/^c/, '')] and [s.replace(/c$/, '')]. *)
Definition drop_first (c : ascii) (s : string) : string :=
  match s with String d s' => if Ascii.eqb d c then s' else s | "" => "" end.

Fixpoint drop_last (c : ascii) (s : string) : string :=
  match s with
  | "" => ""
  | String d "" => if Ascii.eqb d c then "" else s
  | String d s' => String d (drop_last c s')
  end.

Definition charAt0 (c : ascii) (s : string) : bool :=
  match s with String d _ => Ascii.eqb d c | "" => false end.

(** angular.js 9252-9261 *)
Definition encodePath (path : string) : string :=
  join "/" (map encodeUriSegment (split_char "/" path)).

(** angular.js 9297-9301: the rest of [whole], or [undefined]. *)
Fixpoint beginsWith (begin whole : string) : option string :=
  match begin, whole with
  | "", _ => Some whole
  | String a begin, String b whole => if Ascii.eqb a b then beginsWith begin whole else None
  | _, _ => None
  end.

(** The text before the first character satisfying [p], and the rest. *)
Fixpoint break_at (p : ascii -> bool) (s : string) : string * string :=
  match s with
  | "" => ("", "")
  | String c s' => if p c then ("", s) else let '(a, b) := break_at p s' in (String c a, b)
  end.

(** angular.js 9304-9307 *)
Definition stripHash (url : string) : string := (break_at (fun c => Ascii.eqb c "#") url).1.

(** A line terminator, where [.] does not match: LF, CR, U+2028 and U+2029. *)
Definition at_line_end (s : string) : bool :=
  match s with
  | "" => false
  | String c s' =>
      Ascii.eqb c "010" || Ascii.eqb c "013" ||
      Ascii.eqb c "226" && (prefix_of false (String "128" (String "168" "")) s' ||
                            prefix_of false (String "128" (String "169" "")) s')
  end.

(** What [.*] matches, and the rest. *)
Fixpoint break_line (s : string) : string * string :=
  match s with
  | "" => ("", "")
  | String c s' =>
      if at_line_end s then ("", s) else let '(a, b) := break_line s' in (String c a, b)
  end.

(** angular.js 9309-9311: the first match of [/(#.+)|#$/] is put back when it
    is the first alternative and dropped when it is the second. *)
Fixpoint trimEmptyHash (url : string) : string :=
  match url with
  | "" => ""
  | String c s =>
      if Ascii.eqb c "#" then
        if String.eqb s "" then ""
        else if at_line_end s then String c (trimEmptyHash s) else url
      else String c (trimEmptyHash s)
  end.

(** angular.js 9314-9316 *)
Definition stripFile (url : string) : string :=
  match before_last "/" (stripHash url) with Some p => p +:+ "/" | None => "" end.

(** angular.js 9319-9321: [indexOf] answers -1 when there is no slash, which
    [substring] reads as 0, and the search starts two characters after the
    first [//] (at 1 when there is none). *)
Fixpoint index_of (pat s : string) (i : Z) (from : Z) : Z :=
  if (from <=? i) && prefix_of false pat s then i
  else match s with "" => -1 | String _ s' => index_of pat s' (i + 1) from end.

Definition substring0 (s : string) (n : Z) : string := String.substring 0 (Z.to_nat n) s.

Definition serverBase (url : string) : string :=
  substring0 url (index_of "/" url 0 (index_of "//" url 0 0 + 2)).

(** [parseInt(s, 10)] on a string without sign or blanks. *)
Fixpoint parse_digits (acc : option Z) (s : string) : option Z :=
  match s with
  | String c s =>
      if is_digit c then
        parse_digits (Some (10 * default 0 acc + (Z.of_N (N_of_ascii c) - 48))) s
      else acc
  | "" => acc
  end.

Definition DEFAULT_PORTS (p : string) : option Z :=
  if String.eqb p "http" then Some 80
  else if String.eqb p "https" then Some 443
  else if String.eqb p "ftp" then Some 21 else None.

Inductive strategy : Type :=
| Html5Url (appBase basePrefix : string)
| HashbangUrl (appBase hashPrefix : string)
| HashbangInHtml5Url (appBase hashPrefix : string).

Record location := Loc {
  l_protocol : string;
  l_host : string;
  l_port : option Z;
  l_path : string;
  l_search : params;
  l_hash : string;
  l_url : string;
  l_absUrl : string;
  l_replace : bool
}.

Definition set_path (p : string) (l : location) : location :=
  Loc (l_protocol l) (l_host l) (l_port l) p (l_search l) (l_hash l) (l_url l) (l_absUrl l) (l_replace l).
Definition set_search (s : params) (l : location) : location :=
  Loc (l_protocol l) (l_host l) (l_port l) (l_path l) s (l_hash l) (l_url l) (l_absUrl l) (l_replace l).
Definition set_hash (h : string) (l : location) : location :=
  Loc (l_protocol l) (l_host l) (l_port l) (l_path l) (l_search l) h (l_url l) (l_absUrl l) (l_replace l).
Definition set_urls (u a : string) (l : location) : location :=
  Loc (l_protocol l) (l_host l) (l_port l) (l_path l) (l_search l) (l_hash l) u a (l_replace l).

Definition appBase (st : strategy) : string :=
  match st with Html5Url b _ | HashbangUrl b _ | HashbangInHtml5Url b _ => b end.

Definition html5 (st : strategy) : bool :=
  match st with Html5Url _ _ | HashbangInHtml5Url _ _ => true | HashbangUrl _ _ => false end.

(** A method returns the object as it leaves it, with the exception it throws
    if it throws one. *)
Definition outcome : Type := location * option string.

(** The path, query and fragment of the current state: the first lines of the
    three [$$compose]. *)
Definition url_of (l : location) : result string string :=
  search ← toKeyValue (l_search l);
  let hash := if String.eqb (l_hash l) "" then "" else "#" +:+ encodeUriSegment (l_hash l) in
  Ok (encodePath (l_path l) +:+ (if String.eqb search "" then "" else "?" +:+ search) +:+ hash).

(** The rest of [$$compose], given the absolute URL of a relative one. *)
Definition compose_with (absolute : string -> string) (l : location) : outcome :=
  match url_of l with
  | Err e => (l, Some e)
  | Ok url => (set_urls url (absolute url) l, None)
  end.

(** angular.js 9364-9370 *)
Definition compose_html5 (base : string) : location -> outcome :=
  compose_with (fun url => stripFile base +:+ String.substring 1 (String.length url) url).

(** angular.js 9473-9479 *)
Definition compose_hashbang (base hashPrefix : string) : location -> outcome :=
  compose_with (fun url => base +:+ (if String.eqb url "" then "" else hashPrefix +:+ url)).

(** angular.js 9523-9530 *)
Definition compose_hashbang_html5 (base hashPrefix : string) : location -> outcome :=
  compose_with (fun url => base +:+ hashPrefix +:+ url).

Definition compose (st : strategy) (l : location) : outcome :=
  match st with
  | Html5Url b _ => compose_html5 b l
  | HashbangUrl b hp => compose_hashbang b hp l
  | HashbangInHtml5Url b hp => compose_hashbang_html5 b hp l
  end.

Section Resolve.
(** The anchor element's view of an [href]; [msie] normalises it first. *)
Context (urlParsingNode : string -> anchor) (normalise : string -> string) (msie : bool).

(** angular.js 14564-14589 *)
Definition urlResolve (url : string) : parsed :=
  let href := if msie then normalise url else url in
  let a := urlParsingNode href in
  Parsed (drop_last ":" (a_protocol a)) (a_host a) (a_hostname a) (a_port a)
    (if charAt0 "/" (a_pathname a) then a_pathname a else "/" +:+ a_pathname a)
    (drop_first "?" (a_search a)) (drop_first "#" (a_hash a)).

(** angular.js 14598-14602 *)
Definition urlIsSameOrigin (originUrl : parsed) (requestUrl : string + parsed) : bool :=
  let p := match requestUrl with inl s => urlResolve s | inr p => p end in
  String.eqb (protocol p) (protocol originUrl) && String.eqb (host p) (host originUrl).

(** angular.js 9263-9269 *)
Definition parseAbsoluteUrl (absoluteUrl : string) (l : location) : location :=
  let p := urlResolve absoluteUrl in
  let n := parse_digits None (port p) in
  let port' := if truthy (match n with Some n => JNum n | None => JNaN end) then n
               else DEFAULT_PORTS (protocol p) in
  Loc (protocol p) (hostname p) port' (l_path l) (l_search l) (l_hash l) (l_url l) (l_absUrl l)
    (l_replace l).

(** angular.js 9272-9287: each field is assigned before the next is decoded. *)
Definition parseAppUrl (relativeUrl : string) (l : location) : outcome :=
  let prefixed := negb (charAt0 "/" relativeUrl) in
  let m := urlResolve (if prefixed then "/" +:+ relativeUrl else relativeUrl) in
  match decodeURIComponent (if prefixed && charAt0 "/" (pathname m)
                            then String.substring 1 (String.length (pathname m)) (pathname m)
                            else pathname m) with
  | Err e => (l, Some e)
  | Ok p =>
      let l := set_search (parseKeyValue (search m)) (set_path p l) in
      match decodeURIComponent (hash m) with
      | Err e => (l, Some e)
      | Ok h =>
          let l := set_hash h l in
          (if negb (String.eqb (l_path l) "") && negb (charAt0 "/" (l_path l))
           then set_path ("/" +:+ l_path l) l else l, None)
      end
  end.

(** angular.js 9344-9358 *)
Definition parse_html5 (base : string) (url : string) (l : location) : outcome :=
  match beginsWith (stripFile base) url with
  | None => (l, Some "$location:ipthprfx")
  | Some pathUrl =>
      match parseAppUrl pathUrl l with
      | (l, Some e) => (l, Some e)
      | (l, None) =>
          let l := if String.eqb (l_path l) "" then set_path "/" l else l in
          compose_html5 base l
      end
  end.

(** angular.js 9450: a drive letter as the first segment; the captured rest. *)
Definition windowsFilePath (s : string) : option string :=
  match s with
  | String "/" (String d (String ":" (String "/" s'))) =>
      let n := N_of_ascii d in
      if ((65 <=? n) && (n <=? 90))%N then Some (String "/" (break_line s').1) else None
  | _ => None
  end.

(** angular.js 9445-9466 *)
Definition removeWindowsDriveName (path url base : string) : string :=
  let url := default url (beginsWith base url) in
  match windowsFilePath url with
  | Some _ => path
  | None => default path (windowsFilePath path)
  end.

(** JavaScript's [||] on strings that may be undefined. *)
Definition or_str (a b : option string) : option string :=
  match a with Some s => if String.eqb s "" then b else Some s | None => b end.

(** angular.js 9416-9432 *)
Definition parse_hashbang (base hashPrefix : string) (isHtml5 : bool)
    (recompose : location -> outcome) (url : string) (l : location) : outcome :=
  match or_str (beginsWith base url) (beginsWith (stripFile base) url) with
  | None => (l, Some "TypeError")
  | Some withoutBaseUrl =>
      let withoutHashUrl :=
        if charAt0 "#" withoutBaseUrl then beginsWith hashPrefix withoutBaseUrl
        else Some (if isHtml5 then withoutBaseUrl else "") in
      match withoutHashUrl with
      | None => (l, Some "$location:ihshprfx")
      | Some u =>
          match parseAppUrl u l with
          | (l, Some e) => (l, Some e)
          | (l, None) => recompose (set_path (removeWindowsDriveName (l_path l) u base) l)
          end
      end
  end.

Definition parse (st : strategy) (url : string) (l : location) : outcome :=
  match st with
  | Html5Url b _ => parse_html5 b url l
  | HashbangUrl b hp | HashbangInHtml5Url b hp => parse_hashbang b hp (html5 st) (compose st) url l
  end.

(** angular.js 9376-9387: the URL the link is rewritten to. *)
Definition rewritten_html5 (base basePrefix url : string) : option string :=
  match beginsWith base url with
  | Some prevAppUrl =>
      match beginsWith basePrefix prevAppUrl with
      | Some appUrl => Some (stripFile base +:+ default appUrl (or_str (beginsWith "/" appUrl) None))
      | None => Some (base +:+ prevAppUrl)
      end
  | None =>
      match beginsWith (stripFile base) url with
      | Some appUrl => Some (stripFile base +:+ appUrl)
      | None => if String.eqb (stripFile base) (url +:+ "/") then Some (stripFile base) else None
      end
  end.

(** angular.js 9510-9516 *)
Definition rewritten_hashbang_html5 (base hashPrefix url : string) : option string :=
  if String.eqb base (stripHash url) then Some url
  else
    match or_str (beginsWith (stripFile base) url) None with
    | Some appUrl => Some (base +:+ hashPrefix +:+ appUrl)
    | None => if String.eqb (stripFile base) (url +:+ "/") then Some (stripFile base) else None
    end.

(** Whether the link is one of the application's, and what following it leaves
    (angular.js 9372-9392, 9481-9487, 9506-9521). *)
Definition parseLinkUrl (st : strategy) (url : string) (l : location) : outcome * bool :=
  match st with
  | Html5Url b bp =>
      match or_str (rewritten_html5 b bp url) None with
      | Some r => (parse st r l, true)
      | None => ((l, None), false)
      end
  | HashbangUrl b _ =>
      if String.eqb (stripHash b) (stripHash url) then (parse st url l, true) else ((l, None), false)
  | HashbangInHtml5Url b hp =>
      match or_str (rewritten_hashbang_html5 b hp url) None with
      | Some r => (parse st r l, true)
      | None => ((l, None), false)
      end
  end.
End Resolve.

(** *** The public setters (angular.js 9579-9759); each recomposes the URL *)

(** [path(p)]; [None] is [null]. *)
Definition path (st : strategy) (p : option string) (l : location) : outcome :=
  let p := default "" p in
  compose st (set_path (if charAt0 "/" p then p else "/" +:+ p) l).

Definition hash_ (st : strategy) (h : option string) (l : location) : outcome :=
  compose st (set_hash (default "" h) l).

(** The arguments [search] accepts; a null or undefined second one is [None]. *)
Inductive search_arg : Type :=
| SearchText (s : string)
| SearchObject (o : params)
| SearchOther
| SearchParam (k : string) (v : option kv).

(** [delete search[key]] for what [forEach] visits and is null or undefined. *)
Definition drop_nulls (visited o : params) : params :=
  fold_left (fun o p => match p.2 with One SNull | One SUndef => pdel o p.1 | _ => o end) visited o.

Definition search_ (st : strategy) (a : search_arg) (l : location) : outcome :=
  match a with
  | SearchText s => compose st (set_search (parseKeyValue s) l)
  | SearchObject o =>
      match each o with
      | Err e => (l, Some e)
      | Ok ps => compose st (set_search (drop_nulls ps o) l)
      end
  | SearchOther => (l, Some "$location:isrcharg")
  | SearchParam k None => compose st (set_search (pdel (l_search l) k) l)
  | SearchParam k (Some v) => compose st (set_search (pset (l_search l) k v) l)
  end.

Definition replace (l : location) : location :=
  Loc (l_protocol l) (l_host l) (l_port l) (l_path l) (l_search l) (l_hash l) (l_url l) (l_absUrl l) true.

(** [PATH_MATCH] (9241): the path, the query with and without its [?], and the
    fragment; no match when the fragment holds a line end. *)
Definition path_match (url : string) : option (string * option string * option string) :=
  let '(p, r) := break_at (fun c => Ascii.eqb c "?" || Ascii.eqb c "#") url in
  let '(q, r) := match r with
                 | String "?" r => let '(q, r) := break_at (fun c => Ascii.eqb c "#") r in (Some q, r)
                 | _ => (None, r)
                 end in
  match r with
  | String "#" f => if String.eqb (break_line f).2 "" then Some (p, q, Some f) else None
  | _ => Some (p, q, None)
  end.

(** angular.js 9583-9588 *)
Definition url_ (st : strategy) (url : string) (l : location) : outcome :=
  match path_match url with
  | None => (l, Some "TypeError")
  | Some (m1, m2, m5) =>
      let after_path :=
        if String.eqb m1 "" then (l, None)
        else match decodeURIComponent m1 with
             | Ok p => path st (Some p) l
             | Err e => (l, Some e)
             end in
      match after_path with
      | (l, Some e) => (l, Some e)
      | (l, None) =>
          let '(l, e) := if bool_decide (is_Some m2) || negb (String.eqb m1 "")
                         then search_ st (SearchText (default "" m2)) l else (l, None) in
          match e with
          | Some e => (l, Some e)
          | None => hash_ st (Some (default "" m5)) l
          end
      end
  end.

(** *** Lemmas *)

Lemma beginsWith_app a b : beginsWith a (a +:+ b) = Some b.
Proof. induction a as [|c a IH]; simpl; [done|]. by rewrite Ascii.eqb_refl. Qed.

Definition path_tok (c : ascii) : string := if Ascii.eqb c "/" then "/" else segment_tok c.

Lemma path_tok_faithful : faithful_tok path_tok.
Proof.
  intros c. unfold path_tok. destruct (Ascii.eqb_spec c "/") as [->|_]; [by right|].
  apply segment_tok_faithful.
Qed.

Lemma encodePath_enc p : encodePath p = enc path_tok p.
Proof.
  unfold encodePath. induction p as [|c p IH]; [done|]. cbn [split_char enc]. unfold path_tok at 1.
  pose proof (split_char_nonempty "/" p) as Hn.
  destruct (Ascii.eqb c "/"); destruct (split_char "/" p) as [|w ws]; [done|..|done|].
  - cbn [map join] in *. by rewrite <- IH.
  - rewrite <- IH. cbn [map]. rewrite !encodeUriSegment_enc. cbn [enc].
    destruct ws; cbn [map join]; [done|]. by rewrite <- string_app_assoc.
Qed.

Lemma path_tok_lacks d : contains_char d "?#" = true -> forall s, contains_char d (enc path_tok s) = false.
Proof.
  intros Hd s. apply enc_lacks. intros c.
  destruct d as [[] [] [] [] [] [] [] []]; try discriminate Hd;
    destruct c as [[] [] [] [] [] [] [] []]; vm_compute; reflexivity.
Qed.

Lemma substring_tail c s : String.substring 1 (String.length (String c s)) (String c s) = s.
Proof. cbn [String.substring]. apply substring_all. simpl. lia. Qed.

Lemma break_at_app p a b : all_chars (fun c => negb (p c)) a = true ->
  break_at p (a +:+ b) = let '(x, y) := break_at p b in (a +:+ x, y).
Proof.
  induction a as [|c a IH]; simpl.
  { intros _. change ("" +:+ b) with b. destruct (break_at p b). reflexivity. }
  intros [Hc Ha]%andb_true_iff. apply negb_true_iff in Hc. rewrite Hc, (IH Ha).
  by destruct (break_at p b).
Qed.

(** The part of the URL a path or a fragment is written as. *)
Definition query_part (l : location) : string :=
  let search := print_params (l_search l) in if String.eqb search "" then "" else "?" +:+ search.
Definition hash_part (l : location) : string :=
  if String.eqb (l_hash l) "" then "" else "#" +:+ encodeUriSegment (l_hash l).

Definition url_text (l : location) : string := encodePath (l_path l) +:+ query_part l +:+ hash_part l.

Lemma url_of_each l : each (l_search l) = Ok (l_search l) -> url_of l = Ok (url_text l).
Proof. intros H. unfold url_of. by rewrite (toKeyValue_each _ H). Qed.

(** A state the address bar can hold: rooted path without an empty first
    segment, well-formed text, readable parameters, in the order they are
    visited, none of them taken for a method or a length. *)
Record regular (l : location) : Prop := Regular {
  reg_path : exists rest, l_path l = String "/" rest /\ charAt0 "/" rest = false;
  reg_dots : Forall (fun s => s <> "." /\ s <> "..") (split_char "/" (l_path l));
  reg_path_utf8 : utf8 (l_path l) = true;
  reg_hash_utf8 : utf8 (l_hash l) = true;
  reg_quote : contains_char "'" (print_params (l_search l)) = false;
  reg_keys : NoDup (l_search l).*1;
  reg_order : enumerated (l_search l).*1 = true;
  reg_each : each (l_search l) = Ok (l_search l);
  reg_params : forallb param_ok (l_search l) = true
}.

(** The URL standard, on the URLs composed here: the browser splits the
    reference at its [?] and [#], and has nothing to normalise or escape in it. *)
Definition browser_keeps (view : string -> anchor) : Prop :=
  forall l, regular l ->
    a_pathname (view (url_text l)) = encodePath (l_path l) /\
    a_search (view (url_text l)) = query_part l /\
    a_hash (view (url_text l)) = hash_part l.

(** The splitting alone. *)
Definition plain_view (href : string) : anchor :=
  let '(r, h) := break_at (fun c => Ascii.eqb c "#") href in
  let '(p, q) := break_at (fun c => Ascii.eqb c "?") r in
  Anchor "http:" "host" "host" "" p q h.

Lemma all_chars_lacks d s : contains_char d s = false -> all_chars (fun c => negb (Ascii.eqb c d)) s = true.
Proof. intros H. rewrite contains_char_all in H. by apply negb_false_iff in H. Qed.

Lemma plain_view_keeps : browser_keeps plain_view.
Proof.
  intros l _. unfold plain_view. change (url_text l) with (encodePath (l_path l) +:+ query_part l +:+ hash_part l).
  rewrite encodePath_enc, string_app_assoc.
  assert (Hq : contains_char "#" (query_part l) = false).
  { unfold query_part. destruct (String.eqb _ _); [done|].
    change (contains_char "#" (String "?" (print_params (l_search l))) = false).
    cbn [contains_char]. by rewrite print_lacks. }
  rewrite (break_at_app _ (_ +:+ query_part l)).
  2:{ apply (all_chars_lacks "#"). by rewrite contains_char_app, path_tok_lacks, Hq. }
  assert (Hh : break_at (fun c => Ascii.eqb c "#") (hash_part l) = ("", hash_part l)).
  { unfold hash_part. by destruct (String.eqb _ _). }
  rewrite Hh, string_app_nil_r. rewrite break_at_app.
  2:{ apply (all_chars_lacks "?"). by apply path_tok_lacks. }
  assert (Hb : break_at (fun c => Ascii.eqb c "?") (query_part l) = ("", query_part l)).
  { unfold query_part. by destruct (String.eqb _ _). }
  by rewrite Hb, string_app_nil_r.
Qed.

Lemma drop_first_query l : drop_first "?" (query_part l) = print_params (l_search l).
Proof. unfold query_part. by destruct (String.eqb_spec (print_params (l_search l)) "") as [->|_]. Qed.

Lemma drop_first_hash l : drop_first "#" (hash_part l) = enc segment_tok (l_hash l).
Proof.
  unfold hash_part. destruct (String.eqb_spec (l_hash l) "") as [->|_]; [done|].
  by rewrite encodeUriSegment_enc.
Qed.

Lemma utf8_tail c s : utf8 (String c s) = true -> (N_of_ascii c <? 128)%N = true -> utf8 s = true.
Proof. unfold utf8. cbn [utf8_from]. intros H Hc. by rewrite Hc in H. Qed.

(** Parsing the composed reference, whether written with its slash or without. *)
Lemma parseAppUrl_url_of node norm msie l l0 rest :
  browser_keeps (fun s => node (if msie : bool then norm s else s)) ->
  regular l -> url_text l = String "/" rest -> charAt0 "/" rest = false ->
  exists l1, parseAppUrl node norm msie rest l0 = (l1, None) /\
    (if String.eqb (l_path l1) "" then "/" else l_path l1) = l_path l /\
    l_search l1 = l_search l /\ l_hash l1 = l_hash l.
Proof.
  intros Hb Hl Hu Hr. destruct (Hb l Hl) as (Hp & Hq & Hh).
  destruct (reg_path _ Hl) as (pr & Hpath & Hpr).
  unfold parseAppUrl. rewrite Hr. cbn [negb andb]. change ("/" +:+ rest) with (String "/" rest).
  rewrite <- Hu. unfold urlResolve; cbn [pathname search hash]. rewrite Hp, Hq, Hh.
  rewrite encodePath_enc, drop_first_query, drop_first_hash, Hpath. cbn [enc].
  change (path_tok "/" +:+ enc path_tok pr) with (String "/" (enc path_tok pr)).
  cbn [charAt0]. change (Ascii.eqb "/" "/") with true. cbn iota.
  cbn [charAt0]. change (Ascii.eqb "/" "/") with true. cbn iota. rewrite substring_tail.
  assert (Hu8 : utf8 pr = true).
  { pose proof (reg_path_utf8 _ Hl) as H. rewrite Hpath in H. by eapply utf8_tail. }
  rewrite (decode_enc _ pr) by (apply path_tok_faithful || done).
  rewrite (decode_enc _ (l_hash l)) by (apply segment_tok_faithful || apply (reg_hash_utf8 _ Hl)).
  assert (Hs : parseKeyValue (print_params (l_search l)) = l_search l).
  { apply parse_print_params; [apply (reg_keys _ Hl)|apply (reg_order _ Hl)|apply (reg_params _ Hl)]. }
  rewrite Hs. eexists. split; [reflexivity|]. cbn.
  destruct (String.eqb_spec pr "") as [->|Hne]; cbn; [done|]. rewrite Hpr. cbn. done.
Qed.

(** The absolute URL a state composes. *)
Definition abs_text (base : string) (l : location) : string :=
  stripFile base +:+ String.substring 1 (String.length (url_text l)) (url_text l).

Lemma compose_each base l : each (l_search l) = Ok (l_search l) ->
  compose_html5 base l = (set_urls (url_text l) (abs_text base l) l, None).
Proof. intros H. unfold compose_html5, compose_with. by rewrite url_of_each. Qed.

Lemma abs_text_same base l la : l_path la = l_path l -> l_search la = l_search l -> l_hash la = l_hash l ->
  abs_text base la = abs_text base l.
Proof. unfold abs_text, url_text, query_part, hash_part. by intros -> -> ->. Qed.

(** Parsing it. *)
Lemma parse_composed node norm msie base l l0 :
  browser_keeps (fun s => node (if msie : bool then norm s else s)) ->
  regular l ->
  exists l', parse_html5 node norm msie base (abs_text base l) l0 = (l', None) /\
    l_path l' = l_path l /\ l_search l' = l_search l /\ l_hash l' = l_hash l /\
    l_absUrl l' = abs_text base l.
Proof.
  intros Hb Hl. destruct (reg_path _ Hl) as (pr & Hpath & Hpr).
  assert (Hu : exists rest, url_text l = String "/" rest /\ charAt0 "/" rest = false).
  { exists (enc path_tok pr +:+ query_part l +:+ hash_part l).
    split.
    - unfold url_text. rewrite encodePath_enc, Hpath. reflexivity.
    - destruct pr as [|c pr]; cbn [enc].
      + unfold query_part, hash_part.
        destruct (String.eqb _ _), (String.eqb _ _); reflexivity.
      + destruct c as [[] [] [] [] [] [] [] []]; try reflexivity; discriminate Hpr. }
  destruct Hu as (rest & Hu & Hr).
  destruct (parseAppUrl_url_of node norm msie l l0 rest Hb Hl Hu Hr) as (l1 & Hp & H1 & H2 & H3).
  unfold parse_html5, abs_text at 1. rewrite Hu, substring_tail, beginsWith_app, Hp.
  assert (He : each (l_search l1) = Ok (l_search l1)) by (rewrite H2; apply (reg_each _ Hl)).
  destruct (String.eqb_spec (l_path l1) "") as [Hn|Hn]; rewrite compose_each by done; eexists; (split; [reflexivity|]); cbn;
    split_and!; try done; by apply abs_text_same.
Qed.
End Location.

(** ** Properties *)

(** A query string keeps the parameters: whatever the keys and the decoded
    texts contain ([&], [=], [+], blanks, any UTF-8), what [toKeyValue] prints
    [parseKeyValue] reads back, repeated keys and bare keys included. *)
Theorem query_roundtrip (obj : Query.params) :
  NoDup obj.*1 -> Query.enumerated obj.*1 = true -> Query.each obj = Ok obj -> forallb Query.param_ok obj = true ->
  exists text, Query.toKeyValue obj = Ok text /\ Query.parseKeyValue text = obj.
Proof.
  intros Hn Hen He Hok. exists (Query.print_params obj). split; [by apply Query.toKeyValue_each|by apply Query.parse_print_params].
Qed.

Lemma query_roundtrip_witness : exists text,
  Query.toKeyValue [("a b&", Query.One (Query.SStr "1=2+3")); ("k", Query.Many [Query.STrue; Query.SStr ""])] = Ok text /\
  Query.parseKeyValue text =
  [("a b&", Query.One (Query.SStr "1=2+3")); ("k", Query.Many [Query.STrue; Query.SStr ""])].
Proof.
  apply query_roundtrip; try reflexivity.
  simpl. apply NoDup_cons. split; [|apply NoDup_singleton].
  intros H%list_elem_of_singleton. discriminate.
Defined.

(** Array indices are visited first. *)
Example index_first :
  Query.parseKeyValue "b=1&10=x&9=y" =
  [("9", Query.One (Query.SStr "y")); ("10", Query.One (Query.SStr "x")); ("b", Query.One (Query.SStr "1"))].
Proof. vm_compute. reflexivity. Qed.

(** C10: the address bar and [$location] agree: in HTML5 mode, on a state the
    address bar can hold - a rooted path, well-formed text, parameters a URL can
    write, none of them named [hasOwnProperty] and none named [forEach] that
    holds something, which the code would call - composing throws nothing, and
    parsing the absolute URL composed gives the path, the parameters and the
    fragment of that state back, without an exception, and composes the same
    URL again. *)
Theorem location_roundtrip node norm msie base l l0 :
  Location.browser_keeps (fun s => node (if msie : bool then norm s else s)) ->
  Location.regular l ->
  exists lc l', Location.compose_html5 base l = (lc, None) /\
    Location.parse_html5 node norm msie base (Location.l_absUrl lc) l0 = (l', None) /\
    Location.l_path l' = Location.l_path l /\ Location.l_search l' = Location.l_search l /\
    Location.l_hash l' = Location.l_hash l /\
    Location.l_absUrl l' = Location.l_absUrl lc.
Proof.
  intros Hb Hl. destruct (Location.parse_composed node norm msie base l l0 Hb Hl) as (l' & Hp).
  eexists _, l'. split; [apply Location.compose_each, (Location.reg_each _ Hl)|exact Hp].
Qed.

Definition demo_location : Location.location :=
  Location.Loc "http" "host" (Some 80) "/room/a b" [("q", Query.One (Query.SStr "x/y"))] "top" "" "" false.

Lemma location_roundtrip_witness :
  exists l', Location.parse_html5 Location.plain_view id false "http://host/app/index.html"
    "http://host/app/room/a%20b?q=x%2Fy#top" demo_location = (l', None) /\
    Location.l_path l' = "/room/a b".
Proof.
  destruct (location_roundtrip Location.plain_view id false "http://host/app/index.html"
    demo_location demo_location Location.plain_view_keeps) as (lc & l' & H0 & H1 & H2 & _).
  - constructor; try (vm_compute; reflexivity).
    + by exists "room/a b".
    + vm_compute. repeat constructor; discriminate.
    + simpl. apply NoDup_singleton.
  - exists l'. vm_compute in H0. injection H0 as <-. split; [exact H1|exact H2].
Defined.

(** A URL whose query has a parameter [hasOwnProperty], or [forEach], breaks
    [$location]: parsing it throws when the URL is composed. *)
Example method_parameter :
  (Location.parse_html5 Location.plain_view id false "http://host/app/index.html"
     "http://host/app/room?hasOwnProperty=1" demo_location).2 = Some "TypeError" /\
  (Location.parse_html5 Location.plain_view id false "http://host/app/index.html"
     "http://host/app/room?forEach" demo_location).2 = Some "TypeError".
Proof. vm_compute. done. Qed.
