(* ===== verification/NgResource.v ===== *)
(** * NgResource: how the console's service calls become HTTP requests

    [angular-resource.js]: URL templates ([Route.setUrlParams]), the argument
    conventions of an action ([Resource\[name\]]), the request it sends and
    what it does with the answer. *)

From S2P Require Import Prelude Text Js NgUrl.

Abbreviation props := (list (string * jsval)).

(** ** Dotted paths and copies *)

Definition word_char (c : ascii) : bool := Uri.is_alnum c || Ascii.eqb c "_".
Definition member_start (c : ascii) : bool :=
  (Uri.is_alnum c && negb (is_digit c)) || contains_char c "_$@".
Definition member_char (c : ascii) : bool := Uri.is_alnum c || contains_char c "_$@".

Definition member_name (s : string) : bool :=
  match s with "" => false | String c s => member_start c && all_chars member_char s end.

(** angular-resource.js 15-18 *)
Definition isValidDottedPath (path : string) : bool :=
  negb (String.eqb path "") && negb (String.eqb path "hasOwnProperty") &&
  forallb member_name (split_char "." path).

Section Objects.
(** [inherited v key]: what the prototype of [v] holds under [key];
    [object_proto key]: what [Object.prototype] holds under [key]; [call f]: the
    result of calling a function without arguments. *)
Context (object_proto : string -> jsval) (inherited : jsval -> string -> jsval) (call : nat -> jsval) (obj_str : nat -> string).

(** [v[key]] for a member name. *)
Definition member (h : jsheap) (v : jsval) (key : string) : jsval :=
  match v with
  | JRef r =>
      match h !! r with
      | Some o => if prop_has (obj_props o) key then prop_get (obj_props o) key else
                    match o with
                    | OArray es => if String.eqb key "length" then JNum (Z.of_nat (length es))
                                   else inherited v key
                    | _ => inherited v key
                    end
      | None => JUndef
      end
  | JStr s => if String.eqb key "length" then JNum (Z.of_nat (String.length s)) else inherited v key
  | _ => inherited v key
  end.

Definition is_undef (v : jsval) : bool := match v with JUndef => true | _ => false end.
Definition is_null (v : jsval) : bool := match v with JNull => true | _ => false end.

Fixpoint walk (h : jsheap) (obj : jsval) (keys : list string) : jsval :=
  match keys with
  | [] => obj
  | key :: keys =>
      if is_undef obj then obj
      else walk h (if is_null obj then JUndef else member h obj key) keys
  end.

(** angular-resource.js 20-30 *)
Definition lookupDottedPath (h : jsheap) (obj : jsval) (path : string) : result string jsval :=
  if isValidDottedPath path then Ok (walk h obj (split_char "." path)) else Err "$resource:badmember".

Definition private_key (k : string) : bool :=
  match k with String c1 (String c2 _) => Ascii.eqb c1 "$" && Ascii.eqb c2 "$" | _ => false end.

(** angular-resource.js 35-49: whatever [dst] held goes. *)
Definition shallowClearAndCopy (src : props) : props :=
  foldl (fun d kv => if private_key kv.1 then d else prop_set d kv.1 kv.2) [] src.

(** The enumerable own properties of any value. *)
Definition own_props (h : jsheap) (v : jsval) : props :=
  match v with
  | JRef r => match h !! r with Some o => obj_props o | None => [] end
  | JStr s => imap (fun i c => (pretty (N.of_nat i), JStr (String c ""))) (String.list_ascii_of_string s)
  | _ => []
  end.

(** [extend({}, a, b, ...)]. *)
Definition extend_new (objs : list props) : props :=
  prop_del (foldl (fun d obj => foldl (fun d kv => prop_set d kv.1 kv.2) d obj) [] objs) "$$hashKey".

(** ** URL templates *)

(** [url.split(/\W/)]. *)
Fixpoint split_nonword (s : string) : list string :=
  match s with
  | "" => [""]
  | String c s =>
      if word_char c then
        match split_nonword s with w :: ws => String c w :: ws | [] => [String c ""] end
      else "" :: split_nonword s
  end.

Definition at_word_end (s : string) : bool :=
  match s with "" => true | String c _ => negb (word_char c) end.

(** [s] starts with [:param] at the end of a word; the rest after the name. *)
Definition param_here (param s : string) : option string :=
  match Location.beginsWith (String ":" param) s with
  | Some rest => if at_word_end rest then Some rest else None
  | None => None
  end.

(** [/(^|[^\\]):param(\W|$)/.test(s)]. *)
Fixpoint mentions (after_backslash : bool) (param s : string) : bool :=
  (negb after_backslash && bool_decide (is_Some (param_here param s))) ||
  match s with "" => false | String c s => mentions (Ascii.eqb c "\") param s end.

(** [/=:param(?:\W|$)/] and [/\?.*=:param(?:\W|$)/]; [.] stops at a line end. *)
Fixpoint eq_mentions (param s : string) : bool :=
  match s with
  | "" => false
  | String c s' =>
      (Ascii.eqb c "=" && bool_decide (is_Some (param_here param s'))) ||
      (negb (Location.at_line_end s) && eq_mentions param s')
  end.

Fixpoint query_mentions (param s : string) : bool :=
  match s with
  | "" => false
  | String c s => (Ascii.eqb c "?" && eq_mentions param s) || query_mentions param s
  end.

(** The parameters of a template, with whether each stands in the query, in
    order of first occurrence (angular-resource.js 484-495). *)
Fixpoint template_params (url : string) (ws : list string) (acc : list (string * bool))
  : result string (list (string * bool)) :=
  match ws with
  | [] => Ok acc
  | w :: ws =>
      if String.eqb w "hasOwnProperty" then Err "$resource:badname"
      else if negb (all_chars is_digit w) && negb (String.eqb w "") && mentions false w url then
        template_params url ws
          (if bool_decide (w ∈ acc.*1) then acc else acc ++ [(w, query_mentions w url)])
      else template_params url ws acc
  end.

(** [url.replace(/:param(\W|$)/g, m => val + p1)]: a match eats the character
    after the name. [skip] characters are already consumed. *)
Fixpoint fill_param (param val : string) (skip : nat) (s : string) : string :=
  match s with
  | "" => ""
  | String c s' =>
      match skip with
      | S k => fill_param param val k s'
      | O =>
          match param_here param s with
          | Some "" => val
          | Some (String d _) =>
              val +:+ String d (fill_param param val (S (String.length param)) s')
          | None => String c (fill_param param val 0 s')
          end
      end
  end.

(** [url.replace(/(\/?):param(\W|$)/g, ...)] for a missing value: the slash
    before it goes too when a slash follows. *)
Fixpoint drop_param (param : string) (skip : nat) (s : string) : string :=
  match s with
  | "" => ""
  | String c s' =>
      match skip with
      | S k => drop_param param k s'
      | O =>
          match (if Ascii.eqb c "/" then param_here param s' else None) with
          | Some "" => "/"
          | Some (String d _) =>
              (if Ascii.eqb d "/" then String d "" else String "/" (String d "")) +:+
              drop_param param (2 + String.length param) s'
          | None =>
              match param_here param s with
              | Some "" => ""
              | Some (String d _) => String d (drop_param param (S (String.length param)) s')
              | None => String c (drop_param param 0 s')
              end
          end
      end
  end.

(** [url.replace(/\/+$/, '')]. *)
Fixpoint strip_trailing_slashes (s : string) : string :=
  match s with
  | "" => ""
  | String c s' =>
      let r := strip_trailing_slashes s' in
      if Ascii.eqb c "/" && String.eqb r "" then "" else String c r
  end.

(** [/\w+($|\?)/] at the start of [s]. *)
Fixpoint word_then_end (seen : bool) (s : string) : bool :=
  match s with
  | "" => seen
  | String c s => if word_char c then word_then_end true s else seen && Ascii.eqb c "?"
  end.

(** [url.replace(/\/\.(?=\w+($|\?))/, '.')]: the first match only. *)
Fixpoint collapse_dot (s : string) : string :=
  match s with
  | "" => ""
  | String c s' =>
      match s' with
      | String d s'' =>
          if Ascii.eqb c "/" && Ascii.eqb d "." && word_then_end false s'' then s'
          else String c (collapse_dot s')
      | "" => s
      end
  end.

(** [url.replace(/\/\\\./, '/.')]: the first match only. *)
Fixpoint unescape_dot (s : string) : string :=
  match s with
  | "" => ""
  | String c s' =>
      match s' with
      | String d (String e s'') =>
          if Ascii.eqb c "/" && Ascii.eqb d "\" && Ascii.eqb e "." then "/." +:+ s''
          else String c (unescape_dot s')
      | _ => s
      end
  end.

(** [/^https?:\/\/[^\/]*/]: the matched prefix and the rest. *)
Definition protocol_and_domain (url : string) : string * string :=
  match Location.beginsWith "http://" url, Location.beginsWith "https://" url with
  | Some r, _ => let '(d, r) := Location.break_at (fun c => Ascii.eqb c "/") r in ("http://" +:+ d, r)
  | None, Some r => let '(d, r) := Location.break_at (fun c => Ascii.eqb c "/") r in ("https://" +:+ d, r)
  | None, None => ("", url)
  end.

Definition encode_param (is_query : bool) (v : jsval) : string :=
  if is_query then Uri.encodeUriQuery (prim_str obj_str v) true
  else Uri.encodeUriSegment (prim_str obj_str v).

(** One turn of the loop at angular-resource.js 503-526. *)
Definition fill_one (defaults params : props) (url : string) (p : string * bool) : string :=
  let val := if prop_has params p.1 then prop_get params p.1
             else if prop_has defaults p.1 then prop_get defaults p.1 else object_proto p.1 in
  if is_undef val || is_null val then drop_param p.1 0 url
  else fill_param p.1 (encode_param p.2 val) 0 url.

(** [Route.setUrlParams] (angular-resource.js 478-546): the URL, and the
    parameters left for the query string. *)
Definition setUrlParams (template : string) (defaults params : props) (actionUrl : option string)
  : result string (string * props) :=
  let url := match actionUrl with Some u => if String.eqb u "" then template else u | None => template end in
  urlParams ← template_params url (split_nonword url) [];
  let url := Uri.replace_all false "\:" ":" url in
  let '(protocolAndDomain, url) := protocol_and_domain url in
  let url := foldl (fill_one defaults params) url urlParams in
  let url :=
    if truthy (prop_get defaults "stripTrailingSlashes") then
      let u := strip_trailing_slashes url in if String.eqb u "" then "/" else u
    else url in
  let url := collapse_dot url in
  Ok (protocolAndDomain +:+ unescape_dot url,
      filter (fun p => negb (bool_decide (p.1 ∈ urlParams.*1) || truthy (object_proto p.1)) = true)
        params).

(** ** Actions *)

(** A method as it is written in the action's description. *)
Record action := Action {
  act_method : string;
  act_isArray : bool;
  act_url : option string;
  act_params : props;
  act_headers : props
}.

(** [/^(POST|PUT|PATCH)$/i.test(action.method)] *)
Definition hasBody (a : action) : bool :=
  bool_decide (Uri.enc (fun c => String (Uri.lower c) "") (act_method a) ∈ ["post"; "put"; "patch"]).

Record call_args := CallArgs {
  ca_params : jsval;      (** [JUndef] stands for the initial empty object too *)
  ca_data : jsval;
  ca_success : jsval;
  ca_error : jsval
}.

(** [case 1] of the switch, which the others may fall through to. *)
Definition last_arg (h : jsheap) (body : bool) (a1 success error : jsval) : call_args :=
  if isFunction h a1 then CallArgs JUndef JUndef a1 error
  else if body then CallArgs JUndef a1 success error
  else CallArgs a1 JUndef success error.

(** [case 2] and [case 3]. *)
Definition middle_args (h : jsheap) (body : bool) (a1 a2 a3 success error : jsval) : call_args :=
  if isFunction h a2 then
    if isFunction h a1 then CallArgs JUndef JUndef a1 a2
    else last_arg h body a1 a2 a3
  else CallArgs a1 a2 a3 error.

(** angular-resource.js 602-635 *)
Definition parse_args (h : jsheap) (body : bool) (args : list jsval) : result string call_args :=
  match args with
  | [] => Ok (CallArgs JUndef JUndef JUndef JUndef)
  | [a1] => Ok (last_arg h body a1 JUndef JUndef)
  | [a1; a2] => Ok (middle_args h body a1 a2 JUndef JUndef JUndef)
  | [a1; a2; a3] => Ok (middle_args h body a1 a2 a3 JUndef JUndef)
  | [a1; a2; a3; a4] => Ok (middle_args h body a1 a2 a3 a3 a4)
  | _ => Err "$resource:badargs"
  end.

(** angular-resource.js 555-564 *)
Definition extract_one (h : jsheap) (data : jsval) (kv : string * jsval) : result string (string * jsval) :=
  let value := match kv.2 with JRef f => if is_fun h kv.2 then call f else kv.2 | v => v end in
  match value with
  | JStr (String c path) =>
      if Ascii.eqb c "@" then v ← lookupDottedPath h data path; Ok (kv.1, v) else Ok (kv.1, value)
  | _ => Ok (kv.1, value)
  end.

Fixpoint extract_all (h : jsheap) (data : jsval) (kvs : props) (ids : props) : result string props :=
  match kvs with
  | [] => Ok ids
  | kv :: kvs =>
      kv' ← extract_one h data kv;
      extract_all h data kvs (prop_set ids kv'.1 kv'.2)
  end.

Definition extractParams (h : jsheap) (data : jsval) (paramDefaults actionParams : props)
  : result string props :=
  extract_all h data (extend_new [paramDefaults; actionParams]) [].

Record request := Request {
  req_method : string;
  req_url : string;
  req_params : props;
  req_data : jsval;
  req_headers : props
}.

Record service := Service {
  svc_url : string;
  svc_paramDefaults : props;
  svc_options : props
}.

(** [new Route(url, options)] (angular-resource.js 471-475). *)
Definition route_defaults (s : service) : props :=
  extend_new [[("stripTrailingSlashes", JBool true)]; svc_options s].

(** The request [Resource\[name\]] hands to [$http] (598-675), with the
    callbacks it keeps. *)
Definition resource_request (h : jsheap) (s : service) (a : action) (args : list jsval)
  : result string (request * call_args) :=
  ca ← parse_args h (hasBody a) args;
  ids ← extractParams h (ca_data ca) (svc_paramDefaults s) (act_params a);
  u ← setUrlParams (svc_url s) (route_defaults s)
        (extend_new [ids; own_props h (ca_params ca)]) (act_url a);
  Ok (Request (act_method a) u.1 u.2 (if hasBody a then ca_data ca else JUndef)
        (act_headers a), ca).

(** ** The answer *)

(** What the caller observes, in order. *)
Inductive event : Type :=
| Resolved                      (** [value.$resolved = true] *)
| CallSuccess (f value : jsval)
| CallError (f : jsval).

Inductive answer : Type :=
| Answer (data : jsval)
| Failure.

Definition alloc (o : jsobj) (h : jsheap) : nat * jsheap :=
  let r := fresh (dom h) in (r, <[r := o]> h).

(** [new Resource(item)] for objects, the item itself otherwise. *)
Definition wrap_item (h : jsheap) (item : jsval) : jsheap * jsval :=
  if String.eqb (typeof h item) "object" then
    let '(r, h') := alloc (OPlain (shallowClearAndCopy (own_props h item))) h in (h', JRef r)
  else (h, item).

Fixpoint wrap_items (h : jsheap) (items : list jsval) : jsheap * list jsval :=
  match items with
  | [] => (h, [])
  | i :: items =>
      let '(h1, v) := wrap_item h i in
      let '(h2, vs) := wrap_items h1 items in (h2, v :: vs)
  end.

(** The first callback of [$http(...).then] (angular-resource.js 675-708): the
    placeholder [value] handed out before is filled in place. *)
Definition fill_value (a : action) (h : jsheap) (value : nat) (data : jsval) : result string jsheap :=
  if truthy data then
    if negb (Bool.eqb (isArray h data) (act_isArray a)) then Err "$resource:badcfg"
    else if act_isArray a then
      let '(h', vs) := wrap_items h (match data with
                                     | JRef r => match h !! r with Some (OArray es) => es | _ => [] end
                                     | _ => []
                                     end) in
      Ok (<[value := OArray vs]> h')
    else
      let promise := prop_get (own_props h (JRef value)) "$promise" in
      Ok (<[value := OPlain (prop_set (shallowClearAndCopy (own_props h data)) "$promise" promise)]> h)
  else Ok h.

Definition set_resolved (h : jsheap) (value : nat) : jsheap :=
  alter (fun o => match o with
                  | OPlain ps => OPlain (prop_set ps "$resolved" (JBool true))
                  | o => o
                  end) value h.

Definition call_if (f : jsval) (e : event) : list event := if truthy f then [e] else [].

(** Answering a call that returned [value] (angular-resource.js 675-729): the
    error callback runs first, then [$resolved] is set, then the success
    callback.  An answer of the wrong shape reaches neither callback. *)
Definition respond (a : action) (ca : call_args) (h : jsheap) (value : nat) (ans : answer)
  : jsheap * list event * bool :=
  match ans with
  | Failure =>
      (set_resolved h value, call_if (ca_error ca) (CallError (ca_error ca)) ++ [Resolved], false)
  | Answer data =>
      match fill_value a h value data with
      | Err _ => (set_resolved h value, [Resolved], false)
      | Ok h' =>
          (set_resolved h' value,
           Resolved :: call_if (ca_success ca) (CallSuccess (ca_success ca) (JRef value)), true)
      end
  end.
End Objects.

(** ** Lemmas: a template that ends in one path parameter *)

Section PathParam.
Context (object_proto : string -> jsval) (obj_str : nat -> string).

(** The part before the parameter: words and slashes, rooted. *)
Definition base_char (c : ascii) : bool := word_char c || Ascii.eqb c "/".

Definition plain_base (base : string) : Prop :=
  all_chars base_char base = true /\ Location.charAt0 "/" base = true.

Definition param_name (name : string) : Prop :=
  all_chars word_char name = true /\ name <> "" /\ all_chars is_digit name = false.

Lemma base_char_facts c : base_char c = true ->
  c <> ":"%char /\ c <> "\"%char /\ c <> "."%char /\ c <> "?"%char.
Proof. destruct c as [[] [] [] [] [] [] [] []]; vm_compute; intros H; try discriminate H; repeat split; discriminate. Qed.

Lemma word_char_facts c : word_char c = true -> c <> ":"%char /\ c <> "/"%char /\ c <> "\"%char.
Proof. destruct c as [[] [] [] [] [] [] [] []]; vm_compute; intros H; try discriminate H; repeat split; discriminate. Qed.

Lemma param_here_other param c s : c <> ":"%char -> param_here param (String c s) = None.
Proof.
  intros H. unfold param_here. cbn [Location.beginsWith].
  destruct (Ascii.eqb_spec ":" c); [congruence|done].
Qed.

Lemma beginsWith_words w name : all_chars word_char name = true ->
  (exists rest, Location.beginsWith w name = Some rest /\ at_word_end rest = true) <-> w = name.
Proof.
  revert name; induction w as [|c w IH]; intros name Hn; cbn [Location.beginsWith].
  - split; [|intros <-; by exists ""]. intros (rest & [= <-] & He).
    destruct name as [|c name]; [done|]. simpl in He, Hn. by rewrite (proj1 (proj1 (andb_true_iff _ _) Hn)) in He.
  - destruct name as [|d name]; [split; [by intros (? & ? & _)|done]|].
    simpl in Hn. apply andb_true_iff in Hn as [_ Hn].
    destruct (Ascii.eqb_spec c d) as [->|Hcd].
    + rewrite (IH name Hn). split; [by intros ->|by intros [= ->]].
    + split; [by intros (? & ? & _)|by intros [= ? ?]].
Qed.

Lemma param_here_end w name : all_chars word_char name = true ->
  is_Some (param_here w (String ":" name)) <-> w = name.
Proof.
  intros Hn. rewrite <- (beginsWith_words w name Hn). unfold param_here. cbn [Location.beginsWith].
  change (Ascii.eqb ":" ":") with true. cbn iota.
  destruct (Location.beginsWith w name) as [rest|].
  - destruct (at_word_end rest) eqn:He; split; [by eexists|done|by intros [? ?]|].
    intros (r & [= <-] & Hr). by rewrite He in Hr.
  - split; [by intros [? ?]|by intros (? & ? & _)].
Qed.

Lemma param_here_self name : all_chars word_char name = true ->
  param_here name (String ":" name) = Some "".
Proof.
  intros Hn. unfold param_here. cbn [Location.beginsWith]. change (Ascii.eqb ":" ":") with true. cbn iota.
  pose proof (Location.beginsWith_app name "") as H. rewrite string_app_nil_r in H. by rewrite H.
Qed.

Lemma mentions_words b w s : all_chars word_char s = true -> mentions b w s = false.
Proof.
  revert b; induction s as [|c s IH]; intros b Hs; cbn [mentions].
  - unfold param_here. cbn. by rewrite andb_false_r.
  - simpl in Hs. apply andb_true_iff in Hs as [Hc Hs]. rewrite (IH _ Hs).
    rewrite param_here_other by apply (word_char_facts c Hc). by rewrite andb_false_r.
Qed.

Lemma mentions_template w base name : all_chars base_char base = true -> all_chars word_char name = true ->
  mentions false w (base +:+ String ":" name) = bool_decide (w = name).
Proof.
  intros Hb Hn. induction base as [|c base IH].
  - change ("" +:+ String ":" name) with (String ":" name). cbn [mentions].
    rewrite (mentions_words _ _ name) by done. rewrite orb_false_r. cbn [negb andb].
    apply bool_decide_ext, (param_here_end w name Hn).
  - simpl in Hb. apply andb_true_iff in Hb as [Hc Hb]. destruct (base_char_facts c Hc) as (H1 & H2 & _).
    change (String c base +:+ ?x) with (String c (base +:+ x)). cbn [mentions].
    rewrite param_here_other by done. destruct (Ascii.eqb_spec c "\"); [done|]. rewrite (IH Hb).
    by rewrite andb_false_r.
Qed.

Lemma query_mentions_none w s : contains_char "?" s = false -> query_mentions w s = false.
Proof.
  induction s as [|c s IH]; simpl; [done|]. intros [-> Hs]%orb_false_iff. by rewrite IH.
Qed.

Lemma contains_all_false (p : ascii -> bool) d s :
  (forall c, p c = true -> c <> d) -> all_chars p s = true -> contains_char d s = false.
Proof.
  intros Hp. induction s as [|c s IH]; simpl; [done|]. intros [Hc Hs]%andb_true_iff.
  rewrite (IH Hs). by destruct (Ascii.eqb_spec c d) as [->|]; [destruct (Hp d Hc)|].
Qed.

Lemma template_lacks d base name : contains_char d "\?." = true ->
  all_chars base_char base = true -> all_chars word_char name = true ->
  contains_char d (base +:+ String ":" name) = false.
Proof.
  intros Hd Hb Hn. rewrite contains_char_app. cbn [contains_char].
  rewrite (contains_all_false base_char), (contains_all_false word_char); try done.
  - destruct d as [[] [] [] [] [] [] [] []]; try discriminate Hd; reflexivity.
  - intros c Hc ->. destruct d as [[] [] [] [] [] [] [] []]; try discriminate Hd; discriminate Hc.
  - intros c Hc ->. destruct d as [[] [] [] [] [] [] [] []]; try discriminate Hd; discriminate Hc.
Qed.

Lemma template_params_one url name ws acc :
  (forall w, mentions false w url = bool_decide (w = name)) -> contains_char "?" url = false ->
  Forall (fun w => w <> "hasOwnProperty") ws ->
  acc = [] \/ acc = [(name, false)] ->
  template_params url ws acc =
    Ok (if bool_decide (name ∈ ws) && negb (all_chars is_digit name) && negb (String.eqb name "")
        then [(name, false)] else acc).
Proof.
  intros Hm Hq. revert acc; induction ws as [|w ws IH]; intros acc Hws Hacc; cbn [template_params].
  { done. }
  apply Forall_cons in Hws as [Hw Hws]. destruct (String.eqb_spec w "hasOwnProperty"); [done|].
  rewrite Hm, query_mentions_none by done. destruct (decide (w = name)) as [->|Hne].
  - rewrite !(bool_decide_true (name = name)), andb_true_r by done.
    rewrite (bool_decide_true (name ∈ name :: ws)) by (apply elem_of_cons; by left).
    rewrite andb_true_l. destruct (negb (all_chars is_digit name) && negb (String.eqb name "")) eqn:Hc.
    + rewrite IH; [|done|].
      * destruct Hacc as [->| ->]; csimpl.
        -- by destruct (_ && _ && _).
        -- rewrite (bool_decide_true (name ∈ [name])) by by apply list_elem_of_singleton. by destruct (_ && _ && _).
      * destruct Hacc as [->| ->]; csimpl.
        -- by right.
        -- rewrite (bool_decide_true (name ∈ [name])) by by apply list_elem_of_singleton. by right.
    + rewrite (IH _ Hws Hacc). by rewrite <- andb_assoc, Hc, andb_false_r.
  - rewrite (bool_decide_false (w = name)), andb_false_r by done. rewrite (IH _ Hws Hacc).
    rewrite (bool_decide_ext (name ∈ w :: ws) (name ∈ ws)); [done|].
    rewrite elem_of_cons. clear -Hne. intuition congruence.
Qed.

Lemma split_nonword_word name : all_chars word_char name = true -> split_nonword name = [name].
Proof. induction name as [|c s IH]; simpl; [done|]. intros [-> H]%andb_true_iff. by rewrite IH. Qed.

Lemma split_nonword_last base name : all_chars word_char name = true ->
  name ∈ split_nonword (base +:+ String ":" name).
Proof.
  intros Hn. induction base as [|c base IH].
  - change ("" +:+ String ":" name) with (String ":" name). cbn [split_nonword].
    change (word_char ":") with false. cbn iota. rewrite split_nonword_word by done.
    apply elem_of_cons. right. by apply list_elem_of_singleton.
  - change (String c base +:+ ?x) with (String c (base +:+ x)). cbn [split_nonword].
    destruct (word_char c); [|apply elem_of_cons; by right].
    (* the last word is not the first: the base ends before a colon *)
    assert (Hex : forall b, exists w ws, split_nonword (b +:+ String ":" name) = w :: ws /\ name ∈ ws).
    { clear -Hn. intros b; induction b as [|d b IH].
      - exists "", [name]. split; [|by apply list_elem_of_singleton].
        change ("" +:+ String ":" name) with (String ":" name). cbn [split_nonword].
        change (word_char ":") with false. cbn iota. by rewrite split_nonword_word.
      - destruct IH as (w & ws & Hs & Hi). change (String d b +:+ ?x) with (String d (b +:+ x)).
        cbn [split_nonword]. rewrite Hs. destruct (word_char d); eexists _, _; (split; [reflexivity|]);
          [done|apply elem_of_cons; by right]. }
    destruct (Hex base) as (w & ws & -> & Hi). apply elem_of_cons. by right.
Qed.

Lemma fill_template base name val : all_chars base_char base = true -> all_chars word_char name = true ->
  fill_param name val 0 (base +:+ String ":" name) = base +:+ val.
Proof.
  intros Hb Hn. induction base as [|c base IH].
  - change ("" +:+ String ":" name) with (String ":" name). cbn [fill_param].
    by rewrite param_here_self.
  - simpl in Hb. apply andb_true_iff in Hb as [Hc Hb].
    change (String c base +:+ ?x) with (String c (base +:+ x)). cbn [fill_param].
    rewrite param_here_other by apply (base_char_facts c Hc). by rewrite IH.
Qed.

Lemma strip_slashes_app s t : t <> "" -> contains_char "/" t = false ->
  strip_trailing_slashes (s +:+ t) = s +:+ t.
Proof.
  intros Ht Hs. assert (H0 : strip_trailing_slashes t = t).
  { clear Ht. induction t as [|c t IH]; simpl in *; [done|]. apply orb_false_iff in Hs as [Hc Hs].
    rewrite Hc, IH by done. done. }
  induction s as [|c s IH]; [done|]. change (String c s +:+ t) with (String c (s +:+ t)).
  cbn [strip_trailing_slashes]. rewrite IH. destruct (String.eqb_spec (s +:+ t) "") as [He|].
  - destruct s; [by simpl in He|discriminate].
  - by rewrite andb_false_r.
Qed.

Lemma collapse_dot_app s t : contains_char "." s = false ->
  contains_char "/" t = false -> Location.charAt0 "." t = false ->
  collapse_dot (s +:+ t) = s +:+ t.
Proof.
  intros Hs Ht Hd. assert (H0 : collapse_dot t = t).
  { clear Hd Hs. induction t as [|c t IH]; [done|]. simpl in Ht. apply orb_false_iff in Ht as [Hc Ht].
    cbn [collapse_dot]. destruct t as [|d t]; [done|]. rewrite Hc. cbn [andb]. by rewrite IH. }
  induction s as [|c s IH]; [done|]. simpl in Hs. apply orb_false_iff in Hs as [Hc Hs].
  change (String c s +:+ t) with (String c (s +:+ t)). specialize (IH Hs). cbn [collapse_dot].
  rewrite IH. destruct (s +:+ t) as [|d r] eqn:He; [done|].
  destruct (Ascii.eqb_spec d ".") as [->|]; [|by rewrite andb_false_r].
  exfalso. destruct s as [|d' s].
  - change ("" +:+ t) with t in He. subst t. done.
  - change (String d' s +:+ t) with (String d' (s +:+ t)) in He. injection He as -> _. done.
Qed.

Lemma unescape_dot_none s : contains_char "\" s = false -> unescape_dot s = s.
Proof.
  induction s as [|c s IH]; [done|]. simpl. intros [Hc Hs]%orb_false_iff.
  destruct s as [|d [|e s]]; [done..|]. simpl in Hs. apply orb_false_iff in Hs as [Hd Hs].
  rewrite Hd, andb_false_r. cbn [andb]. rewrite IH; [done|]. simpl. by rewrite Hd.
Qed.

(** The URL of a call on such a template. *)
Lemma setUrlParams_path base name v defaults params :
  plain_base base -> param_name name ->
  Forall (fun w => w <> "hasOwnProperty") (split_nonword (base +:+ "/:" +:+ name)) ->
  truthy (prop_get defaults "stripTrailingSlashes") = true ->
  prop_get params name = JStr v -> prop_has params name = true ->
  v <> "" -> Location.charAt0 "." v = false ->
  setUrlParams object_proto obj_str (base +:+ "/:" +:+ name) defaults params None =
  Ok (base +:+ "/" +:+ Uri.encodeUriSegment v,
      filter (fun p => negb (bool_decide (p.1 ∈ [name]) || truthy (object_proto p.1)) = true) params).
Proof.
  intros [Hb Hr] (Hn & Hne & Hdig) Hho Hstrip Hv Hhas Hv0 Hvd.
  change (base +:+ "/:" +:+ name) with (base +:+ String "/" (String ":" name)) in *.
  assert (Ha : base +:+ String "/" (String ":" name) = (base +:+ "/") +:+ String ":" name)
    by (by rewrite <- string_app_assoc).
  assert (Hb' : all_chars base_char (base +:+ "/") = true) by (by rewrite all_chars_app, Hb).
  rewrite Ha in *. unfold setUrlParams.
  assert (Hq : contains_char "?" ((base +:+ "/") +:+ String ":" name) = false) by by apply template_lacks.
  rewrite (template_params_one _ name);
    [|intros w; by apply mentions_template|done|done|by left].
  rewrite bool_decide_true by by apply split_nonword_last.
  destruct (String.eqb_spec name ""); [done|]. rewrite Hdig. cbn [negb andb mbind result_bind].
  rewrite Uri.replace_all_none by (by (apply template_lacks) || done).
  assert (Hp : protocol_and_domain ((base +:+ "/") +:+ String ":" name) =
    ("", (base +:+ "/") +:+ String ":" name)).
  { destruct base as [|c base]; [done|]. simpl in Hr. apply Ascii.eqb_eq in Hr as ->. reflexivity. }
  rewrite Hp. cbn [foldl fill_one fst snd]. unfold fill_one; cbn [fst snd].
  rewrite Hhas, Hv. cbn [is_undef is_null orb]. rewrite fill_template by done.
  rewrite Hstrip. unfold encode_param; cbn [prim_str]. rewrite Uri.encodeUriSegment_enc.
  assert (Hse : Uri.enc Uri.segment_tok v <> "").
  { intros He. apply Hv0. apply (Uri.enc_empty Uri.segment_tok); [|done].
    intros c. destruct (Uri.segment_tok_faithful c) as [|[? ?]]; eauto. }
  assert (Hsl : contains_char "/" (Uri.enc Uri.segment_tok v) = false) by by apply Uri.segment_tok_lacks.
  rewrite strip_slashes_app by done.
  destruct (String.eqb_spec ((base +:+ "/") +:+ Uri.enc Uri.segment_tok v) "") as [He|_].
  { destruct base; [done|discriminate]. }
  rewrite collapse_dot_app; [|by apply (contains_all_false base_char); [apply base_char_facts|]|done|].
  2:{ destruct v as [|c v]; [done|]. cbn [Location.charAt0] in Hvd. cbn [Uri.enc].
      clear -Hvd. destruct c as [[] [] [] [] [] [] [] []]; try discriminate Hvd; reflexivity. }
  rewrite unescape_dot_none.
  - change ("" +:+ ?x) with x. by rewrite <- string_app_assoc.
  - rewrite contains_char_app, (contains_all_false base_char) by (done || apply base_char_facts).
    apply Uri.enc_lacks. intros c. destruct c as [[] [] [] [] [] [] [] []]; vm_compute; reflexivity.
Qed.
End PathParam.

(** A request, step by step. *)
Lemma resource_request_ok op inh call os h s a args ca ids url rest :
  parse_args h (hasBody a) args = Ok ca ->
  extractParams inh call h (ca_data ca) (svc_paramDefaults s) (act_params a) = Ok ids ->
  setUrlParams op os (svc_url s) (route_defaults s)
    (extend_new [ids; own_props h (ca_params ca)]) (act_url a) = Ok (url, rest) ->
  resource_request op inh call os h s a args =
  Ok (Request (act_method a) url rest (if hasBody a then ca_data ca else JUndef) (act_headers a), ca).
Proof. intros H1 H2 H3. unfold resource_request. by rewrite H1; simpl; rewrite H2; simpl; rewrite H3. Qed.

(** An action's own URL is the template. *)
Lemma setUrlParams_action op os template defaults params u : u <> "" ->
  setUrlParams op os template defaults params (Some u) = setUrlParams op os u defaults params None.
Proof. intros Hu. unfold setUrlParams. by destruct (String.eqb_spec u ""). Qed.

(** ** Lemmas: filling a list *)

Definition closed (h : jsheap) (vs : list jsval) : Prop :=
  forall r, JRef r ∈ vs -> is_Some (h !! r).

Definition extends (h h' : jsheap) : Prop := forall r o, h !! r = Some o -> h' !! r = Some o.

Lemma alloc_fresh o h : h !! (alloc o h).1 = None.
Proof. apply not_elem_of_dom, is_fresh. Qed.

Lemma alloc_extends o h : extends h (alloc o h).2.
Proof.
  intros r o' Hr. simpl. rewrite lookup_insert_ne; [done|].
  intros <-. pose proof (alloc_fresh o h) as Hf. simpl in Hf. congruence.
Qed.

Lemma own_props_extends h h' v : extends h h' -> closed h [v] -> own_props h' v = own_props h v.
Proof.
  intros He Hc. destruct v; try done. simpl. destruct (Hc r) as [o Ho]; [by apply list_elem_of_singleton|].
  by rewrite Ho, (He _ _ Ho).
Qed.

Lemma typeof_extends h h' v : extends h h' -> closed h [v] -> typeof h' v = typeof h v.
Proof.
  intros He Hc. destruct v; try done. simpl. destruct (Hc r) as [o Ho]; [by apply list_elem_of_singleton|].
  by rewrite Ho, (He _ _ Ho).
Qed.

(** The object an item becomes. *)
Definition wrapped (h h' : jsheap) (item v : jsval) : Prop :=
  if String.eqb (typeof h item) "object" then
    exists r, v = JRef r /\ h !! r = None /\ h' !! r = Some (OPlain (shallowClearAndCopy (own_props h item)))
  else v = item.

Lemma wrap_items_spec h items h' vs :
  closed h items -> wrap_items h items = (h', vs) ->
  extends h h' /\ Forall2 (wrapped h h') items vs.
Proof.
  revert h h' vs; induction items as [|it items IH]; intros h h' vs Hc He; cbn [wrap_items] in He.
  { simplify_eq. split; [by intros r o|constructor]. }
  destruct (wrap_item h it) as [h1 v] eqn:H1. destruct (wrap_items h1 items) as [h2 vs'] eqn:H2.
  simplify_eq.
  assert (Hx : extends h h1 /\ (String.eqb (typeof h it) "object" = true ->
    exists r, v = JRef r /\ h !! r = None /\ h1 !! r = Some (OPlain (shallowClearAndCopy (own_props h it)))) /\
    (String.eqb (typeof h it) "object" = false -> v = it)).
  { unfold wrap_item in H1. destruct (String.eqb _ _).
    - destruct (alloc _ h) as [r h3] eqn:Ha. simplify_eq.
      set (o := OPlain (shallowClearAndCopy (own_props h it))) in *.
      pose proof (alloc_fresh o h) as Hf. pose proof (alloc_extends o h) as Hx. rewrite Ha in Hf, Hx.
      split_and!; [done| |done]. intros _. exists r. split_and!; [done..|].
      unfold alloc in Ha. injection Ha as <- <-. by rewrite lookup_insert_eq.
    - simplify_eq. split_and!; [by intros r o|done|done]. }
  destruct Hx as (Hx & Ho & Hn).
  assert (Hc1 : closed h1 items).
  { intros r Hr. destruct (Hc r) as [o Hro]; [by apply elem_of_cons; right|]. exists o. by apply Hx. }
  destruct (IH h1 h' vs' Hc1 H2) as [Hx' Hf]. split; [intros r o Hr; by apply Hx', Hx|].
  constructor.
  - unfold wrapped. destruct (String.eqb (typeof h it) "object") eqn:Ht; [|by apply Hn].
    destruct (Ho eq_refl) as (r & -> & Hr & Hr1). exists r. split_and!; [done..|by apply Hx'].
  - assert (Hcl : closed h items) by (intros r Hr; apply Hc, elem_of_cons; by right). clear -Hf Hx Hcl.
    induction Hf as [|i v items vs Hw Hf IH]; constructor.
    + assert (Hi : closed h [i]).
      { intros r Hr%list_elem_of_singleton. apply Hcl, elem_of_cons. by left. }
      unfold wrapped in Hw |- *. rewrite (typeof_extends h) in Hw by done.
      destruct (String.eqb _ _); [|done]. destruct Hw as (r & -> & Hr & Hr').
      rewrite (own_props_extends h) in Hr' by done. exists r. split_and!; [done| |done].
      destruct (h !! r) eqn:Hhr; [|done]. rewrite (Hx _ _ Hhr) in Hr. done.
    + apply IH. intros r Hr. apply Hcl, elem_of_cons. by right.
Qed.

(** ** Properties *)

(** A value put in the path of a service URL arrives: on a template
    [/a/b/:name], whatever characters the value holds (slashes, blanks,
    question marks, any UTF-8) except a leading dot, the URL has it as its last
    segment and decoding that segment gives the value back. *)
Theorem path_param_roundtrip object_proto obj_str base name v defaults params :
  plain_base base -> param_name name ->
  Forall (fun w => w <> "hasOwnProperty") (split_nonword (base +:+ "/:" +:+ name)) ->
  truthy (prop_get defaults "stripTrailingSlashes") = true ->
  prop_get params name = JStr v -> prop_has params name = true ->
  v <> "" -> Location.charAt0 "." v = false -> Uri.utf8 v = true ->
  exists url rest,
    setUrlParams object_proto obj_str (base +:+ "/:" +:+ name) defaults params None = Ok (url, rest) /\
    before_last "/" url = Some base /\ Uri.decodeURIComponent (after_last "/" url) = Ok v /\
    contains_char "?" url = false /\ contains_char "#" url = false /\
    prop_has rest name = false.
Proof.
  intros Hb Hn Hh Hs Hv Hp H0 Hd Hu. eexists _, _.
  split; [by eapply setUrlParams_path|]. rewrite Uri.encodeUriSegment_enc.
  change (base +:+ "/" +:+ ?x) with (base +:+ String "/" x).
  rewrite before_last_app, after_last_app by by apply Uri.segment_tok_lacks.
  destruct Hb as [Hb _]. rewrite !contains_char_app. cbn [contains_char].
  rewrite !Uri.segment_tok_lacks, !(contains_all_false base_char)
    by (done || (intros c Hc ->; discriminate Hc)).
  split_and!; [done| |done..|].
  - apply Uri.decode_enc; [apply Uri.segment_tok_faithful|done].
  - apply prop_has_false. intros ([k w] & -> & Hin)%list_elem_of_fmap.
    apply list_elem_of_filter in Hin as [Hin _]. cbn [fst] in Hin.
    by rewrite bool_decide_true in Hin by by apply list_elem_of_singleton.
Qed.

Lemma path_param_roundtrip_witness :
  exists url rest, setUrlParams (fun _ => JUndef) (fun _ => "") "/api/room/:room_id"
      [("stripTrailingSlashes", JBool true)] [("room_id", JStr "room 3/?")] None = Ok (url, rest) /\
    url = "/api/room/room%203%2F%3F" /\ Uri.decodeURIComponent (after_last "/" url) = Ok "room 3/?".
Proof.
  destruct (path_param_roundtrip (fun _ => JUndef) (fun _ => "") "/api/room" "room_id" "room 3/?"
    [("stripTrailingSlashes", JBool true)] [("room_id", JStr "room 3/?")]) as (url & rest & H1 & _ & H2 & _);
    try (vm_compute; reflexivity); try done.
  { vm_compute. repeat constructor; discriminate. }
  exists url, rest. split; [exact H1|]. split; [|exact H2].
  vm_compute in H1. injection H1 as <- _. reflexivity.
Defined.

(** The list a query hands out is filled in place: an array answer leaves
    every object that existed as it was (except the placeholder), and the
    placeholder then holds, in the order of the answer, one fresh object per
    object item with the item's public properties, and the other items as they
    came. *)
Theorem query_fills_list a h value r es h' :
  act_isArray a = true -> h !! r = Some (OArray es) -> closed h es -> is_Some (h !! value) ->
  fill_value a h value (JRef r) = Ok h' ->
  exists vs, h' !! value = Some (OArray vs) /\
    (forall q o, q <> value -> h !! q = Some o -> h' !! q = Some o) /\
    Forall2 (wrapped h h') es vs.
Proof.
  intros Ha Hr Hc [ov Hv]. unfold fill_value. cbn [truthy isArray]. rewrite Hr, Ha. cbn [Bool.eqb negb].
  destruct (wrap_items h es) as [h1 vs] eqn:Hw. intros [= <-].
  destruct (wrap_items_spec _ _ _ _ Hc Hw) as [Hx Hf]. exists vs.
  split; [by rewrite lookup_insert_eq|]. split.
  { intros q o Hq Ho. rewrite lookup_insert_ne by done. by apply Hx. }
  eapply Forall2_impl; [exact Hf|]. intros i v. unfold wrapped. destruct (String.eqb _ _); [|done].
  intros (q & -> & Hq & Hq'). exists q. split_and!; [done..|].
  rewrite lookup_insert_ne; [done|]. intros <-. congruence.
Qed.

Lemma query_fills_list_witness :
  let h : jsheap := {[0%nat := OArray []; 1%nat := OArray [JRef 2; JNum 7];
                      2%nat := OPlain [("room_id", JStr "room_0"); ("$$x", JNull)]]} in
  exists h' vs, fill_value (Action "GET" true None [] []) h 0 (JRef 1) = Ok h' /\
    h' !! 0%nat = Some (OArray vs) /\ Forall2 (wrapped h h') [JRef 2; JNum 7] vs.
Proof.
  intros h.
  destruct (fill_value (Action "GET" true None [] []) h 0 (JRef 1)) as [h'|] eqn:Hf; [|vm_compute in Hf; discriminate].
  destruct (query_fills_list (Action "GET" true None [] []) h 0 1 [JRef 2; JNum 7] h'
    eq_refl eq_refl) as (vs & H1 & _ & H2); [|by eexists|exact Hf|].
  - intros r Hr. assert (r = 2%nat) as ->; [|by eexists].
    apply elem_of_cons in Hr as [Hr|Hr%list_elem_of_singleton]; congruence.
  - exists h', vs. done.
Defined.
