(* ===== verification/Console.v ===== *)
(** * Console: the operator's page

    [src/static/scripts/main.js] (the overview with its chart, the room list
    and the broadcast dialogs), [utils.js] and [ws.js].  The dialogs send their
    requests through [NgResource]; the handlers that receive them are the ones
    of [Rooms], so that what a click does is followed to the rooms' queues. *)

From S2P Require Import Prelude Text Js NgUrl NgResource Rto Hub Rooms.

(** ** utils.js *)

Module Utils.
(** A number stays exact up to 2^53; past it the model stops. *)
Definition num (x : Z) : option Z := if Z.abs x <=? 2 ^ 53 then Some x else None.

(** [hash = str.charCodeAt(i) + ((hash << 5) - hash)] *)
Definition hash_step (hash c : Z) : option Z :=
  d ← num (to_int32 (Z.shiftl (to_int32 hash) 5) - hash);
  num (c + d).

(** utils.js 2-8, on the string's UTF-16 code units. *)
Fixpoint hash_from (hash : Z) (str : list Z) : option Z :=
  match str with
  | [] => Some hash
  | c :: str => h ← hash_step hash c; hash_from h str
  end.

Definition hashCode (str : list Z) : option Z := hash_from 0 str.

(** [n.toString(16)] for [0 <= n < 256]. *)
Definition hex_lower (n : Z) : ascii :=
  ascii_of_N (Z.to_N (if n <? 10 then 48 + n else 87 + n)).

Definition byte_toString16 (n : Z) : string :=
  if n <? 16 then String (hex_lower n) "" else String (hex_lower (n / 16)) (String (hex_lower (n mod 16)) "").

(** utils.js 12-18 *)
Definition intToARGB (i : Z) : string :=
  let h := byte_toString16 (Z.land (Z.shiftr (to_int32 i) 24) 255) +:+
           byte_toString16 (Z.land (Z.shiftr (to_int32 i) 16) 255) +:+
           byte_toString16 (Z.land (Z.shiftr (to_int32 i) 8) 255) +:+
           byte_toString16 (Z.land (to_int32 i) 255) in
  String.substring 0 6 h.

Section Tmpl.
(** [_.template], which fails on [undefined], and the server's answers; a
    failed request leaves the text undefined.  [object_proto k] tells whether
    [Object.prototype] holds a function under [k]. *)
Context {T : Type} (template : option string -> result string T).
Context (ajax : string -> option string) (object_proto : string -> option T).

(** The cache and the URLs requested so far. *)
Record tmpl_state := TmplState { tmpl_cache : gmap string T; requests : list string }.

(** utils.js 20-44 *)
Definition tmpl (tmpl_name : string) (s : tmpl_state) : tmpl_state * result string T :=
  match (match tmpl_cache s !! tmpl_name with Some t => Some t | None => object_proto tmpl_name end) with
  | Some t => (s, Ok t)
  | None =>
      let tmpl_url := "/admin/templates/" +:+ tmpl_name +:+ ".html" in
      let s := TmplState (tmpl_cache s) (requests s ++ [tmpl_url]) in
      match template (ajax tmpl_url) with
      | Ok t => (TmplState (<[tmpl_name := t]> (tmpl_cache s)) (requests s), Ok t)
      | Err e => (s, Err e)
      end
  end.

Fixpoint tmpls (names : list string) (s : tmpl_state) : tmpl_state :=
  match names with [] => s | n :: names => tmpls names (tmpl n s).1 end.
End Tmpl.

(** *** Lemmas *)

Definition poly31 (str : list Z) : Z := fold_left (fun h c => 31 * h + c) str 0.

Lemma hash_step_mod h c h' : hash_step h c = Some h' -> to_uint32 h' = (31 * to_uint32 h + c) mod 2 ^ 32.
Proof.
  unfold hash_step, num. case_match; simpl; [|done]. case_match; [|done]. intros [= <-].
  unfold to_uint32.
  assert (Hs : (to_int32 (Z.shiftl (to_int32 h) 5)) mod 2 ^ 32 = (32 * h) mod 2 ^ 32).
  { rewrite to_int32_mod, Z.shiftl_mul_pow2 by lia. change (2 ^ 5) with 32.
    rewrite Zmult_mod, to_int32_mod, <- Zmult_mod. by rewrite Z.mul_comm. }
  rewrite <- Z.add_mod_idemp_r, <- (Zminus_mod_idemp_l (to_int32 _)), Hs by lia.
  rewrite Zminus_mod_idemp_l, Z.add_mod_idemp_r by lia.
  rewrite <- (Z.add_mod_idemp_l (31 * _)), Z.mul_mod_idemp_r, Z.add_mod_idemp_l by lia.
  f_equal. lia.
Qed.

Lemma hash_step_bound h c : 0 <= c < 65536 -> Z.abs h <= 2 ^ 53 - 2 ^ 32 ->
  exists h', hash_step h c = Some h' /\ Z.abs h' <= Z.abs h + 2147549184.
Proof.
  intros Hc Hh. unfold hash_step, num. pose proof (to_int32_range (Z.shiftl (to_int32 h) 5)) as Hr.
  set (s := to_int32 _) in *.
  destruct (Z.leb_spec (Z.abs (s - h)) (2 ^ 53)); simpl; [|lia].
  destruct (Z.leb_spec (Z.abs (c + (s - h))) (2 ^ 53)); [|lia].
  eexists. split; [reflexivity|]. lia.
Qed.

Lemma hash_from_poly str h :
  Forall (fun c => 0 <= c < 65536) str -> Z.abs h + 2147549184 * Z.of_nat (length str) <= 2 ^ 53 - 2 ^ 32 ->
  exists h', hash_from h str = Some h' /\ Z.abs h' <= Z.abs h + 2147549184 * Z.of_nat (length str) /\
    to_uint32 h' = fold_left (fun h c => 31 * h + c) str (to_uint32 h) mod 2 ^ 32.
Proof.
  revert h; induction str as [|c str IH]; intros h Hs Hb; cbn [hash_from fold_left].
  { exists h. split_and!; [done|simpl; lia|]. unfold to_uint32. by rewrite Z.mod_mod. }
  apply Forall_cons in Hs as [Hc Hs]. cbn [length] in Hb |- *.
  destruct (hash_step_bound h c Hc) as (h1 & H1 & Hb1); [lia|]. rewrite H1. simpl.
  destruct (IH h1 Hs) as (h' & Hh' & Hb' & Hm); [lia|]. exists h'. split_and!; [done|lia|].
  rewrite Hm, (hash_step_mod _ _ _ H1).
  assert (Hf : forall l a b, a mod 2 ^ 32 = b mod 2 ^ 32 ->
    fold_left (fun h c => 31 * h + c) l a mod 2 ^ 32 = fold_left (fun h c => 31 * h + c) l b mod 2 ^ 32).
  { induction l as [|d l IHl]; intros a b Hab; cbn [fold_left]; [done|]. apply IHl.
    rewrite <- (Z.add_mod_idemp_l (31 * a)), <- (Z.add_mod_idemp_l (31 * b)) by lia.
    rewrite <- (Z.mul_mod_idemp_r 31 a), <- (Z.mul_mod_idemp_r 31 b), Hab by lia. done. }
  apply Hf. by rewrite Z.mod_mod.
Qed.

Lemma byte_land x : 0 <= Z.land x 255 < 256.
Proof. change 255 with (Z.ones 8). rewrite Z.land_ones by lia. apply Z.mod_pos_bound. lia. Qed.

Lemma byte_toString16_length n : (1 <= String.length (byte_toString16 n) <= 2)%nat.
Proof. unfold byte_toString16. destruct (_ <? _); simpl; lia. Qed.

Lemma substring_length n s : String.length (String.substring 0 n s) = Nat.min n (String.length s).
Proof. revert n; induction s as [|c s IH]; intros [|n]; simpl; [done..|]. by rewrite IH. Qed.

(** At most one request per name, whatever the order of the calls. *)
Lemma tmpl_cache_mono {T} (template : option string -> result string T) ajax op n s :
  forall m t, tmpl_cache s !! m = Some t -> tmpl_cache (tmpl template ajax op n s).1 !! m = Some t.
Proof.
  intros m t Hm. unfold tmpl.
  destruct (match tmpl_cache s !! n with Some t => _ | None => _ end) eqn:Hn; [done|].
  destruct (template _) as [t'|]; [|done]. simpl. rewrite lookup_insert_ne; [done|].
  intros ->. by rewrite Hm in Hn.
Qed.
End Utils.

(** ** ws.js: the message log and its socket *)

Module Ws.
(** The socket as the page sees it: never created, or in a [readyState];
    sending while connecting throws, and is discarded once closed. *)
Inductive socket : Type := NoSocket | Connecting | Open | Closed.

Inductive entry : Type :=
| Received (text : string)
| ConnectionClosed
| NoWebSockets.

Record page := Page {
  conn : socket;
  msg : string;                 (** the input field *)
  log : list entry;
  scrollTop : Z;
  scrollHeight : Z;
  clientHeight : Z;
  sent : list string
}.

Definition with_conn (c : socket) (p : page) : page :=
  Page c (msg p) (log p) (scrollTop p) (scrollHeight p) (clientHeight p) (sent p).
Definition with_msg (m : string) (p : page) : page :=
  Page (conn p) m (log p) (scrollTop p) (scrollHeight p) (clientHeight p) (sent p).
Definition with_scroll (t : Z) (p : page) : page :=
  Page (conn p) (msg p) (log p) t (scrollHeight p) (clientHeight p) (sent p).

(** ws.js 6-13; [height e] is what the new line adds to the scroll height. *)
Definition appendLog (height : entry -> Z) (e : entry) (p : page) : page :=
  let doScroll := scrollTop p =? scrollHeight p - clientHeight p in
  let p := Page (conn p) (msg p) (log p ++ [e]) (scrollTop p) (scrollHeight p + height e)
             (clientHeight p) (sent p) in
  if doScroll then with_scroll (scrollHeight p - clientHeight p) p else p.

(** [WebSocket.send]. *)
Definition send (m : string) (p : page) : result string page :=
  match conn p with
  | Connecting => Err "InvalidStateError"
  | Open => Ok (Page (conn p) (msg p) (log p) (scrollTop p) (scrollHeight p) (clientHeight p) (sent p ++ [m]))
  | _ => Ok p
  end.

(** ws.js 15-25 *)
Definition submit (p : page) : result string page :=
  match conn p with
  | NoSocket => Ok p
  | _ => if String.eqb (msg p) "" then Ok p
         else p ← send (msg p) p; Ok (with_msg "" p)
  end.

(** ws.js 1-38 on page load. *)
Definition load (height : entry -> Z) (has_websocket : bool) (clientHeight : Z) : page :=
  let p := Page NoSocket "" [] 0 clientHeight clientHeight [] in
  if has_websocket then with_conn Connecting p else appendLog height NoWebSockets p.

Inductive event : Type :=
| OnOpen
| OnMessage (data : string)
| OnClose
| Typed (text : string)
| Submit
| Scrolled (top : Z).

(** A handler that throws changes nothing. *)
Definition step (height : entry -> Z) (e : event) (p : page) : page :=
  match e with
  | OnOpen => with_conn Open p
  | OnMessage data => appendLog height (Received data) p
  | OnClose => appendLog height ConnectionClosed (with_conn Closed p)
  | Typed text => with_msg text p
  | Submit => match submit p with Ok p' => p' | Err _ => p end
  | Scrolled top => with_scroll (Z.max 0 (Z.min top (scrollHeight p - clientHeight p))) p
  end.
End Ws.

(** ** The overview: polling and the chart (main.js 40-125) *)

Module Overview.
(** [seriesArray.length > 20] before a point is pushed. *)
Definition chart_limit : nat := 20.

Definition point : Type := Z * jsval.

(** main.js 43-54 *)
Definition refreshChart (now : Z) (data : jsval) (seriesArray : list point) : list point :=
  (if (chart_limit <? length seriesArray)%nat then drop 1 seriesArray else seriesArray) ++ [(now, data)].

Section Controller.
(** [v >= 0] on strings and objects, which the answer does not hold. *)
Context (other_ge0 : jsval -> bool).

Definition ge0 (v : jsval) : bool :=
  match v with
  | JUndef | JNaN => false
  | JNull | JBool _ => true
  | JNum n => 0 <=? n
  | JStr _ | JRef _ => other_ge0 v
  end.

Definition shown_fields : list string :=
  ["product"; "hub_room_cnt"; "online_peer_cnt"; "total_br_msg_cnt"; "total_br_msg_size";
   "br_msg_avg_time"; "cpu_cores"; "go_routines"; "go_version"; "process_id"].

(** [$scope], the requests under way and the timers armed. *)
Record scope := Scope {
  fields : list (string * jsval);
  ops : jsval;
  data : list point;
  pending : nat;
  timers : nat
}.

(** main.js 56-66: the request of one refresh. *)
Definition overview_request : request :=
  Request "GET" "/api/overview" [] JUndef [("X-Auth-Key", JStr "12345"); ("X-Auth-Secret", JStr "secret")].

Definition refresh (s : scope) : scope :=
  Scope (fields s) (ops s) (data s) (S (pending s)) (timers s).

(** main.js 66-88 *)
Definition on_success (now : Z) (succData : list (string * jsval)) (s : scope) : scope :=
  let o := prop_get succData "ops" in
  let ops' := if negb (strict_eq o JUndef) && ge0 o then o else JNum 0 in
  Scope (map (fun k => (k, prop_get succData k)) shown_fields) ops'
    (refreshChart now ops' (data s)) (pending s) (timers s).

(** main.js 120-123: the timer is armed again before the request is sent. *)
Definition autoUpdate (s : scope) : scope :=
  refresh (Scope (fields s) (ops s) (data s) (pending s) (S (timers s))).

(** The controller's body: a first refresh, an empty chart, the polling loop. *)
Definition init : scope := autoUpdate (refresh (Scope [] JUndef [] 0 0)).

Inductive event : Type :=
| Click
| Tick
| Reply (now : Z) (succData : list (string * jsval))
| NoReply.

Definition step (e : event) (s : scope) : option scope :=
  match e with
  | Click => Some (refresh s)
  | Tick => match timers s with
            | O => None
            | S n => Some (autoUpdate (Scope (fields s) (ops s) (data s) (pending s) n))
            end
  | Reply now d => match pending s with
                   | O => None
                   | S n => Some (on_success now d (Scope (fields s) (ops s) (data s) n (timers s)))
                   end
  | NoReply => match pending s with
               | O => None
               | S n => Some (Scope (fields s) (ops s) (data s) n (timers s))
               end
  end.

Fixpoint run (es : list event) (s : scope) : option scope :=
  match es with [] => Some s | e :: es => s' ← step e s; run es s' end.

(** The points the answers so far contributed, first to last. *)
Definition reply_points (es : list event) : list point :=
  omap (fun e => match e with
                 | Reply now d =>
                     let o := prop_get d "ops" in
                     Some (now, if negb (strict_eq o JUndef) && ge0 o then o else JNum 0)
                 | _ => None
                 end) es.

Definition last_n {A} (n : nat) (l : list A) : list A := drop (length l - n) l.

Lemma refreshChart_last now d l :
  refreshChart now d (last_n (S chart_limit) l) = last_n (S chart_limit) (l ++ [(now, d)]).
Proof.
  unfold refreshChart, last_n. rewrite length_drop, length_app. cbn [length].
  destruct (Nat.ltb_spec chart_limit (length l - (length l - S chart_limit))) as [H|H].
  - rewrite drop_drop, drop_app_le by lia. f_equal. f_equal. unfold chart_limit in *. lia.
  - unfold chart_limit in *. replace (length l - 21)%nat with 0%nat by lia.
    replace (length l + 1 - 21)%nat with 0%nat by lia. done.
Qed.

Lemma run_spec es s s' pts :
  run es s = Some s' -> data s = last_n (S chart_limit) pts ->
  data s' = last_n (S chart_limit) (pts ++ reply_points es) /\ timers s' = timers s.
Proof.
  revert s pts; induction es as [|e es IH]; intros s pts Hr Hd; cbn [run] in Hr.
  { simplify_eq. by rewrite app_nil_r. }
  destruct (step e s) as [s1|] eqn:He; cbn in Hr; [|done].
  destruct e as [| |now d|]; cbn [step] in He.
  - simplify_eq. by destruct (IH _ pts Hr Hd).
  - destruct (timers s) as [|n] eqn:Ht; [done|]. simplify_eq.
    destruct (IH _ pts Hr Hd) as [H1 H2]. split; [done|]. by rewrite H2.
  - destruct (pending s) as [|n]; [done|]. simplify_eq. cbn [reply_points omap list_omap].
    destruct (IH _ (pts ++ [(now, if negb (strict_eq (prop_get d "ops") JUndef) && ge0 (prop_get d "ops")
        then prop_get d "ops" else JNum 0)]) Hr) as [H1 H2].
    + cbn [data on_success]. by rewrite Hd, refreshChart_last.
    + split; [|done]. rewrite H1, <- app_assoc. done.
  - destruct (pending s) as [|n]; [done|]. simplify_eq. by destruct (IH _ pts Hr Hd).
Qed.
End Controller.
End Overview.

(** ** The room list and its dialogs (main.js 15-38, 129-274) *)

Module Dialogs.
(** [extend({}, provider.defaults.actions, actions)] is looked up by name; only
    the actions the page declares are used. *)
Definition get_action (m : string) (arr : bool) (url : option string) (ps hs : props) : action :=
  Action m arr url ps hs.

Definition ServerRoomsFactory : service := Service "/api/server_rooms" [] [].
Definition ServerRooms_query : action :=
  get_action "GET" true None [] [("X-Auth-Key", JStr "12345"); ("X-Auth-Secret", JStr "secret")].
Definition ServerRooms_create : action := get_action "PUT" false None [] [].

Definition BroadcastFactory : service := Service "/api/broadcast_all" [] [].
Definition Broadcast_query : action := get_action "GET" true None [] [].
Definition Broadcast_broadcast : action := get_action "POST" false (Some "/api/broadcast_all") [] [].
Definition Broadcast_broadPeers : action := get_action "POST" false (Some "/api/broadcast_peers") [] [].

Definition SlotFactory : service := Service "/api/broadcast_range" [] [].
Definition Slot_rangeSet : action := get_action "POST" false None [] [].
Definition Slot_broadSet : action := get_action "POST" false (Some "/api/broadcast_set") [] [].
Definition Slot_viewRoom : action :=
  get_action "GET" true (Some "/api/room/:room_id") [("room_id", JStr "@room_id")] [].

Inductive dialog : Type :=
| SlotInfo (room : jsval)
| BroadPeers
| BroadcastAll
| RangeSet
| BroadSet.

(** [$scope.task] as the dialog opens. *)
Definition initial_task (d : dialog) : props :=
  match d with
  | SlotInfo _ | BroadcastAll => []
  | BroadPeers => [("peers", JStr ""); ("br_msg", JStr "")]
  | RangeSet => [("from", JStr "-1"); ("to", JStr "-1"); ("msg", JStr "")]
  | BroadSet => [("from", JStr ""); ("msg", JStr "")]
  end.

(** How the operator leaves it; the buttons of [slotInfoModal] pass nothing. *)
Inductive gesture : Type :=
| PressOk (task : jsval)
| PressCancel
| DismissModal.

Definition modal_result (d : dialog) (g : gesture) : option jsval :=
  match g with
  | PressOk task => Some (match d with SlotInfo _ => JUndef | _ => task end)
  | PressCancel => Some JNull
  | DismissModal => None
  end.

Section Requests.
Context (object_proto : string -> jsval) (inherited : jsval -> string -> jsval).
Context (call : nat -> jsval) (obj_str : nat -> string).

Definition request_of := resource_request object_proto inherited call obj_str.

(** The controller of [slotInfoModal] (main.js 136-140); [succ] and [err] are
    the callbacks it passes. *)
Definition checkRoom (h : jsheap) (room : jsval) (succ err : nat) :=
  request_of h SlotFactory Slot_viewRoom [room; JRef succ; JRef err].

(** [modalInstance.result.then(...)] of the four broadcast dialogs. *)
Definition on_result (h : jsheap) (d : dialog) (v : jsval) (succ err : nat)
  : option (result string (request * call_args)) :=
  if truthy v then
    match d with
    | SlotInfo _ => None
    | BroadPeers => Some (request_of h BroadcastFactory Broadcast_broadPeers [v; JRef succ; JRef err])
    | BroadcastAll => Some (request_of h BroadcastFactory Broadcast_broadcast [v; JRef succ; JRef err])
    | RangeSet => Some (request_of h SlotFactory Slot_rangeSet [v; JRef succ; JRef err])
    | BroadSet => Some (request_of h SlotFactory Slot_broadSet [v; JRef succ; JRef err])
    end
  else None.

Definition leave (h : jsheap) (d : dialog) (g : gesture) (succ err : nat) :=
  modal_result d g ≫= fun v => on_result h d v succ err.

(** main.js 267-272: the list is asked for without callbacks. *)
Definition refresh_rooms (h : jsheap) := request_of h ServerRoomsFactory ServerRooms_query [].
End Requests.

(** *** What the server makes of the task

    The body is [JSON.stringify] of the task and is read by Go's
    [json.Unmarshal] into a struct: a missing or null member keeps the zero
    value, a member of the wrong type does too and makes it return an error. *)

(** A number out of the range of [int] is an error too. *)
Definition go_int (v : jsval) : Z * bool :=
  match v with JNum n => if go_int_wrap n =? n then (n, true) else (0, false) | JUndef | JNull | JNaN => (0, true) | _ => (0, false) end.

Definition bytes_of (s : string) : list Z := map (fun c => Z.of_N (N_of_ascii c)) (String.list_ascii_of_string s).

Definition go_string (v : jsval) : string * bool :=
  match v with JStr s => (s, true) | JUndef | JNull | JNaN => ("", true) | _ => ("", false) end.

Definition decode_range (ps : props) : range_br_msg * bool :=
  let '(f, ok1) := go_int (prop_get ps "from") in
  let '(t, ok2) := go_int (prop_get ps "to") in
  let '(m, ok3) := go_string (prop_get ps "msg") in
  (RangeMsg f t (bytes_of m), ok1 && ok2 && ok3).

Definition decode_set (ps : props) : set_br_msg * bool :=
  let '(f, ok1) := go_string (prop_get ps "from") in
  let '(m, ok2) := go_string (prop_get ps "msg") in
  (SetMsg f (bytes_of m), ok1 && ok2).

(** The body of [jsonRetSucc] (src/server/utils.go), or the empty body of a
    handler that returned at its guard. *)
Definition success_body : option props := Some [("ret", JNum 0); ("msg", JStr "OK")].

Definition task_props (h : jsheap) (body : jsval) : props := own_props h body.

(** [apiBroadcastRange] and [apiBroadcastSet] behind [check_console_ipf]. *)
Definition range_api (console_ok : bool) (h : jsheap) (body : jsval) (diff : Z) (hr : hub_rooms)
  : option (hub_rooms * option props) :=
  if console_ok then
    let '(dat, ok) := decode_range (task_props h body) in
    hr ← apiBroadcastRange dat ok diff hr; Some (hr, success_body)
  else Some (hr, None).

Definition set_api (console_ok : bool) (h : jsheap) (body : jsval) (diff : Z) (hr : hub_rooms)
  : hub_rooms * option props :=
  if console_ok then
    let '(dat, ok) := decode_set (task_props h body) in
    (apiBroadcastSet dat ok diff hr, success_body)
  else (hr, None).

(** The answer as the page parses it: an object, or the empty text. *)
Definition parse_answer (h : jsheap) (body : option props) : jsheap * answer :=
  match body with
  | Some ps => let '(r, h') := alloc (OPlain ps) h in (h', Answer (JRef r))
  | None => (h, Answer (JStr ""))
  end.

(** *** Lemmas *)

Definition callbacks (h : jsheap) (succ err : nat) : Prop :=
  (exists f ps, h !! succ = Some (OFun f ps)) /\ (exists f ps, h !! err = Some (OFun f ps)).

Definition is_task (h : jsheap) (t : nat) (ps : props) : Prop := h !! t = Some (OPlain ps).

Lemma post_args h t ps succ err : is_task h t ps -> callbacks h succ err ->
  parse_args h true [JRef t; JRef succ; JRef err] = Ok (CallArgs JUndef (JRef t) (JRef succ) (JRef err)).
Proof.
  unfold is_task. intros Ht [(f & fs & Hs) _].
  unfold parse_args, middle_args, last_arg, isFunction. cbn [typeof is_fun]. by rewrite Hs, Ht.
Qed.

Lemma get_args h v succ err : is_fun h v = false -> callbacks h succ err ->
  parse_args h false [v; JRef succ; JRef err] = Ok (CallArgs v JUndef (JRef succ) (JRef err)).
Proof.
  intros Hv [(f & fs & Hs) _]. unfold parse_args, middle_args, last_arg, isFunction. cbn [typeof is_fun].
  rewrite Hs. destruct v; cbn [typeof]; try reflexivity. by rewrite Hv.
Qed.

Lemma range_request op inh call os h t ps succ err :
  is_task h t ps -> callbacks h succ err ->
  on_result op inh call os h RangeSet (JRef t) succ err =
  Some (Ok (Request "POST" "/api/broadcast_range" [] (JRef t) [],
            CallArgs JUndef (JRef t) (JRef succ) (JRef err))).
Proof.
  intros Ht Hc. unfold on_result, request_of, resource_request. cbn [truthy].
  change (hasBody Slot_rangeSet) with true. rewrite (post_args _ _ _ _ _ Ht Hc). reflexivity.
Qed.

Lemma broadcast_nothing msg diff hr name : rooms (broadcast_rooms [] msg diff hr) !! name = rooms hr !! name.
Proof.
  rewrite broadcast_rooms_lookup, occurrences_notin by apply not_elem_of_nil.
  destruct (rooms hr !! name) as [[]|]; [|done]. unfold enqueue_n; simpl. by rewrite app_nil_r.
Qed.

Lemma room_segment i : Uri.enc Uri.segment_tok (room_name i) = room_name i.
Proof.
  assert (H : forall s, all_chars (fun c => numeral_char c || contains_char c "room_") s = true ->
    Uri.enc Uri.segment_tok s = s).
  { induction s as [|c s IH]; [done|]. cbn [all_chars Uri.enc]. intros [Hc Hs]%andb_true_iff.
    rewrite (IH Hs). clear -Hc.
    destruct c as [[] [] [] [] [] [] [] []]; vm_compute in Hc; try discriminate Hc; reflexivity. }
  apply H. unfold room_name. rewrite all_chars_app. cbn [andb]. apply andb_true_iff. split; [reflexivity|].
  eapply all_chars_mono; [|apply pretty_Z_numeral]. intros c Hc. by rewrite Hc.
Qed.

Lemma room_template : "/api/room" +:+ "/:" +:+ "room_id" = "/api/room/:room_id".
Proof. reflexivity. Qed.

Lemma room_rest id n :
  filter (fun p : string * jsval =>
            negb (bool_decide (p.1 ∈ ["room_id"]) || truthy ((fun _ => JUndef) p.1)) = true)
    [("room_id", JStr id); ("peer_num", JNum n)] = [("peer_num", JNum n)].
Proof. rewrite !filter_cons. reflexivity. Qed.

(** The URL of a row's room. *)
Lemma room_url os id n :
  id <> "" -> Location.charAt0 "." id = false -> Uri.enc Uri.segment_tok id = id ->
  setUrlParams (fun _ => JUndef) os (svc_url SlotFactory) (route_defaults SlotFactory)
    [("room_id", JStr id); ("peer_num", JNum n)] (Some "/api/room/:room_id") =
  Ok ("/api/room" +:+ "/" +:+ id, [("peer_num", JNum n)]).
Proof.
  intros H0 Hd He.
  rewrite setUrlParams_action by discriminate.
  assert (Hp : setUrlParams (fun _ => JUndef) os ("/api/room" +:+ "/:" +:+ "room_id")
      (route_defaults SlotFactory) [("room_id", JStr id); ("peer_num", JNum n)] None =
    Ok ("/api/room" +:+ "/" +:+ Uri.encodeUriSegment id,
      filter (fun p : string * jsval =>
                negb (bool_decide (p.1 ∈ ["room_id"]) || truthy ((fun _ => JUndef) p.1)) = true)
        [("room_id", JStr id); ("peer_num", JNum n)])).
  { apply setUrlParams_path; try done. vm_compute. repeat constructor; discriminate. }
  rewrite room_template, room_rest, Uri.encodeUriSegment_enc, He in Hp. exact Hp.
Qed.

(** The request for the room of a row. *)
Lemma view_request inh call os h r id n succ err :
  h !! r = Some (OPlain [("room_id", JStr id); ("peer_num", JNum n)]) -> callbacks h succ err ->
  id <> "" -> Location.charAt0 "." id = false -> Uri.enc Uri.segment_tok id = id ->
  checkRoom (fun _ => JUndef) inh call os h (JRef r) succ err =
  Ok (Request "GET" ("/api/room" +:+ "/" +:+ id) [("peer_num", JNum n)] JUndef [],
      CallArgs (JRef r) JUndef (JRef succ) (JRef err)).
Proof.
  intros Hr Hc H0 Hd He. unfold checkRoom, request_of.
  apply (resource_request_ok _ _ _ _ _ SlotFactory Slot_viewRoom _ (CallArgs (JRef r) JUndef (JRef succ) (JRef err))
    [("room_id", JUndef)]).
  - apply get_args; [cbn; by rewrite Hr|done].
  - reflexivity.
  - cbn [ca_params own_props]. rewrite Hr. by apply room_url.
Qed.
End Dialogs.

(** ** Properties *)

(** [hashCode] is the polynomial hash with base 31: on any text of up to
    four million characters no intermediate number leaves the exactly
    representable range, and the result is [c_0 31^(n-1) + ... + c_(n-1)]
    modulo 2^32 although only the shift wraps around. *)
Theorem hashCode_poly str :
  Forall (fun c => 0 <= c < 65536) str -> Z.of_nat (length str) <= 4000000 ->
  exists h, Utils.hashCode str = Some h /\ to_uint32 h = Utils.poly31 str mod 2 ^ 32.
Proof.
  intros Hs Hl. destruct (Utils.hash_from_poly str 0 Hs) as (h & H1 & _ & H2); [lia|].
  by exists h.
Qed.

Lemma hashCode_poly_witness :
  exists h, Utils.hashCode [115; 107; 121; 116; 105; 109; 101] = Some h /\
    to_uint32 h = Utils.poly31 [115; 107; 121; 116; 105; 109; 101] mod 2 ^ 32.
Proof. apply hashCode_poly; [repeat constructor; lia|simpl; lia]. Defined.

(** The chart is a sliding window: whatever refreshes, timers and answers
    interleave, it shows exactly the last 21 answers in the order they came,
    and exactly one polling timer is armed. *)
Theorem overview_window other_ge0 es s :
  Overview.run other_ge0 es Overview.init = Some s ->
  Overview.data s = Overview.last_n 21 (Overview.reply_points other_ge0 es) /\
  (length (Overview.data s) <= 21)%nat /\ Overview.timers s = 1%nat.
Proof.
  intros Hr. destruct (Overview.run_spec other_ge0 es Overview.init s [] Hr eq_refl) as [H1 H2].
  split_and!; [exact H1| |exact H2]. rewrite H1. unfold Overview.last_n.
  rewrite length_drop. change (S Overview.chart_limit) with 21%nat. lia.
Qed.

Lemma overview_window_witness :
  exists s, Overview.run (fun _ => false)
      [Overview.Reply 10 [("ops", JNum 7)]; Overview.Tick; Overview.Reply 20 [("ops", JNum (-1))]]
      Overview.init = Some s /\ Overview.data s = [(10, JNum 7); (20, JNum 0)].
Proof.
  eexists. split; [vm_compute; reflexivity|].
  refine (eq_trans (proj1 (overview_window (fun _ => false)
    [Overview.Reply 10 [("ops", JNum 7)]; Overview.Tick; Overview.Reply 20 [("ops", JNum (-1))]] _ _)) _);
    vm_compute; reflexivity.
Defined.

(** C4: a range broadcast does what the dialog says: leaving the dialog with
    numbers [a], [b] (safe integers, as all numbers of the page are here) and a
    text posts the task to [/api/broadcast_range], and the server that admits
    the operator returns: it enqueues the text once in each existing room from
    [a] to [b], in no other, and answers success. *)
Theorem range_dialog_exact op inh call os h t a b m succ err diff hr :
  Dialogs.is_task h t [("from", JNum a); ("to", JNum b); ("msg", JStr m)] ->
  Z.abs a < 2 ^ 53 -> Z.abs b < 2 ^ 53 ->
  Dialogs.callbacks h succ err ->
  exists req ca,
    Dialogs.leave op inh call os h Dialogs.RangeSet (Dialogs.PressOk (JRef t)) succ err = Some (Ok (req, ca)) /\
    req_method req = "POST" /\ req_url req = "/api/broadcast_range" /\
    exists hr' answer, Dialogs.range_api true h (req_data req) diff hr = Some (hr', answer) /\
    answer = Dialogs.success_body /\
    (forall i, rooms hr' !! room_name i =
       (if decide (a <= i <= b)
        then enqueue (PushMsg (total_msg_cnt (stats hr) + 1) (Dialogs.bytes_of m) true)
        else id) <$> rooms hr !! room_name i) /\
    (forall name, (forall i, name <> room_name i) -> rooms hr' !! name = rooms hr !! name).
Proof.
  intros Ht Ha Hb Hc. eexists _, _. split.
  { unfold Dialogs.leave, Dialogs.modal_result. simpl. by apply (Dialogs.range_request op inh call os h t _ succ err Ht). }
  split; [done|]. split; [done|].
  destruct (range_broadcast_lookup (RangeMsg a b (Dialogs.bytes_of m)) diff hr) as (hr' & Hr & Hl);
    [cbn; lia|cbn; unfold int_max; lia|].
  exists hr', Dialogs.success_body. split; [|by split].
  unfold Dialogs.range_api, Dialogs.task_props, own_props; cbn [req_data]. rewrite Ht.
  unfold Dialogs.decode_range. cbn -[apiBroadcastRange Dialogs.bytes_of Z.eqb go_int_wrap].
  rewrite !go_int_wrap_small, !Z.eqb_refl by (unfold int_max; lia). cbn -[apiBroadcastRange Dialogs.bytes_of]. by rewrite Hr.
Qed.

Definition dialog_heap (ps : props) : jsheap :=
  {[0%nat := OFun 0 []; 1%nat := OFun 1 []; 2%nat := OPlain ps]}.

Lemma range_dialog_exact_witness :
  exists req ca,
    Dialogs.leave (fun _ => JUndef) (fun _ _ => JUndef) (fun _ => JUndef) (fun _ => "")
      (dialog_heap [("from", JNum 2); ("to", JNum 4); ("msg", JStr "hi")])
      Dialogs.RangeSet (Dialogs.PressOk (JRef 2)) 0 1 = Some (Ok (req, ca)) /\
    req_url req = "/api/broadcast_range".
Proof.
  destruct (range_dialog_exact (fun _ => JUndef) (fun _ _ => JUndef) (fun _ => JUndef) (fun _ => "")
    (dialog_heap [("from", JNum 2); ("to", JNum 4); ("msg", JStr "hi")]) 2 2 4 "hi" 0 1 0 (hub_rooms_run 10))
    as (req & ca & H1 & _ & H2 & _).
  - reflexivity.
  - lia.
  - lia.
  - split; eexists _, _; reflexivity.
  - exists req, ca. done.
Defined.

(** A bound the operator leaves at its initial ['-1'] is sent as a string,
    which the server's integer field refuses: the broadcast reaches no room,
    and the answer is the one of a success all the same. *)
Theorem range_dialog_default_lost h t ps diff hr :
  Dialogs.is_task h t ps ->
  prop_get ps "from" = prop_get (Dialogs.initial_task Dialogs.RangeSet) "from" \/
  prop_get ps "to" = prop_get (Dialogs.initial_task Dialogs.RangeSet) "to" ->
  exists hr' answer, Dialogs.range_api true h (JRef t) diff hr = Some (hr', answer) /\
  (forall name, rooms hr' !! name = rooms hr !! name) /\ answer = Dialogs.success_body.
Proof.
  unfold Dialogs.is_task. intros Ht Hd.
  unfold Dialogs.range_api, Dialogs.task_props, own_props. rewrite Ht. cbn [obj_props].
  unfold Dialogs.decode_range.
  destruct (Dialogs.go_int (prop_get ps "from")) as [f ok1] eqn:H1.
  destruct (Dialogs.go_int (prop_get ps "to")) as [t' ok2] eqn:H2.
  destruct (Dialogs.go_string (prop_get ps "msg")) as [m ok3].
  assert (Hok : ok1 && ok2 && ok3 = false).
  { destruct Hd as [Hd|Hd]; cbn in Hd; rewrite Hd in *; cbn in H1, H2; simplify_eq; [done|].
    by rewrite andb_false_r. }
  rewrite Hok. eexists _, _. split; [reflexivity|]. split; [|done]. intros name. apply Dialogs.broadcast_nothing.
Qed.

Lemma range_dialog_default_lost_witness :
  exists hr' answer, Dialogs.range_api true
    (dialog_heap [("from", JNum 0); ("to", JStr "-1"); ("msg", JStr "hi")]) (JRef 2) 0 (hub_rooms_run 10) = Some (hr', answer) /\
  rooms hr' !! "0" = rooms (hub_rooms_run 10) !! "0" /\ answer = Dialogs.success_body.
Proof.
  destruct (range_dialog_default_lost
    (dialog_heap [("from", JNum 0); ("to", JStr "-1"); ("msg", JStr "hi")]) 2
    [("from", JNum 0); ("to", JStr "-1"); ("msg", JStr "hi")] 0 (hub_rooms_run 10) eq_refl
    (or_intror eq_refl)) as (hr' & a & H & H1 & H2). exists hr', a. exact (conj H (conj (H1 "0") H2)).
Defined.

(** A broadcast the server refuses at its address guard is reported to the
    operator as a success: the refusal is an empty answer, the rooms are left
    alone, and the page runs the success callback and never the error one. *)
Theorem refused_looks_successful h h' act t value succ err diff hr hr' body ans :
  truthy succ = true ->
  Dialogs.range_api false h (JRef t) diff hr = Some (hr', body) \/
  Dialogs.set_api false h (JRef t) diff hr = (hr', body) ->
  Dialogs.parse_answer h body = (h', ans) ->
  hr' = hr /\
  respond act (CallArgs JUndef (JRef t) succ err) h' value ans =
  (set_resolved h value, [Resolved; CallSuccess succ (JRef value)], true).
Proof.
  intros Hs Hr Hp. assert (hr' = hr /\ body = None) as [-> ->] by (destruct Hr; simpl in *; by simplify_eq).
  cbn in Hp. injection Hp as <- <-. split; [done|]. cbn. unfold call_if; cbn. by rewrite Hs.
Qed.

Lemma refused_looks_successful_witness :
  respond Dialogs.Slot_rangeSet (CallArgs JUndef (JRef 2) (JRef 0) (JRef 1)) (dialog_heap []) 3 (Answer (JStr "")) =
  (set_resolved (dialog_heap []) 3, [Resolved; CallSuccess (JRef 0) (JRef 3)], true).
Proof.
  refine (proj2 (refused_looks_successful (dialog_heap []) (dialog_heap []) Dialogs.Slot_rangeSet 2 3 (JRef 0)
    (JRef 1) 0 (hub_rooms_run 10) (hub_rooms_run 10) None (Answer (JStr "")) eq_refl (or_introl eq_refl) eq_refl)).
Defined.

(** Asking for a room shows that room: the request of [checkRoom] for a row
    of the list is a GET whose path names the row's room, and the server that
    holds the room answers with that room's connections. *)
Theorem view_room_exact inh call os h r i n succ err hr hb :
  h !! r = Some (OPlain [("room_id", JStr (room_name i)); ("peer_num", JNum n)]) ->
  Dialogs.callbacks h succ err -> rooms hr !! room_name i = Some hb ->
  exists req ca,
    Dialogs.checkRoom (fun _ => JUndef) inh call os h (JRef r) succ err = Ok (req, ca) /\
    req_method req = "GET" /\ req_url req = "/api/room/" +:+ room_name i /\
    req_params req = [("peer_num", JNum n)] /\
    apiRoomview (req_url req) hr = Ok (map_to_list (connections hb)).
Proof.
  intros Hr Hc Hhb. eexists _, _.
  split; [apply (Dialogs.view_request inh call os h r (room_name i) n succ err Hr Hc); try done;
          apply Dialogs.room_segment|].
  cbn [req_method req_url req_params]. split_and!; [done..|].
  unfold apiRoomview.
  change ("/api/room" +:+ "/" +:+ room_name i) with ("/api/room" +:+ String "/" (room_name i)).
  rewrite after_last_app; [by rewrite Hhb|].
  unfold room_name. rewrite contains_char_app. by rewrite pretty_no_char.
Qed.

Lemma view_room_exact_witness :
  exists req ca, Dialogs.checkRoom (fun _ => JUndef) (fun _ _ => JUndef) (fun _ => JUndef) (fun _ => "")
      (dialog_heap [("room_id", JStr "room_7"); ("peer_num", JNum 0)]) (JRef 2) 0 1 = Ok (req, ca) /\
    req_url req = "/api/room/room_7" /\ apiRoomview (req_url req) (hub_rooms_run 10) = Ok [].
Proof.
  destruct (view_room_exact (fun _ _ => JUndef) (fun _ => JUndef) (fun _ => "")
    (dialog_heap [("room_id", JStr "room_7"); ("peer_num", JNum 0)]) 2 7 0 0 1 (hub_rooms_run 10) Newhub)
    as (req & ca & H1 & _ & H2 & _ & H3).
  - reflexivity.
  - split; eexists _, _; reflexivity.
  - reflexivity.
  - exists req, ca. split; [exact H1|]. split; [exact H2|exact H3].
Defined.
