(* ===== verification/NgCache.v ===== *)
(** * NgCache: the caches of [$cacheFactory]

    [angular.js] 4851-5119: a cache with an optional capacity keeps its keys in
    a doubly linked list from the stale end to the fresh end.  The abstract
    cache is that list itself; the theorems relate the two.  An entry of the
    list is identified by its key (there is one live entry per key), keys are
    not members of [Object.prototype], and the value [undefined] is [None]. *)

From S2P Require Import Prelude.

(** [{key, n, p}]: the entry's neighbours; [null] and [undefined] are [None]. *)
Record lruEntry := Entry { e_n : option string; e_p : option string }.

Definition set_n (n : option string) (e : lruEntry) : lruEntry := Entry n (e_p e).
Definition set_p (p : option string) (e : lruEntry) : lruEntry := Entry (e_n e) p.

Abbreviation hash := (gmap string lruEntry).

(** [options.capacity || Number.MAX_VALUE]: [None] is no bound. *)
Definition capacity_of (option_capacity : option Z) : option Z :=
  match option_capacity with Some 0 | None => None | c => c end.

(** angular.js 5075-5080 *)
Definition link (nextEntry prevEntry : option string) (m : hash) : hash :=
  if decide (nextEntry = prevEntry) then m
  else
    let m := match nextEntry with Some e => alter (set_p prevEntry) e m | None => m end in
    match prevEntry with Some e => alter (set_n nextEntry) e m | None => m end.

Section Cache.
Context {V : Type}.

Record cache := Cache {
  size : Z;
  data : gmap string V;
  lruHash : hash;
  freshEnd : option string;
  staleEnd : option string;
  destroyed : bool
}.

Definition new_cache : cache := Cache 0 ∅ ∅ None None false.

Definition with_lru (m : hash) (f s : option string) (c : cache) : cache :=
  Cache (size c) (data c) m f s (destroyed c).

Definition neighbours (m : hash) (k : string) : lruEntry := default (Entry None None) (m !! k).

(** angular.js 5056-5069 *)
Definition refresh (entry : string) (c : cache) : cache :=
  if decide (Some entry = freshEnd c) then c
  else
    let stale := match staleEnd c with
                 | None => Some entry
                 | Some s => if String.eqb s entry then e_n (neighbours (lruHash c) entry) else Some s
                 end in
    let e := neighbours (lruHash c) entry in
    let m := link (e_n e) (e_p e) (lruHash c) in
    let m := link (Some entry) (freshEnd c) m in
    with_lru (alter (set_n None) entry m) (Some entry) stale c.

Context (capacity : option Z).

Definition bounded : bool := bool_decide (is_Some capacity).

(** angular.js 4980-4995 *)
Definition remove (key : string) (c : cache) : result string cache :=
  if destroyed c then Err "TypeError"
  else if bounded then
    match lruHash c !! key with
    | None => Ok c
    | Some e =>
        let fresh := if decide (Some key = freshEnd c) then e_p e else freshEnd c in
        let stale := if decide (Some key = staleEnd c) then e_n e else staleEnd c in
        let m := delete key (link (e_n e) (e_p e) (lruHash c)) in
        Ok (Cache (size c - 1) (delete key (data c)) m fresh stale false)
    end
  else Ok (Cache (size c - 1) (delete key (data c)) (lruHash c) (freshEnd c) (staleEnd c) false).

(** angular.js 4929-4933 *)
Definition touch (key : string) (c : cache) : cache :=
  if bounded then
    let m := match lruHash c !! key with
             | Some _ => lruHash c
             | None => <[key := Entry None None]> (lruHash c)
             end in
    refresh key (with_lru m (freshEnd c) (staleEnd c) c)
  else c.

Definition store (key : string) (v : V) (c : cache) : cache :=
  Cache (if decide (is_Some (data c !! key)) then size c else size c + 1)
    (<[key := v]> (data c)) (lruHash c) (freshEnd c) (staleEnd c) (destroyed c).

(** angular.js 4928-4944; the value put is returned. *)
Definition put (key : string) (value : option V) (c : cache) : result string (cache * option V) :=
  if destroyed c && (bounded || bool_decide (is_Some value)) then Err "TypeError"
  else
    let c := touch key c in
    match value with
    | None => Ok (c, None)
    | Some v =>
        let c := store key v c in
        match capacity with
        | Some cap =>
            if cap <? size c then
              match staleEnd c with
              | Some k => c ← remove k c; Ok (c, Some v)
              | None => Err "TypeError"
              end
            else Ok (c, Some v)
        | None => Ok (c, Some v)
        end
    end.

(** angular.js 4957-4967 *)
Definition get (key : string) (c : cache) : result string (cache * option V) :=
  if destroyed c then Err "TypeError"
  else if bounded then
    match lruHash c !! key with
    | None => Ok (c, None)
    | Some _ => let c := refresh key c in Ok (c, data c !! key)
    end
  else Ok (c, data c !! key).

(** angular.js 5006-5011 *)
Definition removeAll (c : cache) : cache := Cache 0 ∅ ∅ None None false.

(** angular.js 5023-5028, the cache's own part. *)
Definition destroy (c : cache) : cache := Cache (size c) ∅ ∅ (freshEnd c) (staleEnd c) true.

(** *** The abstract cache: pairs from the stalest to the freshest *)

Abbreviation lru := (list (string * V)).

Definition a_find (k : string) (l : lru) : option V := list_to_map (M := gmap string V) l !! k.
Definition a_without (k : string) (l : lru) : lru := filter (fun kv => kv.1 <> k) l.

Definition a_put (k : string) (v : V) (l : lru) : lru :=
  let l := a_without k l ++ [(k, v)] in
  match capacity with
  | Some cap => if cap <? Z.of_nat (length l) then drop 1 l else l
  | None => l
  end.

Definition a_get (k : string) (l : lru) : lru * option V :=
  match a_find k l with
  | Some v => (a_without k l ++ [(k, v)], Some v)
  | None => (l, None)
  end.

(** The links of a list of keys, read from its stale end. *)
Fixpoint links (prev : option string) (ks : list string) : hash :=
  match ks with
  | [] => ∅
  | k :: ks => <[k := Entry (head ks) prev]> (links (Some k) ks)
  end.

Record rep (c : cache) (l : lru) : Prop := Rep {
  rep_nodup : NoDup l.*1;
  rep_data : data c = list_to_map l;
  rep_size : size c = Z.of_nat (length l);
  rep_links : lruHash c = links None l.*1;
  rep_fresh : freshEnd c = last l.*1;
  rep_stale : staleEnd c = head l.*1;
  rep_alive : destroyed c = false
}.
End Cache.
Arguments cache : clear implicits.

(** ** The registry (angular.js 4854-4859, 5093-5114) *)

Section Registry.
Context {V O : Type}.

Record entry := Registered { r_options : O; r_cache : cache V }.

Definition cacheFactory (cacheId : string) (options : O) (caches : gmap string entry)
  : result string (gmap string entry) :=
  match caches !! cacheId with
  | Some _ => Err "$cacheFactory:iid"
  | None => Ok (<[cacheId := Registered options new_cache]> caches)
  end.

Definition destroy_cache (cacheId : string) (caches : gmap string entry) : gmap string entry :=
  delete cacheId caches.

(** Each cache's options with its id and its size. *)
Definition info (caches : gmap string entry) : gmap string (O * Z) :=
  (fun e => (r_options e, size (r_cache e))) <$> caches.

Definition get_cache (cacheId : string) (caches : gmap string entry) : option entry := caches !! cacheId.
End Registry.

(** ** Lemmas: the linked list *)

Lemma links_None p ks x : x ∉ ks -> links p ks !! x = None.
Proof.
  revert p; induction ks as [|k ks IH]; intros p Hx; simpl; [done|].
  apply not_elem_of_cons in Hx as [Hne Hx]. rewrite lookup_insert_ne by done. by apply IH.
Qed.

(** The entry before the first of [b] when [a] comes before it. *)
Definition prev_of (p : option string) (a : list string) : option string :=
  match a with [] => p | _ => last a end.

Lemma links_at p a x b : x ∉ a -> links p (a ++ x :: b) !! x = Some (Entry (head b) (prev_of p a)).
Proof.
  revert p; induction a as [|k a IH]; intros p Hx; simpl; [by rewrite lookup_insert_eq|].
  apply not_elem_of_cons in Hx as [Hne Hx]. rewrite lookup_insert_ne by done. rewrite IH by done.
  by destruct a.
Qed.

Lemma links_dom p ks x : is_Some (links p ks !! x) <-> x ∈ ks.
Proof.
  split.
  - intros H. destruct (decide (x ∈ ks)) as [|Hx]; [done|]. rewrite links_None in H by done. by destruct H.
  - intros (a & b & -> & Hx)%list_elem_of_split_l. rewrite links_at by done. by eexists.
Qed.

Lemma link_lookup n p (m : hash) x : n <> p \/ n = None ->
  link n p m !! x =
  (fun e => Entry (if decide (p = Some x) then n else e_n e) (if decide (n = Some x) then p else e_p e))
    <$> m !! x.
Proof.
  intros Hnp. unfold link. destruct (decide (n = p)) as [->|Hne].
  { destruct Hnp as [|Hnp]; [done|]. subst p. by destruct (m !! x) as [[? ?]|]. }
  destruct n as [n|], p as [p|]; simpl; try done; rewrite ?lookup_alter;
    repeat case_decide; simplify_eq/=; try done; by destruct (m !! _) as [[? ?]|].
Qed.

Lemma links_in a x b : x ∉ a -> links None (a ++ x :: b) !! x = Some (Entry (head b) (last a)).
Proof. intros Hx. rewrite links_at by done. by destruct a. Qed.

Lemma head_app_cons {A} (a : list A) k b : head (a ++ k :: b) = Some (default k (head a)).
Proof. by destruct a. Qed.

Lemma head_app_default {A} (a b : list A) : head (a ++ b) = match head a with Some x => Some x | None => head b end.
Proof. by destruct a. Qed.

(** Taking an entry out of the chain. *)
Lemma unlink a k b x : NoDup (a ++ k :: b) -> x <> k ->
  link (head b) (last a) (links None (a ++ k :: b)) !! x = links None (a ++ b) !! x.
Proof.
  intros Hnd Hxk.
  assert (Hd : head b <> last a \/ head b = None).
  { destruct b as [|y b]; [by right|left]. simpl. intros Hl. symmetry in Hl. apply last_Some_elem_of in Hl.
    apply NoDup_app in Hnd as (_ & Hnd & _). apply (Hnd y Hl). apply elem_of_cons; right. apply elem_of_cons; by left. }
  rewrite link_lookup by done.
  apply NoDup_app in Hnd as (Ha & Hab & Hkb). apply NoDup_cons in Hkb as [Hkb Hb].
  destruct (decide (x ∈ a)) as [Hxa|Hxa].
  - assert (Hxb : x ∉ b) by (intros Hin; apply (Hab x Hxa), elem_of_cons; by right).
    apply list_elem_of_split_l in Hxa as (a1 & a2 & -> & Hx1). rewrite <- !app_assoc. simpl.
    rewrite !links_in by done. simpl. f_equal. rewrite (decide_False (P := head b = Some x)).
    2:{ intros Hh. apply Hxb. destruct b; simplify_eq/=. apply elem_of_cons; by left. }
    rewrite last_app_cons. f_equal. destruct a2 as [|y a2].
    + simpl. by rewrite decide_True.
    + simpl. rewrite decide_False; [done|]. intros Hl.
      assert (Hin : x ∈ y :: a2) by (apply last_Some_elem_of; by destruct a2).
      apply NoDup_app in Ha as (_ & _ & Ha). apply NoDup_cons in Ha as [Ha _]. done.
  - destruct (decide (x ∈ b)) as [Hxb|Hxb].
    + apply list_elem_of_split_l in Hxb as (b1 & b2 & -> & Hx1).
      rewrite app_comm_cons, !app_assoc. rewrite !links_in.
      2:{ rewrite not_elem_of_app. done. }
      2:{ rewrite not_elem_of_app, not_elem_of_cons. done. }
      simpl. f_equal. rewrite (decide_False (P := last a = Some x)).
      2:{ intros Hl. by apply Hxa, last_Some_elem_of. }
      f_equal. destruct b1 as [|y b1].
      * simpl. rewrite decide_True by done. by rewrite app_nil_r.
      * simpl. rewrite decide_False by (intros [= ->]; apply Hx1, elem_of_cons; by left).
        rewrite !last_app_cons. done.
    + rewrite !links_None; [done| |].
      * rewrite not_elem_of_app. done.
      * rewrite not_elem_of_app, not_elem_of_cons. done.
Qed.

Lemma link_is_Some n p (m : hash) x : is_Some (m !! x) -> is_Some (link n p m !! x).
Proof.
  intros [e He]. unfold link. destruct (decide _); [by eexists|].
  assert (Ha : forall f k (m : hash), is_Some (m !! x) -> is_Some (alter f k m !! x))
    by (intros f k m' H; by rewrite lookup_alter_is_Some).
  destruct n, p; repeat apply Ha; by eexists.
Qed.

(** Putting an entry at the fresh end. *)
Lemma append_links k r (m : hash) :
  k ∉ r -> NoDup r -> is_Some (m !! k) -> (forall x, x <> k -> m !! x = links None r !! x) ->
  alter (set_n None) k (link (Some k) (last r) m) = links None (r ++ [k]).
Proof.
  intros Hk Hnd [e He] Hm. apply map_eq. intros x.
  assert (Hl : Some k <> last r \/ Some k = None).
  { left. intros Hl. symmetry in Hl. by apply Hk, last_Some_elem_of. }
  destruct (decide (x = k)) as [->|Hx].
  - rewrite lookup_alter_eq, link_lookup, He by done. simpl. rewrite (links_in r k []) by done.
    rewrite (decide_True (P := Some k = Some k)) by done. done.
  - rewrite lookup_alter_ne, link_lookup, Hm by done. destruct (decide (x ∈ r)) as [Hin|Hin].
    + apply list_elem_of_split_l in Hin as (r1 & r2 & -> & Hx1). rewrite <- app_assoc. simpl.
      rewrite !links_in by done. simpl. rewrite (decide_False (P := Some k = Some x)) by congruence.
      f_equal. f_equal. rewrite last_app_cons. destruct r2 as [|y r2].
      * simpl. by rewrite decide_True.
      * simpl. rewrite decide_False; [done|]. intros Hlast.
        assert (Hin : x ∈ y :: r2) by (apply last_Some_elem_of; by destruct r2).
        apply NoDup_app in Hnd as (_ & _ & Hnd). apply NoDup_cons in Hnd as [Hnd _]. done.
    + rewrite !links_None; [done| |done]. rewrite not_elem_of_app. split; [done|].
      by rewrite list_elem_of_singleton.
Qed.

(** ** Lemmas: the operations on the chain *)

Definition without (k : string) (ks : list string) : list string := filter (fun x => x <> k) ks.

Lemma without_notin k ks : k ∉ ks -> without k ks = ks.
Proof.
  intros Hk. unfold without. induction ks as [|x ks IH]; [done|].
  apply not_elem_of_cons in Hk as [Hne Hk]. rewrite filter_cons, decide_True by congruence. by rewrite IH.
Qed.

Lemma without_split k a b : k ∉ a -> k ∉ b -> without k (a ++ k :: b) = a ++ b.
Proof.
  intros Ha Hb. unfold without. rewrite filter_app, filter_cons, decide_False by (intros H; by apply H).
  f_equal; by apply without_notin.
Qed.

Lemma a_without_keys {V} k (l : list (string * V)) : (a_without k l).*1 = without k l.*1.
Proof.
  unfold a_without, without. induction l as [|[q w] l IH]; [done|].
  rewrite filter_cons. csimpl. rewrite filter_cons. repeat case_decide; csimpl; by rewrite ?IH.
Qed.

Lemma a_without_map {V} k (l : list (string * V)) :
  list_to_map (M := gmap string V) (a_without k l) = delete k (list_to_map l).
Proof.
  unfold a_without. induction l as [|[q w] l IH]; [csimpl; by rewrite delete_empty|].
  rewrite filter_cons. csimpl. destruct (decide (q = k)) as [->|Hne].
  - rewrite decide_False by (intros H; by apply H). by rewrite IH, delete_insert_eq.
  - rewrite decide_True by done. csimpl. by rewrite delete_insert_ne, IH.
Qed.

Section Ops.
Context {V : Type} (capacity : option Z).
Implicit Types (c : cache V) (l : list (string * V)).

Record chain (c : cache V) (ks : list string) : Prop := Chain {
  chain_nodup : NoDup ks;
  chain_links : lruHash c = links None ks;
  chain_fresh : freshEnd c = last ks;
  chain_stale : staleEnd c = head ks
}.

Lemma split_nodup (k : string) ks : NoDup ks -> k ∈ ks ->
  exists a b, ks = a ++ k :: b /\ (k ∉ a) /\ (k ∉ b) /\ NoDup (a ++ b).
Proof.
  intros Hnd (a & b & -> & Ha)%list_elem_of_split_l. exists a, b.
  apply NoDup_app in Hnd as (H1 & H2 & H3). apply NoDup_cons in H3 as [H3 H4]. split_and!; [done..|].
  apply NoDup_app. split_and!; [done| |done]. intros x Hx Hb. apply (H2 x Hx), elem_of_cons. by right.
Qed.

(** Refreshing an entry: [m] is the chain without it, its own entry aside. *)
Lemma refresh_to c k r :
  k ∉ r -> NoDup r -> Some k <> freshEnd c -> freshEnd c = last r ->
  is_Some (lruHash c !! k) ->
  (forall x, x <> k -> link (e_n (neighbours (lruHash c) k)) (e_p (neighbours (lruHash c) k)) (lruHash c) !! x =
                       links None r !! x) ->
  (match staleEnd c with
   | None => Some k
   | Some s => if String.eqb s k then e_n (neighbours (lruHash c) k) else Some s
   end) = head (r ++ [k]) ->
  chain (refresh k c) (r ++ [k]).
Proof.
  intros Hk Hnd Hf Hl Hm Hx Hs. unfold refresh. rewrite decide_False by done. constructor; simpl.
  - apply NoDup_app. split_and!; [done| |apply NoDup_singleton]. by intros x Hxr ->%list_elem_of_singleton.
  - rewrite Hl. apply append_links; [done..| |done]. by apply link_is_Some.
  - by rewrite last_snoc.
  - done.
Qed.

Lemma refresh_chain c ks k : chain c ks -> k ∈ ks -> chain (refresh k c) (without k ks ++ [k]).
Proof.
  intros [Hnd Hlk Hf Hs] Hk. destruct (split_nodup k ks Hnd Hk) as (a & b & -> & Ha & Hb & Hab).
  rewrite without_split by done. destruct b as [|y b].
  - rewrite app_nil_r. unfold refresh. rewrite decide_True; [by constructor|]. by rewrite Hf, last_snoc.
  - assert (He : neighbours (lruHash c) k = Entry (Some y) (last a)).
    { unfold neighbours. rewrite Hlk, links_in by done. done. }
    assert (Hlast : last (a ++ k :: y :: b) = last (a ++ y :: b)) by (by rewrite !last_app_cons).
    apply refresh_to; try done.
    + rewrite not_elem_of_app. done.
    + rewrite Hf, Hlast. intros Hl. symmetry in Hl. apply last_Some_elem_of in Hl.
      by apply elem_of_app in Hl as [|].
    + by rewrite Hf, Hlast.
    + rewrite Hlk. apply links_dom, elem_of_app. right. apply elem_of_cons. by left.
    + intros x Hx. rewrite He, Hlk. by apply (unlink a k (y :: b)).
    + rewrite Hs, He. destruct a as [|z a]; simpl.
      * by rewrite String.eqb_refl.
      * destruct (String.eqb_spec z k) as [->|]; [|done]. exfalso. apply Ha, elem_of_cons. by left.
Qed.

Lemma touch_chain c ks k : is_Some capacity -> chain c ks -> chain (touch capacity k c) (without k ks ++ [k]).
Proof.
  intros Hcap Hc. unfold touch, bounded. rewrite bool_decide_true by done.
  pose proof Hc as [Hnd Hlk Hf Hs]. destruct (lruHash c !! k) as [e|] eqn:He.
  - assert (Hk : k ∈ ks) by (apply (links_dom None); rewrite <- Hlk; by eexists).
    apply (refresh_chain (with_lru (lruHash c) (freshEnd c) (staleEnd c) c)); [by constructor|done].
  - assert (Hk : k ∉ ks).
    { intros Hk. apply (links_dom None) in Hk. rewrite <- Hlk, He in Hk. by destruct Hk. }
    rewrite without_notin by done. apply refresh_to; simpl; try done.
    + rewrite Hf. intros Hl. symmetry in Hl. by apply Hk, last_Some_elem_of.
    + by rewrite lookup_insert_eq.
    + intros x Hx. unfold neighbours. rewrite lookup_insert_eq. simpl. unfold link.
      rewrite decide_True by done. by rewrite lookup_insert_ne, Hlk.
    + rewrite Hs. destruct ks as [|z ks]; simpl; [done|].
      destruct (String.eqb_spec z k) as [->|]; [|done]. exfalso. apply Hk, elem_of_cons. by left.
Qed.

Lemma touch_other c k : size (touch capacity k c) = size c /\ data (touch capacity k c) = data c /\
  destroyed (touch capacity k c) = destroyed c.
Proof.
  unfold touch, refresh. destruct (bounded capacity); [|done]. by destruct (decide _).
Qed.

Lemma last_without (a : list string) k b : Some k = last (a ++ k :: b) -> k ∉ b -> last a = last (a ++ b).
Proof.
  intros Hl Hb. rewrite last_app_cons in Hl. destruct b as [|y b]; [by rewrite app_nil_r|]. exfalso. apply Hb, last_Some_elem_of. simpl in Hl. by rewrite <- Hl.
Qed.

(** Removing an entry of the chain. *)
Lemma remove_chain c ks k : is_Some capacity -> destroyed c = false -> chain c ks ->
  exists c', remove capacity k c = Ok c' /\ chain c' (without k ks) /\ destroyed c' = false /\
    (if decide (k ∈ ks) then size c' = size c - 1 /\ data c' = delete k (data c)
     else size c' = size c /\ data c' = data c).
Proof.
  intros Hcap Hd Hc. pose proof Hc as [Hnd Hlk Hf Hs]. unfold remove, bounded.
  rewrite Hd, bool_decide_true by done. destruct (lruHash c !! k) as [e|] eqn:He.
  - assert (Hk : k ∈ ks) by (apply (links_dom None); rewrite <- Hlk; by eexists).
    eexists. split; [done|]. rewrite (decide_True (P := k ∈ ks)) by done. simpl. split; [|done].
    destruct (split_nodup k ks Hnd Hk) as (a & b & -> & Ha & Hb & Hab).
    rewrite without_split by done. rewrite Hlk, links_in in He by done. injection He as <-.
    constructor; simpl; [done|..].
    + apply map_eq. intros x. destruct (decide (x = k)) as [->|Hx].
      * rewrite lookup_delete_eq, links_None; [done|]. by rewrite not_elem_of_app.
      * rewrite lookup_delete_ne, Hlk by done. by apply unlink.
    + rewrite Hf. destruct (decide _) as [Hl|Hl].
      * by apply (last_without a k b).
      * rewrite last_app_cons in Hl |- *. destruct b as [|y b]; [done|]. by rewrite last_app_cons.
    + rewrite Hs. destruct a as [|z a]; simpl; [by rewrite decide_True|].
      rewrite decide_False; [done|]. intros [= ->]. apply Ha, elem_of_cons. by left.
  - assert (Hk : k ∉ ks).
    { intros Hk. apply (links_dom None) in Hk. rewrite <- Hlk, He in Hk. by destruct Hk. }
    eexists. split; [done|]. rewrite decide_False, without_notin by done. done.
Qed.

Lemma rep_chain c l : rep c l -> chain c l.*1.
Proof. intros []. by constructor. Qed.

Lemma NoDup_without k ks : NoDup ks -> NoDup (without k ks).
Proof. apply NoDup_filter. Qed.

Lemma length_a_without k l : NoDup l.*1 ->
  Z.of_nat (length (a_without k l)) = Z.of_nat (length l) - (if decide (k ∈ l.*1) then 1 else 0).
Proof.
  intros Hnd. rewrite <- (length_fmap fst (a_without k l)), a_without_keys, <- (length_fmap fst l).
  case_decide as Hk.
  - destruct (split_nodup k _ Hnd Hk) as (a & b & -> & Ha & Hb & _). rewrite without_split by done.
    rewrite !length_app. simpl. lia.
  - rewrite without_notin by done. lia.
Qed.

Lemma find_Some_in k l : is_Some (list_to_map (M := gmap string V) l !! k) <-> k ∈ l.*1.
Proof.
  destruct (list_to_map l !! k) eqn:He.
  - split; [|by eexists]. intros _. apply elem_of_list_to_map_2 in He. apply list_elem_of_fmap. by eexists (_, _).
  - split; [by intros []|]. apply not_elem_of_list_to_map in He. done.
Qed.

Lemma map_snoc k v l : k ∉ l.*1 ->
  list_to_map (M := gmap string V) (l ++ [(k, v)]) = <[k := v]> (list_to_map l).
Proof. apply list_to_map_snoc. Qed.

(** Storing a value under a touched key. *)
Lemma store_rep c l k v : is_Some capacity -> rep c l ->
  rep (store k v (touch capacity k c)) (a_without k l ++ [(k, v)]).
Proof.
  intros Hcap Hr. destruct (touch_other c k) as (Hsz & Hdt & Hds).
  destruct (touch_chain c _ k Hcap (rep_chain _ _ Hr)) as [Hnd Hlk Hf Hs].
  assert (Hkeys : (a_without k l ++ [(k, v)]).*1 = without k l.*1 ++ [k]) by (by rewrite fmap_app, a_without_keys).
  assert (Hkn : k ∉ (a_without k l).*1).
  { rewrite a_without_keys. unfold without. intros Hin%list_elem_of_filter. by destruct Hin. }
  constructor; rewrite ?Hkeys; try done; simpl.
  - rewrite Hdt, map_snoc, a_without_map, (rep_data _ _ Hr) by done. by rewrite insert_delete_eq.
  - rewrite Hdt, Hsz, (rep_data _ _ Hr), (rep_size _ _ Hr), length_app.
    pose proof (length_a_without k l (rep_nodup _ _ Hr)) as Hl. cbn [length].
    destruct (decide (k ∈ l.*1)) as [Hk|Hk].
    + rewrite decide_True by by apply find_Some_in. lia.
    + rewrite decide_False by by rewrite find_Some_in. lia.
  - by rewrite Hds, (rep_alive _ _ Hr).
Qed.

Lemma remove_rep c l k : is_Some capacity -> rep c l ->
  exists c', remove capacity k c = Ok c' /\ rep c' (a_without k l).
Proof.
  intros Hcap Hr.
  destruct (remove_chain c _ k Hcap (rep_alive _ _ Hr) (rep_chain _ _ Hr)) as (c' & He & [Hnd Hlk Hf Hs] & Hd & Ho).
  exists c'. split; [done|]. constructor; rewrite ?a_without_keys; try done.
  - rewrite a_without_map. rewrite (rep_data _ _ Hr) in Ho. case_decide as Hk; destruct Ho as [_ ->]; [done|].
    rewrite delete_id; [done|]. by apply not_elem_of_list_to_map_1.
  - rewrite length_a_without by apply (rep_nodup _ _ Hr). rewrite (rep_size _ _ Hr) in Ho.
    case_decide; destruct Ho as [-> _]; lia.
Qed.

Lemma a_without_head k v l : NoDup ((k, v) :: l).*1 -> a_without k ((k, v) :: l) = l.
Proof.
  csimpl. intros [Hk _]%NoDup_cons. unfold a_without. rewrite filter_cons, decide_False by (intros H; by apply H).
  induction l as [|[q w] l IH]; [done|]. csimpl in Hk. apply not_elem_of_cons in Hk as [Hne Hk].
  rewrite filter_cons, decide_True by (simpl; congruence). by rewrite IH.
Qed.

Lemma put_rep c l k v cap : capacity = Some cap -> 1 <= cap -> rep c l -> Z.of_nat (length l) <= cap ->
  exists c', put capacity k (Some v) c = Ok (c', Some v) /\ rep c' (a_put capacity k v l) /\
    Z.of_nat (length (a_put capacity k v l)) <= cap.
Proof.
  intros Hc Hcap Hr Hl. pose proof (store_rep c l k v ltac:(rewrite Hc; by eexists) Hr) as Hs.
  unfold put, a_put. rewrite (rep_alive _ _ Hr). cbn [andb]. rewrite Hc in Hs |- *.
  rewrite (rep_size _ _ Hs). pose proof (length_a_without k l (rep_nodup _ _ Hr)) as Hw.
  destruct (Z.ltb_spec cap (Z.of_nat (length (a_without k l ++ [(k, v)])))) as [Hlt|Hge].
  - destruct (a_without k l ++ [(k, v)]) as [|[k0 v0] l1] eqn:He; [simpl in Hlt; lia|].
    rewrite (rep_stale _ _ Hs). csimpl. rewrite <- Hc.
    destruct (remove_rep _ _ k0 ltac:(rewrite Hc; by eexists) Hs) as (c' & Hrm & Hr').
    rewrite <- Hc in Hrm. rewrite Hrm. simpl. exists c'. split; [done|].
    rewrite a_without_head in Hr' by apply (rep_nodup _ _ Hs). split; [done|].
    assert (Hlen : Z.of_nat (length ((k0, v0) :: l1)) <= cap + 1).
    { rewrite <- He, length_app. simpl. case_decide; lia. }
    simpl in Hlen. rewrite drop_0. lia.
  - eexists. split; [done|]. split; [done|lia].
Qed.

Lemma get_rep c l k : is_Some capacity -> rep c l ->
  exists c', get capacity k c = Ok (c', (a_get k l).2) /\ rep c' (a_get k l).1.
Proof.
  intros Hcap Hr. unfold get, bounded, a_get, a_find. rewrite (rep_alive _ _ Hr), bool_decide_true by done.
  destruct (lruHash c !! k) as [e|] eqn:He.
  - assert (Hk : k ∈ l.*1) by (apply (links_dom None); rewrite <- (rep_links _ _ Hr); by eexists).
    pose proof Hk as [v Hv]%find_Some_in. rewrite Hv. eexists.
    assert (Hd : data (refresh k c) = data c /\ size (refresh k c) = size c /\ destroyed (refresh k c) = destroyed c)
      by (unfold refresh; by destruct (decide _)).
    destruct Hd as (Hd & Hsz & Hds). rewrite Hd, (rep_data _ _ Hr), Hv. split; [done|].
    destruct (refresh_chain c _ k (rep_chain _ _ Hr) Hk) as [Hnd Hlk Hf Hs].
    assert (Hkeys : (a_without k l ++ [(k, v)]).*1 = without k l.*1 ++ [k]) by (by rewrite fmap_app, a_without_keys).
    constructor; cbn [fst]; rewrite ?Hkeys; try done.
    + rewrite Hd, (rep_data _ _ Hr), map_snoc, a_without_map.
      * by rewrite insert_delete_id.
      * rewrite a_without_keys. unfold without. intros Hin%list_elem_of_filter. by destruct Hin.
    + rewrite Hsz, (rep_size _ _ Hr), length_app. pose proof (length_a_without k l (rep_nodup _ _ Hr)) as Hl.
      rewrite decide_True in Hl by done. simpl. lia.
    + by rewrite Hds, (rep_alive _ _ Hr).
  - assert (Hk : k ∉ l.*1).
    { intros Hk. apply (links_dom None) in Hk. rewrite <- (rep_links _ _ Hr), He in Hk. by destruct Hk. }
    rewrite (not_elem_of_list_to_map_1 _ _ Hk). by exists c.
Qed.

(** *** Histories *)

Inductive cache_op : Type :=
| Put (k : string) (v : V)
| Get (k : string)
| Remove (k : string)
| RemoveAll.

Definition exec (op : cache_op) (c : cache V) : result string (cache V * option V) :=
  match op with
  | Put k v => put capacity k (Some v) c
  | Get k => get capacity k c
  | Remove k => c ← remove capacity k c; Ok (c, None)
  | RemoveAll => Ok (removeAll c, None)
  end.

Definition a_exec (op : cache_op) (l : list (string * V)) : list (string * V) * option V :=
  match op with
  | Put k v => (a_put capacity k v l, Some v)
  | Get k => a_get k l
  | Remove k => (a_without k l, None)
  | RemoveAll => ([], None)
  end.

Fixpoint execs (ops : list cache_op) (c : cache V) : result string (cache V * list (option V)) :=
  match ops with
  | [] => Ok (c, [])
  | op :: ops =>
      p ← exec op c;
      q ← execs ops p.1;
      Ok (q.1, p.2 :: q.2)
  end.

Fixpoint a_execs (ops : list cache_op) (l : list (string * V)) : list (string * V) * list (option V) :=
  match ops with
  | [] => (l, [])
  | op :: ops => let '(l, r) := a_exec op l in let '(l, rs) := a_execs ops l in (l, r :: rs)
  end.

Lemma rep_empty : rep (new_cache (V := V)) [].
Proof. constructor; try done. constructor. Qed.

Lemma length_without k l : (length (a_without k l) <= length l)%nat.
Proof. apply length_filter. Qed.

Lemma exec_rep op c l cap : capacity = Some cap -> 1 <= cap -> rep c l -> Z.of_nat (length l) <= cap ->
  exists c', exec op c = Ok (c', (a_exec op l).2) /\ rep c' (a_exec op l).1 /\
    Z.of_nat (length (a_exec op l).1) <= cap.
Proof.
  intros Hc Hcap Hr Hl. assert (Hs : is_Some capacity) by (rewrite Hc; by eexists).
  destruct op as [k v|k|k|]; cbn [exec a_exec fst snd].
  - by apply put_rep.
  - destruct (get_rep c l k Hs Hr) as (c' & He & Hr'). exists c'. split; [done|]. split; [done|].
    unfold a_get, a_find in *. destruct (list_to_map l !! k) eqn:Hf; simpl in *; [|done].
    pose proof (length_a_without k l (rep_nodup _ _ Hr)) as Hw.
    rewrite decide_True in Hw by (apply find_Some_in; by eexists). rewrite length_app. simpl. lia.
  - destruct (remove_rep c l k Hs Hr) as (c' & -> & Hr'). simpl. exists c'. split; [done|]. split; [done|].
    pose proof (length_without k l). lia.
  - exists (removeAll c). split; [done|]. split; [apply rep_empty|simpl; lia].
Qed.

Lemma execs_rep ops c l cap : capacity = Some cap -> 1 <= cap -> rep c l -> Z.of_nat (length l) <= cap ->
  exists c', execs ops c = Ok (c', (a_execs ops l).2) /\ rep c' (a_execs ops l).1 /\
    Z.of_nat (length (a_execs ops l).1) <= cap.
Proof.
  intros Hc Hcap. revert c l; induction ops as [|op ops IH]; intros c l Hr Hl; cbn [execs a_execs].
  { by exists c. }
  destruct (exec_rep op c l cap Hc Hcap Hr Hl) as (c1 & He & Hr1 & Hl1).
  destruct (a_exec op l) as [l1 r1]. cbn [fst snd] in *.
  destruct (IH c1 l1 Hr1 Hl1) as (c' & He' & Hr' & Hl'). rewrite He. simpl. rewrite He'. simpl.
  exists c'. by destruct (a_execs ops l1) as [l' rs].
Qed.
End Ops.

(** ** Properties *)

(** C12: a cache with a capacity of at least one is a least-recently-used list:
    whatever sequence of puts of defined values, reads, removals and clearings
    it goes through, under keys that are not names of [Object.prototype], its
    links never break (no call throws), every call answers what the list of
    keys ordered by last use answers, and it never holds more than its
    capacity.  (A put of [undefined] breaks the bound: Lemma
    [put_undefined_breaks_bound].) *)
Theorem cache_refines_lru {V} cap (ops : list (cache_op (V := V))) :
  1 <= cap ->
  exists c, execs (Some cap) ops new_cache = Ok (c, (a_execs (Some cap) ops []).2) /\
    rep c (a_execs (Some cap) ops []).1 /\ size c <= cap.
Proof.
  intros Hcap. destruct (execs_rep (Some cap) ops new_cache [] cap eq_refl Hcap rep_empty) as (c & He & Hr & Hl);
    [simpl; lia|].
  exists c. split; [done|]. split; [done|]. by rewrite (rep_size _ _ Hr).
Qed.

Lemma cache_refines_lru_witness :
  exists c, execs (Some 2) [Put "a" 1; Put "b" 2; Get "a"; Put "c" 3; Get "b"; Get "a"] new_cache =
    Ok (c, [Some 1; Some 2; Some 1; Some 3; None; Some 1]) /\ size c <= 2.
Proof.
  destruct (cache_refines_lru 2 [Put "a" 1; Put "b" 2; Get "a"; Put "c" 3; Get "b"; Get "a"]) as (c & He & _ & Hs);
    [lia|].
  exists c. split; [exact He|exact Hs].
Defined.

(** Without a capacity the bookkeeping of [remove] is not guarded: removing an
    absent key leaves a cache of size -1. *)
Lemma remove_absent_unbounded :
  remove (V := nat) None "k" new_cache = Ok (Cache (-1) ∅ ∅ None None false).
Proof. reflexivity. Qed.

(** Putting [undefined] makes an entry that counts as a value when it is
    evicted: a cache of capacity 1 ends up holding two values. *)
Lemma put_undefined_breaks_bound :
  exists c, (p ← put (Some 1) "u" None new_cache; q ← put (Some 1) "a" (Some 1%nat) p.1;
             r ← put (Some 1) "b" (Some 2%nat) q.1; Ok r.1) = Ok c /\
    data c = {["a" := 1%nat; "b" := 2%nat]} /\ size c = 1.
Proof. eexists. split; [vm_compute; reflexivity|]. split; [|reflexivity]. vm_compute. reflexivity. Qed.
