(* ===== verification/NgLexer.v ===== *)
(** * NgLexer: the tokens of the framework's expressions

    [Lexer] of [angular.js] (10263-10565).  The text is a string of 8-bit code
    units, read from left to right; a string literal denotes a list of code
    units, since an escape may produce any of them.  A numeral keeps its text:
    the language's [ToNumber] gives its value. *)

From S2P Require Import Prelude Text.

(** ** Tokens *)

(** [token.text]: a piece of the source, or the value of a numeral. *)
Inductive token_text : Type :=
| TText (s : string)
| TNum (raw : string).

(** [token.fn]: an operator or constant of the table, a literal, or the getter
    of a path. *)
Inductive token_fn : Type :=
| FnOp (name : string)
| FnNum (raw : string)
| FnStr (s : list N)
| FnIdent (path : string).

Record token := Token {
  tok_index : nat;
  tok_text : token_text;
  tok_fn : option token_fn;
  tok_string : option (list N);
  tok_literal : bool;
  tok_constant : bool
}.

Definition plain_token (i : nat) (s : string) : token := Token i (TText s) None None false false.

(** angular.js 10263-10301: the keys of [OPERATORS]. *)
Definition word_operators : list string := ["null"; "true"; "false"; "undefined"].
Definition symbol_operators : list string :=
  ["+"; "-"; "*"; "/"; "%"; "^"; "="; "==="; "!=="; "=="; "!="; "<"; ">"; "<="; ">=";
   "&&"; "||"; "&"; "|"; "!"].
Definition is_operator (s : string) : bool := bool_decide (s ∈ word_operators ++ symbol_operators).

(** ** Character classes *)

Definition between (a b c : ascii) : bool :=
  ((N_of_ascii a <=? N_of_ascii c) && (N_of_ascii c <=? N_of_ascii b))%N.

(** angular.js 10386-10400 *)
Definition isNumber (ch : ascii) : bool := between "0" "9" ch.
Definition isWhitespace (ch : ascii) : bool :=
  contains_char ch (String " " (String "013" (String "009" (String "010" (String "011" (String "160" "")))))).
Definition isIdent (ch : ascii) : bool :=
  between "a" "z" ch || between "A" "Z" ch || Ascii.eqb "_" ch || Ascii.eqb ch "$".
(** angular.js 10402-10404 *)
Definition isExpOperator (ch : ascii) : bool := Ascii.eqb ch "-" || Ascii.eqb ch "+" || isNumber ch.

Definition lowercase (ch : ascii) : ascii :=
  if between "A" "Z" ch then ascii_of_N (N_of_ascii ch + 32) else ch.

Definition punctuation (ch : ascii) : bool := contains_char ch "(){}[].,;:?".
Definition is_quote (ch : ascii) : bool := Ascii.eqb ch (ascii_of_N 34) || Ascii.eqb ch "'".

(** [peek()]: the character after the current one. *)
Definition peek1 (rest : string) : option ascii :=
  match rest with String _ (String c _) => Some c | _ => None end.

(** At the end of the text [peek] answers [false], which the comparisons of
    [isNumber] turn into 0: the end counts as a digit. *)
Definition peek_isNumber (c : option ascii) : bool := match c with Some c => isNumber c | None => true end.
Definition peek_isExpOperator (c : option ascii) : bool :=
  match c with Some c => isExpOperator c | None => true end.

Definition holds (p : ascii -> bool) (c : option ascii) : bool := match c with Some c => p c | None => false end.

Fixpoint last_char (s : string) : option ascii :=
  match s with "" => None | String c "" => Some c | String _ s => last_char s end.

(** ** Numerals (angular.js 10415-10448)

    The numeral read so far, the text left and how much was read. *)
Fixpoint number_loop (number : string) (rest : string) : result string (string * string) :=
  match rest with
  | "" => Ok (number, "")
  | String c rest' =>
      let ch := lowercase c in
      if Ascii.eqb ch "." || isNumber ch then number_loop (number +:+ String ch "") rest'
      else
        let peekCh := peek1 rest in
        let after_e := holds (fun l => Ascii.eqb l "e") (last_char number) in
        if Ascii.eqb ch "e" && peek_isExpOperator peekCh then number_loop (number +:+ String ch "") rest'
        else if isExpOperator ch && holds isNumber peekCh && after_e then
          number_loop (number +:+ String ch "") rest'
        else if isExpOperator ch && negb (holds isNumber peekCh) && after_e then
          Err "$parse:lexerr Invalid exponent"
        else Ok (number, rest)
  end.

Definition readNumber (index : nat) (rest : string) : result string (list token * string) :=
  p ← number_loop "" rest;
  Ok ([Token index (TNum p.1) (Some (FnNum p.1)) None true true], p.2).

(** ** Identifiers (angular.js 10450-10522) *)

Definition ident_char (c : ascii) : bool := Ascii.eqb c "." || isIdent c || isNumber c.

Fixpoint take_while (p : ascii -> bool) (s : string) : string * string :=
  match s with
  | "" => ("", "")
  | String c s' => if p c then let '(a, b) := take_while p s' in (String c a, b) else ("", s)
  end.

(** The names [ensureSafeMemberName] refuses (angular.js 10188-10197). *)
Definition unsafe_member (name : string) : bool :=
  bool_decide (name ∈ ["__defineGetter__"; "__defineSetter__"; "__lookupGetter__"; "__lookupSetter__";
                       "__proto__"]).

(** What [getterFn] checks when it is asked for a getter: every key, except
    that under [csp] the keys of a path of six or more are left for later. *)
Definition getter_allowed (csp : bool) (path : string) : bool :=
  let keys := split_char "." path in
  if csp && (6 <=? length keys)%nat then true else negb (existsb unsafe_member keys).

Definition ident_token (csp : bool) (index : nat) (ident : string) : result string token :=
  if bool_decide (ident ∈ word_operators) then
    Ok (Token index (TText ident) (Some (FnOp ident)) None true true)
  else if getter_allowed csp ident then
    Ok (Token index (TText ident) (Some (FnIdent ident)) None false false)
  else Err "$parse:isecfld".

(** The text left after the blanks when a call follows. *)
Definition call_follows (rest : string) : option string :=
  match (take_while isWhitespace rest).2 with
  | String "(" r => Some (String "(" r)
  | _ => None
  end.

Definition readIdent (csp : bool) (index : nat) (rest : string) : result string (list token * string) :=
  let '(ident, after) := take_while ident_char rest in
  match (if contains_char "." ident then before_last "." ident else None), call_follows after with
  | Some owner, Some call =>
      let methodName := after_last "." ident in
      let lastDot := (index + String.length owner)%nat in
      t ← ident_token csp index owner;
      Ok (t :: (if String.eqb methodName "" then []
                else [plain_token lastDot "."; plain_token (S lastDot) methodName]), call)
  | _, _ => t ← ident_token csp index ident; Ok ([t], after)
  end.

(** ** Strings (angular.js 10524-10564) *)

Definition hex_value (c : ascii) : option N :=
  if between "0" "9" c then Some (N_of_ascii c - 48)%N
  else if between "a" "f" c then Some (N_of_ascii c - 87)%N
  else if between "A" "F" c then Some (N_of_ascii c - 55)%N
  else None.

Definition hex4 (a b c d : ascii) : option N :=
  a ← hex_value a; b ← hex_value b; c ← hex_value c; d ← hex_value d;
  Some (((a * 16 + b) * 16 + c) * 16 + d)%N.

(** [ESCAPE[ch] || ch] (10303). *)
Definition escape_char (ch : ascii) : N :=
  if Ascii.eqb ch "n" then 10%N
  else if Ascii.eqb ch "f" then 12%N
  else if Ascii.eqb ch "r" then 13%N
  else if Ascii.eqb ch "t" then 9%N
  else if Ascii.eqb ch "v" then 11%N
  else N_of_ascii ch.

(** The body of a literal after its opening quote: the raw text, the value and
    the rest after the closing quote. *)
Fixpoint string_loop (quote : ascii) (raw : string) (value : list N) (rest : string)
  : result string (string * list N * string) :=
  match rest with
  | "" => Err "$parse:lexerr Unterminated quote"
  | String ch rest' =>
      if Ascii.eqb ch "\" then
        match rest' with
        | "" => Err "$parse:lexerr Unterminated quote"
        | String e rest'' =>
            let raw := raw +:+ String ch (String e "") in
            if Ascii.eqb e "u" then
              match rest'' with
              | String a (String b (String c (String d rest3))) =>
                  match hex4 a b c d with
                  | Some n => string_loop quote raw (value ++ [n]) rest3
                  | None => Err "$parse:lexerr Invalid unicode escape"
                  end
              | _ => Err "$parse:lexerr Invalid unicode escape"
              end
            else string_loop quote raw (value ++ [escape_char e]) rest''
        end
      else if Ascii.eqb ch quote then Ok (raw +:+ String ch "", value, rest')
      else string_loop quote (raw +:+ String ch "") (value ++ [N_of_ascii ch]) rest'
  end.

Definition readString (index : nat) (quote : ascii) (rest : string) : result string (list token * string) :=
  match string_loop quote (String quote "") [] rest with
  | Ok (raw, value, rest) =>
      Ok ([Token index (TText raw) (Some (FnStr value)) (Some value) true true], rest)
  | Err e => Err e
  end.

(** ** Operators (angular.js 10346-10366): the longest of the table wins *)
Definition operator_token (index n : nat) (s : string) : list token :=
  [Token index (TText (String.substring 0 n s)) (Some (FnOp (String.substring 0 n s))) None false false].

Definition readOperator (index : nat) (rest : string) : result string (list token * string) :=
  let cut n := String.substring n (String.length rest) rest in
  let has n := (n <=? String.length rest)%nat && is_operator (String.substring 0 n rest) in
  if has 3%nat then Ok (operator_token index 3 rest, cut 3%nat)
  else if has 2%nat then Ok (operator_token index 2 rest, cut 2%nat)
  else if has 1%nat then Ok (operator_token index 1 rest, cut 1%nat)
  else Err "$parse:lexerr Unexpected next character".

(** ** [Lexer.lex] (angular.js 10319-10371)

    One turn of the loop: the tokens read and the text left. *)
Definition lex_one (csp : bool) (index : nat) (rest : string) : result string (list token * string) :=
  match rest with
  | "" => Ok ([], "")
  | String ch rest' =>
      if is_quote ch then readString index ch rest'
      else if isNumber ch || Ascii.eqb ch "." && peek_isNumber (peek1 rest) then readNumber index rest
      else if isIdent ch then readIdent csp index rest
      else if punctuation ch then Ok ([plain_token index (String ch "")], rest')
      else if isWhitespace ch then Ok ([], rest')
      else readOperator index rest
  end.

Fixpoint lex_from (csp : bool) (fuel index : nat) (rest : string) : result string (list token) :=
  match rest with
  | "" => Ok []
  | _ =>
      match fuel with
      | O => Err "out of fuel"
      | S fuel =>
          p ← lex_one csp index rest;
          ts ← lex_from csp fuel (index + (String.length rest - String.length p.2))%nat p.2;
          Ok (p.1 ++ ts)
      end
  end.

(** Each turn reads at least one character, so the length is fuel enough. *)
Definition lex (csp : bool) (text : string) : result string (list token) :=
  lex_from csp (String.length text) 0 text.

(** ** Lemmas: every turn of the loop reads something *)

Abbreviation len := String.length.

Lemma number_loop_len s number q : number_loop number s = Ok q -> (len q.2 <= len s)%nat.
Proof.
  revert number; induction s as [|c s IH]; intros number H; simpl in H; [by injection H as <-|].
  repeat match type of H with
  | (if ?b then _ else _) = _ => destruct b
  end; try done; try (apply IH in H; simpl; lia); injection H as <-; simpl; lia.
Qed.

Lemma readNumber_len i c s p : isNumber c || Ascii.eqb c "." = true ->
  readNumber i (String c s) = Ok p -> (len p.2 <= len s)%nat.
Proof.
  intros Hc H. unfold readNumber in H. inv_result. subst p. simpl in *.
  assert (Hl : Ascii.eqb (lowercase c) "." || isNumber (lowercase c) = true).
  { clear -Hc. destruct c as [[] [] [] [] [] [] [] []]; vm_compute in Hc |- *; congruence. }
  rewrite Hl in Ha. by eapply number_loop_len.
Qed.

Lemma take_while_len p s : (len (take_while p s).2 <= len s)%nat.
Proof.
  induction s as [|c s IH]; simpl; [done|]. destruct (p c); [|simpl; lia].
  destruct (take_while p s) as [a b]. simpl in *. lia.
Qed.

Lemma call_follows_len s r : call_follows s = Some r -> (len r <= len s)%nat.
Proof.
  unfold call_follows. pose proof (take_while_len isWhitespace s) as Hl.
  destruct (take_while isWhitespace s).2 as [|c r']; [done|].
  destruct c as [[] [] [] [] [] [] [] []]; intros [= <-]; done.
Qed.

Lemma readIdent_len csp i c s p : isIdent c = true ->
  readIdent csp i (String c s) = Ok p -> (len p.2 <= len s)%nat.
Proof.
  intros Hc. unfold readIdent. cbn [take_while]. unfold ident_char at 1. rewrite Hc, orb_true_r. cbn [orb].
  pose proof (take_while_len ident_char s) as Hl. destruct (take_while ident_char s) as [a after].
  cbn [snd] in Hl. intros H.
  destruct (if contains_char _ _ then _ else _) as [owner|]; [destruct (call_follows after) as [call|] eqn:Hcf|];
    inv_result; subst p; cbn [snd]; try lia.
  apply call_follows_len in Hcf. lia.
Qed.

Lemma string_loop_len n : forall q s raw v p, (len s <= n)%nat ->
  string_loop q raw v s = Ok p -> (len p.2 <= len s)%nat.
Proof.
  induction n as [|n IH]; intros q s raw v p Hn H; destruct s as [|c s]; try (simpl in *; done || lia).
  simpl in Hn. cbn [string_loop] in H. destruct (Ascii.eqb c "\").
  - destruct s as [|e s]; [done|]. simpl in Hn. destruct (Ascii.eqb e "u").
    + destruct s as [|a [|b [|d [|f s]]]]; try done. destruct (hex4 a b d f); [|done].
      simpl in Hn. apply IH in H; [simpl; lia|lia].
    + apply IH in H; [simpl; lia|lia].
  - destruct (Ascii.eqb c q); [injection H as <-; simpl; lia|]. apply IH in H; [simpl; lia|lia].
Qed.

Lemma substring_len n m s : (len (String.substring n m s) <= len s - n)%nat.
Proof.
  revert n m; induction s as [|c s IH]; intros [|n] m; simpl.
  - by destruct m.
  - lia.
  - destruct m; simpl; [lia|]. specialize (IH 0%nat m). lia.
  - destruct m; simpl; specialize (IH n); [specialize (IH 0%nat)|specialize (IH (S m))]; lia.
Qed.

Lemma lex_one_len csp i c s p : lex_one csp i (String c s) = Ok p -> (len p.2 <= len s)%nat.
Proof.
  unfold lex_one. destruct (is_quote c).
  { unfold readString. destruct (string_loop _ _ _ _) as [[[raw v] r]|] eqn:Hl; [|done]. intros [= <-].
    by apply (string_loop_len (len s)) in Hl. }
  destruct (isNumber c || _) eqn:Hn.
  { apply readNumber_len. apply orb_true_iff in Hn as [->|[-> _]%andb_true_iff]; [done|by rewrite orb_true_r]. }
  destruct (isIdent c) eqn:Hi; [by apply readIdent_len|].
  destruct (punctuation c); [intros [= <-]; simpl; lia|].
  destruct (isWhitespace c); [intros [= <-]; simpl; lia|].
  unfold readOperator. intros H.
  repeat match type of H with (if ?b then _ else _) = _ => destruct b end; try done; injection H as <-; cbn [snd];
    match goal with |- (len (String.substring ?k ?m ?t) <= _)%nat => pose proof (substring_len k m t) end;
    simpl in *; lia.
Qed.

(** With fuel for every character, more fuel changes nothing. *)
Lemma lex_from_fuel csp f1 f2 i s : (len s <= f1)%nat -> (len s <= f2)%nat ->
  lex_from csp f1 i s = lex_from csp f2 i s.
Proof.
  revert f2 i s; induction f1 as [|f1 IH]; intros [|f2] i [|c s] H1 H2; try (simpl in *; done || lia).
  cbn [lex_from]. destruct (lex_one csp i (String c s)) as [p|e] eqn:Hp; [|done].
  apply lex_one_len in Hp. simpl in H1, H2. cbn [mbind result_bind]. rewrite (IH f2) by lia. done.
Qed.

(** *** Writing a string literal *)

Definition hex_char (n : N) : ascii := ascii_of_N (if (n <? 10)%N then 48 + n else 87 + n).

(** Printable characters that need no escape stand for themselves. *)
Definition plain_unit (n : N) : bool :=
  ((32 <=? n) && (n <? 127) && negb (n =? 39) && negb (n =? 92))%N.

Definition quote_unit (n : N) : string :=
  if plain_unit n then String (ascii_of_N n) ""
  else String "\" (String "u" (String (hex_char (n / 4096)) (String (hex_char (n / 256 mod 16))
         (String (hex_char (n / 16 mod 16)) (String (hex_char (n mod 16)) ""))))).

Fixpoint quote_units (vs : list N) : string :=
  match vs with [] => "'" | v :: vs => quote_unit v +:+ quote_units vs end.

Lemma hex_value_char n : (n < 16)%N -> hex_value (hex_char n) = Some n.
Proof.
  intros Hn. assert (H1 : In n [0;1;2;3;4;5;6;7;8;9;10;11;12;13;14;15]%N) by (simpl; lia).
  simpl in H1. repeat (destruct H1 as [<-|H1]; [reflexivity|]). done.
Qed.

Lemma hex4_unit n : (n < 65536)%N ->
  hex4 (hex_char (n / 4096)) (hex_char (n / 256 mod 16)) (hex_char (n / 16 mod 16)) (hex_char (n mod 16)) = Some n.
Proof.
  intros Hn. unfold hex4.
  assert (H1 : (n / 4096 < 16)%N) by (apply N.Div0.div_lt_upper_bound; lia).
  rewrite !hex_value_char by (done || (apply N.mod_lt; lia)). cbn [mbind option_bind]. f_equal.
  rewrite (N.Div0.div_mod n 16) at 5.
  assert (E1 : (n / 16 = 16 * (n / 16 / 16) + n / 16 mod 16)%N) by apply N.Div0.div_mod.
  assert (E2 : (n / 256 = 16 * (n / 256 / 16) + n / 256 mod 16)%N) by apply N.Div0.div_mod.
  rewrite N.Div0.div_div in E1, E2. change (16 * 16)%N with 256%N in E1. change (256 * 16)%N with 4096%N in E2.
  lia.
Qed.

Lemma string_loop_units vs raw value rest : Forall (fun n => (n < 65536)%N) vs ->
  exists raw', string_loop "'" raw value (quote_units vs +:+ rest) = Ok (raw', value ++ vs, rest).
Proof.
  revert raw value; induction vs as [|v vs IH]; intros raw value Hv; cbn [quote_units].
  { eexists. change ("'" +:+ rest) with (String "'" rest). cbn [string_loop].
    change (Ascii.eqb "'" "\") with false. change (Ascii.eqb "'" "'") with true. cbn iota.
    by rewrite app_nil_r. }
  apply Forall_cons in Hv as [Hn Hv]. rewrite <- string_app_assoc. unfold quote_unit.
  destruct (plain_unit v) eqn:Hp.
  - change (String (ascii_of_N v) "" +:+ ?x) with (String (ascii_of_N v) x). cbn [string_loop].
    unfold plain_unit in Hp. rewrite !andb_true_iff, !negb_true_iff, !N.eqb_neq, N.leb_le, N.ltb_lt in Hp.
    assert (He : N_of_ascii (ascii_of_N v) = v) by (apply N_ascii_embedding; lia).
    destruct (Ascii.eqb_spec (ascii_of_N v) "\") as [Hb|_].
    { rewrite Hb in He. change (N_of_ascii "\") with 92%N in He. lia. }
    destruct (Ascii.eqb_spec (ascii_of_N v) "'") as [Hb|_].
    { rewrite Hb in He. change (N_of_ascii "'") with 39%N in He. lia. }
    rewrite He. destruct (IH (raw +:+ String (ascii_of_N v) "") (value ++ [v]) Hv) as [raw' ->].
    exists raw'. by rewrite <- app_assoc.
  - match goal with |- context [String "\" (String "u" (String ?a (String ?b (String ?c (String ?d "")))))] =>
      change (String "\" (String "u" (String a (String b (String c (String d ""))))) +:+ ?x)
        with (String "\" (String "u" (String a (String b (String c (String d x)))))) end.
    cbn [string_loop]. change (Ascii.eqb "\" "\") with true. change (Ascii.eqb "u" "u") with true. cbn iota.
    rewrite hex4_unit by done.
    destruct (IH (raw +:+ String "\" (String "u" "")) (value ++ [v]) Hv) as [raw' ->].
    exists raw'. by rewrite <- app_assoc.
Qed.

(** ** Properties *)

(** The lexer always ends: every turn of its loop consumes at least one
    character, so the length of the text is fuel enough and more fuel never
    changes the tokens or the error. *)
Theorem lex_terminates csp text extra :
  lex_from csp (String.length text + extra) 0 text = lex csp text.
Proof. apply lex_from_fuel; lia. Qed.

(** Any string can be written as a literal: for every sequence of 16-bit
    code units, the quoted form with its escapes is read as one token whose
    value is that sequence. *)
Theorem lex_string_roundtrip csp vs :
  Forall (fun n => (n < 65536)%N) vs ->
  exists raw, lex csp (String "'" (quote_units vs)) =
    Ok [Token 0 (TText raw) (Some (FnStr vs)) (Some vs) true true].
Proof.
  intros Hv. destruct (string_loop_units vs "'" [] "" Hv) as [raw Hr]. exists raw.
  rewrite string_app_nil_r in Hr. unfold lex. cbn [String.length lex_from lex_one].
  change (is_quote "'") with true. cbn iota. unfold readString. rewrite Hr. cbn [mbind result_bind fst snd app].
  by destruct (len (quote_units vs)).
Qed.

Lemma lex_string_roundtrip_witness :
  exists raw, lex false (String "'" (quote_units [104; 105; 39; 20013]%N)) =
    Ok [Token 0 (TText raw) (Some (FnStr [104; 105; 39; 20013]%N)) (Some [104; 105; 39; 20013]%N) true true].
Proof. apply (lex_string_roundtrip false [104; 105; 39; 20013]%N). repeat constructor. Defined.
