(* ===== verification/NgParser.v ===== *)
(** * NgParser: the framework's expression parser

    [Parser] of [angular.js] (10571-11014).  The closures the parser builds are
    the constructors of [expr], one per closure; what the parser records on
    them ([assign], [literal], [constant]) is computed by functions of the same
    names.  The recursive descent is one mutual [Fixpoint] on fuel, one function
    per method and one per loop. *)

From S2P Require Import Prelude Text NgLexer.

#[local] Set Warnings "-register-all".

(** ** What the parser builds *)

Inductive expr : Type :=
| ETok (f : token_fn)                       (** a token's own function *)
| EZero                                     (** [Parser.ZERO] *)
| EUnary (op : string) (right : expr)
| EBinary (op : string) (left right : expr)
| ETernary (left middle right : expr)
| EFilter (name : string) (args : list expr)
| EAssign (left right : expr)
| ECall (fn : expr) (context : option expr) (args : list expr)
| EIndex (obj index : expr)
| EField (obj : expr) (field : string)
| EArray (elements : list expr)
| EObject (fields : list (list N * expr))
| EStatements (ss : list expr).

(** Whether the closure has an [assign]: paths (10503-10507), fields and
    indices. *)
Definition assignable (e : expr) : bool :=
  match e with ETok (FnIdent _) | EField _ _ | EIndex _ _ => true | _ => false end.

(** The attribute [literal] of the parsed expression. *)
Definition literal (e : expr) : bool :=
  match e with
  | ETok (FnOp name) => bool_decide (name ∈ word_operators)
  | ETok (FnNum _) | ETok (FnStr _) => true
  | EArray _ | EObject _ => true
  | _ => false
  end.

(** The attribute [constant]. *)
Fixpoint constant (e : expr) : bool :=
  match e with
  | ETok (FnOp name) => bool_decide (name ∈ word_operators)
  | ETok (FnNum _) | ETok (FnStr _) => true
  | ETok (FnIdent _) => false
  | EZero => true
  | EUnary _ r => constant r
  | EBinary _ l r => constant l && constant r
  | ETernary l m r => constant l && constant m && constant r
  | EArray es => forallb constant es
  | EObject fs => forallb (fun f => constant f.2) fs
  | EFilter _ _ | EAssign _ _ | ECall _ _ _ | EIndex _ _ | EField _ _ | EStatements _ => false
  end.

(** ** Reading tokens (angular.js 10640-10677) *)

Abbreviation tokens := (list token).
Abbreviation M A := (result string (A * tokens)).

Definition text_is (s : string) (t : token) : bool :=
  match tok_text t with TText s' => String.eqb s' s | TNum _ => false end.

Definition text_in (ss : list string) (t : token) : bool := existsb (fun s => text_is s t) ss.

Definition syntax_error {A} : result string A := Err "$parse:syntax".
Definition out_of_fuel {A} : result string A := Err "out of fuel".
Definition end_error {A} : result string A := Err "$parse:ueoe".

(** [expect(e1, ...)]: the token and the rest when it is one of those. *)
Definition expect (ss : list string) (ts : tokens) : option (token * tokens) :=
  match ts with
  | t :: ts => if text_in ss t then Some (t, ts) else None
  | [] => None
  end.

Definition consume (s : string) (ts : tokens) : result string tokens :=
  match expect [s] ts with Some (_, ts) => Ok ts | None => syntax_error end.

(** [peekToken().text]. *)
Definition peek_is (s : string) (ts : tokens) : result string bool :=
  match ts with [] => end_error | t :: _ => Ok (text_is s t) end.

Definition at_text (ss : list string) (ts : tokens) : bool :=
  match ts with t :: _ => text_in ss t | [] => false end.

(** The operator a token stands for: [token.fn] of an operator token. *)
Definition op_of (t : token) : string := match tok_text t with TText s => s | TNum r => r end.

(** [token.string || token.text] as a property name. *)
Definition codes (s : string) : list N := map N_of_ascii (String.list_ascii_of_string s).

Section Parse.
(** The registered filters, the options, and [String(1 * raw)]. *)
Context (known_filter : string -> bool) (csp : bool) (num_text : string -> string).

Definition key_of (t : token) : list N :=
  match tok_string t with
  | Some (v :: vs) => v :: vs
  | _ => match tok_text t with TText s => codes s | TNum raw => codes (num_text raw) end
  end.

Definition field_text (t : token) : option string :=
  match tok_text t with TText s => Some s | TNum _ => None end.

(** [statements] returns its only statement, or the sequence. *)
Definition finish_statements (ss : list expr) : expr :=
  match ss with [e] => e | _ => EStatements ss end.

(** The methods an expression parser calls on [this]. *)
Record parser := Parser {
  p_filterChain : tokens -> M expr;
  p_filterChain_loop : expr -> tokens -> M expr;
  p_filter : tokens -> M expr;
  p_filter_args : string -> (list expr) -> tokens -> M expr;
  p_assignment : tokens -> M expr;
  p_ternary : tokens -> M expr;
  p_logicalOR : tokens -> M expr;
  p_logicalOR_loop : expr -> tokens -> M expr;
  p_logicalAND : tokens -> M expr;
  p_equality : tokens -> M expr;
  p_relational : tokens -> M expr;
  p_additive : tokens -> M expr;
  p_additive_loop : expr -> tokens -> M expr;
  p_multiplicative : tokens -> M expr;
  p_multiplicative_loop : expr -> tokens -> M expr;
  p_unary : tokens -> M expr;
  p_primary : tokens -> M expr;
  p_suffixes : expr -> (option expr) -> tokens -> M expr;
  p_arguments : (list expr) -> tokens -> M (list expr);
  p_elements : (list expr) -> tokens -> M (list expr);
  p_fields : (list (list N * expr)) -> tokens -> M (list (list N * expr))
}.

Definition filterChain (this : parser) (ts : tokens) : M expr :=
  p ← p_assignment this ts; p_filterChain_loop this p.1 p.2.

Definition filterChain_loop (this : parser) (left : expr) (ts : tokens) : M expr :=
  match expect ["|"] ts with
  | Some (_, ts) => p ← p_filter this ts; p_filterChain_loop this (EBinary "|" left p.1) p.2
  | None => Ok (left, ts)
  end.

Definition filter (this : parser) (ts : tokens) : M expr :=
  match ts with
  | [] => Err "$injector:unpr"
  | t :: ts =>
      match field_text t with
      | Some name => if known_filter name then p_filter_args this name [] ts else Err "$injector:unpr"
      | None => Err "$injector:unpr"
      end
  end.

Definition filter_args (this : parser) (name : string) (args : list expr) (ts : tokens) : M expr :=
  match expect [":"] ts with
  | Some (_, ts) => p ← p_assignment this ts; p_filter_args this name (args ++ [p.1]) p.2
  | None => Ok (EFilter name args, ts)
  end.

Definition assignment (this : parser) (ts : tokens) : M expr :=
  p ← p_ternary this ts;
  match expect ["="] p.2 with
  | Some (_, ts) =>
      if assignable p.1 then q ← p_ternary this ts; Ok (EAssign p.1 q.1, q.2)
      else syntax_error
  | None => Ok p
  end.

Definition ternary (this : parser) (ts : tokens) : M expr :=
  p ← p_logicalOR this ts;
  match expect ["?"] p.2 with
  | Some (_, ts) =>
      m ← p_assignment this ts;
      match expect [":"] m.2 with
      | Some (_, ts) => r ← p_assignment this ts; Ok (ETernary p.1 m.1 r.1, r.2)
      | None => syntax_error
      end
  | None => Ok p
  end.

Definition logicalOR (this : parser) (ts : tokens) : M expr :=
  p ← p_logicalAND this ts; p_logicalOR_loop this p.1 p.2.

Definition logicalOR_loop (this : parser) (left : expr) (ts : tokens) : M expr :=
  match expect ["||"] ts with
  | Some (t, ts) => p ← p_logicalAND this ts; p_logicalOR_loop this (EBinary (op_of t) left p.1) p.2
  | None => Ok (left, ts)
  end.

Definition logicalAND (this : parser) (ts : tokens) : M expr :=
  p ← p_equality this ts;
  match expect ["&&"] p.2 with
  | Some (t, ts) => q ← p_logicalAND this ts; Ok (EBinary (op_of t) p.1 q.1, q.2)
  | None => Ok p
  end.

Definition equality (this : parser) (ts : tokens) : M expr :=
  p ← p_relational this ts;
  match expect ["=="; "!="; "==="; "!=="] p.2 with
  | Some (t, ts) => q ← p_equality this ts; Ok (EBinary (op_of t) p.1 q.1, q.2)
  | None => Ok p
  end.

Definition relational (this : parser) (ts : tokens) : M expr :=
  p ← p_additive this ts;
  match expect ["<"; ">"; "<="; ">="] p.2 with
  | Some (t, ts) => q ← p_relational this ts; Ok (EBinary (op_of t) p.1 q.1, q.2)
  | None => Ok p
  end.

Definition additive (this : parser) (ts : tokens) : M expr :=
  p ← p_multiplicative this ts; p_additive_loop this p.1 p.2.

Definition additive_loop (this : parser) (left : expr) (ts : tokens) : M expr :=
  match expect ["+"; "-"] ts with
  | Some (t, ts) => p ← p_multiplicative this ts; p_additive_loop this (EBinary (op_of t) left p.1) p.2
  | None => Ok (left, ts)
  end.

Definition multiplicative (this : parser) (ts : tokens) : M expr :=
  p ← p_unary this ts; p_multiplicative_loop this p.1 p.2.

Definition multiplicative_loop (this : parser) (left : expr) (ts : tokens) : M expr :=
  match expect ["*"; "/"; "%"] ts with
  | Some (t, ts) => p ← p_unary this ts; p_multiplicative_loop this (EBinary (op_of t) left p.1) p.2
  | None => Ok (left, ts)
  end.

Definition unary (this : parser) (ts : tokens) : M expr :=
  match expect ["+"] ts with
  | Some (_, ts) => p_primary this ts
  | None =>
      match expect ["-"] ts with
      | Some (t, ts) => p ← p_unary this ts; Ok (EBinary (op_of t) EZero p.1, p.2)
      | None =>
          match expect ["!"] ts with
          | Some (t, ts) => p ← p_unary this ts; Ok (EUnary (op_of t) p.1, p.2)
          | None => p_primary this ts
          end
      end
  end.

Definition primary (this : parser) (ts : tokens) : M expr :=
  match ts with
  | [] => syntax_error
  | t :: ts' =>
      p ← (if text_is "(" t then
             p ← p_filterChain this ts'; ts ← consume ")" p.2; Ok (p.1, ts)
           else if text_is "[" t then
             b ← peek_is "]" ts';
             p ← (if b : bool then Ok ([], ts') else p_elements this [] ts');
             ts ← consume "]" p.2; Ok (EArray p.1, ts)
           else if text_is "{" t then
             b ← peek_is "}" ts';
             p ← (if b : bool then Ok ([], ts') else p_fields this [] ts');
             ts ← consume "}" p.2; Ok (EObject p.1, ts)
           else match tok_fn t with
                | Some f => Ok (ETok f, ts')
                | None => syntax_error
                end);
      p_suffixes this p.1 None p.2
  end.

Definition suffixes (this : parser) (e : expr) (context : option expr) (ts : tokens) : M expr :=
  match expect ["("; "["; "."] ts with
  | None => Ok (e, ts)
  | Some (t, ts) =>
      if text_is "(" t then
        b ← peek_is ")" ts;
        p ← (if b : bool then Ok ([], ts) else p_arguments this [] ts);
        ts ← consume ")" p.2;
        p_suffixes this (ECall e context p.1) None ts
      else if text_is "[" t then
        p ← p_assignment this ts;
        ts ← consume "]" p.2;
        p_suffixes this (EIndex e p.1) (Some e) ts
      else
        match ts with
        | [] => Err "TypeError"
        | t :: ts =>
            match field_text t with
            | Some field =>
                if getter_allowed csp field then p_suffixes this (EField e field) (Some e) ts
                else Err "$parse:isecfld"
            | None => Err "TypeError"
            end
        end
  end.

Definition arguments (this : parser) (args : list expr) (ts : tokens) : M (list expr) :=
  p ← p_assignment this ts;
  match expect [","] p.2 with
  | Some (_, ts) => p_arguments this (args ++ [p.1]) ts
  | None => Ok (args ++ [p.1], p.2)
  end.

Definition elements (this : parser) (es : list expr) (ts : tokens) : M (list expr) :=
  if at_text ["]"] ts then Ok (es, ts)
  else
    p ← p_assignment this ts;
    match expect [","] p.2 with
    | Some (_, ts) => p_elements this (es ++ [p.1]) ts
    | None => Ok (es ++ [p.1], p.2)
    end.

Definition fields (this : parser) (fs : list (list N * expr)) (ts : tokens) : M (list (list N * expr)) :=
  if at_text ["}"] ts then Ok (fs, ts)
  else
    match ts with
    | [] => syntax_error
    | t :: ts =>
        ts ← consume ":" ts;
        p ← p_assignment this ts;
        match expect [","] p.2 with
        | Some (_, ts) => p_fields this (fs ++ [(key_of t, p.1)]) ts
        | None => Ok (fs ++ [(key_of t, p.1)], p.2)
        end
    end.

(** [this] with [n] nested calls left. *)
Fixpoint parser_at (n : nat) : parser :=
  match n with
  | O => Parser (fun _ => out_of_fuel) (fun _ _ => out_of_fuel) (fun _ => out_of_fuel) (fun _ _ _ => out_of_fuel) (fun _ => out_of_fuel) (fun _ => out_of_fuel) (fun _ => out_of_fuel) (fun _ _ => out_of_fuel) (fun _ => out_of_fuel) (fun _ => out_of_fuel) (fun _ => out_of_fuel) (fun _ => out_of_fuel) (fun _ _ => out_of_fuel) (fun _ => out_of_fuel) (fun _ _ => out_of_fuel) (fun _ => out_of_fuel) (fun _ => out_of_fuel) (fun _ _ _ => out_of_fuel) (fun _ _ => out_of_fuel) (fun _ _ => out_of_fuel) (fun _ _ => out_of_fuel)
  | S n => let this := parser_at n in
      Parser (filterChain this) (filterChain_loop this) (filter this) (filter_args this) (assignment this) (ternary this) (logicalOR this) (logicalOR_loop this) (logicalAND this) (equality this) (relational this) (additive this) (additive_loop this) (multiplicative this) (multiplicative_loop this) (unary this) (primary this) (suffixes this) (arguments this) (elements this) (fields this)
  end.

Fixpoint statements_loop (fuel : nat) (ss : list expr) (ts : tokens) : M expr :=
  match fuel with
  | O => Err "out of fuel"
  | S fuel =>
      p ← (if negb (bool_decide (ts = [])) && negb (at_text ["}"; ")"; ";"; "]"] ts)
           then p ← p_filterChain (parser_at fuel) ts; Ok (ss ++ [p.1], p.2)
           else Ok (ss, ts));
      match expect [";"] p.2 with
      | Some (_, ts) => statements_loop fuel p.1 ts
      | None => Ok (finish_statements p.1, p.2)
      end
  end.

(** [Parser.parse] (angular.js 10586-10601) on the tokens of the lexer. *)
Definition parse_tokens (fuel : nat) (ts : tokens) : result string expr :=
  p ← statements_loop fuel [] ts;
  match p.2 with [] => Ok p.1 | _ => syntax_error end.

Definition parse (fuel : nat) (text : string) : result string expr :=
  ts ← lex csp text; parse_tokens fuel ts.

(** ** Lemmas: the parser ends

    A call either passes fewer tokens or goes to a method of lower rank. *)

(** A result that is not the lack of fuel and leaves at most [n] tokens. *)
Definition fine {A} (n : nat) (r : M A) : Prop :=
  r <> out_of_fuel /\ forall v, r = Ok v -> (length v.2 <= n)%nat.

Lemma fine_ok {A} n (v : A * tokens) : (length v.2 <= n)%nat -> fine n (Ok v).
Proof. intros H. split; [done|]. by intros w [= <-]. Qed.

Lemma fine_err {A} n e : e <> "out of fuel" -> fine (A := A) n (Err e).
Proof. intros H. split; [|done]. unfold out_of_fuel. congruence. Qed.

Lemma fine_bind {A B} n m (r : M A) (f : A * tokens -> M B) :
  fine n r -> (forall v, (length v.2 <= n)%nat -> fine m (f v)) -> fine m (r ≫= f).
Proof.
  intros [Hr Hv] Hf. destruct r as [v|e]; simpl; [by apply Hf, Hv|].
  split; [|done]. intros [= ->]. by apply Hr.
Qed.

Lemma fine_weaken {A} n m (r : M A) : (n <= m)%nat -> fine n r -> fine m r.
Proof. intros Hnm [Hr Hv]. split; [done|]. intros v Hr'. specialize (Hv v Hr'). lia. Qed.

Lemma expect_len ss ts t ts' : expect ss ts = Some (t, ts') -> (length ts = S (length ts'))%nat.
Proof. destruct ts as [|t0 ts]; simpl; [done|]. destruct (text_in ss t0); [|done]. by intros [= -> ->]. Qed.

Lemma fine_consume {A} s n ts (f : tokens -> M A) :
  (forall ts', length ts = S (length ts') -> fine n (f ts')) -> fine n (consume s ts ≫= f).
Proof.
  intros Hf. unfold consume. destruct (expect [s] ts) as [[t ts']|] eqn:He; simpl; [|by apply fine_err].
  apply expect_len in He. by apply Hf.
Qed.

Lemma fine_peek {A} s n ts (f : bool -> M A) : (forall b, fine n (f b)) -> fine n (peek_is s ts ≫= f).
Proof. intros Hf. unfold peek_is. destruct ts; simpl; [by apply fine_err|apply Hf]. Qed.

(** [ok_from n k m]: with [n] calls left, a method of rank [k] is fine on any
    tokens it has fuel for; it keeps at most the tokens it got. *)
Definition ok_from {A} (n k : nat) (m : tokens -> M A) : Prop :=
  forall ts, (22 * length ts + k < n)%nat -> fine (length ts) (m ts).

Record all_ok (n : nat) (this : parser) : Prop := AllOk {
  ok_filterChain : ok_from n 20 (p_filterChain this);
  ok_filterChain_loop : forall e, ok_from n 0 (p_filterChain_loop this e);
  ok_filter : ok_from n 1 (p_filter this);
  ok_filter_args : forall s es, ok_from n 0 (p_filter_args this s es);
  ok_assignment : ok_from n 19 (p_assignment this);
  ok_ternary : ok_from n 18 (p_ternary this);
  ok_logicalOR : ok_from n 17 (p_logicalOR this);
  ok_logicalOR_loop : forall e, ok_from n 0 (p_logicalOR_loop this e);
  ok_logicalAND : ok_from n 16 (p_logicalAND this);
  ok_equality : ok_from n 15 (p_equality this);
  ok_relational : ok_from n 14 (p_relational this);
  ok_additive : ok_from n 13 (p_additive this);
  ok_additive_loop : forall e, ok_from n 0 (p_additive_loop this e);
  ok_multiplicative : ok_from n 12 (p_multiplicative this);
  ok_multiplicative_loop : forall e, ok_from n 0 (p_multiplicative_loop this e);
  ok_unary : ok_from n 11 (p_unary this);
  ok_primary : ok_from n 10 (p_primary this);
  ok_suffixes : forall e c, ok_from n 0 (p_suffixes this e c);
  ok_arguments : forall es, ok_from n 20 (p_arguments this es);
  ok_elements : forall es, ok_from n 20 (p_elements this es);
  ok_fields : forall fs, ok_from n 20 (p_fields this fs)
}.

(** One step of the descent: bind a call the hypothesis covers, look at a
    token, return. *)
Ltac call_ok H :=
  first [ apply (ok_filterChain _ _ H) | apply (ok_filterChain_loop _ _ H) | apply (ok_filter _ _ H)
        | apply (ok_filter_args _ _ H) | apply (ok_assignment _ _ H) | apply (ok_ternary _ _ H)
        | apply (ok_logicalOR _ _ H) | apply (ok_logicalOR_loop _ _ H) | apply (ok_logicalAND _ _ H)
        | apply (ok_equality _ _ H) | apply (ok_relational _ _ H) | apply (ok_additive _ _ H)
        | apply (ok_additive_loop _ _ H) | apply (ok_multiplicative _ _ H)
        | apply (ok_multiplicative_loop _ _ H) | apply (ok_unary _ _ H) | apply (ok_primary _ _ H)
        | apply (ok_suffixes _ _ H) | apply (ok_arguments _ _ H) | apply (ok_elements _ _ H)
        | apply (ok_fields _ _ H) ].

Ltac expect_case :=
  match goal with
  | |- context [expect ?ss ?ts] =>
      let He := fresh "He" in destruct (expect ss ts) as [[? ?]|] eqn:He; [apply expect_len in He|]
  end.

Ltac descend H :=
  repeat first
    [ progress cbn beta iota
    | done
    | apply fine_ok; simpl in *; lia
    | apply fine_err; discriminate
    | expect_case
    | apply fine_consume; intros ? ?
    | apply fine_peek; intros []
    | match goal with |- fine _ (match ?b with true => _ | false => _ end) => destruct b eqn:? end
    | match goal with |- fine _ (match ?o with Some _ => _ | None => _ end) => destruct o eqn:? end
    | match goal with |- fine _ (match ?l with [] => _ | _ => _ end) => destruct l eqn:?; subst end
    | eapply fine_bind; [solve [call_ok H; simpl in *; lia]|intros ? ?]
    | eapply fine_weaken; [|solve [call_ok H; simpl in *; lia]]; simpl in *; lia ].

Lemma bracket_ok {A B} n k (b : bool) (x : A) ts (m : tokens -> M A) (f : A * tokens -> M B) bound :
  ok_from n k m -> (22 * length ts + k < n)%nat ->
  (forall v, (length v.2 <= length ts)%nat -> fine bound (f v)) ->
  fine bound ((if b then Ok (x, ts) else m ts) ≫= f).
Proof.
  intros Hm Hk Hf. eapply fine_bind; [|exact Hf]. destruct b; [by apply fine_ok|by apply Hm].
Qed.

Lemma suffixes_ok n e c : all_ok n (parser_at n) -> ok_from (S n) 0 (suffixes (parser_at n) e c).
Proof.
  intros H ts Hf. unfold suffixes, syntax_error. expect_case; [|by apply fine_ok].
  destruct (text_is "(" t).
  - apply fine_peek. intros b. eapply (bracket_ok n 20); [apply (ok_arguments _ _ H)|lia|].
    intros v Hv. apply fine_consume. intros ts' Ht.
    eapply fine_weaken; [|apply (ok_suffixes _ _ H)]; lia.
  - descend H.
Qed.

Lemma primary_ok n : all_ok n (parser_at n) -> ok_from (S n) 10 (primary (parser_at n)).
Proof.
  intros H ts Hf. unfold primary, syntax_error. destruct ts as [|t ts]; [by apply fine_err|].
  cbn [length] in Hf |- *. apply (fine_bind (length ts)).
  2:{ intros v Hv. eapply fine_weaken; [|apply (ok_suffixes _ _ H)]; lia. }
  destruct (text_is "(" t); [descend H|].
  destruct (text_is "[" t).
  { apply fine_peek. intros b. eapply (bracket_ok n 20); [apply (ok_elements _ _ H)|lia|]. intros v Hv.
    apply fine_consume. intros ts' Ht. apply fine_ok. simpl. lia. }
  destruct (text_is "{" t).
  { apply fine_peek. intros b. eapply (bracket_ok n 20); [apply (ok_fields _ _ H)|lia|]. intros v Hv.
    apply fine_consume. intros ts' Ht. apply fine_ok. simpl. lia. }
  descend H.
Qed.

Lemma step_ok n : all_ok n (parser_at n) -> all_ok (S n) (parser_at (S n)).
Proof.
  intros H. constructor; try (intros; by apply suffixes_ok); try (by apply primary_ok);
    unfold ok_from; simpl; intros;
    unfold filterChain, filterChain_loop, filter, filter_args, assignment, ternary, logicalOR,
      logicalOR_loop, logicalAND, equality, relational, additive, additive_loop, multiplicative,
      multiplicative_loop, unary, arguments, elements, fields, syntax_error, end_error; descend H.
Qed.

Lemma parser_ok n : all_ok n (parser_at n).
Proof.
  induction n as [|n IH]; [|by apply step_ok]. constructor; unfold ok_from; intros; lia.
Qed.

Lemma statements_ok fuel : forall ss ts, (22 * length ts + 21 < fuel)%nat ->
  statements_loop fuel ss ts <> out_of_fuel.
Proof.
  induction fuel as [|fuel IH]; intros ss ts Hf; [lia|]. cbn [statements_loop].
  assert (Hone : forall v, (length v.2 <= length ts)%nat ->
    match expect [";"] v.2 with
    | Some (_, ts) => statements_loop fuel v.1 ts
    | None => Ok (finish_statements v.1, v.2)
    end <> out_of_fuel).
  { intros v Hv. expect_case; [|done]. apply IH. lia. }
  destruct (_ && _); [|by apply Hone].
  destruct (ok_filterChain _ _ (parser_ok fuel) ts) as [Hr Hv]; [lia|].
  destruct (p_filterChain (parser_at fuel) ts) as [v|e]; simpl; [|unfold out_of_fuel in *; congruence].
  apply (Hone (ss ++ [v.1], v.2)), Hv. done.
Qed.
End Parse.

(** ** Printing: every compound operand in parentheses *)

Section ExprInd.
Context (P : expr -> Prop).
Context (HTok : forall f, P (ETok f)) (HZero : P EZero).
Context (HUnary : forall op r, P r -> P (EUnary op r)).
Context (HBinary : forall op l r, P l -> P r -> P (EBinary op l r)).
Context (HTernary : forall l m r, P l -> P m -> P r -> P (ETernary l m r)).
Context (HFilter : forall name args, Forall P args -> P (EFilter name args)).
Context (HAssign : forall l r, P l -> P r -> P (EAssign l r)).
Context (HCall : forall fn c args, P fn -> Forall P args -> P (ECall fn c args)).
Context (HIndex : forall o i, P o -> P i -> P (EIndex o i)).
Context (HField : forall o f, P o -> P (EField o f)).
Context (HArray : forall es, Forall P es -> P (EArray es)).
Context (HObject : forall fs, P (EObject fs)).
Context (HStatements : forall ss, P (EStatements ss)).

Fixpoint expr_ind' (e : expr) : P e :=
  let fix all (es : list expr) : Forall P es :=
    match es with [] => Forall_nil_2 _ | e :: es => Forall_cons_2 _ _ _ (expr_ind' e) (all es) end in
  match e with
  | ETok f => HTok f
  | EZero => HZero
  | EUnary op r => HUnary op r (expr_ind' r)
  | EBinary op l r => HBinary op l r (expr_ind' l) (expr_ind' r)
  | ETernary l m r => HTernary l m r (expr_ind' l) (expr_ind' m) (expr_ind' r)
  | EFilter name args => HFilter name args (all args)
  | EAssign l r => HAssign l r (expr_ind' l) (expr_ind' r)
  | ECall fn c args => HCall fn c args (expr_ind' fn) (all args)
  | EIndex o i => HIndex o i (expr_ind' o) (expr_ind' i)
  | EField o f => HField o f (expr_ind' o)
  | EArray es => HArray es (all es)
  | EObject fs => HObject fs
  | EStatements ss => HStatements ss
  end.
End ExprInd.

(** The token of a symbol, and of a literal or path. *)
Definition sym (s : string) : token :=
  Token 0 (TText s) (if is_operator s then Some (FnOp s) else None) None false false.

Definition atom (f : token_fn) : token :=
  match f with
  | FnOp name => Token 0 (TText name) (Some f) None true true
  | FnNum raw => Token 0 (TNum raw) (Some f) None true true
  | FnStr vs => Token 0 (TText "''") (Some f) (Some vs) true true
  | FnIdent path => Token 0 (TText path) (Some f) None false false
  end.

Fixpoint commas (tss : list (list token)) : list token :=
  match tss with [] => [] | [ts] => ts | ts :: tss => ts ++ sym "," :: commas tss end.

Fixpoint print (e : expr) : list token :=
  match e with
  | ETok f => [atom f]
  | EZero | EFilter _ _ | EObject _ | EStatements _ => []
  | EUnary op r => sym "(" :: sym op :: print r ++ [sym ")"]
  | EBinary op EZero r => sym "(" :: sym op :: print r ++ [sym ")"]
  | EBinary op l r => sym "(" :: print l ++ sym op :: print r ++ [sym ")"]
  | ETernary l m r => sym "(" :: print l ++ sym "?" :: print m ++ sym ":" :: print r ++ [sym ")"]
  | EAssign l r => sym "(" :: print l ++ sym "=" :: print r ++ [sym ")"]
  | ECall fn _ args => print fn ++ sym "(" :: commas (map print args) ++ [sym ")"]
  | EIndex o i => print o ++ sym "[" :: print i ++ [sym "]"]
  | EField o f => print o ++ [sym "."; plain_token 0 f]
  | EArray es => sym "[" :: commas (map print es) ++ [sym "]"]
  end.

Definition mul_ops : list string := ["*"; "/"; "%"].
Definition add_ops : list string := ["+"; "-"].
Definition rel_ops : list string := ["<"; ">"; "<="; ">="].
Definition eq_ops : list string := ["=="; "!="; "==="; "!=="].
Definition binary_ops : list string := mul_ops ++ add_ops ++ rel_ops ++ eq_ops ++ ["&&"; "||"].

Definition is_zero (e : expr) : bool := match e with EZero => true | _ => false end.

(** A path that the lexer would read as one identifier and not as a symbol. *)
Definition plain_path (p : string) : bool :=
  match p with String c _ => isIdent c | "" => false end.

(** The receiver the parser records for a call. *)
Definition context_of (fn : expr) : option expr :=
  match fn with EIndex o _ | EField o _ => Some o | _ => None end.

(** The expressions the printer covers. *)
Fixpoint printable (csp : bool) (e : expr) : Prop :=
  let fix all (es : list expr) : Prop :=
    match es with [] => True | e :: es => printable csp e /\ all es end in
  match e with
  | ETok (FnOp name) => name ∈ word_operators
  | ETok (FnIdent p) => plain_path p = true
  | ETok _ => True
  | EZero | EFilter _ _ | EObject _ | EStatements _ => False
  | EUnary op r => op = "!" /\ printable csp r
  | EBinary op l r =>
      (if is_zero l then op = "-" else op ∈ binary_ops /\ printable csp l) /\ printable csp r
  | ETernary l m r => printable csp l /\ printable csp m /\ printable csp r
  | EAssign l r => assignable l = true /\ printable csp l /\ printable csp r
  | ECall fn c args => printable csp fn /\ all args /\ c = context_of fn
  | EIndex o i => printable csp o /\ printable csp i
  | EField o f => printable csp o /\ getter_allowed csp f = true
  | EArray es => all es
  end.

Section Yields.
Context (known_filter : string -> bool) (csp : bool) (num_text : string -> string).
Local Abbreviation P := (parser_at known_filter csp num_text).

(** With at least [N] calls left, the method reads [ts] as [e] and stops there. *)
Definition yields (m : parser -> tokens -> M expr) (N : nat) (ts : tokens) (e : expr) (rest : tokens) : Prop :=
  forall n, (N <= n)%nat -> m (P n) (ts ++ rest) = Ok (e, rest).

Definition all_ops : list (list string) :=
  [["|"]; ["="]; ["?"]; ["||"]; ["&&"]; eq_ops; rel_ops; add_ops; mul_ops; ["("; "["; "."]].

(** What may follow a complete expression. *)
Definition closed (rest : tokens) : Prop := Forall (fun ss => expect ss rest = None) all_ops.

Definition unary_free (ts : tokens) : Prop :=
  expect ["+"] ts = None /\ expect ["-"] ts = None /\ expect ["!"] ts = None.

Ltac enter n := let Hn := fresh "Hn" in intros n Hn; destruct n as [|n]; [lia|]; cbn [parser_at];
  unfold mul_ops, add_ops, rel_ops, eq_ops in *.
Ltac next := cbn [mbind result_bind fst snd].

Lemma y_unary N ts e rest : yields p_primary N ts e rest -> unary_free (ts ++ rest) ->
  yields p_unary (S N) ts e rest.
Proof.
  intros H (H1 & H2 & H3). enter n. cbn [p_unary]. unfold unary. rewrite H1, H2, H3. apply H. lia.
Qed.

Lemma y_mul N ts e rest : yields p_unary (S N) ts e rest -> expect mul_ops rest = None ->
  yields p_multiplicative (S (S N)) ts e rest.
Proof.
  intros H Hr. enter n. cbn [p_multiplicative]. unfold multiplicative. rewrite H by lia. next.
  destruct n as [|n]; [lia|]. cbn [parser_at p_multiplicative_loop]. unfold multiplicative_loop. by rewrite Hr.
Qed.

Lemma y_add N ts e rest : yields p_multiplicative (S N) ts e rest -> expect add_ops rest = None ->
  yields p_additive (S (S N)) ts e rest.
Proof.
  intros H Hr. enter n. cbn [p_additive]. unfold additive. rewrite H by lia. next.
  destruct n as [|n]; [lia|]. cbn [parser_at p_additive_loop]. unfold additive_loop. by rewrite Hr.
Qed.

Lemma y_rel N ts e rest : yields p_additive N ts e rest -> expect rel_ops rest = None ->
  yields p_relational (S N) ts e rest.
Proof. intros H Hr. enter n. cbn [p_relational]. unfold relational. rewrite H by lia. next. by rewrite Hr. Qed.

Lemma y_eq N ts e rest : yields p_relational N ts e rest -> expect eq_ops rest = None ->
  yields p_equality (S N) ts e rest.
Proof. intros H Hr. enter n. cbn [p_equality]. unfold equality. rewrite H by lia. next. by rewrite Hr. Qed.

Lemma y_and N ts e rest : yields p_equality N ts e rest -> expect ["&&"] rest = None ->
  yields p_logicalAND (S N) ts e rest.
Proof. intros H Hr. enter n. cbn [p_logicalAND]. unfold logicalAND. rewrite H by lia. next. by rewrite Hr. Qed.

Lemma y_or N ts e rest : yields p_logicalAND (S N) ts e rest -> expect ["||"] rest = None ->
  yields p_logicalOR (S (S N)) ts e rest.
Proof.
  intros H Hr. enter n. cbn [p_logicalOR]. unfold logicalOR. rewrite H by lia. next.
  destruct n as [|n]; [lia|]. cbn [parser_at p_logicalOR_loop]. unfold logicalOR_loop. by rewrite Hr.
Qed.

Lemma y_ternary N ts e rest : yields p_logicalOR N ts e rest -> expect ["?"] rest = None ->
  yields p_ternary (S N) ts e rest.
Proof. intros H Hr. enter n. cbn [p_ternary]. unfold ternary. rewrite H by lia. next. by rewrite Hr. Qed.

Lemma y_assignment N ts e rest : yields p_ternary N ts e rest -> expect ["="] rest = None ->
  yields p_assignment (S N) ts e rest.
Proof. intros H Hr. enter n. cbn [p_assignment]. unfold assignment. rewrite H by lia. next. by rewrite Hr. Qed.

Lemma y_filterChain N ts e rest : yields p_assignment (S N) ts e rest -> expect ["|"] rest = None ->
  yields p_filterChain (S (S N)) ts e rest.
Proof.
  intros H Hr. enter n. cbn [p_filterChain]. unfold filterChain. rewrite H by lia. next.
  destruct n as [|n]; [lia|]. cbn [parser_at p_filterChain_loop]. unfold filterChain_loop. by rewrite Hr.
Qed.

(** Operators. *)
Lemma y_mul_op N tsl l tsr r rest t : text_in mul_ops t = true ->
  yields p_unary (S N) tsl l (t :: tsr ++ rest) -> yields p_unary (S N) tsr r rest ->
  expect mul_ops rest = None ->
  yields p_multiplicative (S (S (S N))) (tsl ++ t :: tsr) (EBinary (op_of t) l r) rest.
Proof.
  intros Ht Hl Hr He. enter n. cbn [p_multiplicative]. unfold multiplicative.
  rewrite <- app_assoc. cbn [app]. rewrite Hl by lia. next.
  destruct n as [|n]; [lia|]. cbn [parser_at p_multiplicative_loop]. unfold multiplicative_loop at 1. unfold expect at 1.
  rewrite Ht, Hr by lia. next.
  destruct n as [|n]; [lia|]. cbn [parser_at p_multiplicative_loop]. unfold multiplicative_loop. by rewrite He.
Qed.

Lemma y_add_op N tsl l tsr r rest t : text_in add_ops t = true ->
  yields p_multiplicative (S N) tsl l (t :: tsr ++ rest) -> yields p_multiplicative (S N) tsr r rest ->
  expect add_ops rest = None ->
  yields p_additive (S (S (S N))) (tsl ++ t :: tsr) (EBinary (op_of t) l r) rest.
Proof.
  intros Ht Hl Hr He. enter n. cbn [p_additive]. unfold additive.
  rewrite <- app_assoc. cbn [app]. rewrite Hl by lia. next.
  destruct n as [|n]; [lia|]. cbn [parser_at p_additive_loop]. unfold additive_loop at 1. unfold expect at 1.
  rewrite Ht, Hr by lia. next.
  destruct n as [|n]; [lia|]. cbn [parser_at p_additive_loop]. unfold additive_loop. by rewrite He.
Qed.

Lemma y_rel_op N tsl l tsr r rest t : text_in rel_ops t = true ->
  yields p_additive N tsl l (t :: tsr ++ rest) -> yields p_relational N tsr r rest ->
  yields p_relational (S N) (tsl ++ t :: tsr) (EBinary (op_of t) l r) rest.
Proof.
  intros Ht Hl Hr. enter n. cbn [p_relational]. unfold relational.
  rewrite <- app_assoc. cbn [app]. rewrite Hl by lia. next. unfold expect.
  rewrite Ht, Hr by lia. done.
Qed.

Lemma y_eq_op N tsl l tsr r rest t : text_in eq_ops t = true ->
  yields p_relational N tsl l (t :: tsr ++ rest) -> yields p_equality N tsr r rest ->
  yields p_equality (S N) (tsl ++ t :: tsr) (EBinary (op_of t) l r) rest.
Proof.
  intros Ht Hl Hr. enter n. cbn [p_equality]. unfold equality.
  rewrite <- app_assoc. cbn [app]. rewrite Hl by lia. next. unfold expect.
  rewrite Ht, Hr by lia. done.
Qed.

Lemma y_and_op N tsl l tsr r rest t : text_in ["&&"] t = true ->
  yields p_equality N tsl l (t :: tsr ++ rest) -> yields p_logicalAND N tsr r rest ->
  yields p_logicalAND (S N) (tsl ++ t :: tsr) (EBinary (op_of t) l r) rest.
Proof.
  intros Ht Hl Hr. enter n. cbn [p_logicalAND]. unfold logicalAND.
  rewrite <- app_assoc. cbn [app]. rewrite Hl by lia. next. unfold expect.
  rewrite Ht, Hr by lia. done.
Qed.

Lemma y_or_op N tsl l tsr r rest t : text_in ["||"] t = true ->
  yields p_logicalAND (S N) tsl l (t :: tsr ++ rest) -> yields p_logicalAND (S N) tsr r rest ->
  expect ["||"] rest = None ->
  yields p_logicalOR (S (S (S N))) (tsl ++ t :: tsr) (EBinary (op_of t) l r) rest.
Proof.
  intros Ht Hl Hr He. enter n. cbn [p_logicalOR]. unfold logicalOR.
  rewrite <- app_assoc. cbn [app]. rewrite Hl by lia. next.
  destruct n as [|n]; [lia|]. cbn [parser_at p_logicalOR_loop]. unfold logicalOR_loop at 1. unfold expect at 1.
  rewrite Ht, Hr by lia. next. destruct n as [|n]; [lia|]. cbn [parser_at p_logicalOR_loop]. unfold logicalOR_loop. by rewrite He.
Qed.

Lemma y_weaken m N N' ts e rest : (N <= N')%nat -> yields m N ts e rest -> yields m N' ts e rest.
Proof. intros H Hy n Hn. apply Hy. lia. Qed.

Lemma closed_expect rest ss : closed rest -> ss ∈ all_ops -> expect ss rest = None.
Proof. intros H. by apply (proj1 (Forall_forall _ _) H). Qed.

Ltac closed_rest := by (apply closed_expect; [done|]; unfold all_ops; rewrite !elem_of_cons; tauto).

(** From each level up to a whole expression. *)
Lemma up_or N ts e rest : yields p_logicalOR N ts e rest -> closed rest ->
  yields p_filterChain (N + 3) ts e rest /\ yields p_assignment (N + 2) ts e rest /\
  yields p_ternary (N + 1) ts e rest.
Proof.
  intros H Hc. assert (Ht : yields p_ternary (S N) ts e rest) by (apply y_ternary; [done|closed_rest]).
  assert (Ha : yields p_assignment (S (S N)) ts e rest) by (apply y_assignment; [done|closed_rest]).
  split_and!; [|eapply y_weaken; [|exact Ha]; lia|eapply y_weaken; [|exact Ht]; lia].
  eapply y_weaken; [|apply y_filterChain; [exact Ha|closed_rest]]. lia.
Qed.

Lemma up_and N ts e rest : yields p_logicalAND N ts e rest -> closed rest -> yields p_logicalOR (N + 2) ts e rest.
Proof.
  intros H Hc. eapply y_weaken; [|apply (y_or N); [eapply y_weaken; [|exact H]; lia|closed_rest]]. lia.
Qed.

Lemma up_rel N ts e rest : yields p_relational N ts e rest -> closed rest ->
  yields p_logicalAND (N + 2) ts e rest /\ yields p_equality (N + 1) ts e rest.
Proof.
  intros H Hc. assert (He : yields p_equality (S N) ts e rest) by (apply y_eq; [done|closed_rest]).
  split; [|eapply y_weaken; [|exact He]; lia].
  eapply y_weaken; [|apply y_and; [exact He|closed_rest]]. lia.
Qed.

Lemma up_unary N ts e rest : yields p_unary N ts e rest ->
  (expect mul_ops rest = None -> yields p_multiplicative (N + 2) ts e rest) /\
  (expect mul_ops rest = None -> expect add_ops rest = None -> yields p_additive (N + 4) ts e rest) /\
  (closed rest -> yields p_relational (N + 5) ts e rest).
Proof.
  intros H.
  assert (Hm : expect mul_ops rest = None -> yields p_multiplicative (S (S N)) ts e rest).
  { intros Hr. apply y_mul; [|done]. eapply y_weaken; [|exact H]. lia. }
  assert (Ha : expect mul_ops rest = None -> expect add_ops rest = None ->
    yields p_additive (S (S (S (S N)))) ts e rest).
  { intros Hr1 Hr2. apply y_add; [|done]. eapply y_weaken; [|by apply Hm]. lia. }
  split_and!.
  - intros Hr. eapply y_weaken; [|by apply Hm]. lia.
  - intros Hr1 Hr2. eapply y_weaken; [|by apply Ha]. lia.
  - intros Hc. eapply y_weaken; [|apply y_rel; [apply Ha; closed_rest|closed_rest]]. lia.
Qed.

Lemma up_add N ts e rest : yields p_additive N ts e rest -> closed rest -> yields p_relational (N + 1) ts e rest.
Proof. intros H Hc. eapply y_weaken; [|apply y_rel; [exact H|closed_rest]]. lia. Qed.

Lemma up_mul N ts e rest : yields p_multiplicative N ts e rest -> closed rest -> yields p_additive (N + 2) ts e rest.
Proof.
  intros H Hc. eapply y_weaken; [|apply (y_add N); [eapply y_weaken; [|exact H]; lia|closed_rest]]. lia.
Qed.

(** A whole expression from a unary one. *)
Lemma up_all N ts e rest : yields p_unary N ts e rest -> closed rest ->
  yields p_filterChain (N + 12) ts e rest /\ yields p_assignment (N + 11) ts e rest /\
  yields p_ternary (N + 10) ts e rest.
Proof.
  intros H Hc. destruct (up_unary N ts e rest H) as (_ & _ & Hr). specialize (Hr Hc).
  destruct (up_rel _ _ _ _ Hr Hc) as [Ha _]. pose proof (up_and _ _ _ _ Ha Hc) as Ho.
  destruct (up_or _ _ _ _ Ho Hc) as (H1 & H2 & H3).
  split_and!; [eapply y_weaken; [|exact H1]|eapply y_weaken; [|exact H2]|eapply y_weaken; [|exact H3]]; lia.
Qed.

Lemma rel_all N ts e rest : yields p_relational N ts e rest -> closed rest -> yields p_filterChain (N + 7) ts e rest.
Proof.
  intros H Hc. destruct (up_rel _ _ _ _ H Hc) as [Ha _]. pose proof (up_and _ _ _ _ Ha Hc) as Ho.
  destruct (up_or _ _ _ _ Ho Hc) as (H1 & _). eapply y_weaken; [|exact H1]. lia.
Qed.

(** The level at which an operator is read. *)
Lemma operator_level op (t := sym op) : op ∈ binary_ops ->
  text_in mul_ops t = true \/ text_in mul_ops t = false /\
  (text_in add_ops t = true \/ text_in add_ops t = false /\
  (text_in rel_ops t = true \/ text_in rel_ops t = false /\
  (text_in eq_ops t = true \/ text_in eq_ops t = false /\
  (text_in ["&&"] t = true \/ text_in ["&&"] t = false /\ text_in ["||"] t = true)))).
Proof.
  intros Hop. subst t. unfold binary_ops, mul_ops, add_ops, rel_ops, eq_ops in *. cbn [app] in Hop.
  repeat (apply elem_of_cons in Hop as [->|Hop]); try (by apply not_elem_of_nil in Hop); vm_compute; tauto.
Qed.

Lemma expect_cons_None ss t ts : text_in ss t = false -> expect ss (t :: ts) = None.
Proof. simpl. by intros ->. Qed.

(** A binary operation between two operands in primary form. *)
Lemma y_binary op N tsl l tsr r rest : op ∈ binary_ops ->
  yields p_unary N tsl l (sym op :: tsr ++ rest) -> yields p_unary N tsr r rest -> closed rest ->
  yields p_filterChain (N + 20) (tsl ++ sym op :: tsr) (EBinary op l r) rest.
Proof.
  intros Hop Hl Hr Hc. change op with (op_of (sym op)) at 2.
  pose proof (operator_level op Hop) as Hlv. clear Hop. revert Hl Hlv. generalize (sym op). intros t Hl Hlv.
  destruct (up_unary _ _ _ _ Hl) as (Ml & Al & _). destruct (up_unary _ _ _ _ Hr) as (Mr & Ar & Rr).
  specialize (Rr Hc). specialize (Mr ltac:(closed_rest)). specialize (Ar ltac:(closed_rest) ltac:(closed_rest)).
  destruct (up_rel _ _ _ _ Rr Hc) as [LAr Er].
  destruct Hlv as [Ht|[H1 Hlv]].
  { eapply y_weaken; [|apply rel_all; [apply up_add; [apply up_mul|]|]]; [|apply (y_mul_op N)| |..];
      [lia|done| |..]; try done; try closed_rest; (eapply y_weaken; [|done]; lia). }
  specialize (Ml (expect_cons_None _ _ _ H1)). destruct Hlv as [Ht|[H2 Hlv]].
  { eapply y_weaken; [|apply rel_all; [apply up_add; [apply (y_add_op (N + 2))|]|]];
      [lia|done| |..]; try done; try closed_rest; (eapply y_weaken; [|done]; lia). }
  specialize (Al (expect_cons_None _ _ _ H1) (expect_cons_None _ _ _ H2)). destruct Hlv as [Ht|[H3 Hlv]].
  { eapply y_weaken; [|apply rel_all; [apply (y_rel_op (N + 5))|]];
      [lia|done| |..]; try done; (eapply y_weaken; [|done]; lia). }
  assert (Rl : yields p_relational (N + 5) tsl l (t :: tsr ++ rest)).
  { eapply y_weaken; [|apply y_rel; [exact Al|by apply expect_cons_None]]. lia. }
  destruct Hlv as [Ht|[H4 Hlv]].
  { eapply y_weaken; [|apply up_or; [apply up_and; [apply y_and; [apply (y_eq_op (N + 6))|]|]|]];
      [lia|done| |..]; try done; try closed_rest; (eapply y_weaken; [|done]; lia). }
  assert (El : yields p_equality (N + 6) tsl l (t :: tsr ++ rest)).
  { eapply y_weaken; [|apply y_eq; [exact Rl|by apply expect_cons_None]]. lia. }
  destruct Hlv as [Ht|[H5 Ht]].
  { eapply y_weaken; [|apply up_or; [apply up_and; [apply (y_and_op (N + 7))|]|]];
      [lia|done| |..]; try done; (eapply y_weaken; [|done]; lia). }
  assert (LAl : yields p_logicalAND (S (N + 7)) tsl l (t :: tsr ++ rest)).
  { eapply y_weaken; [|apply y_and; [exact El|by apply expect_cons_None]]. lia. }
  eapply y_weaken; [|apply up_or; [apply (y_or_op (N + 7))|]];
    [lia|done| |..]; try done; try closed_rest; (eapply y_weaken; [|done]; lia).
Qed.

(** A unary operand before an operator that binds less than [||]. *)
Lemma before_or N ts e t rest :
  Forall (fun ss => text_in ss t = false) [["||"]; ["&&"]; eq_ops; rel_ops; add_ops; mul_ops] ->
  yields p_unary N ts e (t :: rest) -> yields p_logicalOR (N + 9) ts e (t :: rest).
Proof.
  intros Ht H. repeat (apply Forall_cons in Ht as [? Ht]).
  destruct (up_unary _ _ _ _ H) as (_ & Ha & _).
  specialize (Ha ltac:(by apply expect_cons_None) ltac:(by apply expect_cons_None)).
  assert (HA : yields p_logicalAND (S (N + 6)) ts e (t :: rest)).
  { eapply y_weaken; [|apply y_and; [apply y_eq; [apply y_rel; [exact Ha|]|]|]]; try (by apply expect_cons_None). lia. }
  eapply y_weaken; [|apply y_or; [exact HA|by apply expect_cons_None]]. lia.
Qed.

(** The shape of a primary: [ts] is read as [e], with what follows left to the
    suffixes. *)
Definition reads_as (N : nat) (ts : tokens) (e : expr) : Prop :=
  forall n rest, (N < n)%nat -> exists n', (n - N <= n')%nat /\
    p_primary (P n) (ts ++ rest) = p_suffixes (P n') e (context_of e) rest.

Definition suffix_ops : list string := ["("; "["; "."].

Lemma reads_unary N ts e rest : reads_as N ts e -> unary_free (ts ++ rest) -> expect suffix_ops rest = None ->
  yields p_unary (N + 2) ts e rest.
Proof.
  intros H Hu Hr. eapply y_weaken; [|apply (y_unary (N + 1))]; [lia| |done].
  intros n Hn. destruct (H n rest) as (n' & Hn' & ->); [lia|].
  destruct n' as [|n']; [lia|]. cbn [parser_at p_suffixes]. unfold suffixes. unfold suffix_ops in Hr. by rewrite Hr.
Qed.

Lemma reads_atom f : text_in ["("; "["; "{"] (atom f) = false -> reads_as 1 [atom f] (ETok f).
Proof.
  intros Hf n rest Hn. destruct n as [|n]; [lia|]. exists n. split; [lia|].
  cbn [parser_at p_primary app]. unfold primary. cbn [text_in existsb] in Hf.
  apply orb_false_iff in Hf as [-> Hf]. apply orb_false_iff in Hf as [-> Hf]. apply orb_false_iff in Hf as [-> _].
  by destruct f.
Qed.

Lemma reads_paren N ts e : (forall rest, yields p_filterChain N ts e (sym ")" :: rest)) -> context_of e = None ->
  reads_as (S N) (sym "(" :: ts ++ [sym ")"]) e.
Proof.
  intros H Hc n rest Hn. destruct n as [|n]; [lia|]. exists n. split; [lia|].
  cbn [parser_at p_primary app]. unfold primary. rewrite <- app_assoc. cbn [app].
  change (text_is "(" (sym "(")) with true. cbn iota. rewrite H by lia. cbn. by rewrite Hc.
Qed.

Lemma reads_field N ts o f : getter_allowed csp f = true -> reads_as N ts o ->
  reads_as (S N) (ts ++ [sym "."; plain_token 0 f]) (EField o f).
Proof.
  intros Hf H n rest Hn. rewrite <- app_assoc. destruct (H n ([sym "."; plain_token 0 f] ++ rest)) as (n' & Hn' & ->); [lia|].
  destruct n' as [|n']; [lia|]. exists n'. split; [lia|].
  cbn [parser_at p_suffixes app]. unfold suffixes. cbn. by rewrite Hf.
Qed.

Lemma reads_index N M ts tsi o i : reads_as N ts o -> (forall rest, yields p_assignment M tsi i (sym "]" :: rest)) ->
  reads_as (N + M + 1) (ts ++ sym "[" :: tsi ++ [sym "]"]) (EIndex o i).
Proof.
  intros H Hi n rest Hn. rewrite <- app_assoc. cbn [app]. rewrite <- app_assoc. cbn [app].
  destruct (H n (sym "[" :: tsi ++ sym "]" :: rest)) as (n' & Hn' & ->); [lia|].
  destruct n' as [|n']; [lia|]. exists n'. split; [lia|].
  cbn [parser_at p_suffixes]. unfold suffixes. cbn [expect].
  change (text_in _ (sym "[")) with true. cbn iota.
  change (text_is "(" (sym "[")) with false. change (text_is "[" (sym "[")) with true. cbn iota.
  rewrite Hi by lia. done.
Qed.

(** The head of a printed expression is no operator and no closing bracket. *)
Definition starters_not : list string := ["+"; "-"; "!"; ")"; "]"; "}"; ";"].

Lemma atom_text f : printable csp (ETok f) -> text_in (["("; "["; "{"] ++ starters_not) (atom f) = false.
Proof.
  destruct f as [name|r|vs|p]; cbn [printable]; [|done|done|].
  - intros Hn. unfold word_operators in Hn. repeat (apply elem_of_cons in Hn as [->|Hn]); try done.
    by apply not_elem_of_nil in Hn.
  - destruct p as [|c p]; [done|]. cbn [plain_path]. intros Hc.
    unfold text_in, text_is. cbn [atom tok_text app starters_not existsb].
    rewrite !orb_false_iff. repeat split; apply String.eqb_neq; intros [= -> _]; discriminate Hc.
Qed.

Lemma print_head e : printable csp e -> exists t ts, print e = t :: ts /\ text_in starters_not t = false.
Proof.
  induction e using expr_ind'; cbn [printable print]; try done; try (intros; by do 2 eexists).
  - intros Hp. eexists _, []. split; [done|]. pose proof (atom_text f Hp) as Ha.
    unfold text_in in *. rewrite existsb_app in Ha. by apply orb_false_iff in Ha as [_ Ha].
  - intros _. destruct e1; by do 2 eexists.
  - intros (Hf & _). destruct (IHe Hf) as (t & ts & -> & Ht). by do 2 eexists.
  - intros (Hf & _). destruct (IHe1 Hf) as (t & ts & -> & Ht). by do 2 eexists.
  - intros (Hf & _). destruct (IHe Hf) as (t & ts & -> & Ht). by do 2 eexists.
Qed.

Lemma print_unary_free e rest : printable csp e -> unary_free (print e ++ rest).
Proof.
  intros (t & ts & -> & Ht)%print_head. cbn [app]. unfold text_in, starters_not in Ht. cbn [existsb] in Ht.
  rewrite !orb_false_iff in Ht. destruct Ht as (H1 & H2 & H3 & _).
  repeat split; apply expect_cons_None; unfold text_in; cbn [existsb]; by rewrite orb_false_r.
Qed.

(** An expression whose print is read back. *)
Definition reads (e : expr) : Prop := reads_as (40 * length (print e)) (print e) e.

Lemma reads_mono N N' ts e : (N <= N')%nat -> reads_as N ts e -> reads_as N' ts e.
Proof. intros HN H n rest Hn. destruct (H n rest) as (n' & ? & ?); [lia|]. exists n'. split; [lia|done]. Qed.

Lemma reads_operand e rest : reads e -> printable csp e -> expect suffix_ops rest = None ->
  yields p_unary (40 * length (print e) + 2) (print e) e rest.
Proof. intros H Hp Hr. by apply reads_unary, Hr; [|apply print_unary_free]. Qed.

Lemma closed_suffix rest : closed rest -> expect suffix_ops rest = None.
Proof. intros H. closed_rest. Qed.

Lemma reads_assignment e rest : reads e -> printable csp e -> closed rest ->
  yields p_assignment (40 * length (print e) + 13) (print e) e rest.
Proof.
  intros H Hp Hr. eapply y_weaken; [|apply up_all; [by apply reads_operand, closed_suffix|done]]. lia.
Qed.

Lemma closed_sym s rest : s ∈ [")"; "]"; ","; ":"] -> closed (sym s :: rest).
Proof.
  intros Hs. apply Forall_forall. intros ss Hss. apply expect_cons_None. revert ss Hss.
  repeat (apply elem_of_cons in Hs as [->|Hs]); [| | | |by apply not_elem_of_nil in Hs];
    intros ss Hss; unfold all_ops in Hss; repeat (apply elem_of_cons in Hss as [->|Hss]); try done;
    by apply not_elem_of_nil in Hss.
Qed.

Ltac closed_sym := by (apply closed_sym; rewrite !elem_of_cons; tauto).

Lemma all_printable es :
  (fix all (es : list expr) : Prop := match es with [] => True | e :: es => printable csp e /\ all es end) es <->
  Forall (printable csp) es.
Proof.
  induction es as [|e es IH]; [done|]. rewrite Forall_cons. by rewrite <- IH.
Qed.

Lemma commas_cons ts ts' tss : commas (ts :: ts' :: tss) = ts ++ sym "," :: commas (ts' :: tss).
Proof. done. Qed.

(** The comma separated lists, up to their closing bracket. *)
Lemma arguments_read es : es <> [] -> Forall reads es -> Forall (printable csp) es ->
  forall n acc rest, (40 * length (commas (map print es)) + 20 <= n)%nat ->
    p_arguments (P n) acc (commas (map print es) ++ sym ")" :: rest) = Ok (acc ++ es, sym ")" :: rest).
Proof.
  induction es as [|e es IH]; intros Hne Hr Hp; [done|]. intros n acc rest Hn.
  apply Forall_cons in Hr as [Hre Hr]. apply Forall_cons in Hp as [Hpe Hp].
  destruct n as [|n]; [lia|]. cbn [parser_at p_arguments]. unfold arguments. destruct es as [|e' es].
  - cbn [map commas] in *. rewrite (reads_assignment e); [done|done|done|closed_sym|lia].
  - cbn [map] in *. rewrite commas_cons in *. rewrite length_app in Hn. cbn [length] in Hn.
    rewrite <- app_assoc. cbn [app]. rewrite (reads_assignment e); [|done|done|closed_sym|lia]. next. cbn [expect].
    change (text_in [","] (sym ",")) with true. cbn iota.
    rewrite IH; [by rewrite <- app_assoc|done|done|done|lia].
Qed.

Lemma commas_head es rest : es <> [] -> Forall (printable csp) es ->
  exists t ts, commas (map print es) ++ rest = t :: ts /\ text_in starters_not t = false.
Proof.
  destruct es as [|e es]; [done|]. intros _ [(t & ts & Ht & Hn)%print_head _]%Forall_cons.
  cbn [map]. destruct (map print es) as [|ts' tss]; [|rewrite commas_cons]; cbn [commas]; rewrite Ht; by do 2 eexists.
Qed.

Lemma starter_text t s : text_in starters_not t = false -> s ∈ starters_not -> text_is s t = false.
Proof.
  intros Ht Hs. destruct (text_is s t) eqn:E; [|done]. rewrite <- Ht. symmetry. unfold text_in.
  apply existsb_exists. exists s. split; [by apply list_elem_of_In|done].
Qed.

Lemma elements_read es : es <> [] -> Forall reads es -> Forall (printable csp) es ->
  forall n acc rest, (40 * length (commas (map print es)) + 20 <= n)%nat ->
    p_elements (P n) acc (commas (map print es) ++ sym "]" :: rest) = Ok (acc ++ es, sym "]" :: rest).
Proof.
  induction es as [|e es IH]; intros Hne Hr Hp; [done|]. intros n acc rest Hn.
  destruct (commas_head (e :: es) (sym "]" :: rest) Hne Hp) as (t & ts & Hts & Ht).
  apply Forall_cons in Hr as [Hre Hr]. apply Forall_cons in Hp as [Hpe Hp].
  destruct n as [|n]; [lia|]. cbn [parser_at p_elements]. unfold elements.
  assert (Hat : at_text ["]"] (commas (map print (e :: es)) ++ sym "]" :: rest) = false).
  { rewrite Hts. cbn [at_text]. unfold text_in. cbn [existsb].
    rewrite (starter_text _ _ Ht); [done|]. unfold starters_not. rewrite !elem_of_cons. tauto. }
  rewrite Hat. destruct es as [|e' es].
  - cbn [map commas] in *. rewrite (reads_assignment e); [done|done|done|closed_sym|lia].
  - cbn [map] in *. rewrite commas_cons in *. rewrite length_app in Hn. cbn [length] in Hn.
    rewrite <- app_assoc. cbn [app]. rewrite (reads_assignment e); [|done|done|closed_sym|lia]. next. cbn [expect].
    change (text_in [","] (sym ",")) with true. cbn iota.
    rewrite IH; [by rewrite <- app_assoc|done|done|done|lia].
Qed.

Lemma reads_call fn args : reads fn -> Forall reads args -> printable csp fn -> Forall (printable csp) args ->
  reads (ECall fn (context_of fn) args).
Proof.
  intros Hf Ha Hpf Hpa n rest Hn. cbn [print] in *. rewrite length_app in Hn. cbn [length] in Hn.
  rewrite length_app in Hn. cbn [length] in Hn.
  rewrite <- app_assoc. cbn [app]. rewrite <- app_assoc. cbn [app].
  destruct (Hf n (sym "(" :: commas (map print args) ++ sym ")" :: rest)) as (n' & Hn' & ->); [lia|].
  destruct n' as [|n']; [lia|]. exists n'. split; [rewrite length_app; cbn [length]; rewrite length_app; cbn [length]; lia|].
  cbn [parser_at p_suffixes]. unfold suffixes. cbn [expect].
  change (text_in _ (sym "(")) with true. cbn iota. change (text_is "(" (sym "(")) with true. cbn iota.
  destruct args as [|e es]; [done|].
  destruct (commas_head (e :: es) (sym ")" :: rest) ltac:(done) Hpa) as (t & ts & Hts & Ht).
  assert (Hpk : peek_is ")" (commas (map print (e :: es)) ++ sym ")" :: rest) = Ok false).
  { rewrite Hts. cbn [peek_is]. f_equal. apply (starter_text _ _ Ht). unfold starters_not. rewrite !elem_of_cons. tauto. }
  rewrite Hpk. next. rewrite arguments_read by (done || lia). done.
Qed.

Lemma reads_array es : Forall reads es -> Forall (printable csp) es -> reads (EArray es).
Proof.
  intros Ha Hpa n rest Hn. cbn [print] in *. cbn [length] in *. rewrite length_app in *. cbn [length] in *.
  cbn [app]. rewrite <- app_assoc. cbn [app].
  destruct n as [|n]; [lia|]. exists n. split; [lia|].
  cbn [parser_at p_primary]. unfold primary.
  change (text_is "(" (sym "[")) with false. change (text_is "[" (sym "[")) with true. cbn iota.
  destruct es as [|e es]; [done|].
  destruct (commas_head (e :: es) (sym "]" :: rest) ltac:(done) Hpa) as (t & ts & Hts & Ht).
  assert (Hpk : peek_is "]" (commas (map print (e :: es)) ++ sym "]" :: rest) = Ok false).
  { rewrite Hts. cbn [peek_is]. f_equal. apply (starter_text _ _ Ht). unfold starters_not. rewrite !elem_of_cons. tauto. }
  rewrite Hpk. next. rewrite elements_read by (done || lia). done.
Qed.

Lemma len_paren (a b : tokens) t t' : length (t :: a ++ t' :: b) = (length a + length b + 2)%nat.
Proof. cbn [length]. rewrite length_app. cbn [length]. lia. Qed.

Lemma reads_parens N ts e : context_of e = None -> print e = sym "(" :: ts ++ [sym ")"] ->
  (forall rest, yields p_filterChain N ts e (sym ")" :: rest)) ->
  (N < 40 * (length ts + 2))%nat -> reads e.
Proof.
  intros Hc Hp H HN. unfold reads. rewrite Hp. eapply reads_mono; [|by apply reads_paren].
  rewrite len_paren. cbn [length]. lia.
Qed.

Lemma reads_unary_op (op : string) (mk : expr -> expr) r :
  (forall N ts rest, yields p_unary N ts r rest -> yields p_unary (S N) (sym op :: ts) (mk r) rest) ->
  print (mk r) = sym "(" :: sym op :: print r ++ [sym ")"] -> context_of (mk r) = None ->
  reads r -> printable csp r -> reads (mk r).
Proof.
  intros Hy Hp Hc Hr Hpr. eapply (reads_parens _ (sym op :: print r)); [done|done| |].
  - intros rest. assert (Hcl : closed (sym ")" :: rest)) by closed_sym. apply up_all; [|done].
    apply Hy. by apply reads_operand, closed_suffix.
  - cbn [length]. lia.
Qed.

Lemma print_binary op l r : is_zero l = false ->
  print (EBinary op l r) = sym "(" :: print l ++ sym op :: print r ++ [sym ")"].
Proof. by destruct l. Qed.

Lemma reads_binary op l r : op ∈ binary_ops -> is_zero l = false -> reads l -> reads r ->
  printable csp l -> printable csp r -> reads (EBinary op l r).
Proof.
  intros Hop Hz Hl Hr Hpl Hpr.
  eapply (reads_parens (40 * (length (print l) + length (print r)) + 22) (print l ++ sym op :: print r)); [done| | |].
  - rewrite <- app_assoc. by apply print_binary.
  - intros rest. assert (Hcl : closed (sym ")" :: rest)) by closed_sym.
    eapply y_weaken; [|apply (y_binary op (40 * (length (print l) + length (print r)) + 2))]; [lia|done| | |done].
    + eapply y_weaken; [|apply reads_operand; [done|done|]]; [lia|].
      pose proof (operator_level op Hop) as _. apply expect_cons_None.
      unfold binary_ops, mul_ops, add_ops, rel_ops, eq_ops in Hop. cbn [app] in Hop.
      repeat (apply elem_of_cons in Hop as [->|Hop]); try done. by apply not_elem_of_nil in Hop.
    + eapply y_weaken; [|by apply reads_operand, closed_suffix]. lia.
  - rewrite length_app. cbn [length]. lia.
Qed.

Lemma reads_ternary l m r : reads l -> reads m -> reads r ->
  printable csp l -> printable csp m -> printable csp r -> reads (ETernary l m r).
Proof.
  intros Hl Hm Hr Hpl Hpm Hpr.
  eapply (reads_parens (40 * (length (print l) + length (print m) + length (print r)) + 20)
    (print l ++ sym "?" :: print m ++ sym ":" :: print r)); [done| | |].
  - cbn [print]. rewrite <- app_assoc. cbn [app]. by rewrite <- app_assoc.
  - intros rest. assert (Hcl : closed (sym ")" :: rest)) by closed_sym.
    set (N := (40 * (length (print l) + length (print m) + length (print r)) + 13)%nat).
    apply (y_weaken _ (S (S (S (S N))))); [lia|]. apply y_filterChain; [|closed_rest].
    apply y_assignment; [|closed_rest]. enter n. cbn [p_ternary]. unfold ternary.
    rewrite <- app_assoc. cbn [app]. rewrite <- app_assoc. cbn [app].
    rewrite (before_or (40 * length (print l) + 2) (print l) l (sym "?")); [|by repeat constructor| |lia].
    2:{ apply reads_operand; [done|done|done]. }
    next. cbn [expect]. change (text_in ["?"] (sym "?")) with true. cbn iota.
    rewrite (reads_assignment m); [|done|done|closed_sym|lia]. next.
    cbn [expect]. change (text_in [":"] (sym ":")) with true. cbn iota.
    by rewrite (reads_assignment r); [|done|done|closed_sym|lia].
  - rewrite length_app. cbn [length]. rewrite length_app. cbn [length]. lia.
Qed.

Lemma reads_assign l r : assignable l = true -> reads l -> reads r ->
  printable csp l -> printable csp r -> reads (EAssign l r).
Proof.
  intros Ha Hl Hr Hpl Hpr.
  eapply (reads_parens (40 * (length (print l) + length (print r)) + 20) (print l ++ sym "=" :: print r)); [done| | |].
  - cbn [print]. by rewrite <- app_assoc.
  - intros rest. assert (Hcl : closed (sym ")" :: rest)) by closed_sym.
    set (N := (40 * (length (print l) + length (print r)) + 13)%nat).
    apply (y_weaken _ (S (S (S N)))); [lia|]. apply y_filterChain; [|closed_rest].
    enter n. cbn [p_assignment]. unfold assignment. rewrite <- app_assoc. cbn [app].
    rewrite (y_ternary (40 * length (print l) + 2 + 9) (print l) l (sym "=" :: print r ++ sym ")" :: rest)); [| |done|lia].
    2:{ apply before_or; [by repeat constructor|]. by apply reads_operand. }
    next. cbn [expect]. change (text_in ["="] (sym "=")) with true. cbn iota. rewrite Ha.
    destruct (up_all _ _ _ _ (reads_operand r _ Hr Hpr (closed_suffix _ Hcl)) Hcl) as (_ & _ & Ht).
    by rewrite Ht by lia.
  - rewrite length_app. cbn [length]. lia.
Qed.

Lemma y_not N ts r rest : yields p_unary N ts r rest -> yields p_unary (S N) (sym "!" :: ts) (EUnary "!" r) rest.
Proof. intros H. enter n. cbn [p_unary app]. unfold unary. cbn -[parser_at]. by rewrite H by lia. Qed.

Lemma y_minus N ts r rest : yields p_unary N ts r rest ->
  yields p_unary (S N) (sym "-" :: ts) (EBinary "-" EZero r) rest.
Proof. intros H. enter n. cbn [p_unary app]. unfold unary. cbn -[parser_at]. by rewrite H by lia. Qed.

Lemma printable_reads e : printable csp e -> reads e.
Proof.
  induction e using expr_ind'; cbn [printable]; try done.
  - intros Hp. eapply reads_mono; [|apply reads_atom]; [cbn [print length]; lia|].
    pose proof (atom_text f Hp) as Ha. unfold text_in in *. rewrite existsb_app in Ha.
    by apply orb_false_iff in Ha as [Ha _].
  - intros [-> Hp]. apply (reads_unary_op "!" (EUnary "!")); auto using y_not.
  - intros [Hl Hp]. destruct (is_zero e1) eqn:Hz.
    + destruct e1; try discriminate Hz. subst op. apply (reads_unary_op "-" (EBinary "-" EZero)); auto using y_minus.
    + destruct Hl as [Hop Hpl]. by apply reads_binary; auto.
  - intros (Hl & Hm & Hr). apply reads_ternary; auto.
  - intros (Ha & Hl & Hr). apply reads_assign; auto.
  - rewrite all_printable. intros (Hf & Ha & ->). apply reads_call; auto.
    apply (Forall_impl (fun e => printable csp e /\ (printable csp e -> reads e))); [by apply Forall_and|]. intros x [? Hx]; auto.
  - intros (Ho & Hi). unfold reads. eapply reads_mono; [|apply reads_index; [by apply IHe1|]].
    2:{ intros rest. apply reads_assignment; [by auto|done|closed_sym]. }
    cbn [print]. rewrite !length_app. cbn [length]. rewrite length_app. cbn [length]. lia.
  - intros (Ho & Hg). unfold reads. eapply reads_mono; [|apply reads_field; [done|by apply IHe]].
    cbn [print]. rewrite length_app. cbn [length]. lia.
  - rewrite all_printable. intros Ha. apply reads_array; [|done].
    apply (Forall_impl (fun e => printable csp e /\ (printable csp e -> reads e))); [by apply Forall_and|]. intros x [? Hx]; auto.
Qed.

Lemma closed_nil : closed [].
Proof. by repeat constructor. Qed.
End Yields.

(** ** What the parser promises *)

(** C14: the parser ends on every token list: with [22] calls per token and a
    constant it returns a tree or one of the framework's errors and never
    lacks fuel, so no input makes the recursive descent or one of its loops
    run forever. *)
Theorem parse_terminates (known_filter : string -> bool) (csp : bool) (num_text : string -> string)
  (ts : list token) (fuel : nat) : (22 * length ts + 21 < fuel)%nat ->
  parse_tokens known_filter csp num_text fuel ts <> out_of_fuel.
Proof.
  intros Hf. unfold parse_tokens. pose proof (statements_ok known_filter csp num_text fuel [] ts Hf) as Hs.
  destruct (statements_loop _ _ _ fuel [] ts) as [[e rest]|err]; simpl.
  - by destruct rest.
  - intros [= ->]. by apply Hs.
Qed.

Lemma parse_terminates_witness :
  let ts := match lex false "a = b + 1 ? c[0].d(e, !f) : [1, 2] | date:'x'; {k: v}" with Ok ts => ts | Err _ => [] end in
  length ts = 34%nat /\ parse_tokens (fun _ => true) false id 1000 ts <> out_of_fuel.
Proof.
  intros ts. split; [vm_compute; reflexivity|]. apply parse_terminates. vm_compute. lia.
Defined.

(** C13: the parser reads back what is printed: for every expression built of
    literals, paths, operators, conditionals, assignments, calls, indices,
    fields and arrays, the tokens of its fully parenthesised text are parsed to
    exactly that expression, with the receiver of each call it had.  So the
    descent handles every construct at every depth, and an operand in
    parentheses is never regrouped. *)
Theorem parse_print_roundtrip (known_filter : string -> bool) (csp : bool) (num_text : string -> string)
  (e : expr) (fuel : nat) : printable csp e -> (40 * length (print e) + 14 < fuel)%nat ->
  parse_tokens known_filter csp num_text fuel (print e) = Ok e.
Proof.
  intros Hp Hf. destruct fuel as [|fuel]; [lia|].
  pose proof (printable_reads known_filter csp num_text e Hp) as Hr.
  destruct (up_all _ _ _ _ _ _ _ (reads_operand _ _ _ e [] Hr Hp eq_refl) closed_nil) as (Hy & _).
  destruct (print_head csp e Hp) as (t & ts & Ht & Hn).
  unfold parse_tokens. cbn [statements_loop].
  specialize (Hy fuel). rewrite app_nil_r in Hy.
  assert (Hg : negb (bool_decide (print e = [])) && negb (at_text ["}"; ")"; ";"; "]"] (print e)) = true).
  { rewrite Ht. cbn [bool_decide at_text negb andb]. unfold text_in. cbn [existsb].
    rewrite !(starter_text _ _ Hn) by (unfold starters_not; rewrite !elem_of_cons; tauto).
    by rewrite bool_decide_false. }
  rewrite Hg, Hy by lia. done.
Qed.

Lemma parse_print_roundtrip_witness :
  let e := ETernary (EBinary "&&" (EUnary "!" (ETok (FnIdent "a.b"))) (EBinary "-" EZero (ETok (FnNum "2"))))
             (ECall (EField (EIndex (ETok (FnIdent "rows")) (ETok (FnNum "0"))) "send")
                (Some (EIndex (ETok (FnIdent "rows")) (ETok (FnNum "0"))))
                [ETok (FnStr (codes "x")); EArray [ETok (FnOp "null"); EAssign (ETok (FnIdent "n")) (ETok (FnNum "1"))]])
             (EArray []) in
  printable false e /\ parse_tokens (fun _ => false) false id 2000 (print e) = Ok e.
Proof.
  intros e.
  assert (Hp : printable false e).
  { cbn. unfold mul_ops, add_ops, rel_ops, eq_ops, word_operators. rewrite !elem_of_cons. tauto. }
  split; [exact Hp|]. apply parse_print_roundtrip; [exact Hp|]. vm_compute. lia.
Defined.
