(* ===== verification/NgQ.v ===== *)
(** * NgQ: the framework's promises

    [qFactory] of [angular.js] (11657-11993).  The closures the code creates are
    the constructors of [fn] and of [task], one per function expression with
    the variables it captures; [prog] is what a callback does, as the calls it
    makes on [$q] in order and its return or throw.  [deferreds] is the store of
    the deferreds' captured variables, [queue] the callbacks given to [nextTick]
    and not run yet, [handled] the exceptions given to [exceptionHandler].

    The promise-like objects are those the module itself makes; another
    library's are not covered. *)

From S2P Require Import Prelude.

#[local] Set Warnings "-register-all".

Section Q.
Context {V F : Type}.

(** ** Data *)

Inductive val : Type :=
| VPlain (v : V)
| VUndefined
| VTypeError
| VProm (t : thenable)
| VResults (a : nat)          (** the results object of [all] number [a] *)
with thenable : Type :=
| TPromise (d : nat)          (** the promise of deferred [d] *)
| TRef (v : val)              (** [ref(v)] *)
| TRejected (reason : val).   (** [createInternalRejectedPromise(reason)] *)

Inductive fn : Type :=
| User (f : F)
| Wrapped (result : nat) (callback : option fn)
| WrappedErr (result : nat) (errback : option fn)
| WrappedProg (result : nat) (progressback : option fn)
| FinallyOk (callback : option F)
| FinallyErr (callback : option F)
| MakePromise (v : val) (resolved : bool)
| MakeRejected
| WhenOk (done result : nat) (v : val) (callback errback progressback : option F)
| WhenErr (done result : nat) (errback : option F)
| WhenProg (done result : nat) (progressback : option F)
| WhenCallback (callback : option F)
| WhenErrback (errback : option F)
| WhenProgressback (progressback : option F)
| AllOk (a key : nat)
| AllErr (a key : nat).

Inductive task : Type :=
| RunCallbacks (d : nat)
| RunNotify (d : nat) (progress : val)
| RunRef (result : nat) (callback : option fn) (v : val)
| RunRejected (result : nat) (errback : option fn) (reason : val)
| RunWhen (done result : nat) (v : val) (callback errback progressback : option F).

(** What a function does when it is called. *)
Inductive prog : Type :=
| Return (v : val)
| Throw (e : val)
| Defer (k : nat -> prog)
| Resolve (d : nat) (v : val) (k : prog)
| Reject (d : nat) (reason : val) (k : prog)
| Notify (d : nat) (progress : val) (k : prog)
| Then (t : thenable) (callback errback progressback : option fn) (k : val -> prog)
| Handle (e : val) (k : prog)
| NextTick (t : task) (k : prog)
| NewDone (k : nat -> prog)
| IfDone (done : nat) (k : bool -> prog)
| SetDone (done : nat) (k : prog)
| NewAll (d : nat) (k : nat -> prog)
| AddKey (a : nat) (k : prog)
| HasKey (a key : nat) (k : bool -> prog)
| StoreKey (a key : nat) (v : val) (k : prog)
| Counter (a : nat) (k : nat -> nat -> prog).

(** The variables [defer] captures: [pending] ([callbacks] is its array, which
    stays the same object once [pending] is undefined) and [value]. *)
Record deferred := Deferred {
  pending : bool;
  callbacks : list (fn * fn * fn);
  value : option thenable
}.

(** The variables [all] captures. *)
Record all_state := AllState {
  a_deferred : nat;
  counter : nat;
  results : list (option val)
}.

Record q := Q {
  deferreds : list deferred;
  queue : list task;
  handled : list val;
  dones : list bool;
  alls : list all_state
}.

(** ** State changes *)

Definition set_deferreds (ds : list deferred) (s : q) : q := Q ds (queue s) (handled s) (dones s) (alls s).
Definition nextTick (t : task) (s : q) : q := Q (deferreds s) (queue s ++ [t]) (handled s) (dones s) (alls s).
Definition exceptionHandler (e : val) (s : q) : q :=
  Q (deferreds s) (queue s) (handled s ++ [e]) (dones s) (alls s).

Definition defer (s : q) : nat * q :=
  (length (deferreds s), set_deferreds (deferreds s ++ [Deferred true [] None]) s).

(** [ref] of 11802-11813. *)
Definition ref (v : val) : thenable := match v with VProm t => t | _ => TRef v end.

(** [deferred.resolve] with the thenable of the value already taken. *)
Definition settle (d : nat) (t : thenable) (s : q) : q :=
  match deferreds s !! d with
  | Some (Deferred true cs _) =>
      let s := set_deferreds (<[d := Deferred false cs (Some t)]> (deferreds s)) s in
      match cs with [] => s | _ => nextTick (RunCallbacks d) s end
  | _ => s
  end.

Definition resolve (d : nat) (v : val) (s : q) : q := settle d (ref v) s.
Definition reject_ (d : nat) (reason : val) (s : q) : q := settle d (TRejected reason) s.

Definition notify (d : nat) (progress : val) (s : q) : q :=
  match deferreds s !! d with
  | Some (Deferred true (_ :: _) _) => nextTick (RunNotify d progress) s
  | _ => s
  end.

(** [then] on each promise-like object: the deferred of the promise it returns. *)
Fixpoint then_ (fuel : nat) (t : thenable) (callback errback progressback : option fn) (s : q) : option (nat * q) :=
  match fuel with
  | O => None
  | S fuel =>
      let (result, s) := defer s in
      match t with
      | TRef v => Some (result, nextTick (RunRef result callback v) s)
      | TRejected reason => Some (result, nextTick (RunRejected result errback reason) s)
      | TPromise d =>
          let c := (Wrapped result callback, WrappedErr result errback, WrappedProg result progressback) in
          match deferreds s !! d with
          | Some (Deferred true cs v) =>
              Some (result, set_deferreds (<[d := Deferred true (cs ++ [c]) v]> (deferreds s)) s)
          | Some (Deferred false _ (Some t)) =>
              match then_ fuel t (Some c.1.1) (Some c.1.2) (Some c.2) s with
              | Some (_, s) => Some (result, s)
              | None => None
              end
          | _ => Some (result, s)
          end
      end
  end.

(** ** Functions *)

Definition promise (d : nat) : val := VProm (TPromise d).

Fixpoint and_then (p : prog) (ok : val -> prog) (err : val -> prog) : prog :=
  match p with
  | Return v => ok v
  | Throw e => err e
  | Defer k => Defer (fun d => and_then (k d) ok err)
  | Resolve d v k => Resolve d v (and_then k ok err)
  | Reject d v k => Reject d v (and_then k ok err)
  | Notify d v k => Notify d v (and_then k ok err)
  | Then t a b c k => Then t a b c (fun v => and_then (k v) ok err)
  | Handle e k => Handle e (and_then k ok err)
  | NextTick t k => NextTick t (and_then k ok err)
  | NewDone k => NewDone (fun d => and_then (k d) ok err)
  | IfDone d k => IfDone d (fun b => and_then (k b) ok err)
  | SetDone d k => SetDone d (and_then k ok err)
  | NewAll d k => NewAll d (fun a => and_then (k a) ok err)
  | AddKey a k => AddKey a (and_then k ok err)
  | HasKey a key k => HasKey a key (fun b => and_then (k b) ok err)
  | StoreKey a key v k => StoreKey a key v (and_then k ok err)
  | Counter a k => Counter a (fun d n => and_then (k d n) ok err)
  end.

(** [reject] of 11852-11856. *)
Definition reject (reason : val) : prog := Defer (fun r => Reject r reason (Return (promise r))).

Definition defaultCallback (v : val) : prog := Return v.
Definition defaultErrback (reason : val) : prog := reject reason.

Definition makePromise (v : val) (resolved : bool) : prog :=
  Defer (fun r => if resolved then Resolve r v (Return (promise r)) else Reject r v (Return (promise r))).

(** What the user's functions do. *)
Context (user : F -> val -> prog).

Definition handleCallback (callback : option F) (v : val) (isResolved : bool) : prog :=
  and_then (match callback with Some f => user f VUndefined | None => defaultCallback VUndefined end)
    (fun callbackOutput =>
       match callbackOutput with
       | VProm t => Then t (Some (MakePromise v isResolved)) (Some MakeRejected) None Return
       | _ => makePromise v isResolved
       end)
    (fun e => makePromise e false).

Definition user_or (f : option F) (default : val -> prog) (v : val) : prog :=
  match f with Some f => user f v | None => default v end.

(** The call [f(v)]. *)
Fixpoint apply_fn (f : fn) (v : val) : prog :=
  match f with
  | User f => user f v
  | Wrapped r cb =>
      and_then (match cb with Some f => apply_fn f v | None => defaultCallback v end)
        (fun x => Resolve r x (Return VUndefined)) (fun e => Reject r e (Handle e (Return VUndefined)))
  | WrappedErr r eb =>
      and_then (match eb with Some f => apply_fn f v | None => defaultErrback v end)
        (fun x => Resolve r x (Return VUndefined)) (fun e => Reject r e (Handle e (Return VUndefined)))
  | WrappedProg r pb =>
      and_then (match pb with Some f => apply_fn f v | None => defaultCallback v end)
        (fun x => Notify r x (Return VUndefined)) (fun e => Handle e (Return VUndefined))
  | FinallyOk cb => handleCallback cb v true
  | FinallyErr cb => handleCallback cb v false
  | MakePromise v' resolved => makePromise v' resolved
  | MakeRejected => makePromise v false
  | WhenOk done r v' cb eb pb =>
      IfDone done (fun b => if b then Return VUndefined else
        SetDone done (Then (ref v') (Some (WhenCallback cb)) (Some (WhenErrback eb)) (Some (WhenProgressback pb))
          (fun p => Resolve r p (Return VUndefined))))
  | WhenErr done r eb =>
      IfDone done (fun b => if b then Return VUndefined else
        SetDone done (and_then (user_or eb defaultErrback v)
          (fun x => Resolve r x (Return VUndefined))
          (fun e => Handle e (Defer (fun r' => Reject r' e (Resolve r (promise r') (Return VUndefined)))))))
  | WhenProg done r pb =>
      IfDone done (fun b => if b then Return VUndefined else
        and_then (user_or pb defaultCallback v) (fun x => Notify r x (Return VUndefined))
          (fun e => Handle e (Notify r VUndefined (Return VUndefined))))
  | WhenCallback cb => and_then (user_or cb defaultCallback v) Return (fun e => Handle e (reject e))
  | WhenErrback eb => and_then (user_or eb defaultErrback v) Return (fun e => Handle e (reject e))
  | WhenProgressback pb => and_then (user_or pb defaultCallback v) Return (fun e => Handle e (Return VUndefined))
  | AllOk a key =>
      HasKey a key (fun b => if b then Return VUndefined else
        StoreKey a key v (Counter a (fun d n => match n with
          | O => Resolve d (VResults a) (Return VUndefined)
          | S _ => Return VUndefined
          end)))
  | AllErr a key =>
      HasKey a key (fun b => if b then Return VUndefined else
        Counter a (fun d _ => Reject d v (Return VUndefined)))
  end.

(** [when] of 11889-11935. *)
Definition when (v : val) (callback errback progressback : option F) : prog :=
  Defer (fun r => NewDone (fun w =>
    NextTick (RunWhen w r v callback errback progressback) (Return (promise r)))).

(** [all] of 11963-11985; the keys are the positions. *)
Fixpoint all_each (a key : nat) (promises : list val) (k : prog) : prog :=
  match promises with
  | [] => k
  | p :: promises =>
      AddKey a (Then (ref p) (Some (AllOk a key)) (Some (AllErr a key)) None (fun _ => all_each a (S key) promises k))
  end.

Definition all (promises : list val) : prog :=
  Defer (fun d => NewAll d (fun a => all_each a 0 promises
    (Counter a (fun d n => match n with
     | O => Resolve d (VResults a) (Return (promise d))
     | S _ => Return (promise d)
     end)))).

(** ** Running *)

Definition set_all (a : nat) (f : all_state -> all_state) (s : q) : q :=
  Q (deferreds s) (queue s) (handled s) (dones s) (alter f a (alls s)).

Definition add_key (x : all_state) : all_state := AllState (a_deferred x) (S (counter x)) (results x ++ [None]).
Definition store_key (key : nat) (v : val) (x : all_state) : all_state :=
  AllState (a_deferred x) (pred (counter x)) (<[key := Some v]> (results x)).
Definition has_key (key : nat) (x : all_state) : bool :=
  match results x !! key with Some (Some _) => true | _ => false end.

(** [None] when a chain of promises is longer than the call stack. *)
Fixpoint run (fuel : nat) (p : prog) (s : q) : option (q * result val val) :=
  match p with
  | Return v => Some (s, Ok v)
  | Throw e => Some (s, Err e)
  | Defer k => let (d, s) := defer s in run fuel (k d) s
  | Resolve d v k => run fuel k (resolve d v s)
  | Reject d e k => run fuel k (reject_ d e s)
  | Notify d v k => run fuel k (notify d v s)
  | Then t a b c k => match then_ fuel t a b c s with Some (r, s) => run fuel (k (promise r)) s | None => None end
  | Handle e k => run fuel k (exceptionHandler e s)
  | NextTick t k => run fuel k (nextTick t s)
  | NewDone k => run fuel (k (length (dones s))) (Q (deferreds s) (queue s) (handled s) (dones s ++ [false]) (alls s))
  | IfDone w k => run fuel (k (match dones s !! w with Some b => b | None => false end)) s
  | SetDone w k => run fuel k (Q (deferreds s) (queue s) (handled s) (<[w := true]> (dones s)) (alls s))
  | NewAll d k =>
      run fuel (k (length (alls s))) (Q (deferreds s) (queue s) (handled s) (dones s) (alls s ++ [AllState d 0 []]))
  | AddKey a k => run fuel k (set_all a add_key s)
  | HasKey a key k => run fuel (k (match alls s !! a with Some x => has_key key x | None => false end)) s
  | StoreKey a key v k => run fuel k (set_all a (store_key key v) s)
  | Counter a k =>
      match alls s !! a with
      | Some x => run fuel (k (a_deferred x) (counter x)) s
      | None => Some (s, Err VTypeError)
      end
  end.

Fixpoint then_all (fuel : nat) (t : thenable) (cs : list (fn * fn * fn)) (s : q) : option q :=
  match cs with
  | [] => Some s
  | c :: cs =>
      match then_ fuel t (Some c.1.1) (Some c.1.2) (Some c.2) s with
      | Some (_, s) => then_all fuel t cs s
      | None => None
      end
  end.

Fixpoint notify_all (cs : list (fn * fn * fn)) (progress : val) : prog :=
  match cs with
  | [] => Return VUndefined
  | c :: cs => and_then (apply_fn c.2 progress) (fun _ => notify_all cs progress) Throw
  end.

(** The body of a function given to [nextTick]. *)
Definition task_prog (t : task) (s : q) : prog :=
  match t with
  | RunCallbacks _ => Return VUndefined
  | RunNotify d progress =>
      match deferreds s !! d with
      | Some x => notify_all (callbacks x) progress
      | None => Return VUndefined
      end
  | RunRef r cb v =>
      and_then (match cb with Some f => apply_fn f v | None => Throw VTypeError end)
        (fun x => Resolve r x (Return VUndefined)) Throw
  | RunRejected r eb reason => apply_fn (WrappedErr r eb) reason
  | RunWhen w r v cb eb pb =>
      Then (ref v) (Some (WhenOk w r v cb eb pb)) (Some (WhenErr w r eb)) (Some (WhenProg w r pb)) Return
  end.

(** One turn of the queue: the function is removed, called, and an exception
    that leaves it is handled. *)
Definition tick (fuel : nat) (s : q) : option q :=
  match queue s with
  | [] => Some s
  | t :: ts =>
      let s := Q (deferreds s) ts (handled s) (dones s) (alls s) in
      match t with
      | RunCallbacks d =>
          match deferreds s !! d with
          | Some (Deferred _ cs (Some t)) => then_all fuel t cs s
          | _ => Some s
          end
      | _ =>
          match run fuel (task_prog t s) s with
          | Some (s, Ok _) => Some s
          | Some (s, Err e) => Some (exceptionHandler e s)
          | None => None
          end
      end
  end.

(** ** Lemmas: what a run keeps *)

(** A settled deferred stays as it is. *)
Definition keeps (s s' : q) : Prop :=
  forall d x, deferreds s !! d = Some x -> pending x = false -> deferreds s' !! d = Some x.

#[local] Instance keeps_preorder : PreOrder keeps.
Proof. split; [by intros s d x|]. intros s1 s2 s3 H1 H2 d x Hx Hp. by apply H2; [apply H1|]. Qed.

Lemma keeps_same s s' : deferreds s' = deferreds s -> keeps s s'.
Proof. intros He d x Hx _. by rewrite He. Qed.

Lemma keeps_defer s : keeps s (defer s).2.
Proof. intros d x Hx _. simpl. by rewrite lookup_app_l by (by eapply lookup_lt_Some). Qed.

Lemma keeps_update s d cs v x' : deferreds s !! d = Some (Deferred true cs v) ->
  keeps s (set_deferreds (<[d := x']> (deferreds s)) s).
Proof.
  intros Hd e x Hx Hp. simpl. destruct (decide (e = d)) as [->|Hne].
  - rewrite Hx in Hd. by injection Hd as ->.
  - by rewrite list_lookup_insert_ne.
Qed.

Lemma keeps_settle d t s : keeps s (settle d t s).
Proof.
  unfold settle. destruct (deferreds s !! d) as [[[] cs v]|] eqn:Hd; try reflexivity.
  destruct cs; [by eapply keeps_update|]. etransitivity; [by eapply keeps_update|]. by apply keeps_same.
Qed.

Lemma keeps_notify d v s : keeps s (notify d v s).
Proof. apply keeps_same. unfold notify. by destruct (deferreds s !! d) as [[[] [|c cs] ?]|]. Qed.

Lemma keeps_then fuel : forall t a b c s r s', then_ fuel t a b c s = Some (r, s') -> keeps s s'.
Proof.
  induction fuel as [|fuel IH]; intros t a b c s r s' H; [done|]. cbn [then_] in H.
  pose proof (keeps_defer s) as Hk. destruct (defer s) as [r0 s0]. simpl in Hk.
  destruct t as [d|v|e].
  - destruct (deferreds s0 !! d) as [[[] cs [t|]]|] eqn:Hd; try (injection H as <- <-; try done);
      try (etransitivity; [exact Hk|by eapply keeps_update]).
    destruct (then_ fuel t _ _ _ s0) as [[r1 s1]|] eqn:Ht; [|done]. injection H as <- <-.
    etransitivity; [exact Hk|by eapply IH].
  - injection H as <- <-. exact Hk.
  - injection H as <- <-. exact Hk.
Qed.

Lemma keeps_run fuel p : forall s s' o, run fuel p s = Some (s', o) -> keeps s s'.
Proof.
  induction p; intros s s' o Hr; cbn [run] in Hr;
    try (injection Hr as <- <-; reflexivity);
    try (apply IHp in Hr; etransitivity; [|exact Hr];
         first [apply keeps_settle | apply keeps_notify | by apply keeps_same]).
  - eapply H in Hr. etransitivity; [apply (keeps_defer s)|exact Hr].
  - destruct (then_ fuel t _ _ _ s) as [[r s0]|] eqn:Ht; [|done].
    etransitivity; [by eapply keeps_then|]. by eapply H.
  - eapply H in Hr. etransitivity; [|exact Hr]. by apply keeps_same.
  - by eapply H in Hr.
  - eapply H in Hr. etransitivity; [|exact Hr]. by apply keeps_same.
  - by eapply H in Hr.
  - destruct (alls s !! a) as [x|]; [by eapply H|]. by injection Hr as <- <-.
Qed.

Lemma keeps_then_all fuel t cs : forall s s', then_all fuel t cs s = Some s' -> keeps s s'.
Proof.
  induction cs as [|c cs IH]; intros s s' H; simpl in H; [by injection H as <-|].
  destruct (then_ fuel t _ _ _ s) as [[r s0]|] eqn:Ht; [|done].
  etransitivity; [by eapply keeps_then|by apply IH].
Qed.

Lemma keeps_tick fuel s s' : tick fuel s = Some s' -> keeps s s'.
Proof.
  unfold tick. destruct (queue s) as [|t ts]; [by intros [= <-]|].
  set (s0 := Q _ ts _ _ _). intros H. transitivity s0; [by apply keeps_same|].
  assert (Hrun : forall p s1 o, run fuel p s0 = Some (s1, o) ->
    match o with Ok _ => Some s1 | Err e => Some (exceptionHandler e s1) end = Some s' -> keeps s0 s').
  { intros p s1 o Hr%keeps_run Ho. etransitivity; [exact Hr|]. destruct o; injection Ho as <-; by apply keeps_same. }
  destruct t as [d| | | |];
    [|destruct (run fuel _ s0) as [[s1 o]|] eqn:Hr; [|done]; by eapply Hrun, H ..].
  destruct (deferreds s0 !! d) as [[b cs [t|]]|]; try (by injection H as <-). by eapply keeps_then_all.
Qed.

(** What happens to a promise module: its clients call it, the queue turns. *)
Inductive event : Type := Call (p : prog) | Tick.

Definition exec (fuel : nat) (ev : event) (s : q) : option q :=
  match ev with
  | Call p => match run fuel p s with Some (s, _) => Some s | None => None end
  | Tick => tick fuel s
  end.

Fixpoint execs (fuel : nat) (evs : list event) (s : q) : option q :=
  match evs with
  | [] => Some s
  | ev :: evs => match exec fuel ev s with Some s => execs fuel evs s | None => None end
  end.

Lemma keeps_execs fuel evs : forall s s', execs fuel evs s = Some s' -> keeps s s'.
Proof.
  induction evs as [|ev evs IH]; intros s s' H; cbn [execs] in H; [by injection H as <-|].
  destruct (exec fuel ev s) as [s1|] eqn:He; [|done]. etransitivity; [|by apply IH].
  destruct ev as [p|]; cbn [exec] in He; [|by eapply keeps_tick].
  destruct (run fuel p s) as [[s2 o]|] eqn:Hr; [|done]. injection He as <-. by eapply keeps_run.
Qed.

Lemma settle_pending d t s cs w : deferreds s !! d = Some (Deferred true cs w) ->
  deferreds (settle d t s) !! d = Some (Deferred false cs (Some t)).
Proof.
  intros Hd. unfold settle. rewrite Hd. pose proof (lookup_lt_Some _ _ _ Hd).
  destruct cs; simpl; by apply list_lookup_insert_eq.
Qed.

(** ** Lemmas: the order of the calls *)

(** The call a settled deferred makes for one registration. *)
Definition call_task (t : thenable) (r : nat) (c : fn * fn * fn) : task :=
  match t with
  | TRef v => RunRef r (Some c.1.1) v
  | TRejected reason => RunRejected r (Some c.1.2) reason
  | TPromise d => RunCallbacks d
  end.

Definition is_promise (t : thenable) : bool := match t with TPromise _ => true | _ => false end.

Lemma then_all_tasks fuel t cs : is_promise t = false -> forall s,
  exists s', then_all (S fuel) t cs s = Some s' /\
    queue s' = queue s ++ imap (fun i c => call_task t (length (deferreds s) + i) c) cs.
Proof.
  intros Ht. induction cs as [|c cs IH]; intros s; [exists s; split; [done|by rewrite app_nil_r]|].
  cbn [then_all then_ defer]. destruct t as [d|v|e]; [done| |];
    (match goal with |- context [then_all _ _ cs ?x] => destruct (IH x) as (s' & Hs' & Hq) end;
     exists s'; split; [exact Hs'|]; rewrite Hq; simpl; rewrite <- app_assoc; simpl;
     rewrite Nat.add_0_r; do 2 f_equal; apply imap_ext; intros i x _; simpl;
     rewrite length_app; simpl; f_equal; lia).
Qed.

(** Registering user functions on a promise, one after the other. *)
Definition user_fns := (option F * option F * option F)%type.

Fixpoint register (fuel d : nat) (fs : list user_fns) (s : q) : option q :=
  match fs with
  | [] => Some s
  | f :: fs =>
      match then_ fuel (TPromise d) (User <$> f.1.1) (User <$> f.1.2) (User <$> f.2) s with
      | Some (_, s) => register fuel d fs s
      | None => None
      end
  end.

Definition registered (r : nat) (f : user_fns) : fn * fn * fn :=
  (Wrapped r (User <$> f.1.1), WrappedErr r (User <$> f.1.2), WrappedProg r (User <$> f.2)).

Lemma register_spec fuel d fs : forall s cs w, deferreds s !! d = Some (Deferred true cs w) ->
  exists s', register (S fuel) d fs s = Some s' /\ queue s' = queue s /\
    length (deferreds s') = (length (deferreds s) + length fs)%nat /\
    deferreds s' !! d = Some (Deferred true (cs ++ imap (fun i f => registered (length (deferreds s) + i) f) fs) w).
Proof.
  induction fs as [|f fs IH]; intros s cs w Hd.
  { exists s. cbn. rewrite app_nil_r. by rewrite Nat.add_0_r. }
  cbn [register then_ defer]. pose proof (lookup_lt_Some _ _ _ Hd).
  set (s0 := set_deferreds (deferreds s ++ [Deferred true [] None]) s).
  assert (Hd0 : deferreds s0 !! d = Some (Deferred true cs w)) by (simpl; by rewrite lookup_app_l).
  rewrite Hd0. set (s1 := set_deferreds _ s0).
  destruct (IH s1 (cs ++ [registered (length (deferreds s)) f]) w) as (s' & Hs' & Hq & Hl & Hd').
  { simpl. apply list_lookup_insert_eq. rewrite length_app. simpl. lia. }
  exists s'. split; [exact Hs'|]. split; [by rewrite Hq|]. split.
  { rewrite Hl. simpl. rewrite length_insert, length_app. simpl. lia. }
  rewrite Hd'. simpl. rewrite <- app_assoc. simpl. rewrite Nat.add_0_r. do 3 f_equal.
  f_equal. apply imap_ext. intros i x _. simpl. rewrite length_insert, length_app. simpl. f_equal. lia.
Qed.

(** ** Lemmas: [all] *)

Definition missing (rs : list (option val)) : nat := length (filter (fun o => o = None) rs).

(** One outcome of a promise given to [all]. *)
Definition arrive (a key : nat) (o : val + val) : prog :=
  match o with inl v => apply_fn (AllOk a key) v | inr e => apply_fn (AllErr a key) e end.

(** What [all] promises: the first outcome of each key counts, the first
    failure rejects, the last success resolves. *)
Definition all_spec (a key : nat) (o : val + val) (st : list (option val) * option thenable) :
    list (option val) * option thenable :=
  let '(rs, out) := st in
  match rs !! key with
  | Some (Some _) => st
  | _ =>
      match o with
      | inl v =>
          let rs := <[key := Some v]> rs in
          (rs, match out with None => if Nat.eqb (missing rs) 0 then Some (TRef (VResults a)) else None | _ => out end)
      | inr e => (rs, match out with None => Some (TRejected e) | _ => out end)
      end
  end.

Record all_rep (a d : nat) (st : list (option val) * option thenable) (s : q) : Prop := AllRep {
  rep_all : alls s !! a = Some (AllState d (missing st.1) st.1);
  rep_deferred : exists cs, deferreds s !! d = Some (Deferred (bool_decide (st.2 = None)) cs st.2)
}.

Lemma missing_insert rs key v : rs !! key = Some None -> missing rs = S (missing (<[key := Some v]> rs)).
Proof.
  intros Hk. rewrite <- (take_drop_middle rs key None Hk) at 1. unfold missing.
  rewrite insert_take_drop by (by eapply lookup_lt_Some).
  rewrite !filter_app, !length_app, !filter_cons_True, filter_cons_False by done. simpl. lia.
Qed.

Lemma alls_settle d t s : alls (settle d t s) = alls s.
Proof. unfold settle. by destruct (deferreds s !! d) as [[[] [|? ?] ?]|]. Qed.

Lemma rep_settle a d st t s : all_rep a d st s ->
  all_rep a d (st.1, match st.2 with None => Some t | o => o end) (settle d t s).
Proof.
  intros [Ha [cs Hd]]. split; [by rewrite alls_settle|]. exists cs. destruct st as [rs [out|]]; simpl in *.
  - eapply keeps_settle; [exact Hd|done].
  - by erewrite settle_pending.
Qed.

Lemma arrive_spec fuel a d key o st s : all_rep a d st s -> (key < length st.1)%nat ->
  exists s', run fuel (arrive a key o) s = Some (s', Ok VUndefined) /\ all_rep a d (all_spec a key o st) s'.
Proof.
  intros Hrep Hk. destruct (Hrep) as [Ha [cs Hd]]. destruct st as [rs out]. simpl in Ha, Hk.
  destruct (lookup_lt_is_Some_2 rs key Hk) as [r Hr].
  destruct o as [v|e]; cbn [arrive apply_fn run all_spec]; rewrite Ha; unfold has_key; cbn [results]; rewrite Hr;
    (destruct r as [r|]; [by exists s|]); cbn [run].
  - set (s1 := set_all a (store_key key v) s).
    assert (Ha1 : alls s1 !! a = Some (AllState d (missing (<[key := Some v]> rs)) (<[key := Some v]> rs))).
    { unfold s1, set_all. cbn [alls]. rewrite list_lookup_alter_eq, Ha. cbn [fmap option_fmap option_map].
      unfold store_key. cbn [a_deferred counter results]. by rewrite (missing_insert rs key v). }
    rewrite Ha1. cbn [counter a_deferred].
    assert (Hrep1 : all_rep a d (<[key := Some v]> rs, out) s1) by (split; [exact Ha1|by exists cs]).
    destruct (missing (<[key := Some v]> rs)) eqn:Hm; cbn [run Nat.eqb].
    + eexists. split; [done|]. apply (rep_settle a d _ (TRef (VResults a))) in Hrep1. destruct out; exact Hrep1.
    + exists s1. split; [done|]. by destruct out.
  - rewrite Ha. cbn [run a_deferred counter]. eexists. split; [done|]. apply (rep_settle a d _ (TRejected e)) in Hrep. destruct out; exact Hrep.
Qed.

(** ** Lemmas: a promise resolved with itself *)

Lemma self_then_diverges fuel : forall d cs a b c s,
  deferreds s !! d = Some (Deferred false cs (Some (TPromise d))) -> then_ fuel (TPromise d) a b c s = None.
Proof.
  induction fuel as [|fuel IH]; intros d cs a b c s Hd; [done|]. cbn [then_ defer].
  set (s0 := set_deferreds _ s).
  assert (Hd0 : deferreds s0 !! d = Some (Deferred false cs (Some (TPromise d)))).
  { simpl. rewrite lookup_app_l; [done|]. by eapply lookup_lt_Some. }
  rewrite Hd0. by erewrite IH.
Qed.
End Q.
Arguments val : clear implicits.
Arguments prog : clear implicits.
Arguments q : clear implicits.
Arguments event : clear implicits.

(** ** What the promises promise *)

(** C17: a deferred is settled once: the first [resolve] or [reject] on a pending
    deferred fixes its value, and nothing that happens afterwards - further
    settlements of the same deferred, calls of any other method, callbacks that
    run, throw or settle other deferreds, in any order - changes it or makes it
    pending again. *)
Theorem settled_once {V F} (user : F -> val V -> prog V F) (fuel d : nat) (t : thenable) (evs : list (event V F)) (s s' : q V F) cs w :
  deferreds s !! d = Some (Deferred true cs w) ->
  execs user fuel evs (settle d t s) = Some s' ->
  deferreds s' !! d = Some (Deferred false cs (Some t)).
Proof.
  intros Hd He. eapply keeps_execs; [exact He|by eapply settle_pending|done].
Qed.

Definition q_empty {V F} : q V F := Q [] [] [] [] [].

Lemma settled_once_witness :
  let s := (defer (V := nat) (F := unit) q_empty).2 in
  let evs := [Call (Reject 0 (VPlain 2%nat) (Return VUndefined)); Call (Then (TPromise 0) (Some (User tt)) None None Return);
              Tick; Tick; Call (Resolve 0 (VPlain 3%nat) (Return VUndefined))] in
  exists s', execs (fun _ v => Throw v) 10 evs (settle 0 (TRef (VPlain 1%nat)) s) = Some s' /\
    handled s' = [VPlain 1%nat] /\ deferreds s' !! 0%nat = Some (Deferred false [] (Some (TRef (VPlain 1%nat)))).
Proof.
  intros s evs. eexists. split; [vm_compute; reflexivity|]. split; [reflexivity|].
  apply (settled_once (fun _ v => Throw v) 10 0 (TRef (VPlain 1%nat)) evs s _ [] None); [reflexivity|vm_compute; reflexivity].
Defined.

(** The callbacks of a promise run in the order they were registered, each
    once and never before the next turn: after [fs] are registered on a pending
    promise and it is resolved with a plain value (or rejected), one turn of the
    queue has put exactly one call per registration, in order, after what was
    queued meanwhile - the success callback with the value, or the error
    callback with the reason - and each call settles the promise that its
    registration returned. *)
Theorem callbacks_in_order {V F} (user : F -> val V -> prog V F) (fuel d : nat) (fs : list user_fns) (t : thenable (V := V)) (s : q V F) :
  deferreds s !! d = Some (Deferred true [] None) -> queue s = [] -> fs <> [] -> is_promise t = false ->
  exists s1 s2, register (S fuel) d fs s = Some s1 /\ queue s1 = [] /\
    queue (settle d t s1) = [RunCallbacks d] /\
    tick user (S fuel) (settle d t s1) = Some s2 /\
    queue s2 = imap (fun i f =>
      call_task t (length (deferreds s) + length fs + i) (registered (length (deferreds s) + i) f)) fs.
Proof.
  intros Hd Hq Hfs Ht. destruct (register_spec fuel d fs s [] None Hd) as (s1 & H1 & Hq1 & Hl1 & Hd1).
  exists s1. rewrite Hq in Hq1. cbn [app] in Hd1. set (cs := imap _ fs) in Hd1.
  assert (Hcs : cs <> []).
  { intros H0. apply (f_equal length) in H0. unfold cs in H0. rewrite length_imap in H0. by destruct fs. }
  assert (Hset : settle d t s1 = nextTick (RunCallbacks d) (set_deferreds (<[d := Deferred false cs (Some t)]> (deferreds s1)) s1)).
  { unfold settle. rewrite Hd1. by destruct cs. }
  pose proof (settle_pending d t s1 _ _ Hd1) as Hd2. rewrite Hset in *.
  set (s2 := Q (<[d := Deferred false cs (Some t)]> (deferreds s1)) [] (handled s1) (dones s1) (alls s1)).
  destruct (then_all_tasks fuel t cs Ht s2) as (s3 & H3 & Hq3).
  exists s3. split; [done|]. split; [done|]. split; [simpl; by rewrite Hq1|]. split.
  - unfold tick. simpl queue. rewrite Hq1. cbn [app]. cbv beta iota zeta. simpl in Hd2. simpl. rewrite Hd2. exact H3.
  - rewrite Hq3. simpl. unfold cs. rewrite imap_imap. apply imap_ext. intros i f _. simpl.
    rewrite length_insert. f_equal. lia.
Qed.

Lemma callbacks_in_order_witness :
  let s := (defer (V := nat) (F := nat) q_empty).2 in
  let fs : list (user_fns (F := nat)) := [(Some 1%nat, None, None); (Some 2%nat, None, None); (None, Some 3%nat, None)] in
  exists s1 s2, register 5 0 fs s = Some s1 /\ queue s1 = [] /\
    queue (settle 0 (TRef (VPlain 7%nat)) s1) = [RunCallbacks 0] /\
    tick (fun _ v => Return v) 5 (settle 0 (TRef (VPlain 7%nat)) s1) = Some s2 /\
    queue s2 = [RunRef 4 (Some (Wrapped 1 (Some (User 1%nat)))) (VPlain 7%nat);
                RunRef 5 (Some (Wrapped 2 (Some (User 2%nat)))) (VPlain 7%nat);
                RunRef 6 (Some (Wrapped 3 None)) (VPlain 7%nat)].
Proof.
  intros s fs. apply (callbacks_in_order (fun _ v => Return v) 4 0 fs (TRef (VPlain 7%nat)) s); done.
Defined.

(** Resolving a deferred with its own promise is accepted, and makes every
    later use of the promise overflow the stack: the recursive call of [then]
    reaches the same promise at any depth. *)
Theorem self_resolution_overflows {V F} (fuel d : nat) (s : q V F) cs w cb eb pb :
  deferreds s !! d = Some (Deferred true cs w) ->
  then_ fuel (TPromise d) cb eb pb (resolve d (promise d) s) = None.
Proof.
  intros Hd. eapply self_then_diverges. unfold resolve, promise. simpl. by eapply settle_pending.
Qed.

Lemma self_resolution_overflows_witness :
  let s := (defer (V := nat) (F := unit) q_empty).2 in
  then_ 1000 (TPromise 0) (Some (User tt)) None None (resolve 0 (promise 0) s) = None.
Proof. intros s. by apply (self_resolution_overflows 1000 0 s [] None). Defined.
