(* ===== verification/NgScope.v ===== *)
(** * NgScope: the framework's scopes, watchers and events

    [$rootScope] of [angular.js] (12094-13194), without the digest, which is in
    NgDigest.  A scope, a watcher, an array of watchers or of listeners, and an
    event are objects that the code shares and mutates; each is an entry of a
    store of the state, named by a number.  Scope [0] is [$rootScope].  [prog] is
    what a function of the application does when it is called: the calls of the
    scopes' methods it makes, in order, and its return or throw.

    The expando properties that expressions read and write live in [heap]; the
    prototype chain of scopes is kept only for the framework's own properties. *)

From S2P Require Import Prelude Text Js.

#[local] Set Warnings "-register-all".

Section Scope.
Context {F : Type} `{!EqDecision F}.

(** ** Data *)

Record watch := MkWatch {
  w_get : F;
  w_fn : F;
  w_last : option jsval;       (** [None] is [initWatchVal] *)
  w_eq : bool;
  w_constant : bool            (** a constant expression, watched once *)
}.

Record scope := MkScope {
  s_parent : option nat;
  s_proto : option nat;        (** the parent, unless isolate *)
  s_destroyed : bool;          (** own [$$destroyed] *)
  s_dead : bool;               (** the methods were replaced by [$destroy] *)
  s_lost : bool;               (** own queues are those of a destroyed scope *)
  s_watchers : option nat;
  s_next : option nat;
  s_prev : option nat;
  s_head : option nat;
  s_tail : option nat;
  s_listeners : gmap string nat;
  s_count : gmap string (option Z)   (** [None] is NaN *)
}.

Record event := MkEvent {
  e_name : string;
  e_target : nat;
  e_current : option nat;
  e_stopped : bool;
  e_prevented : bool
}.

Record st := St {
  heap : jsheap;
  scopes : gmap nat scope;
  warrays : list (list nat);
  watches : list watch;
  larrays : list (list (option F));
  events : list event;
  asyncQueue : list (nat * F);
  postDigestQueue : list F;
  lastDirtyWatch : option nat;
  phase : option string;
  deferred_digests : nat;      (** calls of [$browser.defer] by [$evalAsync] *)
  handled : list jsval         (** what [$exceptionHandler] got *)
}.

(** What the framework calls a function of the application with. *)
Inductive arg : Type :=
| AGet (s : nat)
| AWatch (new old : jsval) (s : nat)
| AEvent (e : nat)
| AEval (s : nat)
| APost.

Inductive prog : Type :=
| Return (v : jsval)
| Throw (e : jsval)
| Heap (k : jsheap -> prog)
| SetHeap (h : jsheap) (k : prog)
| New (isolate : bool) (s : nat) (k : nat -> prog)
| Destroy (s : nat) (k : prog)
| Watch (s : nat) (get fn : F) (eq constant : bool) (k : option (nat * nat) -> prog)
| Unwatch (handle : option (nat * nat)) (k : prog)
| On (s : nat) (name : string) (listener : F) (k : option nat -> prog)
| Off (s : nat) (name : string) (listener : F) (array : option nat) (k : prog)
| Emit (s : nat) (name : string) (k : nat -> prog)
| Broadcast (s : nat) (name : string) (k : nat -> prog)
| Stop (e : nat) (k : prog)
| Prevent (e : nat) (k : prog)
| EvalAsync (s : nat) (f : F) (k : prog)
| PostDigest (s : nat) (f : F) (k : prog).

Definition TypeError : jsval := JStr "TypeError".

(** ** Assignments *)

Definition set_heap (h : jsheap) (s : st) : st :=
  St h (scopes s) (warrays s) (watches s) (larrays s) (events s) (asyncQueue s) (postDigestQueue s) (lastDirtyWatch s) (phase s) (deferred_digests s) (handled s).
Definition set_scopes (x : gmap nat scope) (s : st) : st :=
  St (heap s) x (warrays s) (watches s) (larrays s) (events s) (asyncQueue s) (postDigestQueue s) (lastDirtyWatch s) (phase s) (deferred_digests s) (handled s).
Definition set_watching (wa : list (list nat)) (ws : list watch) (last : option nat) (s : st) : st :=
  St (heap s) (scopes s) wa ws (larrays s) (events s) (asyncQueue s) (postDigestQueue s) last (phase s) (deferred_digests s) (handled s).
Definition set_larrays (x : list (list (option F))) (s : st) : st :=
  St (heap s) (scopes s) (warrays s) (watches s) x (events s) (asyncQueue s) (postDigestQueue s) (lastDirtyWatch s) (phase s) (deferred_digests s) (handled s).
Definition set_events (x : list event) (s : st) : st :=
  St (heap s) (scopes s) (warrays s) (watches s) (larrays s) x (asyncQueue s) (postDigestQueue s) (lastDirtyWatch s) (phase s) (deferred_digests s) (handled s).
Definition set_queues (a : list (nat * F)) (p : list F) (d : nat) (s : st) : st :=
  St (heap s) (scopes s) (warrays s) (watches s) (larrays s) (events s) a p (lastDirtyWatch s) (phase s) d (handled s).
Definition set_phase (x : option string) (s : st) : st :=
  St (heap s) (scopes s) (warrays s) (watches s) (larrays s) (events s) (asyncQueue s) (postDigestQueue s) (lastDirtyWatch s) x (deferred_digests s) (handled s).
Definition exceptionHandler (e : jsval) (s : st) : st :=
  St (heap s) (scopes s) (warrays s) (watches s) (larrays s) (events s) (asyncQueue s) (postDigestQueue s) (lastDirtyWatch s) (phase s) (deferred_digests s) (handled s ++ [e]).

Definition upd (i : nat) (f : scope -> scope) (s : st) : st := set_scopes (alter f i (scopes s)) s.

Definition upd_opt (i : option nat) (f : scope -> scope) (s : st) : st :=
  match i with Some i => upd i f s | None => s end.

Definition with_links (parent next prev head tail : option nat) (c : scope) : scope :=
  MkScope parent (s_proto c) (s_destroyed c) (s_dead c) (s_lost c) (s_watchers c) next prev head tail (s_listeners c) (s_count c).
Definition with_next (x : option nat) (c : scope) : scope :=
  with_links (s_parent c) x (s_prev c) (s_head c) (s_tail c) c.
Definition with_prev (x : option nat) (c : scope) : scope :=
  with_links (s_parent c) (s_next c) x (s_head c) (s_tail c) c.
Definition with_head (x : option nat) (c : scope) : scope :=
  with_links (s_parent c) (s_next c) (s_prev c) x (s_tail c) c.
Definition with_tail (x : option nat) (c : scope) : scope :=
  with_links (s_parent c) (s_next c) (s_prev c) (s_head c) x c.
Definition with_watchers (x : option nat) (c : scope) : scope :=
  MkScope (s_parent c) (s_proto c) (s_destroyed c) (s_dead c) (s_lost c) x (s_next c) (s_prev c) (s_head c) (s_tail c) (s_listeners c) (s_count c).
Definition with_listeners (x : gmap string nat) (n : gmap string (option Z)) (c : scope) : scope :=
  MkScope (s_parent c) (s_proto c) (s_destroyed c) (s_dead c) (s_lost c) (s_watchers c) (s_next c) (s_prev c) (s_head c) (s_tail c) x n.
Definition with_destroyed (dead : bool) (c : scope) : scope :=
  MkScope (s_parent c) (s_proto c) true (dead || s_dead c) (s_lost c) (s_watchers c) (s_next c) (s_prev c) (s_head c) (s_tail c) (s_listeners c) (s_count c).

(** ** Scopes *)

(** A property looked up along the prototype chain. *)
Fixpoint on_chain (fuel : nat) (p : scope -> bool) (s : st) (i : nat) : bool :=
  match fuel, scopes s !! i with
  | S fuel, Some c => p c || match s_proto c with Some j => on_chain fuel p s j | None => false end
  | _, _ => false
  end.

Definition is_destroyed (s : st) (i : nat) : bool := on_chain (size (scopes s)) s_destroyed s i.
Definition is_dead (s : st) (i : nat) : bool := on_chain (size (scopes s)) s_dead s i.

Definition has_lost_queues (s : st) (i : nat) : bool :=
  on_chain (size (scopes s)) (fun c => s_dead c || s_lost c) s i.

Definition new_scope (isolate lost : bool) (parent : nat) (prev : option nat) : scope :=
  MkScope (Some parent) (if isolate then None else Some parent) false false lost None None prev None None ∅ ∅.

(** [$new]. *)
Definition new_ (isolate : bool) (this : nat) (s : st) : nat * st :=
  let child := fresh (dom (scopes s)) in
  match scopes s !! this with
  | Some p =>
      let lost := isolate && has_lost_queues s this in
      let s := set_scopes (<[child := new_scope isolate lost this (s_tail p)]> (scopes s)) s in
      (child,
       match s_head p with
       | Some _ => upd this (with_tail (Some child)) (upd_opt (s_tail p) (with_next (Some child)) s)
       | None => upd this (fun c => with_tail (Some child) (with_head (Some child) c)) s
       end)
  | None => (child, s)
  end.

(** ** Watchers *)

(** [arrayRemove] of the first occurrence. *)
Fixpoint remove_first (w : nat) (ws : list nat) : list nat :=
  match ws with
  | [] => []
  | x :: ws => if (x =? w)%nat then ws else x :: remove_first w ws
  end.

(** [$watch]; [None] is the [noop] of a destroyed scope. *)
Definition watch_ (this : nat) (get fn : F) (eq constant : bool) (s : st) : option (nat * nat) * st :=
  if is_dead s this then (None, s)
  else
    let w := length (watches s) in
    let ws := watches s ++ [MkWatch get fn None eq constant] in
    match scopes s !! this with
    | Some c =>
        match s_watchers c with
        | Some a => (Some (a, w), set_watching (alter (fun l => w :: l) a (warrays s)) ws None s)
        | None =>
            let a := length (warrays s) in
            (Some (a, w), upd this (with_watchers (Some a)) (set_watching (warrays s ++ [[w]]) ws None s))
        end
    | None => (None, s)
    end.

(** The function [$watch] returns. *)
Definition deregisterWatch (handle : option (nat * nat)) (s : st) : st :=
  match handle with
  | Some (a, w) => set_watching (alter (remove_first w) a (warrays s)) (watches s) None s
  | None => s
  end.

(** ** Listeners *)

(** [$$listenerCount[name]] as a number, and whether it is truthy. *)
Definition count_of (c : scope) (name : string) : option Z :=
  match s_count c !! name with Some n => n | None => None end.
Definition has_count (c : scope) (name : string) : bool :=
  match count_of c name with Some n => negb (n =? 0) | None => false end.

Definition set_count (name : string) (n : option Z) (c : scope) : scope :=
  with_listeners (s_listeners c) (<[name := n]> (s_count c)) c.
Definition delete_count (name : string) (c : scope) : scope :=
  with_listeners (s_listeners c) (delete name (s_count c)) c.

(** The loops over [current.$parent]. *)
Fixpoint add_counts (fuel : nat) (name : string) (current : nat) (s : st) : st :=
  match fuel, scopes s !! current with
  | S fuel, Some c =>
      let n := if has_count c name then count_of c name else Some 0 in
      let s := upd current (set_count name ((fun n => n + 1) <$> n)) s in
      match s_parent c with Some p => add_counts fuel name p s | None => s end
  | _, _ => s
  end.

Fixpoint decrementListenerCount (fuel : nat) (current : nat) (count : option Z) (name : string) (s : st) : st :=
  match fuel, scopes s !! current with
  | S fuel, Some c =>
      let n := match count_of c name, count with Some n, Some count => Some (n - count) | _, _ => None end in
      let s := upd current (if bool_decide (n = Some 0) then delete_count name else set_count name n) s in
      match s_parent c with Some p => decrementListenerCount fuel p count name s | None => s end
  | _, _ => s
  end.

(** [$on]: the array the returned function looks the listener up in. *)
Definition on (this : nat) (name : string) (listener : F) (s : st) : option nat * st :=
  if is_dead s this then (None, s)
  else
    match scopes s !! this with
    | Some c =>
        let '(a, s) :=
          match s_listeners c !! name with
          | Some a => (a, s)
          | None =>
              let a := length (larrays s) in
              (a, upd this (fun c => with_listeners (<[name := a]> (s_listeners c)) (s_count c) c)
                    (set_larrays (larrays s ++ [[]]) s))
          end in
        let s := set_larrays (alter (fun l => l ++ [Some listener]) a (larrays s)) s in
        (Some a, add_counts (size (scopes s)) name this s)
    | None => (None, s)
    end.

Fixpoint index_of_listener (listener : F) (l : list (option F)) : option nat :=
  match l with
  | [] => None
  | x :: l => if bool_decide (x = Some listener) then Some 0%nat else S <$> index_of_listener listener l
  end.

(** The function [$on] returns. *)
Definition off (this : nat) (name : string) (listener : F) (array : option nat) (s : st) : st :=
  match array with
  | Some a =>
      match index_of_listener listener (default [] (larrays s !! a)) with
      | Some i =>
          decrementListenerCount (size (scopes s)) this (Some 1) name
            (set_larrays (alter (fun l => <[i := None]> l) a (larrays s)) s)
      | None => s
      end
  | None => s
  end.

(** ** Walking the tree *)

(** [while (current !== target && !(next = current.$$nextSibling)) current =
    current.$parent]; reading a property of [null] throws. *)
Fixpoint climb (fuel target current : nat) (s : st) : option (result jsval (option nat)) :=
  match fuel with
  | O => None
  | S fuel =>
      if (current =? target)%nat then Some (Ok None)
      else
        match scopes s !! current with
        | None => Some (Err TypeError)
        | Some c =>
            match s_next c, s_parent c with
            | Some n, _ => Some (Ok (Some n))
            | None, Some p => climb fuel target p s
            | None, None => Some (Err TypeError)
            end
        end
  end.

(** The next scope in depth-first order; [enter] tells whether to go into the
    children. *)
Definition next_scope (fuel target current : nat) (enter : bool) (s : st) : option (result jsval (option nat)) :=
  match scopes s !! current with
  | Some c =>
      match (if enter then s_head c else None) with
      | Some h => Some (Ok (Some h))
      | None => climb fuel target current s
      end
  | None => Some (Err TypeError)
  end.

(** ** Events *)

Definition outcome := option (st * result jsval jsval).

Section Calls.
(** The call of a function of the application. *)
Context (call : F -> arg -> st -> outcome).

Definition guarded (f : F) (a : arg) (s : st) : option st :=
  match call f a s with
  | Some (s, Ok _) => Some s
  | Some (s, Err e) => Some (exceptionHandler e s)
  | None => None
  end.

(** The loop over the listeners of one scope: [k] is [length - i]. *)
Fixpoint listeners_loop (e a : nat) (i k : nat) (s : st) : option st :=
  match k with
  | O => Some s
  | S k =>
      match default [] (larrays s !! a) !! i with
      | Some (Some f) =>
          match guarded f (AEvent e) s with
          | Some s => listeners_loop e a (S i) k s
          | None => None
          end
      | _ => listeners_loop e a i k (set_larrays (alter (fun l => take i l ++ drop (S i) l) a (larrays s)) s)
      end
  end.

Definition set_current (e : nat) (c : option nat) (s : st) : st :=
  set_events (alter (fun x => MkEvent (e_name x) (e_target x) c (e_stopped x) (e_prevented x)) e (events s)) s.

Definition deliver (e : nat) (name : string) (current : nat) (s : st) : option st :=
  let s := set_current e (Some current) s in
  match scopes s !! current with
  | Some c =>
      match s_listeners c !! name with
      | Some a => listeners_loop e a 0 (length (default [] (larrays s !! a))) s
      | None => Some s
      end
  | None => Some s
  end.

Definition stopped (e : nat) (s : st) : bool :=
  match events s !! e with Some x => e_stopped x | None => false end.

(** [$emit], after the event is made. *)
Fixpoint emit_loop (fuel e : nat) (name : string) (current : nat) (s : st) : option st :=
  match fuel with
  | O => None
  | S fuel =>
      match deliver e name current s with
      | None => None
      | Some s =>
          if stopped e s then Some s
          else
            match scopes s !! current with
            | Some c => match s_parent c with Some p => emit_loop fuel e name p s | None => Some s end
            | None => Some s
            end
      end
  end.

(** [$broadcast], after the event is made. *)
Fixpoint broadcast_loop (fuel e : nat) (name : string) (target current : nat) (s : st) : option (st * result jsval unit) :=
  match fuel with
  | O => None
  | S fuel =>
      match deliver e name current s with
      | None => None
      | Some s =>
          let enter := match scopes s !! current with Some c => has_count c name | None => false end in
          match next_scope fuel target current enter s with
          | None => None
          | Some (Err x) => Some (s, Err x)
          | Some (Ok None) => Some (s, Ok tt)
          | Some (Ok (Some n)) => broadcast_loop fuel e name target n s
          end
      end
  end.

Definition new_event (name : string) (target : nat) (s : st) : nat * st :=
  (length (events s), set_events (events s ++ [MkEvent name target None false false]) s).

(** [$destroy]. *)
Definition unlink (this parent : nat) (s : st) : st :=
  match scopes s !! this with
  | Some c =>
      let s := map_fold (fun name count s => decrementListenerCount (size (scopes s)) this count name s) s (s_count c) in
      let s := upd parent (fun p => if bool_decide (s_head p = Some this) then with_head (s_next c) p else p) s in
      let s := upd parent (fun p => if bool_decide (s_tail p = Some this) then with_tail (s_prev c) p else p) s in
      let s := upd_opt (s_prev c) (with_next (s_next c)) s in
      let s := upd_opt (s_next c) (with_prev (s_prev c)) s in
      upd this (fun c => with_destroyed true (with_listeners ∅ (s_count c) (with_watchers None
        (with_links None None None None None c)))) s
  | None => s
  end.

Definition destroy (fuel this : nat) (s : st) : option (st * result jsval unit) :=
  if is_destroyed s this || is_dead s this then Some (s, Ok tt)
  else
    let parent := match scopes s !! this with Some c => default this (s_parent c) | None => this end in
    let (e, s) := new_event "$destroy" this s in
    match broadcast_loop fuel e "$destroy" this this s with
    | None => None
    | Some (s, Err x) => Some (s, Err x)
    | Some (s, Ok _) =>
        if (this =? 0)%nat then Some (upd this (with_destroyed false) s, Ok tt) else Some (unlink this parent s, Ok tt)
    end.

(** ** Queues *)

Definition evalAsync (this : nat) (f : F) (s : st) : st :=
  let d := match phase s, asyncQueue s with None, [] => S (deferred_digests s) | _, _ => deferred_digests s end in
  if has_lost_queues s this then set_queues (asyncQueue s) (postDigestQueue s) d s
  else set_queues (asyncQueue s ++ [(this, f)]) (postDigestQueue s) d s.

Definition postDigest (this : nat) (f : F) (s : st) : st :=
  if has_lost_queues s this then s
  else set_queues (asyncQueue s) (postDigestQueue s ++ [f]) (deferred_digests s) s.

Definition flag_event (stop prevent : bool) (e : nat) (s : st) : st :=
  set_events (alter (fun x => MkEvent (e_name x) (e_target x) (e_current x) (stop || e_stopped x) (prevent || e_prevented x)) e (events s)) s.

(** ** Functions of the application *)

Fixpoint run (fuel : nat) (p : prog) (s : st) : outcome :=
  match p with
  | Return v => Some (s, Ok v)
  | Throw e => Some (s, Err e)
  | Heap k => run fuel (k (heap s)) s
  | SetHeap h k => run fuel k (set_heap h s)
  | New isolate i k => let (c, s) := new_ isolate i s in run fuel (k c) s
  | Destroy i k =>
      match destroy fuel i s with
      | Some (s, Ok _) => run fuel k s
      | Some (s, Err e) => Some (s, Err e)
      | None => None
      end
  | Watch i get fn eq constant k => let (w, s) := watch_ i get fn eq constant s in run fuel (k w) s
  | Unwatch handle k => run fuel k (deregisterWatch handle s)
  | On i name f k => let (a, s) := on i name f s in run fuel (k a) s
  | Off i name f a k => run fuel k (off i name f a s)
  | Emit i name k =>
      let (e, s) := new_event name i s in
      match emit_loop fuel e name i s with Some s => run fuel (k e) s | None => None end
  | Broadcast i name k =>
      let (e, s) := new_event name i s in
      match broadcast_loop fuel e name i i s with
      | Some (s, Ok _) => run fuel (k e) s
      | Some (s, Err x) => Some (s, Err x)
      | None => None
      end
  | Stop e k => run fuel k (flag_event true false e s)
  | Prevent e k => run fuel k (flag_event false true e s)
  | EvalAsync i f k => run fuel k (evalAsync i f s)
  | PostDigest i f k => run fuel k (postDigest i f s)
  end.
End Calls.

(** What each function does; [fuel] bounds the nesting of calls and the number
    of scopes an event walks. *)
Context (user : F -> arg -> prog).

Fixpoint call (fuel : nat) (f : F) (a : arg) (s : st) : outcome :=
  match fuel with
  | O => None
  | S fuel => run (call fuel) fuel (user f a) s
  end.
End Scope.

(** ** Removing a listener while events nest

    A removed listener leaves a hole that the next delivery splices out, so a
    delivery nested in another moves the elements under the outer loop's index:
    here [C] misses the outer event, [D] gets both. *)

Inductive demo_listener : Type := A | B | C | D.

#[global] Instance demo_listener_eq : EqDecision demo_listener.
Proof. solve_decision. Defined.

Definition bump (k : string) (ps : list (string * jsval)) : list (string * jsval) :=
  prop_set ps k (match prop_get ps k with JNum n => JNum (n + 1) | _ => JNum 1 end).

Definition demo_listeners (f : demo_listener) (a : arg) : prog (F := demo_listener) :=
  let name := match f with A => "A" | B => "B" | C => "C" | D => "D" end in
  Heap (fun h => match h !! 0%nat with
    | Some o =>
        let ps := obj_props o in
        SetHeap (<[0%nat := OPlain (bump name ps)]> h)
          (match f, prop_get ps "B" with
           | B, JUndef => Off 0 "x" A (Some 0%nat) (Emit 0 "x" (fun _ => Return JUndef))
           | _, _ => Return JUndef
           end)
    | None => Return JUndef
    end).

Definition four_listeners : st (F := demo_listener) :=
  let root := MkScope None None false false false None None None None None ∅ ∅ in
  foldl (fun s f => (on 0 "x" f s).2)
    (St {[0%nat := OPlain []]} {[0%nat := root]} [] [] [] [] [] [] None None 0 []) [A; B; C; D].

Example nested_emit_skips_listener :
  (let (e, s) := new_event "x" 0 four_listeners in
   (fun s => default [] (obj_props <$> heap s !! 0%nat)) <$> emit_loop (call demo_listeners 10) 10 e "x" 0 s) =
  Some [("A", JNum 1); ("B", JNum 2); ("C", JNum 1); ("D", JNum 2)].
Proof. vm_compute. reflexivity. Qed.
