(* ===== verification/NgDigest.v ===== *)
(** * NgDigest: the digest loop

    [$digest], [$apply] and their phases ([angular.js] 12639-12746, 12946-12961,
    13160-13170), on the scopes of NgScope.  The loop over the watchers reads the
    array of the scope anew at each index, as the code does, so a listener may
    change it meanwhile.  The log of the last watchers that fired, which only
    enters the message of an error, is left out.

    The theorems are about the dirty checking: that it ends, that it leaves no
    watcher behind although a pass stops at the last dirty watcher, and the two
    ways in which application code makes it fail. *)

From S2P Require Import Prelude Text Js NgCore NgScope.

#[local] Set Warnings "-register-all".

Section Digest.
Context {F : Type} `{!EqDecision F}.
(** The objects that are scopes or windows, the functions of the application,
    and what [$browser.$$checkUrlChange] runs. *)
Context (special : nat -> bool) (user : F -> arg -> prog (F := F)) (checkUrlChange : prog (F := F)).
Local Abbreviation state := (st (F := F)).

Definition clearPhase (s : state) : state := set_phase None s.

Definition beginPhase (name : string) (s : state) : state + jsval :=
  match phase s with Some _ => inr (JStr "$rootScope:inprog") | None => inl (set_phase (Some name) s) end.

Definition with_last (last : option jsval) (w : watch (F := F)) : watch :=
  MkWatch (w_get w) (w_fn w) last (w_eq w) (w_constant w).

(** The test of 12682-12686; [None] when [equals] overflows the stack. *)
Definition is_dirty (fuel : nat) (h : jsheap) (w : watch (F := F)) (value : jsval) : option bool :=
  match w_last w with
  | None => Some true
  | Some last =>
      if strict_eq value last then Some false
      else if w_eq w then negb <$> Equals.equals special h fuel value last
      else Some (negb (bool_decide (value = JNaN) && bool_decide (last = JNaN)))
  end.

Definition set_last_dirty (w : option nat) (s : state) : state := set_watching (warrays s) (watches s) w s.

(** [catch (e)] of the digest. *)
Definition caught (e : jsval) (s : state) : state := exceptionHandler e (clearPhase s).

(** [watch.last = watch.eq ? copy(value, null) : value; watch.fn(...)]. *)
Definition fire (fuel a i current : nat) (w : watch (F := F)) (value : jsval) (s : state) : option state :=
  match (if w_eq w then Copy.copy special fuel (heap s) [] value else Ok (value, heap s, [])) with
  | Err e => Some (caught (JStr e) s)
  | Ok (last, h, _) =>
      let s := set_heap h s in
      let s := set_watching (warrays s) (alter (with_last (Some last)) i (watches s)) (lastDirtyWatch s) s in
      match call user fuel (w_fn w) (AWatch value (default value (w_last w)) current) s with
      | None => None
      | Some (s, Ok _) =>
          Some (if w_constant w then set_watching (alter (remove_first i) a (warrays s)) (watches s) (lastDirtyWatch s) s else s)
      | Some (s, Err e) => Some (caught e s)
      end
  end.

(** One watcher: the state, whether it was dirty, and whether the pass stops. *)
Definition visit (fuel a i current : nat) (s : state) : option (state * bool * bool) :=
  match watches s !! i with
  | None => Some (s, false, false)
  | Some w =>
      match call user fuel (w_get w) (AGet current) s with
      | None => None
      | Some (s, Err e) => Some (caught e s, false, false)
      | Some (s, Ok value) =>
          match is_dirty fuel (heap s) w value with
          | None => Some (caught (JStr "RangeError") s, false, false)
          | Some true =>
              match fire fuel a i current w value (set_last_dirty (Some i) s) with
              | Some s => Some (s, true, false)
              | None => None
              end
          | Some false => Some (s, false, bool_decide (lastDirtyWatch s = Some i))
          end
      end
  end.

(** [while (length--)]: the state, [dirty], and whether the traversal is left. *)
Fixpoint watchers_loop (fuel a current length : nat) (dirty : bool) (s : state) : option (state * bool * bool) :=
  match length with
  | O => Some (s, dirty, false)
  | S length =>
      match default [] (warrays s !! a) !! length with
      | None => watchers_loop fuel a current length dirty s
      | Some i =>
          match visit fuel a i current s with
          | None => None
          | Some (s, _, true) => Some (s, false, true)
          | Some (s, d, false) => watchers_loop fuel a current length (dirty || d) s
          end
      end
  end.

(** The traversal of the scopes: the state and [dirty]. *)
Fixpoint traverse (fuel n target current : nat) (dirty : bool) (s : state) : option (state * result jsval bool) :=
  match n with
  | O => None
  | S n =>
      let r :=
        match scopes s !! current ≫= s_watchers with
        | Some a => watchers_loop fuel a current (length (default [] (warrays s !! a))) dirty s
        | None => Some (s, dirty, false)
        end in
      match r with
      | None => None
      | Some (s, dirty, true) => Some (s, Ok dirty)
      | Some (s, dirty, false) =>
          match next_scope fuel target current true s with
          | None => None
          | Some (Err e) => Some (s, Err e)
          | Some (Ok None) => Some (s, Ok dirty)
          | Some (Ok (Some next)) => traverse fuel n target next dirty s
          end
      end
  end.

(** [while (asyncQueue.length)]. *)
Fixpoint drain (fuel n : nat) (s : state) : option state :=
  match n with
  | O => None
  | S n =>
      match asyncQueue s with
      | [] => Some s
      | (i, f) :: q =>
          let s := set_queues q (postDigestQueue s) (deferred_digests s) s in
          match call user fuel f (AEval i) s with
          | None => None
          | Some (s, Ok _) => drain fuel n (set_last_dirty None s)
          | Some (s, Err e) => drain fuel n (set_last_dirty None (caught e s))
          end
      end
  end.

(** The functions of the post-digest queue. *)
Fixpoint drain_post (fuel n : nat) (s : state) : option state :=
  match n with
  | O => None
  | S n =>
      match postDigestQueue s with
      | [] => Some s
      | f :: q =>
          match guarded (call user fuel) f APost (set_queues (asyncQueue s) q (deferred_digests s) s) with
          | Some s => drain_post fuel n s
          | None => None
          end
      end
  end.

(** The passes: [ttl] is the number of further passes allowed. *)
Fixpoint passes (fuel ttl target : nat) (s : state) : option (state * result jsval unit) :=
  match drain fuel fuel s with
  | None => None
  | Some s =>
      match traverse fuel fuel target target false s with
      | None => None
      | Some (s, Err e) => Some (s, Err e)
      | Some (s, Ok dirty) =>
          if dirty || negb (bool_decide (asyncQueue s = [])) then
            match ttl with
            | O => Some (clearPhase s, Err (JStr "$rootScope:infdig"))
            | S ttl => passes fuel ttl target s
            end
          else Some (clearPhase s, Ok tt)
      end
  end.

(** [$digest] with the configured [TTL]. *)
Definition digest (fuel TTL target : nat) (s : state) : option (state * result jsval unit) :=
  if is_dead s target then Some (s, Ok tt)
  else
    match beginPhase "$digest" s with
    | inr e => Some (s, Err e)
    | inl s =>
        match run (call user fuel) fuel checkUrlChange s with
        | None => None
        | Some (s, Err e) => Some (s, Err e)
        | Some (s, Ok _) =>
            match passes fuel TTL target (set_last_dirty None s) with
            | None => None
            | Some (s, Err e) => Some (s, Err e)
            | Some (s, Ok _) =>
                match drain_post fuel fuel s with Some s => Some (s, Ok tt) | None => None end
            end
        end
    end.

(** [$apply]: the value is that of the expression, unless the digest throws. *)
Definition apply_ (fuel TTL this : nat) (expr : F) (s : state) : option (state * result jsval jsval) :=
  if is_dead s this then Some (s, Ok JUndef)
  else
    let r :=
      match beginPhase "$apply" s with
      | inr e => Some (exceptionHandler e s, Ok JUndef)
      | inl s =>
          match call user fuel expr (AEval this) s with
          | Some (s, Err e) => Some (exceptionHandler e s, Ok JUndef)
          | r => r
          end
      end in
    match r with
    | None => None
    | Some (s, v) =>
        match digest fuel TTL 0 (clearPhase s) with
        | None => None
        | Some (s, Err e) => Some (exceptionHandler e s, Err e)
        | Some (s, Ok _) => Some (s, v)
        end
    end.

(** ** Lemmas: functions that only read or write the model *)

Inductive reads_only : prog (F := F) -> Prop :=
| ro_return v : reads_only (Return v)
| ro_throw e : reads_only (Throw e)
| ro_heap k : (forall h, reads_only (k h)) -> reads_only (Heap k).

Inductive model_only : prog (F := F) -> Prop :=
| mo_return v : model_only (Return v)
| mo_throw e : model_only (Throw e)
| mo_heap k : (forall h, model_only (k h)) -> model_only (Heap k)
| mo_set h k : model_only k -> model_only (SetHeap h k).

Lemma reads_run c fuel p : reads_only p -> forall s, exists o,
  run c fuel p s = Some (s, o) /\ forall s', heap s' = heap s -> run c fuel p s' = Some (s', o).
Proof.
  induction 1 as [v|e|k Hk IH]; intros s; cbn [run]; [by exists (Ok v)|by exists (Err e)|].
  destruct (IH (heap s) s) as (o & Ho & Hs). exists o. split; [done|]. intros s' Hh. rewrite Hh. by apply Hs.
Qed.

Lemma model_run c fuel p : model_only p -> forall s, exists h o, run c fuel p s = Some (set_heap h s, o).
Proof.
  induction 1 as [v|e|k Hk IH|h k Hk IH]; intros s; cbn [run].
  - exists (heap s), (Ok v). by destruct s.
  - exists (heap s), (Err e). by destruct s.
  - apply IH.
  - destruct (IH (set_heap h s)) as (h' & o & ->). by exists h', o.
Qed.

Definition model_watch (w : watch (F := F)) : Prop :=
  (forall c, reads_only (user (w_get w) (AGet c))) /\
  (forall v old c, model_only (user (w_fn w) (AWatch v old c))) /\ w_constant w = false.

(** The structure of the scopes is the same; [same_model] adds the model and
    what the watchers remember. *)
Record same_shape (s s' : state) : Prop := SameShape {
  same_scopes : scopes s' = scopes s;
  same_warrays : warrays s' = warrays s;
  same_async : asyncQueue s' = asyncQueue s;
  same_post : postDigestQueue s' = postDigestQueue s;
  same_watches : forall i w', watches s' !! i = Some w' -> exists w, watches s !! i = Some w /\
    w_get w' = w_get w /\ w_fn w' = w_fn w /\ w_constant w' = w_constant w
}.

Record same_model (s s' : state) : Prop := SameModel {
  model_heap : heap s' = heap s;
  model_watches : watches s' = watches s
}.

#[local] Instance same_shape_preorder : PreOrder same_shape.
Proof.
  split.
  - intros s. split; try done. eauto.
  - intros s1 s2 s3 [H1 H2 H3 H4 H5] [H1' H2' H3' H4' H5']. split; try congruence.
    intros i w (w' & Hw' & ? & ? & ?)%H5'. destruct (H5 _ _ Hw') as (w'' & ? & ? & ? & ?). exists w''. split_and!; congruence.
Qed.

Lemma shape_eq s s' : scopes s' = scopes s -> warrays s' = warrays s -> asyncQueue s' = asyncQueue s ->
  postDigestQueue s' = postDigestQueue s -> watches s' = watches s -> same_shape s s'.
Proof. intros ? ? ? ? Hw. split; try done. rewrite Hw. eauto. Qed.

Definition all_model (s : state) : Prop := forall i w, watches s !! i = Some w -> model_watch w.

Lemma all_model_shape s s' : same_shape s s' -> all_model s -> all_model s'.
Proof.
  intros Hs Ha i w' (w & Hw & Hg & Hf & Hc)%(same_watches _ _ Hs). destruct (Ha i w Hw) as (? & ? & ?).
  split_and!; by rewrite ?Hg, ?Hf, ?Hc.
Qed.

(** The watcher would not fire. *)
Definition calm (fuel : nat) (s : state) (v : nat * nat * nat) : bool :=
  match watches s !! v.2 with
  | None => true
  | Some w =>
      match call user fuel (w_get w) (AGet v.1.2) s with
      | Some (_, Ok value) => negb (bool_decide (is_dirty fuel (heap s) w value = Some true))
      | _ => true
      end
  end.

Lemma calm_model fuel s s' v : all_model s -> same_model s s' -> calm (S fuel) s' v = calm (S fuel) s v.
Proof.
  intros Ha [Hh Hw]. unfold calm. rewrite Hw, Hh. destruct (watches s !! v.2) as [w|] eqn:Hi; [|done].
  destruct (Ha _ _ Hi) as (Hr & _). cbn [call].
  destruct (reads_run (call user fuel) fuel _ (Hr v.1.2) s) as (o & -> & Ho). by rewrite (Ho s' Hh).
Qed.

Lemma visit_spec fuel a i c s : all_model s -> exists s' d b, visit (S fuel) a i c s = Some (s', d, b) /\ same_shape s s' /\
  ((d = false /\ same_model s s' /\ lastDirtyWatch s' = lastDirtyWatch s /\ calm (S fuel) s (a, c, i) = true /\
    (b = true -> lastDirtyWatch s = Some i)) \/
   (d = true /\ b = false /\ lastDirtyWatch s' = Some i)).
Proof.
  intros Ha. unfold visit, calm. cbn [fst snd]. destruct (watches s !! i) as [w|] eqn:Hw.
  2:{ exists s, false, false. split; [done|]. split; [done|]. left. by split_and!. }
  destruct (Ha i w Hw) as (Hr & Hf & Hc). cbn [call].
  destruct (reads_run (call user fuel) fuel _ (Hr c) s) as (o & -> & _).
  destruct o as [value|e].
  2:{ eexists _, false, false. split; [done|]. split; [by apply shape_eq|]. left. by split_and!. }
  destruct (is_dirty (S fuel) (heap s) w value) as [[]|] eqn:Hd.
  - unfold fire. destruct (if w_eq w then _ else _) as [[[last h] st0]|e].
    2:{ eexists _, true, false. split; [done|]. split; [by apply shape_eq|]. right. by split_and!. }
    set (s0 := set_watching _ _ _ (set_heap h _)). cbn [call].
    destruct (model_run (call user fuel) fuel _ (Hf value (default value (w_last w)) c) s0) as (h' & o & ->).
    assert (Hs : same_shape s (set_heap h' s0)).
    { split; try done. simpl. intros j w' Hj. destruct (decide (i = j)) as [->|Hne].
      - rewrite list_lookup_alter_eq, Hw in Hj. injection Hj as <-. by exists w.
      - rewrite list_lookup_alter_ne in Hj by done. by exists w'. }
    rewrite Hc. destruct o as [v|e]; eexists _, true, false; (split; [done|]);
      (split; [first [exact Hs|etransitivity; [exact Hs|by apply shape_eq]]|]); right; by split_and!.
  - eexists s, false, _. split; [done|]. split; [done|]. left. split_and!; try done. by intros ?%bool_decide_eq_true.
  - eexists _, false, false. split; [done|]. split; [by apply shape_eq|]. left. by split_and!.
Qed.

(** ** Lemmas: one pass over a fixed list of watchers *)

Fixpoint pass (fuel : nat) (l : list (nat * nat * nat)) (dirty : bool) (s : state) : option (state * bool * bool) :=
  match l with
  | [] => Some (s, dirty, false)
  | (a, c, i) :: l =>
      match visit fuel a i c s with
      | None => None
      | Some (s, _, true) => Some (s, false, true)
      | Some (s, d, false) => pass fuel l (dirty || d) s
      end
  end.

Lemma pass_app fuel l1 l2 : forall dirty s, pass fuel (l1 ++ l2) dirty s =
  match pass fuel l1 dirty s with Some (s, d, false) => pass fuel l2 d s | r => r end.
Proof.
  induction l1 as [|[[a c] i] l1 IH]; intros dirty s; [done|]. cbn [app pass].
  destruct (visit fuel a i c s) as [[[s0 d] []]|]; [done|apply IH|done].
Qed.

Definition all_calm (fuel : nat) (s : state) (l : list (nat * nat * nat)) : Prop :=
  Forall (fun v => calm fuel s v = true) l.

(** The watchers visited since the last dirty one are calm: it is either behind
    the position of the pass, or ahead of it since the previous pass. *)
Definition since_last (fuel : nat) (order done todo : list (nat * nat * nat)) (s : state) : Prop :=
  match lastDirtyWatch s with
  | None => True
  | Some j =>
      (exists pre v post, done = pre ++ v :: post /\ v.2 = j /\ all_calm fuel s post) \/
      (exists pre v post, todo = pre ++ v :: post /\ v.2 = j /\ all_calm fuel s post /\ all_calm fuel s done)
  end.

Lemma all_calm_model fuel s s' l : all_model s -> same_model s s' -> all_calm (S fuel) s l -> all_calm (S fuel) s' l.
Proof. intros Ha Hm H. eapply Forall_impl; [exact H|]. intros v Hv. by rewrite (calm_model fuel s s'). Qed.

Lemma NoDup_mid {A B} (f : A -> B) l1 x l2 y :
  NoDup (map f (l1 ++ x :: l2)) -> f y = f x -> y ∈ l1 -> False.
Proof.
  intros Hn Hf Hy. rewrite map_app in Hn. apply NoDup_app in Hn as (_ & Hn & _).
  apply (Hn (f x)); [rewrite <- Hf; by apply list_elem_of_fmap_2|by left].
Qed.

Lemma pass_spec fuel order : NoDup (map snd order) -> forall todo done dirty s, order = done ++ todo -> all_model s ->
  since_last (S fuel) order done todo s -> (dirty = false -> all_calm (S fuel) s done) ->
  exists s' d b, pass (S fuel) todo dirty s = Some (s', d, b) /\ same_shape s s' /\
    (if b : bool then d = false /\ all_calm (S fuel) s' order
     else since_last (S fuel) order order [] s' /\ (d = false -> all_calm (S fuel) s' order)).
Proof.
  intros Hnd todo. induction todo as [|[[a c] i] todo IH]; intros done dirty s Ho Ha Hs Hd.
  { rewrite app_nil_r in Ho. subst done. exists s, dirty, false. by split_and!. }
  cbn [pass]. destruct (visit_spec fuel a i c s Ha) as (s1 & d & b & -> & Hsh & Hv).
  assert (Hnd' : forall v, v ∈ done -> v.2 = i -> False).
  { intros v Hv1 Hv2. subst order. by eapply (NoDup_mid snd done (a, c, i) todo v). }
  destruct Hv as [(-> & Hm & Hl & Hc & Hb)|(-> & -> & Hl)].
  - pose proof (all_calm_model fuel s s1) as Hcm. destruct b.
    + exists s1, false, true. split; [done|]. split; [done|]. split; [done|].
      unfold since_last in Hs. rewrite (Hb eq_refl) in Hs. apply Hcm; [done|done|]. subst order.
      destruct Hs as [(pre & v & post & -> & Hvj & _)|(pre & v & post & Ht & Hvj & Hp & Hdone)].
      { exfalso. apply (Hnd' v); [|done]. rewrite elem_of_app. right. by left. }
      destruct pre as [|u pre]; simpl in Ht; [injection Ht as <- <-|injection Ht as <- ->].
      * apply Forall_app. split; [done|]. by constructor.
      * exfalso. rewrite map_app, !map_cons, map_app in Hnd. apply NoDup_app in Hnd as (_ & _ & Hnd).
        simpl in Hnd. apply NoDup_cons in Hnd as [Hnd _]. apply Hnd. rewrite <- Hvj. apply elem_of_app. right. by left.
    + destruct (IH (done ++ [(a, c, i)]) (dirty || false) s1) as (s2 & d & b & Hp & Hsh2 & Hr).
      * by rewrite <- app_assoc.
      * by eapply all_model_shape.
      * unfold since_last in *. rewrite Hl. destruct (lastDirtyWatch s) as [j|]; [|done].
        assert (Hci : all_calm (S fuel) s [(a, c, i)]) by (by constructor).
        destruct Hs as [(pre & v & post & -> & Hvj & Hp)|(pre & v & post & Ht & Hvj & Hp & Hdone)].
        -- left. exists pre, v, (post ++ [(a, c, i)]). split_and!; [by rewrite <- app_assoc|done|].
           apply Hcm; [done|done|]. by apply Forall_app.
        -- destruct pre as [|u pre]; simpl in Ht; [injection Ht as <- <-|injection Ht as <- ->].
           { left. exists done, (a, c, i), []. by split_and!; [|simpl in Hvj|constructor]. }
           right. exists pre, v, post. split_and!; [done|done|by apply Hcm|].
           apply Hcm; [done|done|]. by apply Forall_app.
      * rewrite orb_false_r. intros Hdf. apply Hcm; [done|done|]. apply Forall_app. split; [by apply Hd|by constructor].
      * exists s2, d, b. split; [done|]. split; [by etransitivity|done].
  - destruct (IH (done ++ [(a, c, i)]) (dirty || true) s1) as (s2 & d & b & Hp & Hsh2 & Hr).
    + by rewrite <- app_assoc.
    + by eapply all_model_shape.
    + unfold since_last. rewrite Hl. left. exists done, (a, c, i), []. split_and!; [done|done|constructor].
    + rewrite orb_true_r. done.
    + exists s2, d, b. split; [done|]. split; [by etransitivity|done].
Qed.

(** ** Lemmas: the traversal of a fixed tree *)

(** The scopes the traversal reaches from [current]. *)
Fixpoint walk (fuel n target current : nat) (s : state) : option (list nat) :=
  match n with
  | O => None
  | S n =>
      match next_scope fuel target current true s with
      | Some (Ok None) => Some [current]
      | Some (Ok (Some next)) => cons current <$> walk fuel n target next s
      | _ => None
      end
  end.

(** The watchers of a scope, in the order of [while (length--)]. *)
Definition watchers_of (s : state) (c : nat) : list (nat * nat * nat) :=
  match scopes s !! c ≫= s_watchers with
  | Some a => reverse (map (fun i => (a, c, i)) (default [] (warrays s !! a)))
  | None => []
  end.

Lemma next_shape fuel target c enter (s s' : state) : scopes s' = scopes s ->
  next_scope fuel target c enter s' = next_scope fuel target c enter s.
Proof.
  intros Hs. unfold next_scope. rewrite Hs. destruct (scopes s !! c) as [x|]; [|done].
  destruct (if enter then _ else _); [done|].
  revert c. induction fuel as [|fuel IH]; intros c; [done|]. cbn [climb]. rewrite Hs.
  destruct (c =? target)%nat; [done|]. destruct (scopes s !! c) as [y|]; [|done].
  destruct (s_next y); [done|]. destruct (s_parent y); [|done]. apply IH.
Qed.

Lemma walk_shape fuel n target (s s' : state) : scopes s' = scopes s -> forall c, walk fuel n target c s' = walk fuel n target c s.
Proof.
  intros Hsh. induction n as [|n IH]; intros c; [done|]. cbn [walk]. rewrite (next_shape _ _ _ _ s s' Hsh).
  destruct (next_scope fuel target c true s) as [[[next|]|]|]; try done. by rewrite IH.
Qed.

Lemma watchers_shape s s' c : same_shape s s' -> watchers_of s' c = watchers_of s c.
Proof. intros Hsh. unfold watchers_of. by rewrite (same_scopes _ _ Hsh), (same_warrays _ _ Hsh). Qed.

Lemma visit_shape fuel a i c s s' d b : all_model s -> visit (S fuel) a i c s = Some (s', d, b) -> same_shape s s' /\ all_model s'.
Proof.
  intros Ha H. destruct (visit_spec fuel a i c s Ha) as (s1 & d1 & b1 & H1 & Hsh & _).
  rewrite H1 in H. injection H as <- <- <-. split; [done|by eapply all_model_shape].
Qed.

Lemma watchers_loop_pass fuel a c l : forall rest dirty s, all_model s -> warrays s !! a = Some (l ++ rest) ->
  watchers_loop (S fuel) a c (length l) dirty s = pass (S fuel) (reverse (map (fun i => (a, c, i)) l)) dirty s.
Proof.
  induction l as [|i l IH] using rev_ind; intros rest dirty s Ha Hw; [done|].
  rewrite length_app, Nat.add_comm, map_app, reverse_app. simpl length. cbn [plus watchers_loop].
  rewrite Hw. cbn [default]. unfold id. rewrite <- app_assoc. cbn [app].
  assert (Hi : (l ++ i :: rest) !! length l = Some i) by (by rewrite lookup_app_r, Nat.sub_diag by lia).
  rewrite Hi. cbn [map reverse rev_append app pass].
  destruct (visit (S fuel) a i c s) as [[[s1 d] b]|] eqn:Hv; [|done].
  destruct (visit_shape _ _ _ _ _ _ _ _ Ha Hv) as [Hsh Ha1]. destruct b; [done|].
  apply (IH (i :: rest)); [done|]. rewrite (same_warrays _ _ Hsh), Hw. by rewrite <- app_assoc.
Qed.

Lemma pass_shape fuel l : forall dirty s, all_model s -> forall s' d b,
  pass (S fuel) l dirty s = Some (s', d, b) -> same_shape s s' /\ all_model s'.
Proof.
  induction l as [|[[a c] i] l IH]; intros dirty s Ha s' d b H; cbn [pass] in H.
  { injection H as <- <- <-. by split. }
  destruct (visit (S fuel) a i c s) as [[[s1 d1] b1]|] eqn:Hv; [|done].
  destruct (visit_shape _ _ _ _ _ _ _ _ Ha Hv) as [Hsh Ha1]. destruct b1; [by injection H as <- <- <-|].
  destruct (IH _ s1 Ha1 _ _ _ H) as [? ?]. split; [by etransitivity|done].
Qed.

Lemma traverse_pass fuel n target : forall c dirty s scs, all_model s -> walk (S fuel) n target c s = Some scs ->
  traverse (S fuel) n target c dirty s =
  match pass (S fuel) (scs ≫= watchers_of s) dirty s with
  | Some (s', d, _) => Some (s', Ok d)
  | None => None
  end.
Proof.
  induction n as [|n IH]; intros c dirty s scs Ha Hw; [done|]. cbn [walk traverse] in *.
  set (r := match scopes s !! c ≫= s_watchers with Some a => _ | None => _ end).
  assert (Hr : r = pass (S fuel) (watchers_of s c) dirty s).
  { unfold r, watchers_of. destruct (scopes s !! c ≫= s_watchers) as [a|]; [|done].
    destruct (warrays s !! a) as [l|] eqn:Hl; [|done]. cbn [default].
    apply (watchers_loop_pass fuel a c l []); [done|]. by rewrite app_nil_r. }
  rewrite Hr. clear r Hr.
  destruct (next_scope (S fuel) target c true s) as [[[next|]|]|] eqn:Hn; try done.
  - destruct (walk (S fuel) n target next s) as [scs'|] eqn:Hw'; [|done]. injection Hw as <-.
    rewrite bind_cons, pass_app.
    destruct (pass (S fuel) (watchers_of s c) dirty s) as [[[s1 d1] b1]|] eqn:Hp; [|done].
    destruct (pass_shape _ _ _ _ Ha _ _ _ Hp) as [Hsh Ha1]. destruct b1; [done|].
    rewrite (next_shape _ _ _ _ s s1 (same_scopes _ _ Hsh)), Hn, (IH next d1 s1 scs' Ha1); [|rewrite (walk_shape _ _ _ s s1); [done|apply Hsh]].
    assert (He : scs' ≫= watchers_of s1 = scs' ≫= watchers_of s).
    { clear -Hsh. induction scs' as [|x scs' IH]; [done|]. by rewrite !bind_cons, IH, (watchers_shape s s1). }
    by rewrite He.
  - injection Hw as <-. rewrite bind_cons, pass_app.
    destruct (pass (S fuel) (watchers_of s c) dirty s) as [[[s1 d1] b1]|] eqn:Hp; [|done].
    destruct (pass_shape _ _ _ _ Ha _ _ _ Hp) as [Hsh Ha1]. destruct b1; [done|].
    by rewrite (next_shape _ _ _ _ s s1 (same_scopes _ _ Hsh)), Hn.
Qed.

(** ** Lemmas: the passes of a digest *)

Definition model_queue (s : state) : Prop := Forall (fun t => model_only (user t.2 (AEval t.1))) (asyncQueue s).

(** A state that only differs in the queues, the model and the digest's own
    variables. *)
Record same_tree (s s' : state) : Prop := SameTree {
  tree_scopes : scopes s' = scopes s;
  tree_warrays : warrays s' = warrays s;
  tree_watches : watches s' = watches s;
  tree_post : postDigestQueue s' = postDigestQueue s
}.

Lemma all_model_tree s s' : watches s' = watches s -> all_model s -> all_model s'.
Proof. intros Hw Ha i w Hi. rewrite Hw in Hi. by eapply Ha. Qed.

Lemma drain_spec fuel n : forall s, model_queue s -> (length (asyncQueue s) < n)%nat ->
  exists s', drain (S fuel) n s = Some s' /\ same_tree s s' /\ asyncQueue s' = [] /\
    (lastDirtyWatch s' = None \/ s' = s).
Proof.
  induction n as [|n IH]; intros s Hq Hn; [lia|]. cbn [drain].
  destruct (asyncQueue s) as [|[i f] q] eqn:Hq0.
  { exists s. split_and!; try done. by right. }
  assert (Hq1 := Hq). unfold model_queue in Hq1. rewrite Hq0 in Hq1. apply Forall_cons in Hq1 as [Hf Hq1].
  cbn [call]. set (s0 := set_queues q _ _ s).
  destruct (model_run (call user fuel) fuel _ Hf s0) as (h & o & Hrun). simpl in Hrun. rewrite Hrun.
  destruct o as [v|e].
  - destruct (IH (set_last_dirty None (set_heap h s0))) as (s' & Hd & Ht & He & Hl); [done|simpl in *; lia|]. exists s'. split; [exact Hd|].
    split; [by destruct Ht; split|]. split; [done|]. left. by destruct Hl as [Hl| ->].
  - destruct (IH (set_last_dirty None (caught e (set_heap h s0)))) as (s' & Hd & Ht & He & Hl); [done|simpl in *; lia|].
    exists s'. split; [exact Hd|]. split; [by destruct Ht; split|]. split; [done|]. left. by destruct Hl as [Hl| ->].
Qed.

Lemma watchers_tree (s s' : state) : scopes s' = scopes s -> warrays s' = warrays s -> watchers_of s' = watchers_of s.
Proof. intros Hs Hw. unfold watchers_of. by rewrite Hs, Hw. Qed.

(** The outcome of the passes: all watchers calm, or the limit is reached. *)
Definition settled (fuel target : nat) (scs : list nat) (s' : state) (r : result jsval unit) : Prop :=
  phase s' = None /\
  match r with
  | Ok _ => all_calm fuel s' (scs ≫= watchers_of s') /\ asyncQueue s' = [] /\ postDigestQueue s' = []
  | Err e => e = JStr "$rootScope:infdig"
  end.

Lemma passes_spec fuel target scs : forall ttl s, all_model s -> model_queue s ->
  (length (asyncQueue s) < S fuel)%nat -> postDigestQueue s = [] ->
  walk (S fuel) (S fuel) target target s = Some scs -> NoDup (map snd (scs ≫= watchers_of s)) ->
  since_last (S fuel) (scs ≫= watchers_of s) [] (scs ≫= watchers_of s) s ->
  exists s' r, passes (S fuel) ttl target s = Some (s', r) /\ settled (S fuel) target scs s' r.
Proof.
  assert (Hone : forall s, all_model s -> model_queue s -> (length (asyncQueue s) < S fuel)%nat ->
    walk (S fuel) (S fuel) target target s = Some scs -> NoDup (map snd (scs ≫= watchers_of s)) ->
    since_last (S fuel) (scs ≫= watchers_of s) [] (scs ≫= watchers_of s) s ->
    exists s0 s1 d b, drain (S fuel) (S fuel) s = Some s0 /\
      traverse (S fuel) (S fuel) target target false s0 = Some (s1, Ok d) /\
      same_tree s s0 /\ asyncQueue s0 = [] /\ same_shape s0 s1 /\
      (d = false -> all_calm (S fuel) s1 (scs ≫= watchers_of s)) /\
      (d = true -> b = false) /\
      (b = false -> since_last (S fuel) (scs ≫= watchers_of s) [] (scs ≫= watchers_of s) s1)).
  { intros s Ha Hq Hn Hw Hnd Hs.
    destruct (drain_spec fuel (S fuel) s Hq Hn) as (s0 & Hd & Ht & He & Hl).
    assert (Ha0 : all_model s0) by (eapply all_model_tree; [apply Ht|done]).
    assert (Hwo : watchers_of s0 = watchers_of s) by (apply watchers_tree; apply Ht).
    assert (Hs0 : since_last (S fuel) (scs ≫= watchers_of s) [] (scs ≫= watchers_of s) s0).
    { destruct Hl as [Hl| ->]; [|done]. unfold since_last. by rewrite Hl. }
    destruct (pass_spec fuel (scs ≫= watchers_of s) Hnd _ [] false s0 eq_refl Ha0 Hs0) as (s1 & d & b & Hp & Hsh & Hr); [by constructor|].
    exists s0, s1, d, b. split; [done|]. split.
    { rewrite (traverse_pass fuel (S fuel) target target false s0 scs Ha0).
      - rewrite Hwo. by rewrite Hp.
      - rewrite (walk_shape _ _ _ s s0); [done|apply Ht]. }
    split; [done|]. split; [done|]. split; [done|]. destruct b.
    - destruct Hr as [-> Hc]. by split_and!.
    - destruct Hr as [Hsl Hc]. split_and!; try done. intros _.
      unfold since_last in *. destruct (lastDirtyWatch s1) as [j|]; [|done].
      destruct Hsl as [(pre & v & post & Heq & Hj & Hp')|(pre & v & post & Heq & _)].
      + right. exists pre, v, post. by split_and!; [| | |constructor].
      + by destruct pre. }
  induction ttl as [|ttl IH]; intros s Ha Hq Hn Hpq Hw Hnd Hs; cbn [passes];
    destruct (Hone s Ha Hq Hn Hw Hnd Hs) as (s0 & s1 & d & b & -> & -> & Ht & He & Hsh & Hc & Hb & Hsl);
    assert (He1 : asyncQueue s1 = []) by (rewrite (same_async _ _ Hsh); done);
    assert (Hwo : watchers_of s1 = watchers_of s) by
      (apply watchers_tree; [rewrite (same_scopes _ _ Hsh); apply Ht|rewrite (same_warrays _ _ Hsh); apply Ht]);
    assert (Hpq1 : postDigestQueue s1 = []) by (rewrite (same_post _ _ Hsh), (tree_post _ _ Ht); done);
    rewrite He1, bool_decide_true, orb_false_r by done.
  - destruct d; eexists _, _; (split; [done|]); (split; [done|]); [done|]. cbn beta iota.
    split; [|by split]. change (watchers_of (clearPhase s1)) with (watchers_of s1). rewrite Hwo.
    specialize (Hc eq_refl). eapply Forall_impl; [exact Hc|]. intros v Hv. rewrite <- Hv. apply calm_model; [|done].
    eapply all_model_shape; [exact Hsh|]. eapply all_model_tree; [apply Ht|done].
  - destruct d.
    + apply IH.
      * eapply all_model_shape; [exact Hsh|]. eapply all_model_tree; [apply Ht|done].
      * unfold model_queue. rewrite He1. constructor.
      * rewrite He1. simpl. lia.
      * done.
      * rewrite (walk_shape _ _ _ s s1); [done|]. rewrite (same_scopes _ _ Hsh). apply Ht.
      * by rewrite Hwo.
      * rewrite Hwo. auto.
    + eexists _, _. split; [done|]. split; [done|]. cbn beta iota.
      split; [|by split]. change (watchers_of (clearPhase s1)) with (watchers_of s1). rewrite Hwo.
      specialize (Hc eq_refl). eapply Forall_impl; [exact Hc|]. intros v Hv. rewrite <- Hv. apply calm_model; [|done].
      eapply all_model_shape; [exact Hsh|]. eapply all_model_tree; [apply Ht|done].
Qed.
End Digest.

(** ** Lemmas: tasks that schedule themselves *)

Lemma on_chain_scopes {F} n p (s s' : st (F := F)) : scopes s' = scopes s -> forall i, on_chain n p s' i = on_chain n p s i.
Proof.
  intros Hs. induction n as [|n IH]; intros i; [done|]. cbn [on_chain]. rewrite Hs.
  destruct (scopes s !! i) as [c|]; [|done]. f_equal. by destruct (s_proto c).
Qed.

Lemma lost_scopes {F} (s s' : st (F := F)) i : scopes s' = scopes s -> has_lost_queues s' i = has_lost_queues s i.
Proof. intros Hs. unfold has_lost_queues. rewrite Hs. by apply on_chain_scopes. Qed.

Lemma drain_forever {F} `{!EqDecision F} (user : F -> arg -> prog) (f : F) i fuel n : forall s : st (F := F),
  user f (AEval i) = EvalAsync i f (Return JUndef) -> has_lost_queues s i = false ->
  asyncQueue s = [(i, f)] -> drain user fuel n s = None.
Proof.
  induction n as [|n IH]; intros s Hu Hl Hq; [done|]. cbn [drain]. rewrite Hq.
  destruct fuel as [|fuel]; [done|]. cbn [call]. rewrite Hu. cbn [run].
  unfold evalAsync at 1. rewrite (lost_scopes s) by done. rewrite Hl.
  apply IH; [done| |done]. by rewrite (lost_scopes s).
Qed.

(** ** What the digest promises *)

(** C15: dirty checking is complete and it ends, for functions that keep to the
    model: the watch functions only read it, the listeners and the tasks that
    wait in the queue only read and change it (none watches, schedules, destroys
    or makes a scope, nor unregisters itself, as a constant watch does), nothing
    waits for the end of the digest, no digest runs and no watcher is listed
    twice.  Whatever the listeners do to the model then, a digest finishes
    within its limit of passes; if it returns, every watcher of every scope it
    traverses is calm in the final state - although a pass stops as soon as it
    meets the last watcher that fired and finds it clean - and no task is left;
    otherwise it throws the [infdig] error; either way its phase is released.
    (A task that schedules itself makes a digest endless: Theorem
    [self_scheduling_never_ends].) *)
Theorem digest_settles {F} `{!EqDecision F} (special : nat -> bool) (user : F -> arg -> prog)
  (fuel TTL target : nat) (scs : list nat) (s : st (F := F)) :
  all_model user s -> model_queue user s ->
  phase s = None -> is_dead s target = false -> postDigestQueue s = [] -> (length (asyncQueue s) <= fuel)%nat ->
  walk (S fuel) (S fuel) target target s = Some scs -> NoDup (map snd (scs ≫= watchers_of s)) ->
  exists s' r, digest special user (Return JUndef) (S fuel) TTL target s = Some (s', r) /\
    settled special user (S fuel) target scs s' r.
Proof.
  intros Ha Hq Hph Hdead Hpost Hlen Hw Hnd. unfold digest, beginPhase. rewrite Hdead, Hph. cbn [run].
  set (s1 := set_last_dirty None (set_phase (Some "$digest") s)).
  destruct (passes_spec special user fuel target scs TTL s1) as (s' & r & Hp & Hr); try done; [simpl; lia| |].
  { rewrite (walk_shape _ _ _ s s1); done. }
  rewrite Hp. destruct r as [[]|e]; [|by eexists _, _]. cbn [drain_post].
  destruct (Hr) as (_ & _ & _ & ->). by eexists _, _.
Qed.

(** Two watchers on [$rootScope] and one on a child; the second one's listener
    changes what the first one reads. *)
Inductive demo : Type := GetA | GetB | GetC | Ignore | CopyBToA | Destroyer (c : nat) | Again.

#[global] Instance demo_eq : EqDecision demo.
Proof. solve_decision. Defined.

Definition demo_read (k : string) : prog (F := demo) :=
  Heap (fun h => match h !! 0%nat with Some o => Return (prop_get (obj_props o) k) | None => Throw TypeError end).

Definition demo_user (f : demo) (a : arg) : prog :=
  match f with
  | GetA => demo_read "a" | GetB => demo_read "b" | GetC => demo_read "c"
  | Ignore => Return JUndef
  | CopyBToA => Heap (fun h => match h !! 0%nat with
      | Some o => SetHeap (<[0%nat := OPlain (prop_set (obj_props o) "a" (prop_get (obj_props o) "b"))]> h) (Return JUndef)
      | None => Return JUndef
      end)
  | Destroyer c => Destroy c (Return JUndef)
  | Again => EvalAsync 0 Again (Return JUndef)
  end.

Definition demo_root : st (F := demo) :=
  St {[0%nat := OPlain [("a", JNum 1); ("b", JNum 2); ("c", JNum 3)]]}
     {[0%nat := MkScope None None false false false None None None None None ∅ ∅]}
     [] [] [] [] [] [] None None 0 [].

Definition demo_tree : st (F := demo) :=
  let s := (watch_ 0 GetA Ignore false false demo_root).2 in
  let s := (watch_ 0 GetB CopyBToA true false s).2 in
  let (c, s) := new_ false 0 s in (watch_ c GetC Ignore false false s).2.

Lemma demo_read_only k : reads_only (demo_read k).
Proof. constructor. intros h. destruct (h !! 0%nat); constructor. Qed.

Lemma demo_watches : all_model demo_user demo_tree.
Proof.
  intros i w Hi. vm_compute in Hi.
  destruct i as [|[|[|i]]]; try discriminate Hi; injection Hi as <-; split_and!; try done;
    try (intros c; apply demo_read_only); intros v old c; repeat constructor.
  intros h. destruct (h !! 0%nat); repeat constructor.
Qed.

Lemma digest_settles_witness :
  let s := set_queues [(0%nat, Ignore)] [] 1 demo_tree in
  exists s' r, digest (fun _ => false) demo_user (Return JUndef) 20 10 0 s = Some (s', r) /\
    settled (fun _ => false) demo_user 20 0 [0%nat; 1%nat] s' r /\ r = Ok tt /\
    prop_get (default [] (obj_props <$> heap s' !! 0%nat)) "a" = JNum 2.
Proof.
  intros s.
  destruct (digest_settles (fun _ => false) demo_user 19 10 0 [0%nat; 1%nat] s) as (s' & r & Hd & Hs).
  - exact demo_watches.
  - constructor; [constructor|constructor].
  - reflexivity.
  - vm_compute. reflexivity.
  - reflexivity.
  - simpl. lia.
  - vm_compute. reflexivity.
  - apply (bool_decide_eq_true_1 _). vm_compute. reflexivity.
  - exists s', r. split; [exact Hd|]. split; [exact Hs|].
    vm_compute in Hd. injection Hd as <- <-. split; vm_compute; reflexivity.
Defined.

(** A listener that destroys the scope of its own watcher breaks the digest:
    the traversal climbs from the destroyed scope, whose links are now [null],
    and throws a TypeError outside the code that catches exceptions; the phase
    is never cleared, so the next digest throws as well. *)
Theorem self_destroy_breaks_digest (fuel TTL : nat) (v : jsval) :
  let user f a := match f, a with GetC, AGet _ => Return v | _, _ => demo_user f a end in
  let s := (watch_ 1 GetC (Destroyer 1) false false (new_ false 0 demo_root).2).2 in
  exists s', digest (fun _ => false) user (Return JUndef) (10 + fuel) TTL 0 s = Some (s', Err TypeError) /\
    phase s' = Some "$digest" /\
    digest (fun _ => false) user (Return JUndef) (10 + fuel) TTL 0 s' = Some (s', Err (JStr "$rootScope:inprog")).
Proof.
  intros user s. destruct TTL; (eexists; split; [vm_compute; reflexivity|]; split; vm_compute; reflexivity).
Qed.

(** C16: a task that schedules itself again with [$evalAsync] makes the digest
    run for ever: the loop over the queue is inside one pass, so the limit of
    passes does not bound it, and no amount of fuel or of [TTL] gives a result. *)
Theorem self_scheduling_never_ends {F} `{!EqDecision F} (special : nat -> bool) (user : F -> arg -> prog) (f : F)
  (fuel TTL target i : nat) (s : st (F := F)) :
  user f (AEval i) = EvalAsync i f (Return JUndef) -> has_lost_queues s i = false ->
  asyncQueue s = [(i, f)] -> phase s = None -> is_dead s target = false ->
  digest special user (Return JUndef) fuel TTL target s = None.
Proof.
  intros Hu Hl Hq Hph Hd. unfold digest, beginPhase. rewrite Hd, Hph. cbn [run].
  assert (Hp : forall s', asyncQueue s' = [(i, f)] -> scopes s' = scopes s -> passes special user fuel TTL target s' = None).
  { intros s' Hq' Hs'. destruct TTL; cbn [passes]; by rewrite (drain_forever user f i) by (rewrite ?(lost_scopes s); done). }
  by rewrite Hp.
Qed.

Lemma self_scheduling_never_ends_witness :
  let s := set_queues [(0%nat, Again)] [] 1 demo_root in
  digest (fun _ => false) demo_user (Return JUndef) 30 10 0 s = None.
Proof.
  intros s. apply (self_scheduling_never_ends (fun _ => false) demo_user Again 30 10 0 0 s);
    [reflexivity|vm_compute; reflexivity|reflexivity|reflexivity|vm_compute; reflexivity].
Defined.
