(* ===== verification/NgFilters.v ===== *)
(** * NgFilters: the framework's filters of lists

    [filter], [limitTo] and [orderBy] of [angular.js] (14912-15063, 15514-15779),
    on the values of Js.  Sorting is that of Js. *)

From S2P Require Import Prelude Text Js NgCore.
From Stdlib Require Import Sorted.

#[local] Set Warnings "-register-all".

(** [toLowerCase] on 8-bit code units. *)
Definition lower_char (c : ascii) : ascii :=
  let n := N_of_ascii c in
  if ((65 <=? n) && (n <=? 90) || (192 <=? n) && (n <=? 222) && negb (n =? 215))%N then ascii_of_N (n + 32) else c.
Definition toLowerCase (s : string) : string := Basics.string_map lower_char s.

Fixpoint is_prefix (p s : string) : bool :=
  match p, s with
  | "", _ => true
  | String a p, String b s => Ascii.eqb a b && is_prefix p s
  | _, "" => false
  end.

(** [s.indexOf(p) > -1]. *)
Fixpoint has_infix (p s : string) : bool :=
  is_prefix p s || match s with "" => false | String _ s => has_infix p s end.

(** [s.charAt(0) == c]. *)
Definition starts (c : ascii) (s : string) : bool :=
  match s with String d _ => Ascii.eqb d c | "" => false end.
Definition tail (s : string) : string := match s with String _ s => s | "" => "" end.

(** ** [filter] (14912-15016) *)

Module Filter.
Section Filter.
Context (special : nat -> bool) (h : jsheap) (obj_str : nat -> string).

Inductive comparator_arg : Type :=
| CFunction (f : jsval -> jsval -> bool)
| CTrue
| CDefault.

Definition own_props (v : jsval) : list (string * jsval) :=
  match v with JRef r => default [] (obj_props <$> h !! r) | _ => [] end.

Section Loop.
Context (rec : jsval -> jsval -> option bool).

(** The [for ... in] loops that return at the first hit. *)
Fixpoint any_prop (ps : list (string * jsval)) (arg : string -> jsval) : option bool :=
  match ps with
  | [] => Some false
  | (k, v) :: ps =>
      if starts "$" k then any_prop ps arg
      else b ← rec v (arg k); if b : bool then Some true else any_prop ps arg
  end.
End Loop.

(** The comparator made when none is given; [None] when the objects are cyclic
    and the stack overflows. *)
Fixpoint default_comparator (fuel : nat) (obj text : jsval) : option bool :=
  match fuel with
  | O => None
  | S fuel =>
      if truthy obj && truthy text && String.eqb (typeof h obj) "object" && String.eqb (typeof h text) "object"
      then any_prop (default_comparator fuel) (own_props obj) (prop_get (own_props text))
      else Some (has_infix (toLowerCase (prim_str obj_str text)) (toLowerCase (prim_str obj_str obj)))
  end.

Definition compare_with (c : comparator_arg) (fuel : nat) (obj text : jsval) : option bool :=
  match c with
  | CFunction f => Some (f obj text)
  | CTrue => Equals.equals special h fuel obj text
  | CDefault => default_comparator fuel obj text
  end.

(** [search], after the leading [!]s: [n] of them. *)
Fixpoint search_in (c : comparator_arg) (fuel : nat) (obj text : jsval) : option bool :=
  match fuel with
  | O => None
  | S fuel =>
      let t := typeof h obj in
      if String.eqb t "boolean" || String.eqb t "number" || String.eqb t "string" then compare_with c fuel obj text
      else if String.eqb t "object" then
        if String.eqb (typeof h text) "object" then compare_with c fuel obj text
        else any_prop (search c fuel) (own_props obj) (fun _ => text)
      else Some false
  end
with search (c : comparator_arg) (fuel : nat) (obj text : jsval) : option bool :=
  match fuel with
  | O => None
  | S fuel => 
      match text with
      | JStr s => if starts "!" s then negb <$> search c fuel obj (JStr (tail s)) else search_in c fuel obj text
      | _ => search_in c fuel obj text
      end
  end.

Inductive expression_arg : Type :=
| EFunction (f : jsval -> bool)
| EValue (v : jsval).

Definition predicate := jsval -> option bool.

Definition path_of (path : string) (value : jsval) : jsval :=
  if String.eqb path "$" then value
  else if truthy value then prop_get (own_props value) path else value.

(** [expression] as the object of the conditions; [None] is [return array]. *)
Definition conditions (e : jsval) : option (list (string * jsval)) :=
  match e with
  | JBool _ | JNum _ | JNaN | JStr _ => Some [("$", e)]
  | JNull => Some []
  | JRef _ => if is_fun h e then None else Some (own_props e)
  | JUndef => None
  end.

Definition predicates (c : comparator_arg) (fuel : nat) (cs : list (string * jsval)) : list predicate :=
  map (fun kv value => search c fuel (path_of kv.1 value) kv.2)
    (List.filter (fun kv => negb (bool_decide (kv.2 = JUndef))) cs).

(** [predicates.check]. *)
Fixpoint check (ps : list predicate) (value : jsval) : option bool :=
  match ps with
  | [] => Some true
  | p :: ps => b ← p value; if b : bool then check ps value else Some false
  end.

Fixpoint filter_loop (ps : list predicate) (array : list jsval) : option (list jsval) :=
  match array with
  | [] => Some []
  | value :: array =>
      b ← check ps value;
      filtered ← filter_loop ps array;
      Some (if b : bool then value :: filtered else filtered)
  end.

(** The filter on the elements of an array. *)
Definition filterFilter (c : comparator_arg) (fuel : nat) (array : list jsval) (e : expression_arg) : option (list jsval) :=
  match e with
  | EFunction f => filter_loop [fun v => Some (f v)] array
  | EValue v =>
      match conditions v with
      | Some cs => filter_loop (predicates c fuel cs) array
      | None => Some array
      end
  end.

(** ** Lemmas *)

Lemma search_not c fuel v t : search c (S fuel) v (JStr (String "!" t)) = negb <$> search c fuel v (JStr t).
Proof. done. Qed.

Lemma check_one c fuel v e :
  check (predicates c fuel [("$", e)]) v = if bool_decide (e = JUndef) then Some true else search c fuel v e.
Proof.
  unfold predicates. cbn [List.filter snd]. destruct (bool_decide (e = JUndef)); [done|].
  cbn [negb List.filter map check fst snd]. change (path_of "$" v) with v.
  destruct (search c fuel v e) as [[]|]; reflexivity.
Qed.

Lemma filter_loop_split ps qs array l : (forall v, check qs v = negb <$> check ps v) ->
  filter_loop ps array = Some l -> exists l', filter_loop qs array = Some l' /\ l ++ l' ≡ₚ array.
Proof.
  intros Hc. revert l. induction array as [|v array IH]; intros l Hl; cbn [filter_loop] in *.
  { injection Hl as <-. by exists []. }
  rewrite Hc. destruct (check ps v) as [b|]; [|done]. cbn [mbind option_bind fmap option_fmap option_map] in *.
  destruct (filter_loop ps array) as [l0|] eqn:Hf; [|done]. cbn [mbind option_bind] in Hl. injection Hl as <-.
  destruct (IH l0 eq_refl) as (l' & -> & Hp). cbn [mbind option_bind].
  destruct b; (eexists; split; [done|]); simpl; [by rewrite Hp|]. by rewrite <- Permutation_middle, Hp.
Qed.

Lemma filter_loop_sublist ps array l : filter_loop ps array = Some l ->
  l `sublist_of` array /\ Forall (fun v => check ps v = Some true) l.
Proof.
  revert l. induction array as [|v array IH]; intros l Hl; cbn [filter_loop] in Hl.
  { injection Hl as <-. by split. }
  destruct (check ps v) as [b|] eqn:Hb; [|done]. cbn [mbind option_bind] in Hl.
  destruct (filter_loop ps array) as [l0|]; [|done]. injection Hl as <-. destruct (IH l0 eq_refl) as [Hs Hf].
  destruct b; (split; [by constructor|]); [by constructor|done].
Qed.
End Filter.
End Filter.

(** ** [limitTo] (15581-15598) *)

Module LimitTo.
Section LimitTo.
Context {A : Type}.

(** [int(limit)] has given an integer or NaN ([None]); [big] is an infinite
    limit. *)
Inductive limit_arg : Type := Finite (n : option Z) | Infinite (positive : bool).

Definition limitTo (input : list A) (limit : limit_arg) : list A :=
  match limit with
  | Infinite _ => input
  | Finite None => []
  | Finite (Some limit) =>
      if limit =? 0 then []
      else if 0 <? limit then take (Z.to_nat limit) input
      else drop (length input - Z.to_nat (- limit)) input
  end.
End LimitTo.
End LimitTo.

(** ** [orderBy] (15715-15779) *)

Module OrderBy.
Section OrderBy.
Context (h : jsheap) (obj_str : nat -> string) (len : jsval -> jsval).
(** What [$parse] gives for a predicate whose evaluation neither throws nor
    assigns: its function, or the value of a constant. *)
Context (parse_get : string -> jsval -> jsval) (parse_constant : string -> option string).

Abbreviation comparator := (comparison_of jsval).

(** [v1 < v2] of two values of the same type; objects are compared as text, and
    [null] with an object (whose text is no numeral) as NaN. *)
Definition less (v1 v2 : jsval) : bool :=
  match v1, v2 with
  | JNum a, JNum b => a <? b
  | JBool a, JBool b => negb a && b
  | JNull, _ | _, JNull | JUndef, JUndef | JNaN, _ | _, JNaN => false
  | _, _ => str_lt (prim_str obj_str v1) (prim_str obj_str v2)
  end.

Definition date_value (v : jsval) : option jsval :=
  match v with
  | JRef r => match h !! r with Some (ODate (Some t)) => Some (JNum t) | Some (ODate None) => Some JNaN | _ => None end
  | _ => None
  end.

Definition compare : comparator := fun v1 v2 =>
  let t1 := typeof h v1 in
  let t2 := typeof h v2 in
  if String.eqb t1 t2 then
    let '(v1, v2) := match date_value v1, date_value v2 with Some a, Some b => (a, b) | _, _ => (v1, v2) end in
    let '(v1, v2) := match v1, v2 with JStr a, JStr b => (JStr (toLowerCase a), JStr (toLowerCase b)) | _, _ => (v1, v2) end in
    if strict_eq v1 v2 then 0 else if less v1 v2 then -1 else 1
  else if str_lt t1 t2 then -1 else 1.

Definition reverseComparator (comp : comparator) (descending : bool) : comparator :=
  if descending then fun a b => comp b a else comp.

Inductive predicate_arg : Type :=
| PFunction (get : jsval -> jsval)
| PString (s : string)
| PFalsy.                        (** any falsy value but the empty string *)

(** [a[key]] of a value that is not nullish. *)
Definition get_prop (v : jsval) (key : string) : jsval :=
  match v with
  | JRef r =>
      match h !! r with
      | Some (OArray es) => if String.eqb key "length" then JNum (Z.of_nat (length es)) else prop_get (obj_props (OArray es)) key
      | Some o => prop_get (obj_props o) key
      | None => JUndef
      end
  | JStr s =>
      if String.eqb key "length" then JNum (Z.of_nat (String.length s))
      else prop_get (obj_props (OArray (map (fun c => JStr (String c "")) (String.list_ascii_of_string s)))) key
  | _ => JUndef
  end.

Definition predicate_comparator (p : predicate_arg) : comparator :=
  match p with
  | PFalsy => compare
  | PFunction get => fun a b => compare (get a) (get b)
  | PString s =>
      let signed := starts "+" s || starts "-" s in
      let descending := starts "-" s in
      let s := if signed then tail s else s in
      if String.eqb s "" then reverseComparator compare descending
      else
        match parse_constant s with
        | Some key => reverseComparator (fun a b => compare (get_prop a key) (get_prop b key)) descending
        | None => reverseComparator (fun a b => compare (parse_get s a) (parse_get s b)) descending
        end
  end.

(** The first comparison that is not equal decides. *)
Definition effective (sortPredicate : list predicate_arg) : list predicate_arg :=
  match sortPredicate with [] => [PString "+"] | _ => sortPredicate end.

(** [Array.prototype.sort] puts what is undefined at the end, without a comparison. *)
Definition is_undefined (v : jsval) : bool := match v with JUndef => true | _ => false end.

Definition sort_values (comp : comparator) (l : list jsval) : list jsval :=
  array_sort comp (List.filter (fun v => negb (is_undefined v)) l) ++ List.filter is_undefined l.

(** A predicate that is a constant reads a property of the elements. *)
Definition reads_property (p : predicate_arg) : bool :=
  match p with
  | PString s =>
      let s := if starts "+" s || starts "-" s then tail s else s in
      negb (String.eqb s "") && bool_decide (is_Some (parse_constant s))
  | _ => false
  end.

(** [None] when a property of [null] would be read, if the sort compares it. *)
Definition orderBy (array : list jsval) (sortPredicate : list predicate_arg) (reverseOrder : jsval) : option (list jsval) :=
  if existsb reads_property sortPredicate && bool_decide (JNull ∈ array) then None
  else Some (sort_values (reverseComparator (first_difference (map predicate_comparator (effective sortPredicate)))
               (Basics.toBoolean h len obj_str reverseOrder)) array).

(** ** Lemmas: the comparators are coherent on plain keys *)

(** Numbers, strings, booleans, [null] and [undefined]. *)
Definition plain_key (v : jsval) : Prop := match v with JNaN | JRef _ => False | _ => True end.

Definition num_compare (a b : Z) : Z := if a =? b then 0 else if a <? b then -1 else 1.

Lemma compare_num a b : compare (JNum a) (JNum b) = num_compare a b.
Proof.
  unfold compare, num_compare. cbn. destruct (Z.eqb_spec a b) as [->|Hne]; [by rewrite bool_decide_true|].
  rewrite bool_decide_false by congruence. done.
Qed.

Lemma compare_str a b : compare (JStr a) (JStr b) = str_compare (toLowerCase a) (toLowerCase b).
Proof.
  unfold compare, str_compare. cbn -[toLowerCase str_lt]. destruct (String.eqb_spec (toLowerCase a) (toLowerCase b)) as [->|Hne].
  - by rewrite bool_decide_true.
  - rewrite bool_decide_false by congruence. done.
Qed.

Lemma compare_coherent : coherent plain_key compare.
Proof.
  split.
  - intros a b Ha Hb. destruct a, b; try done; rewrite ?compare_num, ?compare_str; try apply str_compare_anti;
      try (by destruct b, b0); try reflexivity; try (by destruct b).
    unfold num_compare. destruct (Z.eqb_spec n n0), (Z.eqb_spec n0 n), (Z.ltb_spec n n0), (Z.ltb_spec n0 n); lia.
  - intros a b c Ha Hb Hc. destruct a, b, c; try done; rewrite ?compare_num, ?compare_str; try apply str_compare_trans;
      try (by vm_compute); try (destruct b; by vm_compute); try (destruct b, b0; by vm_compute); try (destruct b, b0, b1; by vm_compute).
    unfold num_compare. repeat match goal with |- context [?x =? ?y] => destruct (Z.eqb_spec x y)
      | |- context [?x <? ?y] => destruct (Z.ltb_spec x y) end; lia.
Qed.

Lemma reverse_coherent P comp descending : coherent P comp -> coherent P (reverseComparator comp descending).
Proof.
  intros [Ha Ht]. destruct descending; simpl; [|done]. split; [intros; by apply Ha|].
  intros a b c Hpa Hpb Hpc H1 H2. by apply (Ht c b a).
Qed.

(** The key a predicate compares is plain on the value. *)
Definition key_plain (p : predicate_arg) (v : jsval) : Prop :=
  match p with
  | PFalsy => plain_key v
  | PFunction get => plain_key (get v)
  | PString s =>
      let s := if starts "+" s || starts "-" s then tail s else s in
      if String.eqb s "" then plain_key v
      else plain_key (match parse_constant s with Some key => get_prop v key | None => parse_get s v end)
  end.

Lemma predicate_coherent p : coherent (key_plain p) (predicate_comparator p).
Proof.
  destruct p as [get|s|]; cbn [predicate_comparator].
  - by apply (pullback_coherent _ plain_key); [apply compare_coherent|].
  - set (P := key_plain (PString s)). assert (HP : P = key_plain (PString s)) by done. unfold key_plain in HP.
    destruct (String.eqb _ ""); [apply reverse_coherent; rewrite HP; apply compare_coherent|].
    destruct (parse_constant _) as [key|]; apply reverse_coherent;
      (apply (pullback_coherent _ plain_key); [apply compare_coherent|by rewrite HP]).
  - apply compare_coherent.
Qed.
End OrderBy.
End OrderBy.

(** ** What the filters promise *)

(** A search text with a leading exclamation mark keeps exactly the elements
    the text alone rejects: together the two results are the array, each element
    once, whatever the comparator and however deep the objects are. *)
Theorem filter_negation_partitions special h obj_str (c : Filter.comparator_arg) (fuel : nat) (array : list jsval) (t : string) (l : list jsval) :
  Filter.filterFilter special h obj_str c fuel array (Filter.EValue (JStr t)) = Some l ->
  exists l', Filter.filterFilter special h obj_str c (S fuel) array (Filter.EValue (JStr (String "!" t))) = Some l' /\
    l ++ l' ≡ₚ array /\ l `sublist_of` array.
Proof.
  unfold Filter.filterFilter. cbn [Filter.conditions]. intros Hl.
  destruct (Filter.filter_loop_split (Filter.predicates special h obj_str c fuel [("$", JStr t)])
    (Filter.predicates special h obj_str c (S fuel) [("$", JStr (String "!" t))]) array l) as (l' & H1 & H2); [|exact Hl|].
  - intros v. by rewrite !Filter.check_one, !bool_decide_false, Filter.search_not.
  - exists l'. split; [done|]. split; [done|]. by apply Filter.filter_loop_sublist in Hl as [? _].
Qed.

Definition people : jsheap :=
  {[0%nat := OPlain [("name", JStr "Ann"); ("age", JNum 30)]; 1%nat := OPlain [("name", JStr "bob"); ("age", JNum 20)];
    2%nat := OPlain [("name", JStr "ANNA"); ("age", JNum 20)]]}.

Lemma filter_negation_partitions_witness :
  let f t n := Filter.filterFilter (fun _ => false) people (fun _ => "[object Object]") Filter.CDefault n
                 [JRef 0; JRef 1; JRef 2] (Filter.EValue (JStr t)) in
  f "ann" 10%nat = Some [JRef 0; JRef 2] /\
  exists l', f "!ann" 11%nat = Some l' /\ [JRef 0; JRef 2] ++ l' ≡ₚ [JRef 0; JRef 1; JRef 2] /\
    [JRef 0; JRef 2] `sublist_of` [JRef 0; JRef 1; JRef 2].
Proof.
  intros f. split; [vm_compute; reflexivity|].
  apply (filter_negation_partitions (fun _ => false) people (fun _ => "[object Object]") Filter.CDefault 10). vm_compute. reflexivity.
Defined.

Lemma undefined_last l : List.filter OrderBy.is_undefined l = replicate (length (List.filter OrderBy.is_undefined l)) JUndef.
Proof. induction l as [|v l IH]; simpl; [done|]. destruct v; simpl; try done. by f_equal. Qed.

Lemma filter_split {A} (f : A -> bool) l : List.filter (fun v => negb (f v)) l ++ (List.filter f l) ≡ₚ l.
Proof.
  induction l as [|v l IH]; simpl; [done|]. destruct (f v); simpl; [|by rewrite IH]. by rewrite <- Permutation_middle, IH.
Qed.

(** C26: [orderBy] sorts: on an array whose defined elements have keys that are
    numbers, strings, booleans, [null] or [undefined] - of mixed types too -,
    and that has no [null] among them if a predicate is a constant, whose
    property would be read, the result is a permutation of the array: first the
    defined elements, none before one that the predicates, the first difference
    deciding, and the reverse flag put ahead of it, then the undefined ones,
    which the reverse flag leaves at the end. *)
Theorem orderBy_sorts h obj_str len parse_get parse_constant (array : list jsval) (ps : list OrderBy.predicate_arg) (rev : jsval) :
  Forall (fun v => v <> JUndef -> Forall (fun p => OrderBy.key_plain h parse_get parse_constant p v) (OrderBy.effective ps)) array ->
  existsb (OrderBy.reads_property parse_constant) ps = false \/ JNull ∉ array ->
  exists defined n, OrderBy.orderBy h obj_str len parse_get parse_constant array ps rev = Some (defined ++ replicate n JUndef) /\
  (defined ++ replicate n JUndef) ≡ₚ array /\ ~ (JUndef ∈ defined) /\
  StronglySorted (fun a b =>
    let d := first_difference (map (OrderBy.predicate_comparator h obj_str parse_get parse_constant)
      (OrderBy.effective ps)) in
    (if Basics.toBoolean h len obj_str rev then d b a else d a b) <= 0) defined.
Proof.
  intros HP Hn. unfold OrderBy.orderBy, OrderBy.sort_values. set (qs := OrderBy.effective ps) in *.
  assert (Hif : existsb (OrderBy.reads_property parse_constant) ps && bool_decide (JNull ∈ array) = false).
  { destruct Hn as [->|Hn]; [done|]. rewrite bool_decide_false by done. apply andb_false_r. }
  rewrite Hif. clear Hif Hn. set (ds := List.filter (fun v => negb (OrderBy.is_undefined v)) array).
  eexists _, _. rewrite <- undefined_last. split; [reflexivity|]. split; [rewrite sort_perm; apply (filter_split OrderBy.is_undefined)|].
  assert (Hds : forall v, v ∈ ds -> v ∈ array /\ v <> JUndef).
  { intros v [Hv Hu]%list_elem_of_In%filter_In. split; [by apply list_elem_of_In|]. by intros ->. }
  split; [rewrite sort_perm; by intros [_ ?]%Hds|].
  set (P := fun v => Forall (fun p => OrderBy.key_plain h parse_get parse_constant p v) qs) in *.
  assert (Hc : coherent P (first_difference (map (OrderBy.predicate_comparator h obj_str parse_get parse_constant) qs))).
  { apply first_coherent, Forall_fmap, Forall_forall. intros p Hp.
    pose proof (OrderBy.predicate_coherent h obj_str parse_get parse_constant p) as [Ha Ht].
    assert (Hin : forall v, P v -> OrderBy.key_plain h parse_get parse_constant p v) by (intros v Hv; by apply (proj1 (Forall_forall _ _) Hv)).
    split; [intros a b Hpa Hpb; apply Ha; by apply Hin|].
    intros a b c0 Hpa Hpb Hpc. apply Ht; by apply Hin. }
  assert (HD : Forall P ds).
  { apply Forall_forall. intros v [Hv Hu]%Hds. by apply (proj1 (Forall_forall _ _) HP v Hv). }
  pose proof (sort_sorted P _ ds (OrderBy.reverse_coherent P _ (Basics.toBoolean h len obj_str rev) Hc) HD) as Hs.
  unfold in_order, OrderBy.reverseComparator in Hs. by destruct (Basics.toBoolean h len obj_str rev).
Qed.

Lemma orderBy_sorts_witness :
  let get (s : string) (v : jsval) := OrderBy.get_prop people v s in
  let o := OrderBy.orderBy people (fun _ => "[object Object]") (fun _ => JUndef) get (fun _ => None)
    [JRef 0; JUndef; JRef 1; JRef 2] [OrderBy.PString "age"; OrderBy.PString "-name"] (JBool true) in
  o = Some [JRef 0; JRef 2; JRef 1; JUndef] /\ exists d n, o = Some (d ++ replicate n JUndef) /\ JUndef ∉ d.
Proof.
  intros get o. split; [vm_compute; reflexivity|].
  destruct (orderBy_sorts people (fun _ => "[object Object]") (fun _ => JUndef) get (fun _ => None)
    [JRef 0; JUndef; JRef 1; JRef 2] [OrderBy.PString "age"; OrderBy.PString "-name"] (JBool true)) as (d & n & Ho & _ & Hd & _).
  - repeat constructor; try (vm_compute; done).
  - by left.
  - by exists d, n.
Defined.
