(* ===== verification/NgFormat.v ===== *)
(** * NgFormat: the formatting filters

    [number], [currency] and [date] of [angular.js] (15066-15074, 15127-15451)
    with the [en-us] locale (9180-9236).  A number to format is the decimal of at
    most 15 significant digits that [String] prints for it, without an exponent;
    such decimals are told apart by doubles, and [Numbers.rounded] answers
    nothing when a step of the rounding would leave them.  A date is what its
    getters return; a text has 8-bit code units.  Parsing a date given as text is
    not modelled. *)

From S2P Require Import Prelude Text Js NgFilters.

#[local] Set Warnings "-register-all".

(** ** Digit strings *)

Definition digit_char (d : N) : ascii := ascii_of_N (48 + d).

(** [x] on exactly [n] digits, modulo [10 ^ n]. *)
Fixpoint digits (n : nat) (x : N) : string :=
  match n with
  | O => ""
  | S n => digits n (x / 10) +:+ String (digit_char (x mod 10)) ""
  end.

Fixpoint zeros (n : nat) : string := match n with O => "" | S n => String "0" (zeros n) end.

Definition all_zero (s : string) : bool := all_chars (fun c => Ascii.eqb c "0") s.

(** The fraction as [String(number)] prints it. *)
Fixpoint trim_zeros (s : string) : string :=
  match s with
  | "" => ""
  | String c s' => if all_zero s then "" else String c (trim_zeros s')
  end.

(** [while (s.length < n) s += '0']. *)
Definition pad_zeros (n : nat) (s : string) : string := s +:+ zeros (n - String.length s).

(** [while (s.length < n) s = '0' + s]. *)
Definition pad_left (n : nat) (s : string) : string := zeros (n - String.length s) +:+ s.

Fixpoint drop_chars (n : nat) (s : string) : string :=
  match n, s with S n, String _ s => drop_chars n s | _, _ => s end.

(** [s.substr(s.length - n)]; a start below zero counts from the end. *)
Definition last_chars (n : nat) (s : string) : string := drop_chars (String.length s - n) s.

(** ** Lemmas: padding and trimming *)

Lemma length_digits n x : String.length (digits n x) = n.
Proof. revert x. induction n as [|n IH]; intros x; [done|]. cbn [digits]. rewrite length_app_string, IH. simpl. lia. Qed.

Lemma all_zero_zeros s : all_zero s = true -> s = zeros (String.length s).
Proof.
  unfold all_zero. induction s as [|c s IH]; cbn [all_chars]; [done|].
  destruct (Ascii.eqb_spec c "0") as [->|]; [|done]. intros Hs. simpl. by rewrite <- IH.
Qed.

Lemma pad_trim s : pad_zeros (String.length s) (trim_zeros s) = s.
Proof.
  unfold pad_zeros. induction s as [|c s IH]; [done|]. cbn [trim_zeros].
  destruct (all_zero (String c s)) eqn:Hz; [by rewrite (all_zero_zeros _ Hz) at 2|].
  cbn [String.length]. simpl Nat.sub.
  change (String c (trim_zeros s) +:+ zeros (String.length s - String.length (trim_zeros s)))
    with (String c (trim_zeros s +:+ zeros (String.length s - String.length (trim_zeros s)))).
  by rewrite IH.
Qed.

(** ** [number] and [currency] *)

Module Numbers.

(** [(-1)^neg * mant / 10^scale]. *)
Record decimal := Decimal { d_neg : bool; d_mant : N; d_scale : nat }.

Record pattern := Pattern {
  minFrac : nat; maxFrac : nat;
  posPre : string; posSuf : string; negPre : string; negSuf : string;
  gSize : nat; lgSize : nat
}.

(** The generic currency sign of the patterns, one code unit. *)
Definition currency_sign : ascii := ascii_of_N 164.

Definition decimal_pattern : pattern := Pattern 0 3 "" "" "-" "" 3 3.
Definition currency_pattern : pattern :=
  Pattern 2 2 (String currency_sign "") "" ("(" +:+ String currency_sign "") ")" 3 3.

Definition ten (n : nat) : N := (10 ^ N.of_nat n)%N.

Definition whole_of (mant : N) (scale : nat) : string := pretty (mant / ten scale)%N.
Definition fraction_of (mant : N) (scale : nat) : string := trim_zeros (digits scale (mant mod ten scale)%N).

(** [Math.round] of [mant * 10^fractionSize / 10^scale], half up. *)
Definition round_half_up (mant : N) (scale fractionSize : nat) : N :=
  ((2 * mant * ten fractionSize + ten scale) / (2 * ten scale))%N.

(** A decimal of at most 15 digits that is printed without an exponent, whose
    smallest such is 10^-6. *)
Definition plain_number (mant : N) (scale : nat) : bool :=
  ((mant <? ten 15) && ((mant =? 0) || (ten scale <=? mant * ten 6)))%N.

(** angular.js 15169: [Math.round(+(number.toString() + 'e' + fractionSize))] of
    a number that is not negative.  The text is read as the double nearest to
    the decimal it says; that double is on the same side of every half as the
    decimal (Lemma [rounding_margin]), so its rounding is the decimal's.  A
    result of 15 digits at most is printed in full and read back with its
    exponent; with more it is not of these numbers: from 10^21 on it is printed
    with an exponent of its own, and what is read back is NaN. *)
Definition rounded (mant : N) (scale fractionSize : nat) : option N :=
  let r := round_half_up mant scale fractionSize in
  if plain_number mant scale && (r <? ten 15)%N then Some r else None.

(** One of the two loops that copy the digits: [i] is the index of the first
    character, [size] the length of the groups of its end. *)
Fixpoint group_loop (size : nat) (sep : string) (i : nat) (s : string) : string :=
  match s with
  | "" => ""
  | String c s' =>
      (if (Nat.modulo (String.length s) size =? 0)%nat && negb (i =? 0)%nat then sep else "") +:+
      String c (group_loop size sep (S i) s')
  end.

Definition take_chars (n : nat) (s : string) : string := String.substring 0 n s.

Definition group_digits (p : pattern) (sep : string) (whole : string) : string :=
  let len := String.length whole in
  let pos := if (lgSize p + gSize p <=? len)%nat then (len - lgSize p)%nat else O in
  group_loop (gSize p) sep 0 (take_chars pos whole) +:+ group_loop (lgSize p) sep pos (drop_chars pos whole).

(** [formatNumber]; [None] when the rounding leaves the numbers modelled. *)
Definition formatNumber (number : decimal) (p : pattern) (groupSep decimalSep : string) (fractionSize : option nat) : option string :=
  let fractionLen := String.length (fraction_of (d_mant number) (d_scale number)) in
  let fs := match fractionSize with Some fs => fs | None => Nat.min (Nat.max (minFrac p) fractionLen) (maxFrac p) end in
  r ← rounded (d_mant number) (d_scale number) fs;
  let isNegative := d_neg number && negb (r =? 0)%N in
  let whole := whole_of r fs in
  let fraction := pad_zeros fs (fraction_of r fs) in
  let formattedText :=
    group_digits p groupSep whole +:+
    (if (fs =? 0)%nat then "" else decimalSep +:+ take_chars fs fraction) in
  Some ((if isNegative then negPre p else posPre p) +:+ formattedText +:+ (if isNegative then negSuf p else posSuf p)).

Definition numberFilter (number : decimal) (fractionSize : option nat) : option string :=
  formatNumber number decimal_pattern "," "." fractionSize.

(** [replace(/\u00A4/g, currencySymbol)] of a symbol without [$]-patterns. *)
Fixpoint replace_sign (symbol s : string) : string :=
  match s with
  | "" => ""
  | String c s => (if Ascii.eqb c currency_sign then symbol else String c "") +:+ replace_sign symbol s
  end.

Definition currencyFilter (amount : decimal) (symbol : option string) : option string :=
  replace_sign (default "$" symbol) <$> formatNumber amount currency_pattern "," "." (Some 2%nat).

(** ** Lemmas *)

(** The text without the group separator. *)
Fixpoint strip (g : ascii) (s : string) : string :=
  match s with "" => "" | String c s => if Ascii.eqb c g then strip g s else String c (strip g s) end.

Lemma strip_app g a b : strip g (a +:+ b) = strip g a +:+ strip g b.
Proof.
  induction a as [|c a IH]; [done|]. change (String c a +:+ b) with (String c (a +:+ b)). cbn [strip].
  rewrite IH. by destruct (Ascii.eqb c g).
Qed.

Lemma strip_none g s : contains_char g s = false -> strip g s = s.
Proof.
  induction s as [|c s IH]; cbn [contains_char strip]; [done|]. intros [Hc Hs]%orb_false_iff. by rewrite Hc, IH.
Qed.

Lemma strip_group g size s : contains_char g s = false -> forall i, strip g (group_loop size (String g "") i s) = s.
Proof.
  induction s as [|c s IH]; intros Hg i; [done|]. cbn [contains_char] in Hg. apply orb_false_iff in Hg as [Hc Hs].
  cbn [group_loop]. rewrite strip_app.
  change (strip g (String c (group_loop size (String g "") (S i) s))) with
    (if Ascii.eqb c g then strip g (group_loop size (String g "") (S i) s)
     else String c (strip g (group_loop size (String g "") (S i) s))).
  rewrite Hc, IH by done. destruct (_ && _); [|done]. cbn [strip]. by rewrite Ascii.eqb_refl.
Qed.

Lemma take_drop_chars n s : take_chars n s +:+ drop_chars n s = s.
Proof.
  revert n. induction s as [|c s IH]; intros [|n]; try done.
  change (take_chars (S n) (String c s)) with (String c (take_chars n s)). cbn [drop_chars].
  change (String c (take_chars n s) +:+ drop_chars n s) with (String c (take_chars n s +:+ drop_chars n s)). by rewrite IH.
Qed.

Lemma strip_group_digits g p s : contains_char g s = false -> strip g (group_digits p (String g "") s) = s.
Proof.
  intros Hg. unfold group_digits. set (pos := if (_ <=? _)%nat then _ else _).
  rewrite <- (take_drop_chars pos s), contains_char_app in Hg. apply orb_false_iff in Hg as [H1 H2].
  rewrite strip_app, !strip_group by done. apply take_drop_chars.
Qed.

Lemma ten_pos n : (0 < ten n)%N.
Proof. apply N.neq_0_lt_0, N.pow_nonzero. lia. Qed.

Lemma ten_add m n : ten (m + n) = (ten m * ten n)%N.
Proof. unfold ten. by rewrite Nat2N.inj_add, N.pow_add_r. Qed.

Lemma round_close mant scale fs :
  (2 * mant * ten fs <= 2 * round_half_up mant scale fs * ten scale + ten scale /\
   2 * round_half_up mant scale fs * ten scale <= 2 * mant * ten fs + ten scale)%N.
Proof.
  unfold round_half_up. set (x := (2 * mant * ten fs)%N). assert (Ht : (0 < ten scale)%N) by (apply N.neq_0_lt_0, N.pow_nonzero; lia).
  generalize dependent (ten scale). intros t Ht.
  assert (H2 : (2 * t)%N <> 0%N) by lia.
  pose proof (N.div_mod (x + t) (2 * t) H2). pose proof (N.mod_lt (x + t) (2 * t) H2).
  set (q := ((x + t) / (2 * t))%N) in *. set (m := ((x + t) mod (2 * t))%N) in *. clearbody q m x. split; lia.
Qed.

(** A decimal of 15 digits that is no half is further from every half than the
    double nearest to it: a double is within its 2^-53rd part. *)
Lemma rounding_margin mant scale fs (half : N) :
  (mant < ten 15 -> round_half_up mant scale fs < ten 15 -> 2 * mant * ten fs <> half * ten scale ->
   2 * mant * ten fs < 2 ^ 52 * ((2 * mant * ten fs - half * ten scale) + (half * ten scale - 2 * mant * ten fs)))%N.
Proof.
  intros Hm Hr Hne. destruct (round_close mant scale fs) as [Hc _].
  assert (H15 : (2 * ten 15 < 2 ^ 52)%N) by done. generalize dependent (2 ^ 52)%N. generalize dependent (round_half_up mant scale fs).
  intros r Hr Hc b Hb. pose proof (ten_pos scale) as Hp.
  destruct (decide (scale <= fs)%nat) as [Hs|Hs].
  - assert (Hf : ten fs = (ten (fs - scale) * ten scale)%N) by (rewrite <- ten_add; f_equal; lia). rewrite Hf in *. clear Hf Hs Hm.
    generalize dependent (ten scale). intros t Hne Hc Hp. generalize dependent (ten (fs - scale)). intros u Hne Hc.
    replace (2 * mant * (u * t))%N with (2 * (mant * u) * t)%N in * by lia. set (x := (mant * u)%N) in *. clearbody x.
    assert (Hx : (x < ten 15)%N) by nia.
    assert (Hd : (1 <= (2 * x - half) + (half - 2 * x))%N) by (destruct (decide (2 * x = half)%N) as [<-|]; [by destruct Hne|lia]).
    rewrite <- !N.mul_sub_distr_r, <- N.mul_add_distr_r, N.mul_assoc. apply N.mul_lt_mono_pos_r; [done|]. nia.
  - assert (Hf : ten scale = (ten (scale - fs) * ten fs)%N) by (rewrite <- ten_add; f_equal; lia). rewrite Hf in *. clear Hf Hs Hc Hr Hp.
    pose proof (ten_pos fs) as Hp. generalize dependent (ten fs). intros t Hne Hp. rewrite N.mul_assoc in *. generalize dependent (half * ten (scale - fs))%N.
    intros h Hne. assert (Hd : (1 <= (2 * mant - h) + (h - 2 * mant))%N) by (destruct (decide (2 * mant = h)%N) as [<-|]; [by destruct Hne|lia]).
    rewrite <- !N.mul_sub_distr_r, <- N.mul_add_distr_r, N.mul_assoc. apply N.mul_lt_mono_pos_r; [done|]. nia.
Qed.

Lemma fraction_text r fs : take_chars fs (pad_zeros fs (fraction_of r fs)) = digits fs (r mod ten fs)%N.
Proof.
  unfold fraction_of. rewrite <- (length_digits fs (r mod ten fs)%N) at 2. rewrite pad_trim.
  apply substring_all. by rewrite length_digits.
Qed.

Example number_1 : numberFilter (Decimal false 123456789 2) None = Some "1,234,567.89".
Proof. reflexivity. Qed.
Example number_2 : numberFilter (Decimal true 5 4) (Some 3%nat) = Some "-0.001".
Proof. reflexivity. Qed.
Example number_3 : currencyFilter (Decimal true 12345 1) None = Some "($1,234.50)".
Proof. reflexivity. Qed.

End Numbers.

(** ** [date] *)

Module Dates.

(** What the getters of a [Date] return. *)
Record date := MkDate {
  getFullYear : Z; getMonth : Z; getDate : Z; getDay : Z;
  getHours : Z; getMinutes : Z; getSeconds : Z; getMilliseconds : Z;
  getTimezoneOffset : Z
}.

Record formats := Formats {
  MONTH : list string; SHORTMONTH : list string; DAY : list string; SHORTDAY : list string; AMPMS : list string;
  named : list (string * string)
}.

Definition en_us : formats := Formats
  (split_char "," "January,February,March,April,May,June,July,August,September,October,November,December")
  (split_char "," "Jan,Feb,Mar,Apr,May,Jun,Jul,Aug,Sep,Oct,Nov,Dec")
  (split_char "," "Sunday,Monday,Tuesday,Wednesday,Thursday,Friday,Saturday")
  (split_char "," "Sun,Mon,Tue,Wed,Thu,Fri,Sat")
  ["AM"; "PM"]
  [("medium", "MMM d, y h:mm:ss a"); ("short", "M/d/yy h:mm a"); ("fullDate", "EEEE, MMMM d, y");
   ("longDate", "MMMM d, y"); ("mediumDate", "MMM d, y"); ("shortDate", "M/d/yy");
   ("mediumTime", "h:mm:ss a"); ("shortTime", "h:mm a")].

(** [padNumber]. *)
Definition padNumber (num : Z) (digits : nat) (trim : bool) : string :=
  let neg := if num <? 0 then "-" else "" in
  let num := pad_left digits (pretty (Z.abs num)) in
  neg +:+ (if trim then last_chars digits num else num).

(** [dateGetter], on the value of the getter. *)
Definition dateGetter (value : Z) (size : nat) (offset : Z) (trim : bool) : string :=
  let value := if (0 <? offset) || (- offset <? value) then value + offset else value in
  let value := if (value =? 0) && (offset =? -12) then 12 else value in
  padNumber value size trim.

Definition dateStrGetter (names : list string) (value : Z) : string :=
  match names !! Z.to_nat value with Some s => s | None => "undefined" end.

(** [Math.floor] of the quotient when the zone is positive, [Math.ceil] when not. *)
Definition timeZoneGetter (d : date) : string :=
  let zone := -1 * getTimezoneOffset d in
  (if 0 <=? zone then "+" else "") +:+
  padNumber (Z.quot zone 60) 2 false +:+ padNumber (Z.abs (Z.rem zone 60)) 2 false.

Definition ampmGetter (d : date) (f : formats) : string :=
  match AMPMS f !! (if getHours d <? 12 then 0%nat else 1%nat) with Some s => s | None => "undefined" end.

(** [DATE_FORMATS]. *)
Definition DATE_FORMATS (value : string) : option (date -> formats -> string) :=
  match value with
  | "yyyy" => Some (fun d _ => dateGetter (getFullYear d) 4 0 false)
  | "yy" => Some (fun d _ => dateGetter (getFullYear d) 2 0 true)
  | "y" => Some (fun d _ => dateGetter (getFullYear d) 1 0 false)
  | "MMMM" => Some (fun d f => dateStrGetter (MONTH f) (getMonth d))
  | "MMM" => Some (fun d f => dateStrGetter (SHORTMONTH f) (getMonth d))
  | "MM" => Some (fun d _ => dateGetter (getMonth d) 2 1 false)
  | "M" => Some (fun d _ => dateGetter (getMonth d) 1 1 false)
  | "dd" => Some (fun d _ => dateGetter (getDate d) 2 0 false)
  | "d" => Some (fun d _ => dateGetter (getDate d) 1 0 false)
  | "HH" => Some (fun d _ => dateGetter (getHours d) 2 0 false)
  | "H" => Some (fun d _ => dateGetter (getHours d) 1 0 false)
  | "hh" => Some (fun d _ => dateGetter (getHours d) 2 (-12) false)
  | "h" => Some (fun d _ => dateGetter (getHours d) 1 (-12) false)
  | "mm" => Some (fun d _ => dateGetter (getMinutes d) 2 0 false)
  | "m" => Some (fun d _ => dateGetter (getMinutes d) 1 0 false)
  | "ss" => Some (fun d _ => dateGetter (getSeconds d) 2 0 false)
  | "s" => Some (fun d _ => dateGetter (getSeconds d) 1 0 false)
  | "sss" => Some (fun d _ => dateGetter (getMilliseconds d) 3 0 false)
  | "EEEE" => Some (fun d f => dateStrGetter (DAY f) (getDay d))
  | "EEE" => Some (fun d f => dateStrGetter (SHORTDAY f) (getDay d))
  | "a" => Some ampmGetter
  | "Z" => Some (fun d _ => timeZoneGetter d)
  | _ => None
  end.

(** ** Splitting the format: [DATE_FORMATS_SPLIT] *)

Definition quote : ascii := "'".
(** The line terminators [.] does not match; the two others are no 8-bit code
    units. *)
Definition newline : ascii := ascii_of_N 10.
Definition return_ : ascii := ascii_of_N 13.
Definition line_end (c : ascii) : bool := Ascii.eqb c newline || Ascii.eqb c return_.

(** The letters the second and the third alternative are for. *)
Definition special (c : ascii) : bool := contains_char c "yMdHhmsaZE'".
Definition repeats (c : ascii) : bool := contains_char c "EyMdHhms".

Fixpoint span (p : ascii -> bool) (s : string) : string * string :=
  match s with
  | "" => ("", "")
  | String c s' => if p c then let '(a, b) := span p s' in (String c a, b) else ("", s)
  end.

(** A quoted text after its opening quote: greedy, a doubled quote inside, and
    back to a single one when there is no other closing quote. *)
Fixpoint quoted (s : string) : option (string * string) :=
  match s with
  | "" => None
  | String c s1 =>
      if Ascii.eqb c quote then
        match s1 with
        | String c' s2 =>
            if Ascii.eqb c' quote then
              match quoted s2 with
              | Some (l, r) => Some (String quote (String quote l), r)
              | None => Some (String quote "", s1)
              end
            else Some (String quote "", s1)
        | "" => Some (String quote "", s1)
        end
      else match quoted s1 with Some (l, r) => Some (String c l, r) | None => None end
  end.

(** The leftmost match: the token and what follows it. *)
Fixpoint split_once (format : string) : option (string * string) :=
  match format with
  | "" => None
  | String c s =>
      if negb (special c) then Some (span (fun d => negb (special d)) format)
      else if Ascii.eqb c quote then
        match quoted s with Some (l, r) => Some (String quote l, r) | None => split_once s end
      else if repeats c then Some (span (Ascii.eqb c) format)
      else Some (String c "", s)
  end.

(** The last group, [.*], stops at the end of the line. *)
Definition line (s : string) : string := (span (fun c => negb (line_end c)) s).1.

(** [while (format)]: at most one turn per character. *)
Fixpoint parts_loop (fuel : nat) (format : string) : list string :=
  match fuel, format with
  | S fuel, String _ _ =>
      match split_once format with
      | Some (token, rest) => token :: parts_loop fuel (line rest)
      | None => [format]
      end
  | _, _ => []
  end.

Definition format_parts (format : string) : list string := parts_loop (String.length format) format.

(** ** Printing a part *)

(** [replace(/''/g, "'")]. *)
Fixpoint undouble (s : string) : string :=
  match s with
  | "" => ""
  | String c s1 =>
      match s1 with
      | String c' s2 =>
          if Ascii.eqb c quote && Ascii.eqb c' quote then String quote (undouble s2) else String c (undouble s1)
      | "" => s
      end
  end.

(** [replace(/(^'|'$)/g, '')]. *)
Definition strip_first (s : string) : string :=
  match s with String c s' => if Ascii.eqb c quote then s' else s | "" => "" end.
Fixpoint strip_last (s : string) : string :=
  match s with
  | "" => ""
  | String c "" => if Ascii.eqb c quote then "" else s
  | String c s' => String c (strip_last s')
  end.

Definition print_part (d : date) (f : formats) (value : string) : string :=
  match DATE_FORMATS value with
  | Some fn => fn d f
  | None => undouble (strip_last (strip_first value))
  end.

Definition concat_parts (d : date) (f : formats) (parts : list string) : string :=
  foldr (fun value text => print_part d f value +:+ text) "" parts.

Definition named_format (f : formats) (format : string) : string :=
  let format := if String.eqb format "" then "mediumDate" else format in
  match list_find (fun kv => kv.1 = format) (named f) with Some (_, (_, v)) => v | None => format end.

(** [date] on a [Date]. *)
Definition dateFilter (f : formats) (d : date) (format : string) : string :=
  concat_parts d f (format_parts (named_format f format)).

(** ** Lemmas: quoted literals *)

Fixpoint double (t : string) : string :=
  match t with
  | "" => ""
  | String c t => if Ascii.eqb c quote then String quote (String quote (double t)) else String c (double t)
  end.

(** A text as a literal of a format. *)
Definition quote_text (t : string) : string := String quote (double t +:+ String quote "").

Definition starts_quote (s : string) : bool := match s with String c _ => Ascii.eqb c quote | "" => false end.

Lemma quoted_double t rest : starts_quote rest = false ->
  quoted ((double t +:+ String quote "") +:+ rest) = Some (double t +:+ String quote "", rest).
Proof.
  intros Hr. induction t as [|c t IH].
  - change ((double "" +:+ String quote "") +:+ rest) with (String quote rest). cbn [quoted].
    rewrite Ascii.eqb_refl. destruct rest as [|c rest]; [done|]. cbn [starts_quote] in Hr. by rewrite Hr.
  - cbn [double]. destruct (Ascii.eqb_spec c quote) as [->|Hne].
    + change ((String quote (String quote (double t)) +:+ String quote "") +:+ rest) with
        (String quote (String quote ((double t +:+ String quote "") +:+ rest))).
      cbn [quoted]. by rewrite !Ascii.eqb_refl, IH.
    + change ((String c (double t) +:+ String quote "") +:+ rest) with (String c ((double t +:+ String quote "") +:+ rest)).
      cbn [quoted]. rewrite (proj2 (Ascii.eqb_neq c quote) Hne), IH. done.
Qed.

Lemma undouble_double t : undouble (double t) = t.
Proof.
  induction t as [|c t IH]; [done|]. cbn [double]. destruct (Ascii.eqb_spec c quote) as [->|Hne].
  - cbn [undouble]. by rewrite !Ascii.eqb_refl, IH.
  - cbn [undouble]. rewrite IH. destruct (double t) as [|c' u] eqn:Hd; [by destruct t as [|? ?]; cbn in Hd; [|destruct (Ascii.eqb _ _)]|].
    by rewrite (proj2 (Ascii.eqb_neq c quote) Hne).
Qed.

Lemma strip_last_quote s : strip_last (s +:+ String quote "") = s.
Proof.
  induction s as [|c s IH]; [done|]. change (String c s +:+ String quote "") with (String c (s +:+ String quote "")).
  cbn [strip_last]. rewrite IH. by destruct s.
Qed.

Lemma print_quote d f t : print_part d f (quote_text t) = t.
Proof.
  unfold print_part, quote_text. change (DATE_FORMATS (String quote _)) with (@None (date -> formats -> string)).
  cbn [strip_first]. rewrite Ascii.eqb_refl, strip_last_quote. apply undouble_double.
Qed.

(** On one line. *)
Definition one_line (s : string) : bool := all_chars (fun c => negb (line_end c)) s.

Lemma line_id s : one_line s = true -> line s = s.
Proof.
  unfold line, one_line. induction s as [|c s IH]; cbn [all_chars span]; [done|]. intros [Hc Hs]%andb_true_iff.
  rewrite Hc. specialize (IH Hs). destruct (span _ s) as [a b]. cbn [fst] in *. by rewrite IH.
Qed.

Lemma one_line_double t : one_line t = true -> one_line (double t) = true.
Proof.
  unfold one_line. induction t as [|c t IH]; cbn [all_chars double]; [done|]. intros [Hc Ht]%andb_true_iff.
  destruct (Ascii.eqb_spec c quote) as [->|]; cbn [all_chars]; rewrite IH by done; [done|by rewrite Hc].
Qed.

(** A format of fields, each followed by a literal. *)
Definition field_names : list string :=
  ["yyyy"; "yy"; "y"; "MMMM"; "MMM"; "MM"; "M"; "dd"; "d"; "HH"; "H"; "hh"; "h"; "mm"; "m"; "ss"; "s"; "sss"; "EEEE"; "EEE"; "a"; "Z"].

Definition compile (items : list (string * string)) : string :=
  foldr (fun item format => item.1 +:+ (quote_text item.2 +:+ format)) "" items.

Lemma split_field k x : k ∈ field_names -> split_once (k +:+ String quote x) = Some (k, String quote x).
Proof.
  intros Hk. unfold field_names in Hk.
  repeat (apply elem_of_cons in Hk as [->|Hk]; [reflexivity|]). by apply not_elem_of_nil in Hk.
Qed.

Lemma split_quote t rest : starts_quote rest = false -> split_once (quote_text t +:+ rest) = Some (quote_text t, rest).
Proof.
  intros Hr. change (quote_text t +:+ rest) with (String quote ((double t +:+ String quote "") +:+ rest)).
  cbn [split_once]. change (negb (special quote)) with false. change (Ascii.eqb quote quote) with true. cbn iota.
  by rewrite quoted_double.
Qed.

Lemma compile_starts items : Forall (fun i => i.1 ∈ field_names) items -> starts_quote (compile items) = false.
Proof.
  destruct items as [|[k t] items]; [done|]. intros [Hk _]%Forall_cons. cbn [compile foldr fst snd]. cbn [fst] in Hk.
  unfold field_names in Hk. repeat (apply elem_of_cons in Hk as [->|Hk]; [reflexivity|]). by apply not_elem_of_nil in Hk.
Qed.

Lemma field_nonempty k : k ∈ field_names -> exists c s, k = String c s /\ one_line k = true.
Proof.
  intros Hk. unfold field_names in Hk.
  repeat (apply elem_of_cons in Hk as [->|Hk]; [by do 2 eexists|]). by apply not_elem_of_nil in Hk.
Qed.

Lemma one_line_compile items : Forall (fun i => i.1 ∈ field_names /\ one_line i.2 = true) items ->
  one_line (compile items) = true.
Proof.
  induction 1 as [|[k t] items [Hk Ht] _ IH]; [done|]. cbn [compile foldr fst snd] in *.
  destruct (field_nonempty k Hk) as (c & s & _ & Hn). unfold one_line in *. rewrite !all_chars_app. fold (compile items).
  rewrite Hn, IH, andb_true_r. change (quote_text t) with (String quote (double t +:+ String quote "")).
  cbn [all_chars]. rewrite all_chars_app. apply one_line_double in Ht. unfold one_line in Ht. by rewrite Ht.
Qed.

Lemma parts_compile items : Forall (fun i => i.1 ∈ field_names /\ one_line i.2 = true) items ->
  forall fuel, (String.length (compile items) <= fuel)%nat ->
  parts_loop fuel (compile items) = items ≫= (fun i => [i.1; quote_text i.2]).
Proof.
  induction 1 as [|[k t] items [Hk Ht] Hi IH]; intros fuel Hf; [by destruct fuel|].
  cbn [compile foldr fst snd] in *. fold (compile items) in *.
  destruct (field_nonempty k Hk) as (c & s & Hks & Hkn).
  rewrite !length_app_string in Hf. unfold quote_text in Hf. cbn [String.length] in Hf.
  assert (Hlen : (1 <= String.length k)%nat) by (subst k; simpl; lia).
  destruct fuel as [|[|fuel]]; [lia|lia|].
  assert (Hnl : one_line (quote_text t +:+ compile items) = true).
  { pose proof (one_line_compile ((k, t) :: items) ltac:(by constructor)) as H. cbn [compile foldr fst snd] in H.
    unfold one_line in H. rewrite all_chars_app in H. by apply andb_true_iff in H as [_ H]. }
  assert (Hsp : split_once (k +:+ (quote_text t +:+ compile items)) = Some (k, quote_text t +:+ compile items)) by (by apply split_field).
  assert (Hst : starts_quote (compile items) = false).
  { apply compile_starts. eapply Forall_impl; [exact Hi|]. by intros x [? _]. }
  rewrite bind_cons. cbn [app fst snd].
  assert (H1 : forall x, parts_loop (S (S fuel)) (k +:+ x) = match split_once (k +:+ x) with
    | Some (token, rest) => token :: parts_loop (S fuel) (line rest) | None => [k +:+ x] end) by (intros x; by rewrite Hks).
  rewrite H1, Hsp, line_id by done. f_equal.
  change (parts_loop (S fuel) (quote_text t +:+ compile items)) with
    (match split_once (quote_text t +:+ compile items) with
     | Some (token, rest) => token :: parts_loop fuel (line rest) | None => [quote_text t +:+ compile items] end).
  rewrite split_quote by done. f_equal. rewrite line_id by (by apply one_line_compile). apply IH. lia.
Qed.

Definition demo_date : date := MkDate 2014 9 5 0 15 4 9 7 (-120).

Example date_1 : dateFilter en_us demo_date "fullDate" = "Sunday, October 5, 2014".
Proof. reflexivity. Qed.
Example date_2 : dateFilter en_us demo_date "yy-MM-dd'T'hh:mm:ss.sss a Z 'o''clock'" = "14-10-05T03:04:09.007 PM +0200 o'clock".
Proof. reflexivity. Qed.

(** The sign of an offset of less than an hour west is lost. *)
Example zone_sign_lost : timeZoneGetter (MkDate 1970 0 1 4 0 0 0 0 44) = "0044".
Proof. reflexivity. Qed.

(** A format is cut at the end of its first line. *)
Example second_line_lost : dateFilter en_us demo_date ("d" +:+ String newline "M") = "5".
Proof. reflexivity. Qed.
Example second_line_lost_too : dateFilter en_us demo_date ("d" +:+ String return_ "M") = "5".
Proof. reflexivity. Qed.

End Dates.

(** ** What the formatting filters promise *)

(** C20: a formatted number is the number, for decimals of at most 15 digits that
    are zero or not below 10^-6, as long as they have at most 15 digits when they
    are counted in units of the last digit asked for: without the group
    separators the integer part is the decimal numeral of the rounded value's,
    the fraction has exactly [fractionSize] digits, the sign is kept unless the
    result is zero, and the rounded value is within half a unit of its last
    digit of the number. *)
Theorem number_format_value (number : Numbers.decimal) (p : Numbers.pattern) (g : ascii) (decimalSep : string) (fs : nat) (r : N) :
  is_digit g = false ->
  Numbers.rounded (Numbers.d_mant number) (Numbers.d_scale number) fs = Some r ->
  let neg := Numbers.d_neg number && negb (r =? 0)%N in
  (exists whole,
    Numbers.formatNumber number p (String g "") decimalSep (Some fs) =
      Some ((if neg then Numbers.negPre p else Numbers.posPre p) +:+
      (whole +:+ (if (fs =? 0)%nat then "" else decimalSep +:+ digits fs (r mod Numbers.ten fs)%N)) +:+
      (if neg then Numbers.negSuf p else Numbers.posSuf p)) /\
    Numbers.strip g whole = pretty (r / Numbers.ten fs)%N) /\
  (2 * Numbers.d_mant number * Numbers.ten fs <= 2 * r * Numbers.ten (Numbers.d_scale number) + Numbers.ten (Numbers.d_scale number) /\
   2 * r * Numbers.ten (Numbers.d_scale number) <= 2 * Numbers.d_mant number * Numbers.ten fs + Numbers.ten (Numbers.d_scale number))%N.
Proof.
  intros Hg Hr neg. split.
  - eexists. split.
    + unfold Numbers.formatNumber. rewrite Hr. cbn [mbind option_bind]. fold neg. rewrite Numbers.fraction_text. reflexivity.
    + apply Numbers.strip_group_digits. rewrite contains_char_all.
      rewrite (all_chars_mono is_digit); [done| |apply pretty_N_digits].
      intros c Hc. destruct (Ascii.eqb_spec c g); [congruence|done].
  - unfold Numbers.rounded in Hr. case_match; [|done]. injection Hr as <-. apply Numbers.round_close.
Qed.

Lemma number_format_value_witness :
  let n := Numbers.Decimal true 1234567895 3 in
  Numbers.formatNumber n Numbers.decimal_pattern "," "." (Some 2%nat) = Some "-1,234,567.90" /\
  exists whole, Numbers.strip "," whole = "1234567".
Proof.
  intros n. split; [reflexivity|].
  destruct (number_format_value n Numbers.decimal_pattern "," "." 2 123456790 eq_refl eq_refl) as [(whole & _ & Hw) _].
  exists whole. rewrite Hw. reflexivity.
Defined.

(** C21: a date format means what it says: any sequence of the date fields, each
    followed by an arbitrary text without a line terminator written as a quoted
    literal (quotes doubled) - as long as the format is not one of the locale's
    named ones -, prints exactly the fields of the date with those texts between
    them; no text, whatever letters or quotes it holds, is read as a field. *)
Theorem date_format_roundtrip (f : Dates.formats) (d : Dates.date) (items : list (string * string)) :
  Forall (fun i => i.1 ∈ Dates.field_names /\ Dates.one_line i.2 = true) items ->
  Dates.named_format f (Dates.compile items) = Dates.compile items ->
  Dates.dateFilter f d (Dates.compile items) =
    foldr (fun i text => Dates.print_part d f i.1 +:+ (i.2 +:+ text)) "" items.
Proof.
  intros Hi Hn. unfold Dates.dateFilter. rewrite Hn. unfold Dates.format_parts. rewrite Dates.parts_compile by done.
  clear Hn. induction Hi as [|[k t] items _ _ IH]; [done|]. rewrite bind_cons. cbn [app fst snd Dates.concat_parts foldr] in *.
  rewrite Dates.print_quote. unfold Dates.concat_parts in IH. by rewrite IH.
Qed.

Lemma date_format_roundtrip_witness :
  let items := [("yyyy", "-"); ("MM", " o'clock 'yy' "); ("a", "")] in
  Dates.compile items = "yyyy'-'MM' o''clock ''yy'' 'a''" /\
  Dates.dateFilter Dates.en_us Dates.demo_date (Dates.compile items) = "2014-10 o'clock 'yy' PM".
Proof.
  intros items. split; [reflexivity|].
  rewrite (date_format_roundtrip Dates.en_us Dates.demo_date items); [reflexivity| |reflexivity].
  repeat constructor; unfold Dates.field_names; rewrite ?elem_of_cons; tauto.
Defined.
