(* ===== verification/NgEval.v ===== *)
(** * NgEval: what the parsed expressions compute

    The functions the parser builds ([angular.js] 10873-11012), the operators
    (10269-10300), the safety checks (10188-10261), and the two implementations
    of a path: the getter that is generated as code and the one for pages whose
    policy forbids that (11021-11270).  Promises are not unwrapped
    ([unwrapPromises] is false, its default).

    An object's own properties are in the heap, with the inherited members of a
    host object listed among its own; [proto] is the prototype chain of scopes.
    Numbers are the safe integers and NaN; an operation that leaves them is the
    error ["number"]. *)

From S2P Require Import Prelude Text Js NgCore NgLexer NgParser.

#[local] Set Warnings "-register-all".

(** ** Objects *)

Section Eval.
Context (proto : nat -> option nat) (depth : nat) (obj_str : nat -> string).
(** [Object], and [Function.prototype]'s [apply], [call] and [bind], in that order. *)
Context (object_ref : nat) (call_refs : list nat).

Abbreviation R A := (result string A).

Definition own (h : jsheap) (r : nat) : list (string * jsval) := default [] (obj_props <$> h !! r).

(** A property along the prototype chain. *)
Fixpoint chain_get (fuel : nat) (h : jsheap) (r : nat) (k : string) : jsval :=
  if prop_has (own h r) k then prop_get (own h r) k
  else match fuel, proto r with S fuel, Some p => chain_get fuel h p k | _, _ => JUndef end.

(** The decimal value of a string of digits. *)
Fixpoint read_digits (acc : Z) (s : string) : option Z :=
  match s with
  | "" => Some acc
  | String c s => if is_digit c then read_digits (10 * acc + (Z.of_N (N_of_ascii c) - 48)) s else None
  end.

Definition array_index (s : string) : option nat :=
  match read_digits 0 s with
  | Some n => if String.eqb (pretty n) s then Some (Z.to_nat n) else None
  | None => None
  end.

(** [o[k]] of a value that is not nullish. *)
Definition get_member (h : jsheap) (o : jsval) (k : string) : jsval :=
  match o with
  | JRef r =>
      match h !! r with
      | Some (OArray es) => if String.eqb k "length" then JNum (Z.of_nat (length es)) else chain_get depth h r k
      | _ => chain_get depth h r k
      end
  | JStr s =>
      if String.eqb k "length" then JNum (Z.of_nat (String.length s))
      else match array_index k with
           | Some i => match String.get i s with Some c => JStr (String c "") | None => JUndef end
           | None => JUndef
           end
  | _ => JUndef
  end.

(** [o[k] = v], in strict mode. *)
Definition set_member (h : jsheap) (o : jsval) (k : string) (v : jsval) : R jsheap :=
  match o with
  | JRef r =>
      match h !! r with
      | Some (OPlain ps) => Ok (<[r := OPlain (prop_set ps k v)]> h)
      | Some (OFun f ps) => Ok (<[r := OFun f (prop_set ps k v)]> h)
      | Some (OArray es) =>
          match array_index k with
          | Some i =>
              if (i <? length es)%nat then Ok (<[r := OArray (<[i := v]> es)]> h)
              else Ok (<[r := OArray (es ++ replicate (i - length es) JUndef ++ [v])]> h)
          | None => Err "array property"
          end
      | _ => Err "exotic property"
      end
  | _ => Err "TypeError"
  end.

Definition nullish (v : jsval) : bool := match v with JUndef | JNull => true | _ => false end.

Definition new_object (h : jsheap) : jsval * jsheap :=
  let '(r, h) := Copy.alloc (OPlain []) h in (JRef r, h).

(** ** The safety checks *)

Definition ensureSafeMemberName (name : string) : R string :=
  if unsafe_member name then Err "$parse:isecfld" else Ok name.

(** [getStringValue]: [name + '']. *)
Definition getStringValue (name : jsval) : string := prim_str obj_str name.

Definition has_truthy (h : jsheap) (o : jsval) (k : string) : bool := truthy (get_member h o k).

Definition is_constructor_of_itself (h : jsheap) (o : jsval) : bool :=
  match o with JRef _ => bool_decide (get_member h o "constructor" = o) | _ => false end.

Definition ensureSafeObject (h : jsheap) (o : jsval) : R jsval :=
  if truthy o then
    if is_constructor_of_itself h o then Err "$parse:isecfn"
    else if has_truthy h o "document" && has_truthy h o "location" && has_truthy h o "alert" && has_truthy h o "setInterval"
    then Err "$parse:isecwindow"
    else if has_truthy h o "children" &&
            (has_truthy h o "nodeName" || has_truthy h o "prop" && has_truthy h o "attr" && has_truthy h o "find")
    then Err "$parse:isecdom"
    else if bool_decide (o = JRef object_ref) then Err "$parse:isecobj"
    else Ok o
  else Ok o.

Definition ensureSafeFunction (h : jsheap) (f : jsval) : R unit :=
  if truthy f then
    if is_constructor_of_itself h f then Err "$parse:isecfn"
    else match f with
         | JRef r => if bool_decide (r ∈ call_refs) then Err "$parse:isecff" else Ok tt
         | _ => Ok tt
         end
  else Ok tt.

(** ** Paths *)

Definition isPossiblyDangerousMemberName (name : string) : bool := String.eqb name "constructor".

Section Paths.
Context (expensive : bool).

(** [eso] or [identity], by the name of the key. *)
Definition eso (h : jsheap) (key : string) (v : jsval) : R jsval :=
  if expensive || isPossiblyDangerousMemberName key then ensureSafeObject h v else Ok v.

Definition has_own (h : jsheap) (o : jsval) (k : string) : bool :=
  match o with JRef r => prop_has (own h r) k | _ => false end.

(** [(l && l.hasOwnProperty(key)) ? l : s]. *)
Definition root_of (h : jsheap) (scope locals : jsval) (key : string) : jsval :=
  if truthy locals && has_own h locals key then locals else scope.

(** The statements generated for the keys after the first. *)
Fixpoint generated_loop (h : jsheap) (keys : list string) (s : jsval) : R jsval :=
  match keys with
  | [] => Ok s
  | key :: keys =>
      if nullish s then Ok JUndef
      else s ← eso h key (get_member h s key); generated_loop h keys s
  end.

(** The getter generated by [getterFn]. *)
Definition generated_getter (h : jsheap) (keys : list string) (scope locals : jsval) : R jsval :=
  scope ← (if expensive then ensureSafeObject h scope else Ok scope);
  locals ← (if expensive then ensureSafeObject h locals else Ok locals);
  match keys with
  | [] => Ok scope
  | key :: keys =>
      if nullish scope then Ok JUndef
      else s ← eso h key (get_member h (root_of h scope locals key) key); generated_loop h keys s
  end.

(** [cspSafeGetter] after its first key: it ends at an empty key. *)
Fixpoint csp_loop (h : jsheap) (keys : list string) (pathVal : jsval) : R jsval :=
  match keys with
  | [] => Ok pathVal
  | key :: keys =>
      if String.eqb key "" then Ok pathVal
      else if nullish pathVal then Ok JUndef
      else pathVal ← eso h key (get_member h pathVal key); csp_loop h keys pathVal
  end.

(** [cspSafeGetterFn] of at most five keys. *)
Definition cspSafeGetter (h : jsheap) (keys : list string) (scope locals : jsval) : R jsval :=
  match keys with
  | [] => Ok JUndef
  | key0 :: keys =>
      let pathVal := root_of h scope locals key0 in
      if nullish pathVal then Ok pathVal
      else pathVal ← eso h key0 (get_member h pathVal key0); csp_loop h keys pathVal
  end.

(** The loop over the keys five at a time, for a longer path; the names of each
    five are checked when it gets there. *)
Fixpoint csp_chunks (fuel : nat) (h : jsheap) (keys : list string) (scope locals : jsval) : R jsval :=
  match fuel with
  | O => Err "out of fuel"
  | S fuel =>
      if existsb unsafe_member (take 5 keys) then Err "$parse:isecfld"
      else
        val ← cspSafeGetter h (take 5 keys) scope locals;
        match drop 5 keys with [] => Ok val | keys => csp_chunks fuel h keys val JUndef end
  end.

Definition csp_getter (h : jsheap) (keys : list string) (scope locals : jsval) : R jsval :=
  if (length keys <? 6)%nat then cspSafeGetter h keys scope locals
  else csp_chunks (length keys) h keys scope locals.

(** [getterFn(path, options)], called. *)
Definition getter (csp : bool) (h : jsheap) (path : string) (scope locals : jsval) : R jsval :=
  let keys := split_char "." path in
  if csp then csp_getter h keys scope locals else generated_getter h keys scope locals.
End Paths.

(** [setter]: the loop over all keys but the last. *)
Fixpoint setter_loop (h : jsheap) (obj : jsval) (keys : list string) (v : jsval) : R jsheap :=
  match keys with
  | [] => Ok h
  | [key] =>
      _ ← ensureSafeMemberName key;
      if nullish obj then Err "TypeError"
      else _ ← ensureSafeObject h (get_member h obj key); set_member h obj key v
  | key :: keys =>
      _ ← ensureSafeMemberName key;
      if nullish obj then Err "TypeError"
      else
        propertyObj ← ensureSafeObject h (get_member h obj key);
        if truthy propertyObj then setter_loop h propertyObj keys v
        else
          let '(o, h) := new_object h in
          h ← set_member h obj key o; setter_loop h o keys v
  end.

Definition setter (h : jsheap) (obj : jsval) (path : string) (v : jsval) : R (jsval * jsheap) :=
  _ ← ensureSafeObject h obj;
  h ← setter_loop h obj (split_char "." path) v; Ok (v, h).


(** ** Operators (10269-10300) *)

Definition num (z : Z) : R jsval := if (- 2 ^ 53 <? z) && (z <? 2 ^ 53) then Ok (JNum z) else Err "number".

(** [Number(v)]; the numerals of strings are the decimal integers. *)
Definition to_number (v : jsval) : option Z :=
  match v with
  | JNum n => Some n
  | JBool b => Some (if b then 1 else 0)
  | JNull => Some 0
  | JUndef | JNaN => None
  | JStr _ | JRef _ =>
      let s := trim_space (prim_str obj_str v) in
      match s with
      | "" => Some 0
      | String "-" s' => if String.eqb s' "" then None else Z.opp <$> read_digits 0 s'
      | _ => read_digits 0 s
      end
  end.

Definition arith (f : Z -> Z -> R jsval) (a b : jsval) : R jsval :=
  match to_number a, to_number b with Some x, Some y => f x y | _, _ => Ok JNaN end.

Definition is_text (v : jsval) : bool := match v with JStr _ | JRef _ => true | _ => false end.

(** [a + b] of two defined values. *)
Definition js_add (a b : jsval) : R jsval :=
  if is_text a || is_text b then Ok (JStr (prim_str obj_str a +:+ prim_str obj_str b))
  else arith (fun x y => num (x + y)) a b.

(** [a < b]; NaN compares as false. *)
Definition js_less (a b : jsval) : bool :=
  match is_text a && is_text b with
  | true => let s := prim_str obj_str a in let t := prim_str obj_str b in String.leb s t && negb (String.eqb s t)
  | false => match to_number a, to_number b with Some x, Some y => x <? y | _, _ => false end
  end.
Definition comparable (a b : jsval) : bool :=
  is_text a && is_text b || bool_decide (is_Some (to_number a)) && bool_decide (is_Some (to_number b)).

(** [a == b]. *)
Definition loose_eq (a b : jsval) : bool :=
  match a, b with
  | JUndef, JNull | JNull, JUndef | JUndef, JUndef | JNull, JNull => true
  | JUndef, _ | JNull, _ | _, JUndef | _, JNull => false
  | JStr _, JStr _ | JRef _, JRef _ => strict_eq a b
  | JStr s, JRef _ => String.eqb s (prim_str obj_str b)
  | JRef _, JStr s => String.eqb (prim_str obj_str a) s
  | _, _ => match to_number a, to_number b with Some x, Some y => x =? y | _, _ => false end
  end.

Definition int32 (v : jsval) : Z := match to_number v with Some n => to_int32 n | None => 0 end.

Definition defined_or (v : jsval) (d : jsval) : jsval := match v with JUndef => d | _ => v end.

(** An operator on the values of both operands. *)
Definition strict_operator (op : string) (a b : jsval) : R jsval :=
  match op with
  | "+" =>
      match a, b with
      | JUndef, _ => Ok b
      | _, JUndef => Ok a
      | _, _ => js_add a b
      end
  | "-" => arith (fun x y => num (x - y)) (defined_or a (JNum 0)) (defined_or b (JNum 0))
  | "*" => arith (fun x y => num (x * y)) a b
  | "/" => arith (fun x y => if negb (y =? 0) && (Z.rem x y =? 0) then num (Z.quot x y) else Err "number") a b
  | "%" => arith (fun x y => if y =? 0 then Ok JNaN else num (Z.rem x y)) a b
  | "^" => Ok (JNum (to_int32 (Z.lxor (int32 a) (int32 b))))
  | "&" => Ok (JNum (to_int32 (Z.land (int32 a) (int32 b))))
  | "=" => Ok JUndef
  | "===" => Ok (JBool (strict_eq a b))
  | "!==" => Ok (JBool (negb (strict_eq a b)))
  | "==" => Ok (JBool (loose_eq a b))
  | "!=" => Ok (JBool (negb (loose_eq a b)))
  | "<" => Ok (JBool (js_less a b))
  | ">" => Ok (JBool (js_less b a))
  | "<=" => Ok (JBool (comparable a b && negb (js_less b a)))
  | ">=" => Ok (JBool (comparable a b && negb (js_less a b)))
  | _ => Err "TypeError"
  end.

(** The operators that do not evaluate both operands first. *)
Inductive op_class : Type := CAnd | COr | CFilter | CStrict.
Definition classify (op : string) : op_class :=
  match op with "&&" => CAnd | "||" => COr | "|" => CFilter | _ => CStrict end.

(** An operator token used as an operand: it is called without its operands. *)
Definition operator_value (name : string) : R jsval :=
  match name with
  | "null" => Ok JNull
  | "true" => Ok (JBool true)
  | "false" => Ok (JBool false)
  | "undefined" | "=" => Ok JUndef
  | _ => Err "TypeError"
  end.

(** ** Expressions *)

Section Run.
Context (csp expensive : bool).
(** A string of code units as a value, and a numeral's value. *)
Context (text_of : list N -> string) (number_of : string -> jsval).
(** A call of a function of the application, and of a filter. *)
Context (invoke : nat -> jsval -> list jsval -> jsheap -> R (jsval * jsheap)).
Context (run_filter : string -> list jsval -> jsheap -> R (jsval * jsheap)).

(** A call of a value that may not be a function. *)
Definition invoke_value (f this : jsval) (args : list jsval) (h : jsheap) : R (jsval * jsheap) :=
  match f with
  | JRef r => match h !! r with Some (OFun fid _) => invoke fid this args h | _ => Err "TypeError" end
  | _ => Err "TypeError"
  end.

(** [fnPtr.apply]: a function that has none of its own inherits it. *)
Definition apply_of (h : jsheap) (f : jsval) : jsval :=
  if has_own h f "apply" then get_member h f "apply"
  else if is_fun h f then match call_refs with a :: _ => JRef a | [] => JUndef end
  else get_member h f "apply".

Definition is_apply (a : jsval) : bool :=
  match call_refs with r :: _ => bool_decide (a = JRef r) | [] => false end.

(** [fnPtr.apply ? fnPtr.apply(context, args) : fnPtr(args[0], ..., args[4])]
    (angular.js 10942-10944); [fnPtr] is [noop] for what is not truthy. *)
Definition call_function (f context : jsval) (args : list jsval) (h : jsheap) : R (jsval * jsheap) :=
  if negb (truthy f) then Ok (JUndef, h)
  else
    let a := apply_of h f in
    if negb (truthy a) then invoke_value f JUndef (take 5 (args ++ replicate 5 JUndef)) h
    else if is_apply a then invoke_value f context args h
    else
      let '(r, h) := Copy.alloc (OArray args) h in
      invoke_value a f [context; JRef r] h.

Section Lists.
Context (eval : expr -> jsheap -> R (jsval * jsheap)).

(** Arguments and elements, from left to right; [check] is what is done with
    each value. *)
Fixpoint eval_list (check : jsheap -> jsval -> R jsval) (es : list expr) (h : jsheap) : R (list jsval * jsheap) :=
  match es with
  | [] => Ok ([], h)
  | e :: es =>
      p ← eval e h;
      v ← check p.2 p.1;
      q ← eval_list check es p.2;
      Ok (v :: q.1, q.2)
  end.

Fixpoint eval_fields (fs : list (list N * expr)) (ps : list (string * jsval)) (h : jsheap) : R (list (string * jsval) * jsheap) :=
  match fs with
  | [] => Ok (ps, h)
  | (key, e) :: fs => p ← eval e h; eval_fields fs (prop_set ps (text_of key) p.1) p.2
  end.

(** The statements; the value is the last one's. *)
Fixpoint eval_statements (ss : list expr) (value : jsval) (h : jsheap) : R (jsval * jsheap) :=
  match ss with [] => Ok (value, h) | e :: ss => p ← eval e h; eval_statements ss p.1 p.2 end.
End Lists.

Definition no_check (h : jsheap) (v : jsval) : R jsval := Ok v.

(** [eval e scope locals self]: the call of the function built for [e]; [self]
    is the third argument that a call passes to the function of a field. *)
Fixpoint eval (e : expr) (scope locals self : jsval) (h : jsheap) : R (jsval * jsheap) :=
  match e with
  | ETok (FnOp name) => v ← operator_value name; Ok (v, h)
  | ETok (FnNum raw) => Ok (number_of raw, h)
  | ETok (FnStr vs) => Ok (JStr (text_of vs), h)
  | ETok (FnIdent path) => v ← getter expensive csp h path scope locals; Ok (v, h)
  | EZero => Ok (JNum 0, h)
  | EUnary _ r => p ← eval r scope locals JUndef h; Ok (JBool (negb (truthy p.1)), p.2)
  | EBinary op l r =>
      match classify op with
      | CAnd => p ← eval l scope locals JUndef h; if truthy p.1 then eval r scope locals JUndef p.2 else Ok p
      | COr => p ← eval l scope locals JUndef h; if truthy p.1 then Ok p else eval r scope locals JUndef p.2
      | CFilter =>
          match r with
          | EFilter name args =>
              p ← eval l scope locals JUndef h;
              q ← eval_list (fun e => eval e scope locals JUndef) no_check args p.2;
              run_filter name (p.1 :: q.1) q.2
          | _ => Err "TypeError"
          end
      | CStrict =>
          p ← eval l scope locals JUndef h;
          q ← eval r scope locals JUndef p.2;
          v ← strict_operator op p.1 q.1; Ok (v, q.2)
      end
  | ETernary l m r =>
      p ← eval l scope locals JUndef h;
      if truthy p.1 then eval m scope locals JUndef p.2 else eval r scope locals JUndef p.2
  | EFilter _ _ => Err "TypeError"
  | EAssign l r => p ← eval r scope locals JUndef h; assign l scope p.1 locals p.2
  | ECall fn c args =>
      context ← (match c with Some o => eval o scope locals JUndef h | None => Ok (scope, h) end);
      args ← eval_list (fun e => eval e scope locals JUndef) ensureSafeObject args context.2;
      f ← eval fn scope locals context.1 args.2;
      _ ← ensureSafeObject f.2 context.1;
      _ ← ensureSafeFunction f.2 f.1;
      v ← call_function f.1 context.1 args.1 f.2;
      r ← ensureSafeObject v.2 v.1; Ok (r, v.2)
  | EIndex o i =>
      p ← eval o scope locals JUndef h;
      q ← eval i scope locals JUndef p.2;
      k ← ensureSafeMemberName (getStringValue q.1);
      if truthy p.1 then v ← ensureSafeObject q.2 (get_member q.2 p.1 k); Ok (v, q.2) else Ok (JUndef, q.2)
  | EField o f =>
      p ← (if truthy self then Ok (self, h) else eval o scope locals JUndef h);
      v ← getter expensive csp p.2 f p.1 JUndef; Ok (v, p.2)
  | EArray es =>
      p ← eval_list (fun e => eval e scope locals JUndef) no_check es h;
      let '(r, h) := Copy.alloc (OArray p.1) p.2 in Ok (JRef r, h)
  | EObject fs =>
      p ← eval_fields (fun e => eval e scope locals JUndef) fs [] h;
      let '(r, h) := Copy.alloc (OPlain p.1) p.2 in Ok (JRef r, h)
  | EStatements ss => eval_statements (fun e => eval e scope locals JUndef) ss JUndef h
  end
(** The attribute [assign]. *)
with assign (e : expr) (scope value locals : jsval) (h : jsheap) : R (jsval * jsheap) :=
  match e with
  | ETok (FnIdent path) => setter h scope path value
  | EField o f =>
      p ← eval o scope locals JUndef h;
      if truthy p.1 then setter p.2 p.1 f value
      else
        let '(n, h) := new_object p.2 in
        q ← assign o scope n JUndef h; setter q.2 n f value
  | EIndex o i =>
      q ← eval i scope locals JUndef h;
      k ← ensureSafeMemberName (getStringValue q.1);
      p ← eval o scope locals JUndef q.2;
      _ ← ensureSafeObject p.2 p.1;
      if truthy p.1 then h ← set_member p.2 p.1 k value; Ok (value, h)
      else
        let '(n, h) := new_object p.2 in
        q ← assign o scope n JUndef h;
        h ← set_member q.2 n k value; Ok (value, h)
  | _ => Err "TypeError"
  end.

Lemma assign_index o i scope value locals h : assign (EIndex o i) scope value locals h =
  (q ← eval i scope locals JUndef h;
   k ← ensureSafeMemberName (getStringValue q.1);
   p ← eval o scope locals JUndef q.2;
   _ ← ensureSafeObject p.2 p.1;
   if truthy p.1 then h ← set_member p.2 p.1 k value; Ok (value, h)
   else
     let '(n, h) := new_object p.2 in
     q ← assign o scope n JUndef h;
     h ← set_member q.2 n k value; Ok (value, h)).
Proof. reflexivity. Qed.

Lemma assign_field o f scope value locals h : assign (EField o f) scope value locals h =
  (p ← eval o scope locals JUndef h;
   if truthy p.1 then setter p.2 p.1 f value
   else
     let '(n, h) := new_object p.2 in
     q ← assign o scope n JUndef h; setter q.2 n f value).
Proof. reflexivity. Qed.
End Run.

(** ** Lemmas: the two implementations of a path *)

Lemma generated_loop_app expensive h a b : forall s,
  generated_loop expensive h (a ++ b) s = (generated_loop expensive h a s ≫= generated_loop expensive h b).
Proof.
  induction a as [|key a IH]; intros s; [done|]. cbn [app generated_loop].
  destruct (nullish s); [by destruct b|]. by destruct (eso expensive h key _); cbn [mbind result_bind].
Qed.

Lemma csp_loop_generated expensive h keys : Forall (fun k => String.eqb k "" = false) keys ->
  forall v, csp_loop expensive h keys v = generated_loop expensive h keys v.
Proof.
  induction 1 as [|key keys Hk Hks IH]; intros v; [done|]. cbn [csp_loop generated_loop]. rewrite Hk.
  destruct (nullish v); [done|]. destruct (eso expensive h key _); cbn [mbind result_bind]; [apply IH|done].
Qed.

(** The same value, [null] and [undefined] not being told apart. *)
Definition same_value (a b : R jsval) : Prop :=
  match a, b with
  | Ok a, Ok b => a = b \/ nullish a = true /\ nullish b = true
  | Err x, Err y => x = y
  | _, _ => False
  end.

Lemma same_refl a : same_value a a.
Proof. destruct a; simpl; auto. Qed.

Lemma csp_getter_loop expensive h keys v : Forall (fun k => String.eqb k "" = false) keys -> keys <> [] -> nullish v = false ->
  cspSafeGetter expensive h keys v JUndef = generated_loop expensive h keys v.
Proof.
  destruct keys as [|key keys]; [done|]. intros [_ Hk]%Forall_cons _ Hv. cbn [cspSafeGetter generated_loop].
  change (root_of h v JUndef key) with v. rewrite Hv.
  destruct (eso expensive h key _); cbn [mbind result_bind]; [by apply csp_loop_generated|done].
Qed.

Definition regular_keys (keys : list string) : Prop :=
  Forall (fun k => String.eqb k "" = false) keys /\ existsb unsafe_member keys = false.

Lemma regular_split n keys : regular_keys keys -> regular_keys (take n keys) /\ regular_keys (drop n keys).
Proof.
  intros [Hk Hu]. rewrite <- (take_drop n keys), existsb_app in Hu. apply orb_false_iff in Hu as [H1 H2].
  rewrite <- (take_drop n keys) in Hk. apply Forall_app in Hk as [H3 H4]. by repeat split.
Qed.

Lemma csp_chunks_loop expensive h fuel : forall keys v, (length keys <= fuel)%nat -> regular_keys keys -> keys <> [] ->
  same_value (csp_chunks expensive fuel h keys v JUndef) (generated_loop expensive h keys v).
Proof.
  induction fuel as [|fuel IH]; intros keys v Hf Hr Hne; [by destruct keys; simpl in *; [|lia]|].
  destruct (regular_split 5 keys Hr) as [[Ht Htu] Hd]. cbn [csp_chunks]. rewrite Htu.
  assert (Htne : take 5 keys <> []) by (by destruct keys).
  assert (Hlen : (length (drop 5 keys) <= fuel)%nat) by (rewrite length_drop; destruct keys; simpl in *; [done|lia]).
  replace (generated_loop expensive h keys v) with (generated_loop expensive h (take 5 keys ++ drop 5 keys) v)
    by (by rewrite take_drop).
  rewrite generated_loop_app. destruct (nullish v) eqn:Hv.
  - destruct (take 5 keys) as [|key ks] eqn:Hk; [done|]. cbn [cspSafeGetter generated_loop].
    change (root_of h v JUndef key) with v. rewrite Hv. cbn [mbind result_bind].
    destruct (drop 5 keys) as [|key' ks'] eqn:Hdr; [right; by split|].
    pose proof (IH (key' :: ks') v Hlen Hd ltac:(done)) as Hi. cbn [generated_loop] in *. rewrite Hv in Hi.
    destruct (csp_chunks expensive fuel h _ v JUndef); simpl in *; [|done].
    right. by destruct Hi as [->|[? _]].
  - rewrite csp_getter_loop by done. destruct (generated_loop expensive h (take 5 keys) v) as [x|x]; cbn [mbind result_bind]; [|done].
    destruct (drop 5 keys) as [|key ks] eqn:Hdr; [apply same_refl|]. by apply IH.
Qed.

Lemma root_not_nullish h scope locals key : nullish scope = false -> nullish (root_of h scope locals key) = false.
Proof. intros Hs. unfold root_of. destruct (truthy locals) eqn:Ht; [|done]. destruct (has_own h locals key); [by destruct locals|done]. Qed.

(** ** Lemmas: evaluation *)

Section ExprInd.
Context (P : expr -> Prop).
Context (HTok : forall f, P (ETok f)) (HZero : P EZero).
Context (HUnary : forall op r, P r -> P (EUnary op r)).
Context (HBinary : forall op l r, P l -> P r -> P (EBinary op l r)).
Context (HTernary : forall l m r, P l -> P m -> P r -> P (ETernary l m r)).
Context (HFilter : forall name args, Forall P args -> P (EFilter name args)).
Context (HAssign : forall l r, P l -> P r -> P (EAssign l r)).
Context (HCall : forall fn c args, P fn -> (match c with Some o => P o | None => True end) -> Forall P args -> P (ECall fn c args)).
Context (HIndex : forall o i, P o -> P i -> P (EIndex o i)).
Context (HField : forall o f, P o -> P (EField o f)).
Context (HArray : forall es, Forall P es -> P (EArray es)).
Context (HObject : forall fs : list (list N * expr), Forall (fun f => P f.2) fs -> P (EObject fs)).
Context (HStatements : forall ss, Forall P ss -> P (EStatements ss)).

(** Induction on expressions, through every list and option they hold. *)
Fixpoint expr_deep_ind (e : expr) : P e :=
  let fix all (es : list expr) : Forall P es :=
    match es with [] => Forall_nil_2 _ | e :: es => Forall_cons_2 _ _ _ (expr_deep_ind e) (all es) end in
  let fix all_fields (fs : list (list N * expr)) : Forall (fun f => P f.2) fs :=
    match fs with [] => Forall_nil_2 _ | f :: fs => Forall_cons_2 _ _ _ (expr_deep_ind f.2) (all_fields fs) end in
  match e with
  | ETok f => HTok f
  | EZero => HZero
  | EUnary op r => HUnary op r (expr_deep_ind r)
  | EBinary op l r => HBinary op l r (expr_deep_ind l) (expr_deep_ind r)
  | ETernary l m r => HTernary l m r (expr_deep_ind l) (expr_deep_ind m) (expr_deep_ind r)
  | EFilter name args => HFilter name args (all args)
  | EAssign l r => HAssign l r (expr_deep_ind l) (expr_deep_ind r)
  | ECall fn c args => HCall fn c args (expr_deep_ind fn)
      (match c with Some o => expr_deep_ind o | None => I end)
      (all args)
  | EIndex o i => HIndex o i (expr_deep_ind o) (expr_deep_ind i)
  | EField o f => HField o f (expr_deep_ind o)
  | EArray es => HArray es (all es)
  | EObject fs => HObject fs (all_fields fs)
  | EStatements ss => HStatements ss (all ss)
  end.
End ExprInd.

Lemma eval_list_ext (f g : expr -> jsheap -> R (jsval * jsheap)) check es :
  Forall (fun e => forall h, f e h = g e h) es -> forall h, eval_list f check es h = eval_list g check es h.
Proof.
  induction 1 as [|e es He _ IH]; intros h; [done|]. cbn [eval_list]. rewrite He.
  destruct (g e h) as [p|]; cbn [mbind result_bind]; [|done]. destruct (check p.2 p.1); cbn [mbind result_bind]; [|done]. by rewrite IH.
Qed.

Lemma eval_fields_ext text_of (f g : expr -> jsheap -> R (jsval * jsheap)) fs :
  Forall (fun x : list N * expr => forall h, f x.2 h = g x.2 h) fs ->
  forall ps h, eval_fields text_of f fs ps h = eval_fields text_of g fs ps h.
Proof.
  induction 1 as [|[k e] fs He _ IH]; intros ps h; [done|]. cbn [eval_fields fst snd] in *. rewrite He.
  destruct (g e h) as [p|]; cbn [mbind result_bind]; [apply IH|done].
Qed.

Lemma eval_statements_ext (f g : expr -> jsheap -> R (jsval * jsheap)) ss :
  Forall (fun e => forall h, f e h = g e h) ss -> forall v h, eval_statements f ss v h = eval_statements g ss v h.
Proof.
  induction 1 as [|e ss He _ IH]; intros v h; [done|]. cbn [eval_statements]. rewrite He.
  destruct (g e h) as [p|]; cbn [mbind result_bind]; [apply IH|done].
Qed.

(** [step] takes the next bound computation apart on both sides. *)
Ltac step :=
  cbn [mbind result_bind fst snd];
  match goal with
  | |- (?m ≫= _) = (?m ≫= _) => destruct m; [|reflexivity]
  | |- (if ?b then _ else _) = (if ?b then _ else _) => destruct b
  end; cbn [mbind result_bind fst snd].

Section Ext.
Context (csp expensive : bool) (text_of : list N -> string) (number_of : string -> jsval).
Context (run_filter : string -> list jsval -> jsheap -> R (jsval * jsheap)).

(** A call the checks let through: of a function of the heap that is not
    [Function] and not [call], [apply] or [bind], on an object that is not the
    window, an element, [Object] or [Function] - or on nothing, if the
    function's [apply] was cleared; or of what a checked value has for its
    [apply], on that value. *)
Inductive checked (h : jsheap) (fid : nat) (this : jsval) (args : list jsval) : Prop :=
| checked_function r ps context v : h !! r = Some (OFun fid ps) -> ensureSafeFunction h (JRef r) = Ok tt ->
    ensureSafeObject h context = Ok v ->
    (this = context \/ truthy (apply_of h (JRef r)) = false /\ this = JUndef) -> checked h fid this args
| checked_apply h0 context v args' r ar ps : ensureSafeFunction h0 this = Ok tt -> ensureSafeObject h0 context = Ok v ->
    apply_of h0 this = JRef r -> is_apply (JRef r) = false ->
    Copy.alloc (OArray args') h0 = (ar, h) -> args = [context; JRef ar] -> h !! r = Some (OFun fid ps) ->
    checked h fid this args.

Context (invoke invoke' : nat -> jsval -> list jsval -> jsheap -> R (jsval * jsheap)).
Context (agree : forall fid this args h, checked h fid this args -> invoke fid this args h = invoke' fid this args h).
Local Abbreviation ev := (eval csp expensive text_of number_of invoke run_filter).
Local Abbreviation ev' := (eval csp expensive text_of number_of invoke' run_filter).
Local Abbreviation asg := (assign csp expensive text_of number_of invoke run_filter).
Local Abbreviation asg' := (assign csp expensive text_of number_of invoke' run_filter).

Lemma invoke_agree h f this args :
  (forall r fid ps, f = JRef r -> h !! r = Some (OFun fid ps) -> checked h fid this args) ->
  invoke_value invoke f this args h = invoke_value invoke' f this args h.
Proof.
  intros H. unfold invoke_value. destruct f as [| | | | | |r]; try done.
  destruct (h !! r) as [[| | | |fid ps]|] eqn:Hr; try done. apply agree. by eapply H.
Qed.

Lemma call_agree h f context args u : ensureSafeObject h context = Ok u -> ensureSafeFunction h f = Ok tt ->
  call_function invoke f context args h = call_function invoke' f context args h.
Proof.
  intros Ht Hf. unfold call_function. destruct (negb (truthy f)); [done|].
  destruct (truthy (apply_of h f)) eqn:Ha; cbn [negb].
  - destruct (is_apply (apply_of h f)) eqn:Hi.
    + apply invoke_agree. intros r fid ps -> Hr. eapply checked_function; eauto.
    + destruct (Copy.alloc (OArray args) h) as [ar h'] eqn:Hal. apply invoke_agree. intros r fid ps Hr Hg.
      rewrite Hr in Hi. by eapply checked_apply.
  - apply invoke_agree. intros r fid ps -> Hr. eapply checked_function; eauto.
Qed.

Definition same_eval (e : expr) : Prop := forall scope locals self h, ev e scope locals self h = ev' e scope locals self h.

Lemma same_all scope locals es check : Forall same_eval es -> forall h,
  eval_list (fun e => ev e scope locals JUndef) check es h = eval_list (fun e => ev' e scope locals JUndef) check es h.
Proof. intros H. apply eval_list_ext. eapply Forall_impl; [exact H|]. intros e He h. apply He. Qed.

Lemma eval_agree e : same_eval e /\
  (forall scope v locals h, asg e scope v locals h = asg' e scope v locals h) /\
  (match e with EFilter _ args => Forall same_eval args | _ => True end).
Proof.
  induction e using expr_deep_ind; split_and!; try done; try (intros scope locals self h; rewrite ?assign_index, ?assign_field; cbn [eval]).
  - destruct IHe as (He & _). rewrite He. by repeat step.
  - destruct IHe1 as (H1 & _), IHe2 as (H2 & _ & H3). rewrite H1. destruct (classify op).
    + step. step; [apply H2|done].
    + step. step; [done|apply H2].
    + destruct e2; try done. step. by rewrite (same_all scope locals _ _ H3).
    + step. rewrite H2. by repeat step.
  - destruct IHe1 as (H1 & _), IHe2 as (H2 & _), IHe3 as (H3 & _). rewrite H1. step. step; [apply H2|apply H3].
  - eapply Forall_impl; [exact H|]. by intros x [Hx _].
  - destruct IHe1 as (_ & H1 & _), IHe2 as (H2 & _). rewrite H2. step. apply H1.
  - destruct IHe as (He & _).
    assert (Hc : (match c with Some o => ev o scope locals JUndef h | None => Ok (scope, h) end) =
                 (match c with Some o => ev' o scope locals JUndef h | None => Ok (scope, h) end)).
    { destruct c as [o|]; [|done]. by destruct H as [H _]. }
    rewrite Hc. step. rewrite (same_all scope locals).
    2:{ eapply Forall_impl; [exact H0|]. by intros x [Hx _]. }
    step. rewrite He. step.
    destruct (ensureSafeObject _ _) as [u|] eqn:Hu; [|done]. cbn [mbind result_bind].
    destruct (ensureSafeFunction _ _) as [[]|] eqn:Hf; [|done]. cbn [mbind result_bind].
    by rewrite (call_agree _ _ _ _ _ Hu Hf).
  - destruct IHe1 as (H1 & _), IHe2 as (H2 & _). rewrite H1. step. rewrite H2. by repeat step.
  - destruct IHe1 as (H1 & H3 & _), IHe2 as (H2 & _). rewrite H2. step. step. rewrite H1. step. step. step; [done|].
    destruct (new_object _) as [n h']. rewrite H3. by repeat step.
  - destruct IHe as (He & _). rewrite He. by repeat step.
  - destruct IHe as (He & Ha & _). rewrite He. step. step; [done|].
    destruct (new_object _) as [n h']. rewrite Ha. by repeat step.
  - rewrite (same_all scope locals); [done|]. eapply Forall_impl; [exact H|]. by intros x [Hx _].
  - rewrite (eval_fields_ext text_of _ (fun e => ev' e scope locals JUndef)); [done|].
    eapply Forall_impl; [exact H|]. intros x [Hx _] h'. apply Hx.
  - apply eval_statements_ext. eapply Forall_impl; [exact H|]. intros x [Hx _] h'. apply Hx.
Qed.
End Ext.

Section Constant.
Context (csp expensive : bool) (text_of : list N -> string) (number_of : string -> jsval).
Context (invoke : nat -> jsval -> list jsval -> jsheap -> R (jsval * jsheap)).
Context (run_filter : string -> list jsval -> jsheap -> R (jsval * jsheap)).
Local Abbreviation ev := (eval csp expensive text_of number_of invoke run_filter).

Definition scope_free (e : expr) : Prop :=
  forall scope locals self scope' locals' self' h, ev e scope locals self h = ev e scope' locals' self' h.

Lemma constant_scope_free e : constant e = true -> scope_free e.
Proof.
  induction e using expr_deep_ind; cbn [constant]; try done; intros Hc scope locals self scope' locals' self' h; cbn [eval].
  - by destruct f.
  - rewrite (IHe Hc scope locals JUndef scope' locals' JUndef). by repeat step.
  - apply andb_true_iff in Hc as [H1 H2].
    rewrite (IHe1 H1 scope locals JUndef scope' locals' JUndef). destruct (classify op).
    + step. step; [by apply IHe2|done].
    + step. step; [done|by apply IHe2].
    + by destruct e2.
    + step. rewrite (IHe2 H2 scope locals JUndef scope' locals' JUndef). by repeat step.
  - rewrite !andb_true_iff in Hc. destruct Hc as [[H1 H2] H3].
    rewrite (IHe1 H1 scope locals JUndef scope' locals' JUndef). step. step; [by apply IHe2|by apply IHe3].
  - rewrite (eval_list_ext _ (fun e => ev e scope' locals' JUndef)); [done|].
    apply Forall_forall. intros e He h'. apply (proj1 (Forall_forall _ _) H e He).
    eapply forallb_forall; [exact Hc|]. by apply list_elem_of_In.
  - rewrite (eval_fields_ext text_of _ (fun e => ev e scope' locals' JUndef)); [done|].
    apply Forall_forall. intros f Hf h'. apply (proj1 (Forall_forall _ _) H f Hf).
    apply (proj1 (forallb_forall _ _) Hc f). by apply list_elem_of_In.
Qed.
End Constant.
End Eval.

(** ** Examples: the console's expressions *)

Definition demo_text (vs : list N) : string := String.string_of_list_ascii (map ascii_of_N vs).
Definition demo_number (raw : string) : jsval := match read_digits 0 raw with Some n => JNum n | None => JNaN end.

(** Object 0 is the scope, 1 a room, 2 and 3 functions. *)
Definition demo_heap : jsheap :=
  {[0%nat := OPlain [("rooms", JRef 4); ("n", JNum 2); ("send", JRef 3)];
    1%nat := OPlain [("Cnt", JNum 7); ("send", JRef 2)];
    2%nat := OFun 10 []; 3%nat := OFun 11 []; 4%nat := OArray [JRef 1]]}.

(** A function returns its receiver's [Cnt], the other one the text "scope". *)
Definition demo_invoke (fid : nat) (this : jsval) (args : list jsval) (h : jsheap) : result string (jsval * jsheap) :=
  if (fid =? 10)%nat then Ok (get_member (fun _ => None) 0 h this "Cnt", h) else Ok (JStr "scope", h).

Definition demo_eval (text : string) : result string jsval :=
  e ← parse (fun _ => false) false (fun r => r) 1000 text;
  p ← eval (fun _ => None) 0 (fun _ => "[object Object]") 90 [91; 92; 93]%nat false true demo_text demo_number demo_invoke
        (fun _ _ _ => Err "filter") e (JRef 0) JUndef JUndef demo_heap;
  Ok p.1.

Example eval_sum : demo_eval "rooms[0].Cnt * n + 1" = Ok (JNum 15).
Proof. vm_compute. reflexivity. Qed.
Example eval_call : demo_eval "rooms[0].send()" = Ok (JNum 7).
Proof. vm_compute. reflexivity. Qed.

(** In parentheses the same call reads [send] from the scope. *)
Example eval_parenthesized_call : demo_eval "(rooms[0].send)()" = Ok (JStr "scope").
Proof. vm_compute. reflexivity. Qed.

(** An operator is accepted as an operand and fails when it is evaluated. *)
Example eval_operator_operand : demo_eval "1 + *" = Err "TypeError".
Proof. vm_compute. reflexivity. Qed.

(** ** What evaluation promises *)

(** The two implementations of a path agree: for any path of non-empty,
    permitted names, on any scope that is not [null] or [undefined], the getter
    for pages with a content security policy - five keys at a time - gives the
    value or the error of the generated one, except that it may give [null]
    where the other gives [undefined]. *)
Theorem csp_getter_agrees (proto : nat -> option nat) (depth object_ref : nat) (expensive : bool) (h : jsheap)
  (keys : list string) (scope locals : jsval) :
  keys <> [] -> regular_keys keys -> nullish scope = false ->
  (expensive = true -> (exists v, ensureSafeObject proto depth object_ref h scope = Ok v) /\
                       (exists v, ensureSafeObject proto depth object_ref h locals = Ok v)) ->
  same_value (csp_getter proto depth object_ref expensive h keys scope locals)
             (generated_getter proto depth object_ref expensive h keys scope locals).
Proof.
  intros Hne Hr Hs He.
  assert (Hg : generated_getter proto depth object_ref expensive h keys scope locals =
    match keys with
    | [] => Ok scope
    | key :: keys => s ← eso proto depth object_ref expensive h key (get_member proto depth h (root_of h scope locals key) key);
                     generated_loop proto depth object_ref expensive h keys s
    end).
  { assert (Hc : forall v u, ensureSafeObject proto depth object_ref h v = Ok u -> u = v).
    { intros v u. unfold ensureSafeObject. by repeat case_match; intros H'; simplify_eq. }
    unfold generated_getter. destruct expensive.
    - destruct (He eq_refl) as [[u Hu] [u' Hu']]. rewrite Hu, Hu'. rewrite (Hc _ _ Hu), (Hc _ _ Hu').
      cbn [mbind result_bind]. destruct keys; [done|]. by rewrite Hs.
    - cbn [mbind result_bind]. destruct keys; [done|]. by rewrite Hs. }
  rewrite Hg. clear Hg He.
  assert (Hone : forall ks, regular_keys ks -> ks <> [] ->
    cspSafeGetter proto depth object_ref expensive h ks scope locals =
    match ks with
    | [] => Ok scope
    | key :: ks => s ← eso proto depth object_ref expensive h key (get_member proto depth h (root_of h scope locals key) key);
                   generated_loop proto depth object_ref expensive h ks s
    end).
  { intros [|key ks] [Hk _] Hks; [done|]. apply Forall_cons in Hk as [_ Hk]. cbn [cspSafeGetter]. rewrite root_not_nullish by done.
    destruct (eso _ _ _ _ _ _ _); cbn [mbind result_bind]; [by apply csp_loop_generated|done]. }
  unfold csp_getter. destruct (length keys <? 6)%nat eqn:Hlen; [rewrite Hone by done; apply same_refl|].
  apply Nat.ltb_ge in Hlen. destruct keys as [|key ks]; [done|].
  destruct (regular_split 5 _ Hr) as [[Ht Htu] Hd]. cbn [length]. cbn [csp_chunks]. rewrite Htu, Hone by done.
  cbn [take drop] in *.
  destruct (eso _ _ _ _ _ _ _) as [x|x]; cbn [mbind result_bind]; [|done].
  replace (generated_loop proto depth object_ref expensive h ks x)
    with (generated_loop proto depth object_ref expensive h (take 4 ks ++ drop 4 ks) x) by (by rewrite take_drop).
  rewrite generated_loop_app. destruct (generated_loop _ _ _ _ _ (take 4 ks) x) as [y|y]; cbn [mbind result_bind]; [|done].
  destruct (drop 4 ks) as [|k' ks'] eqn:Hdr; [apply same_refl|].
  apply csp_chunks_loop; [|done|done]. rewrite <- Hdr, length_drop. simpl in Hlen. lia.
Qed.

Lemma csp_getter_agrees_witness :
  let h : jsheap := {[0%nat := OPlain [("a", JRef 1)]; 1%nat := OPlain [("b", JRef 0); ("n", JNull)]]} in
  let keys := ["a"; "b"; "a"; "b"; "a"; "b"; "a"; "n"] in
  generated_getter (fun _ => None) 0 90 false h keys (JRef 0) JUndef = Ok JNull /\
  same_value (csp_getter (fun _ => None) 0 90 false h keys (JRef 0) JUndef)
             (generated_getter (fun _ => None) 0 90 false h keys (JRef 0) JUndef).
Proof.
  intros h keys. split; [vm_compute; reflexivity|]. apply csp_getter_agrees; [done| |done|done].
  split; [repeat constructor|reflexivity].
Defined.

(** An expression the parser marks as constant does not depend on its
    scope: whatever the scope, the locals and the receiver, it gives the same
    value or error and the same objects - which is why a watch of a constant
    expression may be removed after its first call. *)
Theorem constant_ignores_scope proto depth obj_str object_ref call_refs csp expensive text_of number_of invoke run_filter (e : expr) :
  constant e = true -> forall scope locals self scope' locals' self' h,
  eval proto depth obj_str object_ref call_refs csp expensive text_of number_of invoke run_filter e scope locals self h =
  eval proto depth obj_str object_ref call_refs csp expensive text_of number_of invoke run_filter e scope' locals' self' h.
Proof. intros Hc scope locals self scope' locals' self' h. by apply constant_scope_free. Qed.

Lemma constant_ignores_scope_witness :
  let e := EObject [([97]%N, EArray [EBinary "+" (ETok (FnNum "1")) (ETok (FnStr [98]%N))])] in
  let ev scope := eval (fun _ => None) 0 (fun _ => "[object Object]") 90 [91; 92; 93]%nat false true demo_text demo_number demo_invoke
        (fun _ _ _ => Err "filter") e scope JUndef JUndef demo_heap in
  ev (JRef 0) = ev JNull.
Proof. intros e ev. apply constant_ignores_scope. reflexivity. Defined.

(** C19: the call operator of expressions only makes calls the sandbox has
    checked.  If two worlds answer alike every call of a function that is not
    [Function], [call], [apply] or [bind], on a receiver that is not the window,
    an element, [Object] or [Function] (or on nothing, when the function's own
    [apply] was cleared), and every call of the member [apply] that a checked
    value was given of its own, on that value, then every expression, however it
    is nested and whatever it assigns, evaluates alike in both; so its call
    operator makes no other.  (The filters it names and the conversion of
    objects to text are parameters, the same in both worlds.) *)
Theorem calls_are_checked proto depth obj_str object_ref call_refs csp expensive text_of number_of run_filter
  (invoke invoke' : nat -> jsval -> list jsval -> jsheap -> result string (jsval * jsheap)) :
  (forall fid this args h, checked proto depth object_ref call_refs h fid this args -> invoke fid this args h = invoke' fid this args h) ->
  forall e scope locals self h,
  eval proto depth obj_str object_ref call_refs csp expensive text_of number_of invoke run_filter e scope locals self h =
  eval proto depth obj_str object_ref call_refs csp expensive text_of number_of invoke' run_filter e scope locals self h.
Proof. intros Hag e scope locals self h. by apply eval_agree. Qed.

(** A scope that leaks the window [w], whose function [f] runs code when it is
    called on the window. *)
Definition leaky_heap : jsheap :=
  {[0%nat := OPlain [("w", JRef 1)];
    1%nat := OPlain [("document", JRef 0); ("location", JRef 0); ("alert", JRef 2); ("setInterval", JRef 2); ("f", JRef 2)];
    2%nat := OFun 1 []]}.

(** Its function is not called on the window. *)
Lemma calls_are_checked_witness :
  let e := ECall (EField (ETok (FnIdent "w")) "f") (Some (ETok (FnIdent "w"))) [ETok (FnStr [97]%N)] in
  let ev invoke := eval (fun _ => None) 0 (fun _ => "") 90 [91; 92; 93]%nat false false demo_text demo_number invoke
        (fun _ _ _ => Err "filter") e (JRef 0) JUndef JUndef leaky_heap in
  ev (fun _ this args h =>
        match args, ensureSafeObject (fun _ => None) 0 90 h this with
        | [JStr _], Err _ => Ok (JStr "code ran", h)
        | _, _ => Ok (JUndef, h)
        end) =
  ev (fun _ _ _ h => Ok (JUndef, h)).
Proof.
  intros e ev. apply calls_are_checked. intros fid this args h Hc.
  destruct args as [|[] [|]]; try done. destruct (ensureSafeObject _ _ _ h this) eqn:Hs; [done|]. exfalso.
  destruct Hc as [r ps context v _ _ Hv [->|[_ ->]]|h0 context v args' r ar ps _ _ _ _ _ Ha _]; [congruence|done|done].
Defined.

(** An expression may give a function an [apply] of its own: the check of the
    function it calls is not one of what runs.  Here [f.apply] is
    [Function.prototype.call], which no expression may call. *)
Definition call_heap : jsheap :=
  {[0%nat := OPlain [("f", JRef 2)]; 2%nat := OFun 1 [("call", JRef 92)]; 92%nat := OFun 92 []]}.

Example apply_redefined :
  (e ← parse (fun _ => false) false (fun r => r) 1000 "f.apply = f.call; f()";
   p ← eval (fun _ => None) 0 (fun _ => "") 90 [91; 92; 93]%nat false true demo_text demo_number
     (fun fid this _ h => Ok (JStr (if (fid =? 92)%nat && bool_decide (this = JRef 2) then "call ran" else "f ran"), h))
     (fun _ _ _ => Err "filter") e (JRef 0) JUndef JUndef call_heap;
   Ok p.1) = Ok (JStr "call ran").
Proof. vm_compute. reflexivity. Qed.
