(* ===== verification/NgInjector.v ===== *)
(** * NgInjector: modules and dependency injection

    [angular.module] (angular.js 1597-1898) and [createInjector] (3266-3294,
    3786-3990).  [providerCache], [instanceCache], [path] and [loadedModules] are
    the variables of [createInjector]; [objs] holds the field [$get] of the
    objects that act as providers, which a decorator overwrites.  [prog] is what
    a function of the application does when it is called: the calls it makes on
    the injector, each of which may throw into it, and its return or throw.  The
    names a function declares are given ([inject]); a token that is not a string
    is [None].

    A function calls the injector and is called by it: [exec] is one call of the
    injector, on fuel, and [step] its body with the calls below it as a
    parameter, so that what every call preserves is proved of [step] alone. *)

From S2P Require Import Prelude Text.

#[local] Set Warnings "-register-all,-clear-no-such-hyp".

Section Injector.
(** Primitive values other than strings, and the application's functions. *)
Context {V F : Type}.

(** ** Data *)

Inductive which := InstanceInjector | ProviderInjector.

(** The recipes of [$provide] that take a name and a value. *)
Inductive recipe := RProvider | RFactory | RService | RValue | RConstant.

(** The values the injector tells apart. *)
Inductive value : Type :=
| VUndef
| VStr (s : string)
| VBool (b : bool)
| VPrim (v : V)
| VObj (n : nat)
| VInjector (w : which)
| VProvide
| VFn (c : callee)
(** Functions: of the application, and those the injector creates. *)
with callee : Type :=
| CUser (f : F)
| CValue (v : value)                       (** [valueFn(val)] *)
| CService (ctor : value)                  (** the factory of [service] *)
| CDecorated (orig prov decor : value).    (** the [$get] of [decorator] *)

(** A module to load: by its name, or a function with its identity. *)
Inductive modref := MName (name : string) | MFn (id : nat) (fn : value).

Inductive err : Type :=
| EUnknown (path : list string)
| ECircular (name : string) (path : list string)
| EToken
| ENoGet (name : string)
| EBadName
| ENotFunction
| ETypeError
| ENoModule (name : string)
| EModule (m : modref) (e : err)
| EUser (v : value).

#[global] Instance which_eq_dec : EqDecision which.
Proof. solve_decision. Defined.

(** The value [INSTANTIATING], or a service. *)
Inductive cell := Instantiating | Done (v : value).

Record st := St {
  providerCache : gmap string cell;
  instanceCache : gmap string cell;
  path : list string;
  objs : gmap nat value;     (** [$get] of each object *)
  loadedModules : list (string + nat)
}.

(** The calls application code can make. *)
Inductive request : Type :=
| Get (w : which) (name : string)
| Invoke (w : which) (fn self : value) (locals : list (string * value))
| Instantiate (w : which) (ty : value) (locals : list (string * value))
| Has (w : which) (name : string)
| Provide (r : recipe) (name : string) (v : value)
| ProvideEach (r : recipe) (key : list (string * value))
| Decorator (name : string) (fn : value)
| NewObj (get : value)
| SetGet (o : nat) (get : value).

Inductive prog : Type :=
| Return (v : value)
| Throw (e : err)
| Do (r : request) (k : result err value -> prog).

(** ** The monad: state, exceptions, and running out of fuel *)

Definition M (A : Type) : Type := st -> option (st * result err A).

Definition ret {A} (a : A) : M A := fun s => Some (s, Ok a).
Definition throw {A} (e : err) : M A := fun s => Some (s, Err e).
Definition bind {A B} (m : M A) (k : A -> M B) : M B := fun s =>
  match m s with
  | None => None
  | Some (s, Ok a) => k a s
  | Some (s, Err e) => Some (s, Err e)
  end.
Definition gets {A} (f : st -> A) : M A := fun s => Some (s, Ok (f s)).
Definition update (f : st -> st) : M unit := fun s => Some (f s, Ok tt).

Local Notation "x <-- m ; k" := (bind m (fun x => k)) (at level 100, m at next level, right associativity).

(** ** State *)

Definition cache (w : which) (s : st) : gmap string cell :=
  match w with InstanceInjector => instanceCache s | ProviderInjector => providerCache s end.
Definition set_cache (w : which) (c : gmap string cell) (s : st) : st :=
  match w with
  | InstanceInjector => St (providerCache s) c (path s) (objs s) (loadedModules s)
  | ProviderInjector => St c (instanceCache s) (path s) (objs s) (loadedModules s)
  end.
Definition set_path (p : list string) (s : st) : st :=
  St (providerCache s) (instanceCache s) p (objs s) (loadedModules s).
Definition set_objs (o : gmap nat value) (s : st) : st :=
  St (providerCache s) (instanceCache s) (path s) o (loadedModules s).
Definition set_loaded (l : list (string + nat)) (s : st) : st :=
  St (providerCache s) (instanceCache s) (path s) (objs s) l.

Definition new_obj (g : value) (s : st) : st * value :=
  let n := fresh (dom (objs s)) in (set_objs (<[n := g]> (objs s)) s, VObj n).

Definition is_instantiating (c : option cell) : bool := match c with Some Instantiating => true | _ => false end.

(** [isObject(v) || isFunction(v)]. *)
Definition is_object (v : value) : bool :=
  match v with VUndef | VStr _ | VBool _ | VPrim _ => false | _ => true end.

(** ** The injectors *)

Section Step.
Context (truthy : V -> bool).
Context (inject : F -> list (option string)).
Context (user : F -> value -> list value -> prog).
Context (exec : request -> M value).

(** [p.$get]: [undefined] has no fields; the others that are no provider
    objects have no such field. *)
Definition read_get (p : value) : M value :=
  match p with
  | VUndef => throw ETypeError
  | VObj n => gets (fun s => default VUndef (objs s !! n))
  | _ => ret VUndef
  end.

Definition truthy_value (v : value) : bool :=
  match v with VUndef => false | VStr s => negb (String.eqb s "") | VBool b => b | VPrim v => truthy v | _ => true end.

(** [factory] of [createInternalInjector]: what makes a missing service. *)
Definition make (w : which) (servicename : string) : M value :=
  match w with
  | ProviderInjector => p <-- gets path; throw (EUnknown p)
  | InstanceInjector =>
      provider <-- exec (Get ProviderInjector (servicename +:+ "Provider"));
      g <-- read_get provider;
      exec (Invoke InstanceInjector g provider [])
  end.

Definition getService (w : which) (serviceName : string) : M value := fun s =>
  match cache w s !! serviceName with
  | Some Instantiating => Some (s, Err (ECircular serviceName (path s)))
  | Some (Done v) => Some (s, Ok v)
  | None =>
      let s := set_path (serviceName :: path s) s in
      let s := set_cache w (<[serviceName := Instantiating]> (cache w s)) s in
      match make w serviceName s with
      | None => None
      | Some (s, Ok v) =>
          let s := set_cache w (<[serviceName := Done v]> (cache w s)) s in
          Some (set_path (tail (path s)) s, Ok v)
      | Some (s, Err e) =>
          let s := if is_instantiating (cache w s !! serviceName)
                   then set_cache w (delete serviceName (cache w s)) s else s in
          Some (set_path (tail (path s)) s, Err e)
      end
  end.

Definition annotate (fn : value) : M (list (option string)) :=
  match fn with
  | VFn (CUser f) => ret (inject f)
  | VFn (CValue _) | VFn (CDecorated _ _ _) => ret []
  | VFn (CService _) => ret [Some "$injector"]
  | _ => throw ENotFunction
  end.

Definition local (locals : list (string * value)) (key : string) : option value :=
  snd <$> find (fun e => String.eqb e.1 key) locals.

(** The loop of [invoke] over the names the function declares. *)
Fixpoint arguments (w : which) (locals : list (string * value)) (keys : list (option string)) : M (list value) :=
  match keys with
  | [] => ret []
  | None :: _ => throw EToken
  | Some key :: keys =>
      v <-- match local locals key with Some v => ret v | None => exec (Get w key) end;
      vs <-- arguments w locals keys;
      ret (v :: vs)
  end.

(** A function of the application at work. *)
Fixpoint run (p : prog) : M value :=
  match p with
  | Return v => ret v
  | Throw e => throw e
  | Do r k => fun s =>
      match exec r s with
      | None => None
      | Some (s, res) => run (k res) s
      end
  end.

(** [fn.apply(self, args)]. *)
Definition apply_ (fn self : value) (args : list value) : M value :=
  match fn with
  | VFn (CUser f) => run (user f self args)
  | VFn (CValue v) => ret v
  | VFn (CService ctor) =>
      match args with
      | VInjector w :: _ => exec (Instantiate w ctor [])
      | _ => throw ETypeError
      end
  | VFn (CDecorated orig prov decor) =>
      origInstance <-- exec (Invoke InstanceInjector orig prov []);
      exec (Invoke InstanceInjector decor VUndef [("$delegate", origInstance)])
  | _ => throw ETypeError
  end.

Definition invoke (w : which) (fn self : value) (locals : list (string * value)) : M value :=
  keys <-- annotate fn;
  args <-- arguments w locals keys;
  apply_ fn self args.

Definition instantiate (w : which) (ty : value) (locals : list (string * value)) : M value := fun s =>
  let (s, instance) := new_obj VUndef s in
  (returnedValue <-- invoke w ty instance locals;
   ret (if is_object returnedValue then returnedValue else instance)) s.

Definition has (w : which) (name : string) (s : st) : bool :=
  bool_decide (is_Some (providerCache s !! (name +:+ "Provider"))) || bool_decide (is_Some (cache w s !! name)).

(** ** [$provide] *)

Definition assertNotHasOwnProperty (name : string) : M unit :=
  if String.eqb name "hasOwnProperty" then throw EBadName else ret tt.

Definition provider (name : string) (provider_ : value) : M value :=
  _ <-- assertNotHasOwnProperty name;
  provider_ <-- match provider_ with VFn _ => exec (Instantiate ProviderInjector provider_ []) | _ => ret provider_ end;
  g <-- read_get provider_;
  if truthy_value g then
    _ <-- update (fun s => set_cache ProviderInjector (<[name +:+ "Provider" := Done provider_]> (providerCache s)) s);
    ret provider_
  else throw (ENoGet name).

Definition factory (name : string) (factoryFn : value) : M value := fun s =>
  let (s, o) := new_obj factoryFn s in provider name o s.

Definition service (name : string) (ctor : value) : M value := factory name (VFn (CService ctor)).
Definition value_ (name : string) (val : value) : M value := factory name (VFn (CValue val)).

Definition constant (name : string) (val : value) : M value :=
  _ <-- assertNotHasOwnProperty name;
  _ <-- update (fun s => set_cache ProviderInjector (<[name := Done val]> (providerCache s)) s);
  _ <-- update (fun s => set_cache InstanceInjector (<[name := Done val]> (instanceCache s)) s);
  ret VUndef.

Definition decorator (serviceName : string) (decorFn : value) : M value :=
  origProvider <-- exec (Get ProviderInjector (serviceName +:+ "Provider"));
  orig_get <-- read_get origProvider;
  match origProvider with
  | VObj n =>
      _ <-- update (fun s => set_objs (<[n := VFn (CDecorated orig_get origProvider decorFn)]> (objs s)) s);
      ret VUndef
  | _ => throw ETypeError
  end.

Definition provide (r : recipe) : string -> value -> M value :=
  match r with
  | RProvider => provider
  | RFactory => factory
  | RService => service
  | RValue => value_
  | RConstant => constant
  end.

(** [supportObject(delegate)] of an object: [forEach(key, reverseParams(delegate))]. *)
Fixpoint supportObject (delegate : string -> value -> M value) (key : list (string * value)) : M value :=
  match key with
  | [] => ret VUndef
  | (name, v) :: key => _ <-- delegate name v; supportObject delegate key
  end.

(** One call. *)
Definition step (r : request) : M value :=
  match r with
  | Get w name => getService w name
  | Invoke w fn self locals => invoke w fn self locals
  | Instantiate w ty locals => instantiate w ty locals
  | Has w name => gets (fun s => VBool (has w name s))
  | Provide r name v => provide r name v
  | ProvideEach r key => supportObject (provide r) key
  | Decorator name fn => decorator name fn
  | NewObj g => fun s => let (s, o) := new_obj g s in Some (s, Ok o)
  | SetGet n g => _ <-- update (fun s => set_objs (<[n := g]> (objs s)) s); ret VUndef
  end.
End Step.

(** ** Modules *)

(** [[provider, method, arguments]]; a recipe may be given an object. *)
Inductive call_args := Args (l : list value) | Each (l : list (string * value)).
Record queued := Queued { q_provider : string; q_method : string; q_args : call_args }.

Record module_ := Module_ { requires : list modref; invokeQueue : list queued; runBlocks : list value }.

(** The map [modules]; [None] is the [null] of a module to be replaced. *)
Abbreviation registry := (gmap string module_).

(** What [angular.module(name, requires, configFn)] makes. *)
Definition config (fn : value) : queued := Queued "$injector" "invoke" (Args [fn]).
Definition new_module (requires : list modref) (configFn : option value) : module_ :=
  Module_ requires (match configFn with Some fn => [config fn] | None => [] end) [].

(** [angular.module]: with [requires] it replaces the module. *)
Definition module (name : string) (requires : option (list modref)) (configFn : option value) (modules : registry) :
  result err (registry * module_) :=
  if String.eqb name "hasOwnProperty" then Err EBadName
  else
    match requires with
    | Some requires => let m := new_module requires configFn in Ok (<[name := m]> modules, m)
    | None => match modules !! name with Some m => Ok (modules, m) | None => Err (ENoModule name) end
    end.

(** The methods of a module; they return it, and it is shared with [modules]. *)
Definition invokeLater (provider method : string) (unshift : bool) (args : call_args) (m : module_) : module_ :=
  let q := Queued provider method args in
  Module_ (requires m) (if unshift then q :: invokeQueue m else invokeQueue m ++ [q]) (runBlocks m).

Definition run_ (block : value) (m : module_) : module_ :=
  Module_ (requires m) (invokeQueue m) (runBlocks m ++ [block]).

Section Load.
Context (exec : request -> M value).
(** A method of a provider object of the application. *)
Context (method : value -> string -> call_args -> prog).
Context (modules : registry).

Definition recipe_of (name : string) : option recipe :=
  if String.eqb name "provider" then Some RProvider
  else if String.eqb name "factory" then Some RFactory
  else if String.eqb name "service" then Some RService
  else if String.eqb name "value" then Some RValue
  else if String.eqb name "constant" then Some RConstant else None.

(** [provider[invokeArgs[1]].apply(provider, invokeArgs[2])]. *)
Definition call_method (p : value) (name : string) (args : call_args) : M value :=
  match p with
  | VProvide =>
      match recipe_of name, args with
      | Some r, Args [VStr n; v] => exec (Provide r n v)
      | Some r, Each l => exec (ProvideEach r l)
      | None, Args [VStr n; f] => if String.eqb name "decorator" then exec (Decorator n f) else throw ETypeError
      | _, _ => throw ETypeError
      end
  | VInjector w =>
      match args with
      | Args [f] => if String.eqb name "invoke" then exec (Invoke w f VUndef []) else throw ETypeError
      | _ => throw ETypeError
      end
  | _ => run exec (method p name args)
  end.

Fixpoint run_queue (q : list queued) : M unit :=
  match q with
  | [] => ret tt
  | a :: q =>
      p <-- exec (Get ProviderInjector (q_provider a));
      _ <-- call_method p (q_method a) (q_args a);
      run_queue q
  end.

(** The key of a module in [loadedModules]. *)
Definition module_key (m : modref) : string + nat := match m with MName n => inl n | MFn id _ => inr id end.

(** [catch]: rethrow with the name of the module. *)
Definition catch (m : modref) {A} (x : M A) : M A := fun s =>
  match x s with Some (s, Err e) => Some (s, Err (EModule m e)) | r => r end.

Definition angularModule (name : string) : M module_ :=
  match module name None None modules with Ok (_, m) => ret m | Err e => throw e end.

Fixpoint loadModules (fuel : nat) (mods : list modref) : M (list value) :=
  match fuel with
  | O => fun _ => None
  | S fuel =>
      match mods with
      | [] => ret []
      | m :: mods =>
          loaded <-- gets loadedModules;
          if bool_decide (module_key m ∈ loaded) then loadModules fuel mods
          else
            _ <-- update (set_loaded (module_key m :: loaded));
            blocks <-- catch m
              match m with
              | MName name =>
                  moduleFn <-- angularModule name;
                  blocks <-- loadModules fuel (requires moduleFn);
                  _ <-- run_queue (invokeQueue moduleFn);
                  ret (blocks ++ runBlocks moduleFn)
              | MFn _ fn => v <-- exec (Invoke ProviderInjector fn VUndef []); ret [v]
              end;
            blocks' <-- loadModules fuel mods;
            ret (blocks ++ blocks')
      end
  end.

(** The run blocks, each [instanceInjector.invoke(fn || noop)]. *)
Fixpoint run_blocks (truthy_value : value -> bool) (blocks : list value) : M unit :=
  match blocks with
  | [] => ret tt
  | fn :: blocks =>
      _ <-- exec (Invoke InstanceInjector (if truthy_value fn then fn else VFn (CValue VUndef)) VUndef []);
      run_blocks truthy_value blocks
  end.
End Load.

Section Create.
Context (truthy : V -> bool) (inject : F -> list (option string)) (user : F -> value -> list value -> prog).

Fixpoint exec (fuel : nat) (r : request) : M value :=
  match fuel with O => fun _ => None | S fuel => step truthy inject user (exec fuel) r end.

Definition initial : st :=
  St {["$provide" := Done VProvide; "$injector" := Done (VInjector ProviderInjector)]}
     {["$injector" := Done (VInjector InstanceInjector)]} [] ∅ [].

Definition createInjector (method : value -> string -> call_args -> prog) (modules : registry)
  (fuel : nat) (modulesToLoad : list modref) : option (st * result err unit) :=
  (blocks <-- loadModules (exec fuel) method modules fuel modulesToLoad;
   run_blocks (exec fuel) (truthy_value truthy) blocks) initial.

(** Calls of the injector one after the other, whatever each returns or throws. *)
Fixpoint calls (fuel : nat) (rs : list request) (s : st) : option st :=
  match rs with
  | [] => Some s
  | r :: rs => match exec fuel r s with Some (s, _) => calls fuel rs s | None => None end
  end.
End Create.

(** ** Lemmas: what every call preserves *)

Definition preserving {A} (R : relation st) (m : M A) : Prop := forall s s' x, m s = Some (s', x) -> R s s'.

(** Requests, and code, that do not redefine a service with [constant],
    unless [consts]. *)
Definition req_ok (consts : bool) (r : request) : Prop :=
  match r with Provide RConstant _ _ | ProvideEach RConstant _ => consts = true | _ => True end.

Inductive prog_ok (consts : bool) : prog -> Prop :=
| ok_return v : prog_ok consts (Return v)
| ok_throw e : prog_ok consts (Throw e)
| ok_do r k : req_ok consts r -> (forall x, prog_ok consts (k x)) -> prog_ok consts (Do r k).

(** What makes a relation hold across every call: it holds across the writes
    of [$provide], and across [getService] when it does across the factory. *)
Record frame (consts : bool) (R : relation st) : Prop := Frame {
  fr_refl : Reflexive R;
  fr_trans : Transitive R;
  fr_objs : forall o s, R s (set_objs o s);
  fr_provider : forall n v s, R s (set_cache ProviderInjector (<[n := Done v]> (providerCache s)) s);
  fr_constant : consts = true -> forall n v s, R s (set_cache InstanceInjector (<[n := Done v]> (instanceCache s)) s);
  fr_get : forall exec w n, preserving R (make exec w n) -> preserving R (getService exec w n)
}.

Section Frame.
Context (consts : bool) (R : relation st) (HR : frame consts R).

#[local] Instance R_refl : Reflexive R := fr_refl _ _ HR.
#[local] Instance R_trans : Transitive R := fr_trans _ _ HR.

Lemma R_objs o s : R s (set_objs o s).
Proof. apply HR. Qed.
Lemma R_provider n v s : R s (set_cache ProviderInjector (<[n := Done v]> (providerCache s)) s).
Proof. apply HR. Qed.

Lemma preserving_ret {A} (a : A) : preserving R (ret a).
Proof. by intros s s' x [= <- _]. Qed.
Lemma preserving_throw {A} e : preserving R (throw (A := A) e).
Proof. by intros s s' x [= <- _]. Qed.
Lemma preserving_gets {A} (f : st -> A) : preserving R (gets f).
Proof. by intros s s' x [= <- _]. Qed.
Lemma preserving_update f : (forall s, R s (f s)) -> preserving R (update f).
Proof. intros H s s' x [= <- _]. apply H. Qed.
Lemma preserving_bind {A B} (m : M A) (k : A -> M B) :
  preserving R m -> (forall a, preserving R (k a)) -> preserving R (bind m k).
Proof.
  intros Hm Hk s s' x. unfold bind. destruct (m s) as [[s1 [a|e]]|] eqn:E; [|intros [= <- _]; by eapply Hm|done].
  intros H. etrans; [by eapply Hm|by eapply Hk].
Qed.

Context (truthy : V -> bool) (inject : F -> list (option string)) (user : F -> value -> list value -> prog).
Context (Huser : forall f self args, prog_ok consts (user f self args)).

Section Step.
Context (exec : request -> M value) (Hexec : forall r, req_ok consts r -> preserving R (exec r)).

Create HintDb preserving.
#[local] Hint Resolve preserving_ret preserving_throw preserving_gets preserving_bind preserving_update : preserving.
#[local] Hint Resolve R_objs R_provider : preserving.
#[local] Hint Extern 1 (preserving _ (exec _)) => apply Hexec; exact I : preserving.

Lemma read_get_preserving p : preserving R (read_get p).
Proof. destruct p; simpl; auto with preserving. Qed.
#[local] Hint Resolve read_get_preserving : preserving.

Lemma run_preserving p : prog_ok consts p -> preserving R (run exec p).
Proof.
  induction 1 as [v|e|r k Hr _ IH]; simpl; auto with preserving. intros s s' x.
  destruct (exec r s) as [[s1 res]|] eqn:E; [|done]. intros H. etrans; [by eapply Hexec|by eapply IH].
Qed.

Lemma getService_preserving w n : preserving R (getService exec w n).
Proof. apply (fr_get _ _ HR). destruct w; simpl; auto 6 with preserving. Qed.

Lemma arguments_preserving w locals keys : preserving R (arguments exec w locals keys).
Proof.
  induction keys as [|[key|] keys IH]; simpl; auto with preserving.
  destruct (local locals key); auto with preserving.
Qed.

Lemma invoke_preserving w fn self locals : preserving R (invoke inject user exec w fn self locals).
Proof.
  apply preserving_bind; [destruct fn as [| | | | | | |[]]; simpl; auto with preserving|]. intros keys.
  apply preserving_bind; [apply arguments_preserving|]. intros args.
  destruct fn as [| | | | | | |[]]; simpl; auto using run_preserving with preserving.
  destruct args as [|[] ?]; auto with preserving.
Qed.

Lemma instantiate_preserving w ty locals : preserving R (instantiate inject user exec w ty locals).
Proof.
  intros s s' x. unfold instantiate, new_obj. set (n := fresh _). intros H.
  etrans; [apply (fr_objs _ _ HR (<[n := VUndef]> (objs s)))|].
  eapply (preserving_bind (invoke inject user exec w ty (VObj n) locals)); [apply invoke_preserving| |exact H].
  intros v. apply preserving_ret.
Qed.

Lemma provider_preserving name v : preserving R (provider truthy exec name v).
Proof.
  unfold provider, assertNotHasOwnProperty. repeat (apply preserving_bind; [|intros ?]).
  - destruct (String.eqb _ _); auto with preserving.
  - destruct v; auto with preserving.
  - apply read_get_preserving.
  - destruct (truthy_value truthy _); auto with preserving.
Qed.

Lemma factory_preserving name v : preserving R (factory truthy exec name v).
Proof.
  intros s s' x. unfold factory, new_obj. set (n := fresh _). intros H.
  etrans; [apply (fr_objs _ _ HR (<[n := v]> (objs s)))|exact (provider_preserving _ _ _ _ _ H)].
Qed.

Lemma provide_preserving r name v : req_ok consts (Provide r name v) -> preserving R (provide truthy exec r name v).
Proof.
  destruct r; simpl; intros Hc; try apply provider_preserving; try apply factory_preserving.
  unfold constant, assertNotHasOwnProperty. apply preserving_bind; [destruct (String.eqb _ _); auto with preserving|].
  intros _. apply preserving_bind; [auto with preserving|]. intros _.
  apply preserving_bind; [|auto with preserving]. apply preserving_update. intros s. by apply (fr_constant _ _ HR).
Qed.

Lemma step_preserving r : req_ok consts r -> preserving R (step truthy inject user exec r).
Proof.
  destruct r as [| | | |r name v|r key|name fn| |]; intros Hr; simpl;
    auto using getService_preserving, invoke_preserving, instantiate_preserving, provide_preserving with preserving.
  - assert (Hk : forall name v, preserving R (provide truthy exec r name v)) by (intros; apply provide_preserving; by destruct r).
    induction key as [|[k v] key IH]; simpl; auto with preserving.
  - repeat (apply preserving_bind; [auto with preserving|intros ?]). destruct a; auto with preserving.
  - intros s s' x [= <- _]. apply (fr_objs _ _ HR).
Qed.
End Step.

Lemma exec_preserving fuel r : req_ok consts r -> preserving R (exec truthy inject user fuel r).
Proof. revert r. induction fuel as [|fuel IH]; intros r Hr; [done|]. by apply step_preserving. Qed.
End Frame.

(** *** Nothing is left half made *)

(** The path is back, and no service is left [INSTANTIATING]. *)
Definition restores (s s' : st) : Prop :=
  path s' = path s /\ forall w n, cache w s' !! n = Some Instantiating -> cache w s !! n = Some Instantiating.

#[local] Instance restores_refl : Reflexive restores.
Proof. done. Qed.
#[local] Instance restores_trans : Transitive restores.
Proof. intros s1 s2 s3 [H1 H2] [H3 H4]. split; [congruence|auto]. Qed.

Lemma cache_set w w' c s : cache w' (set_cache w c s) = if decide (w = w') then c else cache w' s.
Proof. destruct w, w'; reflexivity. Qed.
Lemma cache_set_eq w c s : cache w (set_cache w c s) = c.
Proof. by destruct w. Qed.
Lemma path_set w c s : path (set_cache w c s) = path s.
Proof. by destruct w. Qed.

Lemma restores_done w n v s : restores s (set_cache w (<[n := Done v]> (cache w s)) s).
Proof.
  split; [by rewrite path_set|]. intros w' n'. rewrite cache_set. case_decide as Hw; [subst|done].
  by intros [[_ [=]]|[_ H]]%lookup_insert_Some.
Qed.
Lemma restores_delete w n s : restores s (set_cache w (delete n (cache w s)) s).
Proof.
  split; [by rewrite path_set|]. intros w' n'. rewrite cache_set. case_decide as Hw; [subst|done].
  by intros [_ H]%lookup_delete_Some.
Qed.

Lemma getService_restores exec w n : preserving restores (make exec w n) -> preserving restores (getService exec w n).
Proof.
  intros Hmake s s' x. unfold getService. destruct (cache w s !! n) as [[|v]|] eqn:Hc; [by intros [= <- _]..|].
  set (s1 := set_cache w _ _).
  assert (H1 : forall s2, restores s1 s2 -> path s2 = n :: path s /\
    forall w' n', cache w' s2 !! n' = Some Instantiating -> (w', n') = (w, n) \/ cache w' s !! n' = Some Instantiating).
  { intros s2 [Hp Hm]. split; [by rewrite Hp; unfold s1; rewrite path_set|].
    intros w' n' Hw%Hm. revert Hw. unfold s1. rewrite cache_set. case_decide as Hww; [subst w'|by right; destruct w'].
    intros [[<- _]|[_ H]]%lookup_insert_Some; [by left|right]. by destruct w. }
  assert (H2 : forall s2 s3, restores s1 s2 -> restores s2 s3 -> cache w s3 !! n <> Some Instantiating ->
    restores s (set_path (tail (path s3)) s3)).
  { intros s2 s3 H12 H23 Hn. destruct (H1 s3) as [Hp Hm]; [by etrans|]. split; [simpl; by rewrite Hp|].
    intros w' n' Hw. assert (Hw' : cache w' s3 !! n' = Some Instantiating) by by destruct w'.
    by destruct (Hm _ _ Hw') as [[= -> ->]|]. }
  destruct (make exec w n s1) as [[s2 [v|e]]|] eqn:Hf; [| |done]; apply Hmake in Hf; intros [= <- _].
  - eapply H2; [done|apply restores_done|]. by rewrite cache_set_eq, lookup_insert_eq.
  - destruct (is_instantiating (cache w s2 !! n)) eqn:Hi.
    + eapply H2; [done|apply restores_delete|]. by rewrite cache_set_eq, lookup_delete_eq.
    + eapply H2; [done|reflexivity|]. by intros Hs; rewrite Hs in Hi.
Qed.


Lemma frame_restores : frame true restores.
Proof.
  split; [apply _..| | | |apply getService_restores].
  - intros o s. split; [done|]. by intros [].
  - intros n v s. apply (restores_done ProviderInjector).
  - intros _ n v s. apply (restores_done InstanceInjector).
Qed.

(** Any code of the application may redefine services. *)
Lemma prog_ok_true p : prog_ok true p.
Proof. induction p; constructor; [destruct r as [| | | |[] ? ?|[] ?| | |]; done|done]. Qed.

Lemma calls_preserving consts R truthy inject user fuel rs :
  frame consts R -> (forall f self args, prog_ok consts (user f self args)) -> Forall (req_ok consts) rs ->
  forall s s', calls truthy inject user fuel rs s = Some s' -> R s s'.
Proof.
  intros HR Hu. induction 1 as [|r rs Hr _ IH]; simpl; intros s s'; [intros [= <-]; apply (fr_refl _ _ HR)|].
  destruct (exec truthy inject user fuel r s) as [[s1 x]|] eqn:E; [|done]. intros H.
  eapply (fr_trans _ _ HR); [by eapply exec_preserving|by apply IH].
Qed.

Section Loading.
Context (truthy : V -> bool) (inject : F -> list (option string)) (user : F -> value -> list value -> prog).
Context (method : value -> string -> call_args -> prog) (modules : registry).
Context (fuel : nat).

Lemma exec_restores r : preserving restores (exec truthy inject user fuel r).
Proof.
  apply (exec_preserving true _ frame_restores); [intros; apply prog_ok_true|].
  destruct r as [| | | |[] ? ?|[] ?| | |]; done.
Qed.

Lemma run_queue_restores q : preserving restores (run_queue (exec truthy inject user fuel) method q).
Proof.
  induction q as [|a q IH]; simpl; [apply (preserving_ret _ _ frame_restores)|].
  repeat (apply (preserving_bind _ _ frame_restores); [|intros ?]); [apply exec_restores| |apply IH].
  unfold call_method. destruct a0;
    try (apply (run_preserving true _ frame_restores); [intros; apply exec_restores|apply prog_ok_true]);
    repeat (case_match; try apply exec_restores; try apply (preserving_throw _ _ frame_restores)).
Qed.

Lemma run_blocks_restores t blocks : preserving restores (run_blocks (exec truthy inject user fuel) t blocks).
Proof.
  induction blocks as [|b blocks IH]; simpl; [apply (preserving_ret _ _ frame_restores)|].
  apply (preserving_bind _ _ frame_restores); [apply exec_restores|intros _; apply IH].
Qed.

Lemma catch_restores m {A} (x : M A) : preserving restores x -> preserving restores (catch m x).
Proof.
  intros Hx s s' r. unfold catch. destruct (x s) as [[s1 [a|e]]|] eqn:E; [| |done]; intros [= <- _]; by eapply Hx.
Qed.

Lemma loadModules_restores n mods :
  preserving restores (loadModules (exec truthy inject user fuel) method modules n mods).
Proof.
  revert mods. induction n as [|n IH]; intros mods; [done|]. cbn [loadModules].
  destruct mods as [|m mods]; [apply (preserving_ret _ _ frame_restores)|].
  apply (preserving_bind _ _ frame_restores); [apply (preserving_gets _ _ frame_restores)|]. intros loaded.
  case_bool_decide; [apply IH|].
  apply (preserving_bind _ _ frame_restores).
  { apply preserving_update. intros s. split; [done|by intros []]. }
  intros _. apply (preserving_bind _ _ frame_restores).
  - apply catch_restores. destruct m as [name|id fn]; repeat (apply (preserving_bind _ _ frame_restores); [|intros ?]);
      try apply IH; try apply run_queue_restores; try apply exec_restores; try apply (preserving_ret _ _ frame_restores).
    unfold angularModule. case_match; [case_match; apply (preserving_ret _ _ frame_restores)|apply (preserving_throw _ _ frame_restores)].
  - intros blocks. apply (preserving_bind _ _ frame_restores); [apply IH|]. intros ?. apply (preserving_ret _ _ frame_restores).
Qed.
End Loading.

(** *** What is made stays *)

Definition keeps (s s' : st) : Prop :=
  forall n c, instanceCache s !! n = Some c -> instanceCache s' !! n = Some c.

#[local] Instance keeps_refl : Reflexive keeps.
Proof. by intros s n c. Qed.
#[local] Instance keeps_trans : Transitive keeps.
Proof. intros s1 s2 s3 H1 H2 n c H. auto. Qed.

Lemma getService_keeps exec w n : preserving keeps (make exec w n) -> preserving keeps (getService exec w n).
Proof.
  intros Hmake s s' x. unfold getService. destruct (cache w s !! n) as [[|v]|] eqn:Hc; [by intros [= <- _]..|].
  set (s1 := set_cache w _ _). destruct w; simpl in Hc.
  - assert (H1 : forall s2, keeps s1 s2 -> instanceCache s2 !! n = Some Instantiating /\
      forall n' c, n' <> n -> instanceCache s !! n' = Some c -> instanceCache s2 !! n' = Some c).
    { intros s2 H. split; [apply H; by apply lookup_insert_eq|]. intros n' c Hn Hs. apply H. by apply lookup_insert_Some; right. }
    destruct (make exec InstanceInjector n s1) as [[s2 [v|e]]|] eqn:Hf; [| |done]; apply Hmake, H1 in Hf as [Hi Hk]; intros [= <- _] n' c Hn';
      (assert (n' <> n) by (intros ->; by rewrite Hn' in Hc)); cbn.
    + apply lookup_insert_Some. right. auto.
    + rewrite Hi. cbn. apply lookup_delete_Some. auto.
  - destruct (make exec ProviderInjector n s1) as [[s2 [v|e]]|] eqn:Hf; [| |done]; apply Hmake in Hf; intros [= <- _] n' c Hn'; cbn.
    + by apply Hf.
    + case_match; by apply Hf.
Qed.

Lemma frame_keeps : frame false keeps.
Proof. split; [apply _|apply _|by intros ?? n c|by intros ??? n c|done|apply getService_keeps]. Qed.

(** *** The depth of the calls, for functions that do not call the injector *)

Section Depth.
Context (truthy : V -> bool) (inject : F -> list (option string)) (user : F -> value -> list value -> prog).

(** A function that returns or throws without calling the injector. *)
Definition quiet : Prop := forall f self args, match user f self args with Do _ _ => False | _ => True end.

(** How deep the injector's own functions nest in a factory. *)
Fixpoint weight (v : value) : nat :=
  match v with VFn c => callee_weight c | _ => 0 end
with callee_weight (c : callee) : nat :=
  match c with
  | CUser _ | CValue _ => 0
  | CService ctor => S (weight ctor)
  | CDecorated orig prov decor => S (Nat.max (weight orig) (weight decor))
  end.

(** The services that have a provider and are not in the cache. *)
Definition missing (names : list string) (s : st) : list string :=
  filter (fun n => instanceCache s !! n = None) names.

Definition provided (names : list string) (s : st) : Prop :=
  forall n c, providerCache s !! (n +:+ "Provider") = Some c -> n ∈ names.

Definition light (W : nat) (s : st) : Prop := forall o g, objs s !! o = Some g -> (weight g <= W)%nat.

Record fit (names : list string) (W : nat) (s : st) : Prop := Fit { fit_provided : provided names s; fit_light : light W s }.

(** A call that returns, keeps the services, and leaves a state that still fits. *)
Definition returns (names : list string) (W : nat) {A} (m : M A) (s : st) : Prop :=
  exists s' x, m s = Some (s', x) /\ fit names W s' /\ keeps s s'.

Lemma returns_pure names W {A} (m : M A) s x : fit names W s -> m s = Some (s, x) -> returns names W m s.
Proof. intros Hf Hm. by exists s, x. Qed.

Lemma returns_bind names W {A B} (m : M A) (k : A -> M B) s :
  returns names W m s ->
  (forall a s', m s = Some (s', Ok a) -> fit names W s' -> keeps s s' -> returns names W (k a) s') -> returns names W (bind m k) s.
Proof.
  intros (s1 & x & Hm & Hf & Hl) Hk. unfold returns, bind. rewrite Hm. destruct x as [a|e]; [|by exists s1, (Err e)].
  destruct (Hk a s1 Hm Hf Hl) as (s2 & y & Hy & Hf2 & Hl2). exists s2, y. split; [done|]. split; [done|by etrans].
Qed.

Context (names : list string) (W : nat).

(** The fuel of a call when [u] services are missing: each may be made below
    the one before, through at most [W] functions of the injector. *)
Definition enough (u : nat) : nat := u * (W + 6) + 4.

Lemma missing_cons s n :
  instanceCache s !! n = None -> n ∈ names ->
  (length (missing names (set_cache InstanceInjector (<[n := Instantiating]> (instanceCache s)) s)) < length (missing names s))%nat.
Proof.
  intros Hc Hin. unfold missing. cbn. clear -Hc Hin.
  assert (Hle : forall l, (length (filter (fun m => <[n := Instantiating]> (instanceCache s) !! m = None) l) <=
                     length (filter (fun m => instanceCache s !! m = None) l))%nat).
  { induction l as [|m l IH]; [done|]. rewrite !filter_cons. destruct (decide (n = m)) as [<-|Hn].
    - rewrite lookup_insert_eq. rewrite (decide_False (P := Some _ = None)) by done. case_decide; simpl; lia.
    - rewrite lookup_insert_ne by done. case_decide; simpl; lia. }
  induction names as [|m l IH]; [by apply not_elem_of_nil in Hin|]. rewrite !filter_cons.
  destruct (decide (n = m)) as [<-|Hn].
  - rewrite lookup_insert_eq, (decide_False (P := Some _ = None)), decide_True by done. simpl. specialize (Hle l). lia.
  - rewrite lookup_insert_ne by done. apply elem_of_cons in Hin as [?|Hin]; [done|]. specialize (IH Hin). case_decide; simpl; lia.
Qed.

Lemma missing_keeps s s' : keeps s s' -> (length (missing names s') <= length (missing names s))%nat.
Proof.
  intros H. unfold missing. induction names as [|m l IH]; [done|]. rewrite !filter_cons.
  destruct (instanceCache s !! m) as [c|] eqn:Hm.
  - rewrite (H _ _ Hm). by rewrite !(decide_False (P := Some c = None)).
  - rewrite (decide_True (P := None = None)) by done. case_decide; simpl; lia.
Qed.

Context (Hquiet : quiet).

Lemma quiet_ok f self args : prog_ok false (user f self args).
Proof. specialize (Hquiet f self args). destruct (user f self args); [constructor..|done]. Qed.

Lemma exec_keeps fuel r : req_ok false r -> preserving keeps (exec truthy inject user fuel r).
Proof. apply exec_preserving; [apply frame_keeps|apply quiet_ok]. Qed.

Lemma get_provider_returns fuel n s :
  (0 < fuel)%nat -> fit names W s -> returns names W (exec truthy inject user fuel (Get ProviderInjector n)) s.
Proof.
  intros Hf Hs. destruct fuel as [|fuel]; [lia|]. unfold returns. cbn [exec step]. unfold getService. cbn [cache].
  destruct (providerCache s !! n) as [[|v]|] eqn:Hc; [by eexists _, _..|].
  cbn. rewrite lookup_insert_eq. cbn. eexists _, _. split; [done|]. rewrite delete_insert_id by done.
  by destruct s.
Qed.

Section Calls.
Context (ex : request -> M value) (u : nat).
Context (Hget : forall w n s, fit names W s -> (length (missing names s) <= u)%nat -> returns names W (ex (Get w n)) s).

Lemma arguments_return w locals keys s :
  fit names W s -> (length (missing names s) <= u)%nat -> returns names W (arguments ex w locals keys) s.
Proof.
  revert s. induction keys as [|[key|] keys IH]; intros s Hs Hu; simpl; [by eapply returns_pure| |by eapply returns_pure].
  apply returns_bind.
  - destruct (local locals key); [by eapply returns_pure|by apply Hget].
  - intros v s1 _ Hs1 Hk1. apply missing_keeps in Hk1. apply returns_bind; [apply IH; [done|lia]|].
    intros vs s2 _ Hs2 _. by eapply returns_pure.
Qed.

Lemma invoke_returns w fn self locals s :
  (forall args s', fit names W s' -> (length (missing names s') <= u)%nat -> returns names W (apply_ user ex fn self args) s') ->
  fit names W s -> (length (missing names s) <= u)%nat -> returns names W (invoke inject user ex w fn self locals) s.
Proof.
  intros Ha Hs Hu. unfold invoke. apply returns_bind.
  { destruct fn as [| | | | | | |[]]; by eapply returns_pure. }
  intros keys s1 _ Hs1 Hk1%missing_keeps. apply returns_bind; [apply arguments_return; [done|lia]|].
  intros args s2 _ Hs2 Hk2%missing_keeps. apply Ha; [done|lia].
Qed.
End Calls.

Lemma run_quiet ex f self args s : fit names W s -> returns names W (run ex (user f self args)) s.
Proof.
  intros Hs. specialize (Hquiet f self args). destruct (user f self args); [by eapply returns_pure..|done].
Qed.

(** What the calls below need of a bound on the services missing. *)
Definition gets_return (u : nat) : Prop := forall fuel w n s,
  (enough u <= fuel)%nat -> fit names W s -> (length (missing names s) <= u)%nat ->
  returns names W (exec truthy inject user fuel (Get w n)) s.

Lemma fit_new_obj s n : fit names W s -> fit names W (set_objs (<[n := VUndef]> (objs s)) s).
Proof.
  intros [Hp Hl]. split; [done|]. intros o g. cbn [set_objs objs]. intros [[_ <-]|[_ Hg]]%lookup_insert_Some; [simpl; lia|by eapply Hl].
Qed.

Lemma calls_return u : gets_return u -> forall k fuel w fn self locals s,
  (enough u + k < fuel)%nat -> (weight fn <= k)%nat -> fit names W s -> (length (missing names s) <= u)%nat ->
  returns names W (exec truthy inject user fuel (Invoke w fn self locals)) s /\
  returns names W (exec truthy inject user fuel (Instantiate w fn locals)) s.
Proof.
  intros Hget. induction k as [k IH] using lt_wf_ind. intros fuel w fn self locals s Hf Hw Hs Hu.
  destruct fuel as [|fuel]; [lia|].
  assert (Ha : forall self args s', fit names W s' -> (length (missing names s') <= u)%nat ->
            returns names W (apply_ user (exec truthy inject user fuel) fn self args) s').
  { intros self' args s' Hs' Hu'. destruct fn as [| | | | | | |[f|v|ctor|orig prov decor]]; simpl in Hw |- *;
      try (by eapply returns_pure); [by apply run_quiet| |].
    - destruct args as [|[] ?]; try (by eapply returns_pure). apply (IH (k - 1)%nat) with (self := VUndef); lia || done.
    - apply returns_bind; [apply (IH (k - 1)%nat); lia || done|].
      intros o s2 _ Hs2 Hk2%missing_keeps. apply (IH (k - 1)%nat); lia || done. }
  assert (Hg : forall w n s, fit names W s -> (length (missing names s) <= u)%nat ->
            returns names W (exec truthy inject user fuel (Get w n)) s) by (intros; apply Hget; lia || done).
  cbn [exec step]. split; [apply (invoke_returns _ u Hg); [apply Ha|done|done]|].
  unfold returns, instantiate, new_obj. set (n := fresh _).
  destruct (invoke_returns _ u Hg w fn (VObj n) locals (set_objs (<[n := VUndef]> (objs s)) s)) as (s2 & x & Hx & Hs2 & Hk2);
    [by apply Ha|by apply fit_new_obj|done|].
  unfold bind. rewrite Hx.
  destruct x as [v|e]; [exists s2, (Ok (if is_object v then v else VObj n))|exists s2, (Err e)]; done.
Qed.

Lemma read_get_spec p s s' g : fit names W s -> read_get p s = Some (s', Ok g) -> s' = s /\ (weight g <= W)%nat.
Proof.
  intros [_ Hl]. destruct p; simpl; intros [= <- <-]; (split; [done|]); simpl; try lia.
  destruct (objs s !! n) as [g|] eqn:Hg; simpl; [by eapply Hl|lia].
Qed.

Lemma read_get_returns p s : fit names W s -> returns names W (read_get p) s.
Proof. intros Hs. destruct p; (eapply returns_pure; [done|reflexivity]). Qed.

Lemma make_returns u fuel n s : (forall u', (u' < u)%nat -> gets_return u') -> (enough u <= S fuel)%nat ->
  fit names W s -> (length (missing names s) <= u)%nat -> instanceCache s !! n = None ->
  returns names W (make (exec truthy inject user fuel) InstanceInjector n)
    (set_cache InstanceInjector (<[n := Instantiating]> (instanceCache s)) (set_path (n :: path s) s)).
Proof.
  intros IH Hf Hs Hu Hn. unfold enough in Hf. set (s1 := set_cache _ _ _). assert (Hs1 : fit names W s1) by by destruct Hs.
  apply returns_bind; [apply get_provider_returns; [lia|done]|]. intros p s2 Hp Hs2 Hk2%missing_keeps.
  apply returns_bind; [by apply read_get_returns|]. intros g s3 Hg _ _. apply read_get_spec in Hg as [-> Hw]; [|done].
  assert (Hin : n ∈ names).
  { destruct (providerCache s !! (n +:+ "Provider")) as [c|] eqn:Hc; [exact (fit_provided _ _ _ Hs _ _ Hc)|].
    destruct fuel as [|fuel]; [lia|]. cbn [exec step] in Hp. unfold getService in Hp. unfold s1 in Hp. cbn in Hp. by rewrite Hc in Hp. }
  pose proof (missing_cons _ _ Hn Hin) as Hlt. change (length (missing names s1) < length (missing names s))%nat in Hlt.
  apply (calls_return (u - 1)) with (k := W); unfold enough; [apply IH|nia|done|done|]; lia.
Qed.

Lemma gets_return_all u : gets_return u.
Proof.
  induction u as [u IH] using lt_wf_ind. intros fuel w n s Hf Hs Hu.
  destruct fuel as [|fuel]; [unfold enough in Hf; lia|]. destruct w; [|apply get_provider_returns; [lia|done]].
  pose proof (exec_keeps (S fuel) (Get InstanceInjector n) I s) as Hk.
  unfold returns. cbn [exec step] in *. unfold getService in *. cbn [cache] in *.
  destruct (instanceCache s !! n) as [[|v]|] eqn:Hn; [by eexists _, _..|].
  destruct (make_returns u fuel n s IH Hf Hs Hu Hn) as (s2 & x & Hx & [Hp Hl] & _).
  cbn [set_path instanceCache cache] in *. rewrite Hx in Hk |- *.
  destruct x as [v|e]; (eexists _, _; split; [done|]; split; [|by eapply Hk]); [done|].
  by destruct (is_instantiating _).
Qed.
End Depth.

(** *** Which modules are loaded *)

Definition same_loaded (s s' : st) : Prop := loadedModules s' = loadedModules s.

#[local] Instance same_loaded_refl : Reflexive same_loaded.
Proof. done. Qed.
#[local] Instance same_loaded_trans : Transitive same_loaded.
Proof. intros s1 s2 s3 H1 H2. unfold same_loaded in *. congruence. Qed.

Lemma frame_loaded : frame true same_loaded.
Proof.
  split; [apply _|apply _|done|done|done|]. intros exec w n Hm s s' x. unfold getService.
  destruct (cache w s !! n) as [[|v]|]; [by intros [= <- _]..|].
  destruct (make exec w n _) as [[s2 [v|e]]|] eqn:E; [| |done]; apply Hm in E; intros [= <- _].
  all: unfold same_loaded in *; destruct w; cbn in *; try case_match; done.
Qed.

Section Loaded.
Context (ex : request -> M value) (method : value -> string -> call_args -> prog) (modules : registry).
Context (Hex : forall r, preserving same_loaded (ex r)).

Definition name_requires (k : string + nat) : list (string + nat) :=
  match k with
  | inl name => match modules !! name with Some m => map module_key (requires m) | None => [] end
  | inr _ => []
  end.

(** Every module loaded, but those being loaded, has its requirements loaded. *)
Definition closed_but (busy loaded : list (string + nat)) : Prop :=
  forall k k', k ∈ loaded -> k ∉ busy -> k' ∈ name_requires k -> k' ∈ loaded.

Lemma run_queue_loaded q : preserving same_loaded (run_queue ex method q).
Proof.
  induction q as [|a q IH]; simpl; [apply (preserving_ret _ _ frame_loaded)|].
  repeat (apply (preserving_bind _ _ frame_loaded); [|intros ?]); [apply Hex| |apply IH].
  unfold call_method. destruct a0;
    try (apply (run_preserving true _ frame_loaded); [intros; apply Hex|apply prog_ok_true]);
    repeat (case_match; try apply Hex; try apply (preserving_throw _ _ frame_loaded)).
Qed.

Lemma bind_ok {A B} (m : M A) (k : A -> M B) s s' b :
  bind m k s = Some (s', Ok b) -> exists s1 a, m s = Some (s1, Ok a) /\ k a s1 = Some (s', Ok b).
Proof. unfold bind. destruct (m s) as [[s1 [a|e]]|]; [by eauto|done|done]. Qed.

Lemma catch_ok m {A} (x : M A) s s' a : catch m x s = Some (s', Ok a) -> x s = Some (s', Ok a).
Proof. unfold catch. destruct (x s) as [[s1 [b|e]]|]; congruence. Qed.

(** What loading a list of modules does to the list of those loaded. *)
Definition loads (mods : list modref) (l l' : list (string + nat)) : Prop :=
  l ⊆ l' /\ map module_key mods ⊆ l' /\ (NoDup l -> NoDup l') /\ (forall busy, closed_but busy l -> closed_but busy l').

Lemma loads_one (m : modref) mods l l1 l' :
  module_key m ∉ l -> name_requires (module_key m) ⊆ l1 ->
  module_key m :: l ⊆ l1 -> (NoDup (module_key m :: l) -> NoDup l1) ->
  (forall busy, closed_but busy (module_key m :: l) -> closed_but busy l1) ->
  loads mods l1 l' -> loads (m :: mods) l l'.
Proof.
  intros Hm Hreq Hsub Hnd Hc (Hs & Hms & Hnd' & Hc'). split_and!.
  - set_solver.
  - simpl. intros k [->|Hk]%elem_of_cons; set_solver.
  - intros Hl. apply Hnd', Hnd. by constructor.
  - intros busy Hb. apply Hc'. intros k k' Hk Hkb Hk'. destruct (decide (k = module_key m)) as [->|Hne]; [by apply Hreq|].
    eapply (Hc (module_key m :: busy)); [|done|set_solver|done].
    intros j j' [->|Hj]%elem_of_cons Hjb Hj'; [set_solver|]. apply elem_of_cons. right.
    eapply Hb; [done|set_solver|done].
Qed.

Lemma loads_skip (m : modref) mods l l' : module_key m ∈ l -> loads mods l l' -> loads (m :: mods) l l'.
Proof. intros Hm (Hs & Hms & ?). split; [done|]. split; [|done]. simpl. set_solver. Qed.

Lemma loadModules_loads n mods s s' blocks :
  loadModules ex method modules n mods s = Some (s', Ok blocks) -> loads mods (loadedModules s) (loadedModules s').
Proof.
  revert mods s s' blocks. induction n as [|n IH]; intros mods s s' blocks; [done|]. cbn [loadModules].
  destruct mods as [|m mods]; [intros [= <- _]; split_and!; simpl; try done; set_solver|].
  intros (s0 & l & [= <- <-] & H)%bind_ok. case_bool_decide as Hm; [by eapply loads_skip, IH|].
  apply bind_ok in H as (s1 & ? & [= <- _] & (s2 & bs & H2%catch_ok & (s3 & bs' & H3%IH & [= <- _])%bind_ok)%bind_ok).
  destruct m as [name|id fn].
  - apply bind_ok in H2 as (s4 & mf & Hmf & Hload). unfold angularModule, module in Hmf.
    destruct (String.eqb name "hasOwnProperty"); [done|]. destruct (modules !! name) as [m|] eqn:Hn; [|done].
    injection Hmf as <- <-.
    apply bind_ok in Hload as (s5 & bs1 & (Hs & Hms & Hnd & Hc)%IH & (s6 & [] & Hq%run_queue_loaded & [= <- _])%bind_ok). red in Hq. rewrite <- Hq in Hs, Hms, Hnd, Hc.
    apply (loads_one _ _ _ (loadedModules s6)); try done. simpl. by rewrite Hn.
  - apply bind_ok in H2 as (s4 & v & Hv%Hex & [= <- _]). red in Hv. cbn in Hv.
    apply (loads_one _ _ _ (loadedModules s4)); rewrite ?Hv; try done; [set_solver|]. by rewrite Hv in H3.
Qed.
End Loaded.
End Injector.

(** ** Examples *)

Module Demo.
(** Functions by what they do with their arguments. *)
Inductive fn := Const (deps : list string) | Thrower (deps : list string) | First (deps : list string) | Ctor.

Definition demo_inject (f : fn) : list (option string) :=
  match f with Const d | Thrower d | First d => map Some d | Ctor => [] end.

Definition demo_user (f : fn) (self : value (V := nat) (F := fn)) (args : list (value (V := nat) (F := fn))) : prog (V := nat) (F := fn) :=
  match f with
  | Const _ => Return (VPrim (length args))
  | Thrower _ => Throw (EUser VUndef)
  | First _ => Return (match args with v :: _ => v | [] => VUndef end)
  | Ctor => Return VUndef
  end.

Definition factory_of (name : string) (f : fn) : queued (V := nat) (F := fn) := Queued "$provide" "factory" (Args [VStr name; VFn (CUser f)]).

Definition demo_modules : gmap string (module_ (V := nat) (F := fn)) :=
  {["app" := Module_ [MName "dep"] [factory_of "a" (Const ["b"]); factory_of "b" (Const ["a"]); factory_of "x" (Const ["y"; "y"]);
                                     Queued "$provide" "decorator" (Args [VStr "y"; VFn (CUser (First ["$delegate"]))])] [];
    "dep" := Module_ [MName "app"] [factory_of "y" (Const []); factory_of "bad" (Thrower ["x"])] []]}.

Definition demo_exec : nat -> request (V := nat) (F := fn) -> M value := exec (fun n => negb (n =? 0)%nat) demo_inject demo_user.

Definition demo : option (st (V := nat) (F := fn) * result err unit) :=
  createInjector (fun n => negb (n =? 0)%nat) demo_inject demo_user (fun _ _ _ => Return VUndef) demo_modules 30 [MName "app"].

Definition demo_state : st (V := nat) (F := fn) := match demo with Some (s, _) => s | None => initial end.

Definition ask (s : st (V := nat) (F := fn)) (name : string) : option (result err (value (V := nat) (F := fn))) := snd <$> demo_exec 30 (Get InstanceInjector name) s.

Example demo_loads : loadedModules demo_state = [inl "dep"; inl "app"].
Proof. vm_compute. reflexivity. Qed.
Example demo_get : ask demo_state "x" = Some (Ok (VPrim 2%nat)).
Proof. vm_compute. reflexivity. Qed.
Example demo_cycle : ask demo_state "a" = Some (Err (ECircular "a" ["b"; "a"])).
Proof. vm_compute. reflexivity. Qed.
Example demo_unknown : ask demo_state "z" = Some (Err (EUnknown ["zProvider"; "z"])).
Proof. vm_compute. reflexivity. Qed.
End Demo.

(** ** What the injector promises *)

(** C27: no service is left half made: whatever the modules, the providers and the
    run blocks do, throw, catch or redefine, once the injector is created - or
    has failed to be - and after any calls of it, the path of the names being
    resolved is empty and neither injector has a name marked as being
    instantiated, so a service whose factory threw can be asked for again. *)
Theorem injector_recovers {V F} truthy inject (user : F -> value -> list value -> prog) method
  (modules : gmap string (module_ (V := V) (F := F))) fuel mods s r fuel' rs s' :
  createInjector truthy inject user method modules fuel mods = Some (s, r) ->
  calls truthy inject user fuel' rs s = Some s' ->
  path s' = [] /\ forall w n, cache w s' !! n <> Some Instantiating.
Proof.
  intros Hc Hr. assert (H1 : restores initial s).
  { eapply (preserving_bind _ _ frame_restores); [apply loadModules_restores| |exact Hc]. intros; apply run_blocks_restores. }
  assert (H2 : restores s s').
  { eapply (calls_preserving true); [apply frame_restores|intros; apply prog_ok_true| |exact Hr].
    apply Forall_true. intros [| | | |[] ? ?|[] ?| | |]; done. }
  destruct (restores_trans _ _ _ H1 H2) as [Hp Hm]. split; [done|]. intros w n Hw%Hm.
  destruct w; cbn in Hw; [by apply lookup_singleton_Some in Hw as [_ [=]]|].
  by apply lookup_insert_Some in Hw as [[_ [=]]|[_ [_ [=]]%lookup_singleton_Some]].
Qed.

Lemma injector_recovers_witness :
  let s := Demo.demo_state in
  exists s', calls (fun n => negb (n =? 0)%nat) Demo.demo_inject Demo.demo_user 30
     [Get InstanceInjector "a"; Get InstanceInjector "bad"; Get InstanceInjector "x"] s = Some s' /\
    path s' = [] /\ cache InstanceInjector s' !! "a" <> Some Instantiating.
Proof.
  intros s. eexists. split; [vm_compute; reflexivity|].
  edestruct (injector_recovers (fun n => negb (n =? 0)%nat) Demo.demo_inject Demo.demo_user (fun _ _ _ => Return VUndef)
    Demo.demo_modules 30 [MName "app"] s (Ok tt) 30
    [Get InstanceInjector "a"; Get InstanceInjector "bad"; Get InstanceInjector "x"]) as [H1 H2];
    [vm_compute; reflexivity|vm_compute; reflexivity|].
  split; [exact H1|apply H2].
Defined.

(** Services are singletons: once [get] has returned a service, every later
    [get] of that name returns the same value at once and changes nothing,
    whatever calls are made and fail in between, unless the application
    redefines a name with [constant]. *)
Theorem services_are_singletons {V F} truthy inject (user : F -> value -> list value -> prog (V := V)) fuel1 fuel2 fuel3 n s s1 v rs s2 :
  (forall f self args, prog_ok false (user f self args)) -> Forall (req_ok false) rs ->
  exec truthy inject user fuel1 (Get InstanceInjector n) s = Some (s1, Ok v) ->
  calls truthy inject user fuel2 rs s1 = Some s2 ->
  exec truthy inject user (S fuel3) (Get InstanceInjector n) s2 = Some (s2, Ok v).
Proof.
  intros Hu Hrs Hg Hc. assert (Hd : instanceCache s1 !! n = Some (Done v)).
  { destruct fuel1 as [|fuel1]; [done|]. revert Hg. cbn [exec step]. unfold getService, cache.
    destruct (instanceCache s !! n) as [[|v']|] eqn:Hn; [done|by intros [= <- <-]|].
    destruct (make _ _ _ _) as [[s3 [v'|e]]|]; [|done|done]. intros [= <- <-]. cbn. by rewrite lookup_insert_eq. }
  apply (calls_preserving false keeps) in Hc; [|apply frame_keeps|done|done]. apply Hc in Hd.
  cbn [exec step]. unfold getService. cbn [cache]. by rewrite Hd.
Qed.

Lemma services_are_singletons_witness :
  exists s1 s2, Demo.demo_exec 30 (Get InstanceInjector "x") Demo.demo_state = Some (s1, Ok (VPrim 2%nat)) /\
    calls (fun n => negb (n =? 0)%nat) Demo.demo_inject Demo.demo_user 30
      [Get InstanceInjector "bad"; Provide RFactory "x" (VFn (CUser Demo.Ctor))] s1 = Some s2 /\
    Demo.demo_exec 1 (Get InstanceInjector "x") s2 = Some (s2, Ok (VPrim 2%nat)).
Proof.
  eexists _, _. split; [vm_compute; reflexivity|]. split; [vm_compute; reflexivity|].
  eapply (services_are_singletons (fun n => negb (n =? 0)%nat) Demo.demo_inject Demo.demo_user 30 30 0 "x" Demo.demo_state _ _
    [Get InstanceInjector "bad"; Provide RFactory "x" (VFn (CUser Demo.Ctor))]).
  - intros [] self args; constructor.
  - repeat constructor.
  - vm_compute. reflexivity.
  - vm_compute. reflexivity.
Defined.

(** Asking for a service always ends, even when services depend on each other
    in a circle: with functions that do not call the injector themselves, fuel
    proportional to the number of services not made yet is enough, since every
    nested request marks one more of them and a marked one is refused. *)
Theorem get_terminates {V F} truthy inject (user : F -> value -> list value -> prog (V := V)) names W fuel n s :
  quiet user -> provided names s -> light W s -> (enough W (length (missing names s)) <= fuel)%nat ->
  exists s' x, exec truthy inject user fuel (Get InstanceInjector n) s = Some (s', x).
Proof.
  intros Hq Hp Hl Hf.
  destruct (gets_return_all truthy inject user names W Hq _ fuel InstanceInjector n s Hf) as (s' & x & Hx & _); [done|done|].
  by exists s', x.
Qed.

(** Two services that require each other, and nothing made. *)
Definition circle : st (V := nat) (F := Demo.fn) :=
  St {["aProvider" := Done (VObj 0); "bProvider" := Done (VObj 1)]} ∅ []
     {[0%nat := VFn (CUser (Demo.Const ["b"])); 1%nat := VFn (CUser (Demo.Const ["a"]))]} [].

Lemma get_terminates_witness :
  exists s' x, exec (fun n => negb (n =? 0)%nat) Demo.demo_inject Demo.demo_user 16 (Get InstanceInjector "a") circle = Some (s', x) /\
    x = Err (ECircular "a" ["b"; "a"]).
Proof.
  destruct (get_terminates (fun n => negb (n =? 0)%nat) Demo.demo_inject Demo.demo_user ["a"; "b"] 0 16 "a" circle) as (s' & x & Hx).
  - intros [] self args; exact I.
  - intros n c Hn. cbn in Hn. apply lookup_insert_Some in Hn as [[Hn _]|[_ [Hn _]%lookup_singleton_Some]].
    + apply (string_app_inj_r "a") in Hn. subst n. apply list_elem_of_here.
    + apply (string_app_inj_r "b") in Hn. subst n. apply list_elem_of_further, list_elem_of_here.
  - intros o g Hg. cbn in Hg. by apply lookup_insert_Some in Hg as [[_ <-]|[_ [_ <-]%lookup_singleton_Some]].
  - reflexivity || (vm_compute; lia).
  - exists s', x. split; [exact Hx|]. vm_compute in Hx. by injection Hx.
Defined.

(** Loading follows the requirements: when the modules asked for are loaded,
    they and everything they require, directly or not, are among the modules
    loaded, and each is loaded once, also when modules require each other. *)
Theorem modules_load_once {V F} (ex : request -> M value) method (modules : gmap string (module_ (V := V) (F := F)))
  fuel mods s s' blocks :
  (forall r, preserving same_loaded (ex r)) -> loadedModules s = [] ->
  loadModules ex method modules fuel mods s = Some (s', Ok blocks) ->
  NoDup (loadedModules s') /\ map module_key mods ⊆ loadedModules s' /\
  forall name m, inl name ∈ loadedModules s' -> modules !! name = Some m -> map module_key (requires m) ⊆ loadedModules s'.
Proof.
  intros Hex Hs H. apply loadModules_loads in H as (_ & Hms & Hnd & Hc); [|done]. rewrite Hs in Hnd, Hc.
  split; [apply Hnd; constructor|]. split; [done|]. intros name m Hin Hm k Hk.
  eapply (Hc []); [by intros ? ? ?%not_elem_of_nil|exact Hin|apply not_elem_of_nil|]. simpl. by rewrite Hm.
Qed.

Lemma modules_load_once_witness :
  exists s' blocks, loadModules (Demo.demo_exec 30) (fun _ _ _ => Return VUndef) Demo.demo_modules 30 [MName "app"] initial = Some (s', Ok blocks) /\
    NoDup (loadedModules s') /\ loadedModules s' = [inl "dep"; inl "app"].
Proof.
  eexists _, _. split; [vm_compute; reflexivity|]. split; [|reflexivity].
  eapply (modules_load_once (Demo.demo_exec 30) (fun _ _ _ => Return VUndef) Demo.demo_modules 30 [MName "app"] initial).
  - intros r. apply (exec_preserving true _ frame_loaded); [intros; apply prog_ok_true|].
    destruct r as [| | | |[] ? ?|[] ?| | |]; done.
  - reflexivity.
  - vm_compute. reflexivity.
Defined.
