(* ===== verification/NgRepeat.v ===== *)
(** * NgRepeat: watching a collection and repeating a row for each item

    [$watchCollection] (angular.js 12465-12586) and the [ngRepeat] directive
    (20594-20790), which the console's tables are built with.  A collection is
    given by what the code reads of it: a primitive, the elements of an array or
    the own properties of an object; for [$watchCollection] none of them is
    named [hasOwnProperty].

    The rows are DOM nodes between their siblings: [dom] is the parent's list of
    children, [place] moves and inserts among them.  Scopes are numbers.  The
    framework's own [$animate] is meant (4124-4353): elements enter, move and
    leave at once. *)

From S2P Require Import Prelude Text Js NgCore.

#[local] Set Warnings "-register-all,-clear-no-such-hyp".

(** What the code reads of a collection. *)
Inductive collection : Type :=
| CPrim (v : jsval)
| CArray (es : list jsval)
| CObject (ps : list (string * jsval)).

(** [isArrayLike] of an object with own properties [ps]: the elements. *)
Definition array_like (ps : list (string * jsval)) : option (list jsval) :=
  match prop_get ps "length" with
  | JNum 0 => Some []
  | JNum n =>
      if (0 <? n) && prop_has ps (pretty (n - 1))
      then Some (map (fun i => prop_get ps (pretty i)) (seqZ 0 n)) else None
  | _ => None
  end.

(** [isObject], then [isArrayLike]. *)
Definition collection_of (h : jsheap) (v : jsval) : collection :=
  match v with
  | JRef r =>
      match h !! r with
      | Some (OArray es) => CArray es
      | Some (OFun _ _) | None => CPrim v
      | Some o => match array_like (obj_props o) with Some es => CArray es | None => CObject (obj_props o) end
      end
  | _ => CPrim v
  end.

(** The same for [ngRepeat], to which a string is its characters. *)
Definition repeated (h : jsheap) (v : jsval) : collection :=
  match v with
  | JStr s => CArray (map (fun c => JStr (String c "")) (String.list_ascii_of_string s))
  | _ => collection_of h v
  end.

(** ** [$watchCollection] *)

Module Watch.
(** [oldValue]: a primitive, [internalArray] or [internalObject]. *)
Inductive old_value : Type :=
| OldPrim (v : jsval)
| OldArray (es : list jsval)
| OldObject (m : gmap string jsval).

Record st := St { oldValue : old_value; oldLength : nat; changeDetected : nat }.

(** [oldValue = undefined], [oldLength = 0], [changeDetected = 0]. *)
Definition initial : st := St (OldPrim JUndef) 0 0.

(** [bothNaN || a === b]. *)
Definition same (a b : jsval) : bool :=
  bool_decide (a = JNaN /\ b = JNaN) || strict_eq a b.

Fixpoint array_loop (old new : list jsval) (n : nat) : list jsval * nat :=
  match old, new with
  | o :: old, v :: new =>
      let '(r, n) := array_loop old new (if same o v then n else S n) in
      ((if same o v then o else v) :: r, n)
  | _, _ => ([], n)
  end.

(** [oldValue.length = newLength]. *)
Definition set_length (n : nat) (l : list jsval) : list jsval := take n l ++ repeat JUndef (n - length l).

(** The loop over the properties: [oldValue], [oldLength], the count. *)
Fixpoint object_loop (ps : list (string * jsval)) (old : gmap string jsval) (oldLength n : nat) : gmap string jsval * nat * nat :=
  match ps with
  | [] => (old, oldLength, n)
  | (key, v) :: ps =>
      match old !! key with
      | Some o =>
          if same o v then object_loop ps old oldLength n
          else object_loop ps (<[key := v]> old) oldLength (S n)
      | None => object_loop ps (<[key := v]> old) (S oldLength) (S n)
      end
  end.

Definition watch (newValue : collection) (s : st) : st :=
  match newValue with
  | CPrim v =>
      match oldValue s with
      | OldPrim o => if strict_eq o v then s else St (OldPrim v) (oldLength s) (S (changeDetected s))
      | _ => St (OldPrim v) (oldLength s) (S (changeDetected s))
      end
  | CArray es =>
      let '(old, len, n) :=
        match oldValue s with
        | OldArray old => (old, oldLength s, changeDetected s)
        | _ => ([], O, S (changeDetected s))
        end in
      let newLength := length es in
      let '(old, n) := if bool_decide (len = newLength) then (old, n) else (set_length newLength old, S n) in
      let '(old, n) := array_loop old es n in
      St (OldArray old) newLength n
  | CObject ps =>
      let '(old, len, n) :=
        match oldValue s with
        | OldObject old => (old, oldLength s, changeDetected s)
        | _ => (∅, O, S (changeDetected s))
        end in
      let newLength := length ps in
      let '(old, len, n) := object_loop ps old len n in
      if (newLength <? len)%nat then
        let kept := filter (fun e => e.1 ∈ map fst ps) old in
        St (OldObject kept) (len - (size old - size kept)) (S n)
      else St (OldObject old) len n
  end.

(** The listener's side: [initRun] and [veryOldValue], of which only a shallow
    copy is kept, and only when the listener declares a second argument. *)
Record action_st := ActionSt { initRun : bool; veryOldValue : option collection }.

Definition action (trackVeryOldValue : bool) (newValue : collection) (a : action_st) :
  action_st * (collection * option collection) :=
  (ActionSt false (if trackVeryOldValue then Some newValue else veryOldValue a),
   (newValue, if initRun a then Some newValue else veryOldValue a)).

(** *** Lemmas *)

(** The last value seen is the collection, element by element. *)
Definition seen (o : old_value) (c : collection) : Prop :=
  match o, c with
  | OldPrim o, CPrim v => strict_eq o v = true
  | OldArray old, CArray es => Forall2 (fun a b => same a b = true) old es
  | OldObject m, CObject ps =>
      (forall k, is_Some (m !! k) <-> k ∈ map fst ps) /\
      forall k o v, m !! k = Some o -> (k, v) ∈ ps -> same o v = true
  | _, _ => False
  end.

(** [oldLength] counts the elements or properties of [oldValue]. *)
Definition counted (s : st) : Prop :=
  match oldValue s with
  | OldPrim _ => True
  | OldArray old => oldLength s = length old
  | OldObject m => oldLength s = size m
  end.

Lemma same_value_refl a : same a a = true.
Proof.
  unfold same, strict_eq. destruct a; try done; rewrite (bool_decide_eq_true_2 (_ = _)) by done; apply orb_true_r.
Qed.

Lemma array_loop_spec old es n : length old = length es ->
  let '(r, n') := array_loop old es n in
  Forall2 (fun a b => same a b = true) r es /\ length r = length es /\ (n <= n')%nat /\
  (n' = n <-> Forall2 (fun a b => same a b = true) old es).
Proof.
  revert es n. induction old as [|o old IH]; intros [|v es] n Hl; try done; simpl in *.
  specialize (IH es (if same o v then n else S n) ltac:(lia)). destruct (array_loop old es _) as [r n'].
  destruct IH as (Hr & Hlr & Hle & Hiff). destruct (same o v) eqn:Ho.
  - split_and!; [by constructor|simpl; lia|lia|]. rewrite Forall2_cons, <- Hiff. tauto.
  - split_and!; [constructor; [apply same_value_refl|done]|simpl; lia|lia|]. rewrite Forall2_cons.
    split; [lia|intros [? _]; congruence].
Qed.

Lemma length_set_length n l : length (set_length n l) = n.
Proof. unfold set_length. rewrite length_app, length_take, repeat_length. lia. Qed.

Section Objects.
Context (ps0 : list (string * jsval)).

(** Keys of [old] and of [ps] agree. *)
Definition agree (old : gmap string jsval) (ps : list (string * jsval)) : Prop :=
  forall k v, (k, v) ∈ ps -> exists o, old !! k = Some o /\ same o v = true.

Lemma object_loop_spec ps old len n : NoDup (map fst ps) -> len = size old ->
  let '(m, len', n') := object_loop ps old len n in
  len' = size m /\ (n <= n')%nat /\ agree m ps /\ (forall k, is_Some (m !! k) <-> is_Some (old !! k) \/ k ∈ map fst ps) /\
  (forall k, k ∉ map fst ps -> m !! k = old !! k) /\ (n' = n -> m = old) /\ (agree old ps -> n' = n).
Proof.
  revert old len n. induction ps as [|[k v] ps IH]; intros old len n Hnd ->; cbn [object_loop].
  { split_and!; [done|lia|by intros ? ? ?%not_elem_of_nil|set_solver|done|done|done]. }
  apply NoDup_cons in Hnd as [Hk Hnd]. simpl in Hk.
  assert (Hstep : forall old' n0, (n <= n0)%nat -> (exists o, old' !! k = Some o /\ same o v = true) ->
    (forall k', k' <> k -> old' !! k' = old !! k') -> (n0 = n <-> old' = old) -> (agree old ((k, v) :: ps) -> n0 = n) ->
    let '(m, len', n') := object_loop ps old' (size old') n0 in
    len' = size m /\ (n <= n')%nat /\ agree m ((k, v) :: ps) /\
    (forall k0, is_Some (m !! k0) <-> is_Some (old !! k0) \/ k0 ∈ map fst ((k, v) :: ps)) /\
    (forall k0, k0 ∉ map fst ((k, v) :: ps) -> m !! k0 = old !! k0) /\ (n' = n -> m = old) /\ (agree old ((k, v) :: ps) -> n' = n)).
  { intros old' n0 Hn0 (o & Ho & Hs) Hold Hn Hag. specialize (IH old' (size old') n0 Hnd eq_refl).
    destruct (object_loop ps old' (size old') n0) as [[m len'] n']. destruct IH as (Hl & Hle & Ha & Hd & Hf & He & Hc).
    split_and!; [done|lia| | | | |].
    - intros k' v' [[= -> ->]|Hin]%elem_of_cons; [|by apply Ha]. exists o. by rewrite Hf.
    - intros k'. rewrite Hd. simpl. rewrite elem_of_cons. destruct (decide (k' = k)) as [->|Hne]; [rewrite Ho; naive_solver|].
      rewrite Hold by done. naive_solver.
    - intros k' [Hne Hk']%not_elem_of_cons. rewrite Hf by done. by apply Hold.
    - intros ->. assert (n0 = n) by lia. subst n0. rewrite He by done. by apply Hn.
    - intros H. pose proof (Hag H) as ->. apply Hc. intros k' v' Hin.
      rewrite (proj1 Hn eq_refl). apply H. by apply elem_of_cons; right. }
  destruct (old !! k) as [o|] eqn:Ho; [destruct (same o v) eqn:Hs|].
  - apply (Hstep old n); naive_solver.
  - replace (size old) with (size (<[k := v]> old)) by by rewrite map_size_insert_Some.
    apply (Hstep (<[k := v]> old) (S n)); [lia| | | |].
    + exists v. by rewrite lookup_insert_eq, same_value_refl.
    + intros. by rewrite lookup_insert_ne.
    + split; [lia|]. intros H. rewrite <- H, lookup_insert_eq in Ho. injection Ho as <-. by rewrite same_value_refl in Hs.
    + intros H. destruct (H k v) as (o' & Ho' & Hs'); [apply elem_of_cons; by left|]. congruence.
  - replace (S (size old)) with (size (<[k := v]> old)) by by rewrite map_size_insert_None.
    apply (Hstep (<[k := v]> old) (S n)); [lia| | | |].
    + exists v. by rewrite lookup_insert_eq, same_value_refl.
    + intros. by rewrite lookup_insert_ne.
    + split; [lia|]. intros H. by rewrite <- H, lookup_insert_eq in Ho.
    + intros H. destruct (H k v) as (o' & Ho' & Hs'); [apply elem_of_cons; by left|]. congruence.
Qed.
End Objects.

Lemma keys_full (m : gmap string jsval) (ks : list string) :
  NoDup ks -> (forall k, k ∈ ks -> is_Some (m !! k)) ->
  (length ks <= size m)%nat /\ ((size m <= length ks)%nat -> forall k, is_Some (m !! k) -> k ∈ ks).
Proof.
  intros Hnd Hk. assert (Hsub : (list_to_set ks : gset string) ⊆ dom m).
  { intros k. rewrite elem_of_list_to_set, elem_of_dom. apply Hk. }
  assert (Hs : size (list_to_set ks : gset string) = length ks) by by apply size_list_to_set.
  rewrite <- (size_dom m). split; [rewrite <- Hs; by apply subseteq_size|]. intros Hle k Hm.
  apply (set_subseteq_size_equiv _ (dom m)) in Hsub; [|lia].
  apply (elem_of_list_to_set (C := gset string)), Hsub. by apply elem_of_dom.
Qed.

(** What one run of the watch function does, from any state that counts. *)
Definition exact (newValue : collection) (s s' : st) : Prop :=
  counted s' /\ (newValue <> CPrim JNaN -> seen (oldValue s') newValue) /\
  (changeDetected s <= changeDetected s')%nat /\ (changeDetected s' = changeDetected s <-> seen (oldValue s) newValue).

Lemma watch_prim v s : exact (CPrim v) s (watch (CPrim v) s).
Proof.
  assert (Hs : CPrim v <> CPrim JNaN -> strict_eq v v = true).
  { intros H. destruct v; simpl; try done; by apply bool_decide_eq_true_2. }
  unfold watch, exact. destruct (oldValue s) as [o|old|m] eqn:Ho.
  - destruct (strict_eq o v) eqn:E.
    + unfold counted. rewrite Ho. simpl. rewrite E. done.
    + split_and!; simpl; [done|done|lia|]. rewrite E. split; [lia|done].
  - split_and!; simpl; [done|done|lia|]. split; [lia|done].
  - split_and!; simpl; [done|done|lia|]. split; [lia|done].
Qed.

(** The array branch from a given [internalArray]. *)
Lemma array_part old es n :
  let '(old', n') := if bool_decide (length old = length es) then (old, n) else (set_length (length es) old, S n) in
  let '(r, n'') := array_loop old' es n' in
  Forall2 (fun a b => same a b = true) r es /\ length r = length es /\ (n <= n'')%nat /\
  (n'' = n <-> Forall2 (fun a b => same a b = true) old es).
Proof.
  case_bool_decide as Hl; [by apply array_loop_spec|].
  pose proof (array_loop_spec (set_length (length es) old) es (S n) (length_set_length _ _)) as H.
  destruct (array_loop _ es _) as [r n']. destruct H as (Hr & Hlr & Hle & _). split_and!; [done|done|lia|].
  split; [lia|]. intros Hs%Forall2_length. done.
Qed.

Lemma watch_array es s : counted s -> exact (CArray es) s (watch (CArray es) s).
Proof.
  intros Hc. unfold watch, exact, counted in *. destruct (oldValue s) as [o|old|m] eqn:Ho.
  - pose proof (array_part [] es (S (changeDetected s))) as H.
    change (length (@nil jsval)) with O in H. destruct (if bool_decide _ then _ else _) as [old' n'].
    destruct (array_loop old' es n') as [r n'']. destruct H as (Hr & Hl & Hle & _). simpl. split_and!; [done|done|lia|split; [lia|done]].
  - rewrite Hc. pose proof (array_part old es (changeDetected s)) as H.
    destruct (if bool_decide _ then _ else _) as [old' n'].
    destruct (array_loop old' es n') as [r n'']. destruct H as (Hr & Hl & Hle & Hiff). simpl. split_and!; done.
  - pose proof (array_part [] es (S (changeDetected s))) as H.
    change (length (@nil jsval)) with O in H. destruct (if bool_decide _ then _ else _) as [old' n'].
    destruct (array_loop old' es n') as [r n'']. destruct H as (Hr & Hl & Hle & _). simpl. split_and!; [done|done|lia|split; [lia|done]].
Qed.

(** The object branch from a given [internalObject]. *)
Lemma object_part ps old n : NoDup (map fst ps) ->
  let '(m, len, n') := object_loop ps old (size old) n in
  let s' :=
    if (length ps <? len)%nat
    then let kept := filter (fun e => e.1 ∈ map fst ps) m in St (OldObject kept) (len - (size m - size kept)) (S n')
    else St (OldObject m) len n' in
  counted s' /\ seen (oldValue s') (CObject ps) /\ (n <= changeDetected s')%nat /\
  (changeDetected s' = n <-> seen (OldObject old) (CObject ps)).
Proof.
  intros Hnd. pose proof (object_loop_spec ps old (size old) n Hnd eq_refl) as H.
  destruct (object_loop ps old (size old) n) as [[m len] n']. destruct H as (-> & Hle & Ha & Hd & Hf & He & Hc).
  assert (Hseen : forall k o v, m !! k = Some o -> (k, v) ∈ ps -> same o v = true).
  { intros k o v Hm Hin. destruct (Ha k v Hin) as (o' & Ho' & Hs). congruence. }
  assert (Hsame : seen (OldObject old) (CObject ps) -> n' = n).
  { intros [Hk Hv]. apply Hc. intros k v Hin. assert (Hin' : k ∈ map fst ps) by (apply (list_elem_of_fmap_2 fst) in Hin; done).
    apply Hk in Hin' as [o Ho]. exists o. split; [done|by eapply Hv]. }
  destruct (keys_full m (map fst ps) Hnd) as [Hsz Hfull]; [intros k Hk; apply Hd; by right|].
  rewrite length_map in Hsz, Hfull. destruct (length ps <? size m)%nat eqn:Hlt.
  - apply Nat.ltb_lt in Hlt. set (kept := filter _ m). simpl.
    assert (Hkept : forall k, is_Some (kept !! k) <-> k ∈ map fst ps).
    { intros k. unfold kept. split; [intros [o [_ Ho]%map_lookup_filter_Some]; done|]. intros Hk.
      assert (is_Some (m !! k)) as [o Ho] by (apply Hd; by right). exists o. by apply map_lookup_filter_Some. }
    assert (Hsub : (size kept <= size m)%nat) by apply map_subseteq_size, map_filter_subseteq.
    split_and!; [unfold counted; simpl; lia|done| |lia|].
    + intros k o v Hk. apply map_lookup_filter_Some in Hk as [Hk _]. by apply Hseen.
    + split; [lia|]. intros Hs. exfalso. pose proof (Hsame Hs) as ->. rewrite (He eq_refl) in Hlt.
      destruct Hs as [Hk _]. destruct (keys_full old (map fst ps) Hnd) as [_ _]; [intros; by apply Hk|].
      assert (Hsz' : (size old <= length ps)%nat); [|lia].
      rewrite <- (length_map fst ps), <- (size_dom old), <- (size_list_to_set (C := gset string) (map fst ps)) by done.
      apply subseteq_size. intros k. rewrite elem_of_dom, elem_of_list_to_set. apply Hk.
  - apply Nat.ltb_ge in Hlt. simpl. split_and!; [done| |done|lia|].
    + intros k. split; [by apply Hfull|intros Hk; apply Hd; by right].
    + split; [|by apply Hsame]. intros Hn. rewrite <- (He Hn). split; [|done].
      intros k. split; [by apply Hfull|intros Hk; apply Hd; by right].
Qed.

Lemma watch_object ps s : NoDup (map fst ps) -> counted s -> exact (CObject ps) s (watch (CObject ps) s).
Proof.
  intros Hnd Hc. unfold watch, exact, counted in *. destruct (oldValue s) as [o|old|m] eqn:Ho.
  1,2: pose proof (object_part ps ∅ (S (changeDetected s)) Hnd) as H; rewrite map_size_empty in H;
    destruct (object_loop ps ∅ 0 _) as [[m len] n']; cbv zeta in H; destruct H as (Hc' & Hs & Hle & _);
    destruct (length ps <? len)%nat; (split; [done|split; [by intros _|simpl in *; split; [lia|split; [lia|done]]]]).
  rewrite Hc. pose proof (object_part ps m (changeDetected s) Hnd) as H.
  destruct (object_loop ps m _ _) as [[m' len] n']. cbv zeta in H. destruct H as (Hc' & Hs & Hle & Hiff).
  by destruct (length ps <? len)%nat.
Qed.
End Watch.

(** ** [ngRepeat] *)

Module Repeat.
(** *** Nodes *)

Definition remove_node (n : nat) (dom : list nat) : list nat := filter (fun m => m <> n) dom.

Fixpoint insert_after (p n : nat) (dom : list nat) : list nat :=
  match dom with
  | [] => []
  | m :: dom => if decide (m = p) then m :: n :: dom else m :: insert_after p n dom
  end.

(** [jqLite(index).after(nodes)]. *)
Fixpoint after (index : nat) (nodes : list nat) (dom : list nat) : list nat :=
  match nodes with
  | [] => dom
  | node :: nodes => after node nodes (insert_after index node (remove_node node dom))
  end.

(** The siblings that follow a node. *)
Fixpoint following (p : nat) (dom : list nat) : list nat :=
  match dom with
  | [] => []
  | m :: dom => if decide (m = p) then dom else following p dom
  end.

(** The loop of [getBlockElements], from the node after the start. *)
Fixpoint upto (last : nat) (dom : list nat) : list nat :=
  match dom with
  | [] => []
  | m :: dom => if decide (m = last) then [m] else m :: upto last dom
  end.

Definition getBlockElements (startNode endNode : nat) (dom : list nat) : list nat :=
  if decide (startNode = endNode) then [startNode] else startNode :: upto endNode (following startNode dom).

(** *** State *)

(** [{scope, clone, id}]: of the clone, its first and its last node. *)
Record block := Block { b_id : string; b_start : nat; b_end : nat; b_scope : nat }.

(** What the directive writes on the scope of a row. *)
Record row := Row {
  r_value : jsval;
  r_key : jsval;
  r_index : nat;
  r_first : bool; r_last : bool; r_middle : bool; r_odd : bool; r_even : bool
}.

Record st := St {
  dom : list nat;
  ng_removed : list nat;            (** nodes that carry [$$NG_REMOVED] *)
  lastBlockMap : gmap string block;
  next_node : nat;
  next_scope : nat;
  destroyed : list nat;             (** scopes destroyed *)
  rows : gmap nat row
}.

Definition set_dom (d : list nat) (s : st) : st :=
  St d (ng_removed s) (lastBlockMap s) (next_node s) (next_scope s) (destroyed s) (rows s).
Definition set_last (l : gmap string block) (s : st) : st :=
  St (dom s) (ng_removed s) l (next_node s) (next_scope s) (destroyed s) (rows s).
Definition set_row (n : nat) (r : row) (s : st) : st :=
  St (dom s) (ng_removed s) (lastBlockMap s) (next_node s) (next_scope s) (destroyed s) (<[n := r]> (rows s)).

(** An entry of [nextBlockOrder]: a block that is reused, or [{id}]. *)
Inductive entry := Reused (b : block) | Fresh (id : string).

Definition entry_id (e : entry) : string := match e with Reused b => b_id b | Fresh id => id end.

Inductive err := Dupes (id : string) | BadName | TrackError | NotAFunction.

Section Action.
(** The comment the rows follow, the number of nodes the template clones, and
    the function that computes an item's id. *)
Context (anchor template : nat).
Context (trackById : jsval -> jsval -> nat -> option string).

(** [key.charAt(0) == '$']. *)
Definition dollar (key : string) : bool := match key with String "$" _ => true | _ => false end.

(** [collectionKeys] with the values they index. *)
Definition items (c : collection) : list (jsval * jsval) :=
  match c with
  | CArray es => imap (fun i v => (JNum (Z.of_nat i), v)) es
  | CObject ps =>
      let own := filter (fun p => negb (dollar p.1) = true) ps in
      map (fun k => (JStr k, prop_get own k)) (Basics.sortedKeys own)
  | CPrim _ => []
  end.

(** The keys of an object are told by its [hasOwnProperty], which must be the method. *)
Definition enumerable (c : collection) : bool :=
  match c with CObject ps => negb (prop_has ps "hasOwnProperty") | _ => true end.

(** The first loop: finds the blocks of the items.  [next] has the ids that are
    keys of [nextBlockMap], of which [__proto__] never is one; the last component is [lastBlockMap] as it is left. *)
Fixpoint locate (its : list (jsval * jsval)) (index : nat) (last : gmap string block) (next : list string)
  (order : list entry) : result (err * gmap string block) (list entry * gmap string block) :=
  match its with
  | [] => Ok (order, last)
  | (key, value) :: its =>
      match trackById key value index with
      | None => Err (TrackError, last)
      | Some id =>
          if String.eqb id "hasOwnProperty" then Err (BadName, last)
          else if String.eqb id "__proto__" then locate its (S index) last next (order ++ [Fresh id])
          else
            match last !! id with
            | Some b => locate its (S index) (delete id last) (id :: next) (order ++ [Reused b])
            | None =>
                if bool_decide (id ∈ next) then
                  Err (Dupes id, foldl (fun l e => match e with Reused b => <[b_id b := b]> l | Fresh _ => l end) last order)
                else locate its (S index) last (id :: next) (order ++ [Fresh id])
            end
      end
  end.

(** One block that is not in the collection any more. *)
Definition leave (b : block) (s : st) : st :=
  let elements := getBlockElements (b_start b) (b_end b) (dom s) in
  St (filter (fun n => n ∉ elements) (dom s)) (elements ++ ng_removed s) (lastBlockMap s) (next_node s) (next_scope s)
     (b_scope b :: destroyed s) (rows s).

Definition leave_all (last : gmap string block) (s : st) : st := foldl (fun s e => leave e.2 s) s (map_to_list last).

(** [nextSibling], past the nodes that are removed. *)
Definition nextNode (previousNode : nat) (s : st) : option nat :=
  head (filter (fun n => n ∉ ng_removed s) (following previousNode (dom s))).

Definition row_of (value key : jsval) (index length : nat) : row :=
  let first := (index =? 0)%nat in
  let last := (index =? length - 1)%nat in
  Row value key index first last (negb (first || last)) (Nat.odd index) (Nat.even index).

(** One round of the last loop: the block, and the state with its nodes in
    place and its scope's variables set. *)
Definition place_one (previousNode : nat) (item : jsval * jsval) (index length : nat) (e : entry) (s : st) : block * st :=
  match e with
  | Reused b =>
      let s :=
        if bool_decide (Some (b_start b) = nextNode previousNode s) then s
        else set_dom (after previousNode (getBlockElements (b_start b) (b_end b) (dom s)) (dom s)) s in
      (b, set_row (b_scope b) (row_of item.2 item.1 index length) s)
  | Fresh id =>
      let clone := seq (next_node s) (S template) in
      let b := Block id (next_node s) (next_node s + template) (next_scope s) in
      let s := St (after previousNode clone (dom s)) (ng_removed s) (lastBlockMap s) (next_node s + S template)
                  (S (next_scope s)) (destroyed s) (rows s) in
      (b, set_row (b_scope b) (row_of item.2 item.1 index length) s)
  end.

Fixpoint place (previousNode : nat) (its : list (jsval * jsval)) (index length : nat) (order : list entry) (s : st) :
  list block * st :=
  match its, order with
  | item :: its, e :: order =>
      let (b, s) := place_one previousNode item index length e s in
      let (bs, s) := place (b_end b) its (S index) length order s in
      (b :: bs, s)
  | _, _ => ([], s)
  end.

Definition block_map (bs : list block) : gmap string block := list_to_map (map (fun b => (b_id b, b)) bs).

(** [nextBlockMap] in the end: an object literal, in which a block of the id
    [__proto__] becomes the prototype. *)
Definition next_map (bs : list block) : gmap string block := delete "__proto__" (block_map bs).

Definition ngRepeatAction (c : collection) (s : st) : st * result err unit :=
  if negb (enumerable c) then (s, Err NotAFunction) else
  let its := items c in
  match locate its 0 (lastBlockMap s) [] [] with
  | Err (e, last) => (set_last last s, Err e)
  | Ok (order, last) =>
      let s := leave_all last s in
      let (bs, s) := place anchor its 0 (length its) order s in
      (set_last (next_map bs) s, Ok tt)
  end.
End Action.

(** *** Lemmas: nodes *)

Lemma remove_node_notin n l : n ∉ l -> remove_node n l = l.
Proof.
  induction l as [|m l IH]; intros Hn; [done|]. apply not_elem_of_cons in Hn as [Hm Hn].
  unfold remove_node in *. rewrite filter_cons, decide_True by done. by rewrite IH.
Qed.

Lemma insert_after_spec A p n D : p ∉ A -> insert_after p n (A ++ p :: D) = A ++ p :: n :: D.
Proof.
  induction A as [|m A IH]; intros Hp; simpl; [by rewrite decide_True|].
  apply not_elem_of_cons in Hp as [Hm Hp]. rewrite decide_False by done. by rewrite IH.
Qed.

Lemma after_spec ns A p D : NoDup (A ++ p :: D) -> NoDup ns -> (forall n, n ∈ ns -> (n ∉ A) /\ n <> p) ->
  after p ns (A ++ p :: D) = A ++ p :: ns ++ filter (fun n => n ∉ ns) D.
Proof.
  revert A p D. induction ns as [|n ns IH]; intros A p D Hd Hns Hn; cbn [after].
  { f_equal. f_equal. symmetry. apply filter_keep, Forall_forall. intros ??. apply not_elem_of_nil. }
  apply NoDup_cons in Hns as [Hnn Hns]. destruct (Hn n) as [HA Hp]; [apply elem_of_cons; by left|].
  pose proof Hd as (HdA & HpA & HdD)%NoDup_app. apply NoDup_cons in HdD as [HpD HdD].
  assert (Hp' : p ∉ A) by (intros H; apply (HpA p H), elem_of_cons; by left).
  replace (remove_node n (A ++ (p :: D))) with (A ++ p :: remove_node n D).
  2:{ unfold remove_node. rewrite filter_app, filter_cons, decide_True by done. f_equal. symmetry. by apply remove_node_notin. }
  rewrite insert_after_spec by done.
  replace (A ++ p :: n :: remove_node n D) with ((A ++ [p]) ++ n :: remove_node n D) by (by rewrite <- app_assoc).
  assert (HnD : n ∉ remove_node n D) by (intros H; unfold remove_node in H; by apply list_elem_of_filter in H as [? _]).
  rewrite IH; [| |done|].
  - rewrite <- app_assoc. simpl. f_equal. f_equal. f_equal. f_equal. unfold remove_node. rewrite list_filter_filter.
    apply list_filter_iff. intros x. rewrite not_elem_of_cons. tauto.
  - apply NoDup_app. split_and!.
    + apply NoDup_app. split_and!; [done|intros x Hx ->%list_elem_of_singleton; done|apply NoDup_singleton].
    + intros x [Hx| ->%list_elem_of_singleton]%elem_of_app.
      * intros [->|Hx']%elem_of_cons; [done|]. unfold remove_node in Hx'. apply list_elem_of_filter in Hx' as [_ Hx'].
        apply (HpA x Hx), elem_of_cons. by right.
      * intros [->|Hx']%elem_of_cons; [done|]. unfold remove_node in Hx'. by apply list_elem_of_filter in Hx' as [_ Hx'].
    + apply NoDup_cons. split; [done|]. by apply NoDup_filter.
  - intros m Hm. destruct (Hn m) as [HmA Hmp]; [apply elem_of_cons; by right|]. split; [|by intros ->].
    intros [Hx| ->%list_elem_of_singleton]%elem_of_app; done.
Qed.

Lemma following_spec A p D : p ∉ A -> following p (A ++ p :: D) = D.
Proof.
  induction A as [|m A IH]; intros Hp; simpl; [by rewrite decide_True|].
  apply not_elem_of_cons in Hp as [Hm Hp]. rewrite decide_False by done. by apply IH.
Qed.

Lemma upto_spec A l D : l ∉ A -> upto l (A ++ l :: D) = A ++ [l].
Proof.
  induction A as [|m A IH]; intros Hp; simpl; [by rewrite decide_True|].
  apply not_elem_of_cons in Hp as [Hm Hp]. rewrite decide_False by done. by rewrite IH.
Qed.

(** The nodes of a block: they start and end where the block says. *)
Definition spans (b : block) (ns : list nat) : Prop :=
  ns = [b_start b] /\ b_end b = b_start b \/ exists mid, ns = b_start b :: mid ++ [b_end b].

Lemma getBlockElements_spec b ns A D : spans b ns -> NoDup (A ++ ns ++ D) ->
  getBlockElements (b_start b) (b_end b) (A ++ ns ++ D) = ns.
Proof.
  intros Hs Hd. unfold getBlockElements. destruct Hs as [[-> ->]|[mid ->]]; [by rewrite decide_True|].
  cbn [app] in *. apply NoDup_app in Hd as (_ & HA & [Hst Hd]%NoDup_cons).
  rewrite decide_False by (intros Heq; apply Hst; rewrite Heq; apply elem_of_app; left; apply elem_of_app; right; apply list_elem_of_here).
  rewrite following_spec by (intros H; apply (HA _ H), list_elem_of_here).
  rewrite <- app_assoc in *. cbn [app] in *. rewrite upto_spec; [done|].
  apply NoDup_app in Hd as (_ & Hd & _). intros H. apply (Hd _ H), list_elem_of_here.
Qed.

(** *** Lemmas: the rows between their siblings *)

Section Rows.
Context (anchor template : nat) (pre rest : list nat).

Abbreviation seg := (block * list nat)%type.

Definition nodes_of (segs : list seg) : list nat := concat (map snd segs).

(** The rows are [segs], in order, after the anchor; ids and scopes are
    distinct; numbers not used yet are fresh. *)
Record wf (segs : list seg) (s : st) : Prop := Wf {
  wf_dom : dom s = pre ++ anchor :: nodes_of segs ++ rest;
  wf_nodup : NoDup (dom s);
  wf_spans : Forall (fun sg => spans sg.1 sg.2) segs;
  wf_ids : NoDup (map (fun sg => b_id sg.1) segs);
  wf_scopes : NoDup (map (fun sg => b_scope sg.1) segs);
  wf_scope : Forall (fun sg => (b_scope sg.1 < next_scope s)%nat) segs;
  wf_next : Forall (fun n => (n < next_node s)%nat) (dom s);
  wf_gone : Forall (fun n => (n < next_node s)%nat) (ng_removed s);
  wf_here : Forall (fun n => n ∉ ng_removed s) (dom s)
}.

(** The node after which the next row goes. *)
Definition end_of (segs : list seg) : nat := match last segs with Some sg => b_end sg.1 | None => anchor end.

Lemma nodes_of_app a b : nodes_of (a ++ b) = nodes_of a ++ nodes_of b.
Proof. unfold nodes_of. by rewrite map_app, concat_app. Qed.

Lemma nodes_of_cons b ns segs : nodes_of ((b, ns) :: segs) = ns ++ nodes_of segs.
Proof. done. Qed.

Lemma spans_end b ns : spans b ns -> exists A, ns = A ++ [b_end b].
Proof. intros [[-> ->]|[mid ->]]; [by exists []|by exists (b_start b :: mid)]. Qed.

Lemma spans_start b ns : spans b ns -> exists D, ns = b_start b :: D.
Proof. intros [[-> _]|[mid ->]]; by eexists. Qed.

Lemma end_of_split segs : Forall (fun sg => spans sg.1 sg.2) segs ->
  exists A, pre ++ anchor :: nodes_of segs = A ++ [end_of segs].
Proof.
  intros H. unfold end_of. destruct (last segs) as [[b ns]|] eqn:Hl.
  - apply last_Some in Hl as [l ->]. apply Forall_app in H as [_ [Hs _]%Forall_cons]. simpl in Hs.
    apply spans_end in Hs as [A ->]. exists (pre ++ anchor :: nodes_of l ++ A).
    rewrite nodes_of_app, nodes_of_cons. change (nodes_of []) with (@nil nat).
    by rewrite app_nil_r, <- !app_assoc, <- app_comm_cons, <- !app_assoc.
  - apply last_None in Hl as ->. by exists pre.
Qed.

Lemma end_of_nodes P A Q : pre ++ anchor :: nodes_of P = A ++ [end_of P] ->
  pre ++ anchor :: nodes_of (P ++ Q) ++ rest = A ++ end_of P :: nodes_of Q ++ rest.
Proof. intros HA. by rewrite nodes_of_app, <- app_assoc, app_comm_cons, app_assoc, HA, <- app_assoc. Qed.

(** Removing a row. *)
Lemma leave_wf S1 b ns S2 s : wf (S1 ++ (b, ns) :: S2) s ->
  wf (S1 ++ S2) (leave b s) /\ destroyed (leave b s) = b_scope b :: destroyed s.
Proof.
  intros [Hd Hnd Hsp Hids Hsc Hscl Hn Hg Hh]. split; [|done].
  assert (Hns : spans b ns) by (apply Forall_app in Hsp as [_ [Hsp _]%Forall_cons]; done).
  assert (Hdom : dom s = (pre ++ anchor :: nodes_of S1) ++ ns ++ (nodes_of S2 ++ rest)).
  { rewrite Hd, nodes_of_app, nodes_of_cons, <- !app_assoc. cbn [app]. by rewrite <- ?app_assoc. }
  assert (Hel : getBlockElements (b_start b) (b_end b) (dom s) = ns).
  { rewrite Hdom. apply getBlockElements_spec; [done|by rewrite <- Hdom]. }
  assert (Hfil : filter (fun n => n ∉ ns) (dom s) = pre ++ anchor :: nodes_of (S1 ++ S2) ++ rest).
  { rewrite Hdom in Hnd |- *. rewrite filter_segment by done. rewrite nodes_of_app, <- !app_assoc. cbn [app]. by rewrite <- ?app_assoc. }
  assert (Hsub : forall P : nat -> Prop, Forall P (dom s) -> Forall P (filter (fun n => n ∉ ns) (dom s))).
  { intros P HP. rewrite !Forall_forall in *. intros x [_ Hx]%list_elem_of_filter. by apply HP. }
  assert (Hins : Forall (fun n => n ∈ dom s) ns).
  { apply Forall_forall. intros x Hx. rewrite Hdom. set_solver. }
  unfold leave. rewrite Hel.
  assert (Hmap : forall {A} (f : seg -> A), NoDup (map f (S1 ++ (b, ns) :: S2)) -> NoDup (map f (S1 ++ S2))).
  { intros A f. rewrite !map_app. simpl. rewrite <- Permutation_middle. by intros [_ H]%NoDup_cons. }
  split; cbn [dom ng_removed next_node next_scope].
  - done.
  - by apply NoDup_filter.
  - apply Forall_app in Hsp as [H1 [_ H2]%Forall_cons]. by apply Forall_app.
  - by apply Hmap.
  - by apply Hmap.
  - apply Forall_app in Hscl as [H1 [_ H2]%Forall_cons]. by apply Forall_app.
  - by apply Hsub.
  - apply Forall_app. split; [|done]. eapply Forall_impl; [exact Hins|]. intros x Hx. by eapply Forall_forall in Hn.
  - apply Forall_forall. intros x [Hx1 Hx2]%list_elem_of_filter [Hx|Hx]%elem_of_app; [done|]. eapply Forall_forall in Hh; done.
Qed.

(** Removing the rows of a list of blocks. *)
Lemma leave_list_wf (l : list (string * block)) segs s :
  wf segs s -> NoDup (map fst l) -> (forall k b, (k, b) ∈ l -> k = b_id b /\ b ∈ map fst segs) ->
  let s' := foldl (fun s e => leave e.2 s) s l in
  wf (filter (fun sg => b_id sg.1 ∉ map fst l) segs) s' /\
  (forall n, n ∈ destroyed s' <-> n ∈ destroyed s \/ exists e, e ∈ l /\ b_scope e.2 = n) /\
  next_scope s' = next_scope s /\ rows s' = rows s.
Proof.
  revert segs s. induction l as [|[k b] l IH]; intros segs s Hw Hnd Hl; cbn zeta in *; simpl.
  { split_and!; [|set_solver|done|done]. rewrite filter_keep; [done|]. apply Forall_forall. set_solver. }
  apply NoDup_cons in Hnd as [Hk Hnd]. simpl in Hk.
  destruct (Hl k b) as [-> Hb]; [apply list_elem_of_here|].
  apply list_elem_of_fmap in Hb as ([b' ns] & -> & (S1 & S2 & ->)%list_elem_of_split). simpl in *.
  destruct (leave_wf _ _ _ _ _ Hw) as [Hw' Hdes].
  pose proof (wf_ids _ _ Hw) as Hids. rewrite map_app in Hids. simpl in Hids.
  assert (Hids' : b_id b' ∉ map (fun sg => b_id sg.1) (S1 ++ S2)).
  { rewrite map_app. rewrite <- Permutation_middle in Hids. by apply NoDup_cons in Hids as [? _]. }
  destruct (IH (S1 ++ S2) (leave b' s) Hw' Hnd) as (H1 & H2 & H3 & H4).
  { intros k' b0 Hin. destruct (Hl k' b0) as [-> Hb0]; [by apply list_elem_of_further|]. split; [done|].
    rewrite map_app in *. simpl in Hb0. apply elem_of_app in Hb0 as [Hb0|Hb0]; [apply elem_of_app; by left|].
    apply elem_of_cons in Hb0 as [->|Hb0]; [|apply elem_of_app; by right].
    exfalso. apply Hk. apply (list_elem_of_fmap_2 fst) in Hin. done. }
  split_and!; [|intros n; rewrite H2, Hdes; set_solver|done|done].
  replace (filter _ (S1 ++ (b', ns) :: S2)) with (filter (fun sg : seg => b_id sg.1 ∉ map fst l) (S1 ++ S2)); [done|].
  rewrite !filter_app, filter_cons, decide_False by (simpl; set_solver).
  rewrite <- !filter_app. apply filter_ext_in, Forall_forall. intros sg Hsg. rewrite not_elem_of_cons.
  assert (b_id sg.1 <> b_id b'); [|tauto]. intros Heq. apply Hids'. rewrite <- Heq.
  by apply (list_elem_of_fmap_2 (fun sg : seg => b_id sg.1)).
Qed.

(** Putting the rows in another order. *)
Lemma wf_reorder segs segs' s : wf segs s -> segs' ≡ₚ segs -> wf segs' (set_dom (pre ++ anchor :: nodes_of segs' ++ rest) s).
Proof.
  intros [Hd Hnd Hsp Hids Hsc Hscl Hn Hg Hh] Hp.
  assert (Hdom : pre ++ anchor :: nodes_of segs' ++ rest ≡ₚ dom s).
  { rewrite Hd. unfold nodes_of. rewrite <- !flat_map_concat_map. by rewrite (Permutation_flat_map snd Hp). }
  split; cbn [dom set_dom ng_removed next_node next_scope]; rewrite ?Hdom; try rewrite Hp; done.
Qed.

Lemma place_reused P U1 b ns U2 item index length s :
  wf (P ++ U1 ++ (b, ns) :: U2) s ->
  let (b', s') := place_one template (end_of P) item index length (Reused b) s in
  b' = b /\ wf (P ++ (b, ns) :: U1 ++ U2) s' /\ destroyed s' = destroyed s /\ next_scope s' = next_scope s /\
  rows s' = <[b_scope b := row_of item.2 item.1 index length]> (rows s).
Proof.
  intros Hw. pose proof Hw as [Hd Hnd Hsp Hids Hsc Hscl Hn Hg Hh].
  assert (Hp : P ++ (b, ns) :: U1 ++ U2 ≡ₚ P ++ U1 ++ (b, ns) :: U2) by by rewrite Permutation_middle.
  pose proof (wf_reorder _ _ _ Hw Hp) as Hw'.
  destruct (end_of_split P) as [A HA]; [by apply Forall_app in Hsp as [? _]|].
  assert (Hns : spans b ns) by (apply Forall_app in Hsp as [_ [_ [H _]%Forall_cons]%Forall_app]; done).
  assert (Hdom : dom s = A ++ end_of P :: (nodes_of U1 ++ ns ++ nodes_of U2 ++ rest)).
  { rewrite Hd, (end_of_nodes _ _ _ HA), nodes_of_app, nodes_of_cons. by rewrite <- !app_assoc. }
  assert (Hdom' : pre ++ anchor :: nodes_of (P ++ (b, ns) :: U1 ++ U2) ++ rest =
                  A ++ end_of P :: (ns ++ nodes_of U1 ++ nodes_of U2 ++ rest)).
  { rewrite (end_of_nodes _ _ _ HA), nodes_of_cons, nodes_of_app. by rewrite <- !app_assoc. }
  pose proof Hnd as Hnd'. rewrite Hdom in Hnd'. pose proof Hnd' as (HndA & HA' & [HpD HndD]%NoDup_cons)%NoDup_app.
  assert (HpA : end_of P ∉ A) by (intros H; apply (HA' _ H), list_elem_of_here).
  assert (Hnext : nextNode (end_of P) s = head (nodes_of U1 ++ ns ++ nodes_of U2 ++ rest)).
  { unfold nextNode. rewrite Hdom, following_spec by done. rewrite filter_keep; [done|].
    rewrite Hdom in Hh. by apply Forall_app in Hh as [_ [_ Hh]%Forall_cons]. }
  destruct (spans_start _ _ Hns) as [D HD]. unfold place_one. rewrite Hnext.
  assert (Hrow : forall segs s r n, wf segs s -> wf segs (set_row n r s)) by (intros segs s0 r n []; by split).
  destruct U1 as [|[b0 ns0] U1].
  - assert (Hh0 : head (nodes_of [] ++ ns ++ nodes_of U2 ++ rest) = Some (b_start b)) by by rewrite HD.
    rewrite Hh0, bool_decide_eq_true_2 by done. split_and!; [done|by apply Hrow|done..].
  - assert (Hb0 : spans b0 ns0) by (apply Forall_app in Hsp as [_ [H _]%Forall_cons]; done).
    destruct (spans_start _ _ Hb0) as [D0 HD0].
    rewrite bool_decide_eq_false_2.
    2:{ rewrite nodes_of_cons, HD0. intros [= Heq]. rewrite nodes_of_cons, HD0, HD, <- Heq in HndD. cbn [app] in HndD.
        apply NoDup_cons in HndD as [HndD _]. apply HndD. set_solver. }
    assert (Hel : getBlockElements (b_start b) (b_end b) (dom s) = ns).
    { rewrite Hdom, app_comm_cons, app_assoc. apply getBlockElements_spec; [done|].
      by rewrite <- app_assoc, <- app_comm_cons, <- Hdom. }
    rewrite Hel. assert (Haf : after (end_of P) ns (dom s) = pre ++ anchor :: nodes_of (P ++ (b, ns) :: ((b0, ns0) :: U1) ++ U2) ++ rest).
    { rewrite Hdom', Hdom. rewrite after_spec; [|done| |].
      - f_equal. f_equal. f_equal. by apply filter_segment.
      - by apply NoDup_app in HndD as (_ & _ & (? & _ & _)%NoDup_app).
      - intros n Hn'. split; [intros H; apply (HA' _ H)|intros ->; apply HpD]; set_solver. }
    rewrite Haf. split_and!; [done|by apply Hrow|done..].
Qed.

Lemma place_fresh P U id item index length s :
  wf (P ++ U) s -> id ∉ map (fun sg => b_id sg.1) (P ++ U) ->
  let (b, s') := place_one template (end_of P) item index length (Fresh id) s in
  b_id b = id /\ b_scope b = next_scope s /\ next_scope s' = S (next_scope s) /\ destroyed s' = destroyed s /\
  wf (P ++ (b, seq (next_node s) (S template)) :: U) s' /\
  rows s' = <[b_scope b := row_of item.2 item.1 index length]> (rows s).
Proof.
  intros Hw Hid. pose proof Hw as [Hd Hnd Hsp Hids Hsc Hscl Hn Hg Hh]. unfold place_one.
  set (clone := seq (next_node s) (S template)). set (b := Block id _ _ _). split_and!; [done..| |done].
  destruct (end_of_split P) as [A HA]; [by apply Forall_app in Hsp as [? _]|].
  assert (Hdom : dom s = A ++ end_of P :: (nodes_of U ++ rest)).
  { by rewrite Hd, (end_of_nodes _ _ _ HA). }
  assert (Hnew : forall n, n ∈ clone -> (next_node s <= n < next_node s + S template)%nat) by (intros n; unfold clone; by rewrite list_elem_of_In, in_seq).
  assert (Hout : forall n, n ∈ clone -> n ∉ dom s).
  { intros n Hc Hin. eapply Forall_forall in Hn; [|done]. apply Hnew in Hc. lia. }
  assert (Hcl : NoDup clone) by (apply NoDup_ListNoDup, seq_NoDup).
  assert (Haf : after (end_of P) clone (dom s) = pre ++ anchor :: nodes_of (P ++ (b, clone) :: U) ++ rest).
  { rewrite Hdom in Hnd, Hout |- *. rewrite after_spec; [|done|done|].
    - rewrite filter_keep by (apply Forall_forall; intros n Hin Hc; apply (Hout n Hc); set_solver).
      by rewrite (end_of_nodes _ _ _ HA), nodes_of_cons, <- app_assoc.
    - intros n Hc. specialize (Hout n Hc). set_solver. }
  assert (Hperm : pre ++ anchor :: nodes_of (P ++ (b, clone) :: U) ++ rest ≡ₚ clone ++ dom s).
  { rewrite Hd, !nodes_of_app, nodes_of_cons. rewrite <- !app_assoc. solve_Permutation. }
  assert (Hmap : forall {B} (f : seg -> B), NoDup (map f (P ++ U)) -> f (b, clone) ∉ map f (P ++ U) -> NoDup (map f (P ++ (b, clone) :: U))).
  { intros B f H1 H2. rewrite map_app in *. cbn [map]. rewrite <- Permutation_middle. by apply NoDup_cons. }
  assert (Hin : forall Q : seg -> Prop, Forall Q (P ++ U) -> Q (b, clone) -> Forall Q (P ++ (b, clone) :: U)).
  { intros Q H1 H2. rewrite <- Permutation_middle. by constructor. }
  assert (Hlt : forall l, Forall (fun n => (n < next_node s)%nat) l -> Forall (fun n => (n < next_node s + S template)%nat) l).
  { intros l Hl. eapply Forall_impl; [exact Hl|]. simpl. lia. }
  split; cbn [dom set_row ng_removed next_node next_scope]; rewrite ?Haf, ?Hperm; try done.
  - by apply NoDup_app.
  - apply Hin; [done|]. unfold spans. simpl. destruct template as [|t]; [left; simpl; split; [done|lia]|right].
    exists (seq (S (next_node s)) t). unfold clone. rewrite seq_S. simpl. by do 3 f_equal.
  - by apply Hmap.
  - apply Hmap; [done|]. simpl. intros (sg & Heq & Hsg)%list_elem_of_fmap. eapply Forall_forall in Hscl; [|done]. lia.
  - apply Hin; [|simpl; lia]. eapply Forall_impl; [exact Hscl|]. simpl. lia.
  - apply Forall_app. split; [apply Forall_forall; intros n Hc; apply Hnew in Hc; lia|by apply Hlt].
  - by apply Hlt.
  - apply Forall_app. split; [|done]. apply Forall_forall. intros n Hc Hg'. apply Hnew in Hc. eapply Forall_forall in Hg; [|done]. lia.
Qed.

(** Whether a block of the result is the one the entry names. *)
Definition from_entry (n : nat) (e : entry) (b : block) : Prop :=
  b_id b = entry_id e /\ match e with Reused b' => b = b' | Fresh _ => (n <= b_scope b)%nat end.

(** What remains to be placed after an entry. *)
Definition remains (e : entry) (sg : seg) (U U' : list seg) : Prop :=
  match e with Reused _ => U ≡ₚ sg :: U' | Fresh _ => U' = U end.

Lemma place_one_spec e P U item index length s :
  wf (P ++ U) s -> match e with Reused b => b ∈ map fst U | Fresh id => id ∉ map (fun sg => b_id sg.1) (P ++ U) end ->
  let (b, s') := place_one template (end_of P) item index length e s in
  exists ns U', wf (P ++ (b, ns) :: U') s' /\ from_entry (next_scope s) e b /\ remains e (b, ns) U U' /\
  destroyed s' = destroyed s /\ (next_scope s <= next_scope s')%nat /\
  rows s' = <[b_scope b := row_of item.2 item.1 index length]> (rows s).
Proof.
  intros Hw He. destruct e as [b|id].
  - apply list_elem_of_fmap in He as ([b' ns] & -> & (U1 & U2 & ->)%list_elem_of_split). cbn [fst] in *.
    pose proof (place_reused P U1 b' ns U2 item index length s Hw) as H.
    destruct (place_one _ _ _ _ _ _ _) as [b s']. destruct H as (-> & Hw' & Hd & Hn & Hr).
    exists ns, (U1 ++ U2). split_and!; try done; [simpl; symmetry; apply Permutation_middle|lia].
  - pose proof (place_fresh P U id item index length s Hw He) as H.
    destruct (place_one _ _ _ _ _ _ _) as [b s']. destruct H as (Hid & Hsc & Hn & Hd & Hw' & Hr).
    exists (seq (next_node s) (S template)), U. split_and!; try done; [split; [done|simpl; lia]|lia].
Qed.

Lemma end_of_snoc P b ns : end_of (P ++ [(b, ns)]) = b_end b.
Proof. unfold end_of. by rewrite last_snoc. Qed.

(** What the last loop does with the entries of [nextBlockOrder]. *)
Definition placed (P U : list seg) (its : list (jsval * jsval)) (index len : nat) (order : list entry) (s : st)
  (bs : list block) (s' : st) : Prop :=
  exists Q, wf (P ++ Q) s' /\ map fst Q = bs /\ Forall2 (from_entry (next_scope s)) order bs /\
  (forall sg, sg ∈ Q -> sg ∈ U \/ (next_scope s <= b_scope sg.1)%nat) /\
  destroyed s' = destroyed s /\
  (forall i b, bs !! i = Some b ->
     exists item, its !! i = Some item /\ rows s' !! b_scope b = Some (row_of item.2 item.1 (index + i) len)) /\
  (forall n, n ∉ map b_scope bs -> rows s' !! n = rows s !! n).

Lemma remains_split P U U' b ns e order s s1 n :
  wf (P ++ U) s -> wf ((P ++ [(b, ns)]) ++ U') s1 -> from_entry n e b -> remains e (b, ns) U U' ->
  entry_id e ∉ map entry_id order ->
  (forall sg, sg ∈ U -> Reused sg.1 ∈ e :: order) ->
  (forall e', e' ∈ e :: order -> match e' with Reused b => b ∈ map fst U
                                 | Fresh id => id ∉ map (fun sg => b_id sg.1) (P ++ U) end) ->
  (forall sg, sg ∈ U' -> Reused sg.1 ∈ order) /\
  (forall e', e' ∈ order -> match e' with Reused b' => b' ∈ map fst U'
                            | Fresh id => id ∉ map (fun sg => b_id sg.1) ((P ++ [(b, ns)]) ++ U') end).
Proof.
  intros Hw Hw1 [Hid Hb] Hrem Hnin HU Ho. pose proof (wf_ids _ _ Hw1) as Hids.
  assert (Hfresh : forall e', e' ∈ order -> entry_id e' <> entry_id e).
  { intros e' He' Heq. apply Hnin. rewrite <- Heq. by apply list_elem_of_fmap_2. }
  assert (Hsplit : map (fun sg : seg => b_id sg.1) ((P ++ [(b, ns)]) ++ U') ≡ₚ b_id b :: map (fun sg => b_id sg.1) (P ++ U')).
  { rewrite !map_app. simpl. solve_Permutation. }
  destruct e as [b0|id]; simpl in *.
  - subst b0. split.
    + intros sg Hsg. assert (HsgU : sg ∈ U) by (rewrite Hrem; by apply list_elem_of_further).
      apply HU in HsgU as [[= Heq]|?]%elem_of_cons; [|done]. exfalso. rewrite Hsplit in Hids.
      apply NoDup_cons in Hids as [Hids _]. apply Hids. rewrite map_app. apply elem_of_app. right. rewrite <- Heq.
      by apply (list_elem_of_fmap_2 (fun sg : seg => b_id sg.1)).
    + intros e' He'. pose proof (Ho e' ltac:(by apply list_elem_of_further)) as H. destruct e' as [b'|id'].
      * assert (Hm : map fst U ≡ₚ b :: map fst U') by (rewrite Hrem; done). rewrite Hm in H.
        apply elem_of_cons in H as [->|H]; [|done]. by destruct (Hfresh _ He').
      * rewrite Hsplit. rewrite Hrem in H. rewrite map_app in *. simpl in H. set_solver.
  - subst U'. split.
    + intros sg Hsg. by apply HU in Hsg as [[= ?]|?]%elem_of_cons.
    + intros e' He'. pose proof (Ho e' ltac:(by apply list_elem_of_further)) as H. destruct e' as [b'|id']; [done|].
      rewrite Hsplit. apply not_elem_of_cons. split; [|done]. rewrite Hid. by apply (Hfresh (Fresh id')).
Qed.

Lemma place_spec order P U its index len s :
  wf (P ++ U) s -> NoDup (map entry_id order) -> length its = length order ->
  (forall sg, sg ∈ U -> Reused sg.1 ∈ order) ->
  (forall e, e ∈ order -> match e with Reused b => b ∈ map fst U | Fresh id => id ∉ map (fun sg => b_id sg.1) (P ++ U) end) ->
  let (bs, s') := place template (end_of P) its index len order s in placed P U its index len order s bs s'.
Proof.
  revert P U its index s. induction order as [|e order IH]; intros P U its index s Hw Hnd Hlen HU Ho.
  { destruct its; [|done]. assert (U = []) as -> by (apply elem_of_nil_inv; intros sg Hsg; by apply HU, not_elem_of_nil in Hsg).
    exists []. split_and!; [done|done|constructor|by intros ? ?%not_elem_of_nil|done|done|done]. }
  destruct its as [|item its]; [done|]. cbn [place].
  pose proof (place_one_spec e P U item index len s Hw (Ho e ltac:(apply list_elem_of_here))) as H1.
  destruct (place_one _ _ _ _ _ _ _) as [b s1]. destruct H1 as (ns & U' & Hw1 & Hfrom & Hrem & Hd1 & Hn1 & Hr1).
  rewrite <- (end_of_snoc P b ns). cbn [map] in Hnd. apply NoDup_cons in Hnd as [Hnin Hnd].
  replace (P ++ (b, ns) :: U') with ((P ++ [(b, ns)]) ++ U') in Hw1 by by rewrite <- app_assoc.
  assert (Hsplit : (forall sg, sg ∈ U' -> Reused sg.1 ∈ order) /\
    (forall e', e' ∈ order -> match e' with Reused b' => b' ∈ map fst U'
                              | Fresh id => id ∉ map (fun sg => b_id sg.1) ((P ++ [(b, ns)]) ++ U') end))
    by (by eapply remains_split).
  specialize (IH (P ++ [(b, ns)]) U' its (S index) s1 Hw1 Hnd ltac:(simpl in Hlen; lia) (proj1 Hsplit) (proj2 Hsplit)).
  destruct (place _ _ _ _ _ _ _) as [bs s2]. destruct IH as (Q & Hw2 & HQ & HF & Hold & Hd2 & Hrows & Hsame).
  exists ((b, ns) :: Q). rewrite <- app_assoc in Hw2. cbn [app] in Hw2.
  assert (Hsc : b_scope b ∉ map b_scope bs).
  { pose proof (wf_scopes _ _ Hw2) as Hn. rewrite map_app in Hn. cbn [map] in Hn.
    apply NoDup_app in Hn as (_ & _ & [Hn _]%NoDup_cons). by rewrite <- HQ, map_map. }
  split_and!.
  - done.
  - simpl. by rewrite HQ.
  - constructor; [done|]. eapply Forall2_impl; [exact HF|]. intros e' b' [Hid Hb]. split; [done|]. destruct e'; [done|lia].
  - intros sg [->|Hsg]%elem_of_cons.
    + destruct e as [b0|id]; [left|right; apply Hfrom]. simpl in Hrem. rewrite Hrem. apply list_elem_of_here.
    + destruct (Hold sg Hsg) as [HU'|Hn]; [left|right; lia].
      destruct e; simpl in Hrem; [rewrite Hrem; by apply list_elem_of_further|by subst].
  - congruence.
  - intros [|i] b' Hb'; simpl in Hb'.
    + injection Hb' as <-. exists item. split; [done|]. rewrite Hsame by done. rewrite Hr1, lookup_insert_eq, Nat.add_0_r. done.
    + destruct (Hrows i b' Hb') as (it & Hit & Hrow). exists it. split; [done|]. by replace (index + S i)%nat with (S index + i)%nat by lia.
  - intros n [Hn1' Hn2]%not_elem_of_cons. rewrite Hsame by done. rewrite Hr1. by rewrite lookup_insert_ne.
Qed.
End Rows.

(** *** Lemmas: finding the blocks *)

Section Locate.
Context (trackById : jsval -> jsval -> nat -> option string).

(** The ids of the items. *)
Fixpoint track_ids (its : list (jsval * jsval)) (index : nat) : option (list string) :=
  match its with
  | [] => Some []
  | (key, value) :: its =>
      match trackById key value index, track_ids its (S index) with
      | Some id, Some ids => Some (id :: ids)
      | _, _ => None
      end
  end.

Lemma track_ids_length its index ids : track_ids its index = Some ids -> length its = length ids.
Proof.
  revert index ids. induction its as [|[key value] its IH]; intros index ids; simpl; [by intros [= <-]|].
  destruct (trackById _ _ _); [|done]. destruct (track_ids its _) eqn:E; [|done]. intros [= <-]. simpl. by rewrite (IH _ _ E).
Qed.

Definition entry_of (last : gmap string block) (id : string) : entry :=
  match last !! id with Some b => Reused b | None => Fresh id end.

Lemma locate_ok its index last next order ids :
  track_ids its index = Some ids -> NoDup ids -> (forall id, id ∈ ids -> id ∉ next) -> "hasOwnProperty" ∉ ids -> "__proto__" ∉ ids ->
  exists last', locate trackById its index last next order = Ok (order ++ map (entry_of last) ids, last') /\
    forall k, last' !! k = if decide (k ∈ ids) then None else last !! k.
Proof.
  revert index last next order ids. induction its as [|[key value] its IH]; intros index last next order ids Ht Hnd Hnext Hown Hproto; simpl in Ht.
  { injection Ht as <-. exists last. simpl. rewrite app_nil_r. split; [done|]. done. }
  destruct (trackById key value index) as [id|] eqn:Hid; [|done]. destruct (track_ids its (S index)) as [ids'|] eqn:Hids; [|done].
  injection Ht as <-. apply NoDup_cons in Hnd as [Hn Hnd]. apply not_elem_of_cons in Hown as [Ho Hown].
  apply not_elem_of_cons in Hproto as [Hp Hproto].
  cbn [locate]. rewrite Hid. destruct (String.eqb_spec id "hasOwnProperty"); [congruence|]. destruct (String.eqb_spec id "__proto__"); [congruence|].
  assert (Hnext' : forall i, i ∈ ids' -> i ∉ id :: next).
  { intros i Hi. apply not_elem_of_cons. split; [congruence|]. by apply Hnext, list_elem_of_further. }
  assert (Hrest : forall last2 e, (forall k, k ∈ ids' -> last2 !! k = last !! k) -> e = entry_of last id ->
    (forall k, k ∉ ids' -> last2 !! k = if decide (k ∈ id :: ids') then None else last !! k) ->
    exists last', locate trackById its (S index) last2 (id :: next) (order ++ [e]) = Ok (order ++ map (entry_of last) (id :: ids'), last') /\
      forall k, last' !! k = if decide (k ∈ id :: ids') then None else last !! k).
  { intros last2 e Hl -> Hl2. destruct (IH (S index) last2 (id :: next) (order ++ [entry_of last id]) ids' Hids Hnd Hnext' Hown Hproto) as (last' & -> & Hl').
    exists last'. split.
    - rewrite <- app_assoc. simpl. do 4 f_equal. apply map_ext_in. intros k Hk%list_elem_of_In. unfold entry_of. by rewrite Hl.
    - intros k. rewrite Hl'. destruct (decide (k ∈ ids')) as [Hk|Hk]; [by rewrite decide_True by by apply list_elem_of_further|by apply Hl2]. }
  unfold entry_of in Hrest. destruct (last !! id) as [b|] eqn:Hb.
  - apply Hrest; [intros k Hk; rewrite lookup_delete_ne; congruence|done|]. intros k Hk.
    destruct (decide (k = id)) as [->|Hne]; [by rewrite lookup_delete_eq, decide_True by apply list_elem_of_here|].
    rewrite lookup_delete_ne by done. by rewrite decide_False by (apply not_elem_of_cons; done).
  - rewrite bool_decide_eq_false_2 by by apply Hnext, list_elem_of_here. apply Hrest; [done|done|]. intros k Hk.
    destruct (decide (k = id)) as [->|Hne]; [by rewrite Hb, decide_True by apply list_elem_of_here|].
    by rewrite decide_False by (apply not_elem_of_cons; done).
Qed.

(** What is known of [lastBlockMap] while the blocks are being found. *)
Record taken (order : list entry) (last last0 : gmap string block) : Prop := Taken {
  taken_sub : last ⊆ last0;
  taken_all : forall k b, last0 !! k = Some b -> last !! k = Some b \/ Reused b ∈ order;
  taken_old : forall b, Reused b ∈ order -> last0 !! b_id b = Some b
}.

Definition restore (last : gmap string block) (order : list entry) : gmap string block :=
  foldl (fun l e => match e with Reused b => <[b_id b := b]> l | Fresh _ => l end) last order.

Lemma restore_spec order last last0 : last ⊆ last0 -> (forall b, Reused b ∈ order -> last0 !! b_id b = Some b) ->
  restore last order ⊆ last0 /\ last ⊆ restore last order /\ forall b, Reused b ∈ order -> restore last order !! b_id b = Some b.
Proof.
  revert last. induction order as [|e order IH]; intros last Hsub Ho; [split_and!; [done|done|set_solver]|]. unfold restore in *. cbn [foldl].
  assert (Ho' : forall b, Reused b ∈ order -> last0 !! b_id b = Some b) by (intros; apply Ho; by apply list_elem_of_further).
  destruct e as [b|id].
  - assert (Hb : last0 !! b_id b = Some b) by (apply Ho, list_elem_of_here).
    assert (Hins : <[b_id b := b]> last ⊆ last0) by by apply insert_subseteq_l.
    destruct (IH (<[b_id b := b]> last) Hins Ho') as (H1 & H2 & H3). split_and!; [done| |].
    + etrans; [|exact H2]. apply map_subseteq_spec. intros k b' Hk. destruct (decide (b_id b = k)) as [<-|Hne].
      * rewrite lookup_insert_eq. eapply lookup_weaken in Hk; [|exact Hsub]. congruence.
      * by rewrite lookup_insert_ne.
    + intros b' [[= ->]|Hb']%elem_of_cons; [|by apply H3]. eapply lookup_weaken; [|exact H2]. by rewrite lookup_insert_eq.
  - destruct (IH last Hsub Ho') as (H1 & H2 & H3). split_and!; [done|done|]. intros b' [?|Hb']%elem_of_cons; [done|by apply H3].
Qed.

Lemma locate_dupes its index last next order last0 id l :
  (forall k b, last0 !! k = Some b -> b_id b = k) -> taken order last last0 ->
  locate trackById its index last next order = Err (Dupes id, l) -> l = last0.
Proof.
  intros Hk. revert index last next order. induction its as [|[key value] its IH]; intros index last next order [H1 H2 H3]; cbn [locate]; [done|].
  destruct (trackById key value index) as [i|]; [|done]. destruct (String.eqb i "hasOwnProperty"); [done|].
  destruct (String.eqb i "__proto__").
  { apply IH. split; [done| |].
    - intros k b Hkb. destruct (H2 k b Hkb) as [?|?]; [by left|right; apply elem_of_app; by left].
    - intros b' [Hb'|Hb'%list_elem_of_singleton]%elem_of_app; [by apply H3|done]. }
  destruct (last !! i) as [b|] eqn:Hb.
  - apply IH. assert (Hb0 : last0 !! i = Some b) by by eapply lookup_weaken. split.
    + etrans; [apply delete_subseteq|done].
    + intros k b' Hb'. destruct (H2 k b' Hb') as [Hl|Ho]; [|right; apply elem_of_app; by left].
      destruct (decide (k = i)) as [->|Hne]; [right; apply elem_of_app; right; rewrite Hb in Hl; injection Hl as ->; apply list_elem_of_here|].
      left. by rewrite lookup_delete_ne.
    + intros b' [Hb'|[= ->]%list_elem_of_singleton]%elem_of_app; [by apply H3|]. by rewrite (Hk _ _ Hb0).
  - case_bool_decide.
    + intros [= _ <-]. fold (restore last order). destruct (restore_spec order last last0 H1 H3) as (R1 & R2 & R3).
      apply (anti_symm (⊆)); [done|]. apply map_subseteq_spec. intros k b Hkb.
      destruct (H2 k b Hkb) as [Hl|Ho]; [by eapply lookup_weaken|]. rewrite <- (Hk _ _ Hkb). by apply R3.
    + apply IH. split; [done| |].
      * intros k b Hkb. destruct (H2 k b Hkb) as [?|?]; [by left|right; apply elem_of_app; by left].
      * intros b [Hb'|Hb'%list_elem_of_singleton]%elem_of_app; [by apply H3|done].
Qed.
End Locate.

(** *** Lemmas: the block map *)

Lemma block_map_Some bs k b : block_map bs !! k = Some b -> k = b_id b /\ b ∈ bs.
Proof.
  intros H%elem_of_list_to_map_2. apply list_elem_of_fmap in H as (b' & [= -> ->] & Hb). done.
Qed.

Lemma block_map_in bs b : NoDup (map b_id bs) -> b ∈ bs -> block_map bs !! b_id b = Some b.
Proof.
  intros Hnd Hb. apply elem_of_list_to_map_1.
  - change (NoDup (map fst (map (fun b => (b_id b, b)) bs))). by rewrite map_map.
  - by apply (list_elem_of_fmap_2 (fun b => (b_id b, b))).
Qed.

Lemma block_map_None bs k : block_map bs !! k = None -> k ∉ map b_id bs.
Proof.
  intros H Hk. apply list_elem_of_fmap in Hk as (b & -> & Hb).
  apply not_elem_of_list_to_map in H. apply H. change (b_id b ∈ map fst (map (fun b => (b_id b, b)) bs)).
  rewrite map_map. simpl. by apply (list_elem_of_fmap_2 b_id).
Qed.

(** Removing every block that was not found, then placing those that were. *)
Lemma leave_all_wf anchor pre rest segs s last (ids : list string) :
  wf anchor pre rest segs s ->
  (forall k, last !! k = if decide (k ∈ ids) then None else block_map (map fst segs) !! k) ->
  let s' := leave_all last s in
  wf anchor pre rest (filter (fun sg => b_id sg.1 ∈ ids) segs) s' /\ next_scope s' = next_scope s /\
  (forall n, n ∈ destroyed s' <-> n ∈ destroyed s \/ exists sg, sg ∈ segs /\ (b_id sg.1 ∉ ids) /\ b_scope sg.1 = n).
Proof.
  intros Hw Hl s'. pose proof (wf_ids _ _ _ _ _ Hw) as Hids.
  assert (Hids' : NoDup (map b_id (map fst segs))) by by rewrite map_map.
  assert (Hin : forall k b, (k, b) ∈ map_to_list last <-> (k = b_id b /\ b ∈ map fst segs) /\ k ∉ ids).
  { intros k b. rewrite elem_of_map_to_list, Hl. case_decide as Hk; [naive_solver|]. split.
    - intros H. split; [by apply block_map_Some|done].
    - intros [[-> Hb] _]. by apply block_map_in. }
  assert (Hkeys : forall k, k ∈ map fst (map_to_list last) <-> k ∈ map b_id (map fst segs) /\ k ∉ ids).
  { intros k. rewrite list_elem_of_fmap. split.
    - intros ([k' b] & -> & [[-> Hb] Hk]%Hin). split; [by apply (list_elem_of_fmap_2 b_id _ b)|done].
    - intros [(b & -> & Hb)%list_elem_of_fmap Hk]. exists (b_id b, b). split; [done|]. by apply Hin. }
  destruct (leave_list_wf anchor pre rest (map_to_list last) segs s Hw) as (H1 & H2 & H3 & _).
  { apply NoDup_fst_map_to_list. }
  { intros k b Hkb. by apply Hin in Hkb as [? _]. }
  fold (leave_all last s) in H1, H2, H3. fold s' in H1, H2, H3. split_and!; [|done|].
  - rewrite (filter_ext_in _ (fun sg => b_id sg.1 ∈ ids)) in H1; [done|]. apply Forall_forall. intros sg Hsg.
    rewrite Hkeys. assert (b_id sg.1 ∈ map b_id (map fst segs)).
    { rewrite map_map. by apply (list_elem_of_fmap_2 (fun sg : block * list nat => b_id sg.1)). }
    destruct (decide (b_id sg.1 ∈ ids)); naive_solver.
  - intros n. rewrite H2. f_equiv. split.
    + intros ([k b] & [[-> Hb] Hk]%Hin & <-). apply list_elem_of_fmap in Hb as (sg & -> & Hsg). by exists sg.
    + intros (sg & Hsg & Hk & <-). exists (b_id sg.1, sg.1). split; [|done]. apply Hin. split; [|done].
      split; [done|]. by apply list_elem_of_fmap_2.
Qed.

Lemma entry_of_id (segs : list (block * list nat)) id : entry_id (entry_of (block_map (map fst segs)) id) = id.
Proof. unfold entry_of. destruct (block_map _ !! id) as [b|] eqn:Hb; [|done]. by apply block_map_Some in Hb as [-> _]. Qed.

(** The order found fits the rows left. *)
Lemma order_fits (segs : list (block * list nat)) (ids : list string) :
  NoDup (map (fun sg => b_id sg.1) segs) ->
  let order := map (entry_of (block_map (map fst segs))) ids in
  let left := filter (fun sg => b_id sg.1 ∈ ids) segs in
  (forall sg, sg ∈ left -> Reused sg.1 ∈ order) /\
  (forall e, e ∈ order -> match e with Reused b => b ∈ map fst left | Fresh id => id ∉ map (fun sg => b_id sg.1) ([] ++ left) end).
Proof.
  intros Hnd order left. assert (Hnd' : NoDup (map b_id (map fst segs))) by by rewrite map_map. split.
  - intros sg [Hid Hsg]%list_elem_of_filter. apply list_elem_of_fmap. exists (b_id sg.1). split; [|done].
    unfold entry_of. rewrite block_map_in; [done|done|]. by apply list_elem_of_fmap_2.
  - intros e (id & -> & Hid)%list_elem_of_fmap. unfold entry_of. destruct (block_map _ !! id) as [b|] eqn:Hb.
    + apply block_map_Some in Hb as [-> Hb]. apply list_elem_of_fmap in Hb as (sg & -> & Hsg).
      apply list_elem_of_fmap_2. by apply list_elem_of_filter.
    + apply block_map_None in Hb. simpl. intros (sg & -> & [_ Hsg]%list_elem_of_filter)%list_elem_of_fmap. apply Hb.
      rewrite map_map. by apply (list_elem_of_fmap_2 (fun sg : block * list nat => b_id sg.1)).
Qed.

(** A row whose id is shown again is the same row. *)
Lemma kept_rows anchor pre rest segs s (Q : list (block * list nat)) (left : list (block * list nat)) order n sg :
  wf anchor pre rest segs s -> left ⊆ segs -> n = next_scope s ->
  Forall2 (from_entry n) order (map fst Q) ->
  (forall sg, sg ∈ Q -> sg ∈ left \/ (n <= b_scope sg.1)%nat) ->
  sg ∈ segs -> Reused sg.1 ∈ order -> sg ∈ Q.
Proof.
  intros Hw Hleft -> HF Hold Hsg Ho. apply list_elem_of_lookup in Ho as [i Hi].
  destruct (Forall2_lookup_l _ _ _ _ _ HF Hi) as (b & Hb & [_ ->]).
  apply list_lookup_fmap_Some in Hb as (sg' & Heq & Hi'). apply list_elem_of_lookup_2 in Hi'.
  destruct (Hold sg' Hi') as [Hl|Hn].
  - apply Hleft in Hl. replace sg with sg'; [done|]. pose proof (wf_ids _ _ _ _ _ Hw) as Hids.
    apply list_elem_of_lookup in Hl as [j Hj]. apply list_elem_of_lookup in Hsg as [k Hk].
    assert (j = k) as ->; [|congruence].
    eapply NoDup_lookup; [exact Hids|rewrite list_lookup_fmap, Hj; done|]. rewrite list_lookup_fmap, Hk. simpl. by rewrite Heq.
  - pose proof (wf_scope _ _ _ _ _ Hw) as Hsc. eapply Forall_forall in Hsc; [|exact Hsg]. rewrite <- Heq in Hn. lia.
Qed.
End Repeat.

(** ** Examples *)

Module Demo.
Import Repeat.

(** Rows of two nodes, after node [0]; node [1] follows them. *)
Definition nothing : st := St [0; 1]%nat [] ∅ 2 0 [] ∅.

Definition by_value (key value : jsval) (index : nat) : option string :=
  match value with JStr s => Some s | _ => None end.

Definition show (s : st) (l : list string) : st * result err unit := ngRepeatAction 0 1 by_value (CArray (map JStr l)) s.

Definition abc : st := (show nothing ["a"; "b"; "c"]).1.

Definition abc_rows : list (block * list nat) :=
  [(Block "a" 2 3 0, [2; 3]); (Block "b" 4 5 1, [4; 5]); (Block "c" 6 7 2, [6; 7])]%nat.

Lemma abc_wf : wf 0 [] [1%nat] abc_rows abc.
Proof.
  split; [reflexivity|apply (bool_decide_eq_true_1 _); vm_compute; reflexivity| | | | | | |];
    try (apply (bool_decide_eq_true_1 _); vm_compute; reflexivity).
  repeat (apply Forall_cons; split; [right; by exists []|]). apply Forall_nil. exact I.
Qed.

Example demo_first : dom abc = [0; 2; 3; 4; 5; 6; 7; 1]%nat.
Proof. vm_compute. reflexivity. Qed.
Example demo_reorder : let s := (show abc ["c"; "d"; "a"]).1 in
  dom s = [0; 6; 7; 8; 9; 2; 3; 1]%nat /\ destroyed s = [1]%nat.
Proof. vm_compute. done. Qed.

(** An item whose id throws, or is [hasOwnProperty], loses the rows found
    before it: they stay on the page and no later collection removes them. *)
Example demo_lost :
  let s := (ngRepeatAction 0 1 by_value (CArray [JStr "a"; JNull]) abc).1 in dom (show s []).1 = [0; 2; 3; 1]%nat.
Proof. vm_compute. reflexivity. Qed.

(** A row whose id is [__proto__] never leaves: each run adds one more. *)
Example demo_proto :
  let s := (show nothing ["__proto__"]).1 in dom (show (show s ["__proto__"]).1 []).1 = [0; 4; 5; 2; 3; 1]%nat.
Proof. vm_compute. reflexivity. Qed.
End Demo.

(** ** What watching and repeating promise *)

(** [$watchCollection] is exact: its counter changes precisely when the
    collection is of another kind than the one seen before or differs from it
    in an element or property, and what it has seen is then the collection;
    only [NaN], which is never equal to itself, counts on every run. *)
Theorem watch_collection_exact (newValue : collection) (s : Watch.st) :
  Watch.counted s -> match newValue with CObject ps => NoDup (map fst ps) | _ => True end ->
  let s' := Watch.watch newValue s in
  (Watch.changeDetected s' = Watch.changeDetected s <-> Watch.seen (Watch.oldValue s) newValue) /\
  (newValue <> CPrim JNaN -> Watch.seen (Watch.oldValue s') newValue) /\ Watch.counted s'.
Proof.
  intros Hc Hnd. assert (H : Watch.exact newValue s (Watch.watch newValue s)).
  { destruct newValue; [apply Watch.watch_prim|by apply Watch.watch_array|by apply Watch.watch_object]. }
  destruct H as (H1 & H2 & _ & H4). done.
Qed.

Lemma watch_collection_exact_witness :
  let s := Watch.watch (CObject [("a", JNum 1); ("b", JNaN)]) Watch.initial in
  let c := CObject [("b", JNaN); ("a", JNum 1)] in
  (Watch.changeDetected (Watch.watch c s) = Watch.changeDetected s <-> Watch.seen (Watch.oldValue s) c) /\
  Watch.changeDetected (Watch.watch c s) = Watch.changeDetected s.
Proof.
  intros s c. split; [|vm_compute; reflexivity].
  apply (watch_collection_exact c s); [vm_compute; reflexivity|].
  apply (bool_decide_eq_true_1 _). vm_compute. reflexivity.
Defined.

(** C40: [ngRepeat] shows the collection: let the rows on the page be known to
    the block map, as they are at the start, after every run like this one and after one that was refused for
    duplicates (after one in which an id could not be computed they are not: Example demo_lost); and let the collection, if its keys are to be read, have no property [hasOwnProperty] of its own.
    When the ids of the items can be computed, are distinct and none of them is [hasOwnProperty] or [__proto__],
    the run ends and the rows on the page afterwards are one for each item, in the order of the
    collection and between the same siblings; the row of an id that was shown
    is the same row, every other old row is gone and its scope destroyed,
    each row's scope has the item and its position, and the block map knows the rows again. *)
Theorem repeat_shows_collection (anchor template : nat) track (pre rest : list nat)
  (segs : list (Repeat.block * list nat)) (s : Repeat.st) (c : collection) (ids : list string) :
  Repeat.wf anchor pre rest segs s -> Repeat.lastBlockMap s = Repeat.block_map (map fst segs) ->
  Repeat.track_ids track (Repeat.items c) 0 = Some ids -> NoDup ids -> "hasOwnProperty" ∉ ids -> "__proto__" ∉ ids -> Repeat.enumerable c = true ->
  exists segs' s', Repeat.ngRepeatAction anchor template track c s = (s', Ok tt) /\
    Repeat.wf anchor pre rest segs' s' /\ Repeat.lastBlockMap s' = Repeat.block_map (map fst segs') /\
    map (fun sg => Repeat.b_id sg.1) segs' = ids /\
    (forall sg, sg ∈ segs -> Repeat.b_id sg.1 ∈ ids -> sg ∈ segs') /\
    (forall n, n ∈ Repeat.destroyed s' <->
       n ∈ Repeat.destroyed s \/ exists sg, sg ∈ segs /\ (Repeat.b_id sg.1 ∉ ids) /\ Repeat.b_scope sg.1 = n) /\
    (forall i sg, segs' !! i = Some sg -> exists item, Repeat.items c !! i = Some item /\
       Repeat.rows s' !! Repeat.b_scope sg.1 = Some (Repeat.row_of item.2 item.1 i (length (Repeat.items c)))).
Proof.
  intros Hw Hlast Ht Hnd Hown Hproto Hc. pose proof (Repeat.wf_ids _ _ _ _ _ Hw) as Hids.
  destruct (Repeat.locate_ok track (Repeat.items c) 0 (Repeat.lastBlockMap s) [] [] ids Ht Hnd) as (last' & Hloc & Hl');
    [intros ??; apply not_elem_of_nil|done|done|]. rewrite Hlast in Hloc, Hl'.
  destruct (Repeat.leave_all_wf _ _ _ _ _ _ _ Hw Hl') as (Hw1 & Hn1 & Hd1).
  destruct (Repeat.order_fits segs ids Hids) as [Ho1 Ho2].
  set (order := map (Repeat.entry_of (Repeat.block_map (map fst segs))) ids) in *.
  assert (Hoid : map Repeat.entry_id order = ids).
  { unfold order. rewrite map_map. erewrite map_ext; [apply map_id|]. intros id. apply Repeat.entry_of_id. }
  assert (Hlen : length (Repeat.items c) = length order).
  { unfold order. rewrite length_map. by apply Repeat.track_ids_length in Ht. }
  pose proof (Repeat.place_spec anchor template pre rest order [] _ (Repeat.items c) 0 (length (Repeat.items c)) _ Hw1
    ltac:(by rewrite Hoid) Hlen Ho1 Ho2) as Hp.
  change (Repeat.end_of anchor []) with anchor in Hp.
  destruct (Repeat.place template anchor _ 0 _ order _) as [bs s2] eqn:Hplace.
  destruct Hp as (Q & HwQ & HQ & HF & Hold & Hd2 & Hrows & _). cbn [app] in HwQ.
  exists Q, (Repeat.set_last (Repeat.next_map bs) s2).
  assert (HQids : map (fun sg => Repeat.b_id sg.1) Q = ids).
  { rewrite <- (map_map fst Repeat.b_id), HQ, <- Hoid. clear -HF. induction HF as [|e b order bs [H _] _ IH]; [done|]. simpl. by rewrite H, IH. }
  assert (Hmap : Repeat.next_map bs = Repeat.block_map bs).
  { apply delete_id. destruct (Repeat.block_map bs !! "__proto__") as [b|] eqn:Hb; [|done]. apply Repeat.block_map_Some in Hb as [Hb Hin].
    exfalso. apply Hproto. rewrite <- HQids, <- (map_map fst Repeat.b_id), HQ, Hb. by apply list_elem_of_fmap_2. }
  split_and!.
  - unfold Repeat.ngRepeatAction. rewrite Hc. cbn [negb]. rewrite Hlast, Hloc. cbn [app]. fold order. by rewrite Hplace.
  - by destruct HwQ; split.
  - cbn. by rewrite Hmap, <- HQ.
  - done.
  - intros sg Hsg Hid. rewrite <- HQ in HF. eapply Repeat.kept_rows; [exact Hw| |exact Hn1|exact HF|exact Hold|done|].
    + intros sg' [_ H]%list_elem_of_filter. done.
    + apply Ho1. by apply list_elem_of_filter.
  - intros n. cbn. rewrite Hd2. apply Hd1.
  - intros i sg Hi. cbn. destruct (Hrows i sg.1) as (item & Hit & Hrow); [by rewrite <- HQ, list_lookup_fmap, Hi|].
    exists item. by rewrite Nat.add_0_l in Hrow.
Qed.


Lemma repeat_shows_collection_witness :
  exists (segs' : list (Repeat.block * list nat)) s', Demo.show Demo.abc ["c"; "d"; "a"] = (s', Ok tt) /\
    map (fun sg => Repeat.b_id sg.1) segs' = ["c"; "d"; "a"] /\ Repeat.lastBlockMap s' = Repeat.block_map (map fst segs').
Proof.
  destruct (repeat_shows_collection 0 1 Demo.by_value [] [1%nat] Demo.abc_rows Demo.abc (CArray (map JStr ["c"; "d"; "a"]))
    ["c"; "d"; "a"]) as (segs' & s' & H1 & _ & H3 & H2 & _).
  - exact Demo.abc_wf.
  - vm_compute. reflexivity.
  - reflexivity.
  - apply (bool_decide_eq_true_1 _). vm_compute. reflexivity.
  - apply (bool_decide_eq_true_1 _). vm_compute. reflexivity.
  - apply (bool_decide_eq_true_1 _). vm_compute. reflexivity.
  - reflexivity.
  - exists segs', s'. split; [exact H1|]. split; [exact H2|exact H3].
Defined.

(** A duplicate id is refused without harm: the error leaves the page and the
    rows known from before as they were, so the next collection without a
    duplicate still reuses and removes them. *)
Theorem repeat_duplicates_harmless (anchor template : nat) track (segs : list (Repeat.block * list nat))
  (s s' : Repeat.st) (c : collection) (id : string) :
  Repeat.lastBlockMap s = Repeat.block_map (map fst segs) ->
  Repeat.ngRepeatAction anchor template track c s = (s', Err (Repeat.Dupes id)) -> s' = s.
Proof.
  intros Hl. unfold Repeat.ngRepeatAction. destruct (negb (Repeat.enumerable c)); [done|].
  destruct (Repeat.locate _ _ _ _ _ _) as [[order last]|[e last]] eqn:He.
  - by destruct (Repeat.place _ _ _ _ _ _ _).
  - intros [= <- ->]. apply (Repeat.locate_dupes _ _ _ _ _ _ (Repeat.lastBlockMap s)) in He as ->.
    + by destruct s.
    + intros k b Hk. rewrite Hl in Hk. by apply Repeat.block_map_Some in Hk as [-> _].
    + split; [done|by left|by intros ? ?%not_elem_of_nil].
Qed.

Lemma repeat_duplicates_harmless_witness :
  (Demo.show Demo.abc ["b"; "d"; "b"]).1 = Demo.abc.
Proof.
  apply (repeat_duplicates_harmless 0 1 Demo.by_value
    Demo.abc_rows Demo.abc
    (Demo.show Demo.abc ["b"; "d"; "b"]).1 (CArray (map JStr ["b"; "d"; "b"])) "b").
  - vm_compute. reflexivity.
  - vm_compute. reflexivity.
Defined.
