(* ===== verification/NgForm.v ===== *)
(** * NgForm: forms and the controls in them

    [FormController] (angular.js 16285-16441) and [NgModelController]
    (17717-17920).  Controllers refer to each other - a control to its form, a
    form to its controls and, in [$error], to those that are invalid - so they
    live in a store; a controller is created after its form, so its number is
    larger.  The tables of names and of errors are maps: a name that is one of
    the form's own properties, or a token that object literals inherit, is not
    covered, and the histories below have none.

    The theorems are about the bookkeeping of validity and dirtiness that goes
    up and down the tree, and about a control's value and its view. *)

From S2P Require Import Prelude Text Js NgCore.

#[local] Set Warnings "-register-all,-clear-no-such-hyp".

(** ** Controllers *)

(** [$error]: a form has the invalid controls of each token, or [false]; a
    control whether the token is invalid. *)
Inductive errors : Type :=
| FormErrors (queues : gmap string (option (list nat)))
| ModelErrors (flags : gmap string bool).

Record ctrl := Ctrl {
  parentForm : option nat;       (** [None] is [nullFormCtrl] *)
  c_name : string;
  c_error : errors;
  invalidCount : nat;
  c_valid : bool; c_invalid : bool;
  c_dirty : bool; c_pristine : bool;
  classes : gset string;         (** of the element *)
  controls : list nat;
  named : gmap string nat;       (** the controls that are properties of the form *)
  detached : bool                (** its methods are [nullFormCtrl]'s *)
}.

Abbreviation store := (gmap nat ctrl).

Definition set_error (e : errors) (n : nat) (c : ctrl) : ctrl :=
  Ctrl (parentForm c) (c_name c) e n (c_valid c) (c_invalid c) (c_dirty c) (c_pristine c) (classes c) (controls c) (named c) (detached c).
Definition set_valid (v : bool) (c : ctrl) : ctrl :=
  Ctrl (parentForm c) (c_name c) (c_error c) (invalidCount c) v (negb v) (c_dirty c) (c_pristine c) (classes c) (controls c) (named c) (detached c).
Definition set_dirty (d : bool) (c : ctrl) : ctrl :=
  Ctrl (parentForm c) (c_name c) (c_error c) (invalidCount c) (c_valid c) (c_invalid c) d (negb d) (classes c) (controls c) (named c) (detached c).
Definition set_classes (k : gset string) (c : ctrl) : ctrl :=
  Ctrl (parentForm c) (c_name c) (c_error c) (invalidCount c) (c_valid c) (c_invalid c) (c_dirty c) (c_pristine c) k (controls c) (named c) (detached c).
Definition set_controls (l : list nat) (m : gmap string nat) (c : ctrl) : ctrl :=
  Ctrl (parentForm c) (c_name c) (c_error c) (invalidCount c) (c_valid c) (c_invalid c) (c_dirty c) (c_pristine c) (classes c) l m (detached c).

Definition detach (c : ctrl) : ctrl :=
  Ctrl (parentForm c) (c_name c) (c_error c) (invalidCount c) (c_valid c) (c_invalid c) (c_dirty c) (c_pristine c) (classes c) (controls c) (named c) true.

Definition set_class (add remove : string) (c : ctrl) : ctrl :=
  set_classes ((classes c ∪ {[add]}) ∖ {[remove]}) c.

(** [toggleValidCss]. *)
Definition toggleValidCss (isValid : bool) (validationErrorKey : string) (c : ctrl) : ctrl :=
  let suffix := if String.eqb validationErrorKey "" then "" else "-" +:+ Basics.snake_case validationErrorKey "-" in
  if isValid then set_class ("ng-valid" +:+ suffix) ("ng-invalid" +:+ suffix) c
  else set_class ("ng-invalid" +:+ suffix) ("ng-valid" +:+ suffix) c.

Definition new_ctrl (parent : option nat) (name : string) (e : errors) : ctrl :=
  toggleValidCss true "" (Ctrl parent name e 0 true false false true {["ng-pristine"]} [] ∅ false).

Definition queues_of (c : ctrl) : gmap string (option (list nat)) :=
  match c_error c with FormErrors q => q | ModelErrors _ => ∅ end.
Definition flags_of (c : ctrl) : gmap string bool :=
  match c_error c with ModelErrors f => f | FormErrors _ => ∅ end.

Definition is_form (c : ctrl) : bool := match c_error c with FormErrors _ => true | ModelErrors _ => false end.

(** [errors[validationToken]], if it is truthy. *)
Definition queue (c : ctrl) (token : string) : option (list nat) := mjoin (queues_of c !! token).

(** ** Validity *)

(** [FormController.$setValidity]: a call up the chain of forms, on fuel. *)
Fixpoint form_setValidity (fuel : nat) (f : nat) (token : string) (isValid : bool) (control : nat) (s : store) : option store :=
  match fuel with
  | O => None
  | S fuel =>
      match s !! f with
      | None => None
      | Some form =>
          if detached form then Some s else
          let up isValid s :=
            match parentForm form with
            | None => Some s
            | Some p => form_setValidity fuel p token isValid f s
            end in
          if isValid then
            match queue form token with
            | None => Some s
            | Some q =>
                let q := array_remove control q in
                match q with
                | [] =>
                    let n := (invalidCount form - 1)%nat in
                    let form := if (n =? 0)%nat then set_valid true (toggleValidCss true "" form) else form in
                    let form := toggleValidCss true token (set_error (FormErrors (<[token := None]> (queues_of form))) n form) in
                    up true (<[f := form]> s)
                | _ => Some (<[f := set_error (FormErrors (<[token := Some q]> (queues_of form))) (invalidCount form) form]> s)
                end
            end
          else
            let form := if (invalidCount form =? 0)%nat then toggleValidCss false "" form else form in
            match queue form token with
            | Some q =>
                if bool_decide (control ∈ q) then Some (<[f := form]> s)
                else Some (<[f := set_valid false (set_error (FormErrors (<[token := Some (q ++ [control])]> (queues_of form))) (invalidCount form) form)]> s)
            | None =>
                let form := toggleValidCss false token
                  (set_error (FormErrors (<[token := Some []]> (queues_of form))) (S (invalidCount form)) form) in
                match up false (<[f := form]> s) with
                | None => None
                | Some s =>
                    let push form := set_valid false (set_error (FormErrors (<[token := Some [control]]> (queues_of form))) (invalidCount form) form) in
                    Some (alter push f s)
                end
            end
      end
  end.

(** [parentForm.$setValidity] of a controller; a form's number bounds the
    length of the chain above it. *)
Definition parent_setValidity (c : nat) (token : string) (isValid : bool) (s : store) : option store :=
  match s !! c with
  | None => None
  | Some ctrl =>
      match parentForm ctrl with
      | None => Some s
      | Some p => form_setValidity (S p) p token isValid c s
      end
  end.

(** [NgModelController.$setValidity]. *)
Definition model_step (key : string) (isValid : bool) (c : ctrl) : ctrl :=
  let c' :=
    if isValid then
      let n := if default false (flags_of c !! key) then (invalidCount c - 1)%nat else invalidCount c in
      let c := set_error (c_error c) n c in
      if (n =? 0)%nat then set_valid true (toggleValidCss true "" c) else c
    else set_error (c_error c) (S (invalidCount c)) (set_valid false (toggleValidCss false "" c)) in
  toggleValidCss isValid key (set_error (ModelErrors (<[key := negb isValid]> (flags_of c))) (invalidCount c') c').

Definition model_setValidity (c : nat) (key : string) (isValid : bool) (s : store) : option store :=
  match s !! c with
  | None => None
  | Some ctrl =>
      if bool_decide (flags_of ctrl !! key = Some (negb isValid)) then Some s
      else
        parent_setValidity c key isValid (<[c := model_step key isValid ctrl]> s)
  end.

(** ** Controls of a form *)

Definition addControl (f control : nat) (s : store) : result string store :=
  match s !! f, s !! control with
  | Some form, Some c =>
      if detached form then Ok s
      else if String.eqb (c_name c) "hasOwnProperty" then Err "badname"
      else Ok (alter (fun form => set_controls (controls form ++ [control])
                 (if String.eqb (c_name c) "" then named form else <[c_name c := control]> (named form)) form) f s)
  | _, _ => Err "TypeError"
  end.

Definition drop_name (control : nat) (name : string) (form : ctrl) : ctrl :=
  if negb (String.eqb name "") && bool_decide (named form !! name = Some control)
  then set_controls (controls form) (delete name (named form)) form else form.

(** [forEach(errors, ...)] of [$removeControl]. *)
Fixpoint clear_tokens (f control : nat) (tokens : list string) (s : store) : option store :=
  match tokens with
  | [] => Some s
  | token :: tokens =>
      match form_setValidity (S f) f token true control s with
      | None => None
      | Some s => clear_tokens f control tokens s
      end
  end.

Definition removeControl (f control : nat) (s : store) : option store :=
  match s !! f, s !! control with
  | Some form, Some c =>
      if detached form then Some s else
      let s := alter (drop_name control (c_name c)) f s in
      match clear_tokens f control (map fst (map_to_list (queues_of form))) s with
      | None => None
      | Some s => Some (alter (fun form => set_controls (array_remove control (controls form)) (named form) form) f s)
      end
  | _, _ => None
  end.

(** A form's element is destroyed. *)
Definition destroy_form (f : nat) (s : store) : option store :=
  match s !! f with
  | None => None
  | Some form =>
      match parentForm form with
      | None => Some s
      | Some p =>
          match removeControl p f s with
          | None => None
          | Some s => Some (alter detach f s)
          end
      end
  end.

(** A control's scope is destroyed. *)
Definition destroy_model (c : nat) (s : store) : option store :=
  match s !! c with
  | None => None
  | Some ctrl => match parentForm ctrl with None => Some s | Some p => removeControl p c s end
  end.

(** Creating a controller; a form is added to its parent at once. *)
Definition new_form (f : nat) (parent : option nat) (name : string) (s : store) : result string store :=
  let s := <[f := new_ctrl parent name (FormErrors ∅)]> s in
  match parent with None => Ok s | Some p => addControl p f s end.

(** A control is added by [ngModelDirective]'s link function. *)
Definition new_model (c : nat) (parent : option nat) (name : string) (s : store) : result string store :=
  let s := <[c := new_ctrl parent name (ModelErrors ∅)]> s in
  match parent with None => Ok s | Some p => addControl p c s end.

(** ** Dirtiness *)

Definition dirty_css (d : bool) (c : ctrl) : ctrl :=
  if d then set_class "ng-dirty" "ng-pristine" c else set_class "ng-pristine" "ng-dirty" c.

(** [FormController.$setDirty], up the chain. *)
Fixpoint form_setDirty (fuel : nat) (f : nat) (s : store) : option store :=
  match fuel with
  | O => None
  | S fuel =>
      match s !! f with
      | None => None
      | Some form =>
          if detached form then Some s else
          let s := <[f := set_dirty true (dirty_css true form)]> s in
          match parentForm form with None => Some s | Some p => form_setDirty fuel p s end
      end
  end.

(** [$setPristine] of a control and, down the tree, of a form. *)
Fixpoint setPristine (fuel : nat) (c : nat) (s : store) : option store :=
  match fuel with
  | O => None
  | S fuel =>
      match s !! c with
      | None => None
      | Some ctrl =>
          if detached ctrl then Some s else
          foldl (fun s k => match s with Some s => setPristine fuel k s | None => None end)
            (Some (<[c := set_dirty false (dirty_css false ctrl)]> s)) (if is_form ctrl then controls ctrl else [])
      end
  end.

(** The first half of [$setViewValue]. *)
Definition touch (c : nat) (s : store) : option store :=
  match s !! c with
  | None => None
  | Some ctrl =>
      if c_pristine ctrl then
        let s := <[c := set_dirty true (dirty_css true ctrl)]> s in
        match parentForm ctrl with None => Some s | Some p => form_setDirty (S p) p s end
      else Some s
  end.

Create HintDb ng_form.

(** ** The invariant of validity *)

Definition has_error (c : ctrl) (t : string) : Prop :=
  match c_error c with FormErrors _ => is_Some (queue c t) | ModelErrors fl => fl !! t = Some true end.

(** Counting the tokens that are invalid. *)
Section Count.
Context {A : Type} (P : A -> Prop) {Pdec : forall x, Decision (P x)}.
Implicit Types m : gmap string A.

Definition count_live m : nat := size (filter (fun e => P e.2) m).

Lemma count_insert_new m t x : P x -> (forall y, m !! t = Some y -> ~ P y) -> count_live (<[t := x]> m) = S (count_live m).
Proof.
  intros Hx Hm. unfold count_live. rewrite map_filter_insert_True by done. apply map_size_insert_None.
  apply map_lookup_filter_None. destruct (m !! t) as [y|] eqn:Hy; [right|by left]. intros z [= <-]. by apply Hm.
Qed.

Lemma count_insert_same m t x y : P x -> m !! t = Some y -> P y -> count_live (<[t := x]> m) = count_live m.
Proof.
  intros Hx Hm Hy. unfold count_live. rewrite map_filter_insert_True by done. apply map_size_insert_Some.
  exists y. by apply map_lookup_filter_Some.
Qed.

Lemma count_insert_dead m t x y : ~ P x -> m !! t = Some y -> P y -> count_live m = S (count_live (<[t := x]> m)).
Proof.
  intros Hx Hm Hy. unfold count_live. rewrite map_filter_insert_False by done. rewrite map_filter_delete.
  assert (Hin : filter (fun e => P e.2) m !! t = Some y) by by apply map_lookup_filter_Some.
  rewrite map_size_delete_Some by by eexists. assert (size (filter (fun e => P e.2) m) <> 0%nat); [|lia].
  intros H0%map_size_empty_iff. by rewrite H0, lookup_empty in Hin.
Qed.

Lemma count_insert_still m t x : ~ P x -> (forall y, m !! t = Some y -> ~ P y) -> count_live (<[t := x]> m) = count_live m.
Proof.
  intros Hx Hm. unfold count_live. rewrite map_filter_insert_False by done. rewrite map_filter_delete, delete_id; [done|].
  apply map_lookup_filter_None. destruct (m !! t) as [y|] eqn:Hy; [right|by left]. intros z [= <-]. by apply Hm.
Qed.

Lemma count_zero m : count_live m = 0%nat <-> forall t y, m !! t = Some y -> ~ P y.
Proof.
  unfold count_live. rewrite map_size_empty_iff, map_empty. setoid_rewrite map_lookup_filter_None. split.
  - intros H t y Hm. destruct (H t) as [H'|H']; [congruence|by apply H'].
  - intros H t. destruct (m !! t) as [y|] eqn:Hy; [right|by left]. intros z [= <-]. by eapply H.
Qed.
End Count.

Definition live_tokens (c : ctrl) : nat :=
  match c_error c with
  | FormErrors q => count_live is_Some q
  | ModelErrors fl => count_live (fun b => b = true) fl
  end.

(** What holds of one controller by itself. *)
Record local_ok (c : ctrl) : Prop := LocalOk {
  ok_count : invalidCount c = live_tokens c;
  ok_valid : c_valid c = (invalidCount c =? 0)%nat;
  ok_invalid : c_invalid c = negb (c_valid c);
  ok_queue : forall t q, queue c t = Some q -> q <> [] /\ NoDup q;
  ok_keys : queues_of c !! "" = None;
  ok_methods : is_form c = false -> detached c = false;
  ok_css : ("ng-valid" ∈ classes c <-> c_valid c = true) /\ ("ng-invalid" ∈ classes c <-> c_valid c = false)
}.

Lemma queue_lookup c t q : queue c t = Some q -> queues_of c !! t = Some (Some q).
Proof. unfold queue. destruct (queues_of c !! t) as [[q'|]|]; simpl; congruence. Qed.

Lemma queue_dead c t y : queue c t = None -> queues_of c !! t = Some y -> ~ is_Some y.
Proof. unfold queue. intros H Hy [q ->]. by rewrite Hy in H. Qed.

Lemma is_form_error c : is_form c = true -> c_error c = FormErrors (queues_of c).
Proof. unfold is_form, queues_of. by destruct (c_error c). Qed.

(** A controller is valid when it has no error. *)
Lemma valid_iff c : local_ok c -> c_valid c = true <-> forall t, ~ has_error c t.
Proof.
  intros [Hn Hv _ _ _ _ _]. rewrite Hv, Nat.eqb_eq, Hn. unfold live_tokens, has_error, queue, queues_of.
  destruct (c_error c) as [q|fl]; rewrite count_zero; split; intros Hc t.
  - destruct (q !! t) as [y|] eqn:Hy; [by apply (Hc t)|]. by intros [].
  - intros y Hy. specialize (Hc t). by rewrite Hy in Hc.
  - by intros Ht; apply (Hc t _ Ht).
  - intros y Hy ->. by apply (Hc t).
Qed.

(** *** One change of a form *)

(** A form whose queue of one token is changed. *)
Definition with_queue (t : string) (q : option (list nat)) (n : nat) (form : ctrl) : ctrl :=
  set_error (FormErrors (<[t := q]> (queues_of form))) n form.

Lemma queue_insert form t q n t' : queue (with_queue t q n form) t' = if decide (t = t') then q else queue form t'.
Proof.
  unfold queue, with_queue, queues_of at 1, set_error; simpl. destruct (decide (t = t')) as [->|Hne].
  - by rewrite lookup_insert_eq.
  - by rewrite lookup_insert_ne.
Qed.

(** What a form's own call does to the form; whether it goes on to the parent. *)
Definition form_step (t : string) (v : bool) (k : nat) (form : ctrl) : ctrl * bool :=
  if v then
    match queue form t with
    | None => (form, false)
    | Some q =>
        match array_remove k q with
        | [] =>
            let n := (invalidCount form - 1)%nat in
            let form := if (n =? 0)%nat then set_valid true (toggleValidCss true "" form) else form in
            (toggleValidCss true t (with_queue t None n form), true)
        | q => (with_queue t (Some q) (invalidCount form) form, false)
        end
    end
  else
    let form := if (invalidCount form =? 0)%nat then toggleValidCss false "" form else form in
    match queue form t with
    | Some q => if bool_decide (k ∈ q) then (form, false)
                else (set_valid false (with_queue t (Some (q ++ [k])) (invalidCount form) form), false)
    | None =>
        let form := toggleValidCss false t (with_queue t (Some []) (S (invalidCount form)) form) in
        (set_valid false (with_queue t (Some [k]) (invalidCount form) form), true)
    end.

(** Classes other than the two of the whole controller. *)
Lemma css_other v key c :
  key <> "" ->
  ("ng-valid" ∈ classes (toggleValidCss v key c) <-> "ng-valid" ∈ classes c) /\
  ("ng-invalid" ∈ classes (toggleValidCss v key c) <-> "ng-invalid" ∈ classes c).
Proof.
  intros Hk%String.eqb_neq. unfold toggleValidCss. rewrite Hk. destruct v; simpl;
    rewrite !elem_of_difference, !elem_of_union, !elem_of_singleton; split; split; intros; by intuition discriminate.
Qed.

Lemma css_whole v c :
  ("ng-valid" ∈ classes (toggleValidCss v "" c) <-> v = true) /\
  ("ng-invalid" ∈ classes (toggleValidCss v "" c) <-> v = false).
Proof.
  unfold toggleValidCss. destruct v; simpl;
    rewrite !elem_of_difference, !elem_of_union, !elem_of_singleton; split; split; intros; by intuition discriminate.
Qed.

Definition listed (c : ctrl) (t : string) (k : nat) : Prop := exists q, queue c t = Some q /\ k ∈ q.

(** Two forms that differ in one queue. *)
Definition queue_set (t : string) (q : option (list nat)) (form form' : ctrl) : Prop :=
  c_error form' = FormErrors (<[t := q]> (queues_of form)).

Lemma queue_set_lookup t q form form' t' :
  queue_set t q form form' -> queue form' t' = if decide (t = t') then q else queue form t'.
Proof.
  intros H. unfold queue, queues_of at 1. rewrite H. destruct (decide (t = t')) as [->|Hne].
  - by rewrite lookup_insert_eq.
  - by rewrite lookup_insert_ne.
Qed.

Lemma local_ok_set t q form form' :
  queue_set t q form form' -> t <> "" -> local_ok form -> (forall l, q = Some l -> l <> [] /\ NoDup l) ->
  invalidCount form' = count_live is_Some (<[t := q]> (queues_of form)) ->
  c_valid form' = (invalidCount form' =? 0)%nat -> c_invalid form' = negb (c_valid form') ->
  ("ng-valid" ∈ classes form' <-> c_valid form' = true) /\ ("ng-invalid" ∈ classes form' <-> c_valid form' = false) ->
  local_ok form'.
Proof.
  intros Hq Ht Hok Hl Hn Hv Hi Hc. split; try done.
  - unfold live_tokens. by rewrite Hq.
  - intros t' l. rewrite (queue_set_lookup t q form form' t') by done. destruct (decide (t = t')); [apply Hl|apply Hok].
  - unfold queues_of at 1. rewrite Hq, lookup_insert_ne by done. apply Hok.
  - unfold is_form. by rewrite Hq.
Qed.

Lemma listed_set t q form form' k v :
  queue_set t q form form' ->
  (forall x, match q with Some q => x ∈ q | None => False end <-> (x = k /\ v = false) \/ (x <> k /\ listed form t x)) ->
  forall t' x, listed form' t' x <-> (if decide (t' = t /\ x = k) then v = false else listed form t' x).
Proof.
  intros Hs Hq t' x. unfold listed at 1. rewrite (queue_set_lookup _ _ _ _ t' Hs). destruct (decide (t = t')) as [<-|Hne].
  - trans (match q with Some q => x ∈ q | None => False end); [destruct q; naive_solver|]. rewrite Hq.
    destruct (decide _); naive_solver.
  - destruct (decide _); [naive_solver|done].
Qed.

Lemma listed_Some form t q x : queue form t = Some q -> listed form t x <-> x ∈ q.
Proof. intros H. unfold listed. rewrite H. naive_solver. Qed.

Lemma listed_None form t x : queue form t = None -> ~ listed form t x.
Proof. unfold listed. intros H (q & Hq & _). congruence. Qed.

Lemma live_form c : is_form c = true -> live_tokens c = count_live is_Some (queues_of c).
Proof. intros H. unfold live_tokens. by rewrite (is_form_error c H). Qed.

Lemma has_error_form c t : is_form c = true -> has_error c t <-> is_Some (queue c t).
Proof. intros H. unfold has_error. by rewrite (is_form_error c H). Qed.

Lemma is_form_set t q form form' : queue_set t q form form' -> is_form form' = true.
Proof. unfold is_form. by intros ->. Qed.

Definition same_marks (a b : ctrl) : Prop :=
  c_dirty a = c_dirty b /\ c_pristine a = c_pristine b /\
  ("ng-dirty" ∈ classes a <-> "ng-dirty" ∈ classes b) /\ ("ng-pristine" ∈ classes a <-> "ng-pristine" ∈ classes b).

#[export] Instance same_marks_po : PreOrder same_marks.
Proof. split; [done|]. intros a b c (? & ? & ? & ?) (? & ? & ? & ?). split_and!; by etrans. Qed.

Lemma css_marks v key c : same_marks (toggleValidCss v key c) c.
Proof.
  unfold same_marks, toggleValidCss. destruct v, (String.eqb key ""); simpl;
    rewrite !elem_of_difference, !elem_of_union, !elem_of_singleton; split_and!; try done; split; intros; by intuition discriminate.
Qed.

(** What a change leaves of a controller: its place in the tree and its dirtiness. *)
Definition same_place (a b : ctrl) : Prop :=
  parentForm a = parentForm b /\ c_name a = c_name b /\ is_form a = is_form b /\ detached a = detached b /\
  controls a = controls b /\ named a = named b /\ same_marks a b.

#[export] Instance same_place_po : PreOrder same_place.
Proof.
  split; [done|]. intros a b c (? & ? & ? & ? & ? & ? & ?) (? & ? & ? & ? & ? & ? & ?).
  split_and!; by etrans.
Qed.

Lemma place_css v key a b : same_place a b -> same_place (toggleValidCss v key a) b.
Proof.
  intros (? & ? & ? & ? & ? & ? & Hm). split_and!; try (by destruct v); etrans; try apply css_marks; done.
Qed.

Lemma place_valid v a b : same_place a b -> same_place (set_valid v a) b.
Proof. done. Qed.

Lemma place_queue t q n a b : is_form b = true -> same_place a b -> same_place (with_queue t q n a) b.
Proof. by intros Hb (? & ? & ? & ? & ? & ? & ?). Qed.

Lemma place_flags m n a b : is_form b = false -> same_place a b -> same_place (set_error (ModelErrors m) n a) b.
Proof. by intros Hb (? & ? & ? & ? & ? & ? & ?). Qed.

Lemma place_refl a : same_place a a.
Proof. done. Qed.

#[export] Hint Resolve place_refl place_flags place_css place_valid place_queue : ng_form.

Record step_ok (t : string) (v : bool) (k : nat) (form form' : ctrl) (call : bool) : Prop := StepOk {
  so_place : same_place form' form;
  so_local : local_ok form';
  so_listed : forall t' x, listed form' t' x <-> (if decide (t' = t /\ x = k) then v = false else listed form t' x);
  so_error : forall t', t' <> t \/ call = false -> has_error form' t' <-> has_error form t';
  so_call : call = true -> has_error form' t <-> v = false
}.

Lemma step_ok_set t v k form form' call q :
  queue_set t q form form' -> is_form form = true -> same_place form' form -> local_ok form' ->
  (forall x, match q with Some q => x ∈ q | None => False end <-> (x = k /\ v = false) \/ (x <> k /\ listed form t x)) ->
  (is_Some q <-> if call : bool then v = false else is_Some (queue form t)) ->
  step_ok t v k form form' call.
Proof.
  intros Hs Hf Hp Hl Hx Hq. pose proof (is_form_set _ _ _ _ Hs) as Hf'. split; try done.
  - by eapply listed_set.
  - intros t' Ht'. rewrite !has_error_form, (queue_set_lookup _ _ _ _ t' Hs) by done.
    destruct (decide (t = t')) as [<-|]; [|done]. destruct Ht' as [? | ->]; [done|]. by rewrite Hq.
  - intros ->. rewrite has_error_form, (queue_set_lookup _ _ _ _ t Hs) by done. rewrite decide_True by done. done.
Qed.

Lemma step_ok_id t v k form :
  local_ok form -> (listed form t k <-> v = false) -> step_ok t v k form form false.
Proof. intros Hok Hl. split; try done. intros t' x. destruct (decide _) as [[-> ->]|]; done. Qed.

Lemma count_some form t q : local_ok form -> is_form form = true -> queue form t = Some q -> (invalidCount form <> 0)%nat.
Proof.
  intros Hok Hf Hq%queue_lookup Hn. rewrite (ok_count _ Hok), live_form in Hn by done.
  by eapply (proj1 (count_zero is_Some _) Hn).
Qed.

Lemma valid_nonzero c : local_ok c -> (invalidCount c <> 0)%nat -> c_valid c = false /\ c_invalid c = true.
Proof. intros Hok Hn. rewrite (ok_invalid _ Hok), (ok_valid _ Hok), (proj2 (Nat.eqb_neq _ _) Hn). done. Qed.

Lemma form_step_true t k form :
  t <> "" -> is_form form = true -> local_ok form ->
  step_ok t true k form (form_step t true k form).1 (form_step t true k form).2.
Proof.
  intros Ht Hf Hok. unfold form_step. destruct (queue form t) as [q|] eqn:Hq.
  2:{ apply step_ok_id; [done|]. pose proof (listed_None _ _ k Hq). naive_solver. }
  destruct (ok_queue _ Hok _ _ Hq) as [_ Hnd]. destruct (array_remove_spec k q Hnd) as [Hnd' Hrm].
  pose proof (count_some _ _ _ Hok Hf Hq) as Hn. pose proof (ok_count _ Hok) as Hc. rewrite live_form in Hc by done.
  destruct (valid_nonzero _ Hok Hn) as [Hv Hi].
  pose proof (fun x => listed_Some form t q x Hq) as Hin.
  pose proof (count_insert_dead is_Some (queues_of form) t None (Some q) is_Some_None (queue_lookup _ _ _ Hq) ltac:(done)) as Hdead.
  destruct (array_remove k q) as [|y q'] eqn:Hr; cbn [fst snd].
  - set (n := (invalidCount form - 1)%nat). set (form1 := if (n =? 0)%nat then set_valid true (toggleValidCss true "" form) else form).
    assert (H1 : same_place form1 form /\ c_error form1 = c_error form /\ c_valid form1 = (n =? 0)%nat /\ c_invalid form1 = negb (n =? 0)%nat).
    { unfold form1. destruct (n =? 0)%nat; split_and!; auto with ng_form. }
    assert (Hcss : ("ng-valid" ∈ classes form1 <-> c_valid form1 = true) /\ ("ng-invalid" ∈ classes form1 <-> c_valid form1 = false)).
    { unfold form1. destruct (n =? 0)%nat; [apply (css_whole true)|apply (ok_css _ Hok)]. }
    destruct H1 as (Hp1 & He1 & Hv1 & Hi1).
    assert (Hs : queue_set t None form (toggleValidCss true t (with_queue t None n form1))).
    { unfold queue_set, with_queue, queues_of. simpl. by rewrite He1. }
    apply (step_ok_set _ _ _ _ _ _ _ Hs); try done.
    + auto with ng_form.
    + apply (local_ok_set _ _ _ _ Hs); try done.
      * simpl. unfold n. unfold queues_of in *. lia.
      * simpl. by rewrite Hi1, Hv1.
      * destruct (css_other true t (with_queue t None n form1) Ht) as [-> ->]. done.
    + intros x. rewrite Hin. specialize (Hrm x). rewrite elem_of_nil in Hrm. naive_solver.
  - assert (Hs : queue_set t (Some (y :: q')) form (with_queue t (Some (y :: q')) (invalidCount form) form)) by done.
    apply (step_ok_set _ _ _ _ _ _ _ Hs); try done.
    + apply (local_ok_set _ _ _ _ Hs); try done; [naive_solver|simpl|apply Hok|apply Hok|apply Hok].
      rewrite Hc. symmetry. by apply count_insert_same with (Some q); [|apply queue_lookup|].
    + intros x. rewrite Hin, Hrm. naive_solver.
Qed.

Lemma form_step_false t k form :
  t <> "" -> is_form form = true -> local_ok form ->
  step_ok t false k form (form_step t false k form).1 (form_step t false k form).2.
Proof.
  intros Ht Hf Hok. unfold form_step. pose proof (ok_count _ Hok) as Hc. rewrite live_form in Hc by done.
  destruct (queue form t) as [q|] eqn:Hq.
  - pose proof (count_some _ _ _ Hok Hf Hq) as Hn. rewrite (proj2 (Nat.eqb_neq _ _) Hn).
    destruct (valid_nonzero _ Hok Hn) as [Hv Hi]. destruct (ok_queue _ Hok _ _ Hq) as [_ Hnd].
    pose proof (fun x => listed_Some form t q x Hq) as Hin. rewrite Hq. case_bool_decide as Hk; cbn [fst snd].
    { apply step_ok_id; [done|]. by rewrite Hin. }
    assert (Hs : queue_set t (Some (q ++ [k])) form (set_valid false (with_queue t (Some (q ++ [k])) (invalidCount form) form))) by done.
    apply (step_ok_set _ _ _ _ _ _ _ Hs); try done.
    + apply (local_ok_set _ _ _ _ Hs); try done.
      * intros l [= <-]. split; [by destruct q|]. apply NoDup_app.
        split_and!; [done| |apply NoDup_singleton]. by intros y Hy ->%list_elem_of_singleton.
      * simpl. rewrite Hc. symmetry. by apply count_insert_same with (Some q); [|apply queue_lookup|].
      * simpl. symmetry. by apply Nat.eqb_neq.
      * pose proof (ok_css _ Hok) as Hcss. by rewrite Hv in Hcss.
    + intros x. rewrite Hin, elem_of_app, list_elem_of_singleton. split; [|naive_solver].
      intros [Hx| ->]; [right|left; done]. split; [by intros ->|done].
  - set (form1 := if (invalidCount form =? 0)%nat then toggleValidCss false "" form else form).
    assert (H1 : same_place form1 form /\ c_error form1 = c_error form /\ invalidCount form1 = invalidCount form).
    { unfold form1. destruct (_ =? 0)%nat; split_and!; auto with ng_form. }
    assert (Hcss : ("ng-valid" ∈ classes form1 <-> false = true) /\ ("ng-invalid" ∈ classes form1 <-> false = false)).
    { unfold form1. destruct (_ =? 0)%nat eqn:Hn; [apply (css_whole false)|].
      pose proof (ok_css _ Hok) as Hcss. by rewrite (ok_valid _ Hok), Hn in Hcss. }
    destruct H1 as (Hp1 & He1 & Hn1).
    assert (Hq1 : queue form1 t = None) by (unfold queue, queues_of; by rewrite He1). rewrite Hq1. cbn [fst snd].
    set (form2 := toggleValidCss false t (with_queue t (Some []) (S (invalidCount form1)) form1)).
    assert (Hs : queue_set t (Some [k]) form (set_valid false (with_queue t (Some [k]) (invalidCount form2) form2))).
    { unfold queue_set, with_queue, queues_of. simpl. unfold queues_of. rewrite He1. by rewrite insert_insert_eq. }
    apply (step_ok_set _ _ _ _ _ _ _ Hs); try done.
    + unfold form2. auto with ng_form.
    + apply (local_ok_set _ _ _ _ Hs); try done.
      * intros l [= <-]. split; [done|]. apply NoDup_singleton.
      * simpl. rewrite Hn1, Hc. symmetry. apply count_insert_new; [done|]. intros y. by apply queue_dead.
      * destruct (css_other false t (with_queue t (Some []) (S (invalidCount form1)) form1) Ht) as [Ha Hb].
        exact (conj (iff_trans Ha (proj1 Hcss)) (iff_trans Hb (proj2 Hcss))).
    + intros x. rewrite list_elem_of_singleton. pose proof (listed_None form t x Hq). naive_solver.
Qed.

Lemma form_step_ok t v k form :
  t <> "" -> is_form form = true -> local_ok form ->
  step_ok t v k form (form_step t v k form).1 (form_step t v k form).2.
Proof. destruct v; [apply form_step_true|apply form_step_false]. Qed.

(** *** The call up the chain *)

(** The parents of controllers have smaller numbers. *)
Definition ordered (s : store) : Prop := forall c ctrl p, s !! c = Some ctrl -> parentForm ctrl = Some p -> (p < c)%nat.

Lemma ordered_insert s f form form' :
  ordered s -> s !! f = Some form -> parentForm form' = parentForm form -> ordered (<[f := form']> s).
Proof.
  intros Ho Hf Hp c ctrl p [[<- <-]|[_ Hc]]%lookup_insert_Some Hcp; [|by eapply Ho].
  rewrite Hp in Hcp. by eapply Ho.
Qed.

(** It does not look at controllers with larger numbers. *)
Lemma form_setValidity_above fuel f t v k s c x :
  ordered s -> (f < c)%nat ->
  form_setValidity fuel f t v k (<[c := x]> s) = (fun s' => <[c := x]> s') <$> form_setValidity fuel f t v k s.
Proof.
  revert f v k s. induction fuel as [|fuel IH]; intros f v k s Ho Hlt; [done|]. cbn [form_setValidity].
  rewrite lookup_insert_ne by lia. destruct (s !! f) as [form|] eqn:Hf; [|done]. destruct (detached form); [done|].
  assert (Hup : forall v' form', parentForm form' = parentForm form ->
    match parentForm form with None => Some (<[f := form']> (<[c := x]> s)) | Some p => form_setValidity fuel p t v' f (<[f := form']> (<[c := x]> s)) end =
    (fun s' => <[c := x]> s') <$> match parentForm form with None => Some (<[f := form']> s) | Some p => form_setValidity fuel p t v' f (<[f := form']> s) end).
  { intros v' form' Hp. rewrite insert_insert_ne by lia. destruct (parentForm form) as [p|] eqn:Hpf; [|done].
    pose proof (Ho _ _ _ Hf Hpf). apply IH; [|lia]. by eapply ordered_insert; rewrite ?Hpf. }
  assert (Hin : forall form', Some (<[f := form']> (<[c := x]> s)) = (fun s' => <[c := x]> s') <$> Some (<[f := form']> s)).
  { intros form'. rewrite insert_insert_ne by lia. done. }
  destruct v.
  - destruct (queue form t) as [q|]; [|done]. destruct (array_remove k q); [|apply Hin].
    apply Hup. by destruct (_ =? 0)%nat.
  - set (form1 := if (invalidCount form =? 0)%nat then _ else _).
    assert (Hp1 : parentForm form1 = parentForm form) by (unfold form1; by destruct (_ =? 0)%nat).
    destruct (queue form1 t) as [q|]; [case_bool_decide; apply Hin|].
    rewrite Hup by done. destruct (match parentForm form with None => _ | Some p => _ end) as [s'|]; [|done].
    cbn [fmap option_fmap option_map]. by rewrite alter_insert_ne by lia.
Qed.

(** The step comes first and the call to the parent after it. *)
Lemma form_setValidity_step fuel f t v k s form :
  ordered s -> s !! f = Some form -> detached form = false ->
  form_setValidity (S fuel) f t v k s =
    let '(form', call) := form_step t v k form in
    match (if call : bool then parentForm form else None) with
    | None => Some (<[f := form']> s)
    | Some p => form_setValidity fuel p t v f (<[f := form']> s)
    end.
Proof.
  intros Ho Hf Hd. cbn [form_setValidity]. rewrite Hf, Hd. unfold form_step. destruct v.
  - destruct (queue form t) as [q|]; [|by rewrite insert_id]. by destruct (array_remove k q).
  - set (form1 := if (invalidCount form =? 0)%nat then _ else _). destruct (queue form1 t) as [q|]; [by case_bool_decide|].
    destruct (parentForm form) as [p|] eqn:Hp.
    + pose proof (Ho _ _ _ Hf Hp). rewrite !form_setValidity_above by done.
      destruct (form_setValidity fuel p t false f s) as [s'|]; [|done]. simpl. rewrite alter_insert_eq. unfold with_queue at 2.
      done.
    + rewrite alter_insert_eq. done.
Qed.

(** *** The links between forms and their controls *)

Definition in_queue (s : store) (f : nat) (t : string) (k : nat) : Prop :=
  exists form, s !! f = Some form /\ listed form t k.

Definition same_tree (s s' : store) : Prop := forall c, option_Forall2 same_place (s' !! c) (s !! c).

#[export] Instance same_tree_po : PreOrder same_tree.
Proof.
  split.
  - intros s c. destruct (s !! c); constructor. done.
  - intros s1 s2 s3 H1 H2 c. specialize (H1 c). specialize (H2 c).
    destruct H2 as [a b Hab|]; inversion H1; subst; constructor. by etrans.
Qed.

Lemma same_tree_insert s f form form' : s !! f = Some form -> same_place form' form -> same_tree s (<[f := form']> s).
Proof.
  intros Hf Hp c. destruct (decide (f = c)) as [<-|Hne].
  - rewrite lookup_insert_eq, Hf. by constructor.
  - rewrite lookup_insert_ne by done. destruct (s !! c); constructor. done.
Qed.

Lemma same_tree_lookup s s' c ctrl : same_tree s s' -> s !! c = Some ctrl -> exists ctrl', s' !! c = Some ctrl' /\ same_place ctrl' ctrl.
Proof. intros H Hc. specialize (H c). rewrite Hc in H. inversion H; subst. eauto. Qed.

Section Removed.
Context (removed : gset nat).

(** The controls that belong in a queue: the form's own that are invalid and still there. *)
Definition wanted (s : store) (f : nat) (t : string) (k : nat) : Prop :=
  exists ck, s !! k = Some ck /\ parentForm ck = Some f /\ has_error ck t /\ k ∉ removed.

(** Everything holds, but for the links in [E] and what it is to be detached in [X]. *)
Record inv (E : nat -> string -> nat -> Prop) (X : nat -> Prop) (s : store) : Prop := Inv {
  inv_local : forall c ctrl, s !! c = Some ctrl -> local_ok ctrl;
  inv_parent : forall c ctrl p, s !! c = Some ctrl -> parentForm ctrl = Some p ->
    (p < c)%nat /\ exists form, s !! p = Some form /\ is_form form = true;
  inv_link : forall f form t k, s !! f = Some form -> is_form form = true -> detached form = false -> ~ E f t k ->
    (in_queue s f t k <-> wanted s f t k);
  inv_self : forall f form t, s !! f = Some form -> ~ listed form t f;
  inv_detached : forall c ctrl, s !! c = Some ctrl -> is_form ctrl = true -> ~ X c -> (detached ctrl = true <-> c ∈ removed)
}.

Lemma inv_ordered E X s : inv E X s -> ordered s.
Proof. intros H c ctrl p Hc Hp. by eapply inv_parent. Qed.

Lemma no_own_child s f t : ordered s -> ~ wanted s f t f.
Proof. intros Ho (ck & Hc & Hp & _). pose proof (Ho _ _ _ Hc Hp). lia. Qed.

Lemma wanted_insert_ne s f form f' t k : k <> f -> wanted (<[f := form]> s) f' t k <-> wanted s f' t k.
Proof. intros Hne. unfold wanted. by rewrite lookup_insert_ne. Qed.

Lemma wanted_insert_eq s f form f' t :
  wanted (<[f := form]> s) f' t f <-> parentForm form = Some f' /\ has_error form t /\ f ∉ removed.
Proof. unfold wanted. rewrite lookup_insert_eq. naive_solver. Qed.

Lemma wanted_eq s f form f' t : s !! f = Some form -> wanted s f' t f <-> parentForm form = Some f' /\ has_error form t /\ f ∉ removed.
Proof. intros Hf. unfold wanted. rewrite Hf. naive_solver. Qed.

Lemma in_queue_insert_ne s f form f' t k : f' <> f -> in_queue (<[f := form]> s) f' t k <-> in_queue s f' t k.
Proof. intros Hne. unfold in_queue. by rewrite lookup_insert_ne. Qed.

Lemma in_queue_eq s f form t k : s !! f = Some form -> in_queue s f t k <-> listed form t k.
Proof. intros Hf. unfold in_queue. rewrite Hf. naive_solver. Qed.

(** One controller is replaced. *)
Lemma inv_replace E E' X s f form form' :
  inv E X s -> s !! f = Some form -> local_ok form' ->
  parentForm form' = parentForm form -> is_form form' = is_form form -> detached form' = detached form ->
  (forall t k, k <> f -> is_form form = true -> detached form = false -> ~ E' f t k -> listed form' t k <-> wanted s f t k) ->
  (forall t, ~ listed form' t f) ->
  (forall f' t, parentForm form = Some f' -> ~ E' f' t f -> has_error form' t <-> has_error form t) ->
  (forall f' t k, f' <> f -> E f' t k -> E' f' t k) -> inv E' X (<[f := form']> s).
Proof.
  intros Hinv Hf Hlocal Hpar Hform Hdet Hlisted Hself Herr HE. pose proof (inv_ordered _ _ _ Hinv) as Hord. split.
  - intros c ctrl [[<- <-]|[_ Hc]]%lookup_insert_Some; [done|by eapply inv_local].
  - intros c ctrl p Hc Hcp. assert (Hold : exists old, s !! c = Some old /\ parentForm old = Some p).
    { apply lookup_insert_Some in Hc as [[<- <-]|[_ Hc]]; [|by eauto]. exists form. by rewrite <- Hpar. }
    destruct Hold as (old & Ho & Hop). destruct (inv_parent _ _ _ Hinv _ _ _ Ho Hop) as [Hlt (g & Hg & Hgf)]. split; [done|].
    destruct (decide (p = f)) as [->|Hne]; [exists form'; rewrite lookup_insert_eq; split; [done|congruence]|].
    exists g. by rewrite lookup_insert_ne.
  - intros f' form1 t k Hf1 Hif1 Hd1 HnE. destruct (decide (f' = f)) as [->|Hne].
    + rewrite lookup_insert_eq in Hf1. injection Hf1 as <-. rewrite (in_queue_eq _ f form') by apply lookup_insert_eq.
      destruct (decide (k = f)) as [->|Hk]; [|rewrite wanted_insert_ne by done; apply Hlisted; congruence].
      split; intros H; exfalso; [by eapply Hself|]. eapply no_own_child; [|exact H]. by eapply ordered_insert.
    + rewrite in_queue_insert_ne by done. rewrite lookup_insert_ne in Hf1 by done.
      rewrite (inv_link _ _ _ Hinv f' form1 t k) by naive_solver.
      destruct (decide (k = f)) as [->|Hkne]; [|by rewrite wanted_insert_ne].
      rewrite wanted_insert_eq, (wanted_eq s f form) by done. rewrite Hpar.
      destruct (decide (parentForm form = Some f')) as [Hpf|]; [|naive_solver]. by rewrite (Herr f').
  - intros c ctrl t [[<- <-]|[_ Hc]]%lookup_insert_Some; [apply Hself|by eapply inv_self].
  - intros c ctrl Hc Hic HX. apply lookup_insert_Some in Hc as [[<- <-]|[_ Hc]]; [|by eapply inv_detached].
    rewrite Hdet. eapply inv_detached; [done|done|congruence|done].
Qed.

Lemma inv_step E X s f form form' t v k call :
  inv (fun f' t' k' => E f' t' k' \/ (f' = f /\ t' = t /\ k' = k)) X s ->
  s !! f = Some form -> detached form = false -> is_form form = true ->
  step_ok t v k form form' call -> (wanted s f t k <-> v = false) -> k <> f ->
  inv (fun f' t' k' => E f' t' k' \/ (call = true /\ t' = t /\ k' = f /\ parentForm form = Some f')) X (<[f := form']> s).
Proof.
  intros Hinv Hf Hd Hif [Hplace Hlocal Hlisted Herr Hcall] Hw Hkf.
  destruct Hplace as (Hpar & _ & Hform & Hdet & _ & _). apply (inv_replace _ _ _ _ _ form _ Hinv); try done.
  - intros t' k' Hk' _ _ HnE. rewrite Hlisted. destruct (decide (t' = t /\ k' = k)) as [[-> ->]|Hneq]; [done|].
    rewrite <- (inv_link _ _ _ Hinv f form t' k') by naive_solver. by rewrite (in_queue_eq _ f form).
  - intros t'. rewrite Hlisted. rewrite decide_False by naive_solver. by apply (inv_self _ _ _ Hinv).
  - intros f' t' Hp HnE. apply Herr. destruct call; [left|by right]. intros ->. apply HnE. naive_solver.
  - naive_solver.
Qed.

Lemma inv_weaken (E E' : nat -> string -> nat -> Prop) X s :
  inv E X s -> (forall f form t k, s !! f = Some form -> detached form = false -> E f t k -> E' f t k) -> inv E' X s.
Proof.
  intros Hinv HE. split; [by eapply inv_local|by eapply inv_parent| |by eapply inv_self|by eapply inv_detached].
  intros f form t k Hf Hif Hd HnE. eapply inv_link; eauto.
Qed.

(** [$setValidity] mends the one link it is told about. *)
Lemma form_setValidity_spec fuel : forall f form t v k s E X,
  inv (fun f' t' k' => E f' t' k' \/ (f' = f /\ t' = t /\ k' = k)) X s ->
  t <> "" -> s !! f = Some form -> is_form form = true -> (f < fuel)%nat -> (f < k)%nat -> (forall x, X x -> (f < x)%nat) ->
  (wanted s f t k <-> v = false) ->
  exists s', form_setValidity fuel f t v k s = Some s' /\ inv E X s' /\ same_tree s s' /\
    forall c, (f < c)%nat -> s' !! c = s !! c.
Proof.
  induction fuel as [|fuel IH]; intros f form t v k s E X Hinv Ht Hf Hif Hfuel Hk HX Hw; [lia|].
  pose proof (inv_ordered _ _ _ Hinv) as Hord. destruct (detached form) eqn:Hd.
  { exists s. cbn [form_setValidity]. rewrite Hf, Hd. split_and!; try done. eapply inv_weaken; [exact Hinv|].
    intros f' form' t' k' Hf' Hd' [?|(-> & _ & _)]; [done|]. congruence. }
  rewrite form_setValidity_step with (form := form) by done.
  pose proof (form_step_ok t v k form Ht Hif (inv_local _ _ _ Hinv _ _ Hf)) as Hstep.
  destruct (form_step t v k form) as [form' call]; cbn [fst snd] in Hstep.
  pose proof (inv_step E X s f form form' t v k call Hinv Hf Hd Hif Hstep Hw ltac:(lia)) as Hinv1.
  pose proof (same_tree_insert s f form form' Hf (so_place _ _ _ _ _ _ Hstep)) as Htree.
  destruct (if call then parentForm form else None) as [p|] eqn:Hcall.
  2:{ exists (<[f := form']> s). split_and!; [done| |done|by intros; rewrite lookup_insert_ne by lia].
      eapply inv_weaken; [exact Hinv1|]. intros f' g t' k' _ _ [?|(-> & _ & _ & ?)]; [done|]. congruence. }
  destruct call; [|done]. destruct (inv_parent _ _ _ Hinv _ _ _ Hf Hcall) as [Hpf (g & Hg & Hgf)].
  destruct (IH p g t v f (<[f := form']> s) E X) as (s' & Hs' & Hinv' & Htree' & Hout); try done; try lia.
  - eapply inv_weaken; [exact Hinv1|]. intros f' h t' k' _ _ [?|(_ & -> & -> & ?)]; [by left|right]. naive_solver.
  - rewrite lookup_insert_ne by lia. done.
  - intros x Hx. specialize (HX x Hx). lia.
  - rewrite wanted_insert_eq. destruct Hstep as [(Hpar & _) _ _ _ Hc]. rewrite Hpar, Hc by done.
    pose proof (inv_detached _ _ _ Hinv _ _ Hf Hif (fun H => Nat.lt_irrefl _ (HX _ H))) as Hdet. rewrite Hd in Hdet. naive_solver.
  - exists s'. split_and!; [done|done|by etrans|]. intros c Hc. rewrite Hout by lia. by rewrite lookup_insert_ne by lia.
Qed.

Lemma flags_model c : is_form c = false -> c_error c = ModelErrors (flags_of c).
Proof. unfold is_form, flags_of. by destruct (c_error c). Qed.

Lemma model_step_place key v c : is_form c = false -> same_place (model_step key v c) c.
Proof.
  intros Hm. unfold model_step. cbv zeta. apply place_css, place_flags; [done|].
  destruct v; [|exact (place_css false "" c c (place_refl c))].
  set (n := if default false _ then _ else _).
  destruct (n =? 0)%nat; [exact (place_css true "" c c (place_refl c))|done].
Qed.

Lemma model_step_error key v c : c_error (model_step key v c) = ModelErrors (<[key := negb v]> (flags_of c)).
Proof. unfold model_step. by destruct v. Qed.

Lemma model_step_has_error key v c t :
  is_form c = false -> has_error (model_step key v c) t <-> (if decide (t = key) then v = false else has_error c t).
Proof.
  intros Hm. unfold has_error. rewrite model_step_error, (flags_model c Hm). destruct (decide (t = key)) as [->|Hne].
  - rewrite lookup_insert_eq. by destruct v.
  - by rewrite lookup_insert_ne.
Qed.

Lemma live_model c : is_form c = false -> live_tokens c = count_live (fun b => b = true) (flags_of c).
Proof. intros Hm. unfold live_tokens. by rewrite (flags_model c Hm). Qed.

Lemma model_queue c t : is_form c = false -> queue c t = None.
Proof. intros Hm. unfold queue, queues_of. by rewrite (flags_model c Hm), lookup_empty. Qed.

Lemma model_local_intro key v c c' :
  is_form c = false -> detached c' = false -> key <> "" -> c_error c' = ModelErrors (<[key := negb v]> (flags_of c)) ->
  invalidCount c' = count_live (fun b => b = true) (<[key := negb v]> (flags_of c)) ->
  c_valid c' = (invalidCount c' =? 0)%nat -> c_invalid c' = negb (c_valid c') ->
  ("ng-valid" ∈ classes c' <-> c_valid c' = true) /\ ("ng-invalid" ∈ classes c' <-> c_valid c' = false) -> local_ok c'.
Proof.
  intros Hm Hdet Hkey He Hn Hv Hi Hc. split; try done; [| |].
  - unfold live_tokens. by rewrite He.
  - intros t q. rewrite model_queue by (unfold is_form; by rewrite He). done.
  - unfold queues_of. by rewrite He.
Qed.

Lemma model_step_count key v c :
  is_form c = false -> flags_of c !! key <> Some (negb v) -> local_ok c ->
  invalidCount (model_step key v c) = count_live (fun b => b = true) (<[key := negb v]> (flags_of c)) /\
  (v = true -> (invalidCount (model_step key v c) <= invalidCount c)%nat).
Proof.
  intros Hm Hfl Hok. pose proof (ok_count _ Hok) as Hn. rewrite live_model in Hn by done. unfold model_step.
  destruct v; simpl negb in *.
  - set (n := if default false _ then _ else _). assert (Hnn : (n <= invalidCount c)%nat).
    { unfold n. destruct (default _ _); lia. }
    match goal with |- ?a = _ /\ _ => replace a with n by by destruct (n =? 0)%nat end. split; [|done]. unfold n.
    destruct (flags_of c !! key) as [[]|] eqn:Hy; simpl; [|done|].
    + pose proof (count_insert_dead (fun b => b = true) (flags_of c) key false true ltac:(done) Hy ltac:(done)). lia.
    + rewrite count_insert_still; [done|done|]. intros y. by rewrite Hy.
  - simpl. rewrite count_insert_new, Hn; [done|done|]. intros [] Hy; [by rewrite Hy in Hfl|done].
Qed.

Definition shows_validity (c : ctrl) : Prop :=
  c_valid c = (invalidCount c =? 0)%nat /\ c_invalid c = negb (c_valid c) /\
  ("ng-valid" ∈ classes c <-> c_valid c = true) /\ ("ng-invalid" ∈ classes c <-> c_valid c = false).

Lemma model_step_shows key v c :
  key <> "" -> local_ok c -> (v = true -> (invalidCount (model_step key v c) <= invalidCount c)%nat) ->
  shows_validity (model_step key v c).
Proof.
  intros Hkey Hok. unfold model_step. cbv zeta. set (c1 := if v then _ else _). cbn [invalidCount toggleValidCss]. intros Hle.
  assert (H1 : shows_validity c1).
  { destruct (ok_css _ Hok) as [Hc1 Hc2]. unfold c1 in *. clear c1. destruct v.
    - set (n := if default false _ then _ else _) in *. destruct (n =? 0)%nat eqn:H0.
      + split; [simpl; by rewrite H0|]. split; [done|]. apply (css_whole true).
      + specialize (Hle eq_refl). simpl in Hle. apply Nat.eqb_neq in H0. split; [|split; [apply Hok|done]].
        simpl. rewrite (ok_valid _ Hok), (proj2 (Nat.eqb_neq n 0) H0). apply Nat.eqb_neq. lia.
    - split; [done|]. split; [done|]. apply (css_whole false). }
  destruct H1 as (Hv & Hi & Hc1 & Hc2). set (c2 := set_error _ _ c1).
  destruct (css_other v key c2 Hkey) as [H1 H2]. unfold shows_validity. rewrite H1, H2. by destruct v.
Qed.

Lemma model_step_local key v c :
  is_form c = false -> key <> "" -> flags_of c !! key <> Some (negb v) -> local_ok c -> local_ok (model_step key v c).
Proof.
  intros Hm Hkey Hfl Hok. destruct (model_step_count key v c Hm Hfl Hok) as [Hn Hle].
  destruct (model_step_shows key v c Hkey Hok Hle) as (? & ? & ?).
  apply (model_local_intro key v c); try done; [|apply model_step_error].
  destruct (model_step_place key v c Hm) as (_ & _ & _ & -> & _). by apply ok_methods.
Qed.

Definition whole : store -> Prop := inv (fun _ _ _ => False) (fun _ => False).

(** A control's parent is a form, with a smaller number. *)
Lemma parent_setValidity_spec c ctrl key v s X :
  inv (fun f t k => t = key /\ k = c /\ parentForm ctrl = Some f) X s ->
  key <> "" -> s !! c = Some ctrl -> (has_error ctrl key <-> v = false) -> c ∉ removed -> (forall x, X x -> (c <= x)%nat) ->
  exists s', parent_setValidity c key v s = Some s' /\ inv (fun _ _ _ => False) X s' /\ same_tree s s' /\ s' !! c = Some ctrl.
Proof.
  intros Hinv Hkey Hc Herr Hrm HX. unfold parent_setValidity. rewrite Hc. destruct (parentForm ctrl) as [p|] eqn:Hp.
  - destruct (inv_parent _ _ _ Hinv _ _ _ Hc Hp) as [Hlt (form & Hf & Hform)].
    destruct (form_setValidity_spec (S p) p form key v c s (fun _ _ _ => False) X) as (s' & Hs' & Hinv' & Htree & Hout); try done; try lia.
    + eapply inv_weaken; [exact Hinv|]. naive_solver.
    + intros x Hx. specialize (HX x Hx). lia.
    + rewrite (wanted_eq s c ctrl) by done. naive_solver.
    + exists s'. rewrite Hout by done. done.
  - exists s. split_and!; try done. eapply inv_weaken; [exact Hinv|]. naive_solver.
Qed.

Theorem model_setValidity_spec c ctrl key v s :
  whole s -> s !! c = Some ctrl -> is_form ctrl = false -> c ∉ removed -> key <> "" ->
  exists s' ctrl', model_setValidity c key v s = Some s' /\ whole s' /\ same_tree s s' /\
    s' !! c = Some ctrl' /\ flags_of ctrl' = <[key := negb v]> (flags_of ctrl).
Proof.
  intros Hinv Hc Hm Hrm Hkey. unfold model_setValidity. rewrite Hc. case_bool_decide as Hfl.
  { exists s, ctrl. split_and!; try done. by rewrite insert_id. }
  pose proof (inv_local _ _ _ Hinv _ _ Hc) as Hok. pose proof (model_step_place key v ctrl Hm) as Hplace.
  set (ctrl' := model_step key v ctrl) in *. set (s1 := <[c := ctrl']> s).
  destruct (parent_setValidity_spec c ctrl' key v s1 (fun _ => False)) as (s' & Hs' & Hinv' & Htree & Hc'); try done.
  - destruct Hplace as (Hpar & _ & Hform & Hdet & _). apply (inv_replace _ _ _ _ _ ctrl _ Hinv); try done.
    + by apply model_step_local.
    + intros t k _. congruence.
    + intros t (q & Hq & _). rewrite model_queue in Hq by congruence. done.
    + intros f t Hp HnE. unfold ctrl'. rewrite model_step_has_error by done. rewrite decide_False; [done|].
      intros ->. apply HnE. by rewrite Hpar.
  - apply lookup_insert_eq.
  - unfold ctrl'. rewrite model_step_has_error by done. by rewrite decide_True.
  - exists s', ctrl'. split_and!; try done.
    + etrans; [|exact Htree]. by eapply same_tree_insert.
    + unfold flags_of at 1. unfold ctrl'. by rewrite model_step_error.
Qed.

(** *** Controls that are removed *)

Lemma clear_tokens_spec p c X tokens : forall s form,
  inv (fun f t k => f = p /\ k = c /\ t ∈ tokens) X s -> Forall (fun t => t <> "") tokens ->
  s !! p = Some form -> is_form form = true -> (p < c)%nat -> (forall x, X x -> (p < x)%nat) -> c ∈ removed ->
  exists s', clear_tokens p c tokens s = Some s' /\ inv (fun _ _ _ => False) X s' /\ same_tree s s' /\
    forall x, (p < x)%nat -> s' !! x = s !! x.
Proof.
  induction tokens as [|t tokens IH]; intros s form Hinv Htok Hp Hform Hlt HX Hc.
  { exists s. split_and!; try done. eapply inv_weaken; [exact Hinv|]. intros f g t k _ _ (_ & _ & Ht). by apply not_elem_of_nil in Ht. }
  apply Forall_cons in Htok as [Ht Htok]. cbn [clear_tokens].
  destruct (form_setValidity_spec (S p) p form t true c s (fun f t' k => f = p /\ k = c /\ t' ∈ tokens) X) as (s1 & -> & Hinv1 & Htree & Hout);
    try done; try lia.
  { eapply inv_weaken; [exact Hinv|]. intros f g t' k _ _ (-> & -> & [->|?]%elem_of_cons); naive_solver. }
  { split; [|done]. by intros (_ & _ & _ & _ & ?). }
  destruct (same_tree_lookup _ _ _ _ Htree Hp) as (form1 & Hp1 & Hplace1).
  destruct (IH s1 form1) as (s' & Hs' & Hinv' & Htree' & Hout'); try done.
  { destruct Hplace1 as (_ & _ & -> & _). done. }
  exists s'. split_and!; try done; [by etrans|]. intros x Hx. by rewrite Hout', Hout.
Qed.

(** A change of what is not about validity. *)
Lemma inv_tables E X s c ctrl l m :
  inv E X s -> s !! c = Some ctrl -> inv E X (<[c := set_controls l m ctrl]> s).
Proof.
  intros Hinv Hc. apply (inv_replace _ _ _ _ _ ctrl _ Hinv); try done.
  - by destruct (inv_local _ _ _ Hinv _ _ Hc).
  - intros t k _ Hif Hd HnE. rewrite <- (inv_link _ _ _ Hinv c ctrl t k) by done. by rewrite (in_queue_eq s c ctrl).
  - intros t. apply (inv_self _ _ _ Hinv _ _ _ Hc).
Qed.
End Removed.

Lemma alter_eq (g : ctrl -> ctrl) c (s : store) ctrl : s !! c = Some ctrl -> alter g c s = <[c := g ctrl]> s.
Proof.
  intros Hc. apply map_eq. intros x. destruct (decide (c = x)) as [<-|Hne].
  - by rewrite lookup_alter_eq, lookup_insert_eq, Hc.
  - by rewrite lookup_alter_ne, lookup_insert_ne.
Qed.

(** Forgetting a control, before its form is told. *)
Lemma inv_forget removed (s : store) c p form ctrl :
  whole removed s -> s !! c = Some ctrl -> parentForm ctrl = Some p -> s !! p = Some form -> is_form form = true ->
  inv (removed ∪ {[c]}) (fun f t k => f = p /\ k = c /\ detached form = false /\ t ∈ map fst (map_to_list (queues_of form))) (fun x => x = c) s.
Proof.
  intros Hinv Hc Hp Hf Hform. split; [by eapply inv_local|by eapply inv_parent| |by eapply inv_self|].
  - intros f g t k Hg Hig Hd HnE. rewrite (inv_link _ _ _ _ Hinv f g t k) by (done || tauto). destruct (decide (k = c)) as [->|Hkc].
    2:{ split; intros (ck & ? & ? & ? & ?); exists ck; split_and!; set_solver. }
    rewrite !wanted_eq by done. split; [|set_solver]. intros (Hpf & Herr & Hcr). exfalso.
    assert (f = p) as -> by congruence. assert (g = form) as -> by congruence.
    assert (Hw : wanted removed s p t c) by (rewrite wanted_eq by done; done).
    rewrite <- (inv_link _ _ _ _ Hinv p form t c) in Hw by (done || tauto). rewrite (in_queue_eq s p form) in Hw by done.
    destruct Hw as (q & Hq & _). apply HnE. split_and!; try done.
    apply list_elem_of_In, in_map_iff. exists (t, Some q). split; [done|]. apply list_elem_of_In.
    by apply elem_of_map_to_list, queue_lookup.
  - intros x cx Hx Hix Hxc. rewrite (inv_detached _ _ _ _ Hinv x cx) by (done || tauto). set_solver.
Qed.

(** Changes of the tables alone. *)
Definition tables_only (g : ctrl -> ctrl) : Prop := forall form, exists l m, g form = set_controls l m form.

Lemma inv_alter removed E X (s : store) p g : tables_only g -> inv removed E X s -> inv removed E X (alter g p s).
Proof.
  intros Hg Hinv. destruct (s !! p) as [form|] eqn:Hp.
  - rewrite (alter_eq _ _ _ form) by done. destruct (Hg form) as (l & m & ->). by apply inv_tables.
  - replace (alter g p s) with s; [done|]. apply map_eq. intros x. destruct (decide (p = x)) as [<-|].
    + by rewrite lookup_alter_eq, Hp.
    + by rewrite lookup_alter_ne.
Qed.

Lemma drop_name_tables c name : tables_only (drop_name c name).
Proof.
  intros form. unfold drop_name. destruct (_ && _); [by eexists _, _|]. exists (controls form), (named form). by destruct form.
Qed.

Lemma remove_tables c : tables_only (fun form => set_controls (array_remove c (controls form)) (named form) form).
Proof. intros form. by eexists _, _. Qed.

Lemma keys_nonempty form : local_ok form -> Forall (fun t => t <> "") (map fst (map_to_list (queues_of form))).
Proof.
  intros Hok. apply Forall_forall. intros t Ht ->. apply list_elem_of_In, in_map_iff in Ht as ([t q] & Heq & Ht). simpl in Heq. subst.
  apply list_elem_of_In, elem_of_map_to_list in Ht. by rewrite (ok_keys _ Hok) in Ht.
Qed.

(** *** The tree and its marks *)

Definition child (r : gset nat) (s : store) (f k : nat) : Prop :=
  exists ck, s !! k = Some ck /\ parentForm ck = Some f /\ k ∉ r.

Definition marked (c : ctrl) : Prop :=
  c_pristine c = negb (c_dirty c) /\ ("ng-dirty" ∈ classes c <-> c_dirty c = true) /\ ("ng-pristine" ∈ classes c <-> c_dirty c = false).

Record tree_ok (r : gset nat) (s : store) : Prop := TreeOk {
  tree_controls : forall f form, s !! f = Some form -> is_form form = true -> detached form = false ->
    NoDup (controls form) /\ forall k, k ∈ controls form <-> child r s f k;
  tree_marks : forall c ctrl, s !! c = Some ctrl -> marked ctrl;
  tree_dirty : forall f form k ck, s !! f = Some form -> detached form = false -> s !! k = Some ck -> parentForm ck = Some f ->
    k ∉ r -> c_dirty ck = true -> c_dirty form = true
}.

Lemma marked_same a b : same_marks a b -> marked b -> marked a.
Proof. intros (Hd & Hp & H1 & H2) (Hb & H3 & H4). unfold marked. rewrite Hd, Hp, H1, H2. done. Qed.

(** A store whose controllers have the same marks, other lists of controls and perhaps fewer methods. *)
Definition tree_change (ctl : nat -> list nat -> list nat) (det : nat -> bool) (s s' : store) : Prop :=
  forall x, option_Forall2 (fun a b => parentForm a = parentForm b /\ is_form a = is_form b /\ detached a = detached b || det x /\
    same_marks a b /\ controls a = ctl x (controls b)) (s' !! x) (s !! x).

Lemma tree_change_lookup ctl det s s' x a :
  tree_change ctl det s s' -> s' !! x = Some a ->
  exists b, s !! x = Some b /\ parentForm a = parentForm b /\ is_form a = is_form b /\ detached a = detached b || det x /\
    same_marks a b /\ controls a = ctl x (controls b).
Proof. intros H Hx. specialize (H x). rewrite Hx in H. inversion H; subst. eauto. Qed.

Lemma tree_change_back ctl det s s' x b :
  tree_change ctl det s s' -> s !! x = Some b -> exists a, s' !! x = Some a /\ parentForm a = parentForm b.
Proof. intros H Hx. specialize (H x). rewrite Hx in H. inversion H; subst. naive_solver. Qed.

Lemma tree_change_child ctl det s s' r f k : tree_change ctl det s s' -> child r s' f k <-> child r s f k.
Proof.
  intros H. split; intros (ck & Hk & Hp & Hr).
  - destruct (tree_change_lookup _ _ _ _ _ _ H Hk) as (b & Hb & Hpb & _). exists b. split; [done|]. by rewrite <- Hpb.
  - destruct (tree_change_back _ _ _ _ _ _ H Hk) as (a & Ha & Hpa). exists a. split; [done|]. by rewrite Hpa.
Qed.

Lemma tree_ok_change r r' ctl det s s' :
  tree_ok r s -> tree_change ctl det s s' -> r ⊆ r' ->
  (forall f l, det f = false -> NoDup l -> (forall k, k ∈ l <-> child r s f k) -> NoDup (ctl f l) /\ forall k, k ∈ ctl f l <-> child r' s f k) ->
  tree_ok r' s'.
Proof.
  intros [Hc Hm Hd] Hch Hr Hctl. split.
  - intros f form Hf Hif Hdet. destruct (tree_change_lookup _ _ _ _ _ _ Hch Hf) as (b & Hb & _ & Hbf & Hbd & _ & ->).
    rewrite Hdet in Hbd. symmetry in Hbd. apply orb_false_iff in Hbd as [Hbd Hdf].
    destruct (Hc f b Hb ltac:(congruence) Hbd) as [Hnd Hin]. destruct (Hctl f _ Hdf Hnd Hin) as [Hnd' Hin']. split; [done|].
    intros k. rewrite Hin'. symmetry. by eapply tree_change_child.
  - intros c ctrl Hx. destruct (tree_change_lookup _ _ _ _ _ _ Hch Hx) as (b & Hb & _ & _ & _ & Hmk & _).
    eapply marked_same; [exact Hmk|by eapply Hm].
  - intros f form k ck Hf Hdet Hk Hp Hkr Hdk.
    destruct (tree_change_lookup _ _ _ _ _ _ Hch Hf) as (b & Hb & _ & _ & Hbd & (Hdb & _) & _).
    destruct (tree_change_lookup _ _ _ _ _ _ Hch Hk) as (bk & Hbk & Hpk & _ & _ & (Hdbk & _) & _).
    rewrite Hdet in Hbd. symmetry in Hbd. apply orb_false_iff in Hbd as [Hbd _].
    rewrite Hdb. apply (Hd f b k bk); try done; [congruence|set_solver|congruence].
Qed.

Lemma same_tree_change s s' : same_tree s s' -> tree_change (fun _ l => l) (fun _ => false) s s'.
Proof.
  intros H x. specialize (H x). destruct H as [a b (? & ? & ? & ? & ? & ? & ?)|]; constructor. rewrite orb_false_r. done.
Qed.

Lemma tree_ok_same r s s' : tree_ok r s -> same_tree s s' -> tree_ok r s'.
Proof. intros Hok Hs. eapply tree_ok_change; [exact Hok|by apply same_tree_change|done|]. done. Qed.

(** What removing a control does to the tree. *)
Lemma remove_tree r s p c ctrl form s2 :
  tree_ok r s -> s !! c = Some ctrl -> parentForm ctrl = Some p -> s !! p = Some form ->
  same_tree (alter (drop_name c (c_name ctrl)) p s) s2 ->
  tree_ok (r ∪ {[c]}) (alter (fun form => set_controls (array_remove c (controls form)) (named form) form) p s2).
Proof.
  intros Hok Hc Hpar Hp Hs.
  apply (tree_ok_change r _ (fun x l => if decide (x = p) then array_remove c l else l) (fun _ => false) s); [done| |set_solver|].
  - intros x. specialize (Hs x). destruct (decide (x = p)) as [->|Hne].
    + rewrite lookup_alter_eq in *. rewrite Hp in *. inversion Hs as [a b Hab Ha Hb|]; subst. simpl. constructor. simpl.
      destruct Hab as (H1 & H2 & H3 & H4 & H5 & H6 & H7). simpl in *. unfold drop_name in *. rewrite orb_false_r.
      destruct (_ && _); simpl in *; split_and!; try done; by rewrite H5.
    + rewrite lookup_alter_ne in * by done. destruct Hs as [a b (? & ? & ? & ? & ? & ? & ?)|]; constructor. by rewrite orb_false_r.
  - intros f l _ Hnd Hl. assert (Hch : forall k, child (r ∪ {[c]}) s f k <-> child r s f k /\ k <> c).
    { intros k. split; [intros (ck & ? & ? & ?)|intros [(ck & ? & ? & ?) ?]]; [split; [exists ck|]|exists ck]; set_solver. }
    destruct (decide (f = p)) as [->|Hne].
    + destruct (array_remove_spec c l Hnd) as [Hnd' Hin]. split; [done|]. intros k. by rewrite Hin, Hl, Hch.
    + split; [done|]. intros k. rewrite Hl, Hch. split; [|tauto]. intros Hk. split; [done|]. intros ->.
      destruct Hk as (ck & Hck & Hp' & _). congruence.
Qed.

(** A form that is detached does not see its controls go. *)
Lemma remove_tree_detached r s p c ctrl form :
  tree_ok r s -> s !! c = Some ctrl -> parentForm ctrl = Some p -> s !! p = Some form -> detached form = true ->
  tree_ok (r ∪ {[c]}) s.
Proof.
  intros Hok Hc Hpar Hp Hd. apply (tree_ok_change r _ (fun _ l => l) (fun x => bool_decide (x = p)) s); [done| |set_solver|].
  - intros x. destruct (s !! x) as [cx|] eqn:Hx; constructor. split_and!; try done.
    case_bool_decide as Hxp; [|by rewrite orb_false_r]. subst x. assert (cx = form) as -> by congruence. by rewrite Hd.
  - intros f l Hf Hnd Hl. apply bool_decide_eq_false in Hf. split; [done|]. intros k. rewrite Hl.
    split; intros (ck & ? & ? & ?); exists ck; split_and!; try done; [|set_solver].
    apply not_elem_of_union. split; [done|]. intros ->%elem_of_singleton. congruence.
Qed.

Lemma removeControl_spec removed (s : store) c p ctrl form :
  whole removed s -> tree_ok removed s -> s !! c = Some ctrl -> parentForm ctrl = Some p -> s !! p = Some form -> is_form form = true ->
  exists s', removeControl p c s = Some s' /\ inv (removed ∪ {[c]}) (fun _ _ _ => False) (fun x => x = c) s' /\ s' !! c = Some ctrl /\
    tree_ok (removed ∪ {[c]}) s'.
Proof.
  intros Hinv Htree Hc Hpar Hp Hform. pose proof (inv_forget removed s c p form ctrl Hinv Hc Hpar Hp Hform) as Hf.
  unfold removeControl. rewrite Hp, Hc. destruct (detached form) eqn:Hd.
  { exists s. split_and!; try done; [|by eapply remove_tree_detached]. eapply inv_weaken; [exact Hf|]. naive_solver. }
  destruct (inv_parent _ _ _ _ Hinv _ _ _ Hc Hpar) as [Hlt _].
  destruct (drop_name_tables c (c_name ctrl) form) as (l & m & Hdn).
  destruct (clear_tokens_spec (removed ∪ {[c]}) p c (fun x => x = c) (map fst (map_to_list (queues_of form)))
    (alter (drop_name c (c_name ctrl)) p s) (drop_name c (c_name ctrl) form)) as (s' & -> & Hinv' & Hsame & Hout).
  - apply inv_alter; [apply drop_name_tables|]. eapply inv_weaken; [exact Hf|]. naive_solver.
  - apply keys_nonempty. by eapply inv_local.
  - by rewrite lookup_alter_eq, Hp.
  - by rewrite Hdn.
  - done.
  - by intros x ->.
  - set_solver.
  - eexists. split; [done|]. split; [by apply inv_alter; [apply remove_tables|]|].
    split; [|by eapply remove_tree].
    rewrite lookup_alter_ne by lia. rewrite Hout by lia. by rewrite lookup_alter_ne by lia.
Qed.

Lemma inv_detach removed s c ctrl :
  inv removed (fun _ _ _ => False) (fun x => x = c) s -> s !! c = Some ctrl -> is_form ctrl = true -> c ∈ removed ->
  whole removed (alter detach c s).
Proof.
  intros Hinv Hc Hif Hr. rewrite (alter_eq _ _ _ ctrl) by done. split.
  - intros x cx [[<- <-]|[_ Hx]]%lookup_insert_Some; [|by eapply inv_local].
    destruct (inv_local _ _ _ _ Hinv _ _ Hc). split; try done. intros Hm. exfalso. change (is_form ctrl = false) in Hm. congruence.
  - intros x cx p Hx Hp. assert (Hold : exists old, s !! x = Some old /\ parentForm old = Some p).
    { apply lookup_insert_Some in Hx as [[<- <-]|[_ Hx]]; by eauto. }
    destruct Hold as (old & Ho & Hop). destruct (inv_parent _ _ _ _ Hinv _ _ _ Ho Hop) as [Hlt (g & Hg & Hgf)]. split; [done|].
    destruct (decide (p = c)) as [->|Hne]; [exists (detach ctrl); by rewrite lookup_insert_eq|].
    exists g. by rewrite lookup_insert_ne.
  - intros f form t k Hf Hiff Hd _. assert (Hne : f <> c).
    { intros ->. rewrite lookup_insert_eq in Hf. injection Hf as <-. done. }
    rewrite in_queue_insert_ne by done. rewrite lookup_insert_ne in Hf by done.
    rewrite (inv_link _ _ _ _ Hinv f form t k) by (done || tauto). destruct (decide (k = c)) as [->|Hkc].
    + by rewrite wanted_insert_eq, (wanted_eq _ s c ctrl).
    + by rewrite wanted_insert_ne.
  - intros x cx t [[<- <-]|[_ Hx]]%lookup_insert_Some; [|by eapply inv_self]. by apply (inv_self _ _ _ _ Hinv c ctrl t).
  - intros x cx [[<- <-]|[? Hx]]%lookup_insert_Some Hix _; [done|]. eapply inv_detached; [done|done|done|]. by intros ->.
Qed.

Lemma detach_tree r s c ctrl : tree_ok r s -> s !! c = Some ctrl -> tree_ok r (alter detach c s).
Proof.
  intros Hok Hc. apply (tree_ok_change r r (fun _ l => l) (fun x => bool_decide (x = c)) s); try done.
  intros x. case_bool_decide as Hx; [subst x; rewrite lookup_alter_eq, Hc; constructor; by rewrite orb_true_r|].
  rewrite lookup_alter_ne by done. destruct (s !! x); constructor. by rewrite orb_false_r.
Qed.

(** All that is kept. *)
Record good (r : gset nat) (s : store) : Prop := Good { good_whole : whole r s; good_tree : tree_ok r s }.

Lemma destroy_form_spec r s c ctrl p :
  good r s -> s !! c = Some ctrl -> is_form ctrl = true -> parentForm ctrl = Some p ->
  exists s', destroy_form c s = Some s' /\ good (r ∪ {[c]}) s'.
Proof.
  intros [Hinv Htree] Hc Hif Hpar. unfold destroy_form. rewrite Hc, Hpar.
  destruct (inv_parent _ _ _ _ Hinv _ _ _ Hc Hpar) as [_ (form & Hp & Hform)].
  destruct (removeControl_spec r s c p ctrl form Hinv Htree Hc Hpar Hp Hform) as (s' & -> & Hinv' & Hc' & Htree').
  eexists. split; [done|]. split; [eapply inv_detach; [done|done|done|set_solver]|by eapply detach_tree].
Qed.

Lemma destroy_model_spec r s c ctrl :
  good r s -> s !! c = Some ctrl -> is_form ctrl = false ->
  exists s', destroy_model c s = Some s' /\ good (r ∪ {[c]}) s'.
Proof.
  intros [Hinv Htree] Hc Hif. unfold destroy_model. rewrite Hc. destruct (parentForm ctrl) as [p|] eqn:Hpar.
  - destruct (inv_parent _ _ _ _ Hinv _ _ _ Hc Hpar) as [_ (form & Hp & Hform)].
    destruct (removeControl_spec r s c p ctrl form Hinv Htree Hc Hpar Hp Hform) as (s' & -> & Hinv' & Hc' & Htree').
    exists s'. split; [done|]. split; [|done].
    split; [by eapply inv_local|by eapply inv_parent|by apply (inv_link _ _ _ _ Hinv')|by eapply inv_self|].
    intros x cx Hx Hix _. eapply inv_detached; [done|done|done|]. intros ->. congruence.
  - assert (Hch : forall f k, child (r ∪ {[c]}) s f k <-> child r s f k).
    { intros f k. split; intros (ck & ? & ? & ?); exists ck; split_and!; try done; [set_solver|].
      apply not_elem_of_union. split; [done|]. intros ->%elem_of_singleton. congruence. }
    exists s. split; [done|]. split.
    + split; [by eapply inv_local|by eapply inv_parent| |by eapply inv_self|].
      * intros f form t k Hf Hiff Hd HE. rewrite (inv_link _ _ _ _ Hinv f form t k) by done.
        split; intros (ck & ? & ? & ? & ?); exists ck; split_and!; try done; set_solver.
      * intros x cx Hx Hix _. rewrite (inv_detached _ _ _ _ Hinv x cx) by (done || tauto).
        rewrite elem_of_union, elem_of_singleton. split; [by left|]. intros [?| ->]; [done|congruence].
    + apply (tree_ok_change r _ (fun _ l => l) (fun _ => false) s); [done|by apply same_tree_change|set_solver|].
      intros f l _ Hnd Hl. split; [done|]. intros k. by rewrite Hch.
Qed.

Lemma model_setValidity_good r s c ctrl key v :
  good r s -> s !! c = Some ctrl -> is_form ctrl = false -> c ∉ r -> key <> "" ->
  exists s' ctrl', model_setValidity c key v s = Some s' /\ good r s' /\
    s' !! c = Some ctrl' /\ is_form ctrl' = false /\ flags_of ctrl' = <[key := negb v]> (flags_of ctrl).
Proof.
  intros [Hinv Htree] Hc Hif Hr Hkey. destruct (model_setValidity_spec r c ctrl key v s) as (s' & ctrl' & Hs & Hi & Ht & Hc' & Hfl); try done.
  exists s', ctrl'. split; [done|]. split; [split; [done|by eapply tree_ok_same]|]. split; [done|]. split; [|done].
  destruct (same_tree_lookup _ _ _ _ Ht Hc) as (a & Ha & _ & _ & Hfa & _). congruence.
Qed.

(** *** New controllers, dirtiness *)

Lemma local_new parent name e : live_tokens (new_ctrl parent name e) = 0%nat -> queues_of (new_ctrl parent name e) = ∅ -> local_ok (new_ctrl parent name e).
Proof.
  intros Hl Hq. split; try done.
  - intros t q Hq'%queue_lookup. by rewrite Hq in Hq'.
  - by rewrite Hq.
Qed.

Lemma inv_insert_new removed s c parent name e :
  whole removed s -> s !! c = None -> c ∉ removed -> live_tokens (new_ctrl parent name e) = 0%nat -> queues_of (new_ctrl parent name e) = ∅ ->
  (forall p, parent = Some p -> (p < c)%nat /\ exists form, s !! p = Some form /\ is_form form = true) ->
  whole removed (<[c := new_ctrl parent name e]> s).
Proof.
  intros Hinv Hc Hr Hl Hq Hpar. pose proof (local_new _ _ _ Hl Hq) as Hok.
  assert (Hnq : forall t, queue (new_ctrl parent name e) t = None) by (intros t; unfold queue; by rewrite Hq, lookup_empty).
  assert (Hne : forall t, ~ has_error (new_ctrl parent name e) t) by by apply valid_iff.
  split.
  - intros x cx [[<- <-]|[_ Hx]]%lookup_insert_Some; [done|by eapply inv_local].
  - intros x cx p [[<- <-]|[_ Hx]]%lookup_insert_Some Hp.
    + destruct (Hpar p Hp) as (Hlt & g & Hg & Hgf). split; [done|]. exists g. rewrite lookup_insert_ne by lia. done.
    + destruct (inv_parent _ _ _ _ Hinv _ _ _ Hx Hp) as (Hlt & g & Hg & Hgf). split; [done|]. exists g.
      rewrite lookup_insert_ne; [done|]. intros ->. congruence.
  - intros f form t k Hf Hif Hd _. destruct (decide (f = c)) as [->|Hfc].
    + rewrite lookup_insert_eq in Hf. injection Hf as <-. rewrite (in_queue_eq _ c _ t k) by apply lookup_insert_eq. split.
      * intros (q & Hq' & _). by rewrite Hnq in Hq'.
      * intros (ck & Hk & Hp & _). exfalso. apply lookup_insert_Some in Hk as [[<- <-]|[_ Hk]].
        -- destruct (Hpar c Hp). lia.
        -- destruct (inv_parent _ _ _ _ Hinv _ _ _ Hk Hp) as (_ & g & Hg & _). congruence.
    + rewrite in_queue_insert_ne by done. rewrite lookup_insert_ne in Hf by done.
      rewrite (inv_link _ _ _ _ Hinv f form t k) by (done || tauto). destruct (decide (k = c)) as [->|Hkc].
      * rewrite wanted_insert_eq. split; [intros (ck & ? & _); congruence|]. intros (_ & He & _). by apply Hne in He.
      * by rewrite wanted_insert_ne.
  - intros x cx t [[<- <-]|[_ Hx]]%lookup_insert_Some; [|by eapply inv_self]. intros (q & Hq' & _). by rewrite Hnq in Hq'.
  - intros x cx [[<- <-]|[_ Hx]]%lookup_insert_Some Hix _; [done|]. eapply inv_detached; [done|done|done|tauto].
Qed.

(** A new controller in the tree. *)
Lemma tree_new r s s' c parent name e :
  good r s -> s !! c = None -> c ∉ r -> s' !! c = Some (new_ctrl parent name e) -> parent <> Some c ->
  (forall x a, x <> c -> s' !! x = Some a -> exists b, s !! x = Some b /\ parentForm a = parentForm b /\ is_form a = is_form b /\
     detached a = detached b /\ same_marks a b /\
     (controls a = if bool_decide (parent = Some x) && negb (detached b) then controls b ++ [c] else controls b)) ->
  (forall x b, s !! x = Some b -> exists a, s' !! x = Some a /\ parentForm a = parentForm b) -> tree_ok r s'.
Proof.
  intros [Hinv [Hcs Hm Hd]] Hc Hr Hc' Hpc Hfrom Hto.
  assert (Hch : forall f k, child r s' f k <-> child r s f k \/ (k = c /\ parent = Some f)).
  { intros f k. split.
    - intros (ck & Hk & Hp & Hkr). destruct (decide (k = c)) as [->|Hne]; [right; rewrite Hc' in Hk; by injection Hk as <-|left].
      destruct (Hfrom k ck Hne Hk) as (b & Hb & Hpb & _). exists b. split; [done|]. by rewrite <- Hpb.
    - intros [(ck & Hk & Hp & Hkr)|[-> Hp]]; [|by exists (new_ctrl parent name e)].
      destruct (Hto k ck Hk) as (a & Ha & Hpa). exists a. split; [done|]. by rewrite Hpa. }
  assert (Hno : forall k, ~ child r s' c k).
  { intros k [(ck & Hk & Hp & _)|[-> Hp]]%Hch; [|done]. destruct (inv_parent _ _ _ _ Hinv _ _ _ Hk Hp) as (_ & g & Hg & _). congruence. }
  split.
  - intros f form Hf Hif Hdet. destruct (decide (f = c)) as [->|Hne].
    + rewrite Hc' in Hf. injection Hf as <-. split; [constructor|]. intros k. split; [by intros ?%not_elem_of_nil|by intros ?%Hno].
    + destruct (Hfrom f form Hne Hf) as (b & Hb & _ & Hib & Hdb & _ & ->).
      destruct (Hcs f b Hb ltac:(congruence) ltac:(congruence)) as [Hnd Hin]. rewrite <- Hdb, Hdet, andb_true_r.
      case_bool_decide as Hpar.
      * split.
        -- apply NoDup_app. split_and!; [done| |apply NoDup_singleton]. intros k Hk ->%list_elem_of_singleton.
           apply Hin in Hk as (ck & ? & _). congruence.
        -- intros k. rewrite elem_of_app, list_elem_of_singleton, Hin, Hch. naive_solver.
      * split; [done|]. intros k. rewrite Hin, Hch. naive_solver.
  - intros x a Hx. destruct (decide (x = c)) as [->|Hne].
    + rewrite Hc' in Hx. injection Hx as <-. split; [done|]. unfold new_ctrl. destruct (css_marks true "" (Ctrl parent name e 0 true false false true {["ng-pristine"]} [] ∅ false)) as (_ & _ & -> & ->).
      simpl. rewrite !elem_of_singleton. done.
    + destruct (Hfrom x a Hne Hx) as (b & Hb & _ & _ & _ & Hmk & _). eapply marked_same; [exact Hmk|by eapply Hm].
  - intros f form k ck Hf Hdet Hk Hp Hkr Hdk. destruct (decide (k = c)) as [->|Hkc]; [rewrite Hc' in Hk; by injection Hk as <-|].
    destruct (decide (f = c)) as [->|Hfc]; [exfalso; apply (Hno k); by exists ck|].
    destruct (Hfrom f form Hfc Hf) as (b & Hb & _ & _ & Hdb & (Hmb & _) & _).
    destruct (Hfrom k ck Hkc Hk) as (bk & Hbk & Hpk & _ & _ & (Hmk & _) & _).
    rewrite Hmb. apply (Hd f b k bk); try done; congruence.
Qed.

Definition parent_ok (s : store) (c : nat) (parent : option nat) : Prop :=
  forall p, parent = Some p -> (p < c)%nat /\ exists form, s !! p = Some form /\ is_form form = true.

Definition attach (parent : option nat) (c : nat) (s : store) : result string store :=
  match parent with None => Ok s | Some p => addControl p c s end.

Lemma attach_tree s s' c parent name e :
  let new := new_ctrl parent name e in
  s !! c = None -> parent_ok s c parent -> attach parent c (<[c := new]> s) = Ok s' ->
  s' !! c = Some new /\
  (forall x a, x <> c -> s' !! x = Some a -> exists b, s !! x = Some b /\ parentForm a = parentForm b /\ is_form a = is_form b /\
     detached a = detached b /\ same_marks a b /\
     (controls a = if bool_decide (parent = Some x) && negb (detached b) then controls b ++ [c] else controls b)) /\
  (forall x b, s !! x = Some b -> exists a, s' !! x = Some a /\ parentForm a = parentForm b).
Proof.
  intros new Hc Hp Ha.
  assert (Hid : forall q, (forall f, q = Some f -> exists form, s !! f = Some form /\ detached form = true) ->
    let s1 := <[c := new]> s in s1 !! c = Some new /\
    (forall x a, x <> c -> s1 !! x = Some a -> exists b, s !! x = Some b /\ parentForm a = parentForm b /\ is_form a = is_form b /\
      detached a = detached b /\ same_marks a b /\
      (controls a = if bool_decide (q = Some x) && negb (detached b) then controls b ++ [c] else controls b)) /\
    (forall x b, s !! x = Some b -> exists a, s1 !! x = Some a /\ parentForm a = parentForm b)).
  { intros q Hq s1. unfold s1. split; [apply lookup_insert_eq|]. split.
    - intros x a Hx. rewrite lookup_insert_ne by done. intros Hxa. exists a. split_and!; try done.
      case_bool_decide as Hqx; [|done]. destruct (Hq x Hqx) as (form & Hf & Hd). assert (a = form) as -> by congruence. by rewrite Hd.
    - intros x b Hb. exists b. rewrite lookup_insert_ne; [done|]. intros ->. congruence. }
  destruct parent as [p|]; [|injection Ha as <-; by apply (Hid None)].
  destruct (Hp p eq_refl) as (Hlt & form & Hf & Hform). unfold attach, addControl in Ha.
  rewrite lookup_insert_eq, lookup_insert_ne, Hf in Ha by lia. destruct (detached form) eqn:Hd.
  { injection Ha as <-. apply (Hid (Some p)). intros f [= <-]. eauto. }
  destruct (String.eqb _ _); [done|]. injection Ha as <-. rewrite (alter_eq _ p _ form) by (rewrite lookup_insert_ne by lia; done).
  split; [by rewrite lookup_insert_ne, lookup_insert_eq by lia|]. split.
  - intros x a Hx. destruct (decide (p = x)) as [<-|Hne].
    + rewrite lookup_insert_eq. intros [= <-]. exists form. split_and!; try done. by rewrite bool_decide_eq_true_2, Hd.
    + rewrite !lookup_insert_ne by done. intros Hxa. exists a. split_and!; try done. by rewrite bool_decide_eq_false_2 by congruence.
  - intros x b Hb. destruct (decide (p = x)) as [<-|Hne].
    + rewrite lookup_insert_eq. assert (b = form) as -> by congruence. by eexists.
    + exists b. rewrite !lookup_insert_ne; [done| |done]. intros ->. congruence.
Qed.

Lemma attach_whole r s s' c parent : whole r s -> attach parent c s = Ok s' -> whole r s'.
Proof.
  intros Hinv. unfold attach, addControl. destruct parent as [p|]; [|by intros [= <-]].
  destruct (s !! p) as [form|]; [|done]. destruct (s !! c) as [ctrl|]; [|done]. destruct (detached form); [by intros [= <-]|].
  destruct (String.eqb _ _); [done|]. intros [= <-]. apply inv_alter; [|done]. intros g. by eexists _, _.
Qed.

Lemma new_spec r s s' c parent name e :
  let new := new_ctrl parent name e in
  good r s -> s !! c = None -> c ∉ r -> parent_ok s c parent -> live_tokens new = 0%nat -> queues_of new = ∅ ->
  attach parent c (<[c := new]> s) = Ok s' -> good r s'.
Proof.
  intros new Hg Hc Hr Hp Hl Hq Ha. split.
  - eapply attach_whole; [|exact Ha]. apply inv_insert_new; try done. apply Hg.
  - destruct (attach_tree s s' c parent name e Hc Hp Ha) as (H1 & H2 & H3).
    apply (tree_new r s s' c parent name e); try done. intros ->. destruct (Hp c eq_refl). lia.
Qed.

(** *** Dirtiness *)

Lemma inv_dirty r E X s c ctrl d : inv r E X s -> s !! c = Some ctrl -> inv r E X (<[c := set_dirty d (dirty_css d ctrl)]> s).
Proof.
  intros Hinv Hc. assert (Hcss : forall x, (x = "ng-valid" \/ x = "ng-invalid") -> x ∈ classes (dirty_css d ctrl) <-> x ∈ classes ctrl).
  { intros x Hx. unfold dirty_css. destruct d; simpl; rewrite elem_of_difference, elem_of_union, !elem_of_singleton;
      destruct Hx as [-> | ->]; split; intros; by intuition discriminate. }
  apply (inv_replace r E E X s c ctrl); try done; try by destruct d.
  - destruct (inv_local _ _ _ _ Hinv _ _ Hc) as [H1 H2 H3 H4 H5 H6 [H7 H8]].
    split; try by destruct d. split; cbn [classes set_dirty c_valid]; rewrite Hcss by tauto; by destruct d.
  - intros t k _ Hif Hd HnE. rewrite <- (inv_link _ _ _ _ Hinv c ctrl t k) by done. rewrite (in_queue_eq s c ctrl) by done. by destruct d.
  - intros t Ht. apply (inv_self _ _ _ _ Hinv c ctrl t Hc). by destruct d.
Qed.

Section Dirty.
Context (r : gset nat).

(** The links in [E] may go from a dirty control to a form that is not. *)
Record tree_but (E : nat -> nat -> Prop) (s : store) : Prop := TreeBut {
  but_controls : forall f form, s !! f = Some form -> is_form form = true -> detached form = false ->
    NoDup (controls form) /\ forall k, k ∈ controls form <-> child r s f k;
  but_marks : forall c ctrl, s !! c = Some ctrl -> marked ctrl;
  but_dirty : forall f form k ck, s !! f = Some form -> detached form = false -> s !! k = Some ck -> parentForm ck = Some f ->
    k ∉ r -> ~ E f k -> c_dirty ck = true -> c_dirty form = true
}.

Lemma tree_but_ok s : tree_but (fun _ _ => False) s <-> tree_ok r s.
Proof. split; intros [H1 H2 H3]; split; try done; intros; eapply H3; eauto. Qed.

Lemma tree_but_weaken (E E' : nat -> nat -> Prop) s :
  tree_but E s -> (forall f form k, s !! f = Some form -> detached form = false -> E f k -> E' f k) -> tree_but E' s.
Proof. intros [H1 H2 H3] HE. split; try done. intros. eapply H3; eauto. Qed.

Lemma marked_dirty d c : marked (set_dirty d (dirty_css d c)).
Proof.
  split; [done|]. unfold dirty_css. destruct d; simpl; rewrite !elem_of_difference, !elem_of_union, !elem_of_singleton;
    split; split; intros; by intuition discriminate.
Qed.

Lemma dirty_fields d c :
  let c' := set_dirty d (dirty_css d c) in
  parentForm c' = parentForm c /\ is_form c' = is_form c /\ detached c' = detached c /\ controls c' = controls c /\ c_dirty c' = d.
Proof. by destruct d. Qed.

Lemma tree_but_set E E' s c ctrl d :
  tree_but E s -> ordered s -> s !! c = Some ctrl ->
  (forall f k, f <> c -> k <> c -> E f k -> E' f k) ->
  (forall k ck, s !! k = Some ck -> parentForm ck = Some c -> k ∉ r -> detached ctrl = false -> d = false -> E' c k) ->
  (forall f, parentForm ctrl = Some f -> d = true -> E' f c) ->
  tree_but E' (<[c := set_dirty d (dirty_css d ctrl)]> s).
Proof.
  intros [H1 H2 H3] Hord Hc HE HEc HEp. destruct (dirty_fields d ctrl) as (Hp & Hi & Hd & Hcs & Hdd).
  assert (Hch : forall f k, child r (<[c := set_dirty d (dirty_css d ctrl)]> s) f k <-> child r s f k).
  { intros f k. unfold child. destruct (decide (c = k)) as [<-|Hne]; [|by rewrite lookup_insert_ne].
    rewrite lookup_insert_eq, Hc. split; intros (ck & [= <-] & Hpk & Hk); eexists; split_and!; try done; congruence. }
  set (c' := set_dirty d (dirty_css d ctrl)) in *. split.
  - intros f form [[<- <-]|[_ Hf]]%lookup_insert_Some Hif Hdf.
    + rewrite Hcs. setoid_rewrite Hch. apply H1; congruence.
    + setoid_rewrite Hch. by apply H1.
  - intros x cx [[<- <-]|[_ Hx]]%lookup_insert_Some; [apply marked_dirty|by eapply H2].
  - intros f form k ck Hf Hdf Hk Hpk Hkr HnE Hdk.
    apply lookup_insert_Some in Hf as [[<- <-]|[Hfc Hf]]; apply lookup_insert_Some in Hk as [[<- <-]|[Hkc Hk]].
    + rewrite Hp in Hpk. pose proof (Hord _ _ _ Hc Hpk). lia.
    + rewrite Hdd. destruct d; [done|]. exfalso. apply HnE. eapply HEc; eauto; congruence.
    + exfalso. rewrite Hdd in Hdk. apply HnE, HEp; congruence.
    + eapply H3; eauto.
Qed.

Lemma dirty_error (s : store) c ctrl d : s !! c = Some ctrl ->
  forall x, c_error <$> (<[c := set_dirty d (dirty_css d ctrl)]> s) !! x = c_error <$> s !! x.
Proof.
  intros Hc x. destruct (decide (c = x)) as [<-|]; [|by rewrite lookup_insert_ne].
  rewrite lookup_insert_eq, Hc. by destruct d.
Qed.

Lemma form_setDirty_spec fuel : forall f form s,
  whole r s -> tree_but (fun f' _ => f' = f) s -> s !! f = Some form -> (f < fuel)%nat ->
  exists s', form_setDirty fuel f s = Some s' /\ good r s' /\ forall x, c_error <$> s' !! x = c_error <$> s !! x.
Proof.
  induction fuel as [|fuel IH]; intros f form s Hw Ht Hf Hfuel; [lia|]. cbn [form_setDirty]. rewrite Hf.
  pose proof (inv_ordered _ _ _ _ Hw) as Hord. destruct (detached form) eqn:Hd.
  { exists s. split; [done|]. split; [|done]. split; [done|]. apply tree_but_ok. eapply tree_but_weaken; [exact Ht|].
    intros f' g k Hf' Hd' ->. congruence. }
  pose proof (dirty_error s f form true Hf) as He1. pose proof (inv_dirty _ _ _ _ _ _ true Hw Hf) as Hw1.
  destruct (parentForm form) as [p|] eqn:Hp.
  - destruct (inv_parent _ _ _ _ Hw _ _ _ Hf Hp) as (Hlt & g & Hg & _). 
    destruct (IH p g (<[f := set_dirty true (dirty_css true form)]> s)) as (s' & Hs' & Hg' & He'); try done; [| |lia|].
    + eapply tree_but_set; [exact Ht|done|done|..]; naive_solver.
    + by rewrite lookup_insert_ne by lia.
    + exists s'. split; [done|]. split; [done|]. intros x. by rewrite He'.
  - eexists. split; [done|]. split; [|done]. split; [done|]. apply tree_but_ok.
    eapply tree_but_set; [exact Ht|done|done|..]; naive_solver.
Qed.

(** [$setPristine] goes down, so it is the links below that are out of order. *)
Definition keys_below (n : nat) (s : store) : Prop := forall x a, s !! x = Some a -> (x < n)%nat.

Definition same_shape (s s' : store) : Prop :=
  forall x, option_Forall2 (fun a b => parentForm a = parentForm b /\ is_form a = is_form b /\ detached a = detached b /\
    controls a = controls b /\ (c_dirty a = true -> c_dirty b = true)) (s' !! x) (s !! x).

#[local] Instance same_shape_po : PreOrder same_shape.
Proof.
  split.
  - intros s c. destruct (s !! c); by constructor.
  - intros s1 s2 s3 H1 H2 c. specialize (H1 c). specialize (H2 c).
    destruct H2 as [a b Hab|]; inversion H1; subst; constructor. destruct Hab as (? & ? & ? & ? & ?). naive_solver congruence.
Qed.

Lemma same_shape_lookup s s' x b : same_shape s s' -> s !! x = Some b ->
  exists a, s' !! x = Some a /\ parentForm a = parentForm b /\ is_form a = is_form b /\ detached a = detached b /\
    controls a = controls b /\ (c_dirty a = true -> c_dirty b = true).
Proof. intros H Hx. specialize (H x). rewrite Hx in H. inversion H; subst. eauto. Qed.

Lemma same_shape_bounded n s s' : keys_below n s -> same_shape s s' -> keys_below n s'.
Proof. intros Hb H x a Hx. specialize (H x). rewrite Hx in H. inversion H; subst. by eapply Hb. Qed.

Lemma same_shape_child s s' f k : same_shape s s' -> child r s f k -> child r s' f k.
Proof.
  intros H (ck & Hk & Hp & Hr). destruct (same_shape_lookup _ _ _ _ H Hk) as (a & Ha & Hpa & _). exists a.
  split_and!; try done. congruence.
Qed.

Definition pristine_post (E : nat -> nat -> Prop) (s s' : store) : Prop :=
  whole r s' /\ tree_but E s' /\ same_shape s s'.

Lemma child_methods s f k ck : whole r s -> s !! k = Some ck -> child r s f k -> detached ck = false.
Proof.
  intros Hw Hk (ck' & Hk' & _ & Hr). assert (ck' = ck) as -> by congruence. destruct (is_form ck) eqn:Hif.
  - pose proof (inv_detached _ _ _ _ Hw _ _ Hk Hif) as H. destruct (detached ck); [|done]. destruct Hr. apply H; [tauto|done].
  - by eapply ok_methods; [eapply inv_local|].
Qed.

Definition pristine_below (fuel n : nat) : Prop := forall c ctrl s E,
  whole r s -> tree_but E s -> keys_below n s -> s !! c = Some ctrl -> detached ctrl = false -> (n - c <= fuel)%nat ->
  exists s', setPristine fuel c s = Some s' /\ pristine_post (fun f k => E f k /\ k <> c) s s' /\
    exists a, s' !! c = Some a /\ c_dirty a = false.

Lemma setPristine_list fuel n c E : pristine_below fuel n -> forall l s,
  whole r s -> tree_but (fun f k => E f k \/ (f = c /\ k ∈ l)) s -> keys_below n s -> (n - c <= S fuel)%nat ->
  (forall k, k ∈ l -> child r s c k) ->
  exists s', foldl (fun s k => match s with Some s => setPristine fuel k s | None => None end) (Some s) l = Some s' /\ pristine_post E s s'.
Proof.
  intros Hbelow. induction l as [|k l IH]; intros s Hw Ht Hb Hn Hl.
  { exists s. split; [done|]. split; [done|]. split; [|done]. eapply tree_but_weaken; [exact Ht|].
    intros f g k _ _ [?|[_ ?%not_elem_of_nil]]; done. }
  pose proof (Hl k ltac:(left)) as Hk. pose proof Hk as (ck & Hck & Hpk & Hkr).
  destruct (inv_parent _ _ _ _ Hw _ _ _ Hck Hpk) as (Hlt & _). pose proof (Hb _ _ Hck).
  destruct (Hbelow k ck s _ Hw Ht Hb Hck (child_methods _ _ _ _ Hw Hck Hk) ltac:(lia)) as (s1 & Hs1 & (Hw1 & Ht1 & Hsh1) & _).
  cbn [foldl]. rewrite Hs1. destruct (IH s1) as (s' & Hs' & Hw' & Ht' & Hsh'); try done.
  - eapply tree_but_weaken; [exact Ht1|]. intros f g k' _ _ [[?|[-> [?|?]%elem_of_cons]] ?]; naive_solver.
  - by eapply same_shape_bounded.
  - intros k' Hk'. eapply same_shape_child; [exact Hsh1|]. apply Hl. by right.
  - exists s'. split; [done|]. split; [done|]. split; [done|]. by etrans.
Qed.

Lemma pristine_shape s c ctrl : s !! c = Some ctrl -> same_shape s (<[c := set_dirty false (dirty_css false ctrl)]> s).
Proof.
  intros Hc x. destruct (decide (c = x)) as [<-|Hne].
  - rewrite lookup_insert_eq, Hc. by constructor.
  - rewrite lookup_insert_ne by done. destruct (s !! x); by constructor.
Qed.

Lemma setPristine_spec fuel n : pristine_below fuel n.
Proof.
  induction fuel as [|fuel IH]; intros c ctrl s E Hw Ht Hb Hc Hd Hn; [pose proof (Hb _ _ Hc); lia|].
  cbn [setPristine]. rewrite Hc, Hd. set (l := if is_form ctrl then controls ctrl else []).
  assert (Hl : forall k, k ∈ l <-> child r s c k).
  { intros k. unfold l. destruct (is_form ctrl) eqn:Hif; [by apply (but_controls _ _ Ht c ctrl)|].
    split; [by intros ?%not_elem_of_nil|]. intros (ck & Hk & Hp & _).
    destruct (inv_parent _ _ _ _ Hw _ _ _ Hk Hp) as (_ & g & Hg & Hgf). congruence. }
  pose proof (pristine_shape s c ctrl Hc) as Hsh.
  destruct (setPristine_list fuel n c (fun f k => E f k /\ k <> c) IH l (<[c := set_dirty false (dirty_css false ctrl)]> s))
    as (s' & Hs' & Hw' & Ht' & Hsh').
  - by apply inv_dirty.
  - eapply tree_but_set; [exact Ht|by eapply inv_ordered|done|..]; [naive_solver| |done].
    intros k ck Hk Hp Hkr _ _. right. split; [done|]. apply Hl. by exists ck.
  - by eapply same_shape_bounded.
  - lia.
  - intros k Hk. eapply same_shape_child; [exact Hsh|]. by apply Hl.
  - exists s'. split; [done|]. split; [by split_and!; [| |etrans]|].
    destruct (same_shape_lookup _ _ c (set_dirty false (dirty_css false ctrl)) Hsh') as (a & Ha & _ & _ & _ & _ & Hda).
    { apply lookup_insert_eq. }
    exists a. split; [done|]. simpl in Hda. destruct (c_dirty a); [by specialize (Hda eq_refl)|done].
Qed.
End Dirty.

Lemma touch_good r s c ctrl :
  good r s -> s !! c = Some ctrl -> exists s', touch c s = Some s' /\ good r s' /\
    forall x, c_error <$> s' !! x = c_error <$> s !! x.
Proof.
  intros [Hw Ht] Hc. unfold touch. rewrite Hc. destruct (c_pristine ctrl); [|by exists s].
  pose proof (dirty_error s c ctrl true Hc) as He1. pose proof (inv_ordered _ _ _ _ Hw) as Hord. pose proof (inv_dirty _ _ _ _ _ _ true Hw Hc) as Hw1. apply tree_but_ok in Ht.
  destruct (parentForm ctrl) as [p|] eqn:Hp.
  - destruct (inv_parent _ _ _ _ Hw _ _ _ Hc Hp) as (Hlt & g & Hg & _).
    destruct (form_setDirty_spec r (S p) p g (<[c := set_dirty true (dirty_css true ctrl)]> s)) as (s' & Hs' & Hg' & He'); [done| | |lia|].
    + eapply tree_but_set; [exact Ht|done|done|..]; naive_solver.
    + by rewrite lookup_insert_ne by lia.
    + exists s'. split; [done|]. split; [done|]. intros x. by rewrite He'.
  - eexists. split; [done|]. split; [|done]. split; [done|]. apply tree_but_ok.
    eapply tree_but_set; [exact Ht|done|done|..]; naive_solver.
Qed.

(** The number of controllers bounds the depth of the tree. *)
Definition store_bound (s : store) : nat := S (foldr Nat.max 0%nat (map fst (map_to_list s))).

Lemma store_bounded s : keys_below (store_bound s) s.
Proof.
  intros x a Hx. unfold store_bound. apply elem_of_map_to_list in Hx. induction (map_to_list s) as [|[y b] l IH].
  - by apply not_elem_of_nil in Hx.
  - apply elem_of_cons in Hx as [[= -> ->]|Hx]; simpl; [lia|]. specialize (IH Hx). lia.
Qed.

(** ** Histories *)

(** The name of a control is not one of the form's own properties, and a token
    is not one that the object literal [$error], or [forEach] of it, finds there. *)
Definition plain_control (name : string) : bool := negb (String.prefix "$" name).
Definition plain_token (key : string) : bool := negb (String.eqb key "" || object_name key || String.eqb key "forEach").

Lemma plain_token_ne key : plain_token key = true -> key <> "".
Proof. intros H ->. discriminate H. Qed.

(** The controllers made so far and which of them are gone.  A control that is
    gone is not told about anything any more. *)
Inductive event : store * gset nat -> store * gset nat -> Prop :=
| event_form f parent name s s' r :
    s !! f = None -> f ∉ r -> parent_ok s f parent -> plain_control name = true -> new_form f parent name s = Ok s' -> event (s, r) (s', r)
| event_model c parent name s s' r :
    s !! c = None -> c ∉ r -> parent_ok s c parent -> plain_control name = true -> new_model c parent name s = Ok s' -> event (s, r) (s', r)
| event_validity c ctrl key isValid s s' r :
    s !! c = Some ctrl -> is_form ctrl = false -> c ∉ r -> plain_token key = true ->
    model_setValidity c key isValid s = Some s' -> event (s, r) (s', r)
| event_view c ctrl s s' r :
    s !! c = Some ctrl -> is_form ctrl = false -> touch c s = Some s' -> event (s, r) (s', r)
| event_pristine c ctrl fuel s s' r :
    s !! c = Some ctrl -> (store_bound s <= fuel)%nat -> setPristine fuel c s = Some s' -> event (s, r) (s', r)
| event_destroy_form f form p s s' r :
    s !! f = Some form -> is_form form = true -> parentForm form = Some p -> destroy_form f s = Some s' -> event (s, r) (s', r ∪ {[f]})
| event_destroy_model c ctrl s s' r :
    s !! c = Some ctrl -> is_form ctrl = false -> destroy_model c s = Some s' -> event (s, r) (s', r ∪ {[c]}).

Inductive history : store * gset nat -> Prop :=
| history_start : history (∅, ∅)
| history_event w w' : history w -> event w w' -> history w'.

Lemma good_empty : good ∅ ∅.
Proof.
  split; split; try (intros; set_solver); intros *; rewrite ?lookup_empty; intros; by simplify_eq.
Qed.

Lemma setPristine_good r s c ctrl fuel :
  good r s -> s !! c = Some ctrl -> (store_bound s <= fuel)%nat ->
  exists s', setPristine fuel c s = Some s' /\ good r s' /\
    (detached ctrl = false -> exists a, s' !! c = Some a /\ is_form a = is_form ctrl /\ c_dirty a = false).
Proof.
  intros [Hw Ht] Hc Hn. destruct (detached ctrl) eqn:Hd.
  { exists s. split; [|done]. destruct fuel; [unfold store_bound in Hn; lia|]. cbn [setPristine]. by rewrite Hc, Hd. }
  destruct (setPristine_spec r fuel (store_bound s) c ctrl s (fun _ _ => False)) as (s' & Hs' & (Hw' & Ht' & Hsh) & a & Ha & Hda); try done.
  - by apply tree_but_ok.
  - apply store_bounded.
  - lia.
  - exists s'. split; [done|]. split.
    2:{ intros _. exists a. split; [done|]. split; [|done].
        destruct (same_shape_lookup _ _ _ _ Hsh Hc) as (a' & Ha' & _ & <- & _). congruence. }
    split; [done|]. apply tree_but_ok. eapply tree_but_weaken; [exact Ht'|]. naive_solver.
Qed.

Lemma history_good w : history w -> good w.2 w.1.
Proof.
  induction 1 as [|w w' _ IH Hev]; [apply good_empty|]. destruct Hev; simpl in *.
  - eapply new_spec with (e := FormErrors ∅); eauto.
  - eapply new_spec with (e := ModelErrors ∅); eauto.
  - destruct (model_setValidity_good r s c ctrl0 key isValid) as (s1 & _ & Hs1 & Hg & _); try done; [by apply plain_token_ne|]. congruence.
  - destruct (touch_good r s c ctrl0) as (s1 & Hs1 & Hg & _); try done. congruence.
  - destruct (setPristine_good r s c ctrl0 fuel) as (s1 & Hs1 & Hg & _); try done. congruence.
  - destruct (destroy_form_spec r s f form p) as (s1 & Hs1 & Hg); try done. congruence.
  - destruct (destroy_model_spec r s c ctrl0) as (s1 & Hs1 & Hg); try done. congruence.
Qed.

(** The controls below a form. *)
Inductive under (r : gset nat) (s : store) (f : nat) : nat -> Prop :=
| under_child k : child r s f k -> under r s f k
| under_deeper g k : under r s f g -> child r s g k -> under r s f k.

Lemma under_step r s f g k : child r s f g -> under r s g k -> under r s f k.
Proof. intros Hg. induction 1 as [k Hk|h k _ IH Hk]; [eapply under_deeper; [by apply under_child|done]|by eapply under_deeper]. Qed.

Definition control_error (s : store) (m : nat) (t : string) : Prop :=
  exists ctrl, s !! m = Some ctrl /\ is_form ctrl = false /\ flags_of ctrl !! t = Some true.

Lemma good_methods r s f form : good r s -> s !! f = Some form -> is_form form = true -> f ∉ r -> detached form = false.
Proof.
  intros [Hw _] Hf Hif Hr. pose proof (inv_detached _ _ _ _ Hw _ _ Hf Hif) as H. destruct (detached form); [|done].
  destruct Hr. apply H; [tauto|done].
Qed.

Section Validity.
Context (r : gset nat) (s : store) (Hgood : good r s).

Lemma error_child f form t :
  s !! f = Some form -> is_form form = true -> f ∉ r ->
  has_error form t <-> exists k ck, s !! k = Some ck /\ child r s f k /\ has_error ck t.
Proof.
  intros Hf Hif Hr. pose proof (good_methods _ _ _ _ Hgood Hf Hif Hr) as Hd. destruct Hgood as [Hw _].
  assert (Hlink : forall k, listed form t k <-> wanted r s f t k).
  { intros k. rewrite <- (inv_link _ _ _ _ Hw f form t k) by (done || tauto). by rewrite (in_queue_eq s f form). }
  rewrite has_error_form by done. split.
  - intros [q Hq]. destruct (ok_queue _ (inv_local _ _ _ _ Hw _ _ Hf) _ _ Hq) as [Hne _]. destruct q as [|k q]; [done|].
    destruct (proj1 (Hlink k)) as (ck & Hk & Hp & He & Hkr); [by eexists; split; [done|left]|].
    exists k, ck. split; [done|]. split; [by exists ck|done].
  - intros (k & ck & Hk & (ck' & Hk' & Hp & Hkr) & He). assert (ck' = ck) as -> by congruence.
    destruct (proj2 (Hlink k)) as (q & Hq & _); [by exists ck|]. by exists q.
Qed.

Lemma error_under f form t :
  s !! f = Some form -> is_form form = true -> f ∉ r ->
  has_error form t <-> exists m, under r s f m /\ control_error s m t.
Proof.
  remember (store_bound s - f)%nat as n eqn:Hn. revert f form Hn. induction n as [n IH] using lt_wf_ind; intros f form -> Hf Hif Hr.
  rewrite (error_child f form t) by done. split.
  - intros (k & ck & Hk & Hch & He). pose proof Hch as (ck' & Hk' & Hp & Hkr). assert (ck' = ck) as -> by congruence.
    destruct (is_form ck) eqn:Hik.
    + destruct (inv_parent _ _ _ _ (good_whole _ _ Hgood) _ _ _ Hk Hp) as (Hlt & _). pose proof (store_bounded s _ _ Hk).
      destruct (proj1 (IH (store_bound s - k)%nat ltac:(lia) k ck eq_refl Hk Hik Hkr)) as (m & Hm & Hem); [done|].
      exists m. split; [by eapply under_step|done].
    + exists k. split; [by apply under_child|]. exists ck. split_and!; try done. unfold has_error in He. by rewrite (flags_model ck Hik) in He.
  - intros (m & Hm & Hem). assert (Hup : forall k ck, under r s f k -> s !! k = Some ck -> has_error ck t ->
      exists k ck, s !! k = Some ck /\ child r s f k /\ has_error ck t).
    { intros k ck Hu. revert ck. induction Hu as [k Hk|g k Hu IHu Hk]; intros ck Hck He; [by exists k, ck|].
      destruct Hk as (ck' & Hk' & Hp & Hkr). destruct (inv_parent _ _ _ _ (good_whole _ _ Hgood) _ _ _ Hk' Hp) as (_ & gf & Hg & Hgf).
      apply (IHu gf Hg). apply (error_child g gf t Hg Hgf).
      - inversion Hu as [? (? & ? & ? & ?)|? ? ? (? & ? & ? & ?)]; by subst.
      - exists k, ck. split; [done|]. split; [by exists ck'|done]. }
    destruct Hem as (cm & Hcm & Him & Hfl). apply (Hup m cm Hm Hcm). unfold has_error. by rewrite (flags_model cm Him).
Qed.
End Validity.

(** Histories that can be run. *)
Inductive action :=
| NewForm (f : nat) (parent : option nat) (name : string)
| NewModel (c : nat) (parent : option nat) (name : string)
| Validate (c : nat) (key : string) (isValid : bool)
| View (c : nat)
| Reset (c : nat)
| Destroy (c : nat).

Definition parent_okb (s : store) (c : nat) (parent : option nat) : bool :=
  match parent with
  | None => true
  | Some p => (p <? c)%nat && match s !! p with Some form => is_form form | None => false end
  end.

Definition fresh (w : store * gset nat) (c : nat) : bool := bool_decide (w.1 !! c = None) && bool_decide (c ∉ w.2).

Definition perform (a : action) (w : store * gset nat) : option (store * gset nat) :=
  let '(s, r) := w in
  match a with
  | NewForm f parent name =>
      if fresh w f && (parent_okb s f parent && plain_control name) then match new_form f parent name s with Ok s => Some (s, r) | Err _ => None end else None
  | NewModel c parent name =>
      if fresh w c && (parent_okb s c parent && plain_control name) then match new_model c parent name s with Ok s => Some (s, r) | Err _ => None end else None
  | Validate c key isValid =>
      match s !! c with
      | Some ctrl => if negb (is_form ctrl) && bool_decide (c ∉ r) && plain_token key
                     then match model_setValidity c key isValid s with Some s => Some (s, r) | None => None end else None
      | None => None
      end
  | View c =>
      match s !! c with
      | Some ctrl => if is_form ctrl then None else match touch c s with Some s => Some (s, r) | None => None end
      | None => None
      end
  | Reset c =>
      match s !! c with
      | Some ctrl => match setPristine (store_bound s) c s with Some s => Some (s, r) | None => None end
      | None => None
      end
  | Destroy c =>
      match s !! c with
      | Some ctrl =>
          if is_form ctrl
          then match parentForm ctrl with
               | Some _ => match destroy_form c s with Some s => Some (s, r ∪ {[c]}) | None => None end
               | None => None
               end
          else match destroy_model c s with Some s => Some (s, r ∪ {[c]}) | None => None end
      | None => None
      end
  end.

Fixpoint performs (l : list action) (w : store * gset nat) : option (store * gset nat) :=
  match l with
  | [] => Some w
  | a :: l => match perform a w with Some w => performs l w | None => None end
  end.

Lemma parent_okb_ok s c parent : parent_okb s c parent = true -> parent_ok s c parent.
Proof.
  intros H p ->. simpl in H. apply andb_true_iff in H as [Hlt%Nat.ltb_lt H]. split; [done|].
  destruct (s !! p) as [form|]; [by exists form|done].
Qed.

Lemma fresh_ok s r c : fresh (s, r) c = true -> s !! c = None /\ c ∉ r.
Proof. unfold fresh. by intros [?%bool_decide_eq_true ?%bool_decide_eq_true]%andb_true_iff. Qed.

Lemma perform_event a w w' : perform a w = Some w' -> event w w'.
Proof.
  destruct w as [s r]. destruct a as [f parent name|c parent name|c key v|c|c|c]; cbn [perform].
  - destruct (fresh (s, r) f && _) eqn:Hb; [|done]. apply andb_true_iff in Hb as [[Hf Hr]%fresh_ok [Hp%parent_okb_ok Hpl]%andb_true_iff].
    destruct (new_form f parent name s) eqn:Hn; intros [= <-]. by eapply event_form.
  - destruct (fresh (s, r) c && _) eqn:Hb; [|done]. apply andb_true_iff in Hb as [[Hf Hr]%fresh_ok [Hp%parent_okb_ok Hpl]%andb_true_iff].
    destruct (new_model c parent name s) eqn:Hn; intros [= <-]. by eapply event_model.
  - destruct (s !! c) as [ctrl|] eqn:Hc; [|done]. destruct (negb (is_form ctrl) && _ && _) eqn:Hb; [|done].
    apply andb_true_iff in Hb as [[Hi%negb_true_iff Hr%bool_decide_eq_true]%andb_true_iff Hk].
    destruct (model_setValidity c key v s) eqn:Hs; intros [= <-]. by eapply event_validity.
  - destruct (s !! c) as [ctrl|] eqn:Hc; [|done]. destruct (is_form ctrl) eqn:Hi; [done|].
    destruct (touch c s) eqn:Hs; intros [= <-]. by eapply event_view.
  - destruct (s !! c) as [ctrl|] eqn:Hc; [|done]. destruct (setPristine _ c s) eqn:Hs; intros [= <-]. by eapply event_pristine.
  - destruct (s !! c) as [ctrl|] eqn:Hc; [|done]. destruct (is_form ctrl) eqn:Hi.
    + destruct (parentForm ctrl) as [p|] eqn:Hp; [|done]. destruct (destroy_form c s) eqn:Hs; intros [= <-]. by eapply event_destroy_form.
    + destruct (destroy_model c s) eqn:Hs; intros [= <-]. by eapply event_destroy_model.
Qed.

Lemma performs_history l : forall w w', history w -> performs l w = Some w' -> history w'.
Proof.
  induction l as [|a l IH]; intros w w' Hw; cbn [performs]; [by intros [= <-]|].
  destruct (perform a w) as [w1|] eqn:Hp; [|done]. apply IH. eapply history_event; [exact Hw|by eapply perform_event].
Qed.

(** A form with a control and a form of its own, with two controls; one of
    them is invalid and another that was invalid is gone. *)
Definition demo : list action :=
  [NewForm 0 None "top"; NewModel 1 (Some 0%nat) "name"; NewForm 2 (Some 0%nat) "sub"; NewModel 3 (Some 2%nat) "mail";
   NewModel 4 (Some 2%nat) "age"; Validate 3 "required" false; Validate 4 "minLength" false; View 4; Destroy 4; Validate 1 "required" true].

Definition demo_world : store * gset nat := default (∅, ∅) (performs demo (∅, ∅)).

Lemma demo_history : history (demo_world.1, demo_world.2).
Proof. eapply (performs_history demo); [apply history_start|]. vm_compute. reflexivity. Qed.

Definition demo_form (f : nat) : ctrl := default (new_ctrl None "" (FormErrors ∅)) (demo_world.1 !! f).

Lemma demo_lookup : demo_world.1 !! 0%nat = Some (demo_form 0).
Proof. vm_compute. reflexivity. Qed.

Definition error_of (f : nat) (t : string) (s : store) : option (list nat) := s !! f ≫= fun form => queue form t.

(** A control that is destroyed keeps its form: an input that is still on the
    page - its removal animated - and is typed into reports to it, and the
    form stays invalid with no control that is. *)
Example removed_control_poisons :
  bool_decide (4%nat ∈ demo_world.2) = true /\
  error_of 2 "maxLength" demo_world.1 = None /\
  (model_setValidity 4 "maxLength" false demo_world.1 ≫= fun s => error_of 2 "maxLength" s) = Some [4%nat].
Proof. split_and!; vm_compute; reflexivity. Qed.

(** C38: take forms and controls each made after the form it is in, with names
    that do not start with the dollar sign, and in every history let controls be told about the
    validity of their values as long as they are not destroyed - under tokens that are not
    empty, nor [forEach], nor names of [Object.prototype] - and be typed into, and let controls and forms be reset
    and, unless they are outermost, destroyed, in any
    order.  (A control that is told after it was destroyed breaks this: Example removed_control_poisons.)  Then a form that is not destroyed has a
    token in [$error] exactly when a control below it, at any depth and not
    destroyed, has that error; the form's queue lists each of its own
    controls that has it once; the form is valid exactly when every control
    below it is; and the element's classes say so. *)
Theorem form_validity_exact s r f form :
  history (s, r) -> s !! f = Some form -> is_form form = true -> f ∉ r ->
  (forall t, is_Some (queue form t) <-> exists m, under r s f m /\ control_error s m t) /\
  (forall t q, queue form t = Some q -> NoDup q /\ forall k, k ∈ q <-> exists ck, s !! k = Some ck /\ child r s f k /\ has_error ck t) /\
  (c_valid form = true <-> forall m ctrl, under r s f m -> s !! m = Some ctrl -> is_form ctrl = false -> c_valid ctrl = true) /\
  c_invalid form = negb (c_valid form) /\
  ("ng-valid" ∈ classes form <-> c_valid form = true) /\ ("ng-invalid" ∈ classes form <-> c_valid form = false).
Proof.
  intros Hh Hf Hif Hr. pose proof (history_good _ Hh) as Hgood. simpl in Hgood. pose proof (good_whole _ _ Hgood) as Hw.
  pose proof (inv_local _ _ _ _ Hw _ _ Hf) as Hok. pose proof (fun t => error_under r s Hgood f form t Hf Hif Hr) as Herr.
  split; [intros t; rewrite <- Herr; symmetry; by apply has_error_form|]. split; [|split; [|by split; apply Hok]].
  - intros t q Hq. split; [by eapply ok_queue|]. intros k. rewrite <- (listed_Some form t q k Hq), <- (in_queue_eq s f form) by done.
    rewrite (inv_link _ _ _ _ Hw f form t k Hf Hif); [|by eapply good_methods|tauto].
    unfold wanted, child. naive_solver.
  - rewrite (valid_iff form Hok). split.
    + intros Hno m ctrl Hm Hc Hic. apply (valid_iff ctrl); [by eapply inv_local|]. intros t He. apply (Hno t), Herr.
      exists m. split; [done|]. exists ctrl. split_and!; try done. unfold has_error in He. by rewrite (flags_model ctrl Hic) in He.
    + intros Hall t (m & Hm & ctrl & Hc & Hic & Hfl)%Herr. specialize (Hall m ctrl Hm Hc Hic).
      apply (valid_iff ctrl) with (t := t) in Hall; [|by eapply inv_local]. apply Hall. unfold has_error. by rewrite (flags_model ctrl Hic).
Qed.

Lemma form_validity_exact_witness :
  (is_Some (queue (demo_form 0) "required") <->
     exists m, under demo_world.2 demo_world.1 0 m /\ control_error demo_world.1 m "required") /\
  queue (demo_form 0) "required" = Some [2%nat] /\ queue (demo_form 0) "minLength" = None /\ c_valid (demo_form 0) = false.
Proof.
  split; [|split_and!; vm_compute; reflexivity].
  apply (form_validity_exact demo_world.1 demo_world.2 0 (demo_form 0));
    [apply demo_history|apply demo_lookup|vm_compute; reflexivity|].
  apply (bool_decide_eq_true_1 (0%nat ∉ demo_world.2)). vm_compute. reflexivity.
Defined.

Lemma dirty_above r s f form m ctrl :
  good r s -> s !! f = Some form -> is_form form = true -> f ∉ r -> under r s f m -> s !! m = Some ctrl ->
  c_dirty ctrl = true -> c_dirty form = true.
Proof.
  intros Hg Hf Hif Hr Hu. revert ctrl. assert (Hone : forall g gf k ck, s !! g = Some gf -> is_form gf = true -> g ∉ r ->
    child r s g k -> s !! k = Some ck -> c_dirty ck = true -> c_dirty gf = true).
  { intros g gf k ck Hgf Hig Hgr (ck' & Hk' & Hp & Hkr) Hk Hd. apply (tree_dirty _ _ (good_tree _ _ Hg) g gf k ck); try done; [|congruence].
    by eapply good_methods. }
  induction Hu as [k Hk|g k Hu IHu Hk]; intros ctrl Hc Hd; [by eapply Hone|].
  pose proof Hk as (ck & Hck & Hp & _). destruct (inv_parent _ _ _ _ (good_whole _ _ Hg) _ _ _ Hck Hp) as (_ & gf & Hgf & Hig).
  apply (IHu gf Hgf). eapply (Hone g gf k ctrl); try done.
  inversion Hu as [? (? & ? & ? & ?)|? ? ? (? & ? & ? & ?)]; by subst.
Qed.

(** A form is dirty as soon as a control below it is, and resetting a form
    always returns and leaves it and all that is below it pristine, the
    elements' classes included. *)
Theorem form_reset_exact s r f form :
  history (s, r) -> s !! f = Some form -> is_form form = true -> f ∉ r ->
  (forall m ctrl, under r s f m -> s !! m = Some ctrl -> c_dirty ctrl = true -> c_dirty form = true) /\
  exists s', setPristine (store_bound s) f s = Some s' /\
    forall m ctrl, under r s' f m \/ m = f -> s' !! m = Some ctrl ->
      c_dirty ctrl = false /\ c_pristine ctrl = true /\ "ng-pristine" ∈ classes ctrl /\ "ng-dirty" ∉ classes ctrl.
Proof.
  intros Hh Hf Hif Hr. pose proof (history_good _ Hh) as Hg. simpl in Hg. split; [intros m ctrl; by eapply dirty_above|].
  pose proof (good_methods _ _ _ _ Hg Hf Hif Hr) as Hd.
  destruct (setPristine_good r s f form (store_bound s) Hg Hf (le_n _)) as (s' & Hs' & Hg' & Hx).
  destruct (Hx Hd) as (a & Ha & Hia & Hda). rewrite Hif in Hia. exists s'. split; [done|]. intros m ctrl Hm Hc.
  assert (Hdm : c_dirty ctrl = false).
  { destruct Hm as [Hm| ->]; [|congruence]. destruct (c_dirty ctrl) eqn:Hdc; [|done].
    rewrite (dirty_above r s' f a m ctrl) in Hda; done. }
  destruct (tree_marks _ _ (good_tree _ _ Hg') m ctrl Hc) as (Hp & H1 & H2). rewrite Hdm in *.
  split_and!; [done|by rewrite Hp|by apply H2|]. intros H3%H1. done.
Qed.

Lemma form_reset_exact_witness :
  c_dirty (demo_form 0) = true /\
  exists s', setPristine (store_bound demo_world.1) 0 demo_world.1 = Some s' /\
    forall m ctrl, under demo_world.2 s' 0 m \/ m = 0%nat -> s' !! m = Some ctrl ->
      c_dirty ctrl = false /\ c_pristine ctrl = true /\ "ng-pristine" ∈ classes ctrl /\ "ng-dirty" ∉ classes ctrl.
Proof.
  split; [vm_compute; reflexivity|].
  apply (form_reset_exact demo_world.1 demo_world.2 0 (demo_form 0));
    [apply demo_history|apply demo_lookup|vm_compute; reflexivity|].
  apply (bool_decide_eq_true_1 (0%nat ∉ demo_world.2)). vm_compute. reflexivity.
Defined.
