(* ===== verification/NgInput.v ===== *)
(** * NgInput: the value of a control and its view

    The value's side of [NgModelController] (angular.js 17765-17767,
    17866-17919), the validators and conversions of text and number inputs
    (17103-17337), [required] (18115-18140) and [ng-list] (18198-18235).

    The control [c] lives in the store of NgForm, where [$setValidity] is.
    The regular expression of [ng-pattern] is given by its [test], a function
    of the value (so without the flag [g], under which [test] goes on where it
    stopped).  What the listeners of [$viewChangeListeners] do to the control is theirs to
    say.  Strings are sequences of 8-bit code units and numbers are safe
    integers: a number input's text with decimals is outside the model. *)

From S2P Require Import Prelude Text Js NgForm.

#[local] Set Warnings "-clear-no-such-hyp".

(** ** Text *)

(** The longest prefix of digits, and the rest. *)
Fixpoint span_digits (s : string) : string * string :=
  match s with
  | String c s' => if is_digit c then let '(d, r) := span_digits s' in (String c d, r) else ("", s)
  | "" => ("", "")
  end.

Definition drop_sign (s : string) : bool * string :=
  match s with
  | String "-" s => (true, s)
  | String "+" s => (false, s)
  | _ => (false, s)
  end.

Definition all_space (s : string) : bool := String.eqb (trim_start s) "".

(** [NUMBER_REGEXP.test]: digits, or digits, a point and digits, each part of
    which may be empty; space around it and a sign. *)
Definition number_regexp (s : string) : bool :=
  let '(d, s) := span_digits (drop_sign (trim_start s)).2 in
  negb (String.eqb d "") && all_space s ||
  match s with
  | String "." s => all_space (span_digits s).2
  | _ => false
  end.

Fixpoint digits_value (acc : Z) (s : string) : Z :=
  match s with
  | "" => acc
  | String c s => digits_value (10 * acc + (Z.of_nat (nat_of_ascii c) - 48)) s
  end.

Fixpoint all_zeros (s : string) : bool :=
  match s with "" => true | String c s => Ascii.eqb c "0" && all_zeros s end.

(** [parseFloat], when the number is a safe integer. *)
Definition parseFloat (s : string) : option jsval :=
  let '(neg, s) := drop_sign (trim_start s) in
  let '(d, s) := span_digits s in
  let frac := match s with String "." s => (span_digits s).1 | _ => "" end in
  if String.eqb d "" && String.eqb frac "" then Some JNaN
  else if all_zeros frac && (digits_value 0 d <? 2 ^ 53) then Some (JNum (if neg then - digits_value 0 d else digits_value 0 d))
  else None.

Section Control.
Context (h : jsheap) (obj_str : nat -> string) (c : nat).

(** ** Values *)

(** [$isEmpty]. *)
Definition isEmpty (v : jsval) : bool :=
  match v with JUndef | JNull | JNaN => true | JStr s => String.eqb s "" | _ => false end.

(** [value.length], if it is a number. *)
Definition length_of (v : jsval) : option Z :=
  match v with
  | JStr s => Some (Z.of_nat (String.length s))
  | JRef r => match h !! r with
              | Some (OArray l) => Some (Z.of_nat (length l))
              | Some (OPlain ps) => match prop_get ps "length" with JNum n => Some n | _ => None end
              | _ => None
              end
  | _ => None
  end.

(** A member of [$parsers] or [$formatters]: it may set validities. *)
Definition pipe : Type := jsval -> store -> option (jsval * store).

(** [validate]. *)
Definition validate (validatorName : string) (validity : bool) (value : jsval) (s : store) : option (jsval * store) :=
  s ← model_setValidity c validatorName validity s; Some (if validity then value else JUndef, s).

Definition patternValidator (test : jsval -> bool) : pipe := fun value => validate "pattern" (isEmpty value || test value) value.

Definition minLengthValidator (minlength : Z) : pipe := fun value =>
  validate "minlength" (isEmpty value || match length_of value with Some n => minlength <=? n | None => false end) value.
Definition maxLengthValidator (maxlength : Z) : pipe := fun value =>
  validate "maxlength" (isEmpty value || match length_of value with Some n => n <=? maxlength | None => false end) value.

(** [required]'s validator; [attr] is [attr.required]. *)
Definition requiredValidator (attr : bool) : pipe := fun value s =>
  if attr && isEmpty value then s ← model_setValidity c "required" false s; Some (JUndef, s)
  else s ← model_setValidity c "required" true s; Some (value, s).

Definition numberParser : pipe := fun value s =>
  let empty := isEmpty value in
  if empty || number_regexp (prim_str obj_str value)
  then s ← model_setValidity c "number" true s;
       v ← (match value with
            | JStr "" => Some JNull
            | _ => if empty then Some value else parseFloat (prim_str obj_str value)
            end);
       Some (v, s)
  else s ← model_setValidity c "number" false s; Some (JUndef, s).

Definition numberToString : pipe := fun value s =>
  Some (if isEmpty value then JStr "" else JStr (prim_str obj_str value), s).

Definition numberChecker : pipe := fun value =>
  validate "number" (isEmpty value || isNumber h value) value.

(** ** The controller *)

Fixpoint run (l : list pipe) (v : jsval) (s : store) : option (jsval * store) :=
  match l with
  | [] => Some (v, s)
  | f :: l => match f v s with Some (v, s) => run l v s | None => None end
  end.

Record input := Input {
  i_store : store;
  viewValue : jsval;
  modelValue : jsval;
  scopeValue : jsval;      (** what the expression of [ng-model] is in the scope *)
  element : string;        (** [element.val()] *)
  hint : string;           (** [element[0].placeholder] *)
  placeholder : string;    (** what the listener last saw of it *)
  composing : bool
}.

Definition set_values (s : store) (view model scope_ : jsval) (w : input) : input :=
  Input s view model scope_ (element w) (hint w) (placeholder w) (composing w).
Definition set_element (text : string) (w : input) : input :=
  Input (i_store w) (viewValue w) (modelValue w) (scopeValue w) text (hint w) (placeholder w) (composing w).
Definition set_placeholder (p : string) (w : input) : input :=
  Input (i_store w) (viewValue w) (modelValue w) (scopeValue w) (element w) (hint w) p (composing w).
Definition set_composing (b : bool) (w : input) : input :=
  Input (i_store w) (viewValue w) (modelValue w) (scopeValue w) (element w) (hint w) (placeholder w) b.

(** [$viewChangeListeners], each as what it makes of the control, also when it
    throws in the end; and whether the browser is Internet Explorer. *)
Context (viewChangeListeners : list (input -> input)) (msie : bool).

Definition call_listeners (w : input) : input := fold_left (fun w listener => listener w) viewChangeListeners w.

(** [$setViewValue]. *)
Definition setViewValue (parsers : list pipe) (value : jsval) (w : input) : option input :=
  s ← touch c (i_store w);
  '(v, s) ← run parsers value s;
  Some (if strict_eq (modelValue w) v then set_values s value (modelValue w) (scopeValue w) w
        else call_listeners (set_values s value v v w)).

(** [$render] of a text input. *)
Definition render (view : jsval) : string := if isEmpty view then "" else prim_str obj_str view.

(** [ngModelWatch]. *)
Definition ngModelWatch (formatters : list pipe) (w : input) : option input :=
  let value := scopeValue w in
  if strict_eq (modelValue w) value then Some w
  else
    '(v, s) ← run (rev formatters) value (i_store w);
    Some (if strict_eq (viewValue w) v then set_values s (viewValue w) value value w
          else set_element (render v) (set_values s v value value w)).

(** The listener of a text input, on an event [input] or not; [trimmed] is whether the input is not a
    password and [ng-trim] is on, [revalidate] whether the browser validates. *)
Definition listener (is_input : bool) (parsers : list pipe) (trimmed revalidate : bool) (w : input) : option input :=
  if composing w then Some w
  else if msie && is_input && negb (String.eqb (hint w) (placeholder w)) then Some (set_placeholder (hint w) w)
  else
    let value := JStr (if trimmed then trim (element w) else element w) in
    if negb (strict_eq (viewValue w) value) || (strict_eq value (JStr "") && revalidate)
    then setViewValue parsers value w else Some w.

(** The user changes the text, and an [input] event follows. *)
Definition type_text (parsers : list pipe) (trimmed revalidate : bool) (text : string) (w : input) : option input :=
  listener true parsers trimmed revalidate (set_element text w).

(** The observer of the attribute [required]. *)
Definition requiredChanged (attr : bool) (w : input) : option input :=
  '(_, s) ← requiredValidator attr (viewValue w) (i_store w);
  Some (set_values s (viewValue w) (modelValue w) (scopeValue w) w).

Definition compositionstart (w : input) : input := set_composing true w.
Definition compositionend (parsers : list pipe) (trimmed revalidate : bool) (w : input) : option input :=
  listener false parsers trimmed revalidate (set_composing false w).

(** ** The attributes of an input *)

Record attrs := Attrs {
  ngPattern : option (jsval -> bool);
  ngMinlength : option Z;
  ngMaxlength : option Z
}.

Definition opt {A} (f : A -> pipe) (o : option A) : list pipe := match o with Some a => [f a] | None => [] end.

(** What [textInputType] pushes on both lists. *)
Definition text_pipes (a : attrs) : list pipe :=
  opt patternValidator (ngPattern a) ++ opt minLengthValidator (ngMinlength a) ++ opt maxLengthValidator (ngMaxlength a).

(** [required] is put in front of the parsers. *)
Definition text_parsers (required : option bool) (a : attrs) : list pipe := opt requiredValidator required ++ text_pipes a.
Definition number_parsers (required : option bool) (a : attrs) : list pipe := text_parsers required a ++ [numberParser].

(** The link function of [required] runs first. *)
Definition text_formatters (required : option bool) (a : attrs) : list pipe := opt requiredValidator required ++ text_pipes a.
Definition number_formatters (required : option bool) (a : attrs) : list pipe :=
  text_formatters required a ++ [numberToString; numberChecker].

(** ** Chains of validators *)

Definition validator : Type := string * (jsval -> bool).
Definition check_pipe (k : validator) : pipe := fun v => validate k.1 (k.2 v) v.

Fixpoint first_failing (ks : list validator) (v : jsval) : option string :=
  match ks with
  | [] => None
  | k :: ks => if k.2 v then first_failing ks v else Some k.1
  end.

Definition text_checks (required : option bool) (a : attrs) : list validator :=
  match required with Some attr => [("required", fun v => negb (attr && isEmpty v))] | None => [] end ++
  match ngPattern a with Some test => [("pattern", fun v => isEmpty v || test v)] | None => [] end ++
  match ngMinlength a with
  | Some n => [("minlength", fun v => isEmpty v || match length_of v with Some m => n <=? m | None => false end)] | None => [] end ++
  match ngMaxlength a with
  | Some n => [("maxlength", fun v => isEmpty v || match length_of v with Some m => m <=? n | None => false end)] | None => [] end.

Lemma run_ext l l' v s : Forall2 (fun f g => forall v s, f v s = g v s) l l' -> run l v s = run l' v s.
Proof.
  intros H. revert v s. induction H as [|f g l l' Hf _ IH]; intros v s; [done|]. cbn [run]. rewrite Hf.
  destruct (g v s) as [[v' s']|]; [apply IH|done].
Qed.

Lemma required_check attr v s : requiredValidator attr v s = check_pipe ("required", fun v => negb (attr && isEmpty v)) v s.
Proof. unfold requiredValidator, check_pipe, validate; simpl. by destruct (attr && isEmpty v). Qed.

Lemma text_parsers_checks required a v s : run (text_parsers required a) v s = run (map check_pipe (text_checks required a)) v s.
Proof.
  apply run_ext. unfold text_parsers, text_pipes, text_checks, opt. rewrite !map_app.
  repeat apply Forall2_app; [|destruct (ngPattern a)|destruct (ngMinlength a)|destruct (ngMaxlength a)]; try by repeat constructor.
  destruct required; repeat constructor. intros. apply required_check.
Qed.

(** The control is there and its form may be told about it. *)
Definition live (r : gset nat) (s : store) : Prop :=
  history (s, r) /\ (c ∉ r) /\ exists ctrl, s !! c = Some ctrl /\ is_form ctrl = false.

Definition flag (s : store) (key : string) : option bool := s !! c ≫= fun ctrl => flags_of ctrl !! key.

Lemma set_live r s key v :
  live r s -> plain_token key = true -> exists s', model_setValidity c key v s = Some s' /\ live r s' /\
    forall k, flag s' k = if decide (k = key) then Some (negb v) else flag s k.
Proof.
  intros (Hg & Hr & ctrl & Hc & Hm) Hkey.
  destruct (model_setValidity_good r s c ctrl key v (history_good _ Hg) Hc Hm Hr (plain_token_ne _ Hkey)) as (s' & ctrl' & Hs & Hg' & Hc' & Hm' & Hfl).
  exists s'. split; [done|]. split; [split; [eapply history_event; [exact Hg|by eapply event_validity]|split; [done|by exists ctrl']]|].
  intros k. unfold flag. rewrite Hc, Hc'. simpl. rewrite Hfl. destruct (decide (k = key)) as [->|].
  - by rewrite lookup_insert_eq.
  - by rewrite lookup_insert_ne.
Qed.

(** All of a chain that does not mind [undefined] is valid on it. *)
Lemma run_checks r ks : forall v s,
  live r s -> NoDup (map fst ks) -> Forall (fun k : validator => plain_token k.1 = true) ks -> Forall (fun k : validator => k.2 JUndef = true) (tail ks) ->
  exists s', run (map check_pipe ks) v s = Some ((if first_failing ks v is Some _ then JUndef else v), s') /\ live r s' /\
    (forall k, k ∈ map fst ks -> flag s' k = Some (bool_decide (first_failing ks v = Some k))) /\
    (forall k, k ∉ map fst ks -> flag s' k = flag s k).
Proof.
  induction ks as [|[key ok] ks IH]; intros v s Hs Hnd Hne Hun; cbn [map run first_failing fst snd] in *.
  { exists s. split; [done|]. split; [done|]. split; [by intros k ?%not_elem_of_nil|done]. }
  apply NoDup_cons in Hnd as [Hnotin Hnd]. apply Forall_cons in Hne as [Hkey Hne]. simpl in *.
  destruct (set_live r s key (ok v) Hs Hkey) as (s1 & Hs1 & Hl1 & Hf1). unfold check_pipe at 1, validate. simpl. rewrite Hs1. simpl.
  assert (Hall : forall ks, Forall (fun k : validator => k.2 JUndef = true) ks -> first_failing ks JUndef = None).
  { induction 1 as [|[k0 ok0] ks0 H0 _ IH0]; simpl in *; [done|]. by rewrite H0. }
  destruct (IH (if ok v then v else JUndef) s1) as (s' & Hs' & Hl' & Hin & Hout); try done.
  { destruct ks; [done|]. simpl in *. by apply Forall_cons in Hun as [_ ?]. }
  exists s'. rewrite Hs'. split; [|split; [done|split]].
  - destruct (ok v); [done|]. by rewrite (Hall ks).
  - intros k [->|Hk]%elem_of_cons.
    + rewrite Hout, Hf1, decide_True by done. destruct (ok v); simpl; [|by rewrite bool_decide_eq_true_2].
      rewrite bool_decide_eq_false_2; [done|]. intros Hff. apply Hnotin. revert Hff. clear.
      induction ks as [|[k0 ok0] ks IH]; simpl; [done|]. destruct (ok0 v); [intros ?; right; by apply IH|]. intros [= ->]. by left.
    + rewrite Hin by done. f_equal. destruct (ok v); [done|]. rewrite (Hall ks) by done.
      apply bool_decide_ext. split; [done|]. intros [= ->]. done.
  - intros k [Hk1 Hk2]%not_elem_of_cons. rewrite Hout by done. rewrite Hf1. by rewrite decide_False.
Qed.

Lemma text_checks_ok required a :
  NoDup (map fst (text_checks required a)) /\ Forall (fun k : validator => plain_token k.1 = true) (text_checks required a) /\
  Forall (fun k : validator => k.2 JUndef = true) (tail (text_checks required a)).
Proof.
  unfold text_checks. destruct required, (ngPattern a), (ngMinlength a), (ngMaxlength a); simpl;
    (split; [repeat constructor; set_solver|split; repeat constructor; done]).
Qed.

(** Typing and watching. *)
Lemma touch_live r s : live r s -> exists s', touch c s = Some s' /\ live r s' /\ forall k, flag s' k = flag s k.
Proof.
  intros (Hg & Hr & ctrl & Hc & Hm). destruct (touch_good r s c ctrl (history_good _ Hg) Hc) as (s' & Hs' & Hg' & He).
  specialize (He c). rewrite Hc in He. destruct (s' !! c) as [ctrl'|] eqn:Hc'; [|done]. simpl in He. injection He as He.
  exists s'. split; [done|]. split.
  - split; [eapply history_event; [exact Hg|by eapply event_view]|]. split; [done|]. exists ctrl'. split; [done|]. unfold is_form. by rewrite He.
  - intros k. unfold flag. rewrite Hc, Hc'. simpl. unfold flags_of. by rewrite He.
Qed.



Definition shown (trimmed : bool) (text : string) : jsval := JStr (if trimmed then trim text else text).

(** C39: take a text input whose parsers are those of [required], [ng-pattern],
    [ng-minlength] and [ng-maxlength], whose control and forms are what a history of forms
    and controls made of them (those of NgForm), whose model is as the last digest left it, and in which no composition of
    characters is going on nor, in Internet Explorer, has its placeholder changed since it was last looked at.
    Typing a text whose value, trimmed, is not yet the view's always returns.  That value
    becomes the view's; if every validator accepts it, it becomes the model's
    value and the scope's, otherwise they become [undefined]; of the
    validators the first that refuses is the only one in [$error], the others
    are cleared; the form's books are again those of a possible history; and
    this is what the listeners of changes find, which are called when the model's value changed and only then.
    If they leave the scope's value the model's, the digest that follows changes nothing: so without any, what
    was typed stays on the page. *)
Theorem typed_text_exact r required a trimmed revalidate text w :
  live r (i_store w) -> composing w = false -> msie && negb (String.eqb (hint w) (placeholder w)) = false ->
  scopeValue w = modelValue w -> viewValue w <> shown trimmed text ->
  let v := shown trimmed text in
  let failing := first_failing (text_checks required a) v in
  let m := if failing is Some _ then JUndef else v in
  exists w' w1, type_text (text_parsers required a) trimmed revalidate text w = Some w' /\
    w' = (if strict_eq (modelValue w) m then w1 else call_listeners w1) /\
    viewValue w1 = v /\ modelValue w1 = m /\ scopeValue w1 = m /\ element w1 = text /\
    (forall k, k ∈ map fst (text_checks required a) -> flag (i_store w1) k = Some (bool_decide (failing = Some k))) /\
    (forall k, k ∉ map fst (text_checks required a) -> flag (i_store w1) k = flag (i_store w) k) /\
    live r (i_store w1) /\ (forall formatters, ngModelWatch formatters w1 = Some w1) /\
    forall formatters, scopeValue w' = modelValue w' -> modelValue w' <> JNaN -> ngModelWatch formatters w' = Some w'.
Proof.
  intros Hs Hcomp Hhint Hsync Hview v failing m. unfold type_text, listener. simpl. rewrite Hcomp, andb_true_r, Hhint.
  change (JStr (if trimmed then trim text else text)) with v.
  replace (strict_eq (viewValue w) v) with false by (symmetry; apply not_true_iff_false; by intros ?%strict_eq_true). simpl.
  destruct (touch_live r _ Hs) as (s1 & Hs1 & Hl1 & Hf1). destruct (text_checks_ok required a) as (Hnd & Hne & Hun).
  destruct (run_checks r (text_checks required a) v s1 Hl1 Hnd Hne Hun) as (s2 & Hs2 & Hl2 & Hin & Hout).
  unfold setViewValue. simpl. rewrite Hs1. simpl. rewrite text_parsers_checks, Hs2. simpl. change (if first_failing _ v is Some _ then JUndef else v) with m.
  assert (Hm : m <> JNaN) by (unfold m; by destruct failing).
  assert (Hw : forall fs w', scopeValue w' = modelValue w' -> modelValue w' <> JNaN -> ngModelWatch fs w' = Some w').
  { intros fs w' Heq Hn. unfold ngModelWatch. by rewrite Heq, strict_eq_refl. }
  exists (if strict_eq (modelValue w) m then set_values s2 v (modelValue w) (scopeValue w) (set_element text w)
          else call_listeners (set_values s2 v m m (set_element text w))), (set_values s2 v m m (set_element text w)).
  split; [done|]. split.
  { destruct (strict_eq (modelValue w) m) eqn:Heq; [|done]. apply strict_eq_true in Heq. by rewrite Hsync, Heq. }
  split_and!; try done.
  - intros k Hk. cbn. by rewrite Hout, Hf1.
  - intros fs. by apply Hw.
  - intros fs. apply Hw.
Qed.

(** *** From the scope to the page *)

(** A value put in the scope goes through the formatters to the page, and
    the next digest has nothing left to do - unless the value is [NaN], which
    is never equal to itself. *)
Lemma watch_shows_model formatters w v s :
  strict_eq (modelValue w) (scopeValue w) = false -> scopeValue w <> JNaN -> viewValue w <> v ->
  run (rev formatters) (scopeValue w) (i_store w) = Some (v, s) ->
  exists w', ngModelWatch formatters w = Some w' /\ modelValue w' = scopeValue w /\ viewValue w' = v /\ element w' = render v /\
    ngModelWatch formatters w' = Some w'.
Proof.
  intros Hm Hn Hv Hrun. unfold ngModelWatch. rewrite Hm, Hrun. simpl.
  replace (strict_eq (viewValue w) v) with false by (symmetry; apply not_true_iff_false; by intros ?%strict_eq_true).
  eexists. split; [done|]. simpl. by rewrite strict_eq_refl.
Qed.
End Control.

(** ** [ng-list] *)

(** The parser, on a text; the separator is one character. *)
Definition list_parse (separator : ascii) (viewValue : string) : list string :=
  map trim (List.filter (fun value => negb (String.eqb value "")) (split_char separator viewValue)).

Definition list_format (value : list string) : string := join ", " value.

(** Words of a list that [ng-list] can show: not empty, without commas and
    without space around them. *)
Definition list_word (w : string) : Prop := w <> "" /\ contains_char "," w = false /\ trim w = w /\ trim_start w = w.

Lemma join_comma w ws : contains_char "," w = false ->
  split_char "," (list_format (w :: ws)) = w :: match ws with [] => [] | _ => split_char "," (String " " (list_format ws)) end.
Proof.
  intros Hw. unfold list_format. destruct ws as [|w' ws]; simpl; [by apply split_char_none|]. by apply split_char_cons.
Qed.

Lemma list_roundtrip ws : Forall list_word ws -> list_parse "," (list_format ws) = ws.
Proof.
  assert (Hgo : forall ws pre, Forall list_word ws -> ws <> [] -> pre = "" \/ pre = " " ->
    map trim (List.filter (fun value => negb (String.eqb value "")) (split_char "," (pre +:+ list_format ws))) = ws).
  { induction ws0 as [|w ws0 IH]; intros pre Hws Hne Hpre; [done|]. apply Forall_cons in Hws as [(Hw & Hc & Ht & Hts) Hws].
    assert (Hpw : split_char "," (pre +:+ list_format (w :: ws0)) =
      (pre +:+ w) :: match ws0 with [] => [] | _ => split_char "," (" " +:+ list_format ws0) end).
    { destruct Hpre as [-> | ->]; [by apply join_comma|]. change (" " +:+ ?x) with (String " " x).
      cbn [split_char]. rewrite join_comma by done. by destruct ws0. }
    rewrite Hpw. assert (Htrim : trim (pre +:+ w) = w) by by destruct Hpre as [-> | ->].
    cbn [List.filter]. replace (String.eqb (pre +:+ w) "") with false; [|by destruct Hpre as [-> | ->]; destruct w].
    cbn [negb map]. rewrite Htrim. f_equal. destruct ws0 as [|w' ws0]; [done|]. apply IH; [done|done|by right]. }
  intros Hws. destruct ws as [|w ws]; [done|]. apply (Hgo (w :: ws) ""); [done|done|by left].
Qed.

(** Whatever the separator, the text that is shown has commas. *)
Example list_separator_lost :
  list_parse ";" "red;green" = ["red"; "green"] /\ list_format ["red"; "green"] = "red, green" /\
  list_parse ";" "red, green" = ["red, green"].
Proof. split_and!; reflexivity. Qed.

(** A lone point is a number for the regular expression but not for
    [parseFloat]; [NaN] is empty, so that the next digest takes the point off
    the page while it is being typed. *)
Example lone_point : number_regexp "." = true /\ parseFloat "." = Some JNaN /\ render (fun _ => "") JNaN = "".
Proof. split_and!; reflexivity. Qed.

(** ** Examples *)

Definition demo_input : input :=
  Input demo_world.1 (JStr "") JUndef JUndef "" "" "" false.

Definition demo_attrs : attrs := Attrs (Some (fun v => match v with JStr s => contains_char "@" s | _ => false end)) (Some 5) (Some 20).

Lemma demo_live : live 3 demo_world.2 demo_world.1.
Proof.
  split; [apply demo_history|]. split.
  - apply (bool_decide_eq_true_1 (3%nat ∉ demo_world.2)). vm_compute. reflexivity.
  - exists (demo_form 3). split; vm_compute; reflexivity.
Qed.

(** A listener that sets the model: the digest that follows shows that instead
    of what was typed. *)
Example listener_fixes :
  let fixing w := set_values (i_store w) (viewValue w) (modelValue w) (JStr "fixed") w in
  element <$> (type_text 3 [fixing] false [] true false "typed" demo_input ≫= ngModelWatch (fun v => "") []) = Some "fixed".
Proof. vm_compute. reflexivity. Qed.

(** The event that follows a change of the placeholder is taken for one of the
    browser's own, and what the user typed is not read until the next. *)
Example placeholder_drops_input :
  let w := Input demo_world.1 (JStr "") JUndef JUndef "" "a hint" "" false in
  viewValue <$> type_text 3 [] true [] true false "a" w = Some (JStr "") /\
  viewValue <$> (type_text 3 [] true [] true false "a" w ≫= type_text 3 [] true [] true false "ab") = Some (JStr "ab").
Proof. split; vm_compute; reflexivity. Qed.

Lemma typed_text_exact_witness :
  exists w', type_text 3 [] true (text_parsers ∅ 3 (Some true) demo_attrs) true false " a@b " demo_input = Some w' /\
    viewValue w' = JStr "a@b" /\ modelValue w' = JUndef /\ element w' = " a@b " /\
    flag 3 (i_store w') "minlength" = Some true /\ flag 3 (i_store w') "required" = Some false /\
    ngModelWatch (fun _ => "") [] w' = Some w'.
Proof.
  destruct (typed_text_exact ∅ (fun _ => "") 3 [] true demo_world.2 (Some true) demo_attrs true false " a@b " demo_input)
    as (w' & w1 & Hw' & Heq & Hv & Hm & _ & He & Hin & _ & _ & Hw & _); [apply demo_live|reflexivity|reflexivity|reflexivity|discriminate|].
  assert (w' = w1) as -> by (rewrite Heq; by case_match). exists w1. split; [exact Hw'|]. split; [exact Hv|]. split; [exact Hm|]. split; [exact He|].
  split; [|split; [|apply Hw]].
  - rewrite (Hin "minlength"); [vm_compute; reflexivity|]. apply (bool_decide_unpack _). vm_compute. exact I.
  - rewrite (Hin "required"); [vm_compute; reflexivity|]. apply (bool_decide_unpack _). vm_compute. exact I.
Defined.
