(* ===== verification/NgModal.v ===== *)
(** * NgModal: the stack of dialogs

    [$$stackedMap], [$$multiMap], [$uibModalStack] and the chain of promises of
    [$uibModal] (ui-bootstrap.js 3469-3577, 3771-4257).  The console opens its
    dialogs through this service, which it calls by its older name [$modal].

    A dialog is known by its instance, here a number.  Animations are events of
    their own: [entering] and [leaving] are the callbacks that wait for one.
    What a listener of [modal.closing] decides comes with the event.  Of the
    page there are the classes of the elements dialogs are appended to and of
    the windows; the focus is not modelled. *)

From S2P Require Import Prelude Text Js.

#[local] Set Warnings "-clear-no-such-hyp".

(** ** [$$stackedMap] *)

Section StackedMap.
Context {V : Type}.
Implicit Types s : list (nat * V).

Definition add (key : nat) (value : V) s : list (nat * V) := s ++ [(key, value)].

Fixpoint get (key : nat) s : option V :=
  match s with
  | [] => None
  | (k, v) :: s => if Nat.eqb key k then Some v else get key s
  end.

Definition keys s : list nat := map fst s.
Definition top s : option (nat * V) := last s.

(** The index a [for] loop finds, or -1, which [splice] counts from the end. *)
Fixpoint index_of (key : nat) s : option nat :=
  match s with
  | [] => None
  | (k, _) :: s => if Nat.eqb key k then Some 0%nat else S <$> index_of key s
  end.

Definition splice1 (idx : option nat) s : list (nat * V) :=
  match idx with
  | Some i => delete i s
  | None => delete (length s - 1)%nat s
  end.

Definition remove (key : nat) s : list (nat * V) := splice1 (index_of key s) s.
Definition removeTop s : list (nat * V) := delete (length s - 1)%nat s.
End StackedMap.

(** ** [$$multiMap] *)

Abbreviation multimap := (gmap string (list nat)).

(** The map is an object literal: under a name of [Object.prototype] it has
    something from the start, which is not a list. *)
Definition put (key : string) (value : nat) (m : multimap) : result string multimap :=
  if object_name key then Err "TypeError" else Ok (<[key := default [] (m !! key) ++ [value]]> m).

Definition hasKey (key : string) (m : multimap) : bool := object_name key || bool_decide (is_Some (m !! key)).

Definition multi_remove (key : string) (value : nat) (m : multimap) : result string multimap :=
  if object_name key then Err "TypeError" else
  match m !! key with
  | None => Ok m
  | Some values => Ok (match array_remove value values with [] => delete key m | l => <[key := l]> m end)
  end.

(** ** The stack *)

Inductive backdrop_option := NoBackdrop | Backdrop | Static.
Definition shows (b : backdrop_option) : bool := match b with NoBackdrop => false | _ => true end.

Record window := Window {
  w_backdrop : backdrop_option;
  w_keyboard : bool;
  w_openedClass : string;        (** [""] when it is not given *)
  w_topClass : string;
  w_appendTo : nat;
  w_dom : option (gset string)   (** the classes of [modalDomEl] *)
}.

(** A deferred's outcome. *)
Inductive outcome := Resolved (result : string) | Rejected (reason : string).

Record st := St {
  openedWindows : list (nat * window);
  openedClasses : multimap;
  backdropDomEl : option nat;               (** the element it was appended to *)
  page : gmap nat (gset string);            (** the elements of the document *)
  results : gmap nat outcome;
  scheduled : gset nat;                     (** [$$uibDestructionScheduled] of the scopes *)
  entering : list (nat * (nat * string));   (** instance, element and class *)
  leaving : list (nat * (nat * string));
  closed : gset nat
}.

Definition set_windows (l : list (nat * window)) (s : st) : st :=
  St l (openedClasses s) (backdropDomEl s) (page s) (results s) (scheduled s) (entering s) (leaving s) (closed s).
Definition set_opened (m : multimap) (s : st) : st :=
  St (openedWindows s) m (backdropDomEl s) (page s) (results s) (scheduled s) (entering s) (leaving s) (closed s).
Definition set_backdrop (b : option nat) (s : st) : st :=
  St (openedWindows s) (openedClasses s) b (page s) (results s) (scheduled s) (entering s) (leaving s) (closed s).
Definition set_page (p : gmap nat (gset string)) (s : st) : st :=
  St (openedWindows s) (openedClasses s) (backdropDomEl s) p (results s) (scheduled s) (entering s) (leaving s) (closed s).
Definition set_entering (l : list (nat * (nat * string))) (s : st) : st :=
  St (openedWindows s) (openedClasses s) (backdropDomEl s) (page s) (results s) (scheduled s) l (leaving s) (closed s).
Definition set_leaving (l : list (nat * (nat * string))) (s : st) : st :=
  St (openedWindows s) (openedClasses s) (backdropDomEl s) (page s) (results s) (scheduled s) (entering s) l (closed s).
Definition settle_result (k : nat) (o : outcome) (s : st) : st :=
  St (openedWindows s) (openedClasses s) (backdropDomEl s) (page s)
     (match results s !! k with None => <[k := o]> (results s) | Some _ => results s end)
     ({[k]} ∪ scheduled s) (entering s) (leaving s) (closed s).
Definition set_closed (k : nat) (s : st) : st :=
  St (openedWindows s) (openedClasses s) (backdropDomEl s) (page s) (results s) (scheduled s) (entering s) (leaving s) ({[k]} ∪ closed s).

Definition OPENED_MODAL_CLASS : string := "modal-open".
Definition class_of (w : window) : string := if String.eqb (w_openedClass w) "" then OPENED_MODAL_CLASS else w_openedClass w.

(** Of a text of several names each is added or removed. *)
Definition toggleClass (c : string) (on : bool) (classes : gset string) : gset string :=
  let names : gset string := list_to_set (fields c) in if on then names ∪ classes else classes ∖ names.

#[global] Arguments toggleClass : simpl never.

(** [toggleClass] of an element of the page. *)
Definition toggle_page (e : nat) (c : string) (on : bool) (s : st) : st := set_page (alter (toggleClass c on) e (page s)) s.

(** The last index of a window with a backdrop, or -1. *)
Fixpoint backdropIndex_from (i : Z) (acc : Z) (l : list (nat * window)) : Z :=
  match l with
  | [] => acc
  | (_, w) :: l => backdropIndex_from (i + 1) (if shows (w_backdrop w) then i else acc) l
  end.
Definition backdropIndex (s : st) : Z := backdropIndex_from 0 (-1) (openedWindows s).

Definition set_dom (d : option (gset string)) (w : window) : window :=
  Window (w_backdrop w) (w_keyboard w) (w_openedClass w) (w_topClass w) (w_appendTo w) d.

Definition update_top (f : window -> window) (l : list (nat * window)) : list (nat * window) :=
  match last l with
  | Some (k, w) => removelast l ++ [(k, f w)]
  | None => l
  end.

Definition toggleTopWindowClass (on : bool) (s : st) : result string st :=
  match top (openedWindows s) with
  | None => Ok s
  | Some (_, w) =>
      match w_dom w with
      | None => Err "TypeError"
      | Some d => Ok (set_windows (update_top (set_dom (Some (toggleClass (w_topClass w) on d))) (openedWindows s)) s)
      end
  end.

(** What [$modalStack.open] leaves, and the error it throws. *)
Definition open (k : nat) (modal : window) (s : st) : option string * st :=
  match toggleTopWindowClass false s with
  | Err e => (Some e, s)
  | Ok s =>
      let s := set_windows (add k (set_dom None modal) (openedWindows s)) s in
      match put (class_of modal) k (openedClasses s), page s !! w_appendTo modal with
      | Err e, _ => (Some e, s)
      | Ok m, None => (Some "appendTo element not found", set_opened m s)
      | Ok m, Some _ =>
          let s := set_opened m s in
          let s := if (0 <=? backdropIndex s) && bool_decide (backdropDomEl s = None)
                   then set_backdrop (Some (w_appendTo modal)) s else s in
          let s := set_entering (entering s ++ [(k, (w_appendTo modal, class_of modal))]) s in
          (None, set_windows (update_top (set_dom (Some (toggleClass (w_topClass modal) true ∅))) (openedWindows s)) s)
      end
  end.

(** The callback of [$animate.enter]. *)
Definition entered (k : nat) (s : st) : st :=
  match get k (entering s) with
  | None => s
  | Some (e, c) =>
      let s := set_entering (remove k (entering s)) s in
      if bool_decide (k ∈ scheduled s) then s else toggle_page e c true s
  end.

Definition checkRemoveBackdrop (s : st) : st :=
  if bool_decide (is_Some (backdropDomEl s)) && (backdropIndex s =? -1) then set_backdrop None s else s.

Definition removeModalWindow (k : nat) (s : st) : result string st :=
  match get k (openedWindows s) with
  | None => Err "TypeError"
  | Some w =>
      let s := set_windows (remove k (openedWindows s)) s in
      let s := set_leaving (leaving s ++ [(k, (w_appendTo w, class_of w))]) s in
      Ok (checkRemoveBackdrop s)
  end.

(** [afterAnimating] of a window, with the callback of [removeModalWindow]. *)
Definition afterAnimating (k : nat) (s : st) : result string st :=
  match get k (leaving s) with
  | None => Ok s
  | Some (e, c) =>
      let s := set_closed k (set_leaving (remove k (leaving s)) s) in
      m ← multi_remove c k (openedClasses s);
      let s := set_opened m s in
      let s := toggle_page e c (hasKey c (openedClasses s)) s in
      toggleTopWindowClass true s
  end.

(** [close] and [dismiss]; [prevented] is what the listeners of
    [modal.closing] made of the event. *)
Definition finish (k : nat) (o : outcome) (prevented : bool) (s : st) : result string (bool * st) :=
  match get k (openedWindows s) with
  | None => Ok (true, s)
  | Some _ =>
      if prevented then Ok (false, s)
      else s ← removeModalWindow k (settle_result k o s); Ok (true, s)
  end.

Definition close (k : nat) (value : string) : bool -> st -> result string (bool * st) := finish k (Resolved value).
Definition dismiss (k : nat) (reason : string) : bool -> st -> result string (bool * st) := finish k (Rejected reason).

(** [dismissAll]; [prevents] tells which dialogs refuse. *)
Fixpoint dismissAll (fuel : nat) (reason : string) (prevents : nat -> bool) (s : st) : result string st :=
  match fuel with
  | O => Err "out of fuel"
  | S fuel =>
      match top (openedWindows s) with
      | None => Ok s
      | Some (k, _) =>
          p ← dismiss k reason (prevents k) s;
          if p.1 : bool then dismissAll fuel reason prevents p.2 else Ok p.2
      end
  end.

(** [keydownListener] on the escape key. *)
Definition escape_key (prevented : bool) (s : st) : result string st :=
  match top (openedWindows s) with
  | Some (k, w) => if w_keyboard w then p ← dismiss k "escape key press" prevented s; Ok p.2 else Ok s
  | None => Ok s
  end.

(** A click on the window but not in the dialog. *)
Definition window_click (prevented : bool) (s : st) : result string st :=
  match top (openedWindows s) with
  | Some (k, w) => match w_backdrop w with
                   | Backdrop => p ← dismiss k "backdrop click" prevented s; Ok p.2
                   | _ => Ok s
                   end
  | None => Ok s
  end.

(** The scope of a dialog is destroyed from outside. *)
Definition scope_destroyed (k : nat) (prevented : bool) (s : st) : result string st :=
  if bool_decide (k ∈ scheduled s) then Ok s else p ← dismiss k "$uibUnscheduledDestruction" prevented s; Ok p.2.

(** ** [$uibModal]: dialogs wait for their templates, and for each other *)

Record request := Request { q_key : nat; q_modal : window; q_ready : option bool }.

(** The promises that are chained, the stack, and the instances whose [opened]
    promise is resolved, in order. *)
Record ui := Ui { chain : list request; stack : st; opened : list nat }.

(** [$modal.open]: the new promise waits for [promiseChain]. *)
Definition modal_open (k : nat) (modal : window) (u : ui) : ui :=
  Ui (chain u ++ [Request k modal None]) (stack u) (opened u).

(** The template and what is to be resolved are there, or one of them fails. *)
Definition template_done (k : nat) (ok : bool) (u : ui) : ui :=
  Ui (map (fun r => if Nat.eqb (q_key r) k && bool_decide (q_ready r = None) then Request k (q_modal r) (Some ok) else r) (chain u)) (stack u) (opened u).

(** [resolveSuccess] or [resolveError] of the first, and what follows it. *)
Fixpoint advance (l : list request) (s : st) (o : list nat) : ui :=
  match l with
  | Request k modal (Some true) :: l =>
      match open k modal s with
      | (None, s) => advance l s (o ++ [k])
      | (Some _, s) => advance l s o
      end
  | Request k _ (Some false) :: l =>
      advance l (St (openedWindows s) (openedClasses s) (backdropDomEl s) (page s)
                    (match results s !! k with None => <[k := Rejected "template"]> (results s) | Some _ => results s end)
                    (scheduled s) (entering s) (leaving s) (closed s)) o
  | l => Ui l s o
  end.

Definition digest_chain (u : ui) : ui := advance (chain u) (stack u) (opened u).

(** ** Lemmas: the two maps *)

Section StackLemmas.
Context {V : Type}.
Implicit Types s : list (nat * V).

Lemma get_elem key s v : get key s = Some v -> (key, v) ∈ s.
Proof.
  induction s as [|[k w] s IH]; simpl; [done|]. destruct (Nat.eqb_spec key k) as [->|].
  - intros [= ->]. by left.
  - intros H. right. by apply IH.
Qed.

Lemma elem_key key v s : (key, v) ∈ s -> key ∈ keys s.
Proof. intros H. unfold keys. apply list_elem_of_fmap. by exists (key, v). Qed.

Lemma elem_get key s v : NoDup (keys s) -> (key, v) ∈ s -> get key s = Some v.
Proof.
  induction s as [|[k w] s IH]; simpl; [by intros _ ?%not_elem_of_nil|]. intros [Hk Hnd]%NoDup_cons [[= <- <-]|Hin]%elem_of_cons.
  - by rewrite Nat.eqb_refl.
  - destruct (Nat.eqb_spec key k) as [->|]; [|by apply IH]. by apply elem_key in Hin.
Qed.

Lemma key_elem key s : key ∈ keys s -> exists v, get key s = Some v.
Proof.
  induction s as [|[k w] s IH]; simpl; [by intros ?%not_elem_of_nil|]. destruct (Nat.eqb_spec key k) as [->|Hne]; [by eexists|].
  intros [->|H]%elem_of_cons; [done|by apply IH].
Qed.

Lemma get_none key s : get key s = None <-> key ∉ keys s.
Proof.
  split.
  - intros Hg [v Hv]%key_elem. congruence.
  - intros Hk. destruct (get key s) as [v|] eqn:Hg; [|done]. by apply get_elem, elem_key in Hg.
Qed.

Lemma remove_split key s v : get key s = Some v -> exists a b, s = a ++ (key, v) :: b /\ (key ∉ keys a) /\ remove key s = a ++ b.
Proof.
  unfold remove. induction s as [|[k w] s IH]; simpl; [done|]. destruct (Nat.eqb_spec key k) as [->|Hne].
  - intros [= ->]. exists [], s. split; [done|]. split; [apply not_elem_of_nil|done].
  - intros (a & b & -> & Hk & Hr)%IH. exists ((k, w) :: a), b. split; [done|]. split; [by apply not_elem_of_cons|].
    destruct (index_of key _) as [i|] eqn:Hi; simpl in *; [by rewrite Hr|]. exfalso. clear -Hi.
    induction a as [|[k' w'] a IHa]; simpl in *; [by rewrite Nat.eqb_refl in Hi|]. destruct (Nat.eqb key k'); [done|].
    apply IHa. by destruct (index_of key _).
Qed.

Lemma remove_elem key s v x : NoDup (keys s) -> get key s = Some v -> x ∈ remove key s <-> (x ∈ s) /\ x.1 <> key.
Proof.
  intros Hnd (a & b & -> & Ha & ->)%remove_split. unfold keys in Hnd. rewrite map_app in Hnd. simpl in Hnd.
  apply NoDup_app in Hnd as (_ & _ & [Hb _]%NoDup_cons). destruct x as [k w]. rewrite !elem_of_app, elem_of_cons. simpl. split.
  - intros [H|H]; (split; [tauto|]); intros ->; apply elem_key in H; done.
  - intros [[H|[[= -> ->]|H]] Hne]; tauto.
Qed.

Lemma remove_keys key s v : NoDup (keys s) -> get key s = Some v -> NoDup (keys (remove key s)) /\ forall x, x ∈ keys (remove key s) <-> (x ∈ keys s) /\ x <> key.
Proof.
  intros Hnd (a & b & -> & Ha & ->)%remove_split. unfold keys in *. rewrite map_app in *. simpl in Hnd. rewrite map_app.
  apply NoDup_app in Hnd as (H1 & H2 & [H3 H4]%NoDup_cons). split.
  - apply NoDup_app. split_and!; [done| |done]. intros x Hx Hxb. apply (H2 x Hx). by right.
  - intros x. simpl. rewrite !elem_of_app, elem_of_cons. split.
    + intros [H|H]; (split; [tauto|]); intros ->; [done|]. done.
    + intros [[H|[->|H]] Hne]; tauto.
Qed.

Lemma remove_last key s v : NoDup (keys (s ++ [(key, v)])) -> get key (s ++ [(key, v)]) = Some v /\ remove key (s ++ [(key, v)]) = s.
Proof.
  intros Hnd. assert (Hg : get key (s ++ [(key, v)]) = Some v) by (apply elem_get; [done|]; apply elem_of_app; right; by left). split; [done|].
  destruct (remove_split _ _ _ Hg) as (a & b & Hab & Ha & ->). destruct b as [|z b _] using rev_ind.
  - rewrite app_nil_r. by apply app_inj_tail in Hab as [-> _].
  - exfalso. rewrite Hab in Hnd. rewrite app_comm_cons, (assoc_L (++)) in Hab. apply app_inj_tail in Hab as [_ <-].
    unfold keys in Hnd. rewrite map_app in Hnd. apply NoDup_app in Hnd as (_ & _ & [Hk _]%NoDup_cons). apply Hk, (elem_key key v).
    apply elem_of_app. right. by left.
Qed.
End StackLemmas.

(** What a class is held by. *)
Definition holders (c : string) (m : multimap) : list nat := default [] (m !! c).

Definition multi_ok (m : multimap) : Prop := forall c, NoDup (holders c m) /\ m !! c <> Some [].

Lemma hasKey_holders c m : object_name c = false -> multi_ok m -> hasKey c m = true <-> exists k, k ∈ holders c m.
Proof.
  intros Ho Hm. unfold hasKey, holders. rewrite Ho. simpl. rewrite bool_decide_eq_true. destruct (Hm c) as [_ Hne]. destruct (m !! c) as [l|]; simpl.
  - split; [|by eexists]. intros _. destruct l as [|k l]; [done|]. exists k. by left.
  - split; [by intros [? ?]|by intros [k ?%not_elem_of_nil]].
Qed.

Lemma put_ok c k m : object_name c = false -> multi_ok m -> k ∉ holders c m ->
  exists m', put c k m = Ok m' /\ multi_ok m' /\
    forall c', holders c' m' = if decide (c = c') then holders c m ++ [k] else holders c' m.
Proof.
  intros Ho Hm Hk. unfold put. rewrite Ho. eexists. split; [done|].
  assert (Hh : forall c', holders c' (<[c := default [] (m !! c) ++ [k]]> m) = if decide (c = c') then holders c m ++ [k] else holders c' m).
  { intros c'. unfold holders. destruct (decide (c = c')) as [<-|]; [by rewrite lookup_insert_eq|by rewrite lookup_insert_ne]. }
  split; [|done]. intros c'. split.
  - rewrite Hh. destruct (decide (c = c')) as [<-|]; [|apply Hm]. apply NoDup_app. split_and!; [apply Hm| |apply NoDup_singleton].
    by intros x Hx ->%list_elem_of_singleton.
  - destruct (decide (c = c')) as [<-|]; [rewrite lookup_insert_eq|rewrite lookup_insert_ne by done; apply Hm].
    intros [= H]. by destruct (default [] (m !! c)).
Qed.

Lemma multi_remove_ok c k m : object_name c = false -> multi_ok m ->
  exists m', multi_remove c k m = Ok m' /\ multi_ok m' /\
    forall c', holders c' m' = if decide (c = c') then array_remove k (holders c m) else holders c' m.
Proof.
  intros Ho Hm. unfold multi_remove. rewrite Ho. destruct (m !! c) as [l|] eqn:Hc.
  2:{ exists m. split_and!; [done..|]. intros c'. destruct (decide (c = c')) as [<-|]; [|done]. unfold holders. by rewrite Hc. }
  eexists. split; [done|]. set (m' := match array_remove k l with [] => _ | _ => _ end).
  assert (Hh : forall c', holders c' m' = if decide (c = c') then array_remove k (holders c m) else holders c' m).
  { intros c'. unfold m', holders. rewrite Hc. simpl. destruct (array_remove k l) eqn:Hr; destruct (decide (c = c')) as [<-|].
    - by rewrite lookup_delete_eq.
    - by rewrite lookup_delete_ne.
    - by rewrite lookup_insert_eq.
    - by rewrite lookup_insert_ne. }
  split; [|done]. intros c'. split.
  - rewrite Hh. destruct (decide (c = c')); [by apply array_remove_spec, Hm|apply Hm].
  - unfold m'. destruct (array_remove k l) eqn:Hr.
    + destruct (decide (c = c')) as [<-|]; [by rewrite lookup_delete_eq|rewrite lookup_delete_ne by done; apply Hm].
    + destruct (decide (c = c')) as [<-|]; [by rewrite lookup_insert_eq|rewrite lookup_insert_ne by done; apply Hm].
Qed.

(** ** Histories on one element of the page *)

Inductive event :=
| Open (k : nat) (modal : window)
| Finish (k : nat) (o : outcome) (prevented : bool)
| Entered (k : nat)
| Left (k : nat).

Definition exec (e : event) (s : st) : result string st :=
  match e with
  | Open k modal => match open k modal s with (None, s) => Ok s | (Some e, _) => Err e end
  | Finish k o prevented => p ← finish k o prevented s; Ok p.2
  | Entered k => Ok (entered k s)
  | Left k => afterAnimating k s
  end.

(** Events without the conditions on them. *)
Fixpoint run_any (l : list event) (s : st) : result string st :=
  match l with
  | [] => Ok s
  | e :: l => s ← exec e s; run_any l s
  end.

Section OneElement.
Context (e0 : nat).

Definition start : st := St [] ∅ None {[e0 := ∅]} ∅ ∅ [] [] ∅.

(** One name, and not one of [Object.prototype]. *)
Definition single (c : string) : bool := bool_decide (fields c = [c]).
Definition plain_class (c : string) : bool := single c && negb (object_name c).
Definition well (w : window) : bool := plain_class (class_of w) && (String.eqb (w_topClass w) "" || single (w_topClass w)).

(** An instance is opened once, with one class for the element and at most one
    for the top. *)
Definition allowed (e : event) (s : st) : Prop :=
  match e with
  | Open k modal => w_appendTo modal = e0 /\ well modal = true /\ (k ∉ keys (openedWindows s) ++ keys (leaving s) ++ keys (entering s)) /\ (k ∉ scheduled s) /\ results s !! k = None
  | _ => True
  end.

#[global] Instance allowed_dec e s : Decision (allowed e s).
Proof. destruct e; simpl; apply _. Defined.

(** The state after some events, when they are allowed and none throws. *)
Fixpoint run (l : list event) (s : st) : option st :=
  match l with
  | [] => Some s
  | e :: l => if decide (allowed e s) then match exec e s with Ok s => run l s | Err _ => None end else None
  end.

Inductive history : st -> Prop :=
| history_start : history start
| history_event s e s' : history s -> allowed e s -> exec e s = Ok s' -> history s'.

Lemma history_run l : forall s s', history s -> run l s = Some s' -> history s'.
Proof.
  induction l as [|e l IH]; simpl; intros s s' H; [by intros [= <-]|]. destruct (decide (allowed e s)) as [Ha|]; [|done].
  destruct (exec e s) as [s1|] eqn:He; [|done]. apply IH. by eapply history_event.
Qed.

Definition on_page (s : st) (c : string) : Prop := exists cl, page s !! e0 = Some cl /\ c ∈ cl.

Definition open_class (s : st) (c : string) (k : nat) : Prop := exists w, (k, w) ∈ openedWindows s /\ class_of w = c.

(** The window's class for the top of the stack. *)
Definition marked_top (w : window) : Prop := w_topClass w = "" \/ exists d, w_dom w = Some d /\ w_topClass w ∈ d.
Definition unmarked (w : window) : Prop := w_topClass w = "" \/ exists d, w_dom w = Some d /\ w_topClass w ∉ d.

Record core (s : st) : Prop := Core {
  i_nodup : NoDup (keys (openedWindows s) ++ keys (leaving s));
  i_enter_nodup : NoDup (keys (entering s));
  i_window : forall k w, (k, w) ∈ openedWindows s -> w_appendTo w = e0 /\ well w = true /\ is_Some (w_dom w) /\ (k ∉ scheduled s) /\ results s !! k = None;
  i_leaving : forall k e c, (k, (e, c)) ∈ leaving s -> e = e0 /\ (k ∈ scheduled s) /\ plain_class c = true;
  i_entering : forall k e c, (k, (e, c)) ∈ entering s -> e = e0 /\ (k ∈ scheduled s \/ open_class s c k);
  i_multi : multi_ok (openedClasses s);
  i_opened : forall c k, k ∈ holders c (openedClasses s) <-> open_class s c k \/ (k, (e0, c)) ∈ leaving s;
  i_element : is_Some (page s !! e0);
  i_page : forall c, on_page s c -> exists k, k ∈ holders c (openedClasses s);
  i_shown : forall c k, open_class s c k -> (k ∉ keys (entering s)) -> on_page s c;
  i_backdrop : is_Some (backdropDomEl s) <-> exists k w, (k, w) ∈ openedWindows s /\ shows (w_backdrop w) = true;
  i_settled : forall k, k ∈ scheduled s -> is_Some (results s !! k)
}.

(** Only the top of the stack has its class, and has it when nothing is closing. *)
Record tops (s : st) : Prop := Tops {
  i_below : forall l x, openedWindows s = l ++ [x] -> Forall (fun x => unmarked x.2) l;
  i_top : forall x, top (openedWindows s) = Some x -> leaving s = [] -> marked_top x.2
}.

Record inv (s : st) : Prop := Inv { inv_core : core s; inv_tops : tops s }.

Lemma inv_start : inv start.
Proof.
  assert (Hno : forall c k, ~ open_class start c k) by (intros c k (w & Hw & _); by apply not_elem_of_nil in Hw).
  split; split; try (intros; set_solver); try (by constructor).
  - intros c. split; [constructor|done].
  - simpl. rewrite lookup_singleton_eq. by eexists.
  - intros c (cl & Hcl & Hc). simpl in Hcl. rewrite lookup_singleton_eq in Hcl. injection Hcl as <-. set_solver.
  - intros [|] x H; discriminate H.
Qed.

(** *** Changes of the windows' elements *)

Definition view (x : nat * window) : nat * (nat * (string * string) * backdrop_option) :=
  (x.1, (w_appendTo x.2, (class_of x.2, w_topClass x.2), w_backdrop x.2)).

Definition same_windows (l l' : list (nat * window)) : Prop := map view l' = map view l /\ Forall (fun x => is_Some (w_dom x.2)) l'.

Lemma same_windows_keys l l' : same_windows l l' -> keys l' = keys l.
Proof.
  intros [H _]. unfold keys. transitivity (map fst (map view l')); [by rewrite map_map|]. rewrite H. by rewrite map_map.
Qed.

Lemma view_elem k w l l' : map view l' = map view l -> (k, w) ∈ l' ->
  exists w', (k, w') ∈ l /\ w_appendTo w' = w_appendTo w /\ class_of w' = class_of w /\ w_backdrop w' = w_backdrop w /\ well w' = well w.
Proof.
  intros H Hw. assert (Hv : view (k, w) ∈ map view l) by (rewrite <- H; by apply list_elem_of_fmap_2).
  apply list_elem_of_fmap in Hv as ([k' w'] & Hv & Hin). unfold view in Hv. simpl in Hv. simplify_eq. exists w'. split_and!; [done..|]. unfold well. congruence.
Qed.

Lemma core_windows s l : core s -> same_windows (openedWindows s) l -> core (set_windows l s).
Proof.
  intros [H1 H2 H3 H4 H5 H6 H7 H8 H9 H10 H11 H12] [Hv Hd]. pose proof (same_windows_keys _ _ (conj Hv Hd)) as Hk.
  assert (Hopen : forall c k, open_class (set_windows l s) c k <-> open_class s c k).
  { intros c k. split; intros (w & Hw & Hc); simpl in Hw; (eapply view_elem in Hw as (w' & Hw' & _ & Hc' & _); [|done]); exists w'; split; try done; congruence. }
  split; try done.
  - simpl. by rewrite Hk.
  - intros k w Hw. simpl in Hw. pose proof (proj1 (Forall_forall _ _) Hd _ Hw) as Hdom.
    eapply view_elem in Hw as (w' & Hw' & Ha & _ & _ & Hwl); [|exact Hv]. destruct (H3 _ _ Hw') as (Ha' & Hwl' & _ & ? & ?).
    split_and!; [congruence..|done|done|done].
  - intros k e c He. destruct (H5 _ _ _ He) as [? [?|?]]; (split; [done|]); [by left|right; by apply Hopen].
  - intros c k. rewrite Hopen. apply H7.
  - intros c k Hc. apply Hopen in Hc. by apply H10.
  - split.
    + intros (k & w & Hw & Hs)%H11. eapply (view_elem k w l) in Hw as (w' & Hw' & _ & _ & Hb & _); [|done]. exists k, w'. by rewrite Hb.
    + intros (k & w & Hw & Hs). apply H11. simpl in Hw. eapply view_elem in Hw as (w' & Hw' & _ & _ & Hb & _); [|done]. exists k, w'. by rewrite Hb.
Qed.

Lemma core_doms s : core s -> Forall (fun x => is_Some (w_dom x.2)) (openedWindows s).
Proof. intros H. apply Forall_forall. intros [k w] Hw. by eapply i_window. Qed.

Lemma single_fields c : single c = true -> fields c = [c].
Proof. apply bool_decide_eq_true. Qed.

Lemma plain_single c : plain_class c = true -> fields c = [c] /\ object_name c = false.
Proof. by intros [?%single_fields ?%negb_true_iff]%andb_prop. Qed.

Lemma well_class w : well w = true -> plain_class (class_of w) = true.
Proof. by intros [? _]%andb_prop. Qed.

Lemma well_top w : well w = true -> w_topClass w = "" \/ fields (w_topClass w) = [w_topClass w].
Proof. intros [_ [?%String.eqb_eq|?%single_fields]%orb_prop]%andb_prop; tauto. Qed.

Lemma toggleClass_single c on classes c' : fields c = [c] ->
  c' ∈ toggleClass c on classes <-> if decide (c = c') then on = true else c' ∈ classes.
Proof. intros Hc. unfold toggleClass. rewrite Hc. simpl. destruct (decide (c = c')); destruct on; set_solver. Qed.

(** The class of the top. *)
Lemma toggle_top on s : core s ->
  exists l, toggleTopWindowClass on s = Ok (set_windows l s) /\ same_windows (openedWindows s) l /\
    (openedWindows s = [] /\ l = [] \/
     exists b k w w', openedWindows s = b ++ [(k, w)] /\ l = b ++ [(k, w')] /\ w_topClass w' = w_topClass w /\
       (if on then marked_top w' else unmarked w')).
Proof.
  intros Hc. pose proof (core_doms s Hc) as Hd. unfold toggleTopWindowClass, top, update_top.
  destruct (openedWindows s) as [|x l _] eqn:Hl using rev_ind.
  { exists []. split; [by destruct s; simpl in *; subst|]. split; [by split|by left]. }
  rewrite last_snoc. destruct x as [k w].
  assert (Hw : well w = true) by (apply (i_window _ Hc k w); rewrite Hl; apply elem_of_app; right; by left).
  apply well_top in Hw. apply Forall_app in Hd as [Hdl Hdw]. apply Forall_cons in Hdw as [[d Hdw] _]. simpl in Hdw.
  rewrite Hdw. eexists. split; [done|]. rewrite removelast_last. split.
  - split; [by rewrite !map_app|]. apply Forall_app. split; [done|]. by repeat constructor.
  - right. exists l, k, w. eexists. split; [done|]. split; [done|]. split; [done|].
    unfold marked_top, unmarked. simpl. destruct Hw as [|Hw]; [destruct on; by left|].
    destruct on; right; (eexists; split; [done|]); rewrite toggleClass_single by done; by destruct (decide _).
Qed.

(** *** Opening *)

Lemma backdropIndex_shows l : forall i acc, (-1 <= acc)%Z -> (0 <= i)%Z ->
  (0 <= backdropIndex_from i acc l)%Z <-> (0 <= acc)%Z \/ exists k w, (k, w) ∈ l /\ shows (w_backdrop w) = true.
Proof.
  induction l as [|[k w] l IH]; intros i acc Ha Hi; cbn [backdropIndex_from].
  { split; [by left|]. intros [?|(k & w & H & _)]; [done|]. by apply not_elem_of_nil in H. }
  rewrite IH; [|destruct (shows (w_backdrop w)); lia|lia]. destruct (shows (w_backdrop w)) eqn:Hs.
  - split; [|left; lia]. intros _. right. exists k, w. split; [left|done].
  - split.
    + intros [?|(k' & w' & H & Hs')]; [by left|right]. exists k', w'. split; [by right|done].
    + intros [?|(k' & w' & [[= -> ->]|H]%elem_of_cons & Hs')]; [by left|congruence|]. right. by exists k', w'.
Qed.

Lemma backdropIndex_neg l : (backdropIndex_from 0 (-1) l <? 0)%Z = true <-> ~ exists k w, (k, w) ∈ l /\ shows (w_backdrop w) = true.
Proof.
  rewrite Z.ltb_lt. split.
  - intros H Hs. pose proof (proj2 (backdropIndex_shows l 0 (-1) ltac:(lia) ltac:(lia)) (or_intror Hs)). lia.
  - intros H. destruct (Z.lt_ge_cases (backdropIndex_from 0 (-1) l) 0) as [?|Hge]; [done|].
    apply backdropIndex_shows in Hge as [?|?]; [lia|done|lia|lia].
Qed.

(** A new window on the stack, its classes and callbacks. *)
Definition pushed (k : nat) (modal : window) (m : multimap) (s : st) : st :=
  St (openedWindows s ++ [(k, set_dom (Some (toggleClass (w_topClass modal) true ∅)) modal)]) m
     (if shows (w_backdrop modal) && bool_decide (backdropDomEl s = None) then Some e0 else backdropDomEl s)
     (page s) (results s) (scheduled s) (entering s ++ [(k, (e0, class_of modal))]) (leaving s) (closed s).

Lemma open_pushed k modal s : inv s -> allowed (Open k modal) s ->
  exists l m, same_windows (openedWindows s) l /\ Forall (fun x => unmarked x.2) l /\
    put (class_of modal) k (openedClasses s) = Ok m /\ open k modal s = (None, pushed k modal m (set_windows l s)).
Proof.
  intros [Hc Ht] (He & Hwell & Hk & Hks & Hkr). destruct (plain_single _ (well_class _ Hwell)) as [_ Hname].
  destruct (put (class_of modal) k (openedClasses s)) as [m|] eqn:Hput; [|unfold put in Hput; by rewrite Hname in Hput]. destruct (toggle_top false s Hc) as (l & Htop & Hsame & Hl).
  pose proof (core_windows s l Hc Hsame) as Hcl. exists l, m. split; [done|]. split.
  { destruct Hl as [[Hn ->]|(b & k' & w & w' & Hb & -> & _ & Hu)]; [constructor|]. apply Forall_app. split; [by eapply i_below|].
    apply Forall_cons. by split; [|constructor]. }
  split; [done|]. unfold open. rewrite Htop. destruct (i_element _ Hcl) as [cl Hcl']. simpl in Hcl'. simpl. rewrite He, Hcl', Hput. simpl.
  unfold add, update_top. assert (Hb : (0 <=? backdropIndex (set_opened m (set_windows (l ++ [(k, set_dom None modal)]) (set_windows l s)))) &&
      bool_decide (backdropDomEl s = None) = shows (w_backdrop modal) && bool_decide (backdropDomEl s = None)).
  { case_bool_decide as Hnone; [|by rewrite !andb_false_r]. rewrite !andb_true_r. unfold backdropIndex. simpl.
    apply eq_bool_prop_intro.  split; intros H.
    - apply Is_true_eq_true, Z.leb_le in H. apply backdropIndex_shows in H as [?|(k1 & w1 & Hw1 & Hs1)]; [lia| |lia|lia].
      apply elem_of_app in Hw1 as [Hw1|[= -> ->]%list_elem_of_singleton]; [|by apply Is_true_eq_left].
      exfalso. pose proof (proj2 (i_backdrop _ Hcl)) as Hbd. simpl in Hbd. rewrite Hnone in Hbd. destruct Hbd as [? ?]; [by exists k1, w1|done].
    - apply Is_true_eq_left, Z.leb_le, backdropIndex_shows; [lia|lia|]. right. exists k, (set_dom None modal). split; [|by apply Is_true_eq_true].
      apply elem_of_app. right. by apply list_elem_of_singleton. }
  simpl in Hb. rewrite Hb. unfold pushed. simpl.
  destruct (shows (w_backdrop modal) && _); simpl; rewrite last_snoc, removelast_last; done.
Qed.

Lemma core_push k modal m s : core s -> allowed (Open k modal) s -> put (class_of modal) k (openedClasses s) = Ok m ->
  core (pushed k modal m s).
Proof.
  intros [H1 H2 H3 H4 H5 H6 H7 H8 H9 H10 H11 H12] (He & Hwell & Hk & Hks & Hkr) Hput. set (w := set_dom (Some (toggleClass (w_topClass modal) true ∅)) modal).
  rewrite !not_elem_of_app in Hk. destruct Hk as (Hkw & Hkl & Hke).
  destruct (put_ok (class_of modal) k (openedClasses s)) as (m' & Hput' & Hm & Hholders);
    [by apply plain_single, well_class|done| |].
  { rewrite H7. intros [(w' & Hw' & _)|Hl]; [by apply elem_key in Hw'|by apply elem_key in Hl]. }
  assert (m' = m) as -> by congruence.
  assert (Hin : forall k' w', (k', w') ∈ openedWindows s ++ [(k, w)] <-> (k', w') ∈ openedWindows s \/ (k' = k /\ w' = w)).
  { intros k' w'. rewrite elem_of_app, list_elem_of_singleton. naive_solver. }
  assert (Hopen : forall c k', open_class (pushed k modal m s) c k' <-> open_class s c k' \/ (k' = k /\ c = class_of modal)).
  { intros c k'. unfold open_class. simpl. fold w. setoid_rewrite Hin. split.
    - intros (w' & [?|[-> ->]] & <-); [left; by exists w'|by right].
    - intros [(w' & ? & <-)|[-> ->]]; [by exists w'; split; [left|]|exists w; by split; [right|]]. }
  split; cbn [pushed openedWindows openedClasses backdropDomEl page results scheduled entering leaving closed]; fold w.
  - unfold keys. rewrite map_app. simpl. rewrite <- (assoc_L (++)). simpl. apply NoDup_app in H1 as (Ha & Hb & Hc).
    apply NoDup_app. split_and!; [done| |by constructor]. intros x Hx [->|Hxl]%elem_of_cons; [done|by eapply Hb].
  - unfold keys. rewrite map_app. apply NoDup_app. split_and!; [done| |apply NoDup_singleton].
    by intros x Hx ->%list_elem_of_singleton.
  - intros k' w' [?|[-> ->]]%Hin; [by apply H3|]. by split_and!.
  - done.
  - intros k' e c [Hx|Hx]%elem_of_app; [|apply list_elem_of_singleton in Hx; simplify_eq; split; [done|right; apply Hopen; by right]].
    destruct (H5 _ _ _ Hx) as [? [?|?]]; (split; [done|]); [by left|right; apply Hopen; by left].
  - done.
  - intros c k'. rewrite Hholders, Hopen. destruct (decide (class_of modal = c)) as [<-|Hne].
    + rewrite elem_of_app, list_elem_of_singleton, H7. naive_solver.
    + rewrite H7. naive_solver.
  - done.
  - intros c Hc. destruct (H9 c Hc) as [k' Hk']. exists k'. rewrite Hholders. destruct (decide _) as [->|]; [|done].
    apply elem_of_app. by left.
  - unfold keys. rewrite map_app. intros c k' [Hc|[-> ->]]%Hopen Hne; [|exfalso; apply Hne, elem_of_app; right; by left].
    apply (H10 c k' Hc). intros Hx. apply Hne, elem_of_app. by left.
  - setoid_rewrite Hin. case_bool_decide as Hn.
    + rewrite Hn in H11 |- *. rewrite andb_true_r. destruct (shows (w_backdrop modal)) eqn:Hs.
      * split; [|by eexists]. intros _. exists k, w. split; [by right|done].
      * rewrite H11. split; [intros (k' & w' & ? & ?); exists k', w'; tauto|]. intros (k' & w' & [?|[-> ->]] & ?); [by exists k', w'|].
        simpl in *. congruence.
    + rewrite andb_false_r. rewrite H11. split; [intros (k' & w' & ? & ?); exists k', w'; tauto|]. intros _. apply H11.
      by destruct (backdropDomEl s); [eexists|].
  - done.
Qed.
Lemma tops_push k modal m s l : well modal = true -> Forall (fun x => unmarked x.2) l -> tops (pushed k modal m (set_windows l s)).
Proof.
  intros Hw Hl. split.
  - intros l' x H. cbn in H. by apply app_inj_tail in H as [<- _].
  - intros x H _. cbn in H. unfold top in H. rewrite last_snoc in H. injection H as <-. unfold marked_top. simpl.
    destruct (well_top _ Hw) as [|Hc]; [by left|]. right. eexists. split; [done|]. rewrite toggleClass_single by done. by rewrite decide_True.
Qed.

Lemma allowed_windows k modal s l : same_windows (openedWindows s) l -> allowed (Open k modal) s -> allowed (Open k modal) (set_windows l s).
Proof. intros Hsame (? & ? & Hk & ? & ?). split_and!; try done. simpl. by rewrite (same_windows_keys _ _ Hsame). Qed.

(** *** Closing *)

Lemma open_class_fun s c c' k : core s -> open_class s c k -> open_class s c' k -> c = c'.
Proof.
  intros Hc (w & Hw & <-) (w' & Hw' & <-). pose proof (i_nodup _ Hc) as Hnd. apply NoDup_app in Hnd as [Hnd _].
  apply elem_get in Hw, Hw'; try done. congruence.
Qed.

Lemma backdropIndex_from_lb l : forall i acc, (-1 <= acc)%Z -> (0 <= i)%Z -> (-1 <= backdropIndex_from i acc l)%Z.
Proof. induction l as [|[k w] l IH]; intros i acc Ha Hi; simpl; [done|]. apply IH; [|lia]. destruct (shows _); lia. Qed.

Lemma backdropIndex_none s : (backdropIndex s =? -1)%Z = true <-> ~ exists k w, (k, w) ∈ openedWindows s /\ shows (w_backdrop w) = true.
Proof.
  rewrite <- backdropIndex_neg. unfold backdropIndex. pose proof (backdropIndex_from_lb (openedWindows s) 0 (-1) ltac:(lia) ltac:(lia)).
  rewrite Z.eqb_eq, Z.ltb_lt. lia.
Qed.

Lemma dec_stable_shows (l : list (nat * window)) :
  ~ ~ (exists k w, (k, w) ∈ l /\ shows (w_backdrop w) = true) -> exists k w, (k, w) ∈ l /\ shows (w_backdrop w) = true.
Proof.
  intros H. destruct (decide (Exists (fun x => shows (w_backdrop x.2) = true) l)) as [[[k w] Hx]%Exists_exists|Hn]; [by exists k, w|].
  exfalso. apply H. intros (k & w & Hw & Hs). apply Hn, Exists_exists. by exists (k, w).
Qed.

(** The stack when [k] starts to leave. *)
Definition taken (k : nat) (w : window) (o : outcome) (s : st) : st :=
  St (remove k (openedWindows s)) (openedClasses s) (backdropDomEl s) (page s) (<[k := o]> (results s)) ({[k]} ∪ scheduled s)
     (entering s) (leaving s ++ [(k, (e0, class_of w))]) (closed s).

Lemma finish_taken k o s w : core s -> get k (openedWindows s) = Some w ->
  finish k o false s = Ok (true, checkRemoveBackdrop (taken k w o s)).
Proof.
  intros Hc Hg. destruct (i_window _ Hc _ _ (get_elem _ _ _ Hg)) as (Ha & _ & _ & _ & Hr).
  unfold finish. rewrite Hg. unfold settle_result, removeModalWindow. rewrite Hr. cbn [openedWindows]. by rewrite Hg, Ha.
Qed.

Lemma core_taken k o s w : core s -> get k (openedWindows s) = Some w -> core (checkRemoveBackdrop (taken k w o s)).
Proof.
  intros Hc Hg. pose proof Hc as [H1 H2 H3 H4 H5 H6 H7 H8 H9 H10 H11 H12].
  assert (Hnd : NoDup (keys (openedWindows s))) by by apply NoDup_app in H1 as [? _].
  assert (Hin : forall x, x ∈ remove k (openedWindows s) <-> (x ∈ openedWindows s) /\ x.1 <> k) by (intros; by eapply remove_elem).
  assert (Hopen : forall c k', open_class (taken k w o s) c k' <-> open_class s c k' /\ k' <> k).
  { intros c k'. unfold open_class. simpl. setoid_rewrite Hin. simpl. naive_solver. }
  assert (Hk : open_class s (class_of w) k) by (exists w; split; [by apply get_elem|done]).
  enough (Hpre : forall b, (is_Some b <-> exists k' w', (k', w') ∈ remove k (openedWindows s) /\ shows (w_backdrop w') = true) ->
    core (set_backdrop b (taken k w o s))).
  { unfold checkRemoveBackdrop. case_bool_decide as Hb; simpl.
    - destruct (backdropIndex (taken k w o s) =? -1)%Z eqn:Hi.
      + apply backdropIndex_none in Hi. apply Hpre. split; [by intros [? ?]|done].
      + apply (Hpre (backdropDomEl s)). split; [|done]. intros _. apply not_true_iff_false in Hi.
        rewrite backdropIndex_none in Hi. by apply dec_stable_shows.
    - apply (Hpre (backdropDomEl s)). split; [done|]. intros (k' & w' & [Hw' _]%Hin & Hs). apply H11. by exists k', w'. }
  intros b Hb. split; cbn [taken set_backdrop openedWindows openedClasses backdropDomEl page results scheduled entering leaving closed].
  - destruct (remove_split _ _ _ Hg) as (x & y & Hxy & _ & ->). rewrite Hxy in H1. unfold keys in *. rewrite !map_app in *. simpl in *.
    eapply NoDup_Permutation_proper; [|exact H1]. solve_Permutation.
  - done.
  - intros k' w' [Hw' Hne]%Hin. destruct (H3 _ _ Hw') as (? & ? & ? & ? & ?). simpl in Hne. split_and!; [done..|set_solver|].
    by rewrite lookup_insert_ne.
  - intros k' e c [Hx|Hx]%elem_of_app; [destruct (H4 _ _ _ Hx) as (? & ? & ?); set_solver|]. apply list_elem_of_singleton in Hx. simplify_eq.
    split_and!; [done|set_solver|]. apply well_class, (H3 k), get_elem, Hg.
  - intros k' e c Hx. destruct (H5 _ _ _ Hx) as [-> Ho]. split; [done|]. destruct (decide (k' = k)) as [->|]; [left; set_solver|].
    destruct Ho; [left; set_solver|right]. by apply Hopen.
  - done.
  - intros c k'. rewrite H7, (Hopen c k'), elem_of_app, list_elem_of_singleton. destruct (decide (k' = k)) as [->|Hne]; [|naive_solver].
    split; [|naive_solver]. intros [Ho|?]; [|tauto]. right. right. by rewrite (open_class_fun _ _ _ _ Hc Ho Hk).
  - done.
  - done.
  - intros c k' [Ho _]%Hopen Hn. by apply H10 in Ho.
  - done.
  - intros k' Hk'. destruct (decide (k = k')) as [<-|]; [rewrite lookup_insert_eq; by eexists|]. rewrite lookup_insert_ne by done.
    apply H12. set_solver.
Qed.

Lemma check_windows s : openedWindows (checkRemoveBackdrop s) = openedWindows s /\ leaving (checkRemoveBackdrop s) = leaving s.
Proof. unfold checkRemoveBackdrop. by case_match. Qed.

Lemma tops_taken k o s w : tops s -> get k (openedWindows s) = Some w -> tops (checkRemoveBackdrop (taken k w o s)).
Proof.
  intros [Hb _] Hg. destruct (remove_split _ _ _ Hg) as (x & y & Hxy & _ & Hr). destruct (check_windows (taken k w o s)) as [Hw Hlv]. split.
  - intros l z Hl. rewrite Hw in Hl. simpl in Hl. rewrite Hr in Hl. destruct y as [|z' y _] using rev_ind.
    + rewrite app_nil_r in Hl. subst x. specialize (Hb (l ++ [z]) (k, w) Hxy). by apply Forall_app in Hb as [? _].
    + rewrite (assoc_L (++)) in Hl. apply app_inj_tail in Hl as [<- <-]. rewrite app_comm_cons, (assoc_L (++)) in Hxy.
      specialize (Hb _ _ Hxy). apply Forall_app in Hb as [? [_ ?]%Forall_cons]. by apply Forall_app.
  - intros z _ Hl. rewrite Hlv in Hl. simpl in Hl. by destruct (leaving s).
Qed.

(** *** The animations' callbacks *)

Lemma on_page_toggle c c' on s : is_Some (page s !! e0) -> plain_class c = true ->
  on_page (toggle_page e0 c on s) c' <-> if decide (c = c') then on = true else on_page s c'.
Proof.
  intros [cl Hcl] [Hc _]%plain_single. unfold on_page, toggle_page. simpl. rewrite lookup_alter_eq, Hcl. simpl. split.
  - intros (? & [= <-] & Hin%toggleClass_single); [|done]. destruct (decide (c = c')); [done|by exists cl].
  - intros H. eexists. split; [done|]. apply toggleClass_single; [done|]. destruct (decide (c = c')); [done|].
    by destruct H as (? & [= <-] & Hin).
Qed.

Lemma element_toggle c on s : is_Some (page s !! e0) -> is_Some (page (toggle_page e0 c on s) !! e0).
Proof. intros [cl Hcl]. simpl. rewrite lookup_alter_eq, Hcl. by eexists. Qed.

Lemma core_entered k s : core s -> core (entered k s).
Proof.
  intros Hc. unfold entered. destruct (get k (entering s)) as [[e c]|] eqn:Hg; [|done].
  pose proof Hc as [H1 H2 H3 H4 H5 H6 H7 H8 H9 H10 H11 H12]. destruct (H5 _ _ _ (get_elem _ _ _ Hg)) as [-> Hk].
  destruct (remove_keys _ _ _ H2 Hg) as [Hnd Hkeys].
  assert (Hent : forall k' e' c', (k', (e', c')) ∈ remove k (entering s) -> e' = e0 /\ (k' ∈ scheduled s \/ open_class s c' k')).
  { intros k' e' c' Hx. apply (H5 k' e' c'). by eapply (remove_elem k) in Hx as [? _]. }
  case_bool_decide as Hs.
  - split; cbn [set_entering openedWindows openedClasses backdropDomEl page results scheduled entering leaving closed]; try done.
    intros c' k' Ho Hn. apply (H10 c' k' Ho). intros Hin. apply Hn, Hkeys. split; [done|]. intros ->.
    destruct Ho as (w & Hw & _). by destruct (H3 _ _ Hw) as (_ & _ & _ & ? & _).
  - destruct Hk as [?|Hk]; [done|].
    assert (Hne : plain_class c = true) by (destruct Hk as (w & Hw & <-); by eapply well_class, H3).
    pose proof (fun c' => on_page_toggle c c' true (set_entering (remove k (entering s)) s) H8 Hne) as Hp.
    split; try done.
    + by apply element_toggle.
    + intros c' Hc'. apply Hp in Hc'. destruct (decide (c = c')) as [<-|]; [|by apply H9]. exists k. apply H7. by left.
    + intros c' k' Ho Hn. apply Hp. destruct (decide (c = c')) as [|Hcc]; [done|]. apply (H10 c' k' Ho). intros Hin. apply Hn, Hkeys. split; [done|].
      intros ->. apply Hcc. by eapply open_class_fun.
Qed.

Lemma core_left k c m s : core s -> get k (leaving s) = Some (e0, c) -> multi_remove c k (openedClasses s) = Ok m ->
  core (let s := set_opened m (set_closed k (set_leaving (remove k (leaving s)) s)) in
        toggle_page e0 c (hasKey c (openedClasses s)) s).
Proof.
  intros Hc Hg Hrm. pose proof Hc as [H1 H2 H3 H4 H5 H6 H7 H8 H9 H10 H11 H12]. destruct (H4 _ _ _ (get_elem _ _ _ Hg)) as (_ & Hks & Hne).
  destruct (plain_single _ Hne) as [_ Hname]. destruct (multi_remove_ok c k _ Hname H6) as (m' & Hrm' & Hm' & Hh). assert (m' = m) as -> by congruence.
  assert (Hndl : NoDup (keys (leaving s))) by (by apply NoDup_app in H1 as (_ & _ & ?)).
  assert (Hkw : k ∉ keys (openedWindows s)).
  { intros Hk. apply NoDup_app in H1 as (_ & H & _). eapply H; [done|]. by eapply elem_key, get_elem. }
  assert (Hopened : forall c' k', k' ∈ holders c' m <-> open_class s c' k' \/ (k', (e0, c')) ∈ remove k (leaving s)).
  { intros c' k'. rewrite Hh, (remove_elem _ _ _ _ Hndl Hg). simpl.
    assert (Hok : open_class s c' k' -> k' <> k) by (intros (w & Hw & _) ->; by apply elem_key in Hw).
    destruct (decide (c = c')) as [<-|Hcc].
    - rewrite (proj2 (array_remove_spec k _ (proj1 (H6 c)))), H7. naive_solver.
    - rewrite H7. split; [|naive_solver]. intros [?|Hl]; [by left|right]. split; [done|]. intros ->.
      apply elem_get in Hl; [|done]. congruence. }
  set (s1 := set_opened _ _). cbn zeta. pose proof (fun c' => on_page_toggle c c' (hasKey c (openedClasses s1)) s1 H8 Hne) as Hp.
  split; try done.
  - cbn. destruct (remove_keys _ _ _ Hndl Hg) as [Hnd' Hkeys]. apply NoDup_app in H1 as (Ha & Hb & _). apply NoDup_app. split_and!; try done.
    intros x Hx [Hxl _]%Hkeys. by eapply Hb.
  - intros k' e c' Hx. apply (H4 k' e c'). cbn in Hx. by eapply (remove_elem k) in Hx as [? _].
  - by apply element_toggle.
  - intros c' Hc'. apply Hp in Hc'. destruct (decide (c = c')) as [<-|Hcc]; [by apply hasKey_holders in Hc'|].
    destruct (H9 c' Hc') as [k' Hk']. exists k'. cbn. rewrite Hh. by rewrite decide_False.
  - intros c' k' Hoc Hn. apply Hp. destruct (decide (c = c')) as [<-|]; [|by apply (H10 c' k' Hoc)]. apply hasKey_holders; [done..|]. exists k'.
    apply Hopened. by left.
Qed.

(** *** Every event *)

Lemma tops_eq s s' : openedWindows s' = openedWindows s -> leaving s' = leaving s -> tops s -> tops s'.
Proof. intros Hw Hl [H1 H2]. split; rewrite Hw; [done|by rewrite Hl]. Qed.

Lemma inv_left k s : inv s -> exists s', afterAnimating k s = Ok s' /\ inv s'.
Proof.
  intros [Hc Ht]. unfold afterAnimating. destruct (get k (leaving s)) as [[e c]|] eqn:Hg; [|by exists s].
  destruct (i_leaving _ Hc _ _ _ (get_elem _ _ _ Hg)) as (-> & _ & Hp). destruct (plain_single _ Hp) as [_ Hname].
  destruct (multi_remove c k (openedClasses s)) as [m|] eqn:Hm; [|by destruct (multi_remove_ok c k _ Hname (i_multi _ Hc)) as (? & ? & _); congruence].
  change (openedClasses (set_closed k (set_leaving (remove k (leaving s)) s))) with (openedClasses s). rewrite Hm. cbn [mbind result_bind].
  pose proof (core_left k c m s Hc Hg Hm) as Hc'. cbn zeta in Hc'.
  set (s1 := toggle_page e0 c _ _) in Hc'. destruct (toggle_top true s1 Hc') as (l & Hl & Hsame & Hmark).
  exists (set_windows l s1). split; [exact Hl|]. split; [by apply core_windows|].
  destruct Hmark as [[Hn ->]|(b & k' & w & w' & Hb & -> & _ & Hmark)]; split.
  - intros l x H. cbn in H. by destruct l.
  - intros x H. cbn in H. done.
  - intros l x H. cbn in H. apply app_inj_tail in H as [<- _]. eapply i_below; [exact Ht|]. by rewrite <- Hb.
  - intros x H _. cbn in H. unfold top in H. rewrite last_snoc in H. by injection H as <-.
Qed.

Lemma inv_exec e s : inv s -> allowed e s -> exists s', exec e s = Ok s' /\ inv s'.
Proof.
  intros Hi Ha. pose proof Hi as [Hc Ht]. destruct e as [k modal|k o prevented|k|k]; simpl.
  - destruct (open_pushed k modal s Hi Ha) as (l & m & Hsame & Hl & Hput & ->). eexists. split; [done|]. split; [|by apply tops_push, Hl; apply Ha].
    apply core_push; [by apply core_windows|by apply allowed_windows|done].
  - destruct (get k (openedWindows s)) as [w|] eqn:Hg; [|exists s; unfold finish; by rewrite Hg].
    destruct prevented; [exists s; unfold finish; by rewrite Hg|]. rewrite (finish_taken k o s w Hc Hg). eexists. split; [done|].
    split; [by apply core_taken|by apply tops_taken].
  - exists (entered k s). split; [done|]. split; [by apply core_entered|]. apply (tops_eq s); [| |done]; unfold entered; by repeat case_match.
  - by apply inv_left.
Qed.

Lemma history_inv s : history s -> inv s.
Proof.
  induction 1 as [|s e s' _ IH Ha He]; [apply inv_start|]. destruct (inv_exec e s IH Ha) as (s'' & He' & Hi). congruence.
Qed.

(** *** Dismissing every dialog *)

Lemma dismiss_all_inv fuel reason : forall s, inv s -> (length (openedWindows s) < fuel)%nat ->
  forall prevents a b, openedWindows s = a ++ b -> Forall (fun x => prevents x.1 = false) b ->
    (forall x, last a = Some x -> prevents x.1 = true) ->
  exists s', dismissAll fuel reason prevents s = Ok s' /\ inv s' /\ openedWindows s' = a /\
    (forall k, k ∈ keys b -> results s' !! k = Some (Rejected reason)) /\ (forall k, k ∉ keys b -> results s' !! k = results s !! k).
Proof.
  induction fuel as [|fuel IH]; intros s Hi Hf prevents a b Hab Hb Ha; [lia|]. cbn [dismissAll]. unfold top. pose proof Hi as [Hc Ht].
  destruct b as [|[k w] b _] using rev_ind.
  { rewrite app_nil_r in Hab. rewrite Hab. destruct (last a) as [[k w]|] eqn:Hl.
    - apply last_Some in Hl as Hl'. destruct Hl' as [l' ->]. pose proof (i_nodup _ Hc) as Hnd. apply NoDup_app in Hnd as [Hnd _].
      rewrite Hab in Hnd. apply remove_last in Hnd as [Hg _]. rewrite <- Hab in Hg.
      specialize (Ha _ eq_refl). simpl in Ha. unfold dismiss, finish. rewrite Hg, Ha. exists s. split_and!; try done. by intros k' ?%not_elem_of_nil.
    - exists s. split_and!; try done. by intros k' ?%not_elem_of_nil. }
  rewrite Hab, (assoc_L (++)), last_snoc. apply Forall_app in Hb as [Hb [Hp _]%Forall_cons]. simpl in Hp.
  pose proof (i_nodup _ Hc) as Hnd. apply NoDup_app in Hnd as [Hnd _].
  assert (Hlast := Hnd). rewrite Hab, (assoc_L (++)) in Hlast. apply remove_last in Hlast as [Hg Hrem].
  rewrite <- (assoc_L (++)), <- Hab in Hg, Hrem.
  unfold dismiss. rewrite Hp, (finish_taken k _ s w Hc Hg). cbn [mbind result_bind fst snd].
  destruct (check_windows (taken k w (Rejected reason) s)) as [Hw _]. cbn [taken openedWindows] in Hw. rewrite Hrem in Hw.
  destruct (IH (checkRemoveBackdrop (taken k w (Rejected reason) s)) (Inv _ (core_taken _ _ _ _ Hc Hg) (tops_taken _ _ _ _ Ht Hg))) with prevents a b
    as (s' & He & Hi' & Hopen & Hr1 & Hr2); [|done|done|done|].
  { rewrite Hw. rewrite Hab, !length_app in Hf. rewrite length_app. simpl in Hf. lia. }
  assert (Hres : results (checkRemoveBackdrop (taken k w (Rejected reason) s)) = <[k := Rejected reason]> (results s))
    by (unfold checkRemoveBackdrop; by case_match).
  rewrite Hres in Hr2. assert (Hkb : k ∉ keys b).
  { rewrite Hab in Hnd. unfold keys in *. rewrite !map_app in Hnd. apply NoDup_app in Hnd as (_ & _ & Hnd).
    apply NoDup_app in Hnd as (_ & Hd & _). intros Hin. apply (Hd k Hin). by left. }
  exists s'. rewrite He. split_and!; try done; intros k'; unfold keys; rewrite map_app, elem_of_app; simpl; rewrite list_elem_of_singleton.
  - intros [Hk'| -> ]; [by apply Hr1|]. by rewrite Hr2, lookup_insert_eq.
  - intros Hk'. rewrite Hr2 by tauto. apply lookup_insert_ne. naive_solver.
Qed.
End OneElement.

(** ** What the page shows *)


(** From every state dialogs reach, [dismissAll] comes to an end: the
    dialogs above the topmost one that refuses are gone, in the order of the
    stack, their results rejected with the reason, and nothing else about the
    open dialogs or any result has changed; when none refuses the stack is empty. *)
Theorem dismissAll_exact e0 s (H : history e0 s) reason prevents a b :
  openedWindows s = a ++ b -> Forall (fun x => prevents x.1 = false) b -> (forall x, last a = Some x -> prevents x.1 = true) ->
  exists s', dismissAll (S (length (openedWindows s))) reason prevents s = Ok s' /\ openedWindows s' = a /\
    (forall k, k ∈ keys b -> results s' !! k = Some (Rejected reason)) /\ (forall k, k ∉ keys b -> results s' !! k = results s !! k).
Proof.
  intros Hab Hb Ha. destruct (dismiss_all_inv e0 (S (length (openedWindows s))) reason s (history_inv _ _ H)) with prevents a b
    as (s' & ? & _ & ? & ? & ?); [lia|done..|]. by exists s'.
Qed.



(** Of four dialogs the second refuses. *)
Definition stack_of_four : list event :=
  [Open 1 (Window Backdrop true "" "" 0 None); Open 2 (Window Backdrop true "" "" 0 None);
   Open 3 (Window Backdrop true "" "" 0 None); Open 4 (Window Backdrop true "" "" 0 None)].

Lemma dismissAll_exact_witness : exists s s', run 0 stack_of_four (start 0) = Some s /\
  dismissAll 5 "leave" (Nat.eqb 2) s = Ok s' /\ keys (openedWindows s') = [1; 2]%nat /\ results s' !! 4%nat = Some (Rejected "leave").
Proof.
  destruct (run 0 stack_of_four (start 0)) as [s|] eqn:Hr; [|exfalso; vm_compute in Hr; discriminate Hr]. exists s.
  assert (Hh := history_run 0 stack_of_four (start 0) s (history_start 0) Hr).
  destruct (dismissAll_exact 0 s Hh "leave" (Nat.eqb 2) (take 2 (openedWindows s)) (drop 2 (openedWindows s))) as (s' & H1 & H2 & H3 & _).
  - symmetry. apply take_drop.
  - vm_compute in Hr. injection Hr as <-. by repeat constructor.
  - vm_compute in Hr. injection Hr as <-. by intros x [= <-].
  - exists s'. rewrite H2. vm_compute in Hr. injection Hr as <-. split; [done|]. split; [exact H1|]. split; [done|]. apply H3. by right; left.
Defined.

(** A dialog for an element that is not in the page is on the stack when [open]
    throws, without an element of its own; from then on no dialog opens. *)
Example missing_element_poisons :
  let s := (open 1 (Window Backdrop true "" "" 7 None) (start 0)).2 in
  (open 1 (Window Backdrop true "" "" 7 None) (start 0)).1 = Some "appendTo element not found" /\
  keys (openedWindows s) = [1%nat] /\ (open 2 (Window Backdrop true "" "" 0 None) s).1 = Some "TypeError".
Proof. vm_compute. done. Qed.

(** Two elements share the list of a class: the class stays on the first. *)
Example class_left_behind :
  let s := St [] ∅ None {[0%nat := ∅; 1%nat := ∅]} ∅ ∅ [] [] ∅ in
  match run_any [Open 1 (Window NoBackdrop true "" "" 0 None); Entered 1; Open 2 (Window NoBackdrop true "" "" 1 None); Entered 2;
                 Finish 1 (Resolved "") false; Left 1; Finish 2 (Resolved "") false; Left 2] s with
  | Ok s => openedWindows s = [] /\ page s !! 0%nat = Some {[OPENED_MODAL_CLASS]} /\ page s !! 1%nat = Some ∅
  | Err _ => False
  end.
Proof. vm_compute. done. Qed.

(** A dialog whose class is of two names takes, when it has left, both from the
    element, though another dialog is open that asks for the first. *)
Example two_names_take_one :
  match run_any [Open 1 (Window NoBackdrop true "" "" 0 None); Entered 1; Open 2 (Window NoBackdrop true "modal-open wide" "" 0 None); Entered 2;
                 Finish 2 (Resolved "") false; Left 2] (start 0) with
  | Ok s => keys (openedWindows s) = [1%nat] /\ page s !! 0%nat = Some ∅
  | Err _ => False
  end.
Proof. vm_compute. done. Qed.

(** Nor does a dialog open for which a member of [Object.prototype] is the class,
    and it too stays on the stack without an element. *)
Example inherited_class_poisons :
  let s := (open 1 (Window NoBackdrop true "constructor" "" 0 None) (start 0)).2 in
  (open 1 (Window NoBackdrop true "constructor" "" 0 None) (start 0)).1 = Some "TypeError" /\
  keys (openedWindows s) = [1%nat] /\ (open 2 (Window NoBackdrop true "" "" 0 None) s).1 = Some "TypeError".
Proof. vm_compute. done. Qed.

(** [remove] of a key that is not there takes the last. *)
Example remove_missing_takes_last : keys (remove 9 [(1%nat, ()); (2%nat, ())]) = [1%nat].
Proof. reflexivity. Qed.

(** ** The order in which dialogs open *)

(** What settles is the longest prefix whose templates are there, in the order
    of the requests, and the dialogs that open are among it in that order. *)
Lemma advance_prefix l : forall s o, exists l1, l = l1 ++ chain (advance l s o) /\ Forall (fun r => is_Some (q_ready r)) l1 /\
  (forall r l2, chain (advance l s o) = r :: l2 -> q_ready r = None) /\
  exists o', opened (advance l s o) = o ++ o' /\ sublist o' (map q_key (filter (fun r => q_ready r = Some true) l1)).
Proof.
  induction l as [|[k modal r] l IH]; intros s o.
  { exists []. split_and!; [done|done|done|]. exists []. split; [by rewrite app_nil_r|constructor]. }
  cbn [advance]. destruct r as [[|]|].
  - destruct (open k modal s) as [[e|] s1].
    + destruct (IH s1 o) as (l1 & Hl & Hf & Hn & o' & Ho & Hs). exists (Request k modal (Some true) :: l1).
      split_and!; [simpl; by f_equal|by constructor|done|]. exists o'. split; [done|]. simpl. by constructor.
    + destruct (IH s1 (o ++ [k])) as (l1 & Hl & Hf & Hn & o' & Ho & Hs). exists (Request k modal (Some true) :: l1).
      split_and!; [simpl; by f_equal|by constructor|done|]. exists (k :: o'). split; [by rewrite Ho, <- (assoc_L (++))|]. simpl. by constructor.
  - destruct (IH (St (openedWindows s) (openedClasses s) (backdropDomEl s) (page s)
                    (match results s !! k with None => <[k := Rejected "template"]> (results s) | Some _ => results s end)
                    (scheduled s) (entering s) (leaving s) (closed s)) o) as (l1 & Hl & Hf & Hn & o' & Ho & Hs).
    exists (Request k modal (Some false) :: l1). split_and!; [simpl; by f_equal|by constructor|done|]. by exists o'.
  - exists []. split_and!; [done|done| |]; [by intros r l2 [= <- _]|]. exists []. split; [by rewrite app_nil_r|constructor].
Qed.
