(* ===== verification/NgHttp.v ===== *)
(** * NgHttp: requests of the console

    The [$http] service (angular.js 7425-7495, 7593-7618, 8132-8251, 8392-8517)
    and the end of a request in its back end (8664-8682).

    - [Requests]: [sendReq] as a state machine: the list of pending requests, the
      caches, in which a request under way stands as its promise, and the
      promises.  The deferred of a request bears the request's number.  The
      back end's answers, the digests and what the application does to a
      cache are events.
    - [Pipeline]: the chain of interceptors and transformations around it.
    - [Headers]: the headers of a request and of a response. *)

From S2P Require Import Prelude Text Js NgCore NgUrl.

#[local] Set Warnings "-clear-no-such-hyp".

(** ** Headers *)

Module Headers.

(** An object of headers: its own properties in order.  A header is not named
    like a property every object inherits, [constructor] or [__proto__]. *)
Abbreviation headers := (list (string * string)).

Fixpoint hget (k : string) (h : headers) : option string :=
  match h with
  | [] => None
  | (k', v) :: h => if String.eqb k' k then Some v else hget k h
  end.

Fixpoint hset (k v : string) (h : headers) : headers :=
  match h with
  | [] => [(k, v)]
  | (k', v') :: h => if String.eqb k' k then (k', v) :: h else (k', v') :: hset k v h
  end.

(** [line.substr(0, line.indexOf(':'))] and [line.substr(i + 1)]; without a
    colon the first is empty and the second the whole line. *)
Fixpoint cut_colon (s : string) : option (string * string) :=
  match s with
  | EmptyString => None
  | String c s => if Ascii.eqb c ":" then Some ("", s)
                  else match cut_colon s with Some (a, b) => Some (String c a, b) | None => None end
  end.

Definition parse_line (parsed : headers) (line : string) : headers :=
  let '(k, v) := default ("", line) (cut_colon line) in
  let key := lowercase (trim k) in
  let val := trim v in
  if String.eqb key "" then parsed
  else match hget key parsed with
       | Some old => if String.eqb old "" then hset key val parsed else hset key (old +:+ ", " +:+ val) parsed
       | None => hset key val parsed
       end.

Definition nl : ascii := ascii_of_N 10.

Definition parseHeaders (text : string) : headers :=
  if String.eqb text "" then [] else fold_left parse_line (split_char nl text) [].

(** What [headersGetter] is given: the text of a response or an object. *)
Inductive source := HText (text : string) | HObject (h : headers).

Definition headers_of (s : source) : headers := match s with HText t => parseHeaders t | HObject h => h end.

(** [headersGetter(headers)(name)]: an empty value counts as none. *)
Definition headersGetter (s : source) (name : string) : option string :=
  match hget (lowercase name) (headers_of s) with
  | Some v => if String.eqb v "" then None else Some v
  | None => None
  end.

(** The value of a configured header: a string, or a function, here by what it
    returns; [null] is [None]. *)
Inductive value := Text (v : string) | Fn (result : option string).

Abbreviation configured := (list (string * value)).

Fixpoint cset (k : string) (v : value) (h : configured) : configured :=
  match h with
  | [] => [(k, v)]
  | (k', v') :: h => if String.eqb k' k then (k', v) :: h else (k', v') :: cset k v h
  end.

(** [extend({}, a, b)] *)
Definition extend (a b : configured) : configured := fold_left (fun h p => cset p.1 p.2 h) b a.

Definition has_ci (k : string) (h : configured) : bool := existsb (fun p => String.eqb (lowercase p.1) (lowercase k)) h.

(** One round of [defaultHeadersIteration]. *)
Definition add_default (h : configured) (p : string * value) : configured := if has_ci p.1 h then h else cset p.1 p.2 h.

Definition execHeaders (h : configured) : headers :=
  omap (fun p => match p.2 with
                 | Text v => Some (p.1, v)
                 | Fn r => (fun v => (p.1, v)) <$> r
                 end) h.

(** [byMethod]: the defaults of the method of the request. *)
Definition mergeHeaders (common byMethod request : configured) : headers :=
  execHeaders (fold_left add_default (extend common byMethod) request).

(** [serverRequest] without data drops the type of its content. *)
Definition drop_content_type (has_data : bool) (h : headers) : headers :=
  if has_data then h else List.filter (fun p => negb (String.eqb (lowercase p.1) "content-type")) h.

(** *** Merging *)

(** The header of a name, whatever its case. *)
Fixpoint cfind {A} (l : string) (h : list (string * A)) : option A :=
  match h with
  | [] => None
  | (k, v) :: h => if String.eqb (lowercase k) l then Some v else cfind l h
  end.

Definition names_ci {A} (h : list (string * A)) : list string := map (fun p => lowercase p.1) h.

Lemma cfind_none {A} l (h : list (string * A)) : cfind l h = None <-> l ∉ names_ci h.
Proof.
  induction h as [|[k v] h IH]; simpl; [split; [by intros _ ?%not_elem_of_nil|done]|].
  rewrite not_elem_of_cons. destruct (String.eqb_spec (lowercase k) l) as [->|]; [naive_solver|]. rewrite IH. naive_solver.
Qed.

Lemma has_ci_spec k h : has_ci k h = true <-> lowercase k ∈ names_ci h.
Proof.
  unfold has_ci, names_ci. rewrite existsb_exists. split.
  - intros (p & Hp & He%String.eqb_eq). apply list_elem_of_fmap. exists p. split; [done|by apply list_elem_of_In].
  - intros (p & He & Hp)%list_elem_of_fmap. exists p. split; [by apply list_elem_of_In|]. by apply String.eqb_eq.
Qed.

Lemma cset_fresh k v h : lowercase k ∉ names_ci h -> cset k v h = h ++ [(k, v)].
Proof.
  induction h as [|[k' v'] h IH]; simpl; [done|]. rewrite not_elem_of_cons. intros [Hne Hk].
  destruct (String.eqb_spec k' k) as [->|]; [done|]. by rewrite IH.
Qed.

Lemma cfind_app {A} l (a b : list (string * A)) : cfind l (a ++ b) = match cfind l a with Some v => Some v | None => cfind l b end.
Proof. induction a as [|[k v] a IH]; simpl; [done|]. by destruct (String.eqb _ _). Qed.

Lemma add_default_spec h p : NoDup (names_ci h) ->
  NoDup (names_ci (add_default h p)) /\ forall l, cfind l (add_default h p) = cfind l (h ++ [p]).
Proof.
  intros Hnd. unfold add_default. destruct (has_ci p.1 h) eqn:Hci.
  - apply has_ci_spec in Hci. split; [done|]. intros l. rewrite cfind_app. destruct p as [k v]. simpl in *.
    destruct (cfind l h) eqn:Hl; [done|]. apply cfind_none in Hl. destruct (String.eqb_spec (lowercase k) l) as [<-|]; done.
  - assert (Hn : lowercase p.1 ∉ names_ci h) by (intros Hn%has_ci_spec; congruence). destruct p as [k v]. simpl in *.
    rewrite cset_fresh by done. split; [|done]. unfold names_ci. rewrite map_app. apply NoDup_app. split_and!; [done| |apply NoDup_singleton].
    by intros x Hx ->%list_elem_of_singleton.
Qed.

Lemma add_defaults_spec d : forall h, NoDup (names_ci h) ->
  NoDup (names_ci (fold_left add_default d h)) /\ forall l, cfind l (fold_left add_default d h) = cfind l (h ++ d).
Proof.
  induction d as [|p d IH]; intros h Hnd; simpl; [split; [done|]; intros l; by rewrite app_nil_r|].
  destruct (add_default_spec h p Hnd) as [Hnd' Hf]. destruct (IH _ Hnd') as [H1 H2]. split; [done|]. intros l.
  rewrite H2, cfind_app, Hf, <- cfind_app, <- (assoc_L (++)). done.
Qed.

Lemma execHeaders_find l h : NoDup (names_ci h) ->
  cfind l (execHeaders h) = match cfind l h with Some (Text v) => Some v | Some (Fn r) => r | None => None end.
Proof.
  induction h as [|[k v] h IH]; [done|]. cbn [names_ci map fst]. intros [Hk Hnd]%NoDup_cons.
  assert (Hn : forall h : configured, l ∉ names_ci h -> cfind l (execHeaders h) = None).
  { intros h' Hl. apply cfind_none. intros Hin. apply Hl. unfold names_ci in *. apply list_elem_of_fmap in Hin as ([k' v'] & -> & Hin).
    apply list_elem_of_omap in Hin as ([k2 v2] & Hin & He). apply list_elem_of_fmap. exists (k2, v2). split; [|done].
    destruct v2 as [w|[w|]]; simpl in He; by simplify_eq. }
  cbn [cfind]. unfold execHeaders in *. cbn [omap list_omap fst snd]. destruct (String.eqb_spec (lowercase k) l) as [<-|Hne].
  - destruct v as [v|[v|]]; cbn [fmap option_fmap option_map cfind]; rewrite ?String.eqb_refl; try done. by apply Hn.
  - apply String.eqb_neq in Hne. destruct v as [v|[v|]]; cbn [fmap option_fmap option_map cfind]; rewrite ?Hne; by apply IH.
Qed.

(** *** Reading what a browser writes *)

Definition cr : ascii := ascii_of_N 13.
Definition header_line (p : string * string) : string := p.1 +:+ ": " +:+ p.2 +:+ String cr "".
Definition print_headers (h : headers) : string := fold_right (fun p s => header_line p +:+ String nl s) "" h.

(** A text without blanks at its ends, and a header made of such. *)
Definition tidy (v : string) : Prop := v <> "" /\ trim_start v = v /\ trim_end v = v /\ contains_char nl v = false.
Definition header_ok (p : string * string) : Prop := tidy p.1 /\ contains_char ":" p.1 = false /\ tidy p.2.

Definition values_of (k : string) (h : headers) : list string := map snd (List.filter (fun p => String.eqb (lowercase p.1) k) h).

Lemma trim_start_length v : (String.length (trim_start v) <= String.length v)%nat.
Proof. induction v as [|c v IH]; simpl; [lia|]. destruct (js_space c); simpl; lia. Qed.

Lemma trim_start_app v w : tidy v -> trim_start (v +:+ w) = v +:+ w.
Proof.
  intros (Hne & Hs & _). destruct v as [|c v]; [done|]. simpl in *. destruct (js_space c); [|done].
  pose proof (trim_start_length v) as Hl. rewrite Hs in Hl. simpl in Hl. lia.
Qed.

Lemma trim_end_blank v c : js_space c = true -> trim_end (v +:+ String c "") = trim_end v.
Proof. intros Hc. induction v as [|d v IH]; simpl; [by rewrite Hc|]. by rewrite IH. Qed.

Lemma cut_colon_app k v : contains_char ":" k = false -> cut_colon (k +:+ String ":" v) = Some (k, v).
Proof. induction k as [|c k IH]; simpl; [done|]. intros [-> H]%orb_false_iff. by rewrite IH. Qed.

Lemma lowercase_empty k : lowercase k = "" -> k = "".
Proof. by destruct k. Qed.

Lemma hget_hset k k' v h : hget k (hset k' v h) = if String.eqb k' k then Some v else hget k h.
Proof.
  induction h as [|[k2 v2] h IH]; simpl; [done|]. destruct (String.eqb_spec k2 k') as [->|Hne]; simpl.
  - by destruct (String.eqb_spec k' k).
  - destruct (String.eqb_spec k2 k) as [->|]; [|done]. destruct (String.eqb_spec k' k); congruence.
Qed.

Lemma parse_header_line parsed p : header_ok p ->
  parse_line parsed (header_line p) =
    match hget (lowercase p.1) parsed with
    | Some old => if String.eqb old "" then hset (lowercase p.1) p.2 parsed else hset (lowercase p.1) (old +:+ ", " +:+ p.2) parsed
    | None => hset (lowercase p.1) p.2 parsed
    end.
Proof.
  destruct p as [k v]. intros (Hk & Hc & Hv). simpl in Hk, Hc, Hv. unfold parse_line, header_line. cbn [fst snd].
  change (": " +:+ v +:+ String cr "") with (String ":" (String " " (v +:+ String cr ""))). rewrite cut_colon_app by done. simpl.
  assert (Hkt : trim k = k).
  { unfold trim. pose proof (trim_start_app k "" Hk) as H. rewrite string_app_nil_r in H. rewrite H. apply Hk. }
  assert (Hvt : trim (String " " (v +:+ String cr "")) = v).
  { unfold trim. simpl. rewrite trim_start_app by done. rewrite trim_end_blank by done. apply Hv. }
  rewrite Hkt, Hvt. destruct (String.eqb_spec (lowercase k) "") as [He%lowercase_empty|]; [by destruct Hk|done].
Qed.

Lemma split_print h : Forall header_ok h -> split_char nl (print_headers h) = map header_line h ++ [""].
Proof.
  induction 1 as [|[k v] h (Hk & _ & Hv) _ IH]; [done|]. cbn [print_headers fold_right map app]. fold (print_headers h).
  rewrite split_char_cons; [by rewrite IH|]. unfold header_line. cbn [fst snd]. rewrite !contains_char_app.
  simpl in Hk, Hv. destruct Hk as (_ & _ & _ & ->), Hv as (_ & _ & _ & ->). done.
Qed.

Lemma join_app_head a b ws : join ", " ((a +:+ b) :: ws) = a +:+ join ", " (b :: ws).
Proof. destruct ws; [done|]. symmetry. apply (string_app_assoc a b). Qed.

Lemma parse_lines k h : Forall header_ok h -> forall parsed, (forall v, hget k parsed = Some v -> v <> "") ->
  hget k (fold_left parse_line (map header_line h) parsed) =
    match values_of k h with
    | [] => hget k parsed
    | vs => Some (join ", " (match hget k parsed with Some v => v :: vs | None => vs end))
    end.
Proof.
  induction 1 as [|p h Hp Hh IH]; intros parsed Hne; cbn [map fold_left]; [done|]. rewrite parse_header_line by done.
  unfold values_of. cbn [List.filter]. pose proof Hp as (_ & _ & Hv & _).
  destruct (String.eqb_spec (lowercase p.1) k) as [<-|Hk].
  - cbn [map]. fold (values_of (lowercase p.1) h). destruct (hget (lowercase p.1) parsed) as [old|] eqn:Ho.
    + pose proof (Hne _ eq_refl) as Hold. apply String.eqb_neq in Hold as Hb. rewrite Hb.
      rewrite IH by (intros w; rewrite hget_hset, String.eqb_refl; intros [= <-]; by destruct old).
      rewrite hget_hset, String.eqb_refl. destruct (values_of (lowercase p.1) h) as [|w ws]; [done|].
      cbn zeta. rewrite join_app_head. by rewrite join_app_head.
    + rewrite IH by (intros w; rewrite hget_hset, String.eqb_refl; by intros [= <-]). rewrite hget_hset, String.eqb_refl.
      by destruct (values_of (lowercase p.1) h).
  - fold (values_of k h). apply String.eqb_neq in Hk.
    assert (Hsame : forall w, hget k (hset (lowercase p.1) w parsed) = hget k parsed) by (intros w; by rewrite hget_hset, Hk).
    repeat case_match; rewrite IH; rewrite ?Hsame; try done; by case_match.
Qed.

(** The headers of a request: under each name its own header, or else the
    default, whatever the case of the names, and no name twice. *)
Lemma mergeHeaders_exact common byMethod request : NoDup (names_ci request) -> forall l,
  cfind l (mergeHeaders common byMethod request) =
    match cfind l request, cfind l (extend common byMethod) with
    | Some (Text v), _ | None, Some (Text v) => Some v
    | Some (Fn r), _ | None, Some (Fn r) => r
    | None, None => None
    end.
Proof.
  intros Hnd l. destruct (add_defaults_spec (extend common byMethod) request Hnd) as [Hn Hf]. unfold mergeHeaders.
  rewrite execHeaders_find, Hf, cfind_app by done. by destruct (cfind l request) as [[]|].
Qed.

(** The headers of a response, read back from what a browser prints: a name,
    whatever its case, has its values in order, joined by commas. *)
Lemma headersGetter_exact h name : Forall header_ok h ->
  headersGetter (HText (print_headers h)) name =
    match values_of (lowercase name) h with [] => None | vs => Some (join ", " vs) end.
Proof.
  intros Hh. unfold headersGetter, headers_of, parseHeaders. destruct (String.eqb_spec (print_headers h) "") as [He|_].
  { destruct h as [|p h]; [done|]. apply Forall_cons in Hh as [((Hne & _) & _) _]. unfold print_headers, header_line in He. simpl in He.
    by destruct p.1. }
  rewrite split_print, fold_left_app by done. cbn [fold_left]. unfold parse_line at 1. simpl.
  rewrite (parse_lines _ _ Hh []) by done. cbn [hget]. destruct (values_of (lowercase name) h) as [|v vs] eqn:Hv; [done|].
  assert (Hvt : v <> "").
  { assert (Hin : v ∈ values_of (lowercase name) h) by (rewrite Hv; by left). unfold values_of in Hin.
    apply list_elem_of_fmap in Hin as (p & -> & Hin). apply list_elem_of_In, filter_In in Hin as [Hin _]. apply list_elem_of_In in Hin.
    rewrite Forall_forall in Hh. by destruct (Hh _ Hin) as (_ & _ & ? & _). }
  destruct (String.eqb_spec (join ", " (v :: vs)) "") as [He|]; [|done]. exfalso. apply Hvt. destruct vs as [|w vs]; [done|]. by destruct v.
Qed.
End Headers.

(** ** Interceptors and transformations *)

Module Pipeline.
Import Headers.

Section Chain.
Context {V : Type}.

(** A promise by its outcome: a value or the reason of its rejection. *)
Abbreviation outcome := (result V V).
Abbreviation handler := (option (V -> outcome)).
Abbreviation link := (handler * handler)%type.

Record interceptor := Interceptor {
  i_request : handler;
  i_requestError : handler;
  i_response : handler;
  i_responseError : handler
}.

(** [promise.then(thenFn, rejectFn)] *)
Definition then_ (l : link) (o : outcome) : outcome :=
  match o with
  | Ok v => match l.1 with Some f => f v | None => Ok v end
  | Err e => match l.2 with Some f => f e | None => Err e end
  end.

(** [array.splice(index, 0, x)] *)
Definition splice_in {A} (index : nat) (x : A) (l : list A) : list A := take index l ++ x :: drop index l.

(** An interceptor of the older kind gets the promise of the response. *)
Definition legacy (responseFn : outcome -> outcome) : interceptor :=
  Interceptor None None (Some (fun v => responseFn (Ok v))) (Some (fun e => responseFn (Err e))).

Definition reversedInterceptors (registered : list interceptor) (older : list (outcome -> outcome)) : list interceptor :=
  (fold_left (fun p f => (S p.1, splice_in p.1 (legacy f) p.2)) older
     (0%nat, fold_left (fun l i => i :: l) registered [])).2.

Definition given (h : handler) : bool := match h with Some _ => true | None => false end.

(** The body of [forEach(reversedInterceptors, ...)]. *)
Definition add_links (chain : list link) (i : interceptor) : list link :=
  let chain := if given (i_request i) || given (i_requestError i) then (i_request i, i_requestError i) :: chain else chain in
  if given (i_response i) || given (i_responseError i) then chain ++ [(i_response i, i_responseError i)] else chain.

Definition run_chain (chain : list link) (o : outcome) : outcome := fold_left (fun o l => then_ l o) chain o.

(** [$http]: [server] is [serverRequest]. *)
Definition intercepted (registered : list interceptor) (older : list (outcome -> outcome)) (server : V -> outcome) (config : V) : outcome :=
  run_chain (fold_left add_links (reversedInterceptors registered older) [(Some server, None)]) (Ok config).

(** Interceptors as wrappers of what is below them: the one registered first
    sees the configuration first and the response last. *)
Fixpoint nest (its : list interceptor) (inner : outcome -> outcome) (o : outcome) : outcome :=
  match its with
  | [] => inner o
  | i :: its => then_ (i_response i, i_responseError i) (nest its inner (then_ (i_request i, i_requestError i) o))
  end.

Lemma then_none o : then_ (None, None) o = o.
Proof. by destruct o. Qed.

Lemma not_given a b o : given a || given b = false -> then_ (a, b) o = o.
Proof. intros [Ha Hb]%orb_false_iff. destruct a, b; try done. apply then_none. Qed.

Lemma run_chain_app a b o : run_chain (a ++ b) o = run_chain b (run_chain a o).
Proof. apply fold_left_app. Qed.

Lemma run_add_links chain i o :
  run_chain (add_links chain i) o = then_ (i_response i, i_responseError i) (run_chain chain (then_ (i_request i, i_requestError i) o)).
Proof.
  unfold add_links. destruct (given (i_response i) || _) eqn:Hr; rewrite ?run_chain_app; cbn [run_chain fold_left].
  - f_equal. destruct (given (i_request i) || _) eqn:Hq; [done|]. by rewrite (not_given _ _ _ Hq).
  - rewrite (not_given _ _ _ Hr). destruct (given (i_request i) || _) eqn:Hq; [done|]. by rewrite (not_given _ _ _ Hq).
Qed.

Lemma run_links l : forall chain o, run_chain (fold_left add_links l chain) o = nest (rev l) (run_chain chain) o.
Proof.
  induction l as [|i l IH]; intros chain o; [done|]. cbn [fold_left rev]. rewrite IH. clear IH. revert o.
  induction (rev l) as [|j its IH]; intros o; cbn [nest app]; [apply run_add_links|]. by rewrite IH.
Qed.

Lemma reversed_registered l : forall acc : list interceptor, fold_left (fun l i => i :: l) l acc = rev l ++ acc.
Proof. induction l as [|i l IH]; intros acc; [done|]. cbn [fold_left rev]. by rewrite IH, <- (assoc_L (++)). Qed.

Lemma reversed_older fs : forall l1 l2, fold_left (fun p f => (S p.1, splice_in p.1 (legacy f) p.2)) fs (length l1, l1 ++ l2) =
  ((length l1 + length fs)%nat, l1 ++ map legacy fs ++ l2).
Proof.
  induction fs as [|f fs IH]; intros l1 l2; cbn [fold_left map app length]; [by rewrite Nat.add_0_r|].
  assert (Hs : splice_in (length l1) (legacy f) (l1 ++ l2) = l1 ++ legacy f :: l2) by (unfold splice_in; by rewrite take_app_length, drop_app_length).
  cbn [fst snd]. rewrite Hs. specialize (IH (l1 ++ [legacy f]) l2).
  rewrite length_app in IH. cbn [length] in IH. rewrite Nat.add_1_r, <- !(assoc_L (++)) in IH. cbn [app] in IH.
  rewrite IH.
  f_equal. lia.
Qed.

Lemma nest_app a b inner o : nest (a ++ b) inner o = nest a (nest b inner) o.
Proof. revert o. induction a as [|i a IH]; intros o; [done|]. cbn [app nest]. by rewrite IH. Qed.

Lemma nest_legacy fs inner : forall o, nest (map legacy (rev fs)) inner o = fold_left (fun o f => f o) fs (inner o).
Proof.
  induction fs as [|f fs IH] using rev_ind; intros o; [done|]. rewrite rev_unit, fold_left_app. cbn [map nest legacy i_request i_requestError i_response i_responseError fold_left].
  rewrite then_none, IH. by destruct (fold_left _ _ _).
Qed.

Lemma nest_ext its f g o : (forall o, f o = g o) -> nest its f o = nest its g o.
Proof. intros H. revert o. induction its as [|i its IH]; intros o; cbn [nest]; [done|]. by rewrite IH. Qed.

(** However many interceptors of either kind are registered and whichever of
    their four functions each has, a call of [$http] its the composition in
    which every interceptor wraps those registered after it: configurations
    pass in the order of registration, responses and rejections come back in
    the opposite order, and the interceptors of the older kind get the answer of
    the server first, in their own order. *)
Theorem interceptors_nest registered older server config :
  intercepted registered older server config =
  nest registered (fun o => fold_left (fun o f => f o) older (then_ (Some server, None) o)) (Ok config).
Proof.
  unfold intercepted, reversedInterceptors. rewrite reversed_registered, app_nil_r.
  pose proof (reversed_older older [] (rev registered)) as Ho. cbn [length app] in Ho. rewrite Ho. cbn [snd]. rewrite run_links, rev_app_distr, rev_involutive, nest_app.
  apply nest_ext. intros o. rewrite <- map_rev. apply nest_legacy.
Qed.
End Chain.
Arguments interceptor : clear implicits.

(** *** Transformations *)

Section Transform.
Context {D E : Type} (is_string : D -> option string) (fromJson : string -> result E D) (of_string : string -> D).

(** A transformer gets the data, [undefined] being [None], and the headers. *)
Abbreviation transformer := (option D -> source -> result E (option D)).

Fixpoint transformData (data : option D) (headers : source) (fns : list transformer) : result E (option D) :=
  match fns with
  | [] => Ok data
  | fn :: fns => data ← fn data headers; transformData data headers fns
  end.

(** [PROTECTION_PREFIX], [JSON_START] and [JSON_END] *)
Definition strip_protection (s : string) : string :=
  match s with
  | String a (String b (String c (String d rest))) =>
      if String.eqb (String a (String b (String c (String d "")))) ")]}'" then
        let rest' := match rest with String e r => if Ascii.eqb e "," then r else rest | _ => rest end in
        match rest' with
        | String e r => if Ascii.eqb e nl then r else s
        | _ => s
        end
      else s
  | _ => s
  end.

Definition json_start (s : string) : bool :=
  match trim_start s with
  | String "[" _ => true
  | String "{" (String c _) => negb (Ascii.eqb c "{")
  | _ => false
  end.

Fixpoint last_char (s : string) : option ascii :=
  match s with
  | EmptyString => None
  | String c EmptyString => Some c
  | String _ s => last_char s
  end.

Definition json_end (s : string) : bool :=
  match last_char (trim_end s) with
  | Some c => Ascii.eqb c "}" || Ascii.eqb c "]"
  | None => false
  end.

(** [defaults.transformResponse] *)
Definition default_transformResponse (data : option D) (headers : source) : result E (option D) :=
  match data ≫= is_string with
  | Some text =>
      let text := strip_protection text in
      if json_start text && json_end text then Some <$> fromJson text else Ok (Some (of_string text))
  | None => Ok data
  end.

Record config := Config {
  c_data : option D;
  c_headers : headers;
  c_withCredentials : option bool;
  c_transformRequest : list transformer;
  c_transformResponse : list transformer
}.

(** [serverRequest]: what [sendReq] is given. *)
Definition serverRequest (default_credentials : option bool) (c : config) : result E (option D * headers * option bool) :=
  reqData ← transformData (c_data c) (HObject (c_headers c)) (c_transformRequest c);
  let headers := drop_content_type (match reqData with Some _ => true | None => false end) (c_headers c) in
  Ok (reqData, headers, match c_withCredentials c with Some b => Some b | None => default_credentials end).
End Transform.
Arguments config : clear implicits.
End Pipeline.

(** ** The URL of a request *)

Module BuildUrl.
Import NgUrl.Uri NgUrl.Query.

(** A parameter: [null] or [undefined], a value or an array of values.  A value
    is a primitive, by its string, or an object, by what [toISOString] or
    [toJson] makes of it. *)
Inductive param := Absent | Single (v : string) | Several (vs : list string).

Fixpoint param_of (k : string) (ps : list (string * param)) : param :=
  match ps with
  | [] => Absent
  | (k', v) :: ps => if String.eqb k' k then v else param_of k ps
  end.

Definition param_values (p : param) : list string :=
  match p with Absent => [] | Single v => [v] | Several vs => vs end.

Definition query_piece (key v : string) : string := encodeUriQuery key false +:+ "=" +:+ encodeUriQuery v false.

Definition sorted_keys (ps : list (string * param)) : list string := foldr NgCore.Basics.insert_key [] (map fst ps).

Definition url_parts (ps : list (string * param)) : list string :=
  flat_map (fun k => map (query_piece k) (param_values (param_of k ps))) (sorted_keys ps).

Definition buildUrl (url : string) (params : option (list (string * param))) : string :=
  match params with
  | None => url
  | Some ps =>
      match url_parts ps with
      | [] => url
      | parts => url +:+ (if contains_char "?" url then "&" else "?") +:+ join "&" parts
      end
  end.

(** *** Reading the query back *)

(** The token of [encodeUriQuery] when blanks become [+]. *)
Definition plus_tok (c : ascii) : string := if Ascii.eqb c " " then "+" else query_tok c.

Lemma plus_enc s : encodeUriQuery s false = enc plus_tok s.
Proof.
  unfold encodeUriQuery, encodeURIComponent.
  change "%40" with (pct "@"). change "%3A" with (pct ":"). change "%24" with (pct "$").
  change "%2C" with (pct ","). change "%20" with (pct " ").
  rewrite !replace_enc; repeat first [apply good_ext_tok; [|done] | apply uri_tok_good].
  apply enc_ext. intros [[] [] [] [] [] [] [] []]; vm_compute; reflexivity.
Qed.

Lemma unplus_tok c s : replace_all false "+" "%20" (plus_tok c +:+ s) = query_tok c +:+ replace_all false "+" "%20" s.
Proof. destruct c as [[] [] [] [] [] [] [] []]; reflexivity. Qed.

Lemma unplus_enc k s : replace_all false "+" "%20" (enc plus_tok k +:+ s) = enc query_tok k +:+ replace_all false "+" "%20" s.
Proof. induction k as [|c k IH]; [done|]. cbn [enc]. by rewrite <- string_app_assoc, unplus_tok, IH, string_app_assoc. Qed.

Lemma unplus_piece k v : replace_all false "+" "%20" (query_piece k v) = enc query_tok k +:+ String "=" (enc query_tok v).
Proof.
  unfold query_piece. rewrite !plus_enc, unplus_enc. f_equal. change ("=" +:+ enc plus_tok v) with (String "=" (enc plus_tok v)).
  pose proof (unplus_enc v "") as H. rewrite !string_app_nil_r in H. change (replace_all false "+" "%20" (String "=" (enc plus_tok v)))
    with (String "=" (replace_all false "+" "%20" (enc plus_tok v))). rewrite H. by f_equal.
Qed.

Lemma parse_query_piece obj k v : utf8 k = true -> utf8 v = true ->
  parse_piece obj (query_piece k v) = parse_piece obj (param_piece k (SStr v)).
Proof.
  intros Hk Hv. rewrite parse_param_piece by done. unfold parse_piece. rewrite unplus_piece, split_eq_query, !try_decode_query by done.
  destruct (String.eqb_spec (query_piece k v) "") as [He|]; [|done]. exfalso. unfold query_piece in He. by destruct (encodeUriQuery k false).
Qed.

Lemma query_piece_lacks k v : contains_char "&" (query_piece k v) = false.
Proof.
  assert (He : forall s, contains_char "&" (enc plus_tok s) = false).
  { intros s. apply enc_lacks. intros [[] [] [] [] [] [] [] []]; reflexivity. }
  unfold query_piece. rewrite !plus_enc, contains_char_app, He. change ("=" +:+ ?x) with (String "=" x). cbn [contains_char]. by rewrite He.
Qed.

(** What the parser makes of a parameter: nothing of an empty one, one value, or
    an array. *)
Definition parsed_param (p : param) : option kv :=
  match param_values p with
  | [] => None
  | [v] => Some (One (SStr v))
  | vs => Some (Many (map SStr vs))
  end.

Definition parsed_params (ps : list (string * param)) : params :=
  omap (fun k => (fun v => (k, v)) <$> parsed_param (param_of k ps)) (sorted_keys ps).

Definition param_text_ok (p : string * param) : bool :=
  utf8 p.1 && negb (String.eqb p.1 "__proto__") && forallb utf8 (param_values p.2).

Lemma insert_key_perm k l : NgCore.Basics.insert_key k l ≡ₚ k :: l.
Proof. induction l as [|x l IH]; simpl; [done|]. destruct (String.leb k x); [done|]. rewrite IH. apply Permutation_swap. Qed.

Lemma sorted_keys_perm ps : sorted_keys ps ≡ₚ map fst ps.
Proof. unfold sorted_keys. induction (map fst ps) as [|k l IH]; simpl; [done|]. by rewrite insert_key_perm, IH. Qed.

Lemma param_of_elem k ps : k ∈ map fst ps -> (k, param_of k ps) ∈ ps.
Proof.
  induction ps as [|[k' v] ps IH]; simpl; [by intros ?%not_elem_of_nil|]. destruct (String.eqb_spec k' k) as [->|Hne]; [by left|].
  intros [->|H]%elem_of_cons; [done|]. right. by apply IH.
Qed.

Lemma parse_parts ks f : Forall (fun k => param_text_ok (k, f k) = true) ks -> forall obj : params,
  fold_left parse_piece (flat_map (fun k => map (query_piece k) (param_values (f k))) ks) obj =
  fold_left parse_piece
    (flat_map (fun p => match p.2 with Many vs => map (param_piece p.1) vs | One v => [param_piece p.1 v] end)
       (omap (fun k => (fun v => (k, v)) <$> parsed_param (f k)) ks)) obj.
Proof.
  assert (Hone : forall k vs, utf8 k = true -> forallb utf8 vs = true -> forall obj : params,
    fold_left parse_piece (map (query_piece k) vs) obj = fold_left parse_piece (map (param_piece k) (map SStr vs)) obj).
  { intros k vs Hk. induction vs as [|v vs IH]; simpl; intros H obj; [done|]. apply andb_true_iff in H as [Hv H].
    by rewrite parse_query_piece, IH. }
  induction 1 as [|k ks Hk _ IH]; intros obj; [done|]. cbn [flat_map omap list_omap]. rewrite fold_left_app, IH. clear IH.
  unfold param_text_ok in Hk. apply andb_true_iff in Hk as [[Hk _]%andb_true_iff Hv]. cbn [fst snd] in *. rewrite Hone by done.
  unfold parsed_param. destruct (param_values (f k)) as [|v [|w vs]]; cbn [fmap option_fmap option_map flat_map fst snd]; [done| |];
    by rewrite fold_left_app.
Qed.

Lemma parsed_params_ok ps : forallb param_text_ok ps = true -> NoDup (map fst ps) ->
  NoDup (parsed_params ps).*1 /\ forallb param_ok (parsed_params ps) = true /\ Forall (fun k => param_text_ok (k, param_of k ps) = true) (sorted_keys ps).
Proof.
  intros Hok Hnd. assert (Hall : Forall (fun k => param_text_ok (k, param_of k ps) = true) (sorted_keys ps)).
  { apply Forall_forall. intros k Hk. rewrite sorted_keys_perm in Hk. apply param_of_elem in Hk.
    rewrite forallb_forall in Hok. by apply Hok, list_elem_of_In. }
  split_and!; [| |done].
  - assert (Hs : sublist (parsed_params ps).*1 (sorted_keys ps)).
    { clear Hall. unfold parsed_params. induction (sorted_keys ps) as [|k ks IH]; [done|]. cbn [omap list_omap].
      destruct (parsed_param (param_of k ps)); cbn [fmap option_fmap option_map list_fmap fst]; by constructor. }
    eapply sublist_NoDup; [|exact Hs]. by rewrite sorted_keys_perm.
  - unfold parsed_params. induction Hall as [|k ks Hk _ IH]; [done|]. cbn [omap list_omap].
    unfold param_text_ok in Hk. apply andb_true_iff in Hk as [[Hk Hp]%andb_true_iff Hv]. cbn [fst snd] in *. unfold parsed_param at 1.
    destruct (param_values (param_of k ps)) as [|v [|w vs]]; cbn [fmap option_fmap option_map forallb]; [done| |]; rewrite IH, andb_true_r;
      unfold param_ok; cbn [fst snd]; rewrite Hk, Hp.
    + simpl in *. by rewrite andb_true_r in Hv.
    + cbn [map length forallb andb]. simpl in Hv. apply andb_true_iff in Hv as [Hv [Hw Hvs]%andb_true_iff]. simpl. rewrite Hv, Hw.
      clear -Hvs. induction vs as [|x vs IH]; simpl in *; [done|]. apply andb_true_iff in Hvs as [-> Hvs]. by apply IH.
Qed.

(** The parameters of a request can be read back from its URL: in the order of
    their names, when that is the order an object lists them in (an array index
    comes first), those without a value left out, and an array of one value as
    that value. *)
Lemma buildUrl_params url ps : forallb param_text_ok ps = true -> NoDup (map fst ps) -> enumerated (parsed_params ps).*1 = true -> url_parts ps <> [] ->
  exists query, buildUrl url (Some ps) = url +:+ (if contains_char "?" url then "&" else "?") +:+ query /\ parseKeyValue query = parsed_params ps.
Proof.
  intros Hok Hnd Hen Hne. exists (join "&" (url_parts ps)). split; [unfold buildUrl; by destruct (url_parts ps)|].
  destruct (parsed_params_ok ps Hok Hnd) as (Hpn & Hpo & Hall). unfold parseKeyValue. rewrite (split_join "&"); [|done|].
  - unfold url_parts. rewrite (parse_parts _ (fun k => param_of k ps)) by done. by rewrite parse_pieces.
  - apply Forall_forall. intros w Hw. apply list_elem_of_In, in_flat_map in Hw as (k & _ & (v & <- & _)%in_map_iff). apply query_piece_lacks.
Qed.
End BuildUrl.

(** ** Requests under way *)

Module Requests.
Import Headers.

(** The option [cache] of a request or of the defaults; objects are numbered. *)
Inductive cache_option := CacheUndefined | CacheFalse | CacheTrue | CacheObject (c : nat).

Definition asks (o : cache_option) : bool := match o with CacheTrue | CacheObject _ => true | _ => false end.

Definition isSuccess (status : Z) : bool := (200 <=? status) && (status <? 300).

(** The status a request ends with: [response] tells whether it has a body,
    [file] whether its protocol is [file:]. *)
Definition completeRequest (status : Z) (response file : bool) : Z :=
  let status := if status =? 0 then if response then 200 else if file then 404 else 0 else status in
  if status =? 1223 then 204 else status.

Section Machine.
Context {D : Type} (default_cache : cache_option).

Record request := Request {
  q_cache : cache_option;
  q_get : bool;       (** its method is GET or JSONP *)
  q_url : string      (** with its parameters, [buildUrl] *)
}.

Record response := Response {
  r_data : D;
  r_status : Z;
  r_headers : source;
  r_config : nat;
  r_statusText : string
}.

Inductive promise := Pending | Resolved (r : response) | Rejected (r : response).

(** What stands in a cache: a promise, the array of a response, or any other
    value the application put there. *)
Inductive entry :=
| EPromise (d : nat)
| EResponse (status : Z) (data : D) (h : headers) (statusText : string)
| EValue (data : D).

(** [answers]: whose promise the caller of a request was given.  [callbacks]:
    [removePendingReq] of a request waits for a promise; [ticks]: it is
    scheduled.  [backend]: the calls of [$httpBackend] that have not ended, with
    the cache chosen and the URL.  Cache 0 is [defaultCache]. *)
Record st := St {
  pendingRequests : list nat;
  caches : gmap (nat * string) entry;
  promises : gmap nat promise;
  answers : gmap nat nat;
  callbacks : list (nat * nat);
  ticks : list nat;
  backend : list (nat * (option nat * string))
}.

Definition choose_cache (q : request) : option nat :=
  if (asks (q_cache q) || asks default_cache) && negb (match q_cache q with CacheFalse => true | _ => false end) && q_get q
  then Some (match q_cache q, default_cache with
             | CacheObject c, _ | _, CacheObject c => S c
             | _, _ => 0%nat
             end)
  else None.

(** [promise.then(removePendingReq, removePendingReq)] *)
Definition then_remove (d id : nat) (s : st) : st :=
  match promises s !! d with
  | Some Pending => St (pendingRequests s) (caches s) (promises s) (answers s) (callbacks s ++ [(d, id)]) (ticks s) (backend s)
  | Some _ => St (pendingRequests s) (caches s) (promises s) (answers s) (callbacks s) (ticks s ++ [id]) (backend s)
  | None => s
  end.

Definition settle (d : nat) (p : promise) (s : st) : st :=
  match promises s !! d with
  | Some Pending =>
      St (pendingRequests s) (caches s) (<[d := p]> (promises s)) (answers s)
         (filter (fun c => c.1 <> d) (callbacks s))
         (ticks s ++ map snd (filter (fun c => c.1 = d) (callbacks s))) (backend s)
  | _ => s
  end.

Definition resolvePromise (id : nat) (data : D) (status : Z) (h : source) (statusText : string) (s : st) : st :=
  let status := Z.max status 0 in
  let r := Response data status h id statusText in
  settle id (if isSuccess status then Resolved r else Rejected r) s.

Definition set_cache (k : nat * string) (e : entry) (s : st) : st :=
  St (pendingRequests s) (<[k := e]> (caches s)) (promises s) (answers s) (callbacks s) (ticks s) (backend s).
Definition drop_cache (k : nat * string) (s : st) : st :=
  St (pendingRequests s) (delete k (caches s)) (promises s) (answers s) (callbacks s) (ticks s) (backend s).
Definition set_answer (id d : nat) (s : st) : st :=
  St (pendingRequests s) (caches s) (promises s) (<[id := d]> (answers s)) (callbacks s) (ticks s) (backend s).
Definition set_backend (l : list (nat * (option nat * string))) (s : st) : st :=
  St (pendingRequests s) (caches s) (promises s) (answers s) (callbacks s) (ticks s) l.

(** The first lines of [sendReq]. *)
Definition started (id : nat) (s : st) : st :=
  then_remove id id
    (St (pendingRequests s ++ [id]) (caches s) (<[id := Pending]> (promises s)) (answers s) (callbacks s) (ticks s) (backend s)).

Definition call_backend (id : nat) (cache : option nat) (url : string) (s : st) : st :=
  set_backend (backend s ++ [(id, (cache, url))]) s.

Definition sendReq (id : nat) (q : request) (s : st) : st :=
  let s := started id s in
  match choose_cache q with
  | Some c =>
      match caches s !! (c, q_url q) with
      | Some (EPromise d) => set_answer id d (then_remove d id s)
      | Some (EResponse status data h statusText) => resolvePromise id data status (HObject h) statusText (set_answer id id s)
      | Some (EValue data) => resolvePromise id data 200 (HObject []) "OK" (set_answer id id s)
      | None => call_backend id (Some c) (q_url q) (set_cache (c, q_url q) (EPromise id) (set_answer id id s))
      end
  | None => call_backend id None (q_url q) (set_answer id id s)
  end.

(** [removePendingReq], the first of the callbacks that are scheduled. *)
Definition removePendingReq (s : st) : st :=
  match ticks s with
  | [] => s
  | id :: l => St (array_remove id (pendingRequests s)) (caches s) (promises s) (answers s) (callbacks s) l (backend s)
  end.

Definition digest (s : st) : st :=
  St (fold_left (fun l id => array_remove id l) (ticks s) (pendingRequests s)) (caches s) (promises s) (answers s) (callbacks s) [] (backend s).

Fixpoint under_way (id : nat) (l : list (nat * (option nat * string))) : option (option nat * string) :=
  match l with
  | [] => None
  | (k, v) :: l => if Nat.eqb k id then Some v else under_way id l
  end.

(** [done]; [phase] tells whether a digest is running. *)
Definition done_ (id : nat) (status : Z) (data : D) (headersString statusText : string) (phase : bool) (s : st) : st :=
  match under_way id (backend s) with
  | None => s
  | Some (cache, url) =>
      let s := set_backend (filter (fun b => b.1 <> id) (backend s)) s in
      let s := match cache with
               | Some c => if isSuccess status then set_cache (c, url) (EResponse status data (parseHeaders headersString) statusText) s
                           else drop_cache (c, url) s
               | None => s
               end in
      let s := resolvePromise id data status (HText headersString) statusText s in
      if phase then s else digest s
  end.

(** *** Histories *)

Inductive event :=
| Send (id : nat) (q : request)
| Done (id : nat) (status : Z) (data : D) (headersString statusText : string) (phase : bool)
| Tick
| Preload (c : nat) (url : string) (data : D)
| Evict (c : nat) (url : string).

Definition exec (e : event) (s : st) : st :=
  match e with
  | Send id q => sendReq id q s
  | Done id status data h text phase => done_ id status data h text phase s
  | Tick => removePendingReq s
  | Preload c url data => set_cache (c, url) (EValue data) s
  | Evict c url => drop_cache (c, url) s
  end.

Definition is_promise (e : option entry) : bool := match e with Some (EPromise _) => true | _ => false end.

(** Every call of [$http] has a configuration of its own; the application does
    not touch the entry of a request that is under way. *)
Definition allowed (e : event) (s : st) : Prop :=
  match e with
  | Send id _ => promises s !! id = None
  | Preload c url _ | Evict c url => is_promise (caches s !! (c, url)) = false
  | _ => True
  end.

#[global] Instance allowed_dec e s : Decision (allowed e s).
Proof. destruct e; simpl; apply _. Defined.

Definition start : st := St [] ∅ ∅ ∅ [] [] [].

Inductive history : st -> Prop :=
| history_start : history start
| history_event s e : history s -> allowed e s -> history (exec e s).

Fixpoint run (l : list event) (s : st) : option st :=
  match l with
  | [] => Some s
  | e :: l => if decide (allowed e s) then run l (exec e s) else None
  end.

Lemma requests_run l : forall s s', history s -> run l s = Some s' -> history s'.
Proof.
  induction l as [|e l IH]; simpl; intros s s' H; [by intros [= <-]|]. destruct (decide (allowed e s)) as [Ha|]; [|done].
  apply IH. by apply history_event.
Qed.

(** *** The invariant *)

Definition waits (s : st) (id : nat) : Prop := exists d, answers s !! id = Some d /\ promises s !! d = Some Pending.

(** [x] is a request that is neither at the back end nor answered yet. *)
Record inv_but (x : option nat) (s : st) : Prop := Inv {
  i_backend : NoDup (map fst (backend s));
  i_flight : forall d b, (d, b) ∈ backend s -> promises s !! d = Some Pending /\ answers s !! d = Some d;
  i_entry : forall k d, caches s !! k = Some (EPromise d) <-> (d, (Some k.1, k.2)) ∈ backend s;
  i_sent : forall id, is_Some (answers s !! id) <-> is_Some (promises s !! id);
  i_answer : forall id d, answers s !! id = Some d ->
    is_Some (promises s !! d) /\ (promises s !! d = Some Pending -> Some d <> x -> d ∈ map fst (backend s));
  i_pending : NoDup (pendingRequests s) /\ forall id, id ∈ pendingRequests s <-> waits s id \/ id ∈ ticks s;
  i_ticks : NoDup (ticks s) /\ forall id, id ∈ ticks s -> exists d p, answers s !! id = Some d /\ promises s !! d = Some p /\ p <> Pending;
  i_waiting : forall id d, answers s !! id = Some d -> promises s !! d = Some Pending -> (d, id) ∈ callbacks s;
  i_callbacks : NoDup (callbacks s) /\ forall d id, (d, id) ∈ callbacks s -> promises s !! d = Some Pending /\ is_Some (answers s !! id) /\ (d = id \/ answers s !! id = Some d)
}.

Abbreviation inv := (inv_but None).

Lemma requests_start : inv start.
Proof.
  split; cbn [start pendingRequests caches promises answers callbacks ticks backend]; unfold waits;
    cbn [start pendingRequests caches promises answers callbacks ticks backend]; try setoid_rewrite lookup_empty.
  - constructor.
  - by intros d b ?%not_elem_of_nil.
  - intros k d. split; [done|by intros ?%not_elem_of_nil].
  - intros id. split; by intros [? ?].
  - done.
  - split; [constructor|]. intros id. split; [by intros ?%not_elem_of_nil|]. by intros [(d & ? & _)|?%not_elem_of_nil].
  - split; [constructor|]. by intros id ?%not_elem_of_nil.
  - done.
  - split; [constructor|]. by intros d id ?%not_elem_of_nil.
Qed.

Lemma callbacks_of s d id x : inv_but x s -> promises s !! d = Some Pending -> answers s !! d = Some d ->
  id ∈ map snd (filter (fun c => c.1 = d) (callbacks s)) <-> answers s !! id = Some d.
Proof.
  intros Hi Hp Ha. destruct (i_callbacks _ _ Hi) as [_ Hc]. split.
  - intros ([d' id'] & -> & [Hd Hin]%list_elem_of_filter)%list_elem_of_fmap. simpl in Hd. subst d'. destruct (Hc _ _ Hin) as (_ & _ & [->|?]); done.
  - intros Hid. apply list_elem_of_fmap. exists (d, id). split; [done|]. apply list_elem_of_filter. split; [done|]. by eapply i_waiting.
Qed.

Lemma inv_settle d p s : inv_but (Some d) s -> promises s !! d = Some Pending -> answers s !! d = Some d -> d ∉ map fst (backend s) ->
  p <> Pending -> inv (settle d p s).
Proof.
  intros Hi Hp Ha Hb Hne. pose proof (fun id => callbacks_of s d id _ Hi Hp Ha) as Hcb. unfold settle. rewrite Hp.
  destruct Hi as [H1 H2 H3 H4 H5 [H6 H6'] [H7 H7'] H8 [H9 H9']].
  assert (Hpr : forall d' q, <[d:=p]> (promises s) !! d' = Some q <-> (d' = d /\ q = p) \/ (d' <> d /\ promises s !! d' = Some q)).
  { intros d' q. destruct (decide (d' = d)) as [->|]; [rewrite lookup_insert_eq; naive_solver|rewrite lookup_insert_ne by done; naive_solver]. }
  assert (Hsome : forall d', is_Some (<[d:=p]> (promises s) !! d') <-> is_Some (promises s !! d')).
  { intros d'. rewrite lookup_insert_is_Some. split; [intros [<-|[_ ?]]; [by eexists|done]|]. intros. destruct (decide (d = d')); tauto. }
  split; unfold waits; cbn [pendingRequests caches promises answers callbacks ticks backend]; try done.
  - intros d' b Hin. destruct (H2 _ _ Hin). split; [|done]. apply Hpr. right. split; [|done]. intros ->. apply Hb.
    apply list_elem_of_fmap. by exists (d, b).
  - intros id. by rewrite H4, Hsome.
  - intros id d' Hid. rewrite Hsome. split; [by eapply H5|]. intros [[-> <-]|[Hd Hq]]%Hpr _; [done|]. eapply H5; [done|done|congruence].
  - split; [done|]. intros id. rewrite H6', elem_of_app, Hcb. unfold waits. setoid_rewrite Hpr. split.
    + intros [(d' & Hid & Hq)|?]; [|tauto]. destruct (decide (d' = d)) as [->|]; [tauto|]. left. exists d'. tauto.
    + intros [(d' & Hid & [[-> <-]|[_ Hq]])|[?|Hid]]; [done|left; by exists d'|tauto|left; by exists d].
  - split.
    + apply NoDup_app. split_and!; [done| |].
      * intros id (d' & q & Hid & Hq & Hqn)%H7' Hid'%Hcb. congruence.
      * assert (Hnd : NoDup (filter (fun c => c.1 = d) (callbacks s))) by by apply NoDup_filter.
        clear -Hnd. induction (callbacks s) as [|[d' id] l IH]; [constructor|]. rewrite filter_cons in Hnd |- *. simpl in *.
        destruct (decide (d' = d)) as [->|]; [|by apply IH]. apply NoDup_cons in Hnd as [Hn Hnd]. cbn [map snd]. apply NoDup_cons. split; [|by apply IH].
        intros ([d' id'] & -> & Hin)%list_elem_of_fmap. apply Hn. pose proof Hin as [Hd _]%list_elem_of_filter. simpl in *. by subst d'.
    + intros id [(d' & q & Hid & Hq & Hqn)%H7'|Hid%Hcb]%elem_of_app.
      * exists d', q. split; [done|]. split; [|done]. apply Hpr. right. split; [|done]. congruence.
      * exists d, p. split; [done|]. split; [|done]. apply Hpr. by left.
  - intros id d' Hid [[-> <-]|[Hd Hq]]%Hpr; [done|]. apply list_elem_of_filter. split; [done|]. by apply H8.
  - split; [by apply NoDup_filter|]. intros d' id [Hd Hin]%list_elem_of_filter. destruct (H9' _ _ Hin) as (? & ? & ?).
    split; [|done]. apply Hpr. tauto.
Qed.

Lemma inv_remove s : inv s -> inv (removePendingReq s).
Proof.
  intros [H1 H2 H3 H4 H5 [H6 H6'] [H7 H7'] H8 H9]. unfold removePendingReq. destruct (ticks s) as [|id l] eqn:Ht; [by split; rewrite ?Ht|].
  apply NoDup_cons in H7 as [Hn H7]. destruct (array_remove_spec id _ H6) as [Hnd Hrm].
  assert (Hw : ~ waits s id).
  { intros (d & Hd & Hp). destruct (H7' id) as (d' & q & Hd' & Hq & Hqn); [by left|]. congruence. }
  split; unfold waits; cbn [pendingRequests caches promises answers callbacks ticks backend]; try done.
  - split; [done|]. intros id'. rewrite Hrm, H6', elem_of_cons. unfold waits in *. split; [naive_solver|].
    intros [Hd|Hin]; (split; [tauto|]); intros ->; tauto.
  - split; [done|]. intros id' Hin. apply H7'. by right.
Qed.

Lemma inv_digest s : inv s -> inv (digest s).
Proof.
  assert (H : forall n s, length (ticks s) = n -> inv s -> inv (digest s)); [|by eapply H].
  clear. intros n. induction n as [|n IH]; intros s Hn Hi; unfold digest in *; destruct (ticks s) as [|id l] eqn:Ht; try done.
  - destruct s; simpl in *; by subst.
  - specialize (IH (removePendingReq s)). unfold removePendingReq in IH. rewrite Ht in IH. simpl in IH. apply IH; [simpl in Hn; lia|].
    pose proof (inv_remove s Hi) as Hr. unfold removePendingReq in Hr. by rewrite Ht in Hr.
Qed.

(** A number that no request has had. *)
Lemma fresh_id id s : inv s -> promises s !! id = None ->
  answers s !! id = None /\ (id ∉ pendingRequests s) /\ (id ∉ ticks s) /\ (id ∉ map fst (backend s)) /\
  (forall d id', (d, id') ∈ callbacks s -> d <> id /\ id' <> id) /\ (forall id', answers s !! id' <> Some id).
Proof.
  intros [H1 H2 H3 H4 H5 [H6 H6'] [H7 H7'] H8 [H9 H9']] Hp.
  assert (Ha : answers s !! id = None) by (apply eq_None_not_Some; rewrite H4, Hp; by intros [? ?]).
  assert (Ht : id ∉ ticks s) by (intros (d & q & ? & _)%H7'; congruence).
  split_and!; try done.
  - intros [(d & ? & _)|?]%H6'; [congruence|done].
  - intros ([d b] & -> & [? _]%H2)%list_elem_of_fmap. simpl in *. congruence.
  - intros d id' (? & [? ?] & _)%H9'. split; congruence.
  - intros id' [[? ?] _]%H5. congruence.
Qed.

(** The state after [sendReq] has given its caller the promise of [d]. *)
Definition sent (id d : nat) (cbs : list (nat * nat)) (s : st) : st :=
  St (pendingRequests s ++ [id]) (caches s) (<[id := Pending]> (promises s)) (<[id := d]> (answers s))
     (callbacks s ++ (id, id) :: cbs) (ticks s) (backend s).

Lemma inv_sent id d cbs s : inv s -> promises s !! id = None ->
  (d = id /\ cbs = [] \/ d <> id /\ cbs = [(d, id)] /\ promises s !! d = Some Pending /\ d ∈ map fst (backend s)) ->
  inv_but (Some id) (sent id d cbs s).
Proof.
  intros Hi Hp Hd. destruct (fresh_id id s Hi Hp) as (Ha & Hpe & Ht & Hb & Hcb & Han).
  destruct Hi as [H1 H2 H3 H4 H5 [H6 H6'] [H7 H7'] H8 [H9 H9']].
  assert (Hdp : <[id:=Pending]> (promises s) !! d = Some Pending).
  { destruct Hd as [[-> _]|(Hne & _ & Hdp & _)]; [apply lookup_insert_eq|by rewrite lookup_insert_ne]. }
  assert (Hpr : forall d', d' <> id -> <[id:=Pending]> (promises s) !! d' = promises s !! d') by (intros; by rewrite lookup_insert_ne).
  assert (Hans : forall id' d', <[id:=d]> (answers s) !! id' = Some d' <-> (id' = id /\ d' = d) \/ (id' <> id /\ answers s !! id' = Some d')).
  { intros id' d'. destruct (decide (id' = id)) as [->|]; [rewrite lookup_insert_eq; naive_solver|rewrite lookup_insert_ne by done; naive_solver]. }
  assert (Hold : forall id' d', answers s !! id' = Some d' -> d' <> id) by (intros id' d' H ->; by apply (Han id')).
  assert (Hcbs : forall d' id', (d', id') ∈ (id, id) :: cbs <-> (d' = id /\ id' = id) \/ (d' = d /\ id' = id)).
  { intros d' id'. rewrite elem_of_cons. destruct Hd as [[-> ->]|(_ & -> & _)]; [set_solver|]. rewrite list_elem_of_singleton. naive_solver. }
  split; unfold waits; cbn [sent pendingRequests caches promises answers callbacks ticks backend]; try done.
  - intros d' b Hin. destruct (H2 _ _ Hin) as [Hq Haq]. assert (d' <> id) by congruence. rewrite Hpr by done. split; [done|].
    by rewrite lookup_insert_ne.
  - intros id'. rewrite !lookup_insert_is_Some, H4. tauto.
  - intros id' d' [[-> ->]|[Hne Hid]]%Hans.
    + rewrite Hdp. split; [by eexists|]. intros _ Hx. destruct Hd as [[-> _]|(_ & _ & _ & ?)]; [done|done].
    + rewrite Hpr by by eapply Hold. destruct (H5 _ _ Hid) as [? Hq]. split; [done|]. intros Hq' _. by apply Hq.
  - split.
    + apply NoDup_app. split_and!; [done| |apply NoDup_singleton]. by intros x Hx ->%list_elem_of_singleton.
    + intros id'. rewrite elem_of_app, list_elem_of_singleton, H6'. unfold waits. setoid_rewrite Hans. split.
      * intros [[(d' & Hid & Hq)|?]| -> ]; [left; exists d'|tauto|left; exists d; tauto].
        rewrite Hpr by by eapply Hold. split; [right; split; [congruence|done]|done].
      * intros [(d' & [[-> ->]|[Hne Hid]] & Hq)|?]; [tauto|left; left; exists d'|tauto]. rewrite Hpr in Hq by by eapply Hold. done.
  - split; [done|]. intros id' Hin. destruct (H7' _ Hin) as (d' & q & Hid & Hq & Hqn). exists d', q. rewrite Hans, Hpr by by eapply Hold.
    split; [right; split; [congruence|done]|done].
  - intros id' d' [[-> ->]|[Hne Hid]]%Hans Hq; rewrite elem_of_app, Hcbs; [tauto|]. left. rewrite Hpr in Hq by by eapply Hold. by apply H8.
  - split.
    + apply NoDup_app. split_and!; [done| |].
      * intros [d' id'] Hin Hin'%Hcbs. destruct (Hcb _ _ Hin). naive_solver.
      * destruct Hd as [[-> ->]|(Hne & -> & _)]; [apply NoDup_singleton|]. apply NoDup_cons. split; [|apply NoDup_singleton].
        intros [= <-]%list_elem_of_singleton. done.
    + intros d' id' [Hin|Hin%Hcbs]%elem_of_app.
      * destruct (Hcb _ _ Hin) as [Hd1 Hid1]. rewrite Hpr, lookup_insert_ne by done. by apply H9'.
      * assert (id' = id) as -> by tauto. rewrite lookup_insert_eq. destruct Hin as [[-> _]|[-> _]].
        -- rewrite lookup_insert_eq. split_and!; [done|by eexists|by left].
        -- rewrite Hdp. split_and!; [done|by eexists|by right].
Qed.

Lemma started_sent id s : then_remove id id
    (St (pendingRequests s ++ [id]) (caches s) (<[id := Pending]> (promises s)) (answers s) (callbacks s) (ticks s) (backend s)) =
  St (pendingRequests s ++ [id]) (caches s) (<[id := Pending]> (promises s)) (answers s) (callbacks s ++ [(id, id)]) (ticks s) (backend s).
Proof. unfold then_remove. cbn [promises]. by rewrite lookup_insert_eq. Qed.

(** The request goes to the back end. *)
Lemma inv_call id c url s : inv_but (Some id) s -> promises s !! id = Some Pending -> answers s !! id = Some id -> id ∉ map fst (backend s) ->
  match c with Some c => is_promise (caches s !! (c, url)) = false | None => True end ->
  inv (call_backend id c url match c with Some c => set_cache (c, url) (EPromise id) s | None => s end).
Proof.
  intros [H1 H2 H3 H4 H5 H6 H7 H8 H9] Hp Ha Hb Hc. unfold call_backend, set_backend, set_cache.
  assert (Hin : forall d b, (d, b) ∈ backend s ++ [(id, (c, url))] <-> (d, b) ∈ backend s \/ (d = id /\ b = (c, url))).
  { intros d b. rewrite elem_of_app, list_elem_of_singleton. naive_solver. }
  assert (Hids : forall d, d ∈ map fst (backend s ++ [(id, (c, url))]) <-> d ∈ map fst (backend s) \/ d = id).
  { intros d. rewrite map_app, elem_of_app. simpl. by rewrite list_elem_of_singleton. }
  destruct c as [c|]; split; cbn [pendingRequests caches promises answers callbacks ticks backend]; try done.
  1,5: rewrite map_app; apply NoDup_app; split_and!; [done| |apply NoDup_singleton]; by intros x Hx ->%list_elem_of_singleton.
  1,4: intros d b [Hd|[-> ->]]%Hin; [by apply (H2 _ b)|done].
  2,4: intros id' d Hid; destruct (H5 _ _ Hid) as [? Hq]; (split; [done|]); intros Hq' _; rewrite Hids;
    (destruct (decide (d = id)) as [->|]; [by right|left; apply Hq; congruence]).
  - intros [c' u'] d. rewrite Hin. cbn [fst snd]. destruct (decide ((c', u') = (c, url))) as [[= -> ->]|Hne].
    + rewrite lookup_insert_eq. split; [intros [= <-]; by right|]. intros [Hd|[-> _]]; [|done]. apply (H3 (c, url)) in Hd.
      by rewrite Hd in Hc.
    + rewrite lookup_insert_ne by done. rewrite H3. cbn [fst snd]. split; [tauto|]. intros [?|[_ [= -> ->]]]; [done|]. done.
  - intros k d. rewrite Hin, H3. split; [tauto|]. by intros [?|[_ ?]].
Qed.

Lemma inv_resolve id data status h text s : inv_but (Some id) s -> promises s !! id = Some Pending -> answers s !! id = Some id ->
  id ∉ map fst (backend s) -> inv (resolvePromise id data status h text s).
Proof. intros. unfold resolvePromise. apply inv_settle; try done. by case_match. Qed.

Lemma requests_weaken id s : inv_but (Some id) s -> (forall id', answers s !! id' <> Some id) -> inv s.
Proof.
  intros [H1 H2 H3 H4 H5 H6 H7 H8 H9] Hn. split; try done. intros id' d Hid. destruct (H5 _ _ Hid) as [? Hq]. split; [done|]. intros Hp _.
  apply Hq; [done|]. intros [= ->]. by apply (Hn id').
Qed.

Lemma inv_send id q s : inv s -> promises s !! id = None -> inv (sendReq id q s).
Proof.
  intros Hi Hp. destruct (fresh_id id s Hi Hp) as (Ha & _ & _ & Hb & _ & Han). unfold sendReq, started. rewrite started_sent.
  set (s1 := St _ _ _ _ _ _ _). assert (Hown : set_answer id id s1 = sent id id [] s) by done.
  assert (Hsent : inv_but (Some id) (set_answer id id s1)) by (rewrite Hown; apply inv_sent; [done|done|by left]).
  assert (Hp1 : promises (set_answer id id s1) !! id = Some Pending) by (simpl; apply lookup_insert_eq).
  assert (Ha1 : answers (set_answer id id s1) !! id = Some id) by (simpl; apply lookup_insert_eq).
  destruct (choose_cache q) as [c|]; [|by apply (inv_call id None)].
  destruct (caches s1 !! (c, q_url q)) as [[d|status data h text|data]|] eqn:He.
  - apply (i_entry _ _ Hi) in He. destruct (i_flight _ _ Hi _ _ He) as [Hd _]. assert (Hne : d <> id) by congruence.
    assert (Hdb : d ∈ map fst (backend s)) by (apply list_elem_of_fmap; by exists (d, (Some c, q_url q))).
    assert (Heq : set_answer id d (then_remove d id s1) = sent id d [(d, id)] s).
    { unfold then_remove. simpl. rewrite lookup_insert_ne, Hd by done. unfold set_answer, sent. simpl. by rewrite <- (assoc_L (++)). }
    rewrite Heq. apply (requests_weaken id); [apply inv_sent; [done|done|by right]|]. intros id'. simpl.
    destruct (decide (id = id')) as [<-|]; [rewrite lookup_insert_eq; congruence|by rewrite lookup_insert_ne].
  - by apply inv_resolve.
  - by apply inv_resolve.
  - apply (inv_call id (Some c)); try done. change (is_promise (caches s1 !! (c, q_url q)) = false). by rewrite He.
Qed.

Lemma under_way_elem id l b : under_way id l = Some b -> (id, b) ∈ l.
Proof.
  induction l as [|[k v] l IH]; simpl; [done|]. destruct (Nat.eqb_spec k id) as [->|]; [intros [= ->]; by left|]. intros H. right. by apply IH.
Qed.

Lemma backend_fun s x id b b' : inv_but x s -> (id, b) ∈ backend s -> (id, b') ∈ backend s -> b = b'.
Proof.
  intros Hi Hb Hb'. pose proof (i_backend _ _ Hi) as Hnd. apply list_elem_of_lookup in Hb as [i Hb], Hb' as [j Hb'].
  assert (i = j) as <-; [|congruence]. eapply NoDup_lookup; [exact Hnd| |]; by rewrite list_lookup_fmap, ?Hb, ?Hb'.
Qed.

(** The answer of the back end before the promise is settled. *)
Lemma inv_answered id cache url status data h text s : inv s -> (id, (cache, url)) ∈ backend s ->
  let s1 := set_backend (filter (fun b => b.1 <> id) (backend s)) s in
  let s2 := match cache with
            | Some c => if isSuccess status then set_cache (c, url) (EResponse status data h text) s1 else drop_cache (c, url) s1
            | None => s1
            end in
  inv_but (Some id) s2 /\ promises s2 !! id = Some Pending /\ answers s2 !! id = Some id /\ id ∉ map fst (backend s2).
Proof.
  intros Hi Hb s1. pose proof Hi as [H1 H2 H3 H4 H5 H6 H7 H8 H9]. destruct (H2 _ _ Hb) as [Hp Ha].
  assert (Hin : forall d b, (d, b) ∈ filter (fun b => b.1 <> id) (backend s) <-> (d, b) ∈ backend s /\ d <> id).
  { intros d b. rewrite list_elem_of_filter. simpl. tauto. }
  assert (Hids : forall d, d ∈ map fst (filter (fun b => b.1 <> id) (backend s)) <-> d ∈ map fst (backend s) /\ d <> id).
  { intros d. rewrite !list_elem_of_fmap. split.
    - intros ([d' b] & -> & [? ?]%Hin). simpl in *. split; [|done]. by exists (d', b).
    - intros [([d' b] & -> & ?) ?]. exists (d', b). split; [done|]. by apply Hin. }
  assert (Hother : forall k d, d = id -> (d, (Some k.1, k.2)) ∈ backend s -> cache = Some k.1 /\ url = k.2).
  { intros k d -> Hd. pose proof (backend_fun _ _ _ _ _ Hi Hb Hd) as [= -> ->]. done. }
  assert (Hgen : forall m : gmap (nat * string) entry,
    (forall k d, m !! k = Some (EPromise d) <-> caches s !! k = Some (EPromise d) /\ d <> id) ->
    inv_but (Some id) (St (pendingRequests s) m (promises s) (answers s) (callbacks s) (ticks s) (filter (fun b => b.1 <> id) (backend s)))).
  { intros m Hm. split; cbn [pendingRequests caches promises answers callbacks ticks backend]; try done.
    - pose proof (NoDup_fmap_2_strong fst (filter (fun b => b.1 <> id) (backend s))) as Hf. apply Hf; [|apply NoDup_filter; by eapply NoDup_fmap_1].
      intros [d b] [d' b'] [Hd _]%Hin [Hd' _]%Hin Heq. simpl in Heq. subst d'. f_equal. by eapply backend_fun.
    - intros d b [Hd _]%Hin. by apply (H2 d b).
    - intros k d. rewrite Hm, Hin, H3. done.
    - intros id' d Hid. destruct (H5 _ _ Hid) as [? Hq]. split; [done|]. intros Hpd Hne. apply Hids. split; [by apply Hq|]. congruence. }
  assert (Hgone : id ∉ map fst (filter (fun b => b.1 <> id) (backend s))) by (intros [_ ?]%Hids; done).
  destruct cache as [c|]; cbn zeta; [destruct (isSuccess status)|]; (split; [|done]); apply Hgen; intros k d.
  - destruct (decide ((c, url) = k)) as [<-|Hne]; [rewrite lookup_insert_eq|rewrite lookup_insert_ne by done].
    + split; [done|]. intros [Hd Hne]. apply (H3 (c, url)) in Hb. congruence.
    + split; [|tauto]. intros Hd. split; [done|]. intros ->. apply H3 in Hd. destruct (Hother k id eq_refl Hd) as [[= ->] ->]. by destruct k.
  - destruct (decide ((c, url) = k)) as [<-|Hne]; [rewrite lookup_delete_eq|rewrite lookup_delete_ne by done].
    + split; [done|]. intros [Hd Hne]. apply (H3 (c, url)) in Hb. congruence.
    + split; [|tauto]. intros Hd. split; [done|]. intros ->. apply H3 in Hd. destruct (Hother k id eq_refl Hd) as [[= ->] ->]. by destruct k.
  - split; [|tauto]. intros Hd. split; [done|]. intros ->. apply H3 in Hd. by destruct (Hother k id eq_refl Hd).
Qed.

Lemma inv_done id status data h text phase s : inv s -> inv (done_ id status data h text phase s).
Proof.
  intros Hi. unfold done_. destruct (under_way id (backend s)) as [[cache url]|] eqn:Hu; [|done]. apply under_way_elem in Hu.
  destruct (inv_answered id cache url status data (parseHeaders h) text s Hi Hu) as (Hs & Hp & Ha & Hb). cbn zeta in *.
  destruct phase; [|apply inv_digest]; by apply inv_resolve.
Qed.

Lemma inv_caches m s : inv s -> (forall k d, m !! k = Some (EPromise d) <-> caches s !! k = Some (EPromise d)) ->
  inv (St (pendingRequests s) m (promises s) (answers s) (callbacks s) (ticks s) (backend s)).
Proof. intros [H1 H2 H3 H4 H5 H6 H7 H8 H9] Hm. split; try done. intros k d. simpl. by rewrite Hm. Qed.

Lemma requests_step e s : inv s -> allowed e s -> inv (exec e s).
Proof.
  intros Hi Ha. destruct e as [id q|id status data h text phase| |c url data|c url]; simpl in *.
  - by apply inv_send.
  - by apply inv_done.
  - by apply inv_remove.
  - apply (inv_caches (<[(c, url) := EValue data]> (caches s))); [done|]. intros k d. destruct (decide ((c, url) = k)) as [<-|].
    + rewrite lookup_insert_eq. split; [done|]. intros H. by rewrite H in Ha.
    + by rewrite lookup_insert_ne.
  - apply (inv_caches (delete (c, url) (caches s))); [done|]. intros k d. destruct (decide ((c, url) = k)) as [<-|].
    + rewrite lookup_delete_eq. split; [done|]. intros H. by rewrite H in Ha.
    + by rewrite lookup_delete_ne.
Qed.

Lemma requests_inv s : history s -> inv s.
Proof. induction 1; [apply requests_start|by apply requests_step]. Qed.

Lemma in_flight id b s : inv s -> (id, b) ∈ backend s -> under_way id (backend s) = Some b.
Proof.
  intros Hi Hb. destruct (under_way id (backend s)) as [b'|] eqn:Hu; [f_equal; apply under_way_elem in Hu; by eapply backend_fun|].
  clear Hi. induction (backend s) as [|[k v] l IH]; [by apply not_elem_of_nil in Hb|]. simpl in Hu. apply elem_of_cons in Hb as [[= <- <-]|Hb].
  - by rewrite Nat.eqb_refl in Hu.
  - destruct (Nat.eqb k id); [done|by apply IH].
Qed.

(** What [done] leaves of the promise, the cache and the back end. *)
Lemma done_effect id c url status data h text phase s : inv s -> (id, (Some c, url)) ∈ backend s ->
  let s' := done_ id status data h text phase s in
  let r := Response data (Z.max status 0) (HText h) id text in
  promises s' !! id = Some (if isSuccess (Z.max status 0) then Resolved r else Rejected r) /\
  caches s' !! (c, url) = (if isSuccess status then Some (EResponse status data (parseHeaders h) text) else None).
Proof.
  intros Hi Hb s' r. destruct (i_flight _ _ Hi _ _ Hb) as [Hp _]. unfold s', done_. rewrite (in_flight _ _ _ Hi Hb).
  set (s1 := if isSuccess status then _ else _). assert (Hp1 : promises s1 !! id = Some Pending) by (unfold s1; by case_match).
  assert (Hc1 : caches s1 !! (c, url) = if isSuccess status then Some (EResponse status data (parseHeaders h) text) else None).
  { unfold s1. case_match; simpl; [apply lookup_insert_eq|apply lookup_delete_eq]. }
  assert (Hr : let s2 := resolvePromise id data status (HText h) text s1 in
    promises s2 !! id = Some (if isSuccess (Z.max status 0) then Resolved r else Rejected r) /\ caches s2 !! (c, url) = caches s1 !! (c, url)).
  { unfold resolvePromise, settle. rewrite Hp1. cbn [promises caches]. split; [apply lookup_insert_eq|done]. }
  rewrite <- Hc1. by destruct phase.
Qed.
End Machine.

(** C28: in every history of requests, answers, digests and changes of the
    caches - in which each call has a configuration of its own, a cache keeps
    what it was given, and the application does not put or remove the entry of a
    URL while a request of it is under way -, at most one request of a cached URL
    is under way however many are made; every promise a caller still waits for
    belongs to a request that is under way, so that none is lost; and when no
    callback is scheduled, [pendingRequests] lists every request that waits for
    its answer, once, and no other.  (An entry removed while its request is under
    way lets a second request start: Example [evicted_under_way].) *)
Theorem requests_exact {D} dc (s : st) (H : history (D := D) dc s) :
  (forall d d' c url, (d, (Some c, url)) ∈ backend s -> (d', (Some c, url)) ∈ backend s -> d = d') /\
  (forall id, waits s id <-> exists d b, answers s !! id = Some d /\ (d, b) ∈ backend s) /\
  NoDup (pendingRequests s) /\
  (ticks s = [] -> forall id, id ∈ pendingRequests s <-> waits s id).
Proof.
  apply requests_inv in H as Hi. split_and!.
  - intros d d' c url Hd Hd'. apply (i_entry _ _ Hi (c, url)) in Hd, Hd'. congruence.
  - intros id. split.
    + intros (d & Ha & Hp). destruct (i_answer _ _ Hi _ _ Ha) as [_ Hb]. apply Hb in Hp; [|done].
      apply list_elem_of_fmap in Hp as ([d' b] & -> & Hb'). by exists d', b.
    + intros (d & b & Ha & Hb). exists d. split; [done|]. by apply (i_flight _ _ Hi) in Hb as [? _].
  - apply (i_pending _ _ Hi).
  - intros Ht id. rewrite (proj2 (i_pending _ _ Hi) id), Ht. split; [|by left]. by intros [?|?%not_elem_of_nil].
Qed.

(** While a request of a cached URL is under way another of the same URL
    goes no further than its promise; when the back end answers, that promise is
    settled with the answer, its status no less than 0; after a success, the
    next request is settled at once, without the back end, by the same data,
    status, text and headers; after a failure it is made anew. *)
Theorem response_shared {D} dc (s : st) (H : history (D := D) dc s) id c url (Hb : (id, (Some c, url)) ∈ backend s)
    q (Hc : choose_cache dc q = Some c) (Hq : q_url q = url) next (Hn : promises s !! next = None) status (data : D) h text phase :
  (backend (sendReq dc next q s) = backend s /\ answers (sendReq dc next q s) !! next = Some id) /\
  let s' := done_ id status data h text phase s in
  let r := Response data (Z.max status 0) (HText h) id text in
  promises s' !! id = Some (if isSuccess status then Resolved r else Rejected r) /\
  if isSuccess status
  then backend (sendReq dc next q s') = backend s' /\ answers (sendReq dc next q s') !! next = Some next /\
       exists r', promises (sendReq dc next q s') !! next = Some (Resolved r') /\
         r_data r' = data /\ r_status r' = status /\ r_statusText r' = text /\ headers_of (r_headers r') = headers_of (r_headers r)
  else backend (sendReq dc next q s') = backend s' ++ [(next, (Some c, url))].
Proof.
  apply requests_inv in H as Hi. destruct (i_flight _ _ Hi _ _ Hb) as [Hp _]. assert (Hne : id <> next) by congruence.
  assert (Hmax : isSuccess (Z.max status 0) = isSuccess status).
  { unfold isSuccess. destruct (Z.max_spec status 0) as [[Hlt ->]|[_ ->]]; [|done]. by rewrite (proj2 (Z.leb_gt 200 status)) by lia. }
  split.
  - unfold sendReq, started. rewrite started_sent, Hc, Hq. cbn [caches]. rewrite (proj2 (i_entry _ _ Hi (c, url) id) Hb).
    unfold then_remove, set_answer. simpl. rewrite lookup_insert_ne, Hp by done. simpl. split; [done|apply lookup_insert_eq].
  - intros s' r. pose proof (done_effect id c url status data h text phase s Hi Hb) as [Hr He]. fold s' r in Hr, He. rewrite Hmax in Hr.
    split; [done|]. unfold sendReq, started. rewrite started_sent, Hc, Hq. cbn [caches]. rewrite He. destruct (isSuccess status) eqn:Hs; [|done].
    unfold resolvePromise, settle, set_answer. cbn [promises answers backend]. rewrite lookup_insert_eq, Hmax, ?Hs. cbn [promises answers backend].
    rewrite !lookup_insert_eq. split; [done|]. split; [done|]. eexists. split; [done|]. cbn [r_data r_status r_statusText r_headers headers_of].
    split_and!; try done. unfold isSuccess in Hs. apply andb_true_iff in Hs as [Hs%Z.leb_le _]. lia.
Qed.
End Requests.

(** ** Instances *)

Section Instances.
Import Headers Pipeline Requests.

Definition rooms : request := Request CacheTrue true "/rooms".

(** Two callers of one URL, a third of another, and a success. *)
Definition sample : list event :=
  [Send 1 rooms; Send 2 rooms; Send 3 (Request CacheUndefined true "/slot"); Done 1 200 "[]" "" "OK" false; Send 4 rooms].

Lemma requests_exact_witness : exists s, run CacheUndefined sample start = Some s /\ map fst (backend s) = [3%nat] /\ waits s 3 /\
  (ticks s = [4%nat]) /\ NoDup (pendingRequests s).
Proof.
  destruct (run CacheUndefined sample start) as [s|] eqn:Hr; [|exfalso; vm_compute in Hr; discriminate Hr]. exists s.
  pose proof (requests_exact CacheUndefined s (requests_run CacheUndefined sample start s (history_start _) Hr)) as (_ & Hw & Hnd & _).
  split; [done|]. rewrite Hw. vm_compute in Hr. injection Hr as <-. split; [done|]. split; [|by split].
  exists 3%nat, (None, "/slot"). split; [done|]. by left.
Defined.

Lemma response_shared_witness : exists s, run CacheUndefined [Send 1 rooms] start = Some s /\
  answers (sendReq CacheUndefined 2 rooms s) !! 2%nat = Some 1%nat /\
  backend (sendReq CacheUndefined 2 rooms (done_ 1 200 "[]" "" "OK" false s)) = [].
Proof.
  destruct (run CacheUndefined [Send 1 rooms] start) as [s|] eqn:Hr; [|exfalso; vm_compute in Hr; discriminate Hr]. exists s.
  assert (Hh := requests_run CacheUndefined [Send 1 rooms] start s (history_start _) Hr).
  assert (Hb : (1%nat, (Some 0%nat, "/rooms")) ∈ backend s) by (vm_compute in Hr; injection Hr as <-; by left).
  assert (Hn : promises s !! 2%nat = None) by (vm_compute in Hr; injection Hr as <-; reflexivity).
  pose proof (response_shared CacheUndefined s Hh 1 0 "/rooms" Hb rooms eq_refl eq_refl 2 Hn 200 "[]" "" "OK" false) as [[_ Ha] [_ [He _]]].
  split; [done|]. split; [exact Ha|]. rewrite He. vm_compute in Hr. injection Hr as <-. reflexivity.
Defined.

(** The entry of a request under way is taken out of the cache: the URL is
    requested twice, and when the first request fails it removes the entry of
    the second, so that a third is made while the second is under way. *)
Example evicted_under_way :
  let s := done_ 1 500 "" "" "" false
             (sendReq CacheUndefined 2 rooms (drop_cache (0%nat, "/rooms") (sendReq CacheUndefined 1 rooms start))) in
  map fst (backend (sendReq CacheUndefined 3 rooms s)) = [2; 3]%nat.
Proof. vm_compute. reflexivity. Qed.

(** A response interceptor registered first sees the answer last. *)
Example two_interceptors :
  let tag t := Interceptor None None (Some (fun v => Ok (v +:+ t))) None in
  intercepted [tag "a"; tag "b"] [fun o => match o with Ok v => Ok (v +:+ "old") | e => e end] (fun c => Ok (c +:+ ":")) "x" = Ok "x:oldba".
Proof. reflexivity. Qed.

Example merged_headers :
  mergeHeaders [("Accept", Text "json")] [("Content-Type", Text "utf-8")] [("accept", Text "text"); ("X-Token", Fn None)] =
    [("accept", "text"); ("Content-Type", "utf-8")].
Proof. reflexivity. Qed.
End Instances.
