(* ===== verification/NgInterpolate.v ===== *)
(** * NgInterpolate: text with expressions in it

    [$interpolate] (angular.js 8772-8982): a text is cut at the two symbols into
    texts and expressions ([scan]); the function it returns evaluates the
    expressions and joins the pieces ([render]).  The array the pieces are put
    in belongs to the function and not to the call: it is a state that an
    expression can change when it calls the function again.  The compiler and
    the evaluation of expressions, [$sce] and [toJson] are arguments;
    [instances] cuts with the lexer and the parser of this library. *)

From S2P Require Import Prelude Text Js NgLexer NgParser.

#[local] Set Warnings "-clear-no-such-hyp".

(** ** Cutting *)

(** What follows [pat] at the beginning of a text. *)
Fixpoint strip (pat s : string) : option string :=
  match pat, s with
  | EmptyString, _ => Some s
  | String a pat, String b s => if Ascii.eqb a b then strip pat s else None
  | String _ _, EmptyString => None
  end.

(** [indexOf], with what is before the first occurrence and what is after it. *)
Fixpoint cut (pat s : string) : option (string * string) :=
  match strip pat s with
  | Some rest => Some ("", rest)
  | None =>
      match s with
      | EmptyString => None
      | String c s => match cut pat s with Some (a, b) => Some (String c a, b) | None => None end
      end
  end.

Section Interpolate.
Context (startSymbol endSymbol : string).

Inductive part (F : Type) := PText (text : string) | PExpr (fn : F).
Arguments PText {F}.
Arguments PExpr {F}.

Definition text_part {F} (text : string) : list (part F) := if String.eqb text "" then [] else [PText text].

(** The [while] loop; [rest] is the text from [index] on. *)
Fixpoint scan (fuel : nat) (rest : string) : option (list (part string)) :=
  match fuel with
  | O => None
  | S fuel =>
      if String.eqb rest "" then Some []
      else match cut startSymbol rest with
           | Some (before, after) =>
               match cut endSymbol after with
               | Some (exp, rest) => (fun ps => text_part before ++ PExpr exp :: ps) <$> scan fuel rest
               | None => Some [PText rest]
               end
           | None => Some [PText rest]
           end
  end.

Definition hasInterpolation {F} (ps : list (part F)) : bool := existsb (fun p => match p with PExpr _ => true | PText _ => false end) ps.

(** *** Compiling and rendering *)

Section Compile.
Context {E F C : Type}.
Context (parse : string -> result E F) (noconcat : E).
Context (call : F -> C -> list string -> result E jsval * list string).
Context (getTrusted : string -> jsval -> result E jsval) (valueOf : jsval -> jsval) (toJson : jsval -> result E string).

Fixpoint parse_all (ps : list (part string)) : result E (list (part F)) :=
  match ps with
  | [] => Ok []
  | PText t :: ps => ps ← parse_all ps; Ok (PText t :: ps)
  | PExpr e :: ps => fn ← parse e; ps ← parse_all ps; Ok (PExpr fn :: ps)
  end.

(** [$interpolate]: [None] when nothing is returned. *)
Definition interpolate (text : string) (mustHaveExpression : bool) (trustedContext : option string) : option (result E (option (list (part F)))) :=
  ps ← scan (S (String.length text)) text;
  Some (fns ← parse_all ps;
        let parts := match fns with [] => [PText ""] | _ => fns end in
        if match trustedContext with Some _ => (1 <? length parts)%nat | None => false end then Err noconcat
        else Ok (if negb mustHaveExpression || hasInterpolation parts then Some parts else None)).

(** The string of a value. *)
Definition part_string (v : jsval) : result E string :=
  match v with
  | JUndef | JNull => Ok ""
  | JStr s => Ok s
  | JNum n => Ok (pretty n)
  | JNaN => Ok "NaN"
  | v => toJson v
  end.

Definition unwrap (trustedContext : option string) (v : jsval) : result E jsval :=
  match trustedContext with Some t => getTrusted t v | None => Ok (valueOf v) end.

Definition part_value (trustedContext : option string) (p : part F) (context : C) (concat : list string) : result E string * list string :=
  match p with
  | PText t => (Ok t, concat)
  | PExpr fn =>
      let '(r, concat) := call fn context concat in
      (v ← r; v ← unwrap trustedContext v; part_string v, concat)
  end.

(** The [for] loop from [i] on. *)
Fixpoint render_from (trustedContext : option string) (i : nat) (parts : list (part F)) (context : C) (concat : list string) :
    result E unit * list string :=
  match parts with
  | [] => (Ok (), concat)
  | p :: parts =>
      match part_value trustedContext p context concat with
      | (Err e, concat) => (Err e, concat)
      | (Ok s, concat) => render_from trustedContext (S i) parts context (<[i := s]> concat)
      end
  end.

(** [concat.join('')], or what [$exceptionHandler] is given. *)
Definition render (trustedContext : option string) (parts : list (part F)) (context : C) (concat : list string) : result E string * list string :=
  match render_from trustedContext 0 parts context concat with
  | (Ok _, concat) => (Ok (join "" concat), concat)
  | (Err e, concat) => (Err e, concat)
  end.
End Compile.

(** ** The two directions of cutting *)

(** The text a list of parts was cut from. *)
Fixpoint unscan (ps : list (part string)) : string :=
  match ps with
  | [] => ""
  | PText t :: ps => t +:+ unscan ps
  | PExpr e :: ps => startSymbol +:+ e +:+ endSymbol +:+ unscan ps
  end.

(** A piece in which a symbol put after it is not found earlier. *)
Definition ends_at (pat s : string) : Prop := cut pat (s +:+ pat) = Some (s, "").

(** Parts as they are cut: texts are not empty and do not touch, an expression
    ends at its first end symbol, a text at the first start symbol, and the
    last text has no complete expression. *)
Inductive canonical : list (part string) -> Prop :=
| canonical_nil : canonical []
| canonical_last t : t <> "" -> (forall a b, cut startSymbol t = Some (a, b) -> cut endSymbol b = None) -> canonical [PText t]
| canonical_expr e ps : ends_at endSymbol e -> canonical ps -> canonical (PExpr e :: ps)
| canonical_text t e ps : t <> "" -> ends_at startSymbol t -> ends_at endSymbol e -> canonical ps -> canonical (PText t :: PExpr e :: ps).

Lemma strip_some pat s r : strip pat s = Some r <-> s = pat +:+ r.
Proof.
  revert s. induction pat as [|a pat IH]; intros s; simpl; [split; [by intros [= ->]|by intros ->]|]. destruct s as [|b s]; [done|].
  destruct (Ascii.eqb_spec a b) as [->|Hne].
  - rewrite IH. split; [intros ->; done|]. by intros [= ->].
  - split; [done|]. intros H. by injection H.
Qed.

Lemma cut_some pat s a b : cut pat s = Some (a, b) -> s = a +:+ pat +:+ b.
Proof.
  revert a. induction s as [|c s IH]; intros a; simpl.
  - destruct (strip pat "") as [r|] eqn:Hs; [|done]. intros [= <- <-]. by apply strip_some in Hs.
  - destruct (strip pat (String c s)) as [r|] eqn:Hs; [intros [= <- <-]; by apply strip_some in Hs|].
    destruct (cut pat s) as [[a' b']|]; [|done]. intros [= <- <-]. simpl. by rewrite (IH a' eq_refl).
Qed.

(** Whether a text begins with a pattern is settled by as many characters. *)
Lemma strip_long pat s r : (String.length pat <= String.length s)%nat -> strip pat (s +:+ r) = (fun x => x +:+ r) <$> strip pat s.
Proof.
  revert s. induction pat as [|a pat IH]; intros s Hl; [done|]. destruct s as [|b s]; simpl in *; [lia|].
  destruct (Ascii.eqb a b); [|done]. apply IH. lia.
Qed.

Lemma length_append a b : String.length (a +:+ b) = (String.length a + String.length b)%nat.
Proof. induction a as [|c a IH]; [done|]. simpl. by rewrite IH. Qed.

Lemma strip_none_at pat s r : strip pat (s +:+ pat) = None <-> strip pat (s +:+ pat +:+ r) = None.
Proof.
  rewrite string_app_assoc. rewrite (strip_long pat (s +:+ pat) r) by (rewrite length_append; lia). by destruct (strip pat (s +:+ pat)).
Qed.

Lemma cut_app pat a r : ends_at pat a <-> cut pat (a +:+ pat +:+ r) = Some (a, r).
Proof.
  unfold ends_at. induction a as [|c a IH].
  - assert (H : forall r, cut pat (pat +:+ r) = Some ("", r)).
    { intros r'. assert (Hs : strip pat (pat +:+ r') = Some r') by by apply strip_some. destruct (pat +:+ r') eqn:Hp; simpl; by rewrite Hs. }
    specialize (H "") as H0. rewrite string_app_nil_r in H0. change ("" +:+ pat) with pat. change ("" +:+ pat +:+ r) with (pat +:+ r).
    by rewrite H0, H.
  - change (String c a +:+ pat) with (String c (a +:+ pat)). change (String c a +:+ pat +:+ r) with (String c (a +:+ pat +:+ r)).
    assert (Hn : strip pat (String c (a +:+ pat)) = None <-> strip pat (String c (a +:+ pat +:+ r)) = None)
      by apply (strip_none_at pat (String c a) r).
    cbn [cut].
    destruct (strip pat (String c (a +:+ pat))) as [x|] eqn:Hx, (strip pat (String c (a +:+ pat +:+ r))) as [y|] eqn:Hy.
    1: split; by intros [= ? ?].
    1,2: naive_solver.
    destruct (cut pat (a +:+ pat)) as [[a1 b1]|], (cut pat (a +:+ pat +:+ r)) as [[a2 b2]|]; naive_solver congruence.
Qed.

Lemma cut_ends pat s a b : cut pat s = Some (a, b) -> ends_at pat a.
Proof. intros H. pose proof (cut_some _ _ _ _ H) as Hs. rewrite Hs in H. by apply cut_app in H. Qed.

Lemma ends_at_empty pat : ends_at pat "".
Proof.
  unfold ends_at. assert (Hs : strip pat pat = Some "") by (apply strip_some; by rewrite string_app_nil_r).
  destruct pat as [|c pat]; [done|]. change ("" +:+ String c pat) with (String c pat). cbn [cut]. by rewrite Hs.
Qed.

Lemma scan_canonical : startSymbol <> "" -> forall fuel rest, (String.length rest < fuel)%nat ->
  exists ps, scan fuel rest = Some ps /\ canonical ps /\ unscan ps = rest.
Proof.
  intros Hne. induction fuel as [|fuel IH]; intros rest Hf; [lia|]. cbn [scan].
  destruct (String.eqb_spec rest "") as [->|Hr]; [exists []; split_and!; [done|constructor|done]|].
  assert (Hlast : (forall a b, cut startSymbol rest = Some (a, b) -> cut endSymbol b = None) ->
    exists ps, Some [PText rest] = Some ps /\ canonical ps /\ unscan ps = rest).
  { intros H. exists [PText rest]. split_and!; [done|by constructor|apply string_app_nil_r]. }
  destruct (cut startSymbol rest) as [[before after]|] eqn:Hs; [|by apply Hlast].
  destruct (cut endSymbol after) as [[exp rest']|] eqn:He; [|by apply Hlast; intros a b [= <- <-]].
  clear Hlast. pose proof (cut_some _ _ _ _ Hs) as Hrest. pose proof (cut_some _ _ _ _ He) as Hafter.
  destruct (IH rest') as (ps & -> & Hc & Hu).
  { rewrite Hrest, Hafter, !length_append in Hf. destruct startSymbol; [done|]. simpl in Hf. lia. }
  eexists. split; [done|]. pose proof (cut_ends _ _ _ _ He) as Hee. pose proof (cut_ends _ _ _ _ Hs) as Hse. unfold text_part.
  destruct (String.eqb_spec before "") as [->|Hb]; cbn [app unscan]; rewrite Hu, <- Hafter; (split; [by constructor|by rewrite Hrest]).
Qed.

Lemma scan_expr t e qs fuel : startSymbol <> "" -> ends_at startSymbol t -> ends_at endSymbol e ->
  (forall fuel, (String.length (unscan qs) < fuel)%nat -> scan fuel (unscan qs) = Some qs) ->
  (String.length (t +:+ unscan (PExpr e :: qs)) < fuel)%nat ->
  scan fuel (t +:+ unscan (PExpr e :: qs)) = Some (text_part t ++ PExpr e :: qs).
Proof.
  intros Hne Ht He IH Hf. destruct fuel as [|fuel]; [lia|]. cbn [unscan] in *. cbn [scan].
  rewrite (proj1 (cut_app startSymbol t _) Ht), (proj1 (cut_app endSymbol e _) He). rewrite IH.
  - destruct (String.eqb_spec (t +:+ startSymbol +:+ e +:+ endSymbol +:+ unscan qs) "") as [H0|]; [|done].
    destruct t; [|done]. by destruct startSymbol.
  - rewrite !length_append in Hf. destruct startSymbol; [done|]. simpl in Hf. lia.
Qed.

Lemma scan_unscan ps : startSymbol <> "" -> canonical ps ->
  forall fuel, (String.length (unscan ps) < fuel)%nat -> scan fuel (unscan ps) = Some ps.
Proof.
  intros Hne. induction 1 as [|t Ht Hl|e ps He _ IH|t e ps Ht Hst He _ IH]; intros fuel Hf.
  - destruct fuel; [lia|done].
  - destruct fuel as [|fuel]; [lia|]. cbn [unscan scan]. rewrite string_app_nil_r. apply String.eqb_neq in Ht. rewrite Ht.
    destruct (cut startSymbol t) as [[a b]|] eqn:Hs; [|done]. by rewrite (Hl a b eq_refl).
  - apply (scan_expr "" e ps); try done. apply ends_at_empty.
  - change (unscan (PText t :: PExpr e :: ps)) with (t +:+ unscan (PExpr e :: ps)) in *. rewrite scan_expr by done.
    unfold text_part. apply String.eqb_neq in Ht. by rewrite Ht.
Qed.

(** *** Rendering *)

Section Rendering.
Context {E F C : Type}.
Context (call : F -> C -> list string -> result E jsval * list string).
Context (getTrusted : string -> jsval -> result E jsval) (valueOf : jsval -> jsval) (toJson : jsval -> result E string).

Abbreviation rendered := (render call getTrusted valueOf toJson).
Abbreviation value := (part_value call getTrusted valueOf toJson).

(** The strings of the parts, up to the first that throws; none of them changes
    the array. *)
Inductive values (t : option string) (context : C) : list (part F) -> list string -> Prop :=
| values_nil : values t context [] []
| values_cons p ps s ss : (forall concat, value t p context concat = (Ok s, concat)) -> values t context ps ss -> values t context (p :: ps) (s :: ss).

Lemma render_from_values t context ps ss : values t context ps ss -> forall pre old rest, length old = length ss ->
  render_from call getTrusted valueOf toJson t (length pre) ps context (pre ++ old ++ rest) = (Ok (), pre ++ ss ++ rest).
Proof.
  induction 1 as [|p ps s ss Hv _ IH]; intros pre old rest Hl; cbn [render_from]; [by destruct old|].
  destruct old as [|o old]; [done|]. rewrite Hv. cbn [app]. rewrite insert_app_r_alt, Nat.sub_diag by lia. cbn [list_insert insert].
  specialize (IH (pre ++ [s]) old rest). rewrite length_app, Nat.add_1_r in IH. rewrite <- !(assoc_L (++)) in IH. cbn [app] in IH.
  apply IH. simpl in Hl. lia.
Qed.

Lemma render_from_error t context ps ss p qs err : values t context ps ss -> (forall concat, value t p context concat = (Err err, concat)) ->
  forall i concat, exists concat', render_from call getTrusted valueOf toJson t i (ps ++ p :: qs) context concat = (Err err, concat').
Proof.
  intros Hv Hp. induction Hv as [|p' ps s ss Hv _ IH]; intros i concat; cbn [app render_from].
  - rewrite Hp. by eexists.
  - rewrite Hv. apply IH.
Qed.
End Rendering.
End Interpolate.

#[global] Arguments PText {F}.
#[global] Arguments PExpr {F}.

(** With a start symbol that is not empty, cutting a text into texts and
    expressions always ends, and it is a bijection between the texts and the
    lists of parts in canonical form: put together again the parts give the text,
    whatever it contains, and cutting what canonical parts give returns them. *)
Theorem interpolate_bijection startSymbol endSymbol (Hne : startSymbol <> "") :
  (forall text, exists ps, scan startSymbol endSymbol (S (String.length text)) text = Some ps /\
     canonical startSymbol endSymbol ps /\ unscan startSymbol endSymbol ps = text) /\
  (forall ps, canonical startSymbol endSymbol ps ->
     scan startSymbol endSymbol (S (String.length (unscan startSymbol endSymbol ps))) (unscan startSymbol endSymbol ps) = Some ps).
Proof.
  split.
  - intros text. apply scan_canonical; [done|lia].
  - intros ps Hc. apply scan_unscan; [done|done|lia].
Qed.

Lemma interpolate_bijection_witness : exists ps, scan "{{" "}}" 17 "a {{b}} {{c}} {{" = Some ps /\ unscan "{{" "}}" ps = "a {{b}} {{c}} {{" /\
  ps = [PText "a "; PExpr "b"; PText " "; PExpr "c"; PText " {{"].
Proof.
  destruct (proj1 (interpolate_bijection "{{" "}}" ltac:(discriminate)) "a {{b}} {{c}} {{") as (ps & Hs & _ & Hu).
  exists ps. split; [exact Hs|]. split; [exact Hu|]. vm_compute in Hs. congruence.
Defined.

(** Without a part that changes the array, the value is the strings of the parts
    joined, whatever was in the array before; the first part that throws is
    reported and there is no value. *)
Lemma render_value {E F C} call getTrusted valueOf toJson t (context : C) (ps : list (part F)) ss :
  values (E := E) call getTrusted valueOf toJson t context ps ss -> forall concat, length concat = length ps ->
  render call getTrusted valueOf toJson t ps context concat = (Ok (join "" ss), ss) /\
  forall p qs err, (forall concat, part_value call getTrusted valueOf toJson t p context concat = (Err err, concat)) ->
    forall concat, (render call getTrusted valueOf toJson t (ps ++ p :: qs) context concat).1 = Err err.
Proof.
  intros Hv concat Hl. assert (Hlen : length ps = length ss) by (clear -Hv; induction Hv; simpl; congruence). split.
  - unfold render. pose proof (render_from_values call getTrusted valueOf toJson t context ps ss Hv [] concat [] ltac:(congruence)) as H.
    cbn [length app] in H. rewrite !app_nil_r in H. by rewrite H.
  - intros p qs err Hp concat'. unfold render.
    by destruct (render_from_error call getTrusted valueOf toJson t context ps ss p qs err Hv Hp 0 concat') as [concat'' ->].
Qed.

(** ** With the expressions of the framework *)

Definition parse_expression (known_filter : string -> bool) (e : string) : result string expr :=
  match lex false e with
  | Ok ts => parse_tokens known_filter false id (22 * length ts + 22) ts
  | Err err => Err err
  end.

(** Cut and compiled; a trusted text is one expression. *)
Example compiled :
  interpolate "{{" "}}" (parse_expression (fun _ => false)) "noconcat" "n: {{ 1 }}" true None =
    Some (Ok (Some [PText "n: "; PExpr (ETok (FnNum "1"))])) /\
  interpolate "{{" "}}" (parse_expression (fun _ => false)) "noconcat" "n: {{ 1 }}" true (Some "url") = Some (Err "noconcat") /\
  interpolate "{{" "}}" (parse_expression (fun _ => false)) "noconcat" "no expression" true None = Some (Ok None).
Proof. vm_compute. done. Qed.

(** An expression ends at the first end symbol, also in a string of its own. *)
Example symbol_in_a_string :
  match scan "{{" "}}" 30 "{{ '}}' }}" with
  | Some (PExpr e :: _) => parse_expression (fun _ => false) e <> Ok (ETok (FnStr [])) /\ e = " '"
  | _ => False
  end.
Proof. vm_compute. done. Qed.

(** The function calls itself, for a child, through its second expression: the
    array is the same, and the name of the parent is lost. *)
Definition in_child (fn : string) (context : unit) (concat : list string) : result string jsval * list string :=
  (Ok (JStr (if String.eqb fn "name" then "child" else "")), concat).

Definition in_parent (fn : string) (context : unit) (concat : list string) : result string jsval * list string :=
  if String.eqb fn "name" then (Ok (JStr "parent "), concat)
  else match render in_child (fun _ v => Ok v) id (fun _ => Ok "") None [PExpr "name"; PExpr "children"] () concat with
       | (Ok s, concat) => (Ok (JStr s), concat)
       | (Err e, concat) => (Err e, concat)
       end.

Example array_is_shared :
  (render in_parent (fun _ v => Ok v) id (fun _ => Ok "") None [PExpr "name"; PExpr "children"] () ["";""]).1 = Ok "childchild".
Proof. reflexivity. Qed.
