(* ===== verification/NgTimers.v ===== *)
(** * NgTimers: deferred work

    The timers of [$browser] with the count of what is outstanding (angular.js
    4396-4426, 4439-4450, 4729-4759), [$timeout] (14449-14495) and [$interval]
    (9114-9163).

    An armed timer of the browser may go off at any time; when, that is its
    delay, is not modelled.  A deferred bears the number of its timer.  What a
    function does to the timers is a list of commands; the callbacks of
    [notifyWhenNoOutstandingRequests] only leave a mark in the log. *)

From S2P Require Import Prelude.

#[local] Set Warnings "-clear-no-such-hyp".

Section Timers.
Context {F E V : Type}.

Inductive cmd :=
| Timeout (fn : F) (skipApply : bool)
| CancelTimeout (id : nat)
| Defer (fn : F)
| CancelDefer (deferId : nat)
| NotifyWhenIdle (callback : nat)
| IncOutstanding
| CompleteOutstanding.

(** What a function does, and what it returns or throws. *)
Context (code : F -> list cmd * result E V).

Inductive task := RunTimeout (fn : F) (skipApply : bool) | RunPlain (fn : F).

Inductive outcome := Resolved (v : V) | Rejected (e : E) | Canceled.

Inductive mark :=
| Called (id : nat)
| Threw (e : E)            (** to [$exceptionHandler], or to the window *)
| Applied                  (** [$rootScope.$apply] *)
| Notified (callback : nat).

Record st := St {
  timers : gmap nat task;                   (** armed in the browser *)
  next_id : nat;
  pendingDeferIds : gset nat;
  outstandingRequestCount : Z;
  outstandingRequestCallbacks : list nat;
  deferreds : gset nat;                     (** of [$timeout] *)
  promises : gmap nat (option outcome);     (** [None] while it is pending *)
  log : list mark
}.

Definition put_log (m : list mark) (s : st) : st :=
  St (timers s) (next_id s) (pendingDeferIds s) (outstandingRequestCount s) (outstandingRequestCallbacks s) (deferreds s) (promises s) (log s ++ m).

Definition add_count (n : Z) (s : st) : st :=
  St (timers s) (next_id s) (pendingDeferIds s) (outstandingRequestCount s + n) (outstandingRequestCallbacks s) (deferreds s) (promises s) (log s).

(** The [finally] of [completeOutstandingRequest]; the callbacks are taken from
    the end. *)
Definition completed (s : st) : st :=
  let s := add_count (-1) s in
  if outstandingRequestCount s =? 0
  then St (timers s) (next_id s) (pendingDeferIds s) (outstandingRequestCount s) [] (deferreds s) (promises s)
          (log s ++ map Notified (rev (outstandingRequestCallbacks s)))
  else s.

Definition notifyWhenNoOutstandingRequests (callback : nat) (s : st) : st :=
  if outstandingRequestCount s =? 0 then put_log [Notified callback] s
  else St (timers s) (next_id s) (pendingDeferIds s) (outstandingRequestCount s) (outstandingRequestCallbacks s ++ [callback]) (deferreds s) (promises s) (log s).

(** [$browser.defer]: the identifier, and the state. *)
Definition defer (t : task) (s : st) : nat * st :=
  let s := add_count 1 s in
  (next_id s, St (<[next_id s := t]> (timers s)) (S (next_id s)) ({[next_id s]} ∪ pendingDeferIds s) (outstandingRequestCount s)
                 (outstandingRequestCallbacks s) (deferreds s) (promises s) (log s)).

Definition defer_cancel (deferId : nat) (s : st) : bool * st :=
  if bool_decide (deferId ∈ pendingDeferIds s)
  then (true, completed (St (delete deferId (timers s)) (next_id s) (pendingDeferIds s ∖ {[deferId]}) (outstandingRequestCount s)
                            (outstandingRequestCallbacks s) (deferreds s) (promises s) (log s)))
  else (false, s).

Definition settle (id : nat) (o : outcome) (s : st) : st :=
  match promises s !! id with
  | Some None => St (timers s) (next_id s) (pendingDeferIds s) (outstandingRequestCount s) (outstandingRequestCallbacks s) (deferreds s)
                    (<[id := Some o]> (promises s)) (log s)
  | _ => s
  end.

Definition forget (id : nat) (s : st) : st :=
  St (timers s) (next_id s) (pendingDeferIds s) (outstandingRequestCount s) (outstandingRequestCallbacks s) (deferreds s ∖ {[id]}) (promises s) (log s).

(** [$timeout]: the deferred is made before the timer, and listed after it. *)
Definition timeout (fn : F) (skipApply : bool) (s : st) : nat * st :=
  let '(id, s) := defer (RunTimeout fn skipApply) s in
  (id, St (timers s) (next_id s) (pendingDeferIds s) (outstandingRequestCount s) (outstandingRequestCallbacks s) ({[id]} ∪ deferreds s)
          (<[id := None]> (promises s)) (log s)).

Definition timeout_cancel (id : nat) (s : st) : bool * st :=
  if bool_decide (id ∈ deferreds s) then defer_cancel id (forget id (settle id Canceled s)) else (false, s).

Definition exec_cmd (s : st) (c : cmd) : st :=
  match c with
  | Timeout fn skipApply => (timeout fn skipApply s).2
  | CancelTimeout id => (timeout_cancel id s).2
  | Defer fn => (defer (RunPlain fn) s).2
  | CancelDefer id => (defer_cancel id s).2
  | NotifyWhenIdle callback => notifyWhenNoOutstandingRequests callback s
  | IncOutstanding => add_count 1 s
  | CompleteOutstanding => completed s
  end.

Definition exec_cmds (cs : list cmd) (s : st) : st := fold_left exec_cmd cs s.

(** The timer [id] goes off. *)
Definition fire (id : nat) (s : st) : st :=
  match timers s !! id with
  | None => s
  | Some t =>
      let s := St (delete id (timers s)) (next_id s) (pendingDeferIds s ∖ {[id]}) (outstandingRequestCount s)
                  (outstandingRequestCallbacks s) (deferreds s) (promises s) (log s ++ [Called id]) in
      match t with
      | RunTimeout fn skipApply =>
          let s := exec_cmds (code fn).1 s in
          let s := match (code fn).2 with
                   | Ok v => settle id (Resolved v) s
                   | Err e => put_log [Threw e] (settle id (Rejected e) s)
                   end in
          let s := forget id s in
          completed (if skipApply then s else put_log [Applied] s)
      | RunPlain fn =>
          let s := exec_cmds (code fn).1 s in
          match (code fn).2 with Ok _ => completed s | Err e => put_log [Threw e] (completed s) end
      end
  end.

(** ** Histories *)

(** A request is completed once, and only timers of [$browser] are canceled
    there; [r] counts the requests of the back end that are open. *)
Definition proper_cmd (c : cmd) (r : Z) (s : st) : bool :=
  match c with
  | CancelDefer id => match timers s !! id with Some (RunTimeout _ _) => false | _ => true end
  | CompleteOutstanding => 0 <? r
  | _ => true
  end.

Definition weight (c : cmd) : Z := match c with IncOutstanding => 1 | CompleteOutstanding => -1 | _ => 0 end.

Fixpoint proper (cs : list cmd) (r : Z) (s : st) : bool :=
  match cs with
  | [] => true
  | c :: cs => proper_cmd c r s && proper cs (r + weight c) (exec_cmd s c)
  end.

Definition weights (cs : list cmd) : Z := foldr (fun c n => weight c + n) 0 cs.

Inductive event := App (cs : list cmd) | Fire (id : nat).

(** The timer has gone off and its function starts. *)
Definition running (id : nat) (s : st) : st :=
  St (delete id (timers s)) (next_id s) (pendingDeferIds s ∖ {[id]}) (outstandingRequestCount s)
     (outstandingRequestCallbacks s) (deferreds s) (promises s) (log s ++ [Called id]).

Definition task_fn (t : task) : F := match t with RunTimeout fn _ | RunPlain fn => fn end.

Definition start : st := St ∅ 0 ∅ 0 [] ∅ ∅ [].

(** What may become of a state. *)
Inductive future (r0 : Z) (s0 : st) : Z -> st -> Prop :=
| future_now : future r0 s0 r0 s0
| future_app r s cs : future r0 s0 r s -> proper cs r s = true -> future r0 s0 (r + weights cs) (exec_cmds cs s)
| future_fire r s id t : future r0 s0 r s -> timers s !! id = Some t -> proper (code (task_fn t)).1 r (running id s) = true ->
    future r0 s0 (r + weights (code (task_fn t)).1) (fire id s).

Definition history : Z -> st -> Prop := future 0 start.

(** ** The invariant *)

Definition is_timeout (t : option task) : bool := match t with Some (RunTimeout _ _) => true | _ => false end.
Definition calls (l : list mark) : list nat := omap (fun m => match m with Called id => Some id | _ => None end) l.

Definition busy (cur : option nat) : Z := match cur with Some _ => 1 | None => 0 end.

(** [cur] is the timer whose function runs. *)
Record inv (cur : option nat) (r : Z) (s : st) : Prop := Inv {
  i_armed : forall id, id ∈ pendingDeferIds s <-> is_Some (timers s !! id);
  i_count : outstandingRequestCount s = Z.of_nat (size (pendingDeferIds s)) + r + busy cur;
  i_open : 0 <= r;
  i_waiting : outstandingRequestCount s = 0 -> outstandingRequestCallbacks s = [];
  i_fresh : forall id, (id ∈ pendingDeferIds s) \/ (id ∈ deferreds s) \/ is_Some (promises s !! id) \/ (id ∈ calls (log s)) -> (id < next_id s)%nat;
  i_listed : forall id, is_timeout (timers s !! id) = true -> id ∈ deferreds s;
  i_deferred : forall id, id ∈ deferreds s -> is_timeout (timers s !! id) = true \/ cur = Some id;
  i_promise : forall id, promises s !! id = Some None <-> id ∈ deferreds s;
  i_called : NoDup (calls (log s)) /\ forall id, id ∈ calls (log s) -> timers s !! id = None;
  i_cur : forall id, cur = Some id -> id ∈ calls (log s)
}.

Lemma timers_start : inv None 0 start.
Proof.
  split; simpl; try done.
  - intros id. rewrite lookup_empty. split; [set_solver|by intros [? ?]].
  - intros id [?|[?|[[? H]|?]]]; set_solver || by rewrite lookup_empty in H.
  - split; [constructor|]. set_solver.
Qed.

Lemma calls_app a b : calls (a ++ b) = calls a ++ calls b.
Proof. apply omap_app. Qed.

(** Marks that are no calls. *)
Lemma inv_log m cur r s : calls m = [] -> inv cur r s -> inv cur r (put_log m s).
Proof.
  intros Hm [H1 H2 H3 H4 H5 H6 H7 H8 H9]. assert (Hc : calls (log s ++ m) = calls (log s)) by by rewrite calls_app, Hm, app_nil_r.
  split; simpl; rewrite ?Hc; done.
Qed.

Lemma calls_notified l : calls (map Notified l) = [].
Proof. by induction l. Qed.

(** One outstanding thing less. *)
Lemma inv_completed cur cur' r r' s : inv cur r s -> r' + busy cur' + 1 = r + busy cur -> 0 <= r' ->
  (forall id, id ∈ deferreds s -> is_timeout (timers s !! id) = true \/ cur' = Some id) -> (cur' = None \/ cur' = cur) -> inv cur' r' (completed s).
Proof.
  intros [H1 H2 H3 H4 H5 H6 H7 H8 H9 H10] Hr Hr' Hd Hcur. assert (Hcur' : forall id, cur' = Some id -> id ∈ calls (log s)) by (intros id ->; apply H10; by destruct Hcur).
  clear H10 Hcur. unfold completed. destruct (outstandingRequestCount (add_count (-1) s) =? 0) eqn:Hz.
  - apply Z.eqb_eq in Hz. simpl in Hz. split; simpl; rewrite ?calls_app, ?calls_notified, ?app_nil_r; try done. lia.
  - apply Z.eqb_neq in Hz. simpl in Hz. split; simpl; try done; lia.
Qed.

Lemma inv_notify c cur r s : inv cur r s -> inv cur r (notifyWhenNoOutstandingRequests c s).
Proof.
  intros Hi. unfold notifyWhenNoOutstandingRequests. destruct (outstandingRequestCount s =? 0) eqn:Hz; [by apply inv_log|].
  apply Z.eqb_neq in Hz. destruct Hi as [H1 H2 H3 H4 H5 H6 H7 H8 H9 H10]. by split.
Qed.

Lemma size_add (id : nat) (X : gset nat) : id ∉ X -> Z.of_nat (size ({[id]} ∪ X)) = Z.of_nat (size X) + 1.
Proof. intros H. rewrite size_union, size_singleton by set_solver. lia. Qed.

Lemma size_remove (id : nat) (X : gset nat) : id ∈ X -> Z.of_nat (size (X ∖ {[id]})) = Z.of_nat (size X) - 1.
Proof.
  intros H. assert (HX : X = {[id]} ∪ X ∖ {[id]}) by (apply leibniz_equiv, union_difference; set_solver).
  rewrite HX at 2. rewrite size_add by set_solver. lia.
Qed.

Lemma not_armed cur r s id : inv cur r s -> id ∉ pendingDeferIds s -> timers s !! id = None.
Proof. intros Hi Hn. apply eq_None_not_Some. by rewrite <- (i_armed _ _ _ Hi). Qed.

(** A timer more, of a timeout or not. *)
Lemma inv_arm t cur r s : inv cur r s ->
  inv cur r (St (<[next_id s := t]> (timers s)) (S (next_id s)) ({[next_id s]} ∪ pendingDeferIds s) (outstandingRequestCount s + 1) (outstandingRequestCallbacks s)
               (if is_timeout (Some t) then {[next_id s]} ∪ deferreds s else deferreds s)
               (if is_timeout (Some t) then <[next_id s := None]> (promises s) else promises s) (log s)).
Proof.
  intros Hi. pose proof Hi as [H1 H2 H3 H4 H5 H6 H7 H8 [H9 H9'] H10]. set (id := next_id s).
  assert (Hp : id ∉ pendingDeferIds s) by (intros H; pose proof (H5 id ltac:(tauto)); unfold id in *; lia).
  assert (Hd : id ∉ deferreds s) by (intros H; pose proof (H5 id ltac:(tauto)); unfold id in *; lia).
  assert (Hc : id ∉ calls (log s)) by (intros H; pose proof (H5 id ltac:(tauto)); unfold id in *; lia).
  assert (Hpr : promises s !! id = None) by (apply eq_None_not_Some; intros H; pose proof (H5 id ltac:(tauto)); unfold id in *; lia).
  split; cbn [timers next_id pendingDeferIds outstandingRequestCount outstandingRequestCallbacks deferreds promises log]; try done.
  - intros id'. rewrite lookup_insert_is_Some, <- H1. set_unfold. destruct (decide (id = id')); naive_solver.
  - rewrite size_add by done. lia.
  - intros H. exfalso. assert (0 <= busy cur) by (by destruct cur). lia.
  - intros id' Hin. destruct (decide (id' = id)) as [->|Hne]; [unfold id; lia|]. assert (Hlt : (id' < next_id s)%nat); [|lia]. apply H5.
    destruct (is_timeout (Some t)); [rewrite lookup_insert_ne in Hin by done|]; set_unfold; tauto.
  - intros id' Ht. destruct (decide (id' = id)) as [->|Hne].
    + rewrite lookup_insert_eq in Ht. rewrite Ht. set_solver.
    + rewrite lookup_insert_ne in Ht by done. specialize (H6 _ Ht). destruct (is_timeout (Some t)); set_solver.
  - intros id' Hin. destruct (decide (id' = id)) as [->|Hne].
    + rewrite lookup_insert_eq. destruct (is_timeout (Some t)); [by left|done].
    + rewrite lookup_insert_ne by done. apply H7. destruct (is_timeout (Some t)); set_solver.
  - intros id'. destruct (is_timeout (Some t)); [|apply H8]. destruct (decide (id' = id)) as [->|Hne].
    + rewrite lookup_insert_eq. set_solver.
    + rewrite lookup_insert_ne, H8 by done. set_solver.
  - split; [done|]. intros id' Hin. rewrite lookup_insert_ne by (intros <-; done). by apply H9'.
Qed.

(** A timer less: what it stands for is still counted. *)
Lemma inv_disarm id o cur r s : inv cur r s -> id ∈ pendingDeferIds s ->
  inv cur (r + 1) (St (delete id (timers s)) (next_id s) (pendingDeferIds s ∖ {[id]}) (outstandingRequestCount s) (outstandingRequestCallbacks s)
     (deferreds s ∖ {[id]}) (if is_timeout (timers s !! id) then <[id := Some o]> (promises s) else promises s) (log s)).
Proof.
  intros Hi Hin. pose proof Hi as [H1 H2 H3 H4 H5 H6 H7 H8 [H9 H9'] H10].
  assert (Hd : id ∈ deferreds s -> is_timeout (timers s !! id) = true).
  { intros [?|Hcur%H10%H9']%H7; [done|]. apply H1 in Hin. rewrite Hcur in Hin. by destruct Hin. }
  split; cbn [timers next_id pendingDeferIds outstandingRequestCount outstandingRequestCallbacks deferreds promises log]; try done.
  - intros id'. rewrite lookup_delete_is_Some, <- H1. set_unfold. naive_solver.
  - rewrite size_remove by done. lia.
  - lia.
  - intros id' Hid. apply H5. destruct (is_timeout (timers s !! id)) eqn:Ht; [|set_unfold; tauto].
    destruct (decide (id' = id)) as [->|]; [by left|]. rewrite lookup_insert_ne in Hid by done. set_unfold. tauto.
  - intros id' Ht. destruct (decide (id' = id)) as [->|]; [by rewrite lookup_delete_eq in Ht|]. rewrite lookup_delete_ne in Ht by done.
    specialize (H6 _ Ht). set_solver.
  - intros id' [Hid Hne]%elem_of_difference. rewrite lookup_delete_ne by set_solver. by apply H7.
  - intros id'. destruct (is_timeout (timers s !! id)) eqn:Ht.
    + destruct (decide (id' = id)) as [->|]; [rewrite lookup_insert_eq; set_solver|]. rewrite lookup_insert_ne, H8 by done. set_solver.
    + rewrite H8. set_unfold. split; [|tauto]. intros Hid. split; [done|]. intros ->. specialize (Hd Hid). congruence.
  - split; [done|]. intros id' Hc. rewrite lookup_delete_None. right. by apply H9'.
Qed.

(** The deferred of a timeout that is not armed. *)
Lemma timers_settle id o cur r s : inv cur r s -> timers s !! id = None -> inv cur r (forget id (settle id o s)).
Proof.
  intros Hi Hn. pose proof Hi as [H1 H2 H3 H4 H5 H6 H7 H8 H9 H10]. unfold forget, settle.
  destruct (promises s !! id) as [[x|]|] eqn:Hp.
  2: { assert (Hd : id ∈ deferreds s) by by apply H8. split; simpl; try done.
    - intros id' Hid. apply H5. destruct (decide (id' = id)) as [->|]; [tauto|]. rewrite lookup_insert_ne in Hid by done. set_unfold. tauto.
    - intros id' Ht. specialize (H6 _ Ht). assert (id' <> id) by (intros ->; by rewrite Hn in Ht). set_solver.
    - intros id' [Hid _]%elem_of_difference. by apply H7.
    - intros id'. destruct (decide (id' = id)) as [->|]; [rewrite lookup_insert_eq; set_solver|]. rewrite lookup_insert_ne, H8 by done. set_solver. }
  all: assert (Hd : id ∉ deferreds s) by (rewrite <- H8, Hp; done); assert (He : deferreds s ∖ {[id]} = deferreds s) by set_solver;
    rewrite He; by destruct s.
Qed.

Lemma pending_deferred cur r s id : inv cur r s -> id ∈ pendingDeferIds s -> id ∈ deferreds s <-> is_timeout (timers s !! id) = true.
Proof.
  intros Hi Hin. split; [|apply (i_listed _ _ _ Hi)]. intros [?|Hcur%(i_cur _ _ _ Hi)]%(i_deferred _ _ _ Hi); [done|].
  apply (proj2 (i_called _ _ _ Hi)) in Hcur. apply (i_armed _ _ _ Hi) in Hin. rewrite Hcur in Hin. by destruct Hin.
Qed.

(** A timer is canceled. *)
Lemma inv_cancel id o cur r s : inv cur r s -> id ∈ pendingDeferIds s ->
  inv cur r (completed (St (delete id (timers s)) (next_id s) (pendingDeferIds s ∖ {[id]}) (outstandingRequestCount s) (outstandingRequestCallbacks s)
     (deferreds s ∖ {[id]}) (if is_timeout (timers s !! id) then <[id := Some o]> (promises s) else promises s) (log s))).
Proof.
  intros Hi Hin. pose proof (inv_disarm id o cur r s Hi Hin) as Hd. apply (inv_completed cur cur (r + 1)); [done|lia|apply (i_open _ _ _ Hi)| |by right].
  apply (i_deferred _ _ _ Hd).
Qed.

Lemma inv_cmd c cur r s : inv cur r s -> proper_cmd c r s = true -> inv cur (r + weight c) (exec_cmd s c).
Proof.
  intros Hi Hp. destruct c as [fn sk|id|fn|id|callback| |]; cbn [weight exec_cmd]; rewrite ?Z.add_0_r.
  - apply (inv_arm (RunTimeout fn sk) cur r s Hi).
  - unfold timeout_cancel. case_bool_decide as Hd; [|done]. pose proof Hd as Hpr. apply (i_promise _ _ _ Hi) in Hpr.
    unfold defer_cancel. case_bool_decide as Hin.
    + unfold forget, settle in Hin |- *. rewrite Hpr in Hin |- *. simpl in Hin |- *. pose proof (inv_cancel id Canceled cur r s Hi Hin) as Hc.
      by rewrite (proj1 (pending_deferred _ _ _ _ Hi Hin) Hd) in Hc.
    + apply timers_settle; [done|]. apply (not_armed cur r); [done|]. unfold forget, settle in Hin. by rewrite Hpr in Hin.
  - apply (inv_arm (RunPlain fn) cur r s Hi).
  - unfold defer_cancel. case_bool_decide as Hin; [|done]. simpl in Hp |- *. pose proof (inv_cancel id Canceled cur r s Hi Hin) as Hc.
    assert (Ht : is_timeout (timers s !! id) = false) by (by destruct (timers s !! id) as [[]|]). rewrite Ht in Hc.
    assert (Hd : deferreds s ∖ {[id]} = deferreds s).
    { assert (id ∉ deferreds s); [|set_solver]. rewrite (pending_deferred _ _ _ _ Hi Hin), Ht. done. }
    by rewrite Hd in Hc.
  - by apply inv_notify.
  - destruct Hi as [H1 H2 H3 H4 H5 H6 H7 H8 H9 H10]. split; simpl; try done; try lia. intros. assert (0 <= busy cur) by (by destruct cur). lia.
  - simpl in Hp. apply Z.ltb_lt in Hp. apply (inv_completed cur cur r); [done|lia|lia|apply (i_deferred _ _ _ Hi)|by right].
Qed.

Lemma inv_cmds cs : forall cur r s, inv cur r s -> proper cs r s = true -> inv cur (r + weights cs) (exec_cmds cs s).
Proof.
  induction cs as [|c cs IH]; intros cur r s Hi Hp; cbn [weights foldr]; [by rewrite Z.add_0_r|].
  cbn [proper] in Hp. apply andb_true_iff in Hp as [Hc Hp]. rewrite Z.add_assoc. apply IH; [by apply inv_cmd|done].
Qed.

Lemma inv_running id t r s : inv None r s -> timers s !! id = Some t -> inv (Some id) r (running id s).
Proof.
  intros Hi Ht. pose proof Hi as [H1 H2 H3 H4 H5 H6 H7 H8 [H9 H9'] H10].
  assert (Hin : id ∈ pendingDeferIds s) by (apply H1; by eexists).
  assert (Hc : id ∉ calls (log s)) by (intros Hc%H9'; congruence).
  split; cbn [running timers next_id pendingDeferIds outstandingRequestCount outstandingRequestCallbacks deferreds promises log]; try done.
  - intros id'. rewrite lookup_delete_is_Some, <- H1. set_unfold. naive_solver.
  - rewrite size_remove by done. simpl in *. lia.
  - intros id' Hid. apply H5. rewrite calls_app, elem_of_app in Hid. simpl in Hid. rewrite list_elem_of_singleton in Hid.
    destruct (decide (id' = id)) as [->|]; [by left|]. set_unfold. tauto.
  - intros id' Ht'. apply H6. destruct (decide (id' = id)) as [->|]; [by rewrite lookup_delete_eq in Ht'|]. by rewrite lookup_delete_ne in Ht'.
  - intros id' Hid. destruct (decide (id' = id)) as [->|]; [by right|]. rewrite lookup_delete_ne by done. left. by destruct (H7 _ Hid).
  - rewrite calls_app. simpl. split.
    + apply NoDup_app. split_and!; [done| |apply NoDup_singleton]. by intros x Hx ->%list_elem_of_singleton.
    + intros id' [Hid| ->%list_elem_of_singleton]%elem_of_app; [|apply lookup_delete_eq]. rewrite lookup_delete_None. right. by apply H9'.
  - intros id' [= <-]. rewrite calls_app, elem_of_app. right. by left.
Qed.

(** A function does not make a deferred for a number that was given before. *)
Definition old (id : nat) (s : st) : Prop := (id < next_id s)%nat /\ id ∉ deferreds s.

Lemma old_completed id s : old id s -> old id (completed s).
Proof. intros H. unfold completed. by case_match. Qed.

Lemma old_defer_cancel id k s : old id s -> old id (defer_cancel k s).2.
Proof. intros H. unfold defer_cancel. case_bool_decide; [by apply old_completed|done]. Qed.

Lemma old_forget id k o s : old id s -> old id (forget k (settle k o s)).
Proof. intros [H1 H2]. unfold forget, settle, old. destruct (promises s !! k) as [[]|]; simpl; (split; [done|set_solver]). Qed.

Lemma old_cmds id cs : forall s, old id s -> old id (exec_cmds cs s).
Proof.
  induction cs as [|c cs IH]; intros s Ho; [done|]. apply IH. destruct c as [fn sk|k|fn|k|callback| |]; simpl.
  - destruct Ho. split; simpl; [lia|]. set_unfold. intros [->|?]; [lia|done].
  - unfold timeout_cancel. case_bool_decide; [by apply old_defer_cancel, old_forget|done].
  - destruct Ho. split; simpl; [lia|done].
  - by apply old_defer_cancel.
  - unfold notifyWhenNoOutstandingRequests. by case_match.
  - done.
  - by apply old_completed.
Qed.

Lemma inv_fire id t r s : inv None r s -> timers s !! id = Some t -> proper (code (task_fn t)).1 r (running id s) = true ->
  inv None (r + weights (code (task_fn t)).1) (fire id s).
Proof.
  intros Hi Ht Hp. pose proof (inv_running id t r s Hi Ht) as Hr. pose proof (inv_cmds _ _ _ _ Hr Hp) as He.
  assert (Hend : forall s', inv (Some id) (r + weights (code (task_fn t)).1) s' -> id ∉ deferreds s' -> inv None (r + weights (code (task_fn t)).1) (completed s')).
  { intros s' Hs' Hd. eapply inv_completed; [exact Hs'|simpl; lia|apply (i_open _ _ _ Hs')| |by left].
    intros id' Hid. destruct (i_deferred _ _ _ Hs' _ Hid) as [?|[= <-]]; [by left|done]. }
  assert (Hn : timers (exec_cmds (code (task_fn t)).1 (running id s)) !! id = None) by apply (proj2 (i_called _ _ _ He)), (i_cur _ _ _ He), eq_refl.
  unfold fire. rewrite Ht. fold (running id s). destruct t as [fn sk|fn]; cbn [task_fn] in *.
  - destruct (code fn).2 as [v|e].
    + pose proof (timers_settle id (Resolved v) _ _ _ He Hn) as Hs. destruct sk; apply Hend; try (by apply inv_log); try done; simpl; set_solver.
    + pose proof (timers_settle id (Rejected e) _ _ _ He Hn) as Hs. destruct sk; apply Hend; try (by apply inv_log); try done; try (simpl; set_solver).
      * by apply (inv_log [Threw e]) in Hs.
      * apply inv_log; [done|]. by apply (inv_log [Threw e]) in Hs.
  - assert (Hd : id ∉ deferreds (exec_cmds (code fn).1 (running id s))).
    { apply old_cmds; split; simpl.
      - apply (i_fresh _ _ _ Hi). left. apply (i_armed _ _ _ Hi). by eexists.
      - intros Hd. apply (i_deferred _ _ _ Hi) in Hd as [Hd|]; [|done]. by rewrite Ht in Hd. }
    destruct (code fn).2; [by apply Hend|]. apply inv_log; [done|by apply Hend].
Qed.

Lemma timers_inv r s : history r s -> inv None r s.
Proof. induction 1; [apply timers_start|by apply inv_cmds|by eapply inv_fire]. Qed.

(** A number that was given and has no timer: it has none afterwards, and is
    not called. *)
Definition over (id : nat) (s : st) : Prop := (id < next_id s)%nat /\ timers s !! id = None.

Definition quiet (id : nat) (s s' : st) : Prop := over id s' /\ (id ∈ calls (log s') <-> id ∈ calls (log s)).

Lemma quiet_put m id s s' : calls m = [] -> quiet id s s' -> quiet id s (put_log m s').
Proof. intros Hm [Ho Hc]. split; [exact Ho|]. simpl. by rewrite calls_app, Hm, app_nil_r. Qed.

Lemma quiet_completed id s s' : quiet id s s' -> quiet id s (completed s').
Proof.
  intros H. unfold completed. case_match; [|exact H].
  apply (quiet_put _ _ _ _ (calls_notified (rev (outstandingRequestCallbacks (add_count (-1) s')))) H).
Qed.

Lemma quiet_disarm id k s s' P : quiet id s s' ->
  quiet id s (St (delete k (timers s')) (next_id s') P (outstandingRequestCount s') (outstandingRequestCallbacks s') (deferreds s') (promises s') (log s')).
Proof. intros [[Hl Ht] Hc]. split; [split; [exact Hl|]|exact Hc]. simpl. by rewrite lookup_delete_None; right. Qed.

Lemma quiet_settle id k o s s' : quiet id s s' -> quiet id s (settle k o s').
Proof. intros H. unfold settle. by repeat case_match. Qed.

Lemma quiet_defer_cancel id k s s' : quiet id s s' -> quiet id s (defer_cancel k s').2.
Proof. intros H. unfold defer_cancel. case_bool_decide; [|exact H]. by apply quiet_completed, quiet_disarm. Qed.

Lemma quiet_cmds id cs : forall s s', quiet id s s' -> quiet id s (exec_cmds cs s').
Proof.
  induction cs as [|c cs IH]; intros s s' H; [exact H|]. apply IH. destruct c as [fn sk|k|fn|k|callback| |]; cbn [exec_cmd].
  - destruct H as [[Hl Ht] Hc]. split; [split; simpl; [lia|]|exact Hc]. by rewrite lookup_insert_ne by lia.
  - unfold timeout_cancel. case_bool_decide; [|exact H]. apply quiet_defer_cancel. by apply (quiet_settle id k Canceled) in H.
  - destruct H as [[Hl Ht] Hc]. split; [split; simpl; [lia|]|exact Hc]. by rewrite lookup_insert_ne by lia.
  - by apply quiet_defer_cancel.
  - unfold notifyWhenNoOutstandingRequests. case_match; [by apply quiet_put|exact H].
  - exact H.
  - by apply quiet_completed.
Qed.

Lemma quiet_fire id k s s' : quiet id s s' -> quiet id s (fire k s').
Proof.
  intros H. unfold fire. destruct (timers s' !! k) as [t|] eqn:Ht; [|exact H].
  assert (Hne : id <> k) by (intros ->; destruct H as [[_ Hn] _]; congruence).
  assert (Hr : quiet id s (running k s')).
  { apply (quiet_disarm id k _ _ (pendingDeferIds s' ∖ {[k]})) in H. destruct H as [Ho Hc]. split; [exact Ho|].
    rewrite <- Hc. simpl. rewrite calls_app, elem_of_app. simpl. rewrite list_elem_of_singleton. naive_solver. }
  fold (running k s'). destruct t as [fn sk|fn]; apply (quiet_cmds id (code fn).1) in Hr.
  - assert (Hs : quiet id s (forget k match (code fn).2 with
      | Ok v => settle k (Resolved v) (exec_cmds (code fn).1 (running k s'))
      | Err e => put_log [Threw e] (settle k (Rejected e) (exec_cmds (code fn).1 (running k s'))) end)).
    { destruct (code fn).2 as [v|e]; [by apply (quiet_settle id k (Resolved v)) in Hr|].
      apply (quiet_put [Threw e] id s _ eq_refl). by apply quiet_settle. }
    apply quiet_completed. destruct sk; [exact Hs|by apply quiet_put].
  - destruct (code fn).2; [by apply quiet_completed|]. by apply quiet_put, quiet_completed.
Qed.

Lemma quiet_future id r s r' s' : future r s r' s' -> over id s -> quiet id s s'.
Proof. intros H Ho. induction H; [by split|by apply quiet_cmds|by apply quiet_fire]. Qed.

(** A cancellation that is answered yes leaves no timer. *)
Lemma canceled_over id cur r s s' : inv cur r s ->
  defer_cancel id s = (true, s') \/ timeout_cancel id s = (true, s') -> over id s' /\ id ∉ calls (log s').
Proof.
  intros Hi Hd.
  assert (Hn : forall k, k ∈ pendingDeferIds s -> k ∉ calls (log s)).
  { intros k Hk Hc. apply (i_armed _ _ _ Hi) in Hk as [t Ht]. apply (proj2 (i_called _ _ _ Hi)) in Hc. congruence. }
  assert (Hf : forall k, k ∈ pendingDeferIds s -> (k < next_id s)%nat) by (intros k Hk; apply (i_fresh _ _ _ Hi); tauto).
  assert (Hc : forall s0 s1, next_id s0 = next_id s -> pendingDeferIds s0 = pendingDeferIds s -> log s0 = log s ->
    defer_cancel id s0 = (true, s1) -> over id s1 /\ id ∉ calls (log s1)).
  { intros s0 s1 En Ep El He. unfold defer_cancel in He. case_bool_decide as Hin; [|done]. injection He as <-. rewrite Ep in Hin.
    unfold over, completed. case_match; simpl; rewrite ?En, ?El, ?calls_app, ?calls_notified, ?app_nil_r, lookup_delete_eq; auto. }
  destruct Hd as [Hd|Hd]; [by eapply Hc|]. unfold timeout_cancel in Hd. case_bool_decide; [|done].
  revert Hd. apply Hc; unfold forget, settle; by repeat case_match.
Qed.
End Timers.

(** C9: in every history of functions, called by the application or by a timer
    that goes off, in whatever order the timers do - where a request of the
    back end is completed once and the timer of a timeout is only canceled
    through [$timeout] -, the count of what is outstanding is the number of
    armed timers and open requests, so that it is never negative, and no
    callback waits once it is 0; the promise of a timeout is pending exactly
    while its timer is armed; no timer goes off twice; a cancellation that is
    answered yes leaves its timer unarmed and not called; and a timer that is not armed any
    more, canceled or gone off, is never armed again nor goes off, whatever
    happens afterwards. *)
Theorem timers_exact {F E V} (code : F -> list cmd * result E V) r (s : st) (H : history code r s) :
  outstandingRequestCount s = Z.of_nat (size (pendingDeferIds s)) + r /\ 0 <= r /\
  (outstandingRequestCount s = 0 -> outstandingRequestCallbacks s = []) /\
  (forall id, id ∈ pendingDeferIds s <-> is_Some (timers s !! id)) /\
  (forall id, promises s !! id = Some None <-> is_timeout (timers s !! id) = true) /\
  NoDup (calls (log s)) /\ (forall id, id ∈ calls (log s) -> timers s !! id = None) /\
  (forall id s', defer_cancel id s = (true, s') \/ timeout_cancel id s = (true, s') ->
     (id < next_id s')%nat /\ timers s' !! id = None /\ id ∉ calls (log s')) /\
  (forall id r' s', future code r s r' s' -> (id < next_id s)%nat -> timers s !! id = None ->
     timers s' !! id = None /\ (id ∈ calls (log s') <-> id ∈ calls (log s))).
Proof.
  apply timers_inv in H as Hi. pose proof Hi as [H1 H2 H3 H4 H5 H6 H7 H8 [H9 H9'] H10]. split_and!; try done.
  - by rewrite H2, Z.add_0_r.
  - intros id. rewrite H8. split; [|apply H6]. by intros [?|?]%H7.
  - intros id s' Hc. by apply (canceled_over id _ _ _ _ Hi) in Hc as [[? ?] ?].
  - intros id r' s' Hf Hl Hn. destruct (quiet_future code id r s r' s' Hf (conj Hl Hn)) as [[_ Ht] Hc]. by split.
Qed.

(** The function of the first timer cancels its own timeout, starts another and
    fails; that of the second asks to be told when nothing is outstanding. *)
Definition demo_code (fn : nat) : list cmd * result string nat :=
  match fn with
  | 0%nat => ([CancelTimeout 0; Timeout 1%nat true; IncOutstanding], Err "oops")
  | _ => ([NotifyWhenIdle 7; CompleteOutstanding], Ok 5%nat)
  end.

Definition demo_commands : list cmd := [Timeout 0%nat false; Defer 1%nat; CancelDefer 1].
Definition demo_begun : st := exec_cmds (E := string) (V := nat) demo_commands start.
Definition demo_middle : st := fire demo_code 0 demo_begun.
Definition demo_state : st := fire demo_code 2 demo_middle.

Lemma timers_exact_witness : outstandingRequestCount demo_state = 0 /\ NoDup (calls (log demo_state)) /\
  log demo_state = [Called 0; Threw "oops"; Applied; Called 2; Notified 7] /\
  promises demo_state !! 0%nat = Some (Some Canceled) /\ promises demo_state !! 2%nat = Some (Some (Resolved 5%nat)).
Proof.
  assert (H1 : history demo_code 0 demo_begun) by apply (future_app demo_code 0 start 0 start demo_commands (future_now _ _ _) eq_refl).
  assert (H2 : history demo_code 1 demo_middle) by apply (future_fire demo_code 0 start 0 demo_begun 0 (RunTimeout 0%nat false) H1 eq_refl eq_refl).
  assert (Hh : history demo_code 0 demo_state) by apply (future_fire demo_code 0 start 1 demo_middle 2 (RunTimeout 1%nat true) H2 eq_refl eq_refl).
  destruct (timers_exact demo_code 0 demo_state Hh) as (Hc & _ & _ & _ & _ & Hd & _).
  split; [rewrite Hc; reflexivity|]. split; [exact Hd|]. vm_compute. done.
Defined.

(** ** [$interval] *)

Module Interval.
Section Interval.

(** An armed interval with its closure. *)
Record interval := Interval { count : Z; iteration : Z }.

Inductive outcome := Resolved (iterations : Z) | Canceled.

Inductive mark :=
| Notified (id : nat) (iteration : Z)    (** [deferred.notify], which calls [fn] in the next digest *)
| Settled (id : nat) (o : outcome).

(** [intervals] is the table of the service; [armed] is the browser's. *)
Record st := St { intervals : gset nat; armed : gmap nat interval; next_id : nat; log : list mark }.

Definition start (times : option Z) (s : st) : nat * st :=
  (next_id s, St ({[next_id s]} ∪ intervals s) (<[next_id s := Interval (default 0 times) 0]> (armed s)) (S (next_id s)) (log s)).

Definition tick (id : nat) (s : st) : st :=
  match armed s !! id with
  | None => s
  | Some i =>
      let i' := Interval (count i) (iteration i + 1) in
      let l := log s ++ [Notified id (iteration i)] in
      if (0 <? count i) && (count i <=? iteration i')
      then St (intervals s ∖ {[id]}) (delete id (armed s)) (next_id s) (l ++ [Settled id (Resolved (iteration i'))])
      else St (intervals s) (<[id := i']> (armed s)) (next_id s) l
  end.

Definition cancel (id : nat) (s : st) : bool * st :=
  if bool_decide (id ∈ intervals s)
  then (true, St (intervals s ∖ {[id]}) (delete id (armed s)) (next_id s) (log s ++ [Settled id Canceled]))
  else (false, s).

Inductive event := Start (times : option Z) | Tick (id : nat) | Cancel (id : nat).

Definition exec (e : event) (s : st) : st :=
  match e with
  | Start times => (start times s).2
  | Tick id => tick id s
  | Cancel id => (cancel id s).2
  end.

Definition run (l : list event) (s : st) : st := fold_left (fun s e => exec e s) l s.
Definition fresh : st := St ∅ ∅ 0 [].

(** What the log says of an interval. *)
Definition about (id : nat) (m : mark) : Prop := match m with Notified k _ | Settled k _ => k = id end.
#[global] Instance about_dec id m : Decision (about id m).
Proof. destruct m; simpl; apply _. Defined.

Definition notifications (id : nat) (n : Z) : list mark := map (Notified id) (seqZ 0 n).

(** An interval as its log tells it: running, ended or never started. *)
Definition consistent (id : nat) (s : st) : Prop :=
  let l := filter (about id) (log s) in
  match armed s !! id with
  | Some i => (id < next_id s)%nat /\ (id ∈ intervals s) /\ 0 <= iteration i /\ l = notifications id (iteration i) /\ (0 < count i -> iteration i < count i)
  | None => (id ∉ intervals s) /\
      if (id <? next_id s)%nat then exists n o, 0 <= n /\ l = notifications id n ++ [Settled id o] /\ (forall k, o = Resolved k -> k = n)
      else l = []
  end.

Lemma about_same id l m : ~ about id m -> filter (about id) (l ++ [m]) = filter (about id) l.
Proof. intros H. rewrite filter_app, filter_cons, decide_False, filter_nil, app_nil_r by done. done. Qed.

Lemma about_more id l m : about id m -> filter (about id) (l ++ [m]) = filter (about id) l ++ [m].
Proof. intros H. by rewrite filter_app, filter_cons, decide_True, filter_nil. Qed.

Lemma notifications_more id n : 0 <= n -> notifications id n ++ [Notified id n] = notifications id (n + 1).
Proof.
  intros Hn. unfold notifications. rewrite seqZ_app by lia. rewrite map_app. f_equal.
Qed.

Lemma next_unused s : (forall id, consistent id s) -> armed s !! next_id s = None /\ filter (about (next_id s)) (log s) = [].
Proof.
  intros H. specialize (H (next_id s)). unfold consistent in H. destruct (armed s !! next_id s) as [i|]; [destruct H; lia|].
  split; [done|]. destruct H as [_ H]. by rewrite Nat.ltb_irrefl in H.
Qed.

Lemma consistent_start times s : (forall id, consistent id s) -> forall id, consistent id (start times s).2.
Proof.
  intros H id. destruct (next_unused s H) as [Ha Hl]. unfold consistent. cbn [start snd armed intervals next_id log].
  destruct (decide (id = next_id s)) as [->|Hne].
  - rewrite lookup_insert_eq, Hl. cbn [iteration count]. split_and!; [lia|set_solver|lia|done|lia].
  - rewrite lookup_insert_ne by done. specialize (H id). unfold consistent in H. destruct (armed s !! id) as [i|].
    + destruct H as (? & ? & ?). split_and!; [lia|set_solver|apply H1..].
    + destruct H as [Hn H]. split; [set_solver|]. assert (Hb : (id <? S (next_id s))%nat = (id <? next_id s)%nat).
      { destruct (Nat.ltb_spec id (next_id s)), (Nat.ltb_spec id (S (next_id s))); try done; lia. }
      by rewrite Hb.
Qed.

(** The end of an interval. *)
Lemma consistent_end k o s l n : (forall id, consistent id s) -> (k < next_id s)%nat -> 0 <= n ->
  (forall id, id <> k -> filter (about id) l = filter (about id) (log s)) -> filter (about k) l = notifications k n ->
  (forall m, o = Resolved m -> m = n) ->
  forall id, consistent id (St (intervals s ∖ {[k]}) (delete k (armed s)) (next_id s) (l ++ [Settled k o])).
Proof.
  intros H Hk Hn Hl Hlk Ho id. unfold consistent. cbn [armed intervals next_id log]. destruct (decide (id = k)) as [->|Hne].
  - rewrite lookup_delete_eq. split; [set_solver|]. rewrite (proj2 (Nat.ltb_lt _ _) Hk). exists n, o. split; [done|]. split; [|done].
    by rewrite about_more, Hlk.
  - rewrite lookup_delete_ne, about_same, Hl by (simpl; congruence). specialize (H id). unfold consistent in H. destruct (armed s !! id).
    + destruct H as (? & ? & ?). split_and!; [done|set_solver|apply H1..].
    + destruct H as [? ?]. split; [set_solver|done].
Qed.

Lemma consistent_exec e s : (forall id, consistent id s) -> forall id, consistent id (exec e s).
Proof.
  intros H. destruct e as [times|k|k]; simpl; [by apply consistent_start| |].
  - unfold tick. destruct (armed s !! k) as [i|] eqn:Ha; [|done]. pose proof (H k) as Hk. unfold consistent in Hk. rewrite Ha in Hk.
    destruct Hk as (Hlt & Hin & Hi & Hl & Hc).
    assert (Hother : forall id, id <> k -> filter (about id) (log s ++ [Notified k (iteration i)]) = filter (about id) (log s)).
    { intros id Hne. apply about_same. simpl. congruence. }
    assert (Hmine : filter (about k) (log s ++ [Notified k (iteration i)]) = notifications k (iteration i + 1)).
    { by rewrite about_more, Hl, notifications_more. }
    destruct ((0 <? count i) && (count i <=? iteration i + 1)) eqn:Hend; cbn [iteration count]; rewrite Hend.
    + apply (consistent_end k (Resolved (iteration i + 1)) s _ (iteration i + 1)); try done; [lia|congruence].
    + intros id. unfold consistent. cbn [armed intervals next_id log]. destruct (decide (id = k)) as [->|Hne].
      * rewrite lookup_insert_eq, Hmine. cbn [iteration count]. split_and!; [done|done|lia|done|]. intros Hpos.
        apply andb_false_iff in Hend as [Hend%Z.ltb_ge|Hend%Z.leb_gt]; lia.
      * rewrite lookup_insert_ne, Hother by done. apply (H id).
  - unfold cancel. case_bool_decide as Hin; [|done]. simpl. pose proof (H k) as Hk. unfold consistent in Hk.
    destruct (armed s !! k) as [i|]; [|by destruct Hk]. destruct Hk as (Hlt & _ & Hi & Hl & _).
    by apply (consistent_end k Canceled s (log s) (iteration i)).
Qed.

(** In every history of intervals, the log has for each of them its iterations
    from 0 on, in order and without a gap, and, once it has ended, one mark more:
    its promise is resolved with the number of iterations, which an interval of
    [n > 0] reaches at [n], or it was canceled; after that nothing. *)
Lemma interval_exact l id : consistent id (run l fresh).
Proof.
  revert id. unfold run. assert (H : forall id, consistent id fresh).
  { intros id. unfold consistent, fresh. simpl. rewrite lookup_empty. split; [set_solver|]. by destruct id. }
  revert H. generalize fresh. induction l as [|e l IH]; intros s H id; [apply H|]. cbn [fold_left]. apply IH. by apply consistent_exec.
Qed.

Example three_times :
  log (run [Start (Some 3); Start None; Tick 0; Tick 0; Tick 1; Tick 0; Tick 0; Cancel 1; Cancel 0] fresh) =
    [Notified 0 0; Notified 0 1; Notified 1 0; Notified 0 2; Settled 0 (Resolved 3); Settled 1 Canceled].
Proof. vm_compute. reflexivity. Qed.
End Interval.
End Interval.
