(* ===== verification/NgLocation.v ===== *)
(** * NgLocation: the address bar and [$location]

    The URL of the browser ([$browser.url], [fireUrlChange], angular.js
    4428-4431, 4494-4570) and the watch that keeps it and [$location] the same
    (9942-9994), with the part of [$digest] that matters here: it looks for a
    change of the URL first (12644), then runs the queue and the watch until
    neither changes anything.

    What [$location] is, is an interface, [LocationMode]: its absolute URL, its
    parser, and the URLs it can write.  NgUrl's HTML5 strategy is an instance.
    [prevents] is what the listeners of [$locationChangeStart] decide; they do
    not change the location themselves. *)

From S2P Require Import Prelude Text NgUrl.
Import NgUrl.Uri NgUrl.Query NgUrl.Location.

#[local] Set Warnings "-clear-no-such-hyp".

(** ** The browser's URL *)

(** [url.substr(url.indexOf('#') + 1)], or nothing. *)
Definition getHash (url : string) : string := drop_first "#" (break_at (fun c => Ascii.eqb c "#") url).2.

Section Browser.
Context (history_api : bool).

(** [href] is the address bar; [entries] what was shown before, the latest
    first. *)
Record browser := Browser {
  href : string;
  entries : list string;
  lastBrowserUrl : string;
  reloadLocation : option string
}.

(** [self.url()] *)
Definition get_url (b : browser) : string :=
  match reloadLocation b with Some u => u | None => replace_all false "%27" "'" (href b) end.

(** The browser goes to a URL, in a new entry or in place of the current one. *)
Definition goto (url : string) (replace : bool) (b : browser) : browser :=
  Browser url (if replace then entries b else href b :: entries b) (lastBrowserUrl b) (reloadLocation b).

(** [location.hash = h] *)
Definition set_fragment (h : string) (b : browser) : browser :=
  let url := stripHash (href b) +:+ "#" +:+ h in
  if String.eqb url (href b) then b else goto url false b.

(** [self.url(url, replace)] *)
Definition set_url (url : string) (replace : bool) (b : browser) : browser :=
  if String.eqb (lastBrowserUrl b) url then b
  else
    let sameBase := negb (String.eqb (lastBrowserUrl b) "") && String.eqb (stripHash (lastBrowserUrl b)) (stripHash url) in
    let b := Browser (href b) (entries b) url (reloadLocation b) in
    if negb sameBase && history_api then goto url replace b
    else
      let b := if sameBase then b else Browser (href b) (entries b) (lastBrowserUrl b) (Some url) in
      if replace then goto url true b
      else if sameBase then set_fragment (getHash url) b
      else goto url false b.

(** [fireUrlChange]: the URL the listeners are called with, if they are. *)
Definition fireUrlChange (b : browser) : option string * browser :=
  if String.eqb (lastBrowserUrl b) (get_url b) then (None, b)
  else (Some (get_url b), Browser (href b) (entries b) (get_url b) (reloadLocation b)).
End Browser.

(** ** URLs and their fragments *)

(** Two URLs that differ at most by an empty fragment. *)
Definition same_url (u v : string) : Prop := stripHash u = stripHash v /\ getHash u = getHash v.

#[global] Instance same_url_equiv : Equivalence same_url.
Proof. unfold same_url. split; red; intuition congruence. Qed.

(** No line terminator and no escaped quote. *)
Definition plain_char (c : ascii) : bool := negb (Ascii.eqb c "010" || Ascii.eqb c "013" || Ascii.eqb c "226").

Fixpoint no_escaped_quote (u : string) : bool :=
  match u with
  | EmptyString => true
  | String _ u' => negb (prefix_of false "%27" u) && no_escaped_quote u'
  end.

Definition plain (u : string) : Prop := all_chars plain_char u = true /\ no_escaped_quote u = true.

Lemma break_lacks p h : contains_char "#" p = false -> break_at (fun c => Ascii.eqb c "#") (p +:+ String "#" h) = (p, String "#" h).
Proof. intros Hp. rewrite break_at_app by by apply all_chars_lacks. simpl. by rewrite string_app_nil_r. Qed.

Lemma url_form u : contains_char "#" (stripHash u) = false /\
  (u = stripHash u /\ getHash u = "" \/ u = stripHash u +:+ String "#" (getHash u)).
Proof.
  unfold stripHash, getHash. induction u as [|c u IH]; [by split; [|left]|]. cbn [break_at]. destruct (Ascii.eqb_spec c "#") as [->|Hc].
  - split; [done|]. by right.
  - destruct (break_at (fun c => Ascii.eqb c "#") u) as [a b]. cbn [fst snd] in *. destruct IH as [Ha IH]. split.
    + cbn [contains_char]. rewrite Ha. apply Ascii.eqb_neq in Hc. by rewrite Hc.
    + destruct IH as [[-> ?]|Hu]; [by left|]. right. change (String c a +:+ ?x) with (String c (a +:+ x)). by rewrite <- Hu.
Qed.

Lemma strip_frag p h : contains_char "#" p = false -> stripHash (p +:+ String "#" h) = p /\ getHash (p +:+ String "#" h) = h.
Proof. intros Hp. unfold stripHash, getHash. by rewrite break_lacks. Qed.

Lemma strip_none_frag p : contains_char "#" p = false -> stripHash p = p /\ getHash p = "".
Proof.
  intros Hp. pose proof (break_at_app (fun c => Ascii.eqb c "#") p "") as H. simpl in H. rewrite !string_app_nil_r in H.
  unfold stripHash, getHash. rewrite H by by apply all_chars_lacks. done.
Qed.

Lemma prefix_hash pat x y : contains_char "#" pat = false -> prefix_of false pat (x +:+ String "#" y) = prefix_of false pat x.
Proof.
  revert x. induction pat as [|a pat IH]; intros x; cbn [contains_char]; [by destruct x|]. intros [Ha Hp]%orb_false_iff.
  destruct x as [|b x]; [change ("" +:+ ?z) with z; cbn [prefix_of]; by rewrite Ha|]. change (String b x +:+ ?z) with (String b (x +:+ z)). cbn [prefix_of]. by rewrite IH.
Qed.

Lemma plain_hash u : plain u <-> plain (u +:+ "#").
Proof.
  unfold plain. rewrite all_chars_app. cbn [all_chars]. rewrite andb_true_r. assert (Hq : no_escaped_quote (u +:+ "#") = no_escaped_quote u).
  { induction u as [|c u IH]; [done|]. change (String c u +:+ "#") with (String c (u +:+ "#")). cbn [no_escaped_quote]. rewrite IH. do 2 f_equal.
    change (String c (u +:+ "#")) with (String c u +:+ String "#" ""). by apply prefix_hash. }
  by rewrite Hq.
Qed.

Lemma plain_same u v : plain u -> same_url u v -> plain v.
Proof.
  intros Hu [Hs Hh]. destruct (url_form u) as [_ Fu], (url_form v) as [_ Fv]. rewrite <- Hs, <- Hh in Fv.
  destruct Fu as [[Fu Gu]|Fu], Fv as [[Fv Gv]|Fv].
  - by rewrite Fv, <- Fu.
  - rewrite Gu in Fv. rewrite Fv. apply (plain_hash (stripHash u)). by rewrite <- Fu.
  - rewrite Gv in Fu. rewrite Fv. apply plain_hash. by rewrite Fu in Hu.
  - by rewrite Fv, <- Fu.
Qed.

Lemma plain_clean u : plain u -> replace_all false "%27" "'" u = u.
Proof.
  intros [_ Hq]. unfold replace_all. induction u as [|c u IH]; [done|]. cbn [no_escaped_quote] in Hq. apply andb_true_iff in Hq as [Hc Hq].
  apply negb_true_iff in Hc. cbn [replace_from]. by rewrite Hc, IH.
Qed.

Lemma trim_spec u : plain u -> trimEmptyHash u = stripHash u +:+ (if String.eqb (getHash u) "" then "" else String "#" (getHash u)).
Proof.
  intros [Hp _]. unfold stripHash, getHash. induction u as [|c u IH]; [done|]. cbn [all_chars] in Hp. apply andb_true_iff in Hp as [Hc Hp].
  cbn [trimEmptyHash break_at]. destruct (Ascii.eqb_spec c "#") as [->|Hne].
  - cbn [fst snd drop_first]. simpl. destruct (String.eqb_spec u "") as [->|]; [done|].
    assert (Hl : at_line_end u = false); [|by rewrite Hl]. destruct u as [|d u]; [done|]. cbn [all_chars] in Hp. apply andb_true_iff in Hp as [Hd _].
    unfold plain_char in Hd. apply negb_true_iff in Hd. apply orb_false_iff in Hd as [Hd1 Hd2]. cbn [at_line_end]. by rewrite Hd1, Hd2.
  - rewrite IH by done. destruct (break_at (fun c => Ascii.eqb c "#") u) as [a b]. done.
Qed.

Lemma trim_same u : plain u -> same_url (trimEmptyHash u) u.
Proof.
  intros Hp. rewrite trim_spec by done. destruct (url_form u) as [Hl _]. unfold same_url. destruct (String.eqb_spec (getHash u) "") as [->|Hne].
  - rewrite string_app_nil_r. by apply strip_none_frag.
  - by apply strip_frag.
Qed.

(** What the watch compares. *)
Lemma trim_eq u v : plain u -> plain v -> trimEmptyHash u = trimEmptyHash v <-> same_url u v.
Proof.
  intros Hu Hv. split.
  - intros He. rewrite <- (trim_same u Hu), <- (trim_same v Hv). by rewrite He.
  - intros [Hs Hh]. rewrite !trim_spec by done. by rewrite Hs, Hh.
Qed.

(** ** [$location] as an interface *)

Class LocationMode (L : Type) := {
  abs_url : L -> string;
  parse_url : string -> L -> L;
  canonical : string -> Prop;
  parse_canonical u l : canonical u -> same_url (abs_url (parse_url u l)) u /\ canonical (abs_url (parse_url u l));
  canonical_same u v : canonical u -> same_url u v -> canonical v;
  canonical_plain u : canonical u -> plain u
}.

(** ** The watch *)

Section Sync.
Context {L : Type} `{LocationMode L} (history_api : bool) (prevents : string -> string -> bool).

(** The functions given to [$evalAsync] by the listener and by the watch. *)
Inductive task := Incoming (newUrl : string) | Outgoing (oldUrl : string) (replace : bool).

Inductive mark := ChangeStart (newUrl oldUrl : string) | ChangeSuccess (newUrl oldUrl : string).

Record st := St {
  bar : browser;
  loc : L;
  replacing : bool;          (** [$location.$$replace] *)
  changeCounter : nat;
  seen : option nat;         (** the watch's last value *)
  queue : list task;
  log : list mark
}.

Definition mark_log (m : mark) (s : st) : st := St (bar s) (loc s) (replacing s) (changeCounter s) (seen s) (queue s) (log s ++ [m]).
Definition set_loc (l : L) (s : st) : st := St (bar s) l (replacing s) (changeCounter s) (seen s) (queue s) (log s).
Definition set_bar (b : browser) (s : st) : st := St b (loc s) (replacing s) (changeCounter s) (seen s) (queue s) (log s).
Definition set_queue (q : list task) (s : st) : st := St (bar s) (loc s) (replacing s) (changeCounter s) (seen s) q (log s).

Definition run_task (t : task) (s : st) : st :=
  match t with
  | Incoming newUrl =>
      let oldUrl := abs_url (loc s) in
      let s := mark_log (ChangeStart newUrl oldUrl) (set_loc (parse_url newUrl (loc s)) s) in
      if prevents newUrl oldUrl
      then let s := set_loc (parse_url oldUrl (loc s)) s in set_bar (set_url history_api oldUrl false (bar s)) s
      else mark_log (ChangeSuccess (abs_url (loc s)) oldUrl) s
  | Outgoing oldUrl replace =>
      let newUrl := abs_url (loc s) in
      let s := mark_log (ChangeStart newUrl oldUrl) s in
      if prevents newUrl oldUrl then set_loc (parse_url oldUrl (loc s)) s
      else mark_log (ChangeSuccess newUrl oldUrl) (set_bar (set_url history_api newUrl replace (bar s)) s)
  end.

Definition drain (s : st) : st := fold_left (fun s t => run_task t s) (queue s) (set_queue [] s).

(** [$locationWatch] *)
Definition locationWatch (s : st) : st :=
  let oldUrl := trimEmptyHash (get_url (bar s)) in
  let newUrl := trimEmptyHash (abs_url (loc s)) in
  if (changeCounter s =? 0)%nat || negb (String.eqb oldUrl newUrl)
  then St (bar s) (loc s) false (S (changeCounter s)) (seen s) (queue s ++ [Outgoing oldUrl (replacing s)]) (log s)
  else St (bar s) (loc s) false (changeCounter s) (seen s) (queue s) (log s).

(** The listener of [onUrlChange] while a digest runs. *)
Definition checkUrlChange (s : st) : st :=
  match fireUrlChange (bar s) with
  | (None, b) => set_bar b s
  | (Some newUrl, b) =>
      let s := set_bar b s in
      if String.eqb (abs_url (loc s)) newUrl then s else set_queue (queue s ++ [Incoming newUrl]) s
  end.

(** The loop of [$digest]; [None] is the error [infdig]. *)
Fixpoint digest_loop (ttl : nat) (s : st) : option st :=
  match ttl with
  | O => None
  | S ttl =>
      let s := locationWatch (drain s) in
      let dirty := negb (bool_decide (seen s = Some (changeCounter s))) in
      let s := St (bar s) (loc s) (replacing s) (changeCounter s) (Some (changeCounter s)) (queue s) (log s) in
      if dirty || negb (length (queue s) =? 0)%nat then digest_loop ttl s else Some s
  end.

Definition digest (s : st) : option st := digest_loop 11 (checkUrlChange s).

(** The user goes to a URL, and the browser tells. *)
Definition user_goes (url : string) (s : st) : st := set_bar (goto url false (bar s)) s.

(** An event of the browser, outside a digest. *)
Definition url_event (s : st) : option st :=
  let s' := checkUrlChange s in
  if (length (queue s') =? length (queue s))%nat then Some s' else digest s'.

(** *** The bar after a change *)

Hypothesis modern : history_api = true.

(** The bar when the browser has told of its changes. *)
Record told (b : browser) : Prop := Told {
  t_reload : reloadLocation b = None;
  t_href : canonical (href b);
  t_last : same_url (href b) (lastBrowserUrl b)
}.

Lemma told_url b : told b -> get_url b = href b.
Proof. intros [Hr Hc _]. unfold get_url. rewrite Hr. by apply plain_clean, canonical_plain. Qed.

Lemma set_url_spec u r b : told b -> canonical u -> told (set_url history_api u r b) /\ same_url (href (set_url history_api u r b)) u.
Proof.
  intros [Hr Hc Hl] Hu. unfold set_url. rewrite modern, andb_true_r. destruct (String.eqb_spec (lastBrowserUrl b) u) as [<-|Hne]; [done|].
  destruct (negb (negb (lastBrowserUrl b =? "")%string && _)) eqn:Hsame; [by split; [split|]|].
  apply negb_false_iff in Hsame. rewrite Hsame. apply andb_true_iff in Hsame as [_ Hs%String.eqb_eq].
  destruct r; [by split; [split|]|]. unfold set_fragment. cbn [href reloadLocation].
  assert (Hurl : same_url (stripHash (href b) +:+ String "#" (getHash u)) u).
  { destruct (url_form (href b)) as [Hlack _], Hl as [Hl1 _]. unfold same_url. destruct (strip_frag (stripHash (href b)) (getHash u) Hlack) as [-> ->].
    split; [congruence|done]. }
  change ("#" +:+ getHash u) with (String "#" (getHash u)).
  destruct (String.eqb_spec (stripHash (href b) +:+ String "#" (getHash u)) (href b)) as [He|He]; cbn [goto href reloadLocation lastBrowserUrl].
  - rewrite He in Hurl. by split; [split|].
  - split; [|done]. split; [done| |done]. eapply canonical_same; [exact Hu|by symmetry].
Qed.

(** *** The invariant of a digest *)

Definition task_ok (t : task) : Prop := match t with Incoming u => canonical u | Outgoing u _ => canonical u end.

Record ready (s : st) : Prop := Ready {
  r_bar : told (bar s);
  r_loc : canonical (abs_url (loc s));
  r_queue : Forall task_ok (queue s)
}.

Lemma ready_mark m s : ready s -> ready (mark_log m s).
Proof. by intros [? ? ?]. Qed.

Lemma ready_loc u s : ready s -> canonical u -> ready (set_loc (parse_url u (loc s)) s).
Proof. intros [? ? ?] Hu. split; [done| |done]. by apply parse_canonical. Qed.

Lemma ready_bar u r s : ready s -> canonical u -> ready (set_bar (set_url history_api u r (bar s)) s).
Proof. intros [? ? ?] Hu. split; [|done|done]. by apply set_url_spec. Qed.

Lemma ready_task t s : ready s -> task_ok t -> ready (run_task t s) /\ queue (run_task t s) = queue s /\ changeCounter (run_task t s) = changeCounter s /\ seen (run_task t s) = seen s.
Proof.
  intros Hs Ht. destruct t as [newUrl|oldUrl r]; simpl in Ht |- *.
  - destruct (prevents newUrl (abs_url (loc s))); (split; [|done]).
    + pose proof (r_loc _ Hs) as Ha. pose proof (ready_mark (ChangeStart newUrl (abs_url (loc s))) _ (ready_loc newUrl s Hs Ht)) as H1.
      exact (ready_bar _ false _ (ready_loc _ _ H1 Ha) Ha).
    + by apply ready_mark, ready_mark, ready_loc.
  - pose proof (ready_mark (ChangeStart (abs_url (loc s)) oldUrl) s Hs) as H1.
    destruct (prevents (abs_url (loc s)) oldUrl); (split; [|done]).
    + exact (ready_loc _ _ H1 Ht).
    + exact (ready_mark _ _ (ready_bar _ r _ H1 (r_loc _ Hs))).
Qed.

Lemma ready_drain s : ready s -> ready (drain s) /\ queue (drain s) = [] /\ changeCounter (drain s) = changeCounter s /\ seen (drain s) = seen s.
Proof.
  intros Hs. unfold drain. pose proof (r_queue _ Hs) as Hq. assert (H0 : ready (set_queue [] s)) by (destruct Hs; by split).
  assert (Hgen : forall l s0, ready s0 -> queue s0 = [] -> Forall task_ok l ->
    let s1 := fold_left (fun s t => run_task t s) l s0 in ready s1 /\ queue s1 = [] /\ changeCounter s1 = changeCounter s0 /\ seen s1 = seen s0).
  { induction l as [|t l IH]; intros s0 Hs0 Hq0 Hl; [done|]. apply Forall_cons in Hl as [Ht Hl]. cbn [fold_left].
    destruct (ready_task t s0 Hs0 Ht) as (Hr & Hqr & Hc & He). destruct (IH (run_task t s0)) as (? & ? & ? & ?); [done|congruence|done|].
    split_and!; congruence || done. }
  exact (Hgen (queue s) (set_queue [] s) H0 eq_refl Hq).
Qed.

(** The two agree. *)
Definition in_sync (s : st) : Prop := same_url (get_url (bar s)) (abs_url (loc s)).

Lemma watch_agrees s : ready s -> trimEmptyHash (get_url (bar s)) = trimEmptyHash (abs_url (loc s)) <-> in_sync s.
Proof.
  intros Hs. unfold in_sync. rewrite (told_url _ (r_bar _ Hs)).
  apply trim_eq; apply canonical_plain; [apply (t_href _ (r_bar _ Hs))|apply (r_loc _ Hs)].
Qed.

Lemma outgoing_syncs r s : ready s -> in_sync (run_task (Outgoing (trimEmptyHash (get_url (bar s))) r) s).
Proof.
  intros Hs. pose proof (t_href _ (r_bar _ Hs)) as Hh. rewrite (told_url _ (r_bar _ Hs)). unfold run_task. set (old := trimEmptyHash (href (bar s))).
  assert (Hold : same_url old (href (bar s))) by by apply trim_same, canonical_plain.
  destruct (prevents (abs_url (loc s)) old); unfold in_sync; cbn [mark_log set_loc set_bar bar loc].
  - rewrite (told_url _ (r_bar _ Hs)). destruct (parse_canonical old (loc s)) as [Hp _]; [by eapply canonical_same|]. by rewrite Hp, Hold.
  - destruct (set_url_spec (abs_url (loc s)) r (bar s) (r_bar _ Hs) (r_loc _ Hs)) as [Ht He]. by rewrite (told_url _ Ht).
Qed.

(** Once the watch has run and the two agree, one more round ends the digest. *)
Lemma settled_round ttl s : ready s -> queue s = [] -> in_sync s -> changeCounter s <> 0%nat -> seen s = Some (changeCounter s) ->
  digest_loop (S ttl) s = Some (St (bar s) (loc s) false (changeCounter s) (seen s) [] (log s)).
Proof.
  intros Hs Hq Hsync Hc Hseen. cbn [digest_loop]. unfold drain. rewrite Hq. cbn [fold_left]. unfold locationWatch. cbn [set_queue bar loc changeCounter seen queue log].
  apply (watch_agrees s Hs) in Hsync. rewrite Hsync, String.eqb_refl. apply Nat.eqb_neq in Hc. rewrite Hc. cbn [negb orb bar loc changeCounter seen queue log replacing].
  rewrite bool_decide_true by done. simpl. by rewrite Hseen.
Qed.

(** A round from a state whose queue has been drained. *)
Definition counted (s : st) : st := St (bar s) (loc s) (replacing s) (changeCounter s) (Some (changeCounter s)) (queue s) (log s).

(** What holds when a digest has ended. *)
Record ended (s : st) : Prop := Ended {
  e_ready : ready s;
  e_sync : in_sync s;
  e_queue : queue s = [];
  e_counter : changeCounter s <> 0%nat;
  e_seen : seen s = Some (changeCounter s)
}.

Lemma ended_settled ttl s : ended s -> exists s', digest_loop (S ttl) s = Some s' /\ ended s' /\ bar s' = bar s /\ loc s' = loc s.
Proof.
  intros [Hr Hs Hq Hc He]. rewrite settled_round by done. eexists. split; [done|]. destruct Hr. split; [|done]. by split; [split|..].
Qed.

(** The watch finds a difference: one task more, and the digest ends with what
    it does. *)
Lemma pushed_round ttl s : ready s -> queue s = [] ->
  (changeCounter s =? 0)%nat || negb (String.eqb (trimEmptyHash (get_url (bar s))) (trimEmptyHash (abs_url (loc s)))) = true ->
  let s1 := run_task (Outgoing (trimEmptyHash (get_url (bar s))) (replacing s)) s in
  exists s', digest_loop (S (S ttl)) s = Some s' /\ ended s' /\ bar s' = bar s1 /\ loc s' = loc s1.
Proof.
  intros Hs Hq Hw. set (t := Outgoing _ _). cbn zeta. set (s0 := St (bar s) (loc s) false (S (changeCounter s)) (Some (S (changeCounter s))) [] (log s)).
  assert (H0 : ready s0) by (destruct Hs; by split).
  assert (Ht : task_ok t).
  { simpl. pose proof (t_href _ (r_bar _ Hs)) as Hh. rewrite (told_url _ (r_bar _ Hs)). eapply canonical_same; [exact Hh|].
    symmetry. by apply trim_same, canonical_plain. }
  destruct (ready_task t s0 H0 Ht) as (Hr & Hq1 & Hc1 & Hs1). pose proof (outgoing_syncs (replacing s) s0 H0) as Hsync.
  change (Outgoing (trimEmptyHash (get_url (bar s0))) (replacing s)) with t in Hsync.
  assert (He : ended (run_task t s0)) by (split; [done|done|by rewrite Hq1|by rewrite Hc1|by rewrite Hs1, Hc1]).
  destruct (ended_settled ttl _ He) as (s' & Hd & He' & Hb & Hl). exists s'. split; [|split; [done|]].
  - assert (Hdrain : drain s = s) by (unfold drain; rewrite Hq; destruct s; simpl in *; by subst).
    assert (Hdrain1 : forall b : bool, drain (St (bar s) (loc s) false (S (changeCounter s)) (Some (S (changeCounter s))) [t] (log s)) = run_task t s0) by done.
    assert (Hwatch : locationWatch s = St (bar s) (loc s) false (S (changeCounter s)) (seen s) [t] (log s)) by (unfold locationWatch; by rewrite Hw, Hq).
    cbn [digest_loop] in Hd |- *. rewrite Hdrain, Hwatch. cbn [bar loc replacing changeCounter seen queue log length Nat.eqb negb].
    rewrite orb_true_r. rewrite (Hdrain1 true).
    assert (Hdrain2 : drain (run_task t s0) = run_task t s0) by (unfold drain; rewrite Hq1; cbn [queue s0 fold_left]; destruct (run_task t s0); simpl in *; by subst).
    by rewrite Hdrain2 in Hd.
  - rewrite Hb, Hl. unfold t, run_task. cbn [s0 bar loc]. by destruct (prevents _ _).
Qed.

Lemma digest_syncs ttl s : ready s -> exists s', digest_loop (S (S ttl)) s = Some s' /\ ended s' /\
  (trimEmptyHash (get_url (bar (drain s))) = trimEmptyHash (abs_url (loc (drain s))) -> changeCounter s <> 0%nat -> bar s' = bar (drain s) /\ loc s' = loc (drain s)).
Proof.
  intros Hs. destruct (ready_drain s Hs) as (Hd & Hq & Hc & Hse). assert (Hloop : forall n, digest_loop (S n) s = digest_loop (S n) (drain s)).
  { intros n. cbn [digest_loop]. assert (Hdd : drain (drain s) = drain s) by (unfold drain at 1; rewrite Hq; destruct (drain s); simpl in *; by subst). by rewrite Hdd. }
  rewrite Hloop. rewrite <- Hc. clear Hloop Hc Hse Hs. rename s into before. generalize dependent (drain before). clear before. intros s Hs Hq.
  destruct ((changeCounter s =? 0)%nat || negb (String.eqb (trimEmptyHash (get_url (bar s))) (trimEmptyHash (abs_url (loc s))))) eqn:Hw.
  - destruct (pushed_round ttl s Hs Hq Hw) as (s' & Hl & He & _). exists s'. split; [done|]. split; [done|]. intros Heq Hne.
    rewrite Heq, String.eqb_refl in Hw. apply Nat.eqb_neq in Hne. by rewrite Hne in Hw.
  - assert (Hw' := Hw). apply orb_false_iff in Hw as [Hc%Nat.eqb_neq Hw]. apply negb_false_iff, String.eqb_eq in Hw. apply (watch_agrees s Hs) in Hw.
    set (s1 := St (bar s) (loc s) false (changeCounter s) (Some (changeCounter s)) [] (log s)).
    assert (H1 : ended s1) by (destruct Hs; by split; [split|..]).
    assert (Hdrain : drain s = s) by (unfold drain; rewrite Hq; destruct s; simpl in *; by subst).
    assert (Hcase : digest_loop (S (S ttl)) s = Some s1 \/ digest_loop (S (S ttl)) s = digest_loop (S ttl) s1).
    { assert (Hwatch : locationWatch s = St (bar s) (loc s) false (changeCounter s) (seen s) [] (log s)) by (unfold locationWatch; by rewrite Hw', Hq).
      cbn [digest_loop]. rewrite Hdrain, Hwatch. cbn [bar loc replacing changeCounter seen queue log].
      match goal with |- context [if ?b then _ else _] => destruct b end; [by right|by left]. }
    destruct Hcase as [-> | ->]; [by exists s1|]. destruct (ended_settled ttl s1 H1) as (s' & Hl & He & Hb & Hlo). exists s'. split; [done|]. split; [done|]. done.
Qed.

(** *** Histories *)

#[local] Strategy 1000 [digest_loop digest url_event].


Definition app_set (l : L) (replace : bool) (s : st) : st := St (bar s) l replace (changeCounter s) (seen s) (queue s) (log s).





Record pre (s : st) : Prop := Pre {
  p_reload : reloadLocation (bar s) = None;
  p_href : canonical (href (bar s));
  p_loc : canonical (abs_url (loc s));
  p_queue : Forall task_ok (queue s)
}.


Lemma pre_url s : pre s -> get_url (bar s) = href (bar s).
Proof. intros [Hr Hh _ _]. unfold get_url. rewrite Hr. by apply plain_clean, canonical_plain. Qed.

Lemma check_ready s : pre s -> ready (checkUrlChange s).
Proof.
  intros Hp. pose proof Hp as [Hr Hh Hl Hq]. unfold checkUrlChange, fireUrlChange. rewrite (pre_url s Hp).
  destruct (String.eqb_spec (lastBrowserUrl (bar s)) (href (bar s))) as [He|Hne].
  - split; [|done|done]. split; [done|done|]. cbn [set_bar bar]. by rewrite He.
  - cbn [set_bar loc queue]. destruct (String.eqb (abs_url (loc s)) (href (bar s))); (split; [by split|done|]); [done|].
    cbn [set_queue queue]. apply Forall_app. split; [done|]. by constructor.
Qed.


Lemma url_event_eq s :
  url_event s = if (length (queue (checkUrlChange s)) =? length (queue s))%nat then Some (checkUrlChange s) else digest (checkUrlChange s).
Proof. reflexivity. Qed.



(** *** Who wins *)

(** A digest has ended, and the browser has told of every change. *)
Definition quiet (s : st) : Prop := ended s /\ lastBrowserUrl (bar s) = href (bar s).

Lemma app_wins l r s : quiet s -> canonical (abs_url l) -> ~ same_url (href (bar s)) (abs_url l) ->
  let oldUrl := trimEmptyHash (href (bar s)) in
  exists s', digest (app_set l r s) = Some s' /\
    if prevents (abs_url l) oldUrl then bar s' = bar s /\ loc s' = parse_url oldUrl l
    else loc s' = l /\ same_url (href (bar s')) (abs_url l).
Proof.
  intros [[[Hb Hl Hq] Hsync Hq0 Hc Hse] Hlast] Hcan Hdiff. cbn zeta. unfold digest, checkUrlChange, fireUrlChange.
  cbn [app_set bar loc queue]. rewrite (told_url _ Hb), Hlast, String.eqb_refl. set (s1 := set_bar _ _).
  assert (H1 : ready s1) by (by split).
  assert (Hw : (changeCounter s1 =? 0)%nat || negb (String.eqb (trimEmptyHash (get_url (bar s1))) (trimEmptyHash (abs_url (loc s1)))) = true).
  { apply orb_true_iff. right. apply negb_true_iff, String.eqb_neq. intros He. apply (watch_agrees s1 H1) in He. unfold in_sync in He.
    rewrite (told_url _ (r_bar _ H1)) in He. by apply Hdiff. }
  destruct (pushed_round 9 s1 H1 Hq0 Hw) as (s' & Hd & He & Hb' & Hl'). exists s'. split; [done|].
  rewrite Hb', Hl', (told_url _ (r_bar _ H1)). unfold run_task. cbn [s1 set_bar app_set bar loc].
  destruct (prevents (abs_url l) _); [done|]. split; [done|]. cbn [mark_log set_bar bar]. by apply set_url_spec.
Qed.

Lemma user_wins url s : quiet s -> canonical url -> ~ same_url (href (bar s)) url ->
  exists s', url_event (user_goes url s) = Some s' /\
    if prevents url (abs_url (loc s)) then same_url (abs_url (loc s')) (abs_url (loc s)) /\ same_url (href (bar s')) (abs_url (loc s))
    else same_url (abs_url (loc s')) url /\ href (bar s') = url.
Proof.
  intros [[[Hb Hl Hq] Hsync Hq0 Hc Hse] Hlast] Hcan Hdiff. rewrite url_event_eq. set (s0 := user_goes url s).
  assert (Hp : pre s0) by (destruct Hb; by split). assert (Hu : get_url (bar s0) = url) by apply (pre_url s0 Hp).
  assert (Hneq : String.eqb (abs_url (loc s)) url = false).
  { apply String.eqb_neq. intros <-. apply Hdiff. unfold in_sync in Hsync. by rewrite (told_url _ Hb) in Hsync. }
  set (s1 := set_queue [Incoming url] (set_bar (Browser url (entries (bar s0)) url None) s)).
  assert (Hcheck : checkUrlChange s0 = s1).
  { unfold checkUrlChange, fireUrlChange. rewrite Hu. destruct (String.eqb_spec (lastBrowserUrl (bar s0)) url) as [He|_].
    - exfalso. apply Hdiff. simpl in He. by rewrite <- He, Hlast.
    - unfold s0, user_goes. cbn [set_bar loc goto bar queue href entries lastBrowserUrl reloadLocation set_queue]. rewrite Hneq, Hq0.
      unfold s1, s0, user_goes, set_queue, set_bar. cbn. by rewrite (t_reload _ Hb). }
  rewrite Hcheck. replace (queue s0) with (@nil task) by (symmetry; exact Hq0). cbn [s1 set_queue queue length Nat.eqb]. fold s1.
  assert (H1 : ready s1) by (rewrite <- Hcheck; by apply check_ready).
  assert (Hcheck1 : checkUrlChange s1 = s1).
  { unfold checkUrlChange, fireUrlChange. rewrite (told_url _ (r_bar _ H1)). cbn. by rewrite String.eqb_refl. }
  destruct (digest_syncs 9 s1 H1) as (s' & Hd & He & Heq). exists s'. unfold digest. rewrite Hcheck1. split; [done|].
  destruct (ready_drain s1 H1) as (Hrd & _). assert (Hds : drain s1 = run_task (Incoming url) (set_queue [] s1)) by done.
  assert (Hres : in_sync (drain s1) /\ (if prevents url (abs_url (loc s)) then same_url (abs_url (loc (drain s1))) (abs_url (loc s)) else
    same_url (abs_url (loc (drain s1))) url /\ bar (drain s1) = bar s1)).
  { rewrite Hds in Hrd |- *. unfold in_sync. rewrite (told_url _ (r_bar _ Hrd)). unfold run_task. cbn [s1 set_queue set_bar bar loc mark_log set_loc].
    destruct (prevents url (abs_url (loc s))); cbn [bar loc mark_log set_loc set_bar].
    - destruct (parse_canonical (abs_url (loc s)) (parse_url url (loc s)) Hl) as [Hpa _].
      destruct (set_url_spec (abs_url (loc s)) false (Browser url (entries (bar s0)) url None)) as [_ Hsu]; [by split|done|]. split; [|done].
      by rewrite Hsu, Hpa.
    - destruct (parse_canonical url (loc s) Hcan) as [Hpa _]. split; [|done]. by rewrite Hpa. }
  destruct Hres as [Hs Hres]. apply (watch_agrees _ Hrd) in Hs as Htrim. destruct (Heq Htrim Hc) as [-> ->].
  unfold in_sync in Hs. rewrite (told_url _ (r_bar _ Hrd)) in Hs. destruct (prevents url (abs_url (loc s))).
  - split; [done|]. by rewrite Hs.
  - destruct Hres as [? ->]. done.
Qed.
End Sync.

(** ** The HTML5 mode of NgUrl *)

Section Html5.
Context (node : string -> anchor) (norm : string -> string) (msie : bool) (base : string).
Hypothesis keeps : browser_keeps (fun s => node (if msie : bool then norm s else s)).
(** The browser reads a lone [#] at the end as an empty fragment. *)
Hypothesis lone_hash : forall s, contains_char "#" s = false ->
  let v := node (if msie then norm s else s) in
  let v' := node (if msie then norm (s +:+ "#") else s +:+ "#") in
  a_pathname v' = a_pathname v /\ a_search v' = a_search v /\ drop_first "#" (a_hash v') = drop_first "#" (a_hash v).
Hypothesis base_plain : contains_char "#" (stripFile base) = false.

(** What composing a regular state writes. *)
Definition html5_abs (l : location) : string := abs_text base l.

Definition html5_canonical (u : string) : Prop := plain u /\ exists l, regular l /\ same_url u (html5_abs l).

Lemma parse_lone_hash s l : contains_char "#" s = false -> parseAppUrl node norm msie (s +:+ "#") l = parseAppUrl node norm msie s l.
Proof.
  intros Hs. unfold parseAppUrl. assert (Hc : charAt0 "/" (s +:+ "#") = charAt0 "/" s) by by destruct s. rewrite Hc. cbn zeta.
  assert (Hgen : forall t, contains_char "#" t = false ->
    pathname (urlResolve node norm msie (t +:+ "#")) = pathname (urlResolve node norm msie t) /\
    search (urlResolve node norm msie (t +:+ "#")) = search (urlResolve node norm msie t) /\
    hash (urlResolve node norm msie (t +:+ "#")) = hash (urlResolve node norm msie t)).
  { intros t Ht. destruct (lone_hash t Ht) as (Hp & Hq & Hh). unfold urlResolve. cbn [pathname search hash]. by rewrite Hp, Hq, Hh. }
  destruct (negb (charAt0 "/" s)).
  - change ("/" +:+ s +:+ "#") with (("/" +:+ s) +:+ "#"). destruct (Hgen ("/" +:+ s) Hs) as (-> & -> & ->). done.
  - destruct (Hgen s Hs) as (-> & -> & ->). done.
Qed.

(** The composed URL without its fragment. *)
Lemma composed_form l : regular l -> exists p, contains_char "#" p = false /\ html5_abs l = stripFile base +:+ p +:+ hash_part l.
Proof.
  intros Hl. unfold html5_abs, abs_text.
  change (url_text l) with (encodePath (l_path l) +:+ query_part l +:+ hash_part l). destruct (reg_path _ Hl) as (pr & -> & _).
  rewrite encodePath_enc. cbn [enc]. exists (enc path_tok pr +:+ query_part l).
  assert (Hq : contains_char "#" (query_part l) = false).
  { unfold query_part. destruct (String.eqb _ _); [done|]. change (contains_char "#" (String "?" (print_params (l_search l))) = false).
    cbn [contains_char]. by rewrite print_lacks. }
  split; [by rewrite contains_char_app, path_tok_lacks, Hq|].
  change (path_tok "/" +:+ enc path_tok pr) with (String "/" (enc path_tok pr)).
  change (String "/" (enc path_tok pr) +:+ ?x) with (String "/" (enc path_tok pr +:+ x)). rewrite substring_tail.
  by rewrite (string_app_assoc (enc path_tok pr)).
Qed.

Lemma canonical_form u l : regular l -> same_url u (html5_abs l) -> u = html5_abs l \/ contains_char "#" (html5_abs l) = false /\ u = html5_abs l +:+ "#".
Proof.
  intros Hl [Hs Hh]. destruct (composed_form l Hl) as (p & Hp & Ha). assert (Hx : contains_char "#" (stripFile base +:+ p) = false) by (by rewrite contains_char_app, base_plain, Hp).
  destruct (url_form u) as [_ Hu]. unfold hash_part in Ha. destruct (String.eqb_spec (l_hash l) "") as [_|Hne].
  - rewrite string_app_nil_r in Ha. rewrite Ha in Hs, Hh |- *. destruct (strip_none_frag _ Hx) as [Hs1 Hh1]. rewrite Hs1 in Hs. rewrite Hh1 in Hh.
    destruct Hu as [[Hu _]|Hu]; [left; by rewrite Hu|right]. split; [done|]. by rewrite Hu, Hs, Hh.
  - rewrite string_app_assoc in Ha. change ("#" +:+ ?x) with (String "#" x) in Ha. rewrite Ha in Hs, Hh |- *.
    destruct (strip_frag _ (encodeUriSegment (l_hash l)) Hx) as [Hs1 Hh1]. rewrite Hs1 in Hs. rewrite Hh1 in Hh. left.
    destruct Hu as [[_ Hu]|Hu]; [|by rewrite Hu, Hs, Hh]. exfalso. rewrite Hh, encodeUriSegment_enc in Hu. apply Hne.
    assert (Hg : good_tok segment_tok).
    { intros c. destruct (segment_tok_faithful c) as [?|[? ?]]; [by left|right]. by exists c. }
    by apply (enc_empty segment_tok).
Qed.

Lemma html5_parse u l : html5_canonical u ->
  same_url (l_absUrl (parse_html5 node norm msie base u l).1) u /\ html5_canonical (l_absUrl (parse_html5 node norm msie base u l).1).
Proof.
  intros [Hp (lc & Hlc & Hsame)]. destruct (parse_composed node norm msie base lc l keeps Hlc) as (l' & Hparse & _ & _ & _ & Habs).
  change (abs_text base lc) with (html5_abs lc) in Hparse, Habs. assert (Hu : (parse_html5 node norm msie base u l).1 = l').
  { destruct (canonical_form u lc Hlc Hsame) as [->|[Hl ->]]; [by rewrite Hparse|]. destruct (composed_form lc Hlc) as (p & _ & Ha).
    rewrite Ha in Hl, Hparse |- *. rewrite <- (string_app_assoc (stripFile base)). unfold parse_html5 in *. rewrite beginsWith_app in Hparse |- *.
    rewrite parse_lone_hash by (rewrite contains_char_app in Hl; by apply orb_false_iff in Hl as [_ ?]). by rewrite Hparse. }
  rewrite Hu, Habs. split; [by symmetry|]. split; [by eapply plain_same|]. by exists lc.
Qed.

#[local] Instance html5_mode : LocationMode location.
Proof.
  refine {| abs_url := l_absUrl; parse_url := fun u l => (parse_html5 node norm msie base u l).1; canonical := html5_canonical |}.
  - apply html5_parse.
  - intros u v [Hp (l & Hl & Hs)] Hv. split; [by eapply plain_same|]. exists l. split; [done|]. by rewrite <- Hv.
  - by intros u [? _].
Defined.
End Html5.


(** A change has one outcome: when a digest has ended and the browser has
    told of every change, a new location goes to the address bar, unless a
    listener of [$locationChangeStart] prevents it, and then the bar is left as
    it is and [$location] follows it back; where the user goes is parsed, unless
    that is prevented, and then the bar is set back to where [$location] is. *)
Theorem location_outcome {L} `{LocationMode L} prevents (s : st) (Hs : quiet s) :
  (forall l r, canonical (abs_url l) -> ~ same_url (href (bar s)) (abs_url l) ->
     exists s', digest true prevents (app_set l r s) = Some s' /\
       if prevents (abs_url l) (trimEmptyHash (href (bar s)))
       then bar s' = bar s /\ loc s' = parse_url (trimEmptyHash (href (bar s))) l
       else loc s' = l /\ same_url (href (bar s')) (abs_url l)) /\
  (forall url, canonical url -> ~ same_url (href (bar s)) url ->
     exists s', url_event true prevents (user_goes url s) = Some s' /\
       if prevents url (abs_url (loc s))
       then same_url (abs_url (loc s')) (abs_url (loc s)) /\ same_url (href (bar s')) (abs_url (loc s))
       else same_url (abs_url (loc s')) url /\ href (bar s') = url).
Proof.
  split.
  - intros l r Hc Hd. by apply (app_wins true prevents eq_refl).
  - intros url Hc Hd. by apply (user_wins true prevents eq_refl).
Qed.

(** ** Instances *)

Lemma plain_view_lone s : contains_char "#" s = false ->
  a_pathname (plain_view (s +:+ "#")) = a_pathname (plain_view s) /\ a_search (plain_view (s +:+ "#")) = a_search (plain_view s) /\
  drop_first "#" (a_hash (plain_view (s +:+ "#"))) = drop_first "#" (a_hash (plain_view s)).
Proof.
  intros Hs. unfold plain_view. rewrite (break_lacks s "" Hs). pose proof (strip_none_frag s Hs) as [H1 H2]. unfold stripHash, getHash in *.
  destruct (break_at (fun c => Ascii.eqb c "#") s) as [a b]. simpl in H1, H2. subst a. destruct (break_at (fun c => Ascii.eqb c "?") s) as [p q].
  cbn [a_pathname a_search a_hash]. by rewrite H2.
Qed.

Definition app_base : string := "http://host/app/index.html".

#[local] Instance sample_mode : LocationMode location :=
  html5_mode plain_view id false app_base plain_view_keeps plain_view_lone eq_refl.

Definition place (path hash : string) : location := (compose_html5 app_base (Loc "http" "host" (Some 80) path [] hash "" "" false)).1.

Lemma place_canonical path rest hash : path = String "/" rest -> charAt0 "/" rest = false ->
  forallb (fun s => negb (String.eqb s "." || String.eqb s "..")) (split_char "/" path) = true ->
  utf8 path = true -> utf8 hash = true -> all_chars plain_char (l_absUrl (place path hash)) && no_escaped_quote (l_absUrl (place path hash)) = true ->
  canonical (l_absUrl (place path hash)).
Proof.
  intros Hp Hr Hd H1 H2 [H3 H4]%andb_true_iff. split; [by split|]. exists (Loc "http" "host" (Some 80) path [] hash "" "" false). split; [|done].
  split; try done; simpl; [by exists rest| |constructor]. apply Forall_forall. intros s Hs. rewrite forallb_forall in Hd.
  specialize (Hd s). rewrite list_elem_of_In in Hs. specialize (Hd Hs). apply negb_true_iff, orb_false_iff in Hd as [Hd1%String.eqb_neq Hd2%String.eqb_neq]. done.
Qed.

Definition never (newUrl oldUrl : string) : bool := false.
Definition always (newUrl oldUrl : string) : bool := true.

Definition list_url : string := "http://host/app/list".

Lemma list_canonical : canonical list_url.
Proof. by apply (place_canonical "/list" "list" ""). Qed.


Definition settled : st := St (Browser list_url [] list_url None) (place "/list" "") false 1 (Some 1%nat) [] [ChangeStart list_url list_url; ChangeSuccess list_url list_url].

Lemma settled_quiet : quiet settled.
Proof.
  split; [|done]. split; try done. split; [|apply list_canonical|constructor]. split; [done|apply list_canonical|done].
Qed.

Lemma location_outcome_witness :
  (exists s', digest true always (app_set (place "/slot" "") false settled) = Some s' /\ href (bar s') = list_url /\ abs_url (loc s') = list_url) /\
  (exists s', url_event true never (user_goes "http://host/app/slot" settled) = Some s' /\ same_url (abs_url (loc s')) "http://host/app/slot").
Proof.
  assert (Hc : canonical "http://host/app/slot") by (by apply (place_canonical "/slot" "slot" "")).
  assert (Hd : ~ same_url list_url "http://host/app/slot") by (intros [Hx _]; vm_compute in Hx; discriminate Hx).
  split.
  - destruct (proj1 (location_outcome always settled settled_quiet) (place "/slot" "") false Hc Hd) as (s' & He & Hb & Hl).
    exists s'. split; [exact He|]. rewrite Hb, Hl. split; reflexivity.
  - destruct (proj2 (location_outcome never settled settled_quiet) "http://host/app/slot" Hc Hd) as (s' & He & Hl & _). by exists s'.
Defined.

(** The fragment is removed, which leaves a lone [#] in the bar; before the
    browser tells of it the application goes elsewhere: the next digest takes
    the lone [#] for a change by the user, and the application's change is lost. *)
Example change_lost :
  match digest true never (app_set (place "/list" "") false (St (Browser (list_url +:+ "#top") [] (list_url +:+ "#top") None) (place "/list" "top") false 1 (Some 1%nat) [] [])) with
  | Some s => match digest true never (app_set (place "/slot" "") false s) with
              | Some s' => href (bar s') = list_url +:+ "#" /\ abs_url (loc s') = list_url
              | None => False
              end
  | None => False
  end.
Proof. vm_compute. done. Qed.

(** Without the history API: the page is about to be loaded anew when only the
    fragment changes; [reloadLocation] keeps the first URL, and the digest never
    settles. *)
Example reload_pending :
  match digest false never (app_set (place "/slot" "") false settled) with
  | Some s => reloadLocation (bar s) = Some "http://host/app/slot" /\ digest false never (app_set (place "/slot" "top") false s) = None
  | None => False
  end.
Proof. vm_compute. done. Qed.
