(* ===== verification/NgDirective.v ===== *)
(** * NgDirective: which directives a node of a template asks for

    The names of [$compile] (angular.js 1473-1479, 2238-2254, 7175-7182), its
    registry of directives (5714-5749, 6815-6836, 6999-7004), and what
    [collectDirectives] (6195-6286) reads off an element, a text or a comment;
    the range of a directive that starts on one node and ends on another
    (6296-6319), and the classes an attribute exchanges (5887-5898, 7244-7259).

    An object is told apart from another by its fields: a directive keeps the
    name it was registered under and its place there. *)

From S2P Require Import Prelude Text Js NgCore NgInterpolate.

#[local] Set Warnings "-register-all".

(** ** Names *)

Module Names.
Import Basics.

(** [[\:\-\_]], and what [.] does not match. *)
Definition is_sep (c : ascii) : bool := Ascii.eqb c ":" || Ascii.eqb c "-" || Ascii.eqb c "_".
Definition line_end (c : ascii) : bool := Ascii.eqb c "010" || Ascii.eqb c "013".
(** [replace(SPECIAL_CHARS_REGEXP, ...)]: [run] is a run of separators being
    read, whether it is at offset 0, and its last character; when nothing can
    follow the run, that character is the letter, or stays. *)
Fixpoint camel (first : bool) (run : option (bool * ascii)) (s : string) : string :=
  match s, run with
  | EmptyString, None => ""
  | EmptyString, Some (_, sep) => String sep ""
  | String c s, None => if is_sep c then camel false (Some (first, c)) s else String c (camel false None s)
  | String c s, Some (offset0, sep) =>
      if is_sep c then camel false (Some (offset0, c)) s
      else if line_end c then String sep (String c (camel false None s))
      else String (if offset0 then c else upper_char c) (camel false None s)
  end.

(** [replace(MOZ_HACK_REGEXP, 'Moz$1')]. *)
Definition moz_hack (s : string) : string :=
  match strip "moz" s with
  | Some (String c s') => if is_upper c then "Moz" +:+ String c s' else s
  | _ => s
  end.

Definition camelCase (name : string) : string := moz_hack (camel true None name).

(** [replace(PREFIX_REGEXP, '')]. *)
Fixpoint strip_ci (pat s : string) : option string :=
  match pat, s with
  | EmptyString, _ => Some s
  | String a pat, String b s => if Ascii.eqb a (lower_char b) then strip_ci pat s else None
  | String _ _, EmptyString => None
  end.

Definition strip_prefix (p : string) (name : string) : option string :=
  match strip_ci p name with
  | Some (String c s) => if is_sep c then Some s else None
  | _ => None
  end.

Definition drop_prefix (name : string) : string :=
  match strip_prefix "x" name with
  | Some s => s
  | None => match strip_prefix "data" name with Some s => s | None => name end
  end.

Definition directiveNormalize (name : string) : string := camelCase (drop_prefix name).

(** [NG_ATTR_BINDING.test]. *)
Definition ng_attr_binding (s : string) : bool :=
  match strip "ngAttr" s with Some (String c _) => is_upper c | _ => false end.

(** [s.substr(0, s.length - n)], for [n <= s.length]. *)
Definition but_last (n : nat) (s : string) : string := String.substring 0 (String.length s - n) s.

Definition ends_with (suffix s : string) : bool :=
  (String.length suffix <=? String.length s)%nat &&
  String.eqb (String.substring (String.length s - String.length suffix) (String.length suffix) s) suffix.

(** What one attribute's name says: the name of its property, and of the
    attributes that start and end a range. *)
Record attr_name := AttrName {
  an_ngAttr : bool;
  an_name : string;
  an_nName : string;
  an_range : option (string * string)
}.

Definition read_name (name : string) : attr_name :=
  let ngAttrName := directiveNormalize name in
  let isNgAttr := ng_attr_binding ngAttrName in
  let name := if isNgAttr then snake_case (String.substring 6 (String.length ngAttrName - 6) ngAttrName) "-" else name in
  let starts := ends_with "Start" ngAttrName in
  let range := if starts then Some (name, but_last 5 name +:+ "end") else None in
  let name := if starts then but_last 6 name else name in
  AttrName isNgAttr name (directiveNormalize (lowercase name)) range.

End Names.

(** ** Directives and their registry *)

Section Registry.
Context {E I : Type}.

Inductive require_def := RNone | RStr (name : string) | RArr (names : list require_def).

(** [scope]: none, [true], an object, or another truthy value. *)
Inductive scope_def := NoScope | NewScope | IsolateScope (locals : list (string * string)) | OddScope.

Inductive controller_def := CName (name : string) | CFun (fn : nat).

(** A function that links: of the application, or the one of an interpolated
    text or attribute. *)
Inductive linkfn := LUser (fn : nat) | LText (i : I) | LAttr (name : string) (i : I).

(** What [compile] returns: a function is a [post]. *)
Record links := Links { l_pre : option linkfn; l_post : option linkfn }.

Inductive compilefn := CUser (fn : nat) | CValue (l : links).

(** [template]: a string or a function. *)
Inductive template_def := TString (s : string) | TFun (fn : nat).

(** [replace], [transclude] and [templateUrl] are not modelled. *)
Record directive := Directive {
  d_registered : string;
  d_priority : Z;
  d_index : option nat;           (** [None] for an interpolation's *)
  d_name : option string;
  d_restrict : string;
  d_require : require_def;
  d_scope : scope_def;
  d_controller : option controller_def;
  d_controllerAs : option string;
  d_template : option template_def;
  d_terminal : bool;
  d_compile : option compilefn;
  d_range : option (string * string)   (** [$$start], [$$end] *)
}.

(** What a factory returns, or throws. *)
Record definition := Definition_ {
  f_priority : option Z;
  f_name : option string;
  f_restrict : option string;
  f_require : require_def;
  f_scope : scope_def;
  f_controller : option controller_def;
  f_controllerAs : option string;
  f_template : option template_def;
  f_terminal : bool;
  f_compile : option nat;
  f_link : option links
}.

Inductive factory := FThrows (e : E) | FLink (fn : nat) | FObject (d : definition).

Definition some_text (o : option string) : option string :=
  match o with Some s => if String.eqb s "" then None else Some s | None => None end.

Definition require_truthy (r : require_def) : bool :=
  match r with RNone => false | RStr s => negb (String.eqb s "") | RArr _ => true end.

(** One factory's directive. *)
Definition make_directive (name : string) (index : nat) (f : definition) : directive :=
  let d_name := default name (some_text (f_name f)) in
  Directive name (default 0 (f_priority f)) (Some index) (Some d_name) (default "A" (some_text (f_restrict f)))
    (if require_truthy (f_require f) then f_require f
     else match f_controller f with Some _ => RStr d_name | None => RNone end)
    (f_scope f) (f_controller f) (f_controllerAs f)
    (match f_template f with Some (TString s) => if String.eqb s "" then None else Some (TString s) | t => t end) (f_terminal f)
    (match f_compile f, f_link f with
     | Some fn, _ => Some (CUser fn)
     | None, Some l => Some (CValue l)
     | None, None => None
     end) None.

Definition link_only (fn : nat) : definition :=
  Definition_ None None None RNone NoScope None None None false None (Some (Links None (Some (LUser fn)))).

(** The [forEach] of the provider of [name + 'Directive']: the directives, and
    what [$exceptionHandler] got. *)
Fixpoint make_directives (name : string) (index : nat) (fs : list factory) : list directive * list E :=
  match fs with
  | [] => ([], [])
  | f :: fs =>
      let '(ds, es) := make_directives name (S index) fs in
      match f with
      | FThrows e => (ds, e :: es)
      | FLink fn => (make_directive name index (link_only fn) :: ds, es)
      | FObject d => (make_directive name index d :: ds, es)
      end
  end.

(** [hasDirectives]. *)
Abbreviation registry := (gmap string (list factory)).

Context (badname areq : E).

(** [registerDirective] of a name, and of an object of factories. *)
Definition registerDirective (name : string) (directiveFactory : option factory) (m : registry) : result E registry :=
  if String.eqb name "hasOwnProperty" then Err badname
  else match directiveFactory with
       | None => Err areq
       | Some f => Ok (<[name := default [] (m !! name) ++ [f]]> m)
       end.

Fixpoint registerDirectives (fs : list (string * option factory)) (m : registry) : result E registry :=
  match fs with
  | [] => Ok m
  | (name, f) :: fs => m ← registerDirective name f m; registerDirectives fs m
  end.

(** [$injector.get(name + Suffix)]. *)
Definition directives_of (m : registry) (name : string) : list directive :=
  match m !! name with Some fs => (make_directives name 0 fs).1 | None => [] end.

Definition wanted (location : ascii) (maxPriority : option Z) (d : directive) : bool :=
  match maxPriority with None => true | Some p => p >? d_priority d end && contains_char location (d_restrict d).

(** [inherit(directive, {$$start: ..., $$end: ...})]. *)
Definition with_range (range : option (string * string)) (d : directive) : directive :=
  match range with
  | None => d
  | Some _ => Directive (d_registered d) (d_priority d) (d_index d) (d_name d) (d_restrict d) (d_require d) (d_scope d)
                (d_controller d) (d_controllerAs d) (d_template d) (d_terminal d) (d_compile d) range
  end.

(** [addDirective]: the list, and whether something was added. *)
Definition addDirective (m : registry) (tDirectives : list directive) (name : string) (location : ascii)
    (maxPriority : option Z) (ignoreDirective : option string) (range : option (string * string)) : list directive * bool :=
  if bool_decide (ignoreDirective = Some name) then (tDirectives, false)
  else let found := List.filter (wanted location maxPriority) (directives_of m name) in
       (tDirectives ++ map (with_range range) found, match found with [] => false | _ => true end).

(** [byPriority]; an interpolation has neither a name nor an index, so that
    comparing it says [1], and comparing two of them NaN, which sorts as [0]. *)
Definition byPriority : comparison_of directive := fun a b =>
  let diff := d_priority b - d_priority a in
  if negb (diff =? 0) then diff
  else if bool_decide (d_name a <> d_name b)
  then match d_name a, d_name b with Some x, Some y => if str_lt x y then -1 else 1 | _, _ => 1 end
  else match d_index a, d_index b with Some i, Some j => Z.of_nat i - Z.of_nat j | _, _ => 0 end.

(** ** Nodes and what they ask for *)

(** A node; [className] of an element is not a string in another name space. *)
Inductive node : Type :=
| Element (nodeName : string) (attributes : list (string * string)) (className : option string) (childNodes : list node)
| TextNode (nodeValue : string)
| CommentNode (nodeValue : string)
| OtherNode (nodeType : nat) (childNodes : list node).

Inductive attr_val := AStr (s : string) | ATrue | AUndef.

(** The own properties of an [Attributes], and its [$attr]. *)
Record attributes := Attributes { at_own : list (string * attr_val); at_attr : list (string * string) }.

Fixpoint alookup {A} (k : string) (l : list (string * A)) : option A :=
  match l with [] => None | (k', v) :: l => if String.eqb k' k then Some v else alookup k l end.

Fixpoint aset {A} (k : string) (v : A) (l : list (string * A)) : list (string * A) :=
  match l with
  | [] => [(k, v)]
  | (k', v') :: l => if String.eqb k' k then (k', v) :: l else (k', v') :: aset k v l
  end.

Definition new_attributes : attributes := Attributes [] [].

(** [attrs.hasOwnProperty]: a new [Attributes] owns [$$element] and [$attr]. *)
Definition at_has (k : string) (a : attributes) : bool :=
  String.eqb k "$$element" || String.eqb k "$attr" || match alookup k (at_own a) with Some _ => true | None => false end.

Definition at_set (k : string) (v : attr_val) (a : attributes) : attributes := Attributes (aset k v (at_own a)) (at_attr a).
Definition at_map (k name : string) (a : attributes) : attributes := Attributes (at_own a) (aset k name (at_attr a)).

(** [getBooleanAttrName] is truthy. *)
Definition boolean_attrs : list string := ["multiple"; "selected"; "checked"; "disabled"; "readonly"; "required"; "open"].
Definition boolean_elements : list string := ["INPUT"; "SELECT"; "OPTION"; "TEXTAREA"; "BUTTON"; "FORM"; "DETAILS"].
Definition is_boolean_attr (nodeName name : string) : bool :=
  existsb (String.eqb (lowercase name)) boolean_attrs && existsb (String.eqb nodeName) boolean_elements.

(** [[\d\w_\-]] and [[^;]]. *)
Definition word_char (c : ascii) : bool :=
  let n := nat_of_ascii c in
  (((48 <=? n) && (n <=? 57)) || ((65 <=? n) && (n <=? 90)) || ((97 <=? n) && (n <=? 122)) || (n =? 95) || (n =? 45))%nat.

Fixpoint span (p : ascii -> bool) (s : string) : string * string :=
  match s with
  | String c s' => if p c then let '(a, r) := span p s' in (String c a, r) else ("", s)
  | EmptyString => ("", "")
  end.

(** [CLASS_DIRECTIVE_REGEXP.exec]: the two groups, and the text after the match. *)
Definition class_match (s : string) : option (string * option string * string) :=
  let '(_, s) := span (fun c => negb (word_char c)) s in
  let '(name, s) := span word_char s in
  if String.eqb name "" then None
  else
    let '(value, s) :=
      match s with
      | String ":" s' => let '(v, r) := span (fun c => negb (Ascii.eqb c ";")) s' in
                         if String.eqb v "" then (None, s) else (Some v, r)
      | _ => (None, s)
      end in
    Some (name, value, match s with String ";" s' => s' | _ => s end).

(** [COMMENT_DIRECTIVE_REGEXP.exec]: the two groups. *)
Definition comment_match (s : string) : option (string * string) :=
  match strip "directive:" (trim_start s) with
  | None => None
  | Some s =>
      let '(name, s) := span word_char (trim_start s) in
      match s with
      | String c _ =>
          let rest := trim_start s in
          if negb (String.eqb name "") && js_space c && all_chars (fun d => negb (Names.line_end d)) rest then Some (name, rest) else None
      | EmptyString => None
      end
  end.

End Registry.

Arguments linkfn : clear implicits.
Arguments links : clear implicits.
Arguments compilefn : clear implicits.
Arguments directive : clear implicits.
Arguments definition : clear implicits.
Arguments factory : clear implicits.

Section Decidable.
Context {I : Type} `{!EqDecision I}.

#[global] Instance require_eq_dec : EqDecision require_def.
Proof.
  refine (fix go (a b : require_def) : Decision (a = b) :=
    match a, b with
    | RNone, RNone => left eq_refl
    | RStr x, RStr y => cast_if (decide (x = y))
    | RArr xs, RArr ys =>
        cast_if (@list_eq_dec _ go xs ys)
    | _, _ => right _
    end); abstract congruence.
Defined.

#[global] Instance scope_def_eq_dec : EqDecision scope_def.
Proof. solve_decision. Defined.
#[global] Instance controller_def_eq_dec : EqDecision controller_def.
Proof. solve_decision. Defined.
#[global] Instance template_def_eq_dec : EqDecision template_def.
Proof. solve_decision. Defined.
#[global] Instance linkfn_eq_dec : EqDecision (linkfn I).
Proof. solve_decision. Defined.
#[global] Instance links_eq_dec : EqDecision (links I).
Proof. solve_decision. Defined.
#[global] Instance compilefn_eq_dec : EqDecision (compilefn I).
Proof. solve_decision. Defined.
#[global] Instance directive_eq_dec : EqDecision (directive I).
Proof. solve_decision. Defined.

End Decidable.

Section Collect.
Context {E I : Type}.
Context (m : gmap string (list (factory E I))).
Context (interpolate : string -> result E (option I)) (selmulti : E).
Abbreviation directive := (directive I).

(** [addTextInterpolateDirective], [addAttrInterpolateDirective]. *)
Definition text_directive (i : I) : directive :=
  Directive "" 0 None None "" RNone NoScope None None None false (Some (CValue (Links None (Some (LText i))))) None.

Definition attr_directive (name : string) (i : I) : directive :=
  Directive "" 100 None None "" RNone NoScope None None None false (Some (CValue (Links (Some (LAttr name i)) None))) None.

Definition addTextInterpolateDirective (directives : list directive) (text : string) : result E (list directive) :=
  i ← interpolate text;
  Ok (directives ++ match i with Some i => [text_directive i] | None => [] end).

Definition addAttrInterpolateDirective (nodeName : string) (directives : list directive) (value name : string) : result E (list directive) :=
  i ← interpolate value;
  match i with
  | None => Ok directives
  | Some i => if String.eqb name "multiple" && String.eqb nodeName "SELECT" then Err selmulti
              else Ok (directives ++ [attr_directive name i])
  end.

Section Node.
Context (maxPriority : option Z) (ignoreDirective : option string).

(** One turn of the loop over the attributes. *)
Definition collect_attribute (nodeName name value : string) (directives : list directive) (attrs : attributes)
    : result E (list directive * attributes) :=
  let value := trim value in
  let n := Names.read_name name in
  let nName := Names.an_nName n in
  let attrs := at_map nName (Names.an_name n) attrs in
  let attrs := if Names.an_ngAttr n || negb (at_has nName attrs)
               then at_set nName (if is_boolean_attr nodeName nName then ATrue else AStr value) attrs else attrs in
  directives ← addAttrInterpolateDirective nodeName directives value nName;
  Ok ((addDirective m directives nName "A" maxPriority ignoreDirective (Names.an_range n)).1, attrs).

Fixpoint collect_attributes (nodeName : string) (nAttrs : list (string * string)) (directives : list directive) (attrs : attributes)
    : result E (list directive * attributes) :=
  match nAttrs with
  | [] => Ok (directives, attrs)
  | (name, value) :: nAttrs =>
      r ← collect_attribute nodeName name value directives attrs;
      collect_attributes nodeName nAttrs r.1 r.2
  end.

Definition opt_trim (s : option string) : attr_val := match s with Some s => AStr (trim s) | None => AUndef end.

(** The loop over the classes. *)
Fixpoint collect_classes (fuel : nat) (className : string) (directives : list directive) (attrs : attributes)
    : option (list directive * attributes) :=
  match fuel with
  | O => None
  | S fuel =>
      match class_match className with
      | None => Some (directives, attrs)
      | Some (name, value, rest) =>
          let nName := Names.directiveNormalize name in
          let '(directives, added) := addDirective m directives nName "C" maxPriority ignoreDirective None in
          collect_classes fuel rest directives (if added then at_set nName (opt_trim value) attrs else attrs)
      end
  end.

(** [collectDirectives]; the loop over the classes has the fuel it needs. *)
Definition collectDirectives (n : node) (directives : list directive) (attrs : attributes) : result E (list directive * attributes) :=
  r ← match n with
      | Element nodeName nAttrs className _ =>
          let directives := (addDirective m directives (Names.directiveNormalize (lowercase nodeName)) "E" maxPriority ignoreDirective None).1 in
          r ← collect_attributes nodeName nAttrs directives attrs;
          Ok match className with
             | Some c => default r (collect_classes (S (String.length c)) c r.1 r.2)
             | None => r
             end
      | TextNode text => directives ← addTextInterpolateDirective directives text; Ok (directives, attrs)
      | CommentNode text =>
          Ok match comment_match text with
             | None => (directives, attrs)
             | Some (name, value) =>
                 let nName := Names.directiveNormalize name in
                 let '(directives, added) := addDirective m directives nName "M" maxPriority ignoreDirective None in
                 (directives, if added then at_set nName (AStr (trim value)) attrs else attrs)
             end
      | OtherNode _ _ => Ok (directives, attrs)
      end;
  Ok (array_sort byPriority r.1, r.2).

End Node.
End Collect.

(** ** Ranges *)

Definition hasAttribute (name : string) (n : node) : bool :=
  match n with Element _ attrs _ _ => existsb (fun p => String.eqb p.1 name) attrs | _ => false end.

Section Group.
Context (attrStart attrEnd : string).

(** What a node adds to [depth]. *)
Definition depth_step (n : node) : Z := (if hasAttribute attrStart n then 1 else 0) - (if hasAttribute attrEnd n then 1 else 0).

(** The [do] loop over a node and its next siblings; [None] is [uterdir]. *)
Fixpoint scan_group (depth : Z) (nodes : list node) : option (list node) :=
  match nodes with
  | [] => None
  | n :: rest =>
      let depth := depth + depth_step n in
      if depth >? 0 then (fun ns => n :: ns) <$> scan_group depth rest else Some [n]
  end.

Definition groupScan (n : node) (nextSiblings : list node) : option (list node) :=
  if negb (String.eqb attrStart "") && hasAttribute attrStart n then scan_group 0 (n :: nextSiblings) else Some [n].

End Group.

(** ** Lemmas on names *)

Module NameFacts.
Import Basics Names.

Definition plain (c : ascii) : bool := negb (is_sep c) && negb (line_end c).

Lemma plain_char c : plain c = true -> is_sep c = false /\ line_end c = false.
Proof. unfold plain. rewrite andb_true_iff, !negb_true_iff. done. Qed.

Lemma upper_lower c : is_upper c = true -> upper_char (lower_char c) = c /\ plain (lower_char c) = true /\ is_upper (lower_char c) = false.
Proof. destruct c as [[] [] [] [] [] [] [] []]; vm_compute; done. Qed.

Lemma camel_sep f c s : is_sep c = true -> camel f None (String c s) = camel false (Some (f, c)) s.
Proof. intros Hc. simpl. by rewrite Hc. Qed.

Lemma camel_other f c s : plain c = true -> camel f None (String c s) = String c (camel false None s).
Proof. intros [Hc _]%plain_char. simpl. by rewrite Hc. Qed.

Lemma camel_plain f s : all_chars plain s = true -> camel f None s = s.
Proof.
  revert f. induction s as [|c s IH]; intros f; [done|]. intros [Hc Hs]%andb_true_iff.
  by rewrite camel_other, IH.
Qed.

Lemma camel_app f w s : w <> "" -> all_chars plain w = true -> camel f None (w +:+ s) = w +:+ camel false None s.
Proof.
  intros Hne Hw. destruct w as [|c w]; [done|]. clear Hne. revert f c Hw.
  induction w as [|d w IH]; intros f c [Hc Hw]%andb_true_iff;
    change (String c ?x +:+ s) with (String c (x +:+ s)); rewrite camel_other by done; [done|].
  by rewrite (IH false d Hw).
Qed.

(** A run of separators and the letter after it. *)
Lemma camel_letter o sep run c s : all_chars is_sep run = true -> plain c = true ->
  camel false (Some (o, sep)) (run +:+ String c s) = String (if o then c else upper_char c) (camel false None s).
Proof.
  intros Hr Hc. apply plain_char in Hc as [Hc Hl]. revert sep. induction run as [|r run IH]; intros sep; simpl.
  - by rewrite Hc, Hl.
  - simpl in Hr. apply andb_true_iff in Hr as [-> Hr]. by apply (IH Hr r).
Qed.

Lemma camel_snake_from s : all_chars plain s = true -> camel false None (snake_from true "-" s) = s.
Proof.
  induction s as [|c s IH]; [done|]. intros [Hc Hs]%andb_true_iff. cbn [snake_from]. destruct (is_upper c) eqn:Hu.
  - destruct (upper_lower c Hu) as (Hul & Hp & _). change ("-" +:+ ?x) with (String "-" x).
    rewrite camel_sep by done. etransitivity; [by apply (camel_letter false "-" "")|]. by rewrite Hul, IH.
  - by rewrite camel_other, IH.
Qed.

Definition ascii_plain (c : ascii) : bool := plain c && (nat_of_ascii c <? 128)%nat.

(** The name of a directive, as its documentation wants it: a lower case letter
    and no separators. *)
Definition directive_name (n : string) : Prop :=
  match n with String c _ => is_upper c = false | EmptyString => False end /\
  all_chars ascii_plain n = true.

Lemma directive_name_plain n : directive_name n -> all_chars plain n = true.
Proof. intros [_ H]. eapply all_chars_mono; [|exact H]. by intros c [? _]%andb_true_iff. Qed.

Lemma camel_snake n : directive_name n -> camel true None (snake_case n "-") = n.
Proof.
  intros Hn. pose proof (directive_name_plain n Hn) as Hp. destruct Hn as [Hu _]. destruct n as [|c n]; [done|].
  apply andb_true_iff in Hp as [Hc Hp]. change (snake_case (String c n) "-") with (snake_from false "-" (String c n)).
  cbn [snake_from]. rewrite Hu, camel_other by done. by rewrite camel_snake_from.
Qed.

(** [p] and an upper case letter. *)
Definition capital_after (p n : string) : bool :=
  match strip p n with Some (String c _) => is_upper c | _ => false end.

Lemma moz_hack_spec n : moz_hack n = if capital_after "moz" n then match n with String _ s => String "M" s | "" => "" end else n.
Proof.
  unfold moz_hack, capital_after. destruct (strip "moz" n) as [[|c s]|] eqn:Hs; try done.
  destruct (is_upper c); [|done].
  apply strip_some in Hs as ->. done.
Qed.

(** The characters that are not separators. *)
Fixpoint weight (s : string) : nat :=
  match s with
  | EmptyString => 0
  | String c s => (if is_sep c then 0 else 1) + weight s
  end.

Lemma case_sep c : is_sep (upper_char c) = is_sep c /\ is_sep (lower_char c) = is_sep c.
Proof. destruct c as [[] [] [] [] [] [] [] []]; vm_compute; done. Qed.

Lemma weight_plain s : all_chars plain s = true -> weight s = String.length s.
Proof. induction s as [|c s IH]; simpl; [done|]. intros [[Hc _]%plain_char Hs]%andb_true_iff. rewrite Hc, IH by done. lia. Qed.

Lemma weight_app s t : weight (s +:+ t) = (weight s + weight t)%nat.
Proof. induction s as [|c s IH]; simpl; [done|]. rewrite IH. lia. Qed.

Lemma weight_lowercase s : weight (lowercase s) = weight s.
Proof. induction s as [|c s IH]; simpl; [done|]. by rewrite (proj2 (case_sep c)), IH. Qed.

Lemma weight_snake b s : weight (snake_from b "-" s) = weight s.
Proof.
  revert b. induction s as [|c s IH]; intros b; [done|]. cbn [snake_from]. destruct (is_upper c).
  - rewrite weight_app. cbn [weight]. rewrite (proj2 (case_sep c)), IH. by destruct b.
  - cbn [weight]. by rewrite IH.
Qed.

Lemma weight_camel s : (forall f, weight (camel f None s) = weight s) /\
  (forall o sep, is_sep sep = true -> weight (camel false (Some (o, sep)) s) = weight s).
Proof.
  induction s as [|c s [IHn IHs]]; split; intros; simpl.
  - done.
  - by rewrite H.
  - destruct (is_sep c) eqn:Hc; simpl; [by rewrite IHs|by rewrite Hc, IHn].
  - destruct (is_sep c) eqn:Hc; [by rewrite IHs|]. destruct (line_end c); simpl.
    + by rewrite H, Hc, IHn.
    + rewrite IHn. by destruct o; rewrite ?(proj1 (case_sep c)), Hc.
Qed.

Lemma weight_moz_hack s : weight (moz_hack s) = weight s.
Proof.
  unfold moz_hack. destruct (strip "moz" s) as [[|c r]|] eqn:Hs; try done. destruct (is_upper c); [|done].
  apply strip_some in Hs as ->. by rewrite !weight_app.
Qed.

Lemma weight_strip_ci p s r : strip_ci p s = Some r -> (weight p + weight r = weight s)%nat.
Proof.
  revert s. induction p as [|a p IH]; intros s; simpl; [by intros [= ->]|]. destruct s as [|b s]; [done|].
  destruct (Ascii.eqb_spec a (lower_char b)) as [->|]; [|done]. intros H%IH. simpl. rewrite (proj2 (case_sep b)). lia.
Qed.

Lemma weight_strip_prefix p s r : strip_prefix p s = Some r -> (weight p + weight r = weight s)%nat.
Proof.
  unfold strip_prefix. destruct (strip_ci p s) as [[|c r']|] eqn:Hs; try done. destruct (is_sep c) eqn:Hc; [|done].
  intros [= ->]. apply weight_strip_ci in Hs as <-. simpl. by rewrite Hc.
Qed.

Definition prefixed (s : string) : bool := 
  match strip_prefix "x" s, strip_prefix "data" s with None, None => false | _, _ => true end.

Lemma weight_drop_prefix s : (weight (drop_prefix s) + (if prefixed s then 1 else 0) <= weight s)%nat.
Proof.
  unfold drop_prefix, prefixed. destruct (strip_prefix "x" s) as [r|] eqn:Hx; [apply weight_strip_prefix in Hx; simpl in *; lia|].
  destruct (strip_prefix "data" s) as [r|] eqn:Hd; [apply weight_strip_prefix in Hd; simpl in *; lia|]. simpl. lia.
Qed.

Lemma weight_normalize s : weight (directiveNormalize s) = weight (drop_prefix s).
Proof. unfold directiveNormalize, camelCase. rewrite weight_moz_hack. apply weight_camel. Qed.

(** What is left of a text without its last [n] units, and a text that does not
    end with a separator. *)
Lemma but_last_app k s t : String.length t = k -> but_last k (s +:+ t) = s.
Proof.
  intros <-. unfold but_last. rewrite length_app_string. replace (String.length s + String.length t - String.length t)%nat with (String.length s) by lia.
  induction s as [|c s IH]; simpl; [by destruct t|by rewrite IH].
Qed.

Lemma weight_substring_0 k s : (weight (String.substring 0 k s) <= weight s)%nat.
Proof. revert k. induction s as [|c s IH]; intros [|k]; simpl; try lia. specialize (IH k). lia. Qed.

Lemma weight_but_last k s c : (0 < k)%nat -> is_sep c = false -> (weight (but_last k (s +:+ String c "")) < weight (s +:+ String c ""))%nat.
Proof.
  intros Hk Hc. rewrite weight_app. cbn [weight]. rewrite Hc. unfold but_last. rewrite length_app_string. cbn [String.length].
  set (n := (String.length s + 1 - k)%nat). assert (Hn : (n <= String.length s)%nat) by lia. clearbody n.
  enough (weight (String.substring 0 n (s +:+ String c "")) <= weight s)%nat by lia.
  revert n Hn. induction s as [|d s IH]; intros n Hn; simpl in *.
  - replace n with 0%nat by lia. simpl. lia.
  - destruct n as [|n]; simpl; [lia|]. specialize (IH n). lia.
Qed.

Lemma snake_last b s c : plain c = true -> exists t d, snake_from b "-" (s +:+ String c "") = t +:+ String d "" /\ is_sep d = false.
Proof.
  intros Hc. revert b. induction s as [|a s IH]; intros b; simpl.
  - destruct (is_upper c) eqn:Hu.
    + exists (if b then "-" else ""), (lower_char c). split; [by destruct b|]. rewrite (proj2 (case_sep c)). by apply plain_char.
    + exists "", c. split; [done|]. by apply plain_char.
  - destruct (IH true) as (t & d & Ht & Hd). destruct (is_upper a).
    + exists ((if b then "-" else "") +:+ String (lower_char a) t), d. split; [|done]. rewrite Ht. by destruct b.
    + exists (String a t), d. split; [|done]. by rewrite Ht.
Qed.

Lemma string_last s : s <> "" -> exists t c, s = t +:+ String c "".
Proof.
  induction s as [|c s IH]; [done|]. intros _. destruct s as [|d s]; [by exists "", c|].
  destruct IH as (t & e & ->); [done|]. by exists (String c t), e.
Qed.

(** The prefix that an attribute's name may carry. *)
Lemma strip_snake p b n :
  all_chars (fun c => plain c && negb (is_upper c)) p = true -> all_chars plain n = true ->
  b = true \/ (p <> "" /\ match n with String c _ => is_upper c = false | _ => True end) ->
  match strip p (snake_from b "-" n) with
  | Some (String c r) => if is_sep c then Some r else None
  | _ => None
  end = match strip p n with
        | Some (String c r) => if is_upper c then Some (String (lower_char c) (snake_from true "-" r)) else None
        | _ => None
        end.
Proof.
  intros Hp Hn. revert b p Hp. induction n as [|c n IH]; intros b p Hp Hb.
  { destruct p as [|a p]; [by destruct b|done]. }
  cbn [all_chars] in Hn. apply andb_true_iff in Hn as [Hc Hn]. destruct p as [|a p].
  - destruct Hb as [-> | [Hb _]]; [|done]. cbn [strip snake_from]. destruct (is_upper c); [done|]. cbn [strip]. apply plain_char in Hc as [-> _]. done.
  - cbn [all_chars] in Hp. apply andb_true_iff in Hp as [[Ha Hau]%andb_true_iff Hp]. apply negb_true_iff in Hau. cbn [snake_from].
    destruct (is_upper c) eqn:Hu.
    + replace (strip (String a p) (String c n)) with (@None string) by (simpl; destruct (Ascii.eqb_spec a c); [congruence|done]).
      destruct Hb as [-> | [_ Hb]]; [|congruence]. simpl. by destruct (Ascii.eqb_spec a "-") as [->|].
    + cbn [strip]. destruct (Ascii.eqb a c); [|done]. apply IH; [done|done|by left].
Qed.

Lemma strip_ci_lower p s : lowercase s = s -> strip_ci p s = strip p s.
Proof.
  revert s. induction p as [|a p IH]; intros [|c s]; try done. simpl. intros [= Hc Hs]. rewrite Hc, IH; done.
Qed.

Lemma lower_idem c : ascii_plain c = true -> lower_char (lower_char c) = lower_char c /\ (is_upper c = false -> lower_char c = c).
Proof. destruct c as [[] [] [] [] [] [] [] []]; vm_compute; done. Qed.

Lemma lowercase_snake b n : all_chars ascii_plain n = true -> lowercase (snake_from b "-" n) = snake_from b "-" n.
Proof.
  revert b. induction n as [|c n IH]; intros b; [done|]. cbn [all_chars]. intros [Hc Hn]%andb_true_iff.
  pose proof (lower_idem c Hc) as [Hi Hu]. cbn [snake_from]. destruct (is_upper c).
  - destruct b; simpl; by rewrite Hi, IH.
  - simpl. by rewrite Hu, IH.
Qed.

Section Reach.
Context (n : string) (Hn : directive_name n).

#[local] Lemma n_plain : all_chars plain n = true.
Proof. by apply directive_name_plain. Qed.

#[local] Lemma n_lower : lowercase (snake_case n "-") = snake_case n "-".
Proof. apply lowercase_snake, Hn. Qed.

#[local] Lemma n_weight : weight (snake_case n "-") = String.length n.
Proof. unfold snake_case. simpl. by rewrite weight_snake, (weight_plain n n_plain). Qed.

Lemma strip_prefix_snake p : p <> "" -> all_chars (fun c => plain c && negb (is_upper c)) p = true ->
  match strip_prefix p (snake_case n "-") with Some _ => true | None => false end = capital_after p n.
Proof.
  intros Hne Hp. unfold strip_prefix, capital_after. rewrite strip_ci_lower by apply n_lower.
  unfold snake_case. simpl. rewrite (strip_snake p false n Hp n_plain).
  - destruct (strip p n) as [[|c r]|]; try done. by destruct (is_upper c).
  - right. split; [done|]. destruct Hn as [Hu _]. by destruct n.
Qed.

Lemma prefixed_snake : prefixed (snake_case n "-") = capital_after "x" n || capital_after "data" n.
Proof.
  unfold prefixed. rewrite <- !strip_prefix_snake by done.
  by destruct (strip_prefix "x" _), (strip_prefix "data" _).
Qed.

Lemma normalize_snake : capital_after "x" n || capital_after "data" n = false ->
  directiveNormalize (snake_case n "-") = moz_hack n.
Proof.
  rewrite <- prefixed_snake. unfold prefixed, directiveNormalize, drop_prefix, camelCase.
  destruct (strip_prefix "x" _); [done|]. destruct (strip_prefix "data" _); [done|]. intros _. by rewrite camel_snake.
Qed.

Lemma weight_but_last_snake k : (0 < k)%nat -> (weight (but_last k (snake_case n "-")) < String.length n)%nat.
Proof.
  intros Hk. rewrite <- n_weight. pose proof n_plain as Hp. assert (Hne : n <> "") by (destruct Hn as [Hu _]; by destruct n).
  destruct (string_last n Hne) as (t & c & ->). rewrite all_chars_app in Hp. apply andb_true_iff in Hp as [_ Hc].
  simpl in Hc. rewrite andb_true_r in Hc. unfold snake_case. simpl.
  destruct (snake_last false t c Hc) as (t' & d & -> & Hd). by apply weight_but_last.
Qed.

Lemma weight_normalized s : (weight (directiveNormalize (lowercase s)) <= weight s)%nat.
Proof. rewrite weight_normalize. pose proof (weight_drop_prefix (lowercase s)) as H. rewrite weight_lowercase in H. lia. Qed.

Lemma read_ngAttr : an_ngAttr (read_name (snake_case n "-")) = true ->
  (weight (an_nName (read_name (snake_case n "-"))) < String.length n)%nat.
Proof.
  unfold read_name. set (g := directiveNormalize (snake_case n "-")). simpl. intros Hg. rewrite Hg.
  assert (Hw : (weight g <= String.length n)%nat).
  { unfold g. rewrite <- n_lower at 1. etransitivity; [apply weight_normalized|]. by rewrite n_weight. }
  unfold ng_attr_binding in Hg. destruct (strip "ngAttr" g) as [r|] eqn:Hs; [|done]. apply strip_some in Hs as ->.
  simpl in Hw. change (String.length ("ngAttr" +:+ r)) with (6 + String.length r)%nat.
  replace (6 + String.length r - 6)%nat with (String.length r) by lia.
  change (String.substring 6 (String.length r) ("ngAttr" +:+ r)) with (String.substring 0 (String.length r) r). rewrite substring_all by done.
  eapply Nat.le_lt_trans; [apply weight_normalized|].
  assert (Hsn : weight (snake_case r "-") = weight r) by apply weight_snake.
  change ("" +:+ r) with r in Hw. destruct (ends_with _ _); [|lia]. unfold but_last.
  pose proof (weight_substring_0 (String.length (snake_case r "-") - 6) (snake_case r "-")). lia.
Qed.

Lemma read_other : an_ngAttr (read_name (snake_case n "-")) = false ->
  an_nName (read_name (snake_case n "-")) =
  if ends_with "Start" (directiveNormalize (snake_case n "-"))
  then directiveNormalize (lowercase (but_last 6 (snake_case n "-"))) else directiveNormalize (snake_case n "-").
Proof. unfold read_name. simpl. intros ->. destruct (ends_with _ _); [done|]. by rewrite n_lower. Qed.

Lemma weight_other :
  (weight (directiveNormalize (lowercase (but_last 6 (snake_case n "-")))) < String.length n)%nat /\
  (capital_after "x" n || capital_after "data" n = true -> (weight (directiveNormalize (snake_case n "-")) < String.length n)%nat).
Proof.
  split.
  - eapply Nat.le_lt_trans; [apply weight_normalized|apply weight_but_last_snake; lia].
  - rewrite <- prefixed_snake. intros Hp. rewrite weight_normalize. pose proof (weight_drop_prefix (snake_case n "-")) as H.
    rewrite Hp, n_weight in H. lia.
Qed.

End Reach.

End NameFacts.

(** ** Lemmas on directives *)

Lemma span_length p s : (String.length (span p s).1 + String.length (span p s).2 = String.length s)%nat.
Proof. induction s as [|c s IH]; simpl; [done|]. destruct (p c); [|done]. destruct (span p s). simpl in *. lia. Qed.

Lemma class_match_shorter s name value rest : class_match s = Some (name, value, rest) -> (String.length rest < String.length s)%nat.
Proof.
  unfold class_match. pose proof (span_length (fun c => negb (word_char c)) s) as H1. destruct (span _ s) as [a s1]. simpl in H1.
  pose proof (span_length word_char s1) as H2. destruct (span word_char s1) as [b s2]. simpl in H2.
  destruct (String.eqb_spec b "") as [|Hb]; [done|]. assert (Hb' : (0 < String.length b)%nat) by (destruct b; simpl; [done|lia]).
  assert (Hlast : forall t, (String.length (match t with String ";" s' => s' | _ => t end) <= String.length t)%nat).
  { intros [|[[] [] [] [] [] [] [] []] t]; simpl; lia. }
  set (v := match s2 with String ":" s' => _ | _ => _ end). assert (Hv : (String.length v.2 <= String.length s2)%nat).
  { unfold v. clear. destruct s2 as [|[[] [] [] [] [] [] [] []] t]; simpl; try lia.
    pose proof (span_length (fun c => negb (Ascii.eqb c ";")) t) as H. destruct (span _ t) as [x y]. simpl in *.
    destruct (String.eqb x ""); simpl; lia. }
  destruct v as [value' s3]. simpl in Hv. intros [= _ _ <-]. specialize (Hlast s3). lia.
Qed.

(** The loop over the classes ends. *)
Lemma collect_classes_total {E I} (m : gmap string (list (factory E I))) maxPriority ignoreDirective : forall fuel c ds attrs,
  (String.length c < fuel)%nat -> is_Some (collect_classes m maxPriority ignoreDirective fuel c ds attrs).
Proof.
  induction fuel as [|fuel IH]; intros c ds attrs Hf; [lia|]. cbn [collect_classes].
  destruct (class_match c) as [[[name value] rest]|] eqn:Hm; [|by eexists]. apply class_match_shorter in Hm.
  destruct (addDirective _ _ _ _ _ _ _) as [ds' added]. apply IH. lia.
Qed.

(** What holds of every registered directive, with or without a range, and of
    the interpolations', holds of what a node collects. *)
Section Collected.
Context {E I : Type} (m : gmap string (list (factory E I))) (interpolate : string -> result E (option I)) (selmulti : E).
Context (P : directive I -> Prop).
Hypothesis Hreg : forall name d range, In d (directives_of m name) -> P (with_range range d).
Hypothesis Htext : forall i, P (text_directive i).
Hypothesis Hattr : forall name i, P (attr_directive name i).

Lemma addDirective_Forall ds name location maxPriority ignoreDirective range : Forall P ds ->
  Forall P (addDirective m ds name location maxPriority ignoreDirective range).1.
Proof.
  intros Hds. unfold addDirective. destruct (bool_decide _); [done|]. apply Forall_app. split; [done|].
  apply Forall_forall. intros x Hx. apply list_elem_of_fmap in Hx as (d & -> & Hd). apply list_elem_of_In, filter_In in Hd as [Hd _].
  by apply (Hreg name).
Qed.

Lemma collect_classes_Forall maxPriority ignoreDirective : forall fuel c ds attrs r, Forall P ds ->
  collect_classes m maxPriority ignoreDirective fuel c ds attrs = Some r -> Forall P r.1.
Proof.
  induction fuel as [|fuel IH]; intros c ds attrs r Hds; cbn [collect_classes]; [done|].
  destruct (class_match c) as [[[name value] rest]|]; [|by intros [= <-]].
  pose proof (addDirective_Forall ds (Names.directiveNormalize name) "C" maxPriority ignoreDirective None Hds) as Ha.
  destruct (addDirective _ _ _ _ _ _ _) as [ds' added]. by apply IH.
Qed.

Lemma collect_attributes_Forall maxPriority ignoreDirective nodeName nAttrs : forall ds attrs r, Forall P ds ->
  collect_attributes m interpolate selmulti maxPriority ignoreDirective nodeName nAttrs ds attrs = Ok r -> Forall P r.1.
Proof.
  induction nAttrs as [|[name value] nAttrs IH]; intros ds attrs r Hds Hc; cbn [collect_attributes] in Hc; [by simplify_eq|].
  inv_result. refine (IH _ _ _ _ Hc). unfold collect_attribute in Ha. inv_result. subst a. simpl. apply addDirective_Forall.
  unfold addAttrInterpolateDirective in Ha0. inv_result. destruct a as [i|]; [|by simplify_eq].
  destruct (_ && _); [done|]. simplify_eq. apply Forall_app. split; [done|]. by repeat constructor.
Qed.

Lemma collect_Forall maxPriority ignoreDirective n attrs r :
  collectDirectives m interpolate selmulti maxPriority ignoreDirective n [] attrs = Ok r -> Forall P r.1.
Proof.
  intros Hc. unfold collectDirectives in Hc. inv_result. subst r. simpl. rewrite sort_perm. destruct n as [tag nAttrs className kids|text|text|t kids].
  - inv_result. assert (Hds : Forall P a0.1).
    { eapply collect_attributes_Forall; [|done]. apply addDirective_Forall. constructor. }
    destruct className as [c|]; [|by subst a]. destruct (collect_classes_total m maxPriority ignoreDirective (S (String.length c)) c a0.1 a0.2 ltac:(lia)) as [r Hr].
    change (default a0 (collect_classes m maxPriority ignoreDirective (S (String.length c)) c a0.1 a0.2) = a) in Ha. rewrite Hr in Ha. simpl in Ha. subst a. by eapply collect_classes_Forall.
  - inv_result. subst a. unfold addTextInterpolateDirective in Ha0. inv_result. subst a0. destruct a as [i|]; [by repeat constructor|constructor].
  - inv_result. subst a. destruct (comment_match text) as [[name value]|]; [|constructor].
    pose proof (addDirective_Forall [] (Names.directiveNormalize name) "M" maxPriority ignoreDirective None (Forall_nil_2 _)) as Ha.
    destruct (addDirective _ _ _ _ _ _ _) as [ds' added]. done.
  - inv_result. subst a. constructor.
Qed.

End Collected.

(** ** Lemmas on ranges *)

Section GroupFacts.
Context (attrStart attrEnd : string).

Definition balance (ns : list node) : Z := foldr (fun n z => depth_step attrStart attrEnd n + z) 0 ns.

(** A range is the shortest run of siblings in which every start has its end. *)
Lemma scan_group_exact nodes : forall depth ns,
  scan_group attrStart attrEnd depth nodes = Some ns <->
  exists rest, nodes = ns ++ rest /\ ns <> [] /\ depth + balance ns <= 0 /\
    forall p q, ns = p ++ q -> p <> [] -> q <> [] -> 0 < depth + balance p.
Proof.
  induction nodes as [|n nodes IH]; intros depth ns; simpl.
  - split; [done|]. intros (rest & Heq & Hne & _). symmetry in Heq. apply app_eq_nil in Heq as [-> _]. done.
  - set (d := depth + depth_step attrStart attrEnd n). destruct (Z.gtb_spec d 0) as [Hd|Hd].
    + rewrite fmap_Some. split.
      * intros (ms & (rest & -> & Hne & Hb & Hp)%IH & ->). exists rest. split; [done|]. split; [done|]. split; [simpl; lia|].
        intros [|x p] q Heq Hp0 Hq; [done|]. simplify_eq/=. destruct p as [|y p]; [simpl; lia|].
        specialize (Hp (y :: p) q eq_refl ltac:(done) Hq). simpl in *. lia.
      * intros (rest & Heq & Hne & Hb & Hp). destruct ns as [|x ns]; [done|]. simplify_eq/=. exists ns. split; [|done]. apply IH.
        exists rest. split; [done|]. split; [|split; [simpl in Hb; lia|]].
        { intros ->. simpl in Hb. lia. }
        intros p q -> Hp0 Hq. specialize (Hp (x :: p) q eq_refl ltac:(done) Hq). simpl in Hp. lia.
    + split.
      * intros [= <-]. exists nodes. split; [done|]. split; [done|]. split; [simpl; lia|].
        intros [|x p] q Heq Hp Hq; [done|]. simplify_eq/=. destruct p; [|done]. by destruct q.
      * intros (rest & Heq & Hne & Hb & Hp). destruct ns as [|x ns]; [done|]. simplify_eq/=. destruct ns as [|y ns]; [done|].
        specialize (Hp [x] (y :: ns) eq_refl ltac:(done) ltac:(done)). simpl in Hp. lia.
Qed.

End GroupFacts.

(** Two directives of one priority, one of them an interpolation: each is said
    to come after the other. *)
Example byPriority_disagrees : let d := make_directive "ngDisabled" 0 (Definition_ (Some 100) None None RNone NoScope None None None false None None) in
  byPriority d (attr_directive "value" 0%nat) = 1 /\ byPriority (attr_directive "value" 0%nat) d = 1.
Proof. done. Qed.

(** ** Claims *)

(** Which directives the attribute of their own name reaches: for a name
    that starts with a lower case letter and has no separators, the attribute
    the compiler looks for, the dashed name, names that directive exactly when
    the name does not read as one with a prefix ([dataTable], [xAxis],
    [mozFlow], [ngAttrTitle]) and does not end with [Start]: [$compile] takes
    each of those for something else. *)
Theorem attribute_reaches_directive (n : string) (Hn : NameFacts.directive_name n) :
  Names.an_nName (Names.read_name (Basics.snake_case n "-")) = n <->
  existsb (fun p => NameFacts.capital_after p n) ["x"; "data"; "moz"; "ngAttr"] || Names.ends_with "Start" n = false.
Proof.
  cbn [existsb]. rewrite !orb_false_iff. pose proof (NameFacts.n_plain n Hn) as Hp.
  pose proof (NameFacts.weight_other n Hn) as [Hstart Hprefix].
  assert (Hlt : forall s, (NameFacts.weight s < String.length n)%nat -> s <> n).
  { intros s Hs ->. rewrite (NameFacts.weight_plain n Hp) in Hs. lia. }
  destruct (NameFacts.capital_after "x" n || NameFacts.capital_after "data" n) eqn:Hxd.
  - split; [|intros ([Hx [Hd _]] & _); rewrite Hx, Hd in Hxd; done]. intros He. exfalso. revert He. apply Hlt.
    destruct (Names.an_ngAttr (Names.read_name (Basics.snake_case n "-"))) eqn:Hng; [by apply NameFacts.read_ngAttr|]. rewrite NameFacts.read_other by done.
    destruct (Names.ends_with _ _); [done|by apply Hprefix].
  - pose proof (NameFacts.normalize_snake n Hn Hxd) as Hg. apply orb_false_iff in Hxd as [Hx Hd].
    rewrite NameFacts.moz_hack_spec in Hg. split.
    + intros He. destruct (Names.an_ngAttr (Names.read_name (Basics.snake_case n "-"))) eqn:Hng; [exfalso; by eapply Hlt; [by apply NameFacts.read_ngAttr|]|].
      rewrite NameFacts.read_other in He by done. destruct (Names.ends_with "Start" _) eqn:Hst; [by destruct (Hlt _ Hstart)|].
      rewrite Hg in He, Hst. change (Names.ng_attr_binding (Names.directiveNormalize (Basics.snake_case n "-")) = false) in Hng.
      rewrite Hg in Hng. destruct (NameFacts.capital_after "moz" n) eqn:Hm.
      { unfold NameFacts.capital_after in Hm. destruct (strip "moz" n) eqn:Hs; [|done]. apply strip_some in Hs as ->. by simplify_eq/=. }
      done.
    + intros ([_ [_ [Hm [Ha _]]]] & Hst). rewrite Hm in Hg.
      destruct (Names.an_ngAttr (Names.read_name (Basics.snake_case n "-"))) eqn:Hng.
      { change (Names.ng_attr_binding (Names.directiveNormalize (Basics.snake_case n "-")) = true) in Hng. rewrite Hg in Hng.
        unfold Names.ng_attr_binding in Hng. unfold NameFacts.capital_after in Ha. congruence. }
      by rewrite NameFacts.read_other, Hg, Hst by done.
Qed.

Lemma attribute_reaches_directive_witness :
  Names.an_nName (Names.read_name (Basics.snake_case "ngRepeat" "-")) = "ngRepeat" /\
  Names.an_nName (Names.read_name (Basics.snake_case "dataTable" "-")) <> "dataTable".
Proof.
  split.
  - apply (attribute_reaches_directive "ngRepeat"); [by split|reflexivity].
  - intros H. apply (attribute_reaches_directive "dataTable") in H; [discriminate H|by split].
Defined.
