(* ===== verification/NgCompile.v ===== *)
(** * NgCompile: compiling a template and linking it

    [compile], [compileNodes], [applyDirectivesToNode] and the link functions
    they return (angular.js 6011-6162, 6329-6334, 6359-6546, 6548-6791,
    7007-7011), for directives without [replace], [transclude] and
    [templateUrl].

    A link function the compiler makes is a value: [composite] and [node_link]
    hold what the closures close over.  A node is named by its path, the indices
    of its ancestors from the innermost.  The functions of the application are
    arguments: a compile function gets its node and may rewrite it, a link
    function and a controller act on the world [W] that holds the scopes, and
    leave the lists of nodes as they are.  Where a node is the first of a range, what is rewritten is that node. *)

From Stdlib Require Import Sorted.
From S2P Require Import Prelude Text Js NgScope NgInterpolate NgDirective.

#[local] Set Warnings "-register-all,-clear-no-such-hyp".

(** What the linker needs of the scopes: [$new]. *)
Class ScopeStore (W : Type) := scope_new : bool -> nat -> W -> nat * W.

(** [throw $compileMinErr(...)], and what the application throws. *)
Inductive error {E : Type} : Type :=
| Multidir (previous asking : option string) (what : string)
| Uterdir (attrStart attrEnd : string)
| Ctreq (require : string) (directive : option string)
| Iscp (directive : option string) (scopeName definition : string)
| Selmulti
| Nodomevents
| NodeMissing          (** a property of [undefined] *)
| App (e : E)
| OutOfFuel.
Arguments error : clear implicits.

(** [replace(pat, rep)] of every occurrence. *)
Fixpoint replace_all (fuel : nat) (pat rep s : string) : string :=
  match fuel with
  | O => s
  | S fuel => match cut pat s with
              | Some (before, after) => before +:+ rep +:+ replace_all fuel pat rep after
              | None => s
              end
  end.

Section Compile.
Context {E I : Type} `{!EqDecision I}.
Abbreviation directive := (directive I).
Abbreviation linkfn := (linkfn I).
Abbreviation error := (error E).

(** ** Compiling *)

(** A link function with what [addLinkFns] annotates it with. *)
Record annotated := Annotated {
  lf_fn : linkfn;
  lf_require : require_def;
  lf_name : option string;
  lf_isolate : bool;
  lf_range : option (string * string)
}.

(** What a [nodeLinkFn] closes over. *)
Record node_link := NodeLink {
  nl_pre : list annotated;
  nl_post : list annotated;
  nl_controllers : list (string * directive);
  nl_isolate : option directive;
  nl_template : option directive;
  nl_scope : bool;
  nl_terminal : bool;
  nl_attrs : attributes
}.

(** What a [compositeLinkFn] closes over, two entries a node. *)
Inductive composite := Composite (linkFns : list (option node_link * option composite)).

(** What is seen of the compilation: calls of compile functions, what
    [$exceptionHandler] got, classes set. *)
Inductive cevent := CCompile (fn : nat) (path : list nat) | CHandled (e : error) (path : list nat) | CClass (className : string) (path : list nat).

(** The variables of [applyDirectivesToNode]. *)
Record applying := Applying {
  ap_terminal : option Z;          (** [None] is [-Number.MAX_VALUE] *)
  ap_newScope : option directive;
  ap_isolate : option directive;
  ap_controllers : list (string * directive);
  ap_template : option directive;
  ap_node : node;
  ap_attrs : attributes;
  ap_pre : list annotated;
  ap_post : list annotated;
  ap_isTerminal : bool;
  ap_log : list cevent
}.

Context (registry : gmap string (list (factory error I))).
Context (interpolate : string -> result error (option I)).
Context (startSymbol endSymbol : string).
(** [compile] of the application: the node it leaves, its attributes, and what
    it returns or throws.  Template functions, and the nodes of a text. *)
Context (run_compile : nat -> list node -> attributes -> node * attributes * result E (links I)).
Context (run_template : nat -> node -> attributes -> result E string).
Context (html : string -> list node).

Definition denormalizeTemplate (template : string) : string :=
  let s := replace_all (String.length template) "{{" startSymbol template in
  replace_all (String.length s) "}}" endSymbol s.

Definition children (n : node) : list node :=
  match n with Element _ _ _ kids => kids | OtherNode _ kids => kids | _ => [] end.

Definition with_children (kids : list node) (n : node) : node :=
  match n with
  | Element name attrs className _ => Element name attrs className kids
  | OtherNode t _ => OtherNode t kids
  | n => n
  end.

Definition assertNoDuplicate (what : string) (previousDirective : option directive) (d : directive) : result error unit :=
  match previousDirective with Some p => Err (Multidir (d_name p) (d_name d) what) | None => Ok tt end.

Definition priority_cut (terminalPriority : option Z) (d : directive) : bool :=
  match terminalPriority with Some t => t >? d_priority d | None => false end.

Definition is_isolate (d : directive) : bool := match d_scope d with IsolateScope _ => true | _ => false end.

(** The part of the loop's body that asks for a scope, *)
Definition ask_scope (d : directive) (a : applying) : result error applying :=
  match d_scope d with
  | NoScope => Ok a
  | _ =>
      _ ← assertNoDuplicate "new/isolated scope" (ap_isolate a) d;
      Ok (Applying (ap_terminal a) (match ap_newScope a with Some n => Some n | None => Some d end)
            (if is_isolate d then Some d else ap_isolate a)
            (ap_controllers a) (ap_template a) (ap_node a) (ap_attrs a) (ap_pre a) (ap_post a) (ap_isTerminal a) (ap_log a))
  end.

Definition name_text (d : directive) : string := default "undefined" (d_name d).

(** a controller (the table of controllers is an object: a name it inherits, which
    would be taken for a controller, is left out), *)
Definition ask_controller (d : directive) (a : applying) : result error applying :=
  match d_controller d with
  | None => Ok a
  | Some _ =>
      _ ← assertNoDuplicate ("'" +:+ name_text d +:+ "' controller") (alookup (name_text d) (ap_controllers a)) d;
      Ok (Applying (ap_terminal a) (ap_newScope a) (ap_isolate a) (aset (name_text d) d (ap_controllers a))
            (ap_template a) (ap_node a) (ap_attrs a) (ap_pre a) (ap_post a) (ap_isTerminal a) (ap_log a))
  end.

(** a template, *)
Definition ask_template (d : directive) (a : applying) : result error applying :=
  match d_template d with
  | None => Ok a
  | Some t =>
      _ ← assertNoDuplicate "template" (ap_template a) d;
      text ← match t with
             | TString s => Ok s
             | TFun fn => match run_template fn (ap_node a) (ap_attrs a) with Ok s => Ok s | Err e => Err (App e) end
             end;
      Ok (Applying (ap_terminal a) (ap_newScope a) (ap_isolate a) (ap_controllers a) (Some d)
            (with_children (html (denormalizeTemplate text)) (ap_node a)) (ap_attrs a) (ap_pre a) (ap_post a) (ap_isTerminal a) (ap_log a))
  end.

(** [addLinkFns] of one function, *)
Definition annotate (d : directive) (a : applying) (fn : linkfn) : annotated :=
  Annotated fn (d_require d) (d_name d) (bool_decide (ap_isolate a = Some d)) (d_range d).

Definition addLinkFns (d : directive) (l : links I) (a : applying) : applying :=
  Applying (ap_terminal a) (ap_newScope a) (ap_isolate a) (ap_controllers a) (ap_template a) (ap_node a) (ap_attrs a)
    (ap_pre a ++ option_list (annotate d a <$> l_pre l)) (ap_post a ++ option_list (annotate d a <$> l_post l))
    (ap_isTerminal a) (ap_log a).

(** the call of its compile function, *)
Definition call_compile (path : list nat) (group : list node) (d : directive) (a : applying) : applying :=
  match d_compile d with
  | None => a
  | Some (CValue l) => addLinkFns d l a
  | Some (CUser fn) =>
      let '(n, attrs, r) := run_compile fn (ap_node a :: group) (ap_attrs a) in
      let a := Applying (ap_terminal a) (ap_newScope a) (ap_isolate a) (ap_controllers a) (ap_template a) n attrs (ap_pre a) (ap_post a)
                 (ap_isTerminal a) (ap_log a ++ CCompile fn path :: match r with Ok _ => [] | Err e => [CHandled (App e) path] end) in
      match r with Ok l => addLinkFns d l a | Err _ => a end
  end.

(** and whether it is the last of its priority. *)
Definition set_terminal (d : directive) (a : applying) : applying :=
  if d_terminal d
  then Applying (Some (match ap_terminal a with Some t => Z.max t (d_priority d) | None => d_priority d end))
         (ap_newScope a) (ap_isolate a) (ap_controllers a) (ap_template a) (ap_node a) (ap_attrs a) (ap_pre a) (ap_post a) true (ap_log a)
  else a.

(** The nodes after the first that [$compileNode] holds. *)
Definition next_group (d : directive) (a : applying) (siblings : list node) (group : list node) : result error (list node) :=
  match d_range d with
  | None => Ok group
  | Some (s, e) => match groupScan s e (ap_node a) siblings with Some ns => Ok (tail ns) | None => Err (Uterdir s e) end
  end.

Fixpoint apply_directives (path : list nat) (siblings group : list node) (ds : list directive) (a : applying) : result error applying :=
  match ds with
  | [] => Ok a
  | d :: ds =>
      group ← next_group d a siblings group;
      if priority_cut (ap_terminal a) d then Ok a
      else
        a ← ask_scope d a;
        a ← ask_controller d a;
        a ← ask_template d a;
        apply_directives path siblings group ds (set_terminal d (call_compile path group d a))
  end.

Definition start_applying (n : node) (attrs : attributes) : applying :=
  Applying None None None [] None n attrs [] [] false [].

(** [newScopeDirective && newScopeDirective.scope === true], with the rest of
    what the function returns. *)
Definition finish_applying (a : applying) : node_link :=
  NodeLink (ap_pre a) (ap_post a) (ap_controllers a) (ap_isolate a) (ap_template a)
    (match ap_newScope a with Some d => bool_decide (d_scope d = NewScope) | None => false end) (ap_isTerminal a) (ap_attrs a).

Definition applyDirectivesToNode (path : list nat) (siblings : list node) (ds : list directive) (n : node) (attrs : attributes)
    : result error applying :=
  apply_directives path siblings [] ds (start_applying n attrs).

(** ** The nodes of a list *)

Definition found (fns : list (option node_link * option composite)) : bool :=
  existsb (fun p => match p with (None, None) => false | _ => true end) fns.

Definition composite_of (fns : list (option node_link * option composite)) : option composite :=
  if found fns then Some (Composite fns) else None.

Section Nodes.
Context (rec : list nat -> list node -> result error (option composite * list node * list cevent)).
Context (maxPriority : option Z) (ignoreDirective : option string).

(** One turn of the loop of [compileNodes]: the node's link functions, the node
    as it is afterwards, and what was seen. *)
Definition compile_node (path : list nat) (siblings : list node) (n : node)
    : result error ((option node_link * option composite) * node * list cevent) :=
  r ← collectDirectives registry interpolate Selmulti maxPriority ignoreDirective n [] new_attributes;
  let '(ds, attrs) := r in
  a ← match ds with [] => Ok None | _ => a ← applyDirectivesToNode path siblings ds n attrs; Ok (Some a) end;
  let nodeLinkFn := finish_applying <$> a in
  let n := match a with Some a => ap_node a | None => n end in
  let log := match a with Some a => ap_log a | None => [] end in
  let log := log ++ match nodeLinkFn with Some l => if nl_scope l then [CClass "ng-scope" path] else [] | None => [] end in
  if match nodeLinkFn with Some l => nl_terminal l | None => false end || bool_decide (children n = [])
  then Ok ((nodeLinkFn, None), n, log)
  else
    r ← rec path (children n);
    let '(childLinkFn, kids, log') := r in
    Ok ((nodeLinkFn, childLinkFn), with_children kids n, log ++ log').
End Nodes.

Fixpoint compile_list (rec : list nat -> list node -> result error (option composite * list node * list cevent))
    (maxPriority : option Z) (ignoreDirective : option string) (path : list nat) (i : nat) (nodes : list node)
    : result error (list (option node_link * option composite) * list node * list cevent) :=
  match nodes with
  | [] => Ok ([], [], [])
  | n :: rest =>
      r ← compile_node rec (if (i =? 0)%nat then maxPriority else None) ignoreDirective (i :: path) rest n;
      let '(fns, n, log) := r in
      r ← compile_list rec maxPriority ignoreDirective path (S i) rest;
      let '(fnss, nodes, log') := r in
      Ok (fns :: fnss, n :: nodes, log ++ log')
  end.

(** [compileNodes]; the fuel bounds the depth of the nodes. *)
Fixpoint compileNodes (fuel : nat) (maxPriority : option Z) (ignoreDirective : option string) (path : list nat) (nodes : list node)
    : result error (option composite * list node * list cevent) :=
  match fuel with
  | O => Err OutOfFuel
  | S fuel =>
      r ← compile_list (compileNodes fuel None None) maxPriority ignoreDirective path 0 nodes;
      let '(fns, nodes, log) := r in
      Ok (composite_of fns, nodes, log)
  end.

(** [compile]: a text at the top that is not blank is wrapped. *)
Definition wrap_text (n : node) : node :=
  match n with
  | TextNode t => if all_chars js_space t then n else Element "SPAN" [] (Some "") [n]
  | n => n
  end.

Definition compile (fuel : nat) (maxPriority : option Z) (ignoreDirective : option string) (nodes : list node)
    : result error (option composite * list node * list cevent) :=
  r ← compileNodes fuel maxPriority ignoreDirective [] (map wrap_text nodes);
  let '(c, nodes, log) := r in
  Ok (c, nodes, log ++ map (fun i => CClass "ng-scope" [i]) (List.seq 0 (length nodes))).

(** ** What a node's directives make of it *)

(** The directives that are applied: up to the first below a terminal one. *)
Fixpoint applied (terminal : option Z) (ds : list directive) : list directive :=
  match ds with
  | [] => []
  | d :: ds =>
      if priority_cut terminal d then []
      else d :: applied (if d_terminal d then Some (match terminal with Some t => Z.max t (d_priority d) | None => d_priority d end) else terminal) ds
  end.

Definition asks_scope (d : directive) : bool := negb (bool_decide (d_scope d = NoScope)).
Definition has_controller (d : directive) : bool := match d_controller d with Some _ => true | None => false end.
Definition has_template (d : directive) : bool := match d_template d with Some _ => true | None => false end.

(** No second template, no second controller of a name, and no scope of any
    kind after an isolate one. *)
Record compatible (ds : list directive) : Prop := {
  cm_template : (length (List.filter has_template ds) <= 1)%nat;
  cm_controllers : NoDup (map name_text (List.filter has_controller ds));
  cm_scope : forall l1 d l2, ds = l1 ++ d :: l2 -> is_isolate d = true -> Forall (fun e => asks_scope e = false) l2
}.

(** The variables after the directives [p]. *)
Record applied_state (p : list directive) (a : applying) : Prop := {
  as_newScope : ap_newScope a = head (List.filter asks_scope p);
  as_isolate : ap_isolate a = head (List.filter is_isolate p);
  as_controllers : ap_controllers a = map (fun d => (name_text d, d)) (List.filter has_controller p);
  as_template : ap_template a = head (List.filter has_template p);
  as_terminal : ap_isTerminal a = existsb d_terminal p;
  as_compatible : compatible p
}.

(** Neither a range nor a template that is computed, nor a name that the table of
    controllers inherits. *)
Definition plain_directive (d : directive) : bool :=
  match d_range d with None => true | Some _ => false end && match d_template d with Some (TFun _) => false | _ => true end &&
  negb (object_name (name_text d)).

Lemma filter_snoc (f : directive -> bool) p d : List.filter f (p ++ [d]) = List.filter f p ++ (if f d then [d] else []).
Proof. rewrite List.filter_app. simpl. by destruct (f d). Qed.

Lemma head_snoc {A} (l : list A) x : head (l ++ [x]) = match head l with Some y => Some y | None => Some x end.
Proof. by destruct l. Qed.

Lemma compatible_snoc p d : compatible (p ++ [d]) <->
  compatible p /\ (has_template d = true -> List.filter has_template p = []) /\
  (has_controller d = true -> name_text d ∉ map name_text (List.filter has_controller p)) /\
  (asks_scope d = true -> List.filter is_isolate p = []).
Proof.
  split.
  - intros [Ht Hc Hs]. rewrite filter_snoc in Ht, Hc. rewrite map_app in Hc. rewrite length_app in Ht.
    split; [split|split; [|split]].
    + lia.
    + by apply NoDup_app in Hc as (? & _).
    + intros l1 e l2 -> He. specialize (Hs l1 e (l2 ++ [d])). rewrite <- app_assoc in Hs. specialize (Hs eq_refl He).
      by apply Forall_app in Hs as [? _].
    + intros Hd. rewrite Hd in Ht. simpl in Ht. destruct (List.filter has_template p); [done|simpl in Ht; lia].
    + intros Hd Hin. rewrite Hd in Hc. apply NoDup_app in Hc as (_ & Hc & _). apply (Hc _ Hin). simpl. by left.
    + intros Hd. destruct (List.filter is_isolate p) as [|e es] eqn:Hf; [done|]. exfalso.
      assert (He : In e (List.filter is_isolate p)) by (rewrite Hf; by left). apply filter_In in He as [He Hi].
      apply in_split in He as (l1 & l2 & ->). specialize (Hs l1 e (l2 ++ [d])). rewrite <- app_assoc in Hs. specialize (Hs eq_refl Hi).
      apply Forall_app in Hs as [_ Hs]. apply Forall_cons in Hs as [Hs _]. congruence.
  - intros ([Ht Hc Hs] & Hdt & Hdc & Hds). split.
    + rewrite filter_snoc, length_app. destruct (has_template d); simpl; [rewrite Hdt by done; simpl; lia|lia].
    + rewrite filter_snoc, map_app. destruct (has_controller d); simpl; [|by rewrite app_nil_r].
      apply NoDup_app. split_and!; [done| |apply NoDup_singleton]. intros x Hx ->%list_elem_of_singleton. by apply Hdc.
    + intros l1 e l2 Heq He. destruct l2 as [|x l2' _] using rev_ind; [constructor|].
      rewrite app_comm_cons, app_assoc in Heq. apply app_inj_tail in Heq as [-> ->]. apply Forall_app. split; [by eapply Hs|].
      constructor; [|constructor]. destruct (asks_scope x) eqn:Hx; [|done]. specialize (Hds eq_refl).
      rewrite List.filter_app in Hds. simpl in Hds. rewrite He in Hds. by destruct (List.filter is_isolate l1).
Qed.

Lemma alookup_controllers k (p : list directive) :
  alookup k (map (fun d => (name_text d, d)) p) = None <-> k ∉ map name_text p.
Proof.
  induction p as [|d p IH]; simpl; [split; [by intros _ ?%not_elem_of_nil|done]|].
  rewrite not_elem_of_cons. destruct (String.eqb_spec (name_text d) k) as [->|]; [naive_solver|]. rewrite IH. naive_solver.
Qed.

Lemma aset_fresh {A} k (v : A) l : alookup k l = None -> aset k v l = l ++ [(k, v)].
Proof. induction l as [|[k' v'] l IH]; simpl; [done|]. destruct (String.eqb k' k); [done|]. intros H. by rewrite IH. Qed.

Lemma head_none {A} (l : list A) : head l = None <-> l = [].
Proof. by destruct l. Qed.

Lemma ask_scope_spec d a : ask_scope d a =
  match ap_isolate a with
  | Some p => if asks_scope d then Err (Multidir (d_name p) (d_name d) "new/isolated scope") else Ok a
  | None => Ok (Applying (ap_terminal a) (match ap_newScope a with Some n => Some n | None => if asks_scope d then Some d else None end)
                  (if is_isolate d then Some d else None)
                  (ap_controllers a) (ap_template a) (ap_node a) (ap_attrs a) (ap_pre a) (ap_post a) (ap_isTerminal a) (ap_log a))
  end.
Proof.
  unfold ask_scope, asks_scope, is_isolate, assertNoDuplicate. destruct (d_scope d); simpl.
  all: destruct (ap_isolate a) eqn:Hi; simpl; try done. destruct a as [? ns]; simpl in *; subst. by destruct ns.
Qed.

Lemma ask_controller_spec d a : ask_controller d a =
  if has_controller d
  then match alookup (name_text d) (ap_controllers a) with
       | Some p => Err (Multidir (d_name p) (d_name d) ("'" +:+ name_text d +:+ "' controller"))
       | None => Ok (Applying (ap_terminal a) (ap_newScope a) (ap_isolate a) (ap_controllers a ++ [(name_text d, d)])
                       (ap_template a) (ap_node a) (ap_attrs a) (ap_pre a) (ap_post a) (ap_isTerminal a) (ap_log a))
       end
  else Ok a.
Proof.
  unfold ask_controller, has_controller, assertNoDuplicate. destruct (d_controller d); [|done].
  destruct (alookup _ _) eqn:Hl; simpl; [done|]. by rewrite aset_fresh.
Qed.

(** What the call of a compile function and [set_terminal] leave alone. *)
Lemma call_compile_keeps path group d a : let a' := set_terminal d (call_compile path group d a) in
  ap_newScope a' = ap_newScope a /\ ap_isolate a' = ap_isolate a /\ ap_controllers a' = ap_controllers a /\
  ap_template a' = ap_template a /\ ap_isTerminal a' = d_terminal d || ap_isTerminal a /\
  ap_terminal a' = (if d_terminal d then Some (match ap_terminal a with Some t => Z.max t (d_priority d) | None => d_priority d end) else ap_terminal a).
Proof.
  simpl. unfold set_terminal. assert (H : forall b, b = call_compile path group d a ->
    ap_newScope b = ap_newScope a /\ ap_isolate b = ap_isolate a /\ ap_controllers b = ap_controllers a /\
    ap_template b = ap_template a /\ ap_isTerminal b = ap_isTerminal a /\ ap_terminal b = ap_terminal a).
  { intros b ->. unfold call_compile. destruct (d_compile d) as [[fn|l]|]; try done. destruct (run_compile fn _ _) as [[n attrs] [l|e]]; done. }
  destruct (H _ eq_refl) as (H1 & H2 & H3 & H4 & H5 & H6). by destruct (d_terminal d); simpl; rewrite ?H1, ?H2, ?H3, ?H4, ?H5, ?H6.
Qed.

Definition refused (d : directive) (p : list directive) (e : error) : Prop :=
  (exists x y w, e = Multidir x y w) /\ ~ compatible (p ++ [d]).

Lemma isolate_asks d : is_isolate d = true -> asks_scope d = true.
Proof. unfold is_isolate, asks_scope. by destruct (d_scope d). Qed.

Lemma scope_asked d p a : ap_newScope a = head (List.filter asks_scope p) -> ap_isolate a = head (List.filter is_isolate p) ->
  match ask_scope d a with
  | Ok a' => ap_newScope a' = head (List.filter asks_scope (p ++ [d])) /\ ap_isolate a' = head (List.filter is_isolate (p ++ [d])) /\
             (asks_scope d = true -> List.filter is_isolate p = []) /\
             ap_controllers a' = ap_controllers a /\ ap_template a' = ap_template a /\ ap_isTerminal a' = ap_isTerminal a /\ ap_terminal a' = ap_terminal a
  | Err e => refused d p e
  end.
Proof.
  intros Hns Hiso. rewrite ask_scope_spec, !filter_snoc. destruct (ap_isolate a) as [q|] eqn:Hq.
  - destruct (asks_scope d) eqn:Hd.
    + split; [by eauto|]. intros (_ & _ & _ & Hs)%compatible_snoc. by rewrite Hs in Hiso.
    + destruct (is_isolate d) eqn:Hi; [by rewrite isolate_asks in Hd|]. rewrite !app_nil_r, Hns, <- Hiso. done.
  - symmetry in Hiso. apply head_none in Hiso. rewrite Hiso. simpl. split_and!; try done.
    + rewrite Hns. destruct (asks_scope d); [by rewrite head_snoc|]. rewrite app_nil_r. by destruct (head _).
    + by destruct (is_isolate d).
Qed.

Lemma controller_asked d p a : ap_controllers a = map (fun d => (name_text d, d)) (List.filter has_controller p) ->
  match ask_controller d a with
  | Ok a' => ap_controllers a' = map (fun d => (name_text d, d)) (List.filter has_controller (p ++ [d])) /\
             (has_controller d = true -> name_text d ∉ map name_text (List.filter has_controller p)) /\
             ap_newScope a' = ap_newScope a /\ ap_isolate a' = ap_isolate a /\ ap_template a' = ap_template a /\
             ap_isTerminal a' = ap_isTerminal a /\ ap_terminal a' = ap_terminal a
  | Err e => refused d p e
  end.
Proof.
  intros Hc. rewrite ask_controller_spec, !filter_snoc. destruct (has_controller d) eqn:Hd.
  - rewrite Hc. destruct (alookup (name_text d) _) as [q|] eqn:Hl.
    + split; [by eauto|]. intros (_ & _ & Hs & _)%compatible_snoc. apply Hs, alookup_controllers in Hd. by rewrite Hl in Hd.
    + apply alookup_controllers in Hl. rewrite map_app. done.
  - by rewrite app_nil_r.
Qed.

Lemma template_asked d p a : plain_directive d = true -> ap_template a = head (List.filter has_template p) ->
  match ask_template d a with
  | Ok a' => ap_template a' = head (List.filter has_template (p ++ [d])) /\ (has_template d = true -> List.filter has_template p = []) /\
             ap_newScope a' = ap_newScope a /\ ap_isolate a' = ap_isolate a /\ ap_controllers a' = ap_controllers a /\
             ap_isTerminal a' = ap_isTerminal a /\ ap_terminal a' = ap_terminal a
  | Err e => refused d p e
  end.
Proof.
  intros Hp Ht. unfold plain_directive in Hp. apply andb_true_iff in Hp as [[_ Hp]%andb_true_iff _]. rewrite filter_snoc.
  unfold ask_template, has_template at 2 3 4, assertNoDuplicate. destruct (d_template d) as [t|] eqn:Hd; [|by rewrite app_nil_r].
  destruct t as [s|fn]; [|done]. destruct (ap_template a) as [q|]; simpl.
  - split; [by eauto|]. intros (_ & Hs & _)%compatible_snoc. unfold has_template at 1 in Hs. rewrite Hd in Hs. by rewrite Hs in Ht.
  - symmetry in Ht. apply head_none in Ht. by rewrite Ht.
Qed.

(** One directive: the questions it may be refused on, and the state it leaves. *)
Lemma ask_all d p a : plain_directive d = true -> applied_state p a ->
  match (a ← ask_scope d a; a ← ask_controller d a; ask_template d a) with
  | Ok a' => (forall path group, applied_state (p ++ [d]) (set_terminal d (call_compile path group d a'))) /\ ap_terminal a' = ap_terminal a
  | Err e => refused d p e
  end.
Proof.
  intros Hp [Hns Hiso Hctl Htpl Hterm Hcm].
  pose proof (scope_asked d p a Hns Hiso) as H1. destruct (ask_scope d a) as [a1|e]; [|done]. simpl.
  destruct H1 as (Hns1 & Hiso1 & Hok1 & Hctl1 & Htpl1 & Hterm1 & Ht1). rewrite <- Hctl1 in Hctl.
  pose proof (controller_asked d p a1 Hctl) as H2. destruct (ask_controller d a1) as [a2|e]; [|done]. simpl.
  destruct H2 as (Hctl2 & Hok2 & Hns2 & Hiso2 & Htpl2 & Hterm2 & Ht2). rewrite <- Htpl1, <- Htpl2 in Htpl.
  pose proof (template_asked d p a2 Hp Htpl) as H3. destruct (ask_template d a2) as [a3|e]; [|done].
  destruct H3 as (Htpl3 & Hok3 & Hns3 & Hiso3 & Hctl3 & Hterm3 & Ht3). split; [|congruence]. intros path group.
  destruct (call_compile_keeps path group d a3) as (K1 & K2 & K3 & K4 & K5 & K6). split; try congruence.
  - rewrite K5, existsb_app. simpl. rewrite orb_false_r, orb_comm. congruence.
  - apply compatible_snoc. done.
Qed.

Lemma compatible_prefix p q : compatible (p ++ q) -> compatible p.
Proof.
  revert p. induction q as [|d q IH]; intros p; [by rewrite app_nil_r|].
  replace (p ++ d :: q) with ((p ++ [d]) ++ q) by by rewrite <- app_assoc. by intros [Hc _]%IH%compatible_snoc.
Qed.

Lemma apply_directives_spec path siblings ds : forallb plain_directive ds = true -> forall p a group, applied_state p a ->
  match apply_directives path siblings group ds a with
  | Ok a' => applied_state (p ++ applied (ap_terminal a) ds) a'
  | Err e => (exists x y w, e = Multidir x y w) /\ ~ compatible (p ++ applied (ap_terminal a) ds)
  end.
Proof.
  induction ds as [|d ds IH]; intros Hds p a group Ha; cbn [apply_directives applied]; [by rewrite app_nil_r|].
  cbn [forallb] in Hds. apply andb_true_iff in Hds as [Hd Hds].
  assert (Hg : next_group d a siblings group = Ok group).
  { unfold next_group. unfold plain_directive in Hd. by destruct (d_range d). }
  rewrite Hg. simpl. destruct (priority_cut (ap_terminal a) d); [by rewrite app_nil_r|].
  pose proof (ask_all d p a Hd Ha) as H.
  assert (Hsplit : forall q, p ++ d :: q = (p ++ [d]) ++ q) by (intros q; by rewrite <- app_assoc).
  destruct (ask_scope d a) as [a1|e]; [|destruct H as [He Hn]; split; [done|]; rewrite Hsplit; by intros Hc%compatible_prefix].
  simpl in *. destruct (ask_controller d a1) as [a2|e]; [|destruct H as [He Hn]; split; [done|]; rewrite Hsplit; by intros Hc%compatible_prefix].
  simpl in *. destruct (ask_template d a2) as [a3|e]; [|destruct H as [He Hn]; split; [done|]; rewrite Hsplit; by intros Hc%compatible_prefix].
  destruct H as [Hs Ht]. simpl. rewrite Hsplit. specialize (IH Hds _ _ group (Hs path group)).
  rewrite <- Ht. destruct (call_compile_keeps path group d a3) as (_ & _ & _ & _ & _ & K6). by rewrite K6 in IH.
Qed.

(** No terminal directive of a higher priority. *)
Definition unshadowed (ds : list directive) (d : directive) : bool :=
  forallb (fun e => negb (d_terminal e && (d_priority e >? d_priority d))) ds.

Definition higher (a b : directive) : Prop := d_priority b <= d_priority a.

Lemma priority_cut_max (t : option Z) (d x : directive) : priority_cut (Some (match t with Some t => Z.max t (d_priority d) | None => d_priority d end)) x =
  priority_cut t x || (d_priority d >? d_priority x).
Proof.
  destruct t as [t|]; simpl; [|done].
  destruct (Z.gtb_spec (Z.max t (d_priority d)) (d_priority x)), (Z.gtb_spec t (d_priority x)), (Z.gtb_spec (d_priority d) (d_priority x)); simpl; lia.
Qed.

Lemma filter_ext_bool {A} (f g : A -> bool) l : (forall x, In x l -> f x = g x) -> List.filter f l = List.filter g l.
Proof. intros H. by apply List.filter_ext_in. Qed.

Lemma filter_nothing {A} (l : list A) : List.filter (fun _ => false) l = [].
Proof. by induction l. Qed.

Lemma applied_filter ds : StronglySorted higher ds -> forall t,
  applied t ds = List.filter (fun d => negb (priority_cut t d) && unshadowed ds d) ds.
Proof.
  induction 1 as [|d ds Hs IH Hd]; intros t; [done|]. cbn [applied]. pose proof (proj1 (List.Forall_forall _ _) Hd) as Hin.
  assert (Hself : unshadowed (d :: ds) d = true).
  { apply forallb_forall. intros e [<-|He]; apply negb_true_iff, andb_false_iff; right; [lia|]. specialize (Hin e He). unfold higher in Hin. lia. }
  cbn [List.filter]. rewrite Hself, andb_true_r. destruct (priority_cut t d) eqn:Hc; simpl.
  - symmetry. rewrite (filter_ext_bool _ (fun _ => false)), filter_nothing; [done|].
    intros x Hx. specialize (Hin x Hx). unfold higher in Hin. destruct t as [t|]; [|done]. simpl in *.
    replace (t >? d_priority x) with true by lia. done.
  - f_equal. rewrite IH. apply filter_ext_bool. intros x Hx.
    change (unshadowed (d :: ds) x) with (negb (d_terminal d && (d_priority d >? d_priority x)) && unshadowed ds x).
    destruct (d_terminal d); [rewrite priority_cut_max|]; simpl; destruct (priority_cut t x), (d_priority d >? d_priority x); done.
Qed.

Lemma insert_higher (x : directive) l : StronglySorted higher l -> StronglySorted higher (array_insert byPriority x l).
Proof.
  assert (Hcmp : forall a b : directive, (byPriority a b <= 0 -> d_priority b <= d_priority a) /\ (0 < byPriority a b -> d_priority a <= d_priority b)).
  { intros a b. unfold byPriority. destruct (Z.eqb_spec (d_priority b - d_priority a) 0); simpl; [|lia].
    split; lia. }
  induction 1 as [|y l Hs IH Hy]; simpl; [repeat constructor|]. destruct (Z.leb_spec (byPriority x y) 0) as [Hle|Hgt].
  - constructor; [by constructor|]. apply Hcmp in Hle. constructor; [done|].
    eapply List.Forall_impl; [|exact Hy]. unfold higher. intros z Hz. lia.
  - constructor; [done|]. rewrite insert_perm. constructor; [|done]. by apply Hcmp in Hgt.
Qed.

Lemma sort_higher (l : list directive) : StronglySorted higher (array_sort byPriority l).
Proof. induction l as [|x l IH]; [constructor|]. by apply insert_higher. Qed.

Lemma unshadowed_perm (l l' : list directive) d : l ≡ₚ l' -> unshadowed l d = unshadowed l' d.
Proof.
  intros Hp. apply eq_true_iff_eq. unfold unshadowed. rewrite !forallb_forall.
  split; intros H x Hx; apply H; [by rewrite Hp|by rewrite <- Hp].
Qed.

(** ** Linking *)

(** What a link function gets for its [require]. *)
Inductive ctrls := CtNone | CtOne (controller : option nat) | CtMany (controllers : list ctrls).

(** What is seen of the linking, in order. *)
Inductive levent :=
| LScope (path : list nat) (scope : nat)
| LIsolate (path : list nat) (scope : nat) (withTemplate : bool)
| LBind (path : list nat) (scopeName : string) (mode : ascii) (attrName : string)
| LController (path : list nat) (name : string) (scope instance : nat)
| LAs (scope : nat) (name : string) (instance : nat)
| LPre (fn : linkfn) (path : list nat) (scope : nat) (controllers : ctrls) (nodes : nat)
| LPost (fn : linkfn) (path : list nat) (scope : nat) (controllers : ctrls) (nodes : nat)
| LHandled (e : error) (path : list nat).

Section Link.
Context {W : Type} `{!ScopeStore W}.

Record linking := Linking {
  ls_world : W;
  ls_data : gmap (list nat * string) nat;   (** ['$' + name + 'Controller'] of the nodes *)
  ls_log : list levent
}.

(** A part of the linking: the state it leaves, and what it throws. *)
Definition step : Type := linking -> linking * option error.

Definition skip : step := fun s => (s, None).
Definition raise (e : error) : step := fun s => (s, Some e).
Definition seq (m1 m2 : step) : step := fun s =>
  match m1 s with (s, None) => m2 s | r => r end.
Definition log (es : list levent) : step := fun s => (Linking (ls_world s) (ls_data s) (ls_log s ++ es), None).
Definition set_data (path : list nat) (name : string) (i : nat) : step := fun s =>
  (Linking (ls_world s) (<[(path, name) := i]> (ls_data s)) (ls_log s), None).
Definition in_world (f : W -> W * option E) : step := fun s =>
  let '(w, r) := f (ls_world s) in (Linking w (ls_data s) (ls_log s), App <$> r).

(** [try]: what is thrown goes to [$exceptionHandler]. *)
Definition attempt (path : list nat) (m : step) : step := fun s =>
  match m s with (s, Some e) => log [LHandled e path] s | r => r end.

Definition with_new (isolate : bool) (parent : nat) (k : nat -> step) : step := fun s =>
  let '(i, w) := scope_new isolate parent (ls_world s) in k i (Linking w (ls_data s) (ls_log s)).

Context (run_link : linkfn -> nat -> list nat -> ctrls -> W -> W * option E).
Context (bind_local : ascii -> bool -> string -> string -> attributes -> nat -> nat -> W -> W * option E).
Context (instantiate : option controller_def -> nat -> list nat -> W -> W * result E nat).
(** [inheritedData] of the node around the linked ones. *)
Context (outer : string -> option nat).

(** [LOCAL_REGEXP]: the mode, whether it is optional, and the name. *)
Definition local_match (definition : string) : option (ascii * bool * string) :=
  match trim_start definition with
  | String mode s =>
      if Ascii.eqb mode "@" || Ascii.eqb mode "=" || Ascii.eqb mode "&" then
        let '(optional, s) := match s with String "?" s => (true, s) | _ => (false, s) end in
        let '(name, s) := span (fun c => word_char c && negb (Ascii.eqb c "-")) (trim_start s) in
        if String.eqb (trim_start s) "" then Some (mode, optional, name) else None
      else None
  | EmptyString => None
  end.

(** One local of an isolate scope. *)
Definition link_local (d : directive) (attrs : attributes) (path : list nat) (scope isolateScope : nat) (l : string * string) : step :=
  match local_match l.2 with
  | None => raise (Iscp (d_name d) l.1 l.2)
  | Some (mode, optional, name) =>
      let attrName := if String.eqb name "" then l.1 else name in
      seq (log [LBind path l.1 mode attrName]) (in_world (bind_local mode optional l.1 attrName attrs scope isolateScope))
  end.

Definition for_each {A} (f : A -> step) (l : list A) : step := foldr (fun x m => seq (f x) m) skip l.

Definition locals_of (d : directive) : list (string * string) := match d_scope d with IsolateScope l => l | _ => [] end.

(** Creating the isolate scope, if a directive asks for one. *)
Definition link_isolate (nl : node_link) (path : list nat) (scope : nat) (k : option nat -> step) : step :=
  match nl_isolate nl with
  | None => k None
  | Some d =>
      with_new true scope (fun i =>
        seq (log [LIsolate path i (bool_decide (nl_template nl = Some d))])
          (seq (for_each (link_local d (nl_attrs nl) path scope i) (locals_of d)) (k (Some i))))
  end.

Definition attr_controller (name : string) (attrs : attributes) : option controller_def :=
  match alookup name (at_own attrs) with Some (AStr s) => Some (CName s) | _ => None end.

Definition same_controller (c : controller_def) (name : string) : bool :=
  match c with CName s => String.eqb s name | CFun _ => false end.

(** The controllers; [$controller] is not guarded. *)
Fixpoint link_controllers (nl : node_link) (path : list nat) (scope : nat) (isolateScope : option nat)
    (ds : list (string * directive)) (elementControllers : list (string * nat)) (k : list (string * nat) -> step) : step :=
  match ds with
  | [] => k elementControllers
  | (name, d) :: ds => fun s =>
      let scope' := if bool_decide (nl_isolate nl = Some d) then default scope isolateScope else scope in
      let controller := match d_controller d with
                        | Some c => if same_controller c "@" then attr_controller name (nl_attrs nl) else Some c
                        | None => None
                        end in
      let '(w, r) := instantiate controller scope' path (ls_world s) in
      let s := Linking w (ls_data s) (ls_log s) in
      match r with
      | Err e => (s, Some (App e))
      | Ok i =>
          seq (set_data path name i)
            (seq (log (LController path name scope' i :: match d_controllerAs d with Some n => [LAs scope' n i] | None => [] end))
               (link_controllers nl path scope isolateScope ds (aset name i elementControllers) k)) s
      end
  end.

(** The marks before a required name: inherited, optional, and the name. *)
Fixpoint strip_marks (inherited optional : bool) (name : string) : bool * bool * string :=
  match name with
  | String "^" s => strip_marks true optional s
  | String "?" s => strip_marks inherited true s
  | _ => (inherited, optional, name)
  end.

Fixpoint inheritedData (data : gmap (list nat * string) nat) (path : list nat) (name : string) : option nat :=
  match path with
  | [] => outer name
  | _ :: up => match data !! (path, name) with Some i => Some i | None => inheritedData data up name end
  end.

Definition get_controller (directiveName : option string) (name : string) (path : list nat) (elementControllers : list (string * nat))
    (data : gmap (list nat * string) nat) : result error (option nat) :=
  let '(inherited, optional, require) := strip_marks false false name in
  let value := if inherited then None else alookup require elementControllers in
  let value := match value with
               | Some i => Some i
               | None => if inherited then inheritedData data path require else data !! (path, require)
               end in
  if bool_decide (value = None) && negb optional then Err (Ctreq require directiveName) else Ok value.

Fixpoint getControllers (directiveName : option string) (require : require_def) (path : list nat) (elementControllers : list (string * nat))
    (data : gmap (list nat * string) nat) : result error ctrls :=
  match require with
  | RNone => Ok CtNone
  | RStr name => v ← get_controller directiveName name path elementControllers data; Ok (CtOne v)
  | RArr names =>
      vs ← (fix go (names : list require_def) : result error (list ctrls) :=
              match names with
              | [] => Ok []
              | r :: names =>
                  v ← match r with
                      | RNone => Ok (CtOne None)
                      | _ => getControllers directiveName r path elementControllers data
                      end;
                  vs ← go names; Ok (v :: vs)
              end) names;
      Ok (CtMany vs)
  end.

(** [EVENT_HANDLER_ATTR_REGEXP.test]. *)
Definition event_handler_attr (name : string) : bool :=
  String.eqb name "formaction" ||
  match strip "on" name with
  | Some s => negb (String.eqb s "") && all_chars (fun c => let n := nat_of_ascii c in ((97 <=? n) && (n <=? 122))%nat) s
  | None => false
  end.

Definition link_function (fn : linkfn) (scope : nat) (path : list nat) (c : ctrls) : step :=
  match fn with
  | LAttr name _ => if event_handler_attr name then raise Nodomevents else in_world (run_link fn scope path c)
  | _ => in_world (run_link fn scope path c)
  end.

(** One turn of the loops over [preLinkFns] and [postLinkFns]. *)
Definition link_annotated (pre : bool) (nl : node_link) (path : list nat) (n : node) (siblings : list node) (scope : nat)
    (isolateScope : option nat) (elementControllers : list (string * nat)) (f : annotated) : step :=
  attempt path (fun s =>
    match getControllers (lf_name f) (lf_require f) path elementControllers (ls_data s) with
    | Err e => (s, Some e)
    | Ok c =>
        match match lf_range f with
              | None => Some [n]
              | Some (start, stop) => groupScan start stop n siblings
              end with
        | None => (s, match lf_range f with Some (start, stop) => Some (Uterdir start stop) | None => None end)
        | Some ns =>
            let scope := if lf_isolate f then default scope isolateScope else scope in
            seq (log [(if pre then LPre else LPost) (lf_fn f) path scope c (length ns)]) (link_function (lf_fn f) scope path c) s
        end
    end).

(** [nodeLinkFn]; [child] links the child nodes. *)
Definition link_node (nl : node_link) (child : nat -> step) (path : list nat) (n : node) (siblings : list node) (scope : nat) : step :=
  link_isolate nl path scope (fun isolateScope =>
    link_controllers nl path scope isolateScope (nl_controllers nl) [] (fun elementControllers =>
      seq (for_each (link_annotated true nl path n siblings scope isolateScope elementControllers) (nl_pre nl))
        (seq (child (match nl_isolate nl with
                     | Some d => match d_template d with Some _ => default scope isolateScope | None => scope end
                     | None => scope
                     end))
           (for_each (link_annotated false nl path n siblings scope isolateScope elementControllers) (reverse (nl_post nl)))))).

(** [compositeLinkFn]; the nodes are those the list held when it was called.
    Where there are fewer of them than were compiled the model stops. *)
Definition link_entry (rec : composite -> list nat -> nat -> list node -> step) (path : list nat) (scope : nat) (nodes : list node)
    (i : nat) (fns : option node_link * option composite) : step :=
  match fns with
  | (None, None) => skip
  | (nodeLinkFn, childLinkFn) =>
      match nodes !! i with
      | None => raise NodeMissing
      | Some n =>
          let child := fun scope => match childLinkFn with
                                    | Some c => rec c (i :: path) scope (children n)
                                    | None => skip
                                    end in
          match nodeLinkFn with
          | Some nl =>
              if nl_scope nl
              then with_new false scope (fun childScope =>
                     seq (log [LScope (i :: path) childScope])
                       (link_node nl child (i :: path) n (drop (S i) nodes) childScope))
              else link_node nl child (i :: path) n (drop (S i) nodes) scope
          | None => child scope
          end
      end
  end.

Definition link_entries (rec : composite -> list nat -> nat -> list node -> step) (path : list nat) (scope : nat) (nodes : list node) :
    nat -> list (option node_link * option composite) -> step :=
  fix go i fns :=
    match fns with
    | [] => skip
    | p :: fns => seq (link_entry rec path scope nodes i p) (go (S i) fns)
    end.

Fixpoint link_composite (c : composite) (path : list nat) (scope : nat) (nodes : list node) : step :=
  match c with Composite fns => link_entries link_composite path scope nodes 0 fns end.

Definition is_root_scope (n : node) : bool :=
  match n with Element _ _ _ _ => true | OtherNode t _ => (t =? 9)%nat | _ => false end.

(** [publicLinkFn], on the nodes or on a clone of them. *)
Definition publicLinkFn (compositeLinkFn : option composite) (nodes : list node) (scope : nat) (transcludeControllers : list (string * nat)) : step :=
  seq (for_each (fun p : string * nat => for_each (fun i => set_data [i] p.1 p.2) (List.seq 0 (length nodes))) transcludeControllers)
    (seq (for_each (fun i => match nodes !! i with
                             | Some n => if is_root_scope n then log [LScope [i] scope] else skip
                             | None => skip
                             end) (List.seq 0 (length nodes)))
       (match compositeLinkFn with Some c => link_composite c [] scope nodes | None => skip end)).

(** ** A reference: linking a template by recursion on its nodes

    One recursion does what the compiler and the linker do in two passes: at each
    node its directives are found, and the node is linked with, as its children's
    part, the same recursion.  No link function is skipped for being null. *)

Definition ref_node (rec : list nat -> list node -> list node -> nat -> step) (maxPriority : option Z) (ignoreDirective : option string)
    (path : list nat) (n : node) (siblings : list node) (live : node) (live_siblings : list node) (scope : nat) : step :=
  match collectDirectives registry interpolate Selmulti maxPriority ignoreDirective n [] new_attributes with
  | Err _ => skip
  | Ok ([], _) => rec path (children n) (children live) scope
  | Ok (ds, attrs) =>
      match applyDirectivesToNode path siblings ds n attrs with
      | Err _ => skip
      | Ok a =>
          let nl := finish_applying a in
          let child := fun scope => if nl_terminal nl then skip else rec path (children (ap_node a)) (children live) scope in
          if nl_scope nl
          then with_new false scope (fun childScope =>
                 seq (log [LScope path childScope]) (link_node nl child path live live_siblings childScope))
          else link_node nl child path live live_siblings scope
      end
  end.

Fixpoint ref_list (rec : list nat -> list node -> list node -> nat -> step) (maxPriority : option Z) (ignoreDirective : option string)
    (path : list nat) (i : nat) (nodes live : list node) (scope : nat) : step :=
  match nodes, live with
  | n :: rest, l :: live =>
      seq (ref_node rec (if (i =? 0)%nat then maxPriority else None) ignoreDirective (i :: path) n rest l live scope)
        (ref_list rec maxPriority ignoreDirective path (S i) rest live scope)
  | _, _ => skip
  end.

Fixpoint reference (fuel : nat) (maxPriority : option Z) (ignoreDirective : option string)
    (path : list nat) (nodes live : list node) (scope : nat) : step :=
  match fuel with
  | O => skip
  | S fuel => ref_list (reference fuel None None) maxPriority ignoreDirective path 0 nodes live scope
  end.

(** ** The two passes are the reference *)

Lemma seq_ext m1 m1' m2 m2' : (forall s, m1 s = m1' s) -> (forall s, m2 s = m2' s) -> forall s, seq m1 m2 s = seq m1' m2' s.
Proof. intros H1 H2 s. unfold seq. rewrite H1. destruct (m1' s) as [s' [e|]]; [done|apply H2]. Qed.

Lemma seq_skip m s : seq skip m s = m s.
Proof. done. Qed.

Lemma with_new_ext isolate parent k k' : (forall i s, k i s = k' i s) -> forall s, with_new isolate parent k s = with_new isolate parent k' s.
Proof. intros Hk s. unfold with_new. destruct (scope_new isolate parent (ls_world s)). apply Hk. Qed.

Lemma link_controllers_ext nl path scope iso ds k k' : (forall c s, k c s = k' c s) ->
  forall c s, link_controllers nl path scope iso ds c k s = link_controllers nl path scope iso ds c k' s.
Proof.
  intros Hk. induction ds as [|[name d] ds IH]; intros c s; cbn [link_controllers]; [apply Hk|].
  destruct (instantiate _ _ _ _) as [w [i|e]]; [|done]. repeat apply seq_ext; done.
Qed.

Lemma link_isolate_ext nl path scope k k' : (forall i s, k i s = k' i s) ->
  forall s, link_isolate nl path scope k s = link_isolate nl path scope k' s.
Proof.
  intros Hk s. unfold link_isolate. destruct (nl_isolate nl) as [d|]; [|apply Hk].
  apply with_new_ext. intros i. repeat apply seq_ext; done.
Qed.

Lemma link_node_ext nl child child' path n siblings scope : (forall i s, child i s = child' i s) ->
  forall s, link_node nl child path n siblings scope s = link_node nl child' path n siblings scope s.
Proof.
  intros Hc. apply link_isolate_ext. intros iso. apply link_controllers_ext. intros ec. repeat apply seq_ext; done.
Qed.

Lemma composite_entries fns path scope live s :
  match composite_of fns with Some c => link_composite c path scope live | None => skip end s =
  link_entries link_composite path scope live 0 fns s.
Proof.
  unfold composite_of. destruct (found fns) eqn:Hf; [done|]. symmetry. generalize 0%nat.
  induction fns as [|[nl cl] fns IH]; intros i; [done|]. cbn [found existsb] in Hf. apply orb_false_iff in Hf as [Hp Hf].
  destruct nl, cl; try done. cbn [link_entries link_entry]. rewrite seq_skip. by apply IH.
Qed.

Definition run_child (cl : option composite) (path : list nat) (scope : nat) (live : list node) : step :=
  match cl with Some c => link_composite c path scope live | None => skip end.

Lemma with_children_get n kids : children n <> [] -> children (with_children kids n) = kids.
Proof. by destruct n. Qed.

(** What compiling a node found: its directives, what applying them made, and
    how its children were left. *)
Record compiled (rec : list nat -> list node -> result error (option composite * list node * list cevent))
    (maxPriority : option Z) (ignoreDirective : option string) (path : list nat) (rest : list node) (n : node)
    (fns : option node_link * option composite) (n' : node) (ds : list directive) (attrs : attributes) (a : option applying) : Prop := {
  cp_directives : collectDirectives registry interpolate Selmulti maxPriority ignoreDirective n [] new_attributes = Ok (ds, attrs);
  cp_applied : match a with
               | None => ds = []
               | Some a => ds <> [] /\ applyDirectivesToNode path rest ds n attrs = Ok a
               end;
  cp_link : fns.1 = finish_applying <$> a;
  cp_children : let m := match a with Some a => ap_node a | None => n end in
    let stop := match a with Some a => ap_isTerminal a | None => false end in
    (stop = true \/ children m = []) /\ fns.2 = None /\ n' = m \/
    stop = false /\ children m <> [] /\ exists kids l, rec path (children m) = Ok (fns.2, kids, l) /\ n' = with_children kids m
}.

Lemma compile_node_compiled rec maxPriority ignoreDirective path rest n fns n' log0 :
  compile_node rec maxPriority ignoreDirective path rest n = Ok (fns, n', log0) ->
  exists ds attrs a, compiled rec maxPriority ignoreDirective path rest n fns n' ds attrs a.
Proof.
  intros Hc. unfold compile_node in Hc. inv_result. destruct a as [ds attrs]. inv_result. exists ds, attrs, a.
  assert (Ha' : match a with None => ds = [] | Some a => ds <> [] /\ applyDirectivesToNode path rest ds n attrs = Ok a end).
  { destruct ds as [|d ds]; [by simplify_eq|]. inv_result. by subst a. }
  set (m := match a with Some a => ap_node a | None => n end) in *.
  set (stop := match a with Some a => ap_isTerminal a | None => false end).
  replace (match finish_applying <$> a with Some l => nl_terminal l | None => false end) with stop in Hc by by destruct a.
  destruct (stop || bool_decide (children m = [])) eqn:Hs.
  - simplify_eq. constructor; try done. left. split; [|done]. apply orb_true_iff in Hs as [Hs|Hs%bool_decide_eq_true]; auto.
  - apply orb_false_iff in Hs as [Hs Hk%bool_decide_eq_false]. inv_result. destruct a0 as [[c kids] l]. simplify_eq.
    constructor; try done. right. split; [done|]. split; [done|]. by exists kids, l.
Qed.

Section Entry.
Context (rec : list nat -> list node -> result error (option composite * list node * list cevent)).
Context (ref : list nat -> list node -> list node -> nat -> step).
Hypothesis Hrec : forall path nodes c nodes' l, rec path nodes = Ok (c, nodes', l) ->
  forall scope s, run_child c path scope nodes' s = ref path nodes nodes' scope s.
Hypothesis Hnil : forall path scope s, ref path [] [] scope s = (s, None).

#[local] Lemma child_reference maxPriority ignoreDirective path rest n fns n' ds attrs a :
  compiled rec maxPriority ignoreDirective path rest n fns n' ds attrs a ->
  forall scope s, run_child fns.2 path scope (children n') s =
    (if match a with Some a => ap_isTerminal a | None => false end then skip
     else ref path (children match a with Some a => ap_node a | None => n end) (children n') scope) s.
Proof.
  intros [_ _ _ Hch] scope s. simpl in Hch. destruct Hch as [(Hs & -> & ->)|(-> & Hk & kids & l & Hr & ->)].
  - destruct Hs as [-> | Hk]; [done|]. destruct (match a with Some a => ap_isTerminal a | None => false end); [done|].
    rewrite Hk. symmetry. apply Hnil.
  - rewrite with_children_get by done. by eapply Hrec.
Qed.

(** One node: its entry, in a list where it stands at [i]. *)
#[local] Lemma entry_reference maxPriority ignoreDirective path i rest n fns n' log0 pre live scope s :
  compile_node rec maxPriority ignoreDirective (i :: path) rest n = Ok (fns, n', log0) -> length pre = i ->
  link_entry link_composite path scope (pre ++ n' :: live) i fns s =
  ref_node ref maxPriority ignoreDirective (i :: path) n rest n' live scope s.
Proof.
  intros (ds & attrs & a & Hc)%compile_node_compiled Hi. pose proof (child_reference _ _ _ _ _ _ _ _ _ _ Hc) as Hch.
  destruct Hc as [Hd Ha Hl _]. unfold ref_node. rewrite Hd. destruct fns as [nl cl]. simpl in Hl, Hch. subst nl.
  assert (Hat : (pre ++ n' :: live) !! i = Some n') by by apply list_lookup_middle.
  assert (Hdrop : drop (S i) (pre ++ n' :: live) = live) by (rewrite drop_app_ge, Hi by lia; by replace (S i - i)%nat with 1%nat by lia).
  destruct a as [a|].
  - destruct Ha as [Hne Ha]. destruct ds as [|d ds]; [done|]. rewrite Ha. cbn [link_entry fmap option_fmap option_map].
    rewrite Hat, Hdrop. destruct (nl_scope (finish_applying a)).
    + apply with_new_ext. intros j. apply seq_ext; [done|]. apply link_node_ext. apply Hch.
    + apply link_node_ext. apply Hch.
  - subst ds. cbn [link_entry fmap option_fmap option_map]. rewrite <- Hch. destruct cl as [c|]; [|done]. by rewrite Hat.
Qed.

Lemma entries_reference maxPriority ignoreDirective path nodes : forall i fns nodes' log0 pre scope s,
  compile_list rec maxPriority ignoreDirective path i nodes = Ok (fns, nodes', log0) -> length pre = i ->
  link_entries link_composite path scope (pre ++ nodes') i fns s =
  ref_list ref maxPriority ignoreDirective path i nodes nodes' scope s.
Proof.
  induction nodes as [|n rest IH]; intros i fns nodes' log0 pre scope s Hc Hi; cbn [compile_list] in Hc.
  { by simplify_eq. }
  inv_result. destruct a as [[p n'] l]. inv_result. destruct a as [[fnss live] l']. simplify_eq.
  cbn [link_entries ref_list]. apply seq_ext.
  - intros s'. by eapply entry_reference.
  - intros s'. replace (pre ++ n' :: live) with ((pre ++ [n']) ++ live) by by rewrite <- app_assoc. eapply IH; [done|]. rewrite length_app. simpl. lia.
Qed.

End Entry.

Lemma compile_reference fuel : forall maxPriority ignoreDirective path nodes c nodes' log0,
  compileNodes fuel maxPriority ignoreDirective path nodes = Ok (c, nodes', log0) -> forall scope s,
  run_child c path scope nodes' s = reference fuel maxPriority ignoreDirective path nodes nodes' scope s.
Proof.
  induction fuel as [|fuel IH]; intros maxPriority ignoreDirective path nodes c nodes' log0 Hc scope s; [done|].
  cbn [compileNodes] in Hc. inv_result. destruct a as [[fns nodes0] l]. simplify_eq. unfold run_child. rewrite composite_entries.
  cbn [reference]. eapply (entries_reference _ _ (IH None None) ltac:(by destruct fuel) _ _ _ _ 0 _ _ _ []); done.
Qed.

(** ** The order of the calls *)

(** A call of a link function: whether it is a [pre], the function, the node. *)
Definition link_call : Type := bool * linkfn * list nat.

Definition calls_of (l : list levent) : list link_call :=
  omap (fun e => match e with
                 | LPre fn path _ _ _ => Some (true, fn, path)
                 | LPost fn path _ _ _ => Some (false, fn, path)
                 | _ => None
                 end) l.

(** No link function was held back for want of a controller or of the end of its
    range. *)
Definition held_back (e : levent) : bool :=
  match e with LHandled (Ctreq _ _) _ | LHandled (Uterdir _ _) _ => true | _ => false end.
Definition none_held_back (l : list levent) : bool := forallb (fun e => negb (held_back e)) l.

(** The calls of a list of nodes: at each node the [pre]s in the order of the
    directives, then the calls of its children, then the [post]s in the
    opposite order. *)
Definition node_calls (rec : list nat -> list node -> list link_call) (maxPriority : option Z) (ignoreDirective : option string)
    (path : list nat) (n : node) (siblings : list node) : list link_call :=
  match collectDirectives registry interpolate Selmulti maxPriority ignoreDirective n [] new_attributes with
  | Err _ => []
  | Ok ([], _) => rec path (children n)
  | Ok (ds, attrs) =>
      match applyDirectivesToNode path siblings ds n attrs with
      | Err _ => []
      | Ok a =>
          map (fun f => (true, lf_fn f, path)) (ap_pre a) ++
          (if ap_isTerminal a then [] else rec path (children (ap_node a))) ++
          map (fun f => (false, lf_fn f, path)) (reverse (ap_post a))
      end
  end.

Fixpoint list_calls (rec : list nat -> list node -> list link_call) (maxPriority : option Z) (ignoreDirective : option string)
    (path : list nat) (i : nat) (nodes : list node) : list link_call :=
  match nodes with
  | [] => []
  | n :: rest =>
      node_calls rec (if (i =? 0)%nat then maxPriority else None) ignoreDirective (i :: path) n rest ++
      list_calls rec maxPriority ignoreDirective path (S i) rest
  end.

Fixpoint calls (fuel : nat) (maxPriority : option Z) (ignoreDirective : option string) (path : list nat) (nodes : list node) : list link_call :=
  match fuel with
  | O => []
  | S fuel => list_calls (calls fuel None None) maxPriority ignoreDirective path 0 nodes
  end.

(** A step that throws nothing out makes these calls. *)
Definition emits (m : step) (cs : list link_call) : Prop := forall s s', m s = (s', None) ->
  exists es, ls_log s' = ls_log s ++ es /\ (none_held_back es = true -> calls_of es = cs).

Lemma calls_of_app l l' : calls_of (l ++ l') = calls_of l ++ calls_of l'.
Proof. apply omap_app. Qed.

Lemma none_held_back_app l l' : none_held_back (l ++ l') = none_held_back l && none_held_back l'.
Proof. apply forallb_app. Qed.

Lemma emits_skip : emits skip [].
Proof. intros s s' [= <-]. exists []. by rewrite app_nil_r. Qed.

Lemma emits_raise e cs : emits (raise e) cs.
Proof. done. Qed.

Lemma emits_seq m1 m2 c1 c2 : emits m1 c1 -> emits m2 c2 -> emits (seq m1 m2) (c1 ++ c2).
Proof.
  intros H1 H2 s s'. unfold seq. destruct (m1 s) as [s1 [e|]] eqn:Hm; [done|]. intros Hm2.
  destruct (H1 _ _ Hm) as (es1 & Hl1 & Hc1), (H2 _ _ Hm2) as (es2 & Hl2 & Hc2). exists (es1 ++ es2).
  split; [by rewrite Hl2, Hl1, app_assoc|]. rewrite none_held_back_app, calls_of_app. intros [Ha Hb]%andb_true_iff. by rewrite Hc1, Hc2.
Qed.

Lemma emits_log es cs : calls_of es = cs -> emits (log es) cs.
Proof. intros Hc s s' [= <-]. by exists es. Qed.

Lemma emits_same_log m : (forall s, ls_log (m s).1 = ls_log s) -> emits m [].
Proof. intros H s s' Hm. exists []. split; [|done]. specialize (H s). rewrite Hm in H. simpl in H. by rewrite app_nil_r. Qed.

Lemma emits_in_world f : emits (in_world f) [].
Proof. apply emits_same_log. intros s. unfold in_world. by destruct (f (ls_world s)). Qed.

Lemma emits_with_new isolate parent k cs : (forall i, emits (k i) cs) -> emits (with_new isolate parent k) cs.
Proof. intros Hk s s'. unfold with_new. destruct (scope_new isolate parent (ls_world s)) as [i w]. intros Hm. by apply (Hk i) in Hm. Qed.

Lemma emits_for_each {A} (f : A -> step) (g : A -> link_call) l : (forall x, emits (f x) [g x]) -> emits (for_each f l) (map g l).
Proof. intros Hf. induction l as [|x l IH]; [apply emits_skip|]. by apply (emits_seq _ _ [g x]). Qed.

Lemma emits_nothing {A} (f : A -> step) l : (forall x, emits (f x) []) -> emits (for_each f l) [].
Proof. intros Hf. induction l as [|x l IH]; [apply emits_skip|]. by apply (emits_seq _ _ [] []). Qed.

Lemma emits_seq_nothing m1 m2 cs : emits m1 [] -> emits m2 cs -> emits (seq m1 m2) cs.
Proof. intros H1 H2. by apply (emits_seq _ _ [] cs). Qed.

Lemma emits_isolate nl path scope k cs : (forall i, emits (k i) cs) -> emits (link_isolate nl path scope k) cs.
Proof.
  intros Hk. unfold link_isolate. destruct (nl_isolate nl) as [d|]; [|apply Hk]. apply emits_with_new. intros i.
  apply emits_seq_nothing; [by apply emits_log|]. apply emits_seq_nothing; [|apply Hk]. apply emits_nothing. intros l.
  unfold link_local. destruct (local_match l.2) as [[[mode optional] name]|]; [|apply emits_raise].
  apply emits_seq_nothing; [by apply emits_log|apply emits_in_world].
Qed.

Lemma emits_controllers nl path scope iso ds cs : forall ec k, (forall c, emits (k c) cs) -> emits (link_controllers nl path scope iso ds ec k) cs.
Proof.
  induction ds as [|[name d] ds IH]; intros ec k Hk; cbn [link_controllers]; [apply Hk|]. intros s s'.
  destruct (instantiate _ _ _ _) as [w [i|e]]; [|done]. intros Hm.
  enough (He : emits (seq (set_data path name i) _) cs) by by apply He in Hm.
  apply emits_seq_nothing; [by apply emits_same_log|]. apply emits_seq_nothing; [|by apply IH].
  apply emits_log. by destruct (d_controllerAs d).
Qed.

Lemma emits_link_function fn scope path ct : emits (link_function fn scope path ct) [].
Proof. destruct fn; cbn [link_function]; try apply emits_in_world. destruct (event_handler_attr name); [apply emits_raise|apply emits_in_world]. Qed.

(** What [link_function] logs and throws: nothing that counts as held back. *)
Lemma link_function_log fn scope path ct s :
  ls_log (link_function fn scope path ct s).1 = ls_log s /\
  match (link_function fn scope path ct s).2 with Some e => held_back (LHandled e path) = false | None => True end.
Proof.
  destruct fn; cbn [link_function].
  all: try (unfold in_world; destruct (run_link _ _ _ _ _) as [w [e|]]; done).
  destruct (event_handler_attr name); [done|]. unfold in_world. by destruct (run_link _ _ _ _ _) as [w [e|]].
Qed.

Lemma get_controller_throws dn name path ec data e : get_controller dn name path ec data = Err e -> exists r d, e = Ctreq r d.
Proof.
  unfold get_controller. destruct (strip_marks false false name) as [[inherited optional] require].
  destruct (bool_decide _ && negb optional); [|done]. intros [= <-]. by eauto.
Qed.

Lemma getControllers_throws dn path ec data : forall require e, getControllers dn require path ec data = Err e -> exists r d, e = Ctreq r d.
Proof.
  fix IH 1. intros [|name|names] e; cbn [getControllers].
  - done.
  - destruct (get_controller _ _ _ _ _) eqn:Hg; simpl; [done|]. intros [= <-]. by eapply get_controller_throws.
  - match goal with |- context [?go names ≫= _] => set (loop := go) end.
    assert (Hl : forall e, loop names = Err e -> exists r d, e = Ctreq r d).
    { clear e. induction names as [|r names IHn]; intros e; cbn [loop]; [done|]. assert (Hr := IH r).
      assert (Hstep : forall v : result error ctrls, (forall e, v = Err e -> exists r d, e = Ctreq r d) ->
        (v ← v; vs ← loop names; Ok (v :: vs)) = Err e -> exists r d, e = Ctreq r d).
      { intros [v|e'] Hv; simpl; [|intros [= <-]; by eapply Hv]. destruct (loop names) eqn:Hn; simpl; [done|]. intros [= <-]. by eapply IHn. }
      destruct r as [|name|names']; by apply Hstep. }
    destruct (loop names) eqn:Hn; simpl; [done|]. intros [= <-]. by eapply Hl.
Qed.

Lemma emits_annotated pre nl path n siblings scope iso ec f :
  emits (link_annotated pre nl path n siblings scope iso ec f) [(pre, lf_fn f, path)].
Proof.
  intros s s'. unfold link_annotated, attempt.
  destruct (getControllers _ _ _ _ _) as [ct|e] eqn:Hg.
  2: { apply getControllers_throws in Hg as (r & d & ->). intros [= <-]. simpl. eexists. split; [done|]. done. }
  destruct (match lf_range f with None => Some [n] | Some (start, stop) => groupScan start stop n siblings end) as [ns|] eqn:Hr.
  2: { destruct (lf_range f) as [[start stop]|]; [|done]. intros [= <-]. simpl. eexists. split; [done|]. done. }
  set (sc := if lf_isolate f then default scope iso else scope).
  unfold seq. cbn [log]. set (s1 := Linking _ _ _). destruct (link_function_log (lf_fn f) sc path ct s1) as [Hl He].
  destruct (link_function (lf_fn f) sc path ct s1) as [s2 [e|]]; simpl in Hl, He.
  - intros [= <-]. exists ([(if pre then LPre else LPost) (lf_fn f) path sc ct (length ns)] ++ [LHandled e path]).
    simpl. rewrite Hl. split; [by rewrite <- app_assoc|]. by destruct pre.
  - intros [= <-]. eexists. split; [exact Hl|]. by destruct pre.
Qed.

Lemma emits_node nl child path n siblings scope cs : (forall i, emits (child i) cs) ->
  emits (link_node nl child path n siblings scope)
    (map (fun f => (true, lf_fn f, path)) (nl_pre nl) ++ cs ++ map (fun f => (false, lf_fn f, path)) (reverse (nl_post nl))).
Proof.
  intros Hc. unfold link_node. apply emits_isolate. intros iso. apply emits_controllers. intros ec.
  apply emits_seq; [apply emits_for_each; intros f; apply emits_annotated|].
  apply emits_seq; [apply Hc|apply emits_for_each; intros f; apply emits_annotated].
Qed.

Section EntryCalls.
Context (rec : list nat -> list node -> result error (option composite * list node * list cevent)).
Context (ref : list nat -> list node -> list node -> nat -> step) (cal : list nat -> list node -> list link_call).
Hypothesis Hrec : forall path nodes c nodes' l, rec path nodes = Ok (c, nodes', l) ->
  forall scope, emits (ref path nodes nodes' scope) (cal path nodes).
Hypothesis Hnil : forall path scope, emits (ref path [] [] scope) [] /\ cal path [] = [].

#[local] Lemma emits_ref_node maxPriority ignoreDirective path rest n fns n' log0 live scope :
  compile_node rec maxPriority ignoreDirective path rest n = Ok (fns, n', log0) ->
  emits (ref_node ref maxPriority ignoreDirective path n rest n' live scope) (node_calls cal maxPriority ignoreDirective path n rest).
Proof.
  intros (ds & attrs & a & [Hd Ha Hl Hch])%compile_node_compiled. unfold ref_node, node_calls. rewrite Hd. simpl in Hch.
  assert (Hkids : forall scope, emits (if match a with Some a => ap_isTerminal a | None => false end then skip
      else ref path (children match a with Some a => ap_node a | None => n end) (children n') scope)
    (if match a with Some a => ap_isTerminal a | None => false end then [] else cal path (children match a with Some a => ap_node a | None => n end))).
  { intros sc. destruct Hch as [(Hs & _ & ->)|(-> & Hk & kids & l & Hr & ->)].
    - destruct (match a with Some a => ap_isTerminal a | None => false end); [apply emits_skip|]. destruct Hs as [|Hs]; [done|].
      rewrite Hs. destruct (Hnil path sc) as [? ->]. done.
    - rewrite with_children_get by done. by eapply Hrec. }
  destruct a as [a|]; [|subst ds; apply Hkids]. destruct Ha as [Hne Ha]. destruct ds as [|d ds]; [done|]. rewrite Ha.
  destruct (nl_scope (finish_applying a)).
  - apply emits_with_new. intros j. apply emits_seq_nothing; [by apply emits_log|]. by apply (emits_node (finish_applying a)).
  - by apply (emits_node (finish_applying a)).
Qed.

Lemma emits_ref_list maxPriority ignoreDirective path nodes : forall i fns nodes' log0 scope,
  compile_list rec maxPriority ignoreDirective path i nodes = Ok (fns, nodes', log0) ->
  emits (ref_list ref maxPriority ignoreDirective path i nodes nodes' scope) (list_calls cal maxPriority ignoreDirective path i nodes).
Proof.
  induction nodes as [|n rest IH]; intros i fns nodes' log0 scope Hc; cbn [compile_list] in Hc.
  { simplify_eq. apply emits_skip. }
  inv_result. destruct a as [[p n'] l]. inv_result. destruct a as [[fnss live] l']. simplify_eq.
  apply emits_seq; [by eapply emits_ref_node|by eapply IH].
Qed.

End EntryCalls.

Lemma emits_reference fuel : forall maxPriority ignoreDirective path nodes c nodes' log0 scope,
  compileNodes fuel maxPriority ignoreDirective path nodes = Ok (c, nodes', log0) ->
  emits (reference fuel maxPriority ignoreDirective path nodes nodes' scope) (calls fuel maxPriority ignoreDirective path nodes).
Proof.
  induction fuel as [|fuel IH]; intros maxPriority ignoreDirective path nodes c nodes' log0 scope Hc; [done|].
  cbn [compileNodes] in Hc. inv_result. destruct a as [[fns nodes0] l]. simplify_eq. cbn [reference calls].
  eapply emits_ref_list; [|destruct fuel; split; done || apply emits_skip|done].
  intros p ns c' ns' l' Hc sc. by eapply IH.
Qed.

End Link.

(** ** Enough fuel *)

Fixpoint height (n : node) : nat :=
  match n with
  | Element _ _ _ kids | OtherNode _ kids => S (foldr (fun k h => Nat.max (height k) h) 0%nat kids)
  | _ => 1
  end.
Definition heights (ns : list node) : nat := foldr (fun k h => Nat.max (height k) h) 0%nat ns.

Definition no_template (ds : directive) : Prop := d_template ds = None.

Section Fuel.
Hypothesis Hinterp : forall text, interpolate text <> Err OutOfFuel.
Hypothesis Htemplates : forall name d, In d (directives_of registry name) -> no_template d.
Hypothesis Hcompile : forall fn n group attrs, (height (run_compile fn (n :: group) attrs).1.1 <= height n)%nat.

#[local] Lemma collect_no_fuel maxPriority ignoreDirective n attrs :
  collectDirectives registry interpolate Selmulti maxPriority ignoreDirective n [] attrs <> Err OutOfFuel.
Proof.
  assert (Hattr : forall tag nAttrs ds attrs, collect_attributes registry interpolate Selmulti maxPriority ignoreDirective tag nAttrs ds attrs <> Err OutOfFuel).
  { intros tag nAttrs. induction nAttrs as [|[name value] nAttrs IH]; intros ds a; [done|]. cbn [collect_attributes].
    unfold collect_attribute, addAttrInterpolateDirective. pose proof (Hinterp (trim value)) as Hi.
    destruct (interpolate (trim value)) as [[i|]|e]; simpl; [|apply IH|congruence].
    destruct (_ && _); simpl; [done|apply IH]. }
  unfold collectDirectives. destruct n as [tag nAttrs className kids|text|text|t kids]; simpl; try done.
  - specialize (Hattr tag nAttrs (addDirective registry [] (Names.directiveNormalize (lowercase tag)) "E" maxPriority ignoreDirective None).1 attrs).
    destruct (collect_attributes _ _ _ _ _ _ _ _ _) as [r|e]; simpl; congruence.
  - unfold addTextInterpolateDirective. pose proof (Hinterp text) as Hi. destruct (interpolate text) as [i|e]; simpl; congruence.
Qed.

#[local] Lemma collected_no_template maxPriority ignoreDirective n attrs r :
  collectDirectives registry interpolate Selmulti maxPriority ignoreDirective n [] attrs = Ok r -> Forall no_template r.1.
Proof.
  apply collect_Forall; try done. intros name d range Hd%Htemplates. by destruct range.
Qed.

#[local] Lemma apply_height path siblings ds : Forall no_template ds -> forall group a,
  match apply_directives path siblings group ds a with
  | Ok a' => (height (ap_node a') <= height (ap_node a))%nat
  | Err e => e <> OutOfFuel
  end.
Proof.
  induction 1 as [|d ds Hd _ IH]; intros group a; cbn [apply_directives]; [done|].
  unfold next_group. destruct (match d_range d with None => Ok group | Some (s, e) => _ end) as [group'|e] eqn:Hg; simpl.
  2: { destruct (d_range d) as [[s t]|]; [|done]. destruct (groupScan _ _ _ _); by simplify_eq. }
  clear Hg. destruct (priority_cut (ap_terminal a) d); [done|].
  assert (Hs : match ask_scope d a with Ok a' => ap_node a' = ap_node a | Err e => e <> OutOfFuel end).
  { unfold ask_scope, assertNoDuplicate. destruct (d_scope d), (ap_isolate a); done. }
  destruct (ask_scope d a) as [a1|]; [|done]. simpl.
  assert (Hc : match ask_controller d a1 with Ok a' => ap_node a' = ap_node a1 | Err e => e <> OutOfFuel end).
  { unfold ask_controller, assertNoDuplicate. destruct (d_controller d); [|done]. by destruct (alookup (name_text d) (ap_controllers a1)). }
  destruct (ask_controller d a1) as [a2|]; [|done]. simpl. unfold ask_template. rewrite Hd. simpl.
  specialize (IH group' (set_terminal d (call_compile path group' d a2))). destruct (apply_directives _ _ _ _ _) as [a'|e]; [|done].
  etransitivity; [exact IH|]. replace (ap_node (set_terminal d (call_compile path group' d a2))) with (ap_node (call_compile path group' d a2))
    by (unfold set_terminal; by destruct (d_terminal d)).
  rewrite <- Hs, <- Hc. unfold call_compile. destruct (d_compile d) as [[fn|l]|]; [|done|done].
  specialize (Hcompile fn (ap_node a2) group' (ap_attrs a2)). by destruct (run_compile _ _ _) as [[n attrs] [l|e]].
Qed.

Lemma children_heights n : (heights (children n) < height n)%nat.
Proof. destruct n; simpl; unfold heights; lia. Qed.

(** Without templates, and when no compile function makes its node higher, fuel
    for the height of the nodes is enough. *)
Lemma compile_enough fuel : forall maxPriority ignoreDirective path nodes, (heights nodes < fuel)%nat ->
  compileNodes fuel maxPriority ignoreDirective path nodes <> Err OutOfFuel.
Proof.
  induction fuel as [|fuel IH]; intros maxPriority ignoreDirective path nodes Hf; [lia|]. cbn [compileNodes].
  enough (Hl : forall i, compile_list (compileNodes fuel None None) maxPriority ignoreDirective path i nodes <> Err OutOfFuel).
  { specialize (Hl 0%nat). destruct (compile_list _ _ _ _ _ _) as [[[fns ns] l]|e]; simpl; congruence. }
  induction nodes as [|n rest IHr]; intros i; [done|]. cbn [compile_list]. unfold heights in Hf. simpl in Hf. fold (heights rest) in Hf.
  assert (Hn : compile_node (compileNodes fuel None None) (if (i =? 0)%nat then maxPriority else None) ignoreDirective (i :: path) rest n <> Err OutOfFuel).
  { unfold compile_node. set (mp := if (i =? 0)%nat then maxPriority else None).
    pose proof (collect_no_fuel mp ignoreDirective n new_attributes) as Hc.
    destruct (collectDirectives _ _ _ _ _ _ _ _) as [[ds attrs]|e] eqn:Hd; simpl; [|congruence].
    apply collected_no_template in Hd. simpl in Hd. clear Hc.
    pose proof (apply_height (i :: path) rest ds Hd [] (start_applying n attrs)) as Ha. fold (applyDirectivesToNode (i :: path) rest ds n attrs) in Ha.
    assert (Hm : forall m nl log, (height m <= height n)%nat ->
      (if match nl with Some l => nl_terminal l | None => false end || bool_decide (children m = [])
       then Ok ((nl, None), m, log)
       else r ← compileNodes fuel None None (i :: path) (children m); let '(childLinkFn, kids, log') := r in Ok ((nl, childLinkFn), with_children kids m, log ++ log'))
      <> Err OutOfFuel).
    { intros m nl log Hm. destruct (_ || _); [done|]. pose proof (children_heights m) as Hh.
      specialize (IH None None (i :: path) (children m) ltac:(lia)). destruct (compileNodes _ _ _ _ _) as [[[c kids] l]|e]; simpl; congruence. }
    destruct ds as [|d ds]; [by apply Hm|]. destruct (applyDirectivesToNode (i :: path) rest (d :: ds) n attrs) as [a|e]; [by apply Hm|]. simpl. intros [= ->]. done. }
  destruct (compile_node _ _ _ _ _ _) as [[[fns n'] l]|e]; simpl; [|congruence].
  specialize (IHr ltac:(lia) (S i)). destruct (compile_list _ _ _ _ _ _) as [[[fnss ns] l']|e]; simpl; congruence.
Qed.

End Fuel.

End Compile.

(** ** Examples *)

#[global] Instance ng_scopes {F} : ScopeStore (NgScope.st (F := F)) := NgScope.new_.

Module Examples.

(** A panel with an isolate scope, a controller and a template, and an item that
    needs it. *)
Definition panel : definition (nat : Type) :=
  Definition_ None None (Some "E") RNone (IsolateScope [("title", "=")]) (Some (CFun 7)) (Some "panel")
    (Some (TString "<p item></p>")) false None (Some (Links (Some (LUser 10)) (Some (LUser 11)))).
Definition item : definition nat :=
  Definition_ (Some 5) None None (RStr "^panel") NewScope None None None false (Some 20%nat) None.

Definition demo_registry : gmap string (list (factory (error nat) nat)) :=
  {["panel" := [FObject panel]; "item" := [FObject item]; "last" := [FObject
     (Definition_ (Some 1) None (Some "EA") RNone NoScope None None None true None (Some (Links None (Some (LUser 30)))))]]}.

Definition demo_interpolate (text : string) : result (error nat) (option nat) :=
  Ok (if contains_char "{" text then Some 9%nat else None).
Definition demo_compile (fn : nat) (group : list node) (attrs : attributes) : node * attributes * result nat (links nat) :=
  (default (TextNode "") (head group), attrs, Ok (Links (Some (LUser fn)) (Some (LUser (S fn))))).
Definition demo_html (text : string) : list node := if String.eqb text "<p item></p>" then [Element "P" [("item", "")] (Some "") []] else [].

Definition demo_nodes : list node :=
  [Element "PANEL" [("title", "x")] (Some "") []; TextNode " {{a}} "; Element "UL" [("last", "")] (Some "") [Element "LI" [("last", "")] (Some "") []]].

Definition demo_compiled :=
  compile demo_registry demo_interpolate "{{" "}}" demo_compile (fun _ _ _ => Ok "") demo_html 4 None None demo_nodes.

Definition demo_world : NgScope.st (F := nat) :=
  NgScope.St ∅ {[0%nat := NgScope.MkScope None None false false false None None None None None ∅ ∅]} [] [] [] [] [] [] None None 0 [].

Definition demo_link (c : option composite) (nodes : list node) : linking (E := nat) (I := nat) * option (error nat) :=
  publicLinkFn (fun _ _ _ _ w => (w, None)) (fun _ _ _ _ _ _ _ w => (w, None)) (fun _ _ _ w => (w, Ok 70%nat)) (fun _ => None)
    c nodes 0 [] (Linking demo_world ∅ []).

Definition demo_log : option (list levent) :=
  match demo_compiled with Ok (c, nodes, _) => Some (ls_log (demo_link c nodes).1) | Err _ => None end.

Definition demo_compileNodes :=
  compileNodes demo_registry demo_interpolate "{{" "}}" demo_compile (fun _ _ _ => Ok "") demo_html 4 None None [] (map wrap_text demo_nodes).

Definition demo_start : linking (E := nat) (I := nat) := Linking demo_world ∅ [].
Abbreviation demo_run := (fun (_ : linkfn nat) (_ : nat) (_ : list nat) (_ : ctrls) (w : NgScope.st (F := nat)) => (w, @None nat)).
Abbreviation demo_bind := (fun (_ : ascii) (_ : bool) (_ _ : string) (_ : attributes) (_ _ : nat) (w : NgScope.st (F := nat)) => (w, @None nat)).
Abbreviation demo_controller := (fun (_ : option controller_def) (_ : nat) (_ : list nat) (w : NgScope.st (F := nat)) => (w, @Ok nat nat 70%nat)).

(** The item in the panel's template finds the panel's controller, and is linked
    between the panel's two functions. *)
Example demo_order : demo_log = Some
  [LScope [0%nat] 0; LScope [1%nat] 0; LScope [2%nat] 0;
   LIsolate [0%nat] 1 true; LBind [0%nat] "title" "=" "title"; LController [0%nat] "panel" 1 70; LAs 1 "panel" 70;
   LPre (LUser 10) [0%nat] 1 (CtOne (Some 70%nat)) 1;
   LScope [0%nat; 0%nat] 2;
   LPre (LUser 20) [0%nat; 0%nat] 2 (CtOne (Some 70%nat)) 1;
   LPost (LUser 21) [0%nat; 0%nat] 2 (CtOne (Some 70%nat)) 1;
   LPost (LUser 11) [0%nat] 1 (CtOne (Some 70%nat)) 1;
   LPost (LText 9%nat) [0%nat; 1%nat] 0 CtNone 1;
   LPost (LUser 30) [2%nat] 0 CtNone 1].
Proof. by vm_compute. Qed.

Definition with_scope (name : string) (s : scope_def) : directive nat :=
  make_directive name 0 (Definition_ None None None RNone s None None None false None None).

(** A new scope and then an isolate one are accepted, in the other order they are
    refused; the order is that of the names. *)
Example order_of_names : let apply ds :=
    is_ok (applyDirectivesToNode (E := nat) "{{" "}}" demo_compile (fun _ _ _ => Ok "") demo_html [0%nat] [] (array_sort byPriority ds) (TextNode "") new_attributes) in
  apply [with_scope "b" (IsolateScope []); with_scope "a" NewScope] = true /\
  apply [with_scope "a" (IsolateScope []); with_scope "b" NewScope] = false.
Proof. by vm_compute. Qed.

(** A directive whose template holds its own element is never compiled, whatever
    the fuel. *)
Definition loop_registry : gmap string (list (factory (error nat) nat)) :=
  {["loop" := [FObject (Definition_ None None (Some "E") RNone NoScope None None (Some (TString "<loop></loop>")) false None None)]]}.

Definition loop_node : node := Element "LOOP" [] (Some "") [].

Lemma loop_step rec path : rec (0%nat :: path) [loop_node] = Err OutOfFuel ->
  compile_list loop_registry demo_interpolate "{{" "}}" demo_compile (fun _ _ _ => Ok "") (fun _ => [loop_node]) rec None None path 0 [loop_node] = Err OutOfFuel.
Proof.
  intros Hr. cbn [compile_list]. unfold compile_node. change (if (0 =? 0)%nat then None else None) with (@None Z).
  assert (Hd : exists attrs, collectDirectives loop_registry demo_interpolate Selmulti None None loop_node [] new_attributes =
    Ok (directives_of loop_registry "loop", attrs)) by (eexists; vm_compute; reflexivity).
  destruct Hd as [attrs ->].
  assert (Ha : exists a, applyDirectivesToNode "{{" "}}" demo_compile (fun _ _ _ => Ok "") (fun _ => [loop_node]) (0%nat :: path) []
    (directives_of loop_registry "loop") loop_node attrs = Ok a /\ ap_node a = Element "LOOP" [] (Some "") [loop_node] /\ ap_isTerminal a = false)
    by (eexists; split_and!; vm_compute; reflexivity).
  destruct Ha as (a & Ha & Hn & Ht). destruct (directives_of loop_registry "loop") as [|d ds] eqn:Hds; [by vm_compute in Hds|].
  simpl. rewrite Ha. simpl. rewrite Ht, Hn. simpl. by rewrite Hr.
Qed.

Lemma loop_never_compiles fuel path :
  compileNodes loop_registry demo_interpolate "{{" "}}" demo_compile (fun _ _ _ => Ok "") (fun _ => [loop_node]) fuel None None path [loop_node] = Err OutOfFuel.
Proof.
  revert path. induction fuel as [|fuel IH]; intros path; [done|]. cbn [compileNodes]. rewrite loop_step; [done|apply IH].
Qed.

End Examples.

(** ** Claims *)

(** C31: what the directives of a node make of it, when none has a range
    ([multiElement] with its end), a template that is computed, or the name of a
    member of [Object.prototype].  They are sorted by priority; those that count
    are the ones without a terminal directive of a higher priority.  Applying
    them fails, with [multidir], exactly when two of these have templates, two
    have controllers of one name, or one asks for a scope of any kind after one
    with an isolate scope; otherwise the link function has the scope of the first
    that asks for one, the isolate scope, controllers and template they ask for,
    and is terminal if one of them is. *)
Theorem directives_applied {E I} `{!EqDecision I} startSymbol endSymbol run_compile run_template html path siblings
    (ds : list (directive I)) n attrs (Hplain : forallb plain_directive ds = true) :
  let kept := List.filter (unshadowed ds) (array_sort byPriority ds) in
  match applyDirectivesToNode (E := E) startSymbol endSymbol run_compile run_template html path siblings (array_sort byPriority ds) n attrs with
  | Ok a =>
      let nl := finish_applying a in
      compatible kept /\
      nl_scope nl = match head (List.filter asks_scope kept) with Some d => bool_decide (d_scope d = NewScope) | None => false end /\
      nl_isolate nl = head (List.filter is_isolate kept) /\
      nl_controllers nl = map (fun d => (name_text d, d)) (List.filter has_controller kept) /\
      nl_template nl = head (List.filter has_template kept) /\
      nl_terminal nl = existsb d_terminal kept
  | Err e => (exists previous asking what, e = Multidir previous asking what) /\ ~ compatible kept
  end.
Proof.
  intros kept. assert (Hk : kept = applied None (array_sort byPriority ds)).
  { rewrite (applied_filter _ (sort_higher ds)). apply filter_ext_bool. intros x _. apply unshadowed_perm. by rewrite sort_perm. }
  rewrite Hk. clearbody kept. clear Hk kept. set (sorted := array_sort byPriority ds).
  assert (Hp : forallb plain_directive sorted = true).
  { apply forallb_forall. intros x Hx. unfold sorted in Hx. rewrite sort_perm in Hx. by eapply forallb_forall in Hplain. }
  assert (H0 : applied_state (E := E) (I := I) [] (start_applying n attrs)).
  { split; try done. split; [simpl; lia|constructor|]. by intros [|? ?] ? ?. }
  pose proof (apply_directives_spec (fun _ => Ok None) startSymbol endSymbol run_compile run_template html path siblings sorted Hp [] _ [] H0) as H.
  unfold applyDirectivesToNode. destruct (apply_directives _ _ _ _ _ _ _ _ _ _) as [a|e]; [|done].
  destruct H as [H1 H2 H3 H4 H5 H6]. simpl in *. by rewrite H1, H2, H3, H4, H5.
Qed.

Lemma directives_applied_witness : let ds := [Examples.with_scope "b" (IsolateScope []); Examples.with_scope "a" NewScope] in
  forallb plain_directive ds = true /\ compatible (List.filter (unshadowed ds) (array_sort byPriority ds)).
Proof.
  split; [reflexivity|].
  exact (proj1 (directives_applied (E := nat) "{{" "}}" Examples.demo_compile (fun _ _ _ => Ok "") Examples.demo_html [0%nat] []
    [Examples.with_scope "b" (IsolateScope []); Examples.with_scope "a" NewScope] (TextNode "") new_attributes eq_refl)).
Defined.

(** C29: the two passes of compiling are one recursion over the nodes.  Whatever
    the compile functions do to their nodes, and whatever the controllers and
    link functions do to the scopes and to each other - they leave the list of
    the nodes as it was compiled, and a directive has no [replace], [transclude]
    or [templateUrl] -, the composite link function that [compileNodes] returns,
    or nothing where it returns [null], does on the compiled nodes what the
    reference does, which collects the directives of each node again and links
    it, by the same link function of a node, with the same recursion for its
    children: no link function elided for being null is missed, each runs with
    the scope, the element and the controllers of its node, and the children of
    a node are linked unless a directive of it is terminal. *)
Theorem compile_link_exact {E I} `{!EqDecision I} registry interpolate startSymbol endSymbol run_compile run_template html
    {W} `{!ScopeStore W} run_link bind_local instantiate outer fuel maxPriority ignoreDirective path nodes c nodes' log0
    (Hc : compileNodes (E := E) (I := I) registry interpolate startSymbol endSymbol run_compile run_template html
            fuel maxPriority ignoreDirective path nodes = Ok (c, nodes', log0)) :
  forall scope (s : linking (W := W)),
  match c with Some c => link_composite run_link bind_local instantiate outer c path scope nodes' | None => skip end s =
  reference registry interpolate startSymbol endSymbol run_compile run_template html run_link bind_local instantiate outer
    fuel maxPriority ignoreDirective path nodes nodes' scope s.
Proof. by eapply compile_reference. Qed.

Lemma compile_link_exact_witness : exists c nodes' l, Examples.demo_compileNodes = Ok (Some c, nodes', l) /\
  link_composite Examples.demo_run Examples.demo_bind Examples.demo_controller (fun _ => None) c [] 0 nodes' Examples.demo_start =
  reference Examples.demo_registry Examples.demo_interpolate "{{" "}}" Examples.demo_compile (fun _ _ _ => Ok "") Examples.demo_html
    Examples.demo_run Examples.demo_bind Examples.demo_controller (fun _ => None) 4 None None [] (map wrap_text Examples.demo_nodes) nodes' 0 Examples.demo_start.
Proof.
  destruct Examples.demo_compileNodes as [[[[c|] nodes'] l]|e] eqn:Hc; [|by vm_compute in Hc..].
  exists c, nodes', l. split; [done|].
  exact (compile_link_exact Examples.demo_registry Examples.demo_interpolate "{{" "}}" Examples.demo_compile (fun _ _ _ => Ok "") Examples.demo_html
    Examples.demo_run Examples.demo_bind Examples.demo_controller (fun _ => None) 4 None None [] (map wrap_text Examples.demo_nodes) _ _ _ Hc 0%nat Examples.demo_start).
Defined.

(** C30: the link functions of a template run nested like its nodes: when linking
    throws nothing out and no link function is held back by a missing controller
    or an unterminated range, the calls are, node by node, the [pre] functions in
    the order of the directives, all the calls of the children unless a directive
    is terminal, then the [post] functions in the opposite order. *)
Theorem link_order_exact {E I} `{!EqDecision I} registry interpolate startSymbol endSymbol run_compile run_template html
    {W} `{!ScopeStore W} run_link bind_local instantiate outer fuel maxPriority ignoreDirective path nodes c nodes' log0 scope
    (w : W) data (s' : linking (E := E) (I := I) (W := W))
    (Hc : compileNodes (E := E) (I := I) registry interpolate startSymbol endSymbol run_compile run_template html
            fuel maxPriority ignoreDirective path nodes = Ok (Some c, nodes', log0))
    (Hl : link_composite run_link bind_local instantiate outer c path scope nodes' (Linking w data []) = (s', None))
    (Hheld : none_held_back (ls_log s') = true) :
  calls_of (E := E) (ls_log s') =
  calls registry interpolate startSymbol endSymbol run_compile run_template html fuel maxPriority ignoreDirective path nodes.
Proof.
  pose proof (compile_reference _ _ _ _ _ _ _ run_link bind_local instantiate outer fuel _ _ _ _ _ _ _ Hc scope (Linking w data [])) as He.
  simpl in He. rewrite Hl in He. symmetry in He.
  eapply emits_reference in He as (es & Hes & Hcalls); [|done]. simpl in Hes. subst es. by apply Hcalls.
Qed.

Lemma link_order_exact_witness : exists s : linking (W := NgScope.st (F := nat)), calls_of (E := nat) (ls_log s) =
  [(true, LUser 10, [0%nat]); (true, LUser 20, [0%nat; 0%nat]); (false, LUser 21, [0%nat; 0%nat]); (false, LUser 11, [0%nat]);
   (false, LText 9%nat, [0%nat; 1%nat]); (false, LUser 30, [2%nat])].
Proof.
  destruct Examples.demo_compileNodes as [[[[c|] nodes'] l]|e] eqn:Hc; [|by vm_compute in Hc..].
  destruct (link_composite Examples.demo_run Examples.demo_bind Examples.demo_controller (fun _ => None) c [] 0 nodes' Examples.demo_start) as [s e] eqn:Hl.
  assert (He : e = None /\ none_held_back (E := nat) (I := nat) (ls_log s) = true).
  { vm_compute in Hc. injection Hc as <- <- <-. vm_compute in Hl. injection Hl as <- <-. by vm_compute. }
  destruct He as [-> Hh]. exists s.
  rewrite (link_order_exact Examples.demo_registry Examples.demo_interpolate "{{" "}}" Examples.demo_compile (fun _ _ _ => Ok "") Examples.demo_html
    Examples.demo_run Examples.demo_bind Examples.demo_controller (fun _ => None) 4 None None [] (map wrap_text Examples.demo_nodes) c nodes' l 0 _ _ s Hc Hl Hh).
  vm_compute. reflexivity.
Defined.
