(* ===== verification/NgBinding.v ===== *)
(** * NgBinding: attributes, classes, and the locals of an isolate scope

    [Attributes] of [$compile] (angular.js 5852-5994) with the part of jqLite and
    [$animate] it calls (2493-2519, 2682-2703, 4295-4350, 7244-7259), and the
    bindings of an isolate scope's properties to its parent (6651-6702).

    A parsed expression is its getter and, when it can be assigned, its setter;
    what a listener does is recorded and not run, and it may throw. *)

From S2P Require Import Prelude Text Js NgCore NgInterpolate NgDirective.

#[local] Set Warnings "-clear-no-such-hyp".

(** ** The two-way binding *)

Module Isolate.

(** What a watch throws. *)
Inductive failure (E : Type) := FGet (e : E) | FSet (e : E) | Nonassign.
Arguments FGet {E}. Arguments FSet {E}. Arguments Nonassign {E}.

(** [a === b || (a !== a && b !== b)]. *)
Definition same_value (a b : jsval) : bool :=
  strict_eq a b || (negb (strict_eq a a) && negb (strict_eq b b)).

Lemma same_value_eq a b : same_value a b = bool_decide (a = b).
Proof.
  unfold same_value. destruct (decide (a = b)) as [->|Hne].
  - rewrite bool_decide_true by done. destruct b; simpl; try done; rewrite ?bool_decide_true by done; done.
  - rewrite bool_decide_false by done. assert (Hs : strict_eq a b = false) by (destruct (strict_eq a b) eqn:H; [by apply strict_eq_true in H|done]).
    rewrite Hs. simpl. apply andb_false_iff. destruct (decide (a = JNaN)) as [->|Ha].
    + right. rewrite strict_eq_refl; [done|congruence].
    + left. by rewrite strict_eq_refl.
Qed.

Section Binding.
Context {E S : Type}.
(** [parentGet], which may make objects, and [parentGet.assign]; [compare] is
    [equals] when the expression is a literal. *)
Context (parentGet : S -> result E jsval * S) (assign : option (jsval -> S -> result E unit * S)).
Context (literal : bool) (equals : S -> jsval -> jsval -> bool).

Definition compare (s : S) (a b : jsval) : bool := if literal then equals s a b else same_value a b.

(** The parent scope, the isolate scope's property, and [lastValue]. *)
Record binding := Binding { b_scope : S; b_iso : jsval; b_last : jsval }.

(** What happens when the link function runs. *)
Definition bind (s : S) : result (failure E) binding :=
  match parentGet s with
  | (Ok v, s) => Ok (Binding s v v)
  | (Err e, _) => Err (FGet e)
  end.

(** [parentSet]. *)
Definition parentSet (v : jsval) (b : binding) : result (failure E) unit * binding :=
  match assign with
  | Some set => match set v (b_scope b) with
                | (Ok _, s) => (Ok tt, Binding s (b_iso b) (b_last b))
                | (Err e, s) => (Err (FSet e), Binding s (b_iso b) (b_last b))
                end
  | None => match parentGet (b_scope b) with
            | (Ok v, s) => (Err Nonassign, Binding s v v)
            | (Err e, s) => (Err (FGet e), Binding s (b_iso b) (b_last b))
            end
  end.

(** [parentValueWatch]. *)
Definition parentValueWatch (b : binding) : result (failure E) jsval * binding :=
  match parentGet (b_scope b) with
  | (Err e, s) => (Err (FGet e), Binding s (b_iso b) (b_last b))
  | (Ok parentValue, s) =>
      let b := Binding s (b_iso b) (b_last b) in
      if compare s parentValue (b_iso b) then (Ok parentValue, Binding s (b_iso b) parentValue)
      else if negb (compare s parentValue (b_last b)) then (Ok parentValue, Binding s parentValue parentValue)
      else
        let value := b_iso b in
        match parentSet value b with
        | (Ok _, b) => (Ok value, Binding (b_scope b) (b_iso b) value)
        | (Err e, b) => (Err e, b)
        end
  end.

(** What is done between two digests, and the watch. *)
Inductive op := WriteParent (f : S -> S) | WriteIsolate (v : jsval) | Watch.

Definition exec1 (o : op) (b : binding) : binding :=
  match o with
  | WriteParent f => Binding (f (b_scope b)) (b_iso b) (b_last b)
  | WriteIsolate v => Binding (b_scope b) v (b_last b)
  | Watch => (parentValueWatch b).2
  end.

Definition exec (ops : list op) (b : binding) : binding := fold_left (fun b o => exec1 o b) ops b.

End Binding.

(** *** The three modes *)

Section Modes.
Context {E S X : Type}.
(** [$parse] of an attribute's value, the getter of what it gives, and
    [$interpolate(text)(scope)]. *)
Context (parse : option attr_val -> result E X) (getter : X -> S -> result E jsval * S) (render : string -> S -> result E jsval).

Definition attr_truthy (a : option attr_val) : bool :=
  match a with Some (AStr s) => negb (String.eqb s "") | Some ATrue => true | Some AUndef | None => false end.

(** What a local becomes: nothing; a text that a listener of the attribute
    follows, with its first value; a two-way binding; a function that calls the
    expression on the parent scope. *)
Inductive local := Untouched | Follows (attrName : string) (first : option jsval) | TwoWay (expression : X) (b : binding (S := S)) | Calls (expression : X).

Definition bind_mode (mode : ascii) (optional : bool) (attrName : string) (attr : option attr_val) (s : S) : result (failure E) local :=
  let fails {A} (r : result E A) : result (failure E) A := match r with Ok x => Ok x | Err e => Err (FGet e) end in
  if Ascii.eqb mode "@" then
    match attr with
    | Some (AStr text) => if attr_truthy attr then v ← fails (render text s); Ok (Follows attrName (Some v)) else Ok (Follows attrName None)
    | Some ATrue => Ok (Follows attrName (Some (JStr "")))   (* [true] has no length *)
    | _ => Ok (Follows attrName None)
    end
  else if Ascii.eqb mode "=" then
    if optional && negb (attr_truthy attr) then Ok Untouched
    else x ← fails (parse attr); b ← bind (getter x) s; Ok (TwoWay x b)
  else x ← fails (parse attr); Ok (Calls x).

(** The function of a [&] local. *)
Definition call_local {L R} (parentGet : X -> S -> L -> R) (x : X) (s : S) (locals : L) : R := parentGet x s locals.

(** A property bound with [=] starts with the parent's value. *)
Lemma two_way_start mode optional attrName attr s x b : bind_mode mode optional attrName attr s = Ok (TwoWay x b) ->
  mode = "="%char /\ parse attr = Ok x /\ (getter x s).1 = Ok (b_iso b) /\ b_last b = b_iso b /\ (optional = true -> attr_truthy attr = true).
Proof.
  unfold bind_mode. destruct (Ascii.eqb_spec mode "@").
  { destruct attr as [[text| |]|]; [destruct (attr_truthy _)| | |]; intros Hb; inv_result; done. }
  destruct (Ascii.eqb_spec mode "=") as [->|]; [|intros Hb; inv_result; done].
  destruct (optional && negb (attr_truthy attr)) eqn:Ho; [done|]. intros Hb. inv_result. simplify_eq.
  destruct (parse attr) as [x'|e] eqn:Hp; [|done]. simplify_eq. unfold bind in Ha0. destruct (getter x s) as [[v|e] s'] eqn:Hg; [|done]. simplify_eq.
  split_and!; try done. intros ->. by destruct (attr_truthy attr).
Qed.

End Modes.

(** An expression that reads and assigns one place of the parent scope. *)
Record assignable {E S} (get : S -> jsval) (set : jsval -> S -> S)
    (parentGet : S -> result E jsval * S) (assign : option (jsval -> S -> result E unit * S)) : Prop := {
  as_get : forall s, parentGet s = (Ok (get s), s);
  as_set : assign = Some (fun v s => (Ok tt, set v s));
  as_law : forall v s, get (set v s) = v
}.

Section Facts.
Context {E S : Type} (get : S -> jsval) (set : jsval -> S -> S).
Context (parentGet : S -> result E jsval * S) (assign : option (jsval -> S -> result E unit * S)) (equals : S -> jsval -> jsval -> bool).
Context (Ha : assignable get set parentGet assign).
Abbreviation watch := (parentValueWatch parentGet assign false equals).

(** One watch: the parent's value, when it is not the last one, wins. *)
Lemma watch_step b :
  let v := if bool_decide (get (b_scope b) = b_last b) then b_iso b else get (b_scope b) in
  (watch b).1 = Ok v /\ get (b_scope (watch b).2) = v /\ b_iso (watch b).2 = v /\ b_last (watch b).2 = v.
Proof.
  destruct Ha as [Hg Hs Hl]. unfold parentValueWatch. rewrite Hg. unfold compare. rewrite !same_value_eq. simpl.
  destruct (decide (get (b_scope b) = b_iso b)) as [He|Hne].
  { rewrite (bool_decide_true (get (b_scope b) = b_iso b)) by done. simpl. destruct (bool_decide (get (b_scope b) = b_last b)); split_and!; congruence. }
  rewrite (bool_decide_false (get (b_scope b) = b_iso b)) by done.
  destruct (bool_decide (get (b_scope b) = b_last b)); simpl; [|done]. unfold parentSet. rewrite Hs. simpl. by rewrite Hl.
Qed.

Lemma exec_app ops1 ops2 b : exec parentGet assign false equals (ops1 ++ ops2) b =
  exec parentGet assign false equals ops2 (exec parentGet assign false equals ops1 b).
Proof. apply fold_left_app. Qed.

Definition is_watch (o : op (S := S)) : bool := match o with Watch => true | _ => false end.

Lemma writes_keep_last ops : existsb is_watch ops = false -> forall b, b_last (exec parentGet assign false equals ops b) = b_last b.
Proof.
  induction ops as [|o ops IH]; intros Hw b; [done|]. simpl in Hw. apply orb_false_iff in Hw as [Ho Hw].
  change (b_last (exec parentGet assign false equals ops (exec1 parentGet assign false equals o b)) = b_last b).
  rewrite IH by done. by destruct o.
Qed.

End Facts.

(** An expression that cannot be assigned: after every watch the isolate scope
    has what the expression has, also when what was written there was refused. *)
Lemma readonly_agrees {E S} (get : S -> jsval) (parentGet : S -> result E jsval * S) equals (b : binding (S := S)) :
  (forall s, parentGet s = (Ok (get s), s)) ->
  let r := parentValueWatch parentGet None false equals b in
  b_iso r.2 = get (b_scope b) /\ b_last r.2 = get (b_scope b) /\ b_scope r.2 = b_scope b /\
  r.1 = if bool_decide (get (b_scope b) <> b_iso b) && bool_decide (get (b_scope b) = b_last b) then Err Nonassign else Ok (get (b_scope b)).
Proof.
  intros Hg. unfold parentValueWatch. rewrite Hg. unfold compare. rewrite !same_value_eq. simpl.
  destruct (decide (get (b_scope b) = b_iso b)) as [He|Hne].
  - rewrite bool_decide_true by done. rewrite bool_decide_false by by intros []. done.
  - rewrite (bool_decide_false (_ = b_iso b)) by done. rewrite (bool_decide_true (_ <> _)) by done. simpl.
    destruct (decide (get (b_scope b) = b_last b)) as [Hl|Hl].
    + rewrite bool_decide_true by done. unfold parentSet. simpl. by rewrite Hg.
    + rewrite bool_decide_false by done. done.
Qed.

End Isolate.

(** ** Attributes *)

Module Attributes.

(** An element, as far as attributes are set on it: names are in lower case. *)
Record element := Element { el_nodeName : string; el_attributes : list (string * string); el_props : list (string * jsval) }.

(** The listeners of a key, and their [$$inter]. *)
Record observers := Observers { ob_fns : list nat; ob_inter : bool }.

Section Attributes.
Context {E : Type}.
Context (throws : string -> nat -> jsval -> option E) (sanitizeUri : jsval -> bool -> jsval) (to_str : jsval -> string).

(** [attrs], its element, what [$evalAsync] holds, the calls of listeners and
    what [$exceptionHandler] got. *)
Record attrs := Attrs {
  a_own : list (string * jsval);
  a_attr : list (string * string);
  a_observers : list (string * observers);
  a_element : element;
  a_async : list (string * nat);
  a_calls : list (string * nat * jsval);
  a_handled : list E
}.

Fixpoint adel {A} (k : string) (l : list (string * A)) : list (string * A) :=
  match l with
  | [] => []
  | (k', v) :: l => if String.eqb k' k then adel k l else (k', v) :: adel k l
  end.

Definition canonical : list (string * string) :=
  [("multiple", "multiple"); ("selected", "selected"); ("checked", "checked"); ("disabled", "disabled"); ("readonly", "readOnly");
   ("required", "required"); ("open", "open")].

(** [getBooleanAttrName]. *)
Definition getBooleanAttrName (nodeName name : string) : option string :=
  if existsb (String.eqb nodeName) boolean_elements then alookup (lowercase name) canonical else None.

Definition setAttribute (name value : string) (e : element) : element :=
  Element (el_nodeName e) (aset (lowercase name) value (el_attributes e)) (el_props e).
Definition removeAttribute (name : string) (e : element) : element :=
  Element (el_nodeName e) (adel (lowercase name) (el_attributes e)) (el_props e).
Definition set_prop (name : string) (value : jsval) (e : element) : element :=
  Element (el_nodeName e) (el_attributes e) (aset name value (el_props e)).

(** jqLite's [attr] and [prop] with a value. *)
Definition jq_attr (name : string) (value : jsval) (e : element) : element :=
  match alookup (lowercase name) canonical with
  | Some _ => if truthy value then setAttribute name (lowercase name) (set_prop name (JBool true) e)
              else removeAttribute (lowercase name) (set_prop name (JBool false) e)
  | None => setAttribute name (to_str value) e
  end.
Definition jq_prop (name : string) (value : jsval) (e : element) : element :=
  match value with JUndef => e | _ => set_prop name value e end.

(** A call of a listener. *)
Definition call (key : string) (value : jsval) (a : attrs) (fn : nat) : attrs :=
  Attrs (a_own a) (a_attr a) (a_observers a) (a_element a) (a_async a) (a_calls a ++ [(key, fn, value)])
    (a_handled a ++ option_list (throws key fn value)).

Definition own (key : string) (a : attrs) : jsval := default JUndef (alookup key (a_own a)).
Definition listeners (key : string) (a : attrs) : observers := default (Observers [] false) (alookup key (a_observers a)).

(** The name [$set] writes to, and [$attr] after it. *)
Definition attr_name_of (key : string) (attrName : option string) (m : list (string * string)) : string * list (string * string) :=
  match attrName with
  | Some n => (n, aset key n m)
  | None => match alookup key m with
            | Some n => if String.eqb n "" then (Basics.snake_case key "-", aset key (Basics.snake_case key "-") m) else (n, m)
            | None => (Basics.snake_case key "-", aset key (Basics.snake_case key "-") m)
            end
  end.

Definition given_name (attrName : option string) : option string :=
  match attrName with Some n => if String.eqb n "" then None else Some n | None => None end.

(** The value [$set] ends up with. *)
Definition set_value (nodeName key : string) (value : jsval) : jsval :=
  if (String.eqb nodeName "A" && String.eqb key "href") || (String.eqb nodeName "IMG" && String.eqb key "src")
  then sanitizeUri value (String.eqb key "src") else value.

(** [$set]. *)
Definition set (key : string) (value : jsval) (writeAttr : bool) (attrName : option string) (a : attrs) : attrs :=
  let nodeName := el_nodeName (a_element a) in
  let booleanKey := getBooleanAttrName nodeName key in
  let e := match booleanKey with Some _ => jq_prop key value (a_element a) | None => a_element a end in
  let '(name, m) := attr_name_of key (match booleanKey with Some b => Some b | None => given_name attrName end) (a_attr a) in
  let value := set_value nodeName key value in
  let e := if writeAttr
           then match value with JNull | JUndef => removeAttribute name e | _ => jq_attr name value e end
           else e in
  fold_left (call key value) (ob_fns (listeners key a))
    (Attrs (aset key value (a_own a)) m (a_observers a) e (a_async a) (a_calls a) (a_handled a)).

(** [$observe]. *)
Definition observe (key : string) (fn : nat) (a : attrs) : attrs :=
  let l := listeners key a in
  Attrs (a_own a) (a_attr a) (aset key (Observers (ob_fns l ++ [fn]) (ob_inter l)) (a_observers a)) (a_element a)
    (a_async a ++ [(key, fn)]) (a_calls a) (a_handled a).

(** What [attrInterpolatePreLinkFn] marks: the watch will call the listeners. *)
Definition mark_inter (key : string) (a : attrs) : attrs :=
  Attrs (a_own a) (a_attr a) (aset key (Observers (ob_fns (listeners key a)) true) (a_observers a)) (a_element a)
    (a_async a) (a_calls a) (a_handled a).

(** The functions [$evalAsync] holds, run by the next digest. *)
Definition run_async (a : attrs) : attrs :=
  fold_left (fun a p => if ob_inter (listeners p.1 a) then a else call p.1 (own p.1 a) a p.2) (a_async a)
    (Attrs (a_own a) (a_attr a) (a_observers a) (a_element a) [] (a_calls a) (a_handled a)).

Inductive op := Set_ (key : string) (value : jsval) (writeAttr : bool) (attrName : option string) | Observe (key : string) (fn : nat)
| MarkInter (key : string) | Digest.

Definition exec1 (a : attrs) (o : op) : attrs :=
  match o with
  | Set_ key value writeAttr attrName => set key value writeAttr attrName a
  | Observe key fn => observe key fn a
  | MarkInter key => mark_inter key a
  | Digest => run_async a
  end.

Definition exec (ops : list op) (a : attrs) : attrs := fold_left exec1 ops a.

(** *** Every listener hears the last value *)

Fixpoint last_call (key : string) (fn : nat) (calls : list (string * nat * jsval)) : option jsval :=
  match calls with
  | [] => None
  | (k, f, v) :: calls =>
      match last_call key fn calls with
      | Some w => Some w
      | None => if String.eqb k key && (f =? fn)%nat then Some v else None
      end
  end.

Lemma last_call_snoc key fn calls k f v :
  last_call key fn (calls ++ [(k, f, v)]) = if String.eqb k key && (f =? fn)%nat then Some v else last_call key fn calls.
Proof.
  induction calls as [|[[k' f'] v'] calls IH]; simpl; [by destruct (_ && _)|]. rewrite IH. by destruct (String.eqb k key && (f =? fn)%nat).
Qed.

Lemma alookup_aset {A} k k' (v : A) l : alookup k (aset k' v l) = if String.eqb k' k then Some v else alookup k l.
Proof.
  induction l as [|[q w] l IH]; simpl; [done|]. destruct (String.eqb_spec q k') as [->|Hq]; simpl.
  - by destruct (String.eqb k' k).
  - rewrite IH. destruct (String.eqb_spec q k) as [->|]; [|done]. by destruct (String.eqb_spec k' k) as [->|].
Qed.

(** A listener of an attribute that is not interpolated waits for [$evalAsync],
    or has been called, last, with the value the attribute has. *)
Definition heard (a : attrs) : Prop := forall key fn, fn ∈ ob_fns (listeners key a) ->
  ob_inter (listeners key a) = true \/ (key, fn) ∈ a_async a \/ last_call key fn (a_calls a) = Some (own key a).

Definition same_but_calls (a a' : attrs) : Prop :=
  a_own a' = a_own a /\ a_observers a' = a_observers a /\ a_async a' = a_async a /\ a_element a' = a_element a /\ a_attr a' = a_attr a.

Lemma calls_fold key v fns : forall a, let a' := fold_left (call key v) fns a in
  same_but_calls a a' /\ a_calls a' = a_calls a ++ map (fun fn => (key, fn, v)) fns /\
  a_handled a' = a_handled a ++ omap (fun fn => throws key fn v) fns.
Proof.
  induction fns as [|fn fns IH]; intros a; simpl; [by rewrite !app_nil_r|].
  destruct (IH (call key v a fn)) as ((H1 & H2 & H3 & H4 & H5) & Hc & Hh). split; [done|]. rewrite Hc, Hh. simpl.
  rewrite <- !app_assoc. split; [done|]. by destruct (throws key fn v).
Qed.

Lemma last_call_map key fn k v fns calls : last_call key fn (calls ++ map (fun f => (k, f, v)) fns) =
  if String.eqb k key && bool_decide (fn ∈ fns) then Some v else last_call key fn calls.
Proof.
  induction fns as [|f fns IH] using rev_ind; simpl.
  - by rewrite app_nil_r, andb_false_r.
  - rewrite map_app, app_assoc. simpl. rewrite last_call_snoc, IH. destruct (String.eqb k key); simpl; [|done].
    destruct (Nat.eqb_spec f fn) as [->|Hne].
    + rewrite bool_decide_true; [done|]. apply elem_of_app. right. by left.
    + by rewrite (bool_decide_ext (fn ∈ fns ++ [f]) (fn ∈ fns)) by (rewrite elem_of_app, list_elem_of_singleton; naive_solver).
Qed.

Lemma set_heard key value writeAttr attrName a : heard a -> heard (set key value writeAttr attrName a).
Proof.
  intros H. unfold set. destruct (attr_name_of _ _ _) as [name m]. set (v := set_value _ _ _). set (e := if writeAttr then _ else _).
  set (a0 := Attrs _ m _ e _ _ _). destruct (calls_fold key v (ob_fns (listeners key a)) a0) as ((H1 & H2 & H3 & _) & Hc & _).
  set (a1 := fold_left _ _ a0) in *. clearbody a1. intros k fn.
  assert (Hl : listeners k a1 = listeners k a) by (unfold listeners; by rewrite H2). rewrite Hl. intros Hin.
  unfold own. rewrite H1, H3, Hc. simpl. rewrite last_call_map, alookup_aset.
  destruct (String.eqb_spec key k) as [->|Hne]; simpl.
  - rewrite bool_decide_true by done. auto.
  - by apply H.
Qed.

Lemma listeners_observe key fn a k : listeners k (observe key fn a) =
  if String.eqb key k then Observers (ob_fns (listeners key a) ++ [fn]) (ob_inter (listeners key a)) else listeners k a.
Proof. unfold observe, listeners at 1. simpl. rewrite alookup_aset. by destruct (String.eqb key k). Qed.

Lemma listeners_mark key a k : listeners k (mark_inter key a) =
  if String.eqb key k then Observers (ob_fns (listeners key a)) true else listeners k a.
Proof. unfold mark_inter, listeners at 1. simpl. rewrite alookup_aset. by destruct (String.eqb key k). Qed.

Lemma observe_heard key fn a : heard a -> heard (observe key fn a).
Proof.
  intros H k f. rewrite listeners_observe. simpl. rewrite elem_of_app, list_elem_of_singleton. change (own k (observe key fn a)) with (own k a).
  destruct (String.eqb_spec key k) as [->|Hne]; simpl.
  - rewrite elem_of_app, list_elem_of_singleton. intros [Hin| ->]; [|auto]. destruct (H k f Hin) as [?|[?|?]]; auto.
  - intros Hin. destruct (H k f Hin) as [?|[?|?]]; auto.
Qed.

Lemma mark_heard key a : heard a -> heard (mark_inter key a).
Proof.
  intros H k f. rewrite listeners_mark. destruct (String.eqb_spec key k) as [->|Hne]; simpl; [auto|]. apply H.
Qed.

Lemma run_heard a : heard a -> heard (run_async a) /\ a_async (run_async a) = [] /\ a_own (run_async a) = a_own a.
Proof.
  intros H. unfold run_async. set (a0 := Attrs _ _ _ _ [] _ _).
  assert (H0 : forall key fn, fn ∈ ob_fns (listeners key a0) ->
    ob_inter (listeners key a0) = true \/ (key, fn) ∈ a_async a \/ last_call key fn (a_calls a0) = Some (own key a0)) by exact H.
  assert (Hown : a_own a0 = a_own a) by done. assert (Has : a_async a0 = []) by done.
  clear H. clearbody a0. revert a0 H0 Hown Has. generalize (a_async a). intros q. induction q as [|[k f] q IH]; intros a0 H0 Hown Has; simpl.
  - split; [|done]. intros key fn Hin. destruct (H0 key fn Hin) as [?|[?|?]]; auto. by apply not_elem_of_nil in H.
  - apply IH; [|by destruct (ob_inter (listeners k a0))..]. destruct (ob_inter (listeners k a0)) eqn:Hi.
    + intros key fn Hin. destruct (H0 key fn Hin) as [?|[[Heq|?]%elem_of_cons|?]]; auto. simplify_eq. auto.
    + intros key fn Hin. simpl. rewrite last_call_snoc. change (own key (call k (own k a0) a0 f)) with (own key a0).
      destruct (String.eqb_spec k key) as [->|Hk]; simpl.
      * destruct (Nat.eqb_spec f fn) as [->|Hf]; [auto|]. destruct (H0 key fn Hin) as [?|[[Heq|?]%elem_of_cons|?]]; auto. simplify_eq.
      * destruct (H0 key fn Hin) as [?|[[Heq|?]%elem_of_cons|?]]; auto. simplify_eq.
Qed.

Lemma exec_heard ops : forall a, heard a -> heard (exec ops a).
Proof.
  induction ops as [|o ops IH]; intros a H; [done|]. apply IH. destruct o; simpl.
  - by apply set_heard.
  - by apply observe_heard.
  - by apply mark_heard.
  - by apply run_heard.
Qed.

(** After a digest, a listener of an attribute that no expression interpolates
    was last called with the value the attribute has, whatever was set and
    whichever listener threw. *)
Lemma observers_current ops a key fn : a_observers a = [] -> fn ∈ ob_fns (listeners key (exec (ops ++ [Digest]) a)) ->
  ob_inter (listeners key (exec (ops ++ [Digest]) a)) = false ->
  last_call key fn (a_calls (exec (ops ++ [Digest]) a)) = Some (own key (exec (ops ++ [Digest]) a)).
Proof.
  intros Ho. assert (H0 : heard a) by (intros k f; unfold listeners; rewrite Ho; intros ?%not_elem_of_nil; done).
  unfold exec. rewrite fold_left_app. simpl. fold (exec ops a). destruct (run_heard (exec ops a) (exec_heard ops a H0)) as (Hh & Has & _).
  intros Hin Hi. destruct (Hh key fn Hin) as [?|[Hq|?]]; [congruence| |done]. rewrite Has in Hq. by apply not_elem_of_nil in Hq.
Qed.

End Attributes.

End Attributes.

(** ** Classes *)

Module Classes.

(** [s.split(/\s+/)]; [in_run] is whether space has just been read. *)
Fixpoint split_ws (in_run : bool) (s : string) : list string :=
  match s with
  | EmptyString => [""]
  | String c s =>
      if js_space c then (if in_run then split_ws true s else "" :: split_ws true s)
      else match split_ws false s with w :: ws => String c w :: ws | [] => [] end
  end.

Definition tokenDifference (str1 str2 : string) : string :=
  let tokens2 := split_ws false str2 in
  fold_left (fun values token =>
    if existsb (String.eqb token) tokens2 then values
    else values +:+ (if String.eqb values "" then "" else " ") +:+ token) (split_ws false str1) "".

(** [replace(/[\n\t]/g, ' ')]. *)
Fixpoint flatten (s : string) : string :=
  match s with
  | EmptyString => ""
  | String c s => String (if Ascii.eqb c "010" || Ascii.eqb c "009" then " "%char else c) (flatten s)
  end.

Definition padded (cls : string) : string := flatten (" " +:+ cls +:+ " ").

Definition holds (existing w : string) : bool := match cut (" " +:+ w +:+ " ") existing with Some _ => true | None => false end.

Definition jqLiteHasClass (cls selector : string) : bool := holds (padded cls) selector.

(** [replace(' ' + w + ' ', ' ')], the first one. *)
Definition drop_word (s w : string) : string :=
  match cut (" " +:+ w +:+ " ") s with Some (a, b) => a +:+ " " +:+ b | None => s end.

Definition jqLiteRemoveClass (cls cssClasses : string) : string :=
  if String.eqb cssClasses "" then cls
  else fold_left (fun cls w => trim (drop_word (padded cls) (trim w))) (split_char " " cssClasses) cls.

Definition jqLiteAddClass (cls cssClasses : string) : string :=
  if String.eqb cssClasses "" then cls
  else trim (fold_left (fun existing w => if holds existing (trim w) then existing else existing +:+ trim w +:+ " ")
               (split_char " " cssClasses) (padded cls)).

(** [$updateClass], through [$animate]. *)
Definition updateClass (newClasses oldClasses cls : string) : string :=
  let toAdd := tokenDifference newClasses oldClasses in
  let toRemove := tokenDifference oldClasses newClasses in
  if String.eqb toAdd "" then jqLiteRemoveClass cls toRemove
  else if String.eqb toRemove "" then jqLiteAddClass cls toAdd
  else jqLiteRemoveClass (jqLiteAddClass cls toAdd) toRemove.

(** *** Class names and their texts *)

Definition word (w : string) : Prop := w <> "" /\ all_chars (fun c => negb (js_space c)) w = true.

(** The names, one space apart. *)
Abbreviation text := (join " ").

Fixpoint body (ws : list string) : string :=
  match ws with [] => "" | w :: ws => w +:+ " " +:+ body ws end.
Definition pad (ws : list string) : string := String " " (body ws).

Lemma js_space_space : js_space " " = true. Proof. done. Qed.

Lemma word_no_space w : word w -> contains_char " " w = false.
Proof.
  intros [_ H]. rewrite contains_char_all, negb_false_iff. eapply all_chars_mono; [|exact H].
  intros d Hd. destruct (Ascii.eqb_spec d " ") as [->|]; done.
Qed.

Lemma split_ws_word w s : word w -> split_ws false (w +:+ s) = match split_ws false s with v :: vs => (w +:+ v) :: vs | [] => [] end.
Proof.
  intros [_ Hw]. induction w as [|c w IH]; [change ("" +:+ s) with s; by destruct (split_ws false s)|]. cbn [all_chars] in Hw.
  apply andb_true_iff in Hw as [Hc%negb_true_iff Hw]. change (String c w +:+ s) with (String c (w +:+ s)). cbn [split_ws].
  rewrite Hc, IH by done. by destruct (split_ws false s).
Qed.

Lemma split_ws_start w s : word w -> split_ws true (w +:+ s) = split_ws false (w +:+ s).
Proof.
  intros [Hne Hw]. destruct w as [|c w]; [done|]. cbn [all_chars] in Hw. apply andb_true_iff in Hw as [Hc%negb_true_iff _].
  change (String c w +:+ s) with (String c (w +:+ s)). cbn [split_ws]. by rewrite Hc.
Qed.

Lemma split_ws_text ws : Forall word ws -> split_ws false (text ws) = match ws with [] => [""] | _ => ws end.
Proof.
  induction 1 as [|w ws Hw Hws IH]; [done|]. destruct ws as [|v ws].
  - change (text [w]) with w. rewrite <- (string_app_nil_r w) at 1. rewrite split_ws_word by done. simpl. by rewrite string_app_nil_r.
  - change (text (w :: v :: ws)) with (w +:+ String " " (text (v :: ws))). rewrite split_ws_word by done.
    cbn [split_ws]. rewrite js_space_space. assert (Hr : split_ws true (text (v :: ws)) = split_ws false (text (v :: ws))).
    { apply Forall_cons in Hws as [Hv _]. destruct ws as [|u ws]; [rewrite <- (string_app_nil_r (text [v]))|]; by apply (split_ws_start v). }
    rewrite Hr, IH. by rewrite string_app_nil_r.
Qed.

Lemma text_snoc ws w : Forall word ws -> text ws +:+ (if String.eqb (text ws) "" then "" else " ") +:+ w = text (ws ++ [w]).
Proof.
  induction 1 as [|v ws Hv Hws IH]; [done|]. destruct ws as [|u ws].
  - change (text [v]) with v. destruct (String.eqb_spec v "") as [->|]; [by destruct Hv|done].
  - change (text ((v :: u :: ws) ++ [w])) with (v +:+ " " +:+ text ((u :: ws) ++ [w])). rewrite <- IH.
    change (text (v :: u :: ws)) with (v +:+ " " +:+ text (u :: ws)).
    assert (Hu : forall x, String.eqb (v +:+ x) "" = false) by (intros x; destruct v; [by destruct Hv|done]).
    rewrite Hu. assert (Hu' : String.eqb (text (u :: ws)) "" = false).
    { apply Forall_cons in Hws as [[Hne _] _]. destruct ws; simpl; destruct u; done. }
    rewrite Hu'. by rewrite !string_app_assoc.
Qed.

Lemma existsb_in w ws : existsb (String.eqb w) ws = bool_decide (w ∈ ws).
Proof.
  induction ws as [|v ws IH]; simpl; [done|]. rewrite IH.
  destruct (String.eqb_spec w v) as [->|Hne]; simpl; [by rewrite bool_decide_true by by left|].
  apply bool_decide_ext. rewrite elem_of_cons. naive_solver.
Qed.

(** The names in the first list and not in the second. *)
Definition minus (ws vs : list string) : list string := filter (fun w => w ∉ vs) ws.

Lemma minus_words ws vs : Forall word ws -> Forall word (minus ws vs).
Proof. intros H. apply Forall_forall. intros x [_ Hx]%list_elem_of_filter. by eapply Forall_forall in H. Qed.

Lemma tokenDifference_text ws vs : Forall word ws -> Forall word vs -> tokenDifference (text ws) (text vs) = text (minus ws vs).
Proof.
  intros Hws Hvs. unfold tokenDifference. rewrite !split_ws_text by done.
  set (ts := match vs with [] => [""] | _ => vs end).
  assert (Hts : forall w, word w -> existsb (String.eqb w) ts = bool_decide (w ∈ vs)).
  { intros w [Hne _]. unfold ts. destruct vs; [|apply existsb_in]. simpl. by destruct (String.eqb_spec w ""). }
  destruct ws as [|w ws]; [cbn [fold_left]; by destruct (existsb (String.eqb "") ts)|]. revert Hws. generalize (w :: ws). clear w ws. intros ws Hws.
  enough (Hf : forall us, Forall word us -> fold_left (fun values token => if existsb (String.eqb token) ts then values
      else values +:+ (if String.eqb values "" then "" else " ") +:+ token) ws (text us) = text (us ++ minus ws vs)) by exact (Hf [] (Forall_nil_2 _)).
  induction Hws as [|w ws Hw Hws IH]; intros us Hus; cbn [fold_left minus].
  - by rewrite app_nil_r.
  - unfold minus. rewrite filter_cons, Hts by done. fold (minus ws vs). destruct (decide (w ∈ vs)) as [Hin|Hin].
    + rewrite bool_decide_true by done. rewrite decide_False by naive_solver. by apply IH.
    + rewrite bool_decide_false by done. rewrite decide_True by done. rewrite text_snoc by done.
      rewrite IH by (apply Forall_app; split; [done|by constructor]). by rewrite <- app_assoc.
Qed.

(** *** The class attribute as a list of names *)

Lemma trim_end_app s t : trim_end t <> "" -> trim_end (s +:+ t) = s +:+ trim_end t.
Proof.
  intros Ht. induction s as [|c s IH]; [done|]. change (String c s +:+ t) with (String c (s +:+ t)). cbn [trim_end]. rewrite IH.
  change (String c s +:+ trim_end t) with (String c (s +:+ trim_end t)). destruct (s +:+ trim_end t) eqn:He; [|done].
  destruct s; [|done]. by destruct Ht.
Qed.

Lemma trim_end_word w : word w -> trim_end w = w /\ trim_end (w +:+ " ") = w.
Proof.
  intros [_ Hw]. induction w as [|c w IH]; [done|]. cbn [all_chars] in Hw. apply andb_true_iff in Hw as [Hc%negb_true_iff Hw].
  destruct (IH Hw) as [H1 H2]. change (String c w +:+ " ") with (String c (w +:+ " ")). cbn [trim_end]. rewrite H1, H2, Hc. by destruct w.
Qed.

Lemma trim_start_word w s : word w -> trim_start (w +:+ s) = w +:+ s.
Proof.
  intros [Hne Hw]. destruct w as [|c w]; [done|]. cbn [all_chars] in Hw. apply andb_true_iff in Hw as [Hc%negb_true_iff _].
  change (String c w +:+ s) with (String c (w +:+ s)). cbn [trim_start]. by rewrite Hc.
Qed.

Lemma trim_word w : word w -> trim w = w.
Proof. intros Hw. unfold trim. rewrite <- (string_app_nil_r w) at 1. rewrite trim_start_word by done. rewrite string_app_nil_r. by apply trim_end_word. Qed.

Lemma text_nonempty w ws : word w -> text (w :: ws) <> "".
Proof. intros [Hne _]. destruct w as [|c w]; [done|]. by destruct ws. Qed.

Lemma trim_end_body ws : Forall word ws -> trim_end (body ws) = text ws.
Proof.
  induction 1 as [|w ws Hw Hws IH]; [done|]. destruct ws as [|v ws].
  - change (body [w]) with (w +:+ " "). by apply trim_end_word.
  - change (body (w :: v :: ws)) with (w +:+ " " +:+ body (v :: ws)). change (text (w :: v :: ws)) with (w +:+ " " +:+ text (v :: ws)).
    apply Forall_cons in Hws as [Hv _].
    assert (H : trim_end (" " +:+ body (v :: ws)) = " " +:+ text (v :: ws)) by (rewrite trim_end_app; rewrite IH; [done|by apply text_nonempty]).
    rewrite trim_end_app; rewrite H; done.
Qed.

Definition lead (spaced : bool) : string := if spaced then " " else "".

Lemma trim_pad b ws : Forall word ws -> trim (lead b +:+ pad ws) = text ws.
Proof.
  intros Hws. unfold trim. replace (trim_start (lead b +:+ pad ws)) with (trim_start (body ws)) by by destruct b.
  destruct ws as [|w ws]; [done|]. apply Forall_cons in Hws as Hw. destruct Hw as [Hw _].
  change (body (w :: ws)) with (w +:+ (" " +:+ body ws)). rewrite trim_start_word by done. by apply (trim_end_body (w :: ws)).
Qed.

Lemma flatten_app s t : flatten (s +:+ t) = flatten s +:+ flatten t.
Proof. induction s as [|c s IH]; [done|]. simpl. by rewrite IH. Qed.

Lemma flatten_word w : word w -> flatten w = w.
Proof.
  intros [_ Hw]. induction w as [|c w IH]; [done|]. cbn [all_chars] in Hw. apply andb_true_iff in Hw as [Hc Hw]. simpl. rewrite IH by done.
  destruct (Ascii.eqb_spec c "010") as [->|]; [done|]. by destruct (Ascii.eqb_spec c "009") as [->|].
Qed.

Lemma text_body ws : ws <> [] -> text ws +:+ " " = body ws.
Proof.
  induction ws as [|w ws IH]; [done|]. intros _. destruct ws as [|v ws]; [done|].
  change (text (w :: v :: ws)) with (w +:+ " " +:+ text (v :: ws)). change (body (w :: v :: ws)) with (w +:+ " " +:+ body (v :: ws)).
  rewrite <- IH by done. by rewrite !string_app_assoc.
Qed.

Lemma flatten_body ws : Forall word ws -> flatten (body ws) = body ws.
Proof. induction 1 as [|w ws Hw _ IH]; [done|]. cbn [body]. by rewrite !flatten_app, flatten_word, IH. Qed.

Lemma padded_text ws : Forall word ws -> exists b, padded (text ws) = lead b +:+ pad ws.
Proof.
  intros Hws. unfold padded. destruct ws as [|w ws]; [by exists true|]. exists false. rewrite text_body by done.
  rewrite flatten_app, flatten_body by done. done.
Qed.

Lemma word_unique v w x y : word v -> word w -> v +:+ " " +:+ x = w +:+ " " +:+ y -> v = w /\ x = y.
Proof.
  intros [_ Hv] [_ Hw]. revert w Hw. induction v as [|c v IH]; intros [|d w] Hw He; cbn [all_chars] in *.
  - by do 2 apply string_app_inj_l in He as He.
  - injection He as <- _. done.
  - injection He as -> _. done.
  - apply andb_true_iff in Hv as [_ Hv], Hw as [_ Hw]. injection He as -> He. by destruct (IH Hv w Hw He) as [-> ->].
Qed.

Lemma strip_pad w v ws : word w -> word v -> strip (" " +:+ w +:+ " ") (pad (v :: ws)) = if decide (v = w) then Some (body ws) else None.
Proof.
  intros Hw Hv. unfold pad. cbn [body]. destruct (decide (v = w)) as [->|Hne].
  - apply strip_some. change (" " +:+ w +:+ " ") with (String " " (w +:+ " ")).
    change (String " " (w +:+ " ") +:+ body ws) with (String " " ((w +:+ " ") +:+ body ws)). by rewrite <- string_app_assoc.
  - destruct (strip _ _) as [r|] eqn:Hs; [|done]. apply strip_some in Hs. exfalso. apply Hne.
    change ((" " +:+ w +:+ " ") +:+ r) with (String " " ((w +:+ " ") +:+ r)) in Hs. injection Hs as Hs. rewrite <- string_app_assoc in Hs.
    by apply word_unique in Hs as [-> _].
Qed.

(** A pattern that starts with a space is not met inside a name. *)
Lemma cut_skip p v s : all_chars (fun c => negb (js_space c)) v = true ->
  cut (String " " p) (v +:+ s) = match cut (String " " p) s with Some (a, b) => Some (v +:+ a, b) | None => None end.
Proof.
  induction v as [|c v IH]; intros Hv; [change ("" +:+ s) with s; by destruct (cut (String " " p) s) as [[a b]|]|]. cbn [all_chars] in Hv.
  apply andb_true_iff in Hv as [Hc%negb_true_iff Hv]. change (String c v +:+ s) with (String c (v +:+ s)). cbn [cut].
  assert (Hn : strip (String " " p) (String c (v +:+ s)) = None) by (simpl; destruct c as [[] [] [] [] [] [] [] []]; done).
  rewrite Hn, IH by done. by destruct (cut (String " " p) s) as [[a b]|].
Qed.

Lemma minus_one_notin ws w : w ∉ ws -> minus ws [w] = ws.
Proof. intros H. apply filter_keep, Forall_forall. intros x Hx. rewrite list_elem_of_singleton. by intros ->. Qed.

Lemma cut_pad w ws : word w -> Forall word ws -> NoDup ws ->
  match cut (" " +:+ w +:+ " ") (pad ws) with
  | Some (a, b) => w ∈ ws /\ a +:+ " " +:+ b = pad (minus ws [w])
  | None => w ∉ ws
  end.
Proof.
  intros Hw Hws Hnd. induction Hws as [|v ws Hv Hws IH].
  { destruct w as [|c w]; [by destruct Hw|]. simpl. apply not_elem_of_nil. }
  apply NoDup_cons in Hnd as [Hvn Hnd]. specialize (IH Hnd). unfold pad in *. cbn [cut].
  pose proof (strip_pad w v ws Hw Hv) as Hs. unfold pad in Hs. rewrite Hs. destruct (decide (v = w)) as [->|Hne].
  - split; [by left|]. unfold minus. rewrite filter_cons, decide_False by (rewrite list_elem_of_singleton; naive_solver).
    fold (minus ws [w]). by rewrite (minus_one_notin ws w).
  - cbn [body]. change (" " +:+ w +:+ " ") with (String " " (w +:+ " ")) in *. rewrite cut_skip by apply Hv.
    change (" " +:+ body ws) with (String " " (body ws)). unfold minus. rewrite filter_cons, decide_True by (rewrite list_elem_of_singleton; done).
    fold (minus ws [w]). destruct (cut _ _) as [[a b]|].
    + destruct IH as [Hin Heq]. split; [by right|]. cbn [body]. change (String " " (body (minus ws [w]))) with (" " +:+ body (minus ws [w])) in Heq.
      change (String " " (v +:+ a) +:+ " " +:+ b) with (String " " ((v +:+ a) +:+ " " +:+ b)). f_equal. by rewrite <- string_app_assoc, Heq.
    + rewrite elem_of_cons. naive_solver.
Qed.

(** The same with the space that an empty attribute leaves. *)
Lemma cut_lead b w ws : word w -> cut (" " +:+ w +:+ " ") (lead b +:+ pad ws) =
  match cut (" " +:+ w +:+ " ") (pad ws) with Some (x, y) => Some (lead b +:+ x, y) | None => None end.
Proof.
  intros [Hne Hw]. destruct b; [|by destruct (cut _ _) as [[x y]|]]. destruct w as [|c w]; [done|].
  change (lead true +:+ pad ws) with (String " " (pad ws)). cbn [cut].
  assert (Hs : strip (" " +:+ String c w +:+ " ") (String " " (pad ws)) = None).
  { cbn [all_chars] in Hw. apply andb_true_iff in Hw as [Hc _]. simpl. by destruct (Ascii.eqb_spec c " ") as [->|]. }
  rewrite Hs. done.
Qed.

Lemma holds_pad b w ws : word w -> Forall word ws -> NoDup ws -> holds (lead b +:+ pad ws) w = bool_decide (w ∈ ws).
Proof.
  intros Hw Hws Hnd. unfold holds. rewrite cut_lead by done. pose proof (cut_pad w ws Hw Hws Hnd) as H.
  destruct (cut _ _) as [[x y]|]; [rewrite bool_decide_true; [done|apply H]|by rewrite bool_decide_false].
Qed.

Lemma drop_pad b w ws : word w -> Forall word ws -> NoDup ws -> drop_word (lead b +:+ pad ws) w = lead b +:+ pad (minus ws [w]).
Proof.
  intros Hw Hws Hnd. unfold drop_word. rewrite cut_lead by done. pose proof (cut_pad w ws Hw Hws Hnd) as H.
  destruct (cut _ _) as [[x y]|]; [|by rewrite minus_one_notin].
  destruct H as [_ H]. rewrite <- H. by rewrite <- string_app_assoc.
Qed.

Lemma minus_minus ws vs us : minus (minus ws vs) us = minus ws (vs ++ us).
Proof. unfold minus. rewrite list_filter_filter. apply list_filter_iff. intros x. rewrite elem_of_app. naive_solver. Qed.

Lemma minus_NoDup ws vs : NoDup ws -> NoDup (minus ws vs).
Proof. apply NoDup_filter. Qed.

Lemma minus_nil ws : minus ws [] = ws.
Proof. apply filter_keep, Forall_forall. intros x _. apply not_elem_of_nil. Qed.

(** Removing and adding names. *)
Lemma removeClass_text ws cs : Forall word ws -> NoDup ws -> Forall word cs -> jqLiteRemoveClass (text ws) (text cs) = text (minus ws cs).
Proof.
  intros Hws Hnd Hcs. unfold jqLiteRemoveClass. destruct cs as [|c cs].
  { by rewrite minus_nil. }
  destruct (String.eqb_spec (text (c :: cs)) "") as [He|_]; [apply Forall_cons in Hcs as [Hc _]; by apply text_nonempty in He|].
  rewrite (split_join " " (c :: cs)) by first [done | eapply Forall_impl; [exact Hcs|apply word_no_space]].
  revert ws Hws Hnd Hcs. generalize (c :: cs). clear c cs. intros cs. induction cs as [|c cs IH]; intros ws Hws Hnd Hcs.
  - by rewrite minus_nil.
  - apply Forall_cons in Hcs as [Hc Hcs]. cbn [fold_left]. rewrite (trim_word c) by done.
    destruct (padded_text ws Hws) as [b ->]. rewrite drop_pad, trim_pad by (done || by apply minus_words).
    rewrite IH by (done || by apply minus_words || by apply minus_NoDup). by rewrite minus_minus.
Qed.

Lemma pad_snoc ws w : pad ws +:+ w +:+ " " = pad (ws ++ [w]).
Proof.
  unfold pad. change (String " " (body ws) +:+ w +:+ " ") with (String " " (body ws +:+ w +:+ " ")). f_equal.
  induction ws as [|v ws IH]; [done|]. cbn [body app]. rewrite <- IH. by rewrite !string_app_assoc.
Qed.

Lemma addClass_text ws cs : Forall word ws -> NoDup ws -> Forall word cs -> NoDup cs ->
  jqLiteAddClass (text ws) (text cs) = text (ws ++ minus cs ws).
Proof.
  intros Hws Hnd Hcs Hndc. unfold jqLiteAddClass. destruct cs as [|c cs]; [by rewrite app_nil_r|].
  destruct (String.eqb_spec (text (c :: cs)) "") as [He|_]; [apply Forall_cons in Hcs as [Hc _]; by apply text_nonempty in He|].
  rewrite (split_join " " (c :: cs)) by first [done | eapply Forall_impl; [exact Hcs|apply word_no_space]].
  destruct (padded_text ws Hws) as [b ->].
  enough (Hf : forall ws, Forall word ws -> NoDup ws ->
    fold_left (fun existing w => if holds existing (trim w) then existing else existing +:+ trim w +:+ " ") (c :: cs) (lead b +:+ pad ws) =
    lead b +:+ pad (ws ++ minus (c :: cs) ws)).
  { rewrite Hf by done. apply trim_pad. apply Forall_app. split; [done|by apply minus_words]. }
  clear ws Hws Hnd. revert Hcs Hndc. generalize (c :: cs). clear c cs. intros cs Hcs Hndc.
  induction Hcs as [|c cs Hc Hcs IH]; intros ws Hws Hnd; [by rewrite app_nil_r|].
  apply NoDup_cons in Hndc as [Hcn Hndc]. cbn [fold_left]. rewrite (trim_word c), holds_pad by done.
  unfold minus. rewrite filter_cons. fold (minus cs ws). destruct (decide (c ∈ ws)) as [Hin|Hin].
  - rewrite bool_decide_true by done. rewrite decide_False by naive_solver. by apply IH.
  - rewrite bool_decide_false by done. rewrite decide_True by done. rewrite <- string_app_assoc, pad_snoc.
    rewrite IH; [|done|apply Forall_app; split; [done|by constructor]|].
    + rewrite <- app_assoc. do 3 f_equal. simpl. f_equal. apply filter_ext_in. apply Forall_forall. intros x Hx. rewrite elem_of_app, list_elem_of_singleton. naive_solver.
    + apply NoDup_app. split_and!; [done| |apply NoDup_singleton]. intros x Hx ->%list_elem_of_singleton. done.
Qed.

End Classes.

(** ** Claims *)

(** C32: the two-way binding of an isolate scope to an expression that is no
    literal and can be assigned, so that it reads as what was assigned: whatever
    is written to the parent and to the isolate scope, after a watch both have
    one value.  It is the parent's when the parent's is not the value both had at
    the watch, or the linking, before; otherwise it is the isolate scope's, which
    is assigned to the parent.  A watch right after changes nothing and returns
    the same value, so that the digest ends.  (An expression that cannot be
    assigned refuses the write: Lemma [readonly_agrees].) *)
Theorem two_way_binding {E S} get set parentGet assign equals (Ha : Isolate.assignable (E := E) (S := S) get set parentGet assign)
    (s : S) (before : list Isolate.op) (writes : list Isolate.op) (b : Isolate.binding)
    (Hb : Isolate.bind parentGet s = Ok b)
    (Hlast : before = [] \/ exists ops, before = ops ++ [Isolate.Watch])
    (Hw : existsb Isolate.is_watch writes = false) :
  let agreed := Isolate.exec parentGet assign false equals before b in
  let written := Isolate.exec parentGet assign false equals writes agreed in
  let '(r, after) := Isolate.parentValueWatch parentGet assign false equals written in
  let v := if bool_decide (get (Isolate.b_scope written) = get (Isolate.b_scope agreed)) then Isolate.b_iso written else get (Isolate.b_scope written) in
  get (Isolate.b_scope agreed) = Isolate.b_iso agreed /\
  r = Ok v /\ get (Isolate.b_scope after) = v /\ Isolate.b_iso after = v /\
  Isolate.parentValueWatch parentGet assign false equals after = (Ok v, after).
Proof.
  intros agreed written.
  assert (Hagreed : get (Isolate.b_scope agreed) = Isolate.b_last agreed /\ Isolate.b_iso agreed = Isolate.b_last agreed).
  { unfold agreed. destruct Hlast as [-> | [ops ->]].
    - unfold Isolate.bind in Hb. rewrite (Isolate.as_get _ _ _ _ Ha) in Hb. simplify_eq. done.
    - rewrite Isolate.exec_app. set (b1 := Isolate.exec _ _ _ _ ops b).
      change (Isolate.exec parentGet assign false equals [Isolate.Watch] b1) with (Isolate.parentValueWatch parentGet assign false equals b1).2.
      destruct (Isolate.watch_step get set parentGet assign equals Ha b1) as (_ & H1 & H2 & H3). by rewrite H1, H2, H3. }
  destruct Hagreed as [H1 H2].
  pose proof (Isolate.writes_keep_last parentGet assign equals writes Hw agreed) as H3. fold written in H3.
  pose proof (Isolate.watch_step get set parentGet assign equals Ha written) as Hs.
  destruct (Isolate.parentValueWatch parentGet assign false equals written) as [r after].
  cbn [fst snd] in Hs. rewrite H3, <- H1 in Hs. destruct Hs as (-> & Hp & Hi & Hl).
  split; [congruence|]. split_and!; try done.
  unfold Isolate.parentValueWatch. rewrite (Isolate.as_get _ _ _ _ Ha). unfold Isolate.compare.
  rewrite Isolate.same_value_eq, Hp, Hi, bool_decide_true by done. destruct after; simpl in *. by subst.
Qed.

Lemma two_way_binding_witness :
  let r := Isolate.parentValueWatch (E := unit) (fun s => (Ok s, s)) (Some (fun v _ => (Ok tt, v))) false (fun _ _ _ => false)
    (Isolate.Binding (JNum 1) (JStr "x") (JNum 1)) in
  r.1 = Ok (JStr "x") /\ Isolate.b_scope r.2 = JStr "x".
Proof.
  pose proof (two_way_binding (E := unit) (fun s => s) (fun v _ => v) (fun s => (Ok s, s)) (Some (fun v _ => (Ok tt, v))) (fun _ _ _ => false)
    ltac:(by constructor) (JNum 1) [] [Isolate.WriteIsolate (JStr "x")] _ eq_refl (or_introl eq_refl) eq_refl) as H.
  destruct H as (_ & H1 & H2 & _). split; [exact H1|exact H2].
Defined.

(** [$updateClass] exchanges the classes an attribute had for those it has
    now, on the text of the element's [class] attribute: the names of the element
    stay, in order, but for the old ones that are not among the new; the new ones
    that were neither old nor on the element come after them, in order. *)
Theorem class_exchange_exact (ws olds news : list string)
    (Hws : Forall Classes.word ws) (Hnd : NoDup ws) (Holds : Forall Classes.word olds) (Hnews : Forall Classes.word news) (Hnn : NoDup news) :
  Classes.updateClass (join " " news) (join " " olds) (join " " ws) =
  join " " (filter (fun c => c ∉ olds \/ c ∈ news) ws ++ filter (fun c => (c ∉ olds) /\ (c ∉ ws)) news).
Proof.
  unfold Classes.updateClass. rewrite !Classes.tokenDifference_text by done.
  pose proof (Classes.minus_words _ olds Hnews) as Hadd. pose proof (Classes.minus_words _ news Holds) as Hrem.
  assert (Hkeep : Classes.minus ws (Classes.minus olds news) = filter (fun c => c ∉ olds \/ c ∈ news) ws).
  { apply list_filter_iff. intros x. unfold Classes.minus. rewrite list_elem_of_filter. destruct (decide (x ∈ news)); naive_solver. }
  assert (Hnew : Classes.minus (Classes.minus news olds) ws = filter (fun c => (c ∉ olds) /\ (c ∉ ws)) news).
  { rewrite Classes.minus_minus. apply list_filter_iff. intros x. rewrite elem_of_app. naive_solver. }
  destruct (String.eqb_spec (join " " (Classes.minus news olds)) "") as [Ha|Ha].
  { destruct (Classes.minus news olds) as [|c cs]; [|apply Forall_cons in Hadd as [Hc _]; by apply Classes.text_nonempty in Ha].
    rewrite Classes.removeClass_text by done. rewrite Hkeep, <- Hnew. simpl. by rewrite app_nil_r. }
  destruct (String.eqb_spec (join " " (Classes.minus olds news)) "") as [Hr|Hr].
  { destruct (Classes.minus olds news) as [|c cs] eqn:Hm; [|apply Forall_cons in Hrem as [Hc _]; by apply Classes.text_nonempty in Hr].
    rewrite Classes.addClass_text by (done || by apply Classes.minus_NoDup). by rewrite Hnew, <- Hkeep, Classes.minus_nil. }
  rewrite Classes.addClass_text by (done || by apply Classes.minus_NoDup).
  rewrite Classes.removeClass_text.
  - rewrite Hnew. unfold Classes.minus at 1. rewrite filter_app. fold (Classes.minus ws (Classes.minus olds news)). rewrite Hkeep.
    do 2 f_equal. apply filter_keep, Forall_forall. intros x [[Hx _] _]%list_elem_of_filter. unfold Classes.minus. rewrite list_elem_of_filter. naive_solver.
  - apply Forall_app. split; [done|by apply Classes.minus_words].
  - apply NoDup_app. split_and!; [done| |by do 2 apply Classes.minus_NoDup]. intros x Hx. unfold Classes.minus. rewrite list_elem_of_filter. naive_solver.
  - done.
Qed.

Lemma class_exchange_exact_witness :
  Classes.updateClass "active wide" "idle wide" "row idle wide" = "row wide active".
Proof.
  apply (class_exchange_exact ["row"; "idle"; "wide"] ["idle"; "wide"] ["active"; "wide"]).
  1, 3, 4: repeat constructor; done.
  all: repeat constructor; rewrite ?elem_of_cons, ?elem_of_nil; intuition discriminate.
Defined.
