(* ===== verification/NgSce.v ===== *)
(** * NgSce: strict contextual escaping

    [$sceDelegate], [$sce] and [sanitizeUri] (angular.js 13200-13328, 13398-13644
    and 13928-14324).  [Patterns] turns a configured pattern into the text of a
    regular expression and runs it; [Policy] decides which URLs resources may come
    from; [Delegate] is the values trusted in a context; [Sanitize] marks the
    links whose scheme is not listed.

    A regular expression is its source text.  The texts made of literal
    characters, identity escapes, two-digit hexadecimal escapes, [.*],
    [[^:/.?&;]*], [^], [$] and [|] are read and run here, which is every text the
    code makes from a string pattern; what an engine does with another text is a
    parameter. *)

From S2P Require Import Prelude Text Js NgUrl NgDirective.

#[local] Set Warnings "-clear-no-such-hyp".

(** ** Patterns *)

Module Patterns.

(** One character, [.*], and [[^:/.?&;]*]. *)
Inductive item := Lit (c : ascii) | Dots | Segment.

#[global] Instance item_eq_dec : EqDecision item.
Proof. solve_decision. Defined.

Definition special (c : ascii) : bool := contains_char c "-()[]{}+?*.$^|,:#<!\".

(** angular.js 13286-13289: a character of the escaped text; a backspace is
    written in hexadecimal. *)
Definition escape_char (c : ascii) (s : string) : string :=
  if special c then String "\" (String c s)
  else if Ascii.eqb c "008" then "\x08" +:+ s
  else String c s.

Fixpoint escapeForRegexp (s : string) : string :=
  match s with
  | "" => ""
  | String c s => escape_char c (escapeForRegexp s)
  end.

(** [s.replace(pat, rep)] with a string for [pat]: the first occurrence. *)
Fixpoint replace_first (pat rep s : string) : string :=
  if String.prefix pat s then rep +:+ String.substring (String.length pat) (String.length s) s
  else match s with
       | "" => ""
       | String c s => String c (replace_first pat rep s)
       end.

(** [s.indexOf(pat) > -1]. *)
Fixpoint has_substring (pat s : string) : bool :=
  String.prefix pat s || match s with "" => false | String _ s => has_substring pat s end.

(** What the policy lists may hold, and what they are turned into. *)
Inductive pattern := PString (s : string) | PRegExp (source flags : string) | POther.
Inductive matcher := Self | Expr (source : string).
Inductive failure := Iwcard (s : string) | Imatcher.

#[global] Instance matcher_eq_dec : EqDecision matcher.
Proof. solve_decision. Defined.

(** angular.js 13292-13317 *)
Definition adjustMatcher (m : pattern) : result failure matcher :=
  match m with
  | PString s =>
      if String.eqb s "self" then Ok Self
      else if has_substring "***" s then Err (Iwcard s)
      else Ok (Expr ("^" +:+ replace_first "\*" "[^:/.?&;]*"
                               (replace_first "\*\*" ".*" (escapeForRegexp s)) +:+ "$"))
  | PRegExp source _ => Ok (Expr ("^" +:+ source +:+ "$"))
  | POther => Err Imatcher
  end.

(** angular.js 13320-13328 *)
Fixpoint adjustMatchers (ms : list pattern) : result failure (list matcher) :=
  match ms with
  | [] => Ok []
  | m :: ms =>
      m ← adjustMatcher m;
      ms ← adjustMatchers ms;
      mret (m :: ms)
  end.

(** *** Reading a regular expression *)

Inductive token := TItem (i : item) | TCaret | TDollar | TBar.

Definition hex (c : ascii) : option N :=
  let n := N_of_ascii c in
  if is_digit c then Some (n - 48)%N
  else if ((97 <=? n) && (n <=? 102))%N then Some (n - 87)%N
  else if ((65 <=? n) && (n <=? 70))%N then Some (n - 55)%N
  else None.

(** A word character: its escape is not itself. *)
Definition word (c : ascii) : bool :=
  let n := N_of_ascii c in
  is_digit c || ((97 <=? n) && (n <=? 122))%N || ((65 <=? n) && (n <=? 90))%N || (n =? 95)%N.

Definition before (i : item) (r : option (list token)) : option (list token) :=
  option_map (cons (TItem i)) r.

(** [skip] counts the characters already read as part of a token. *)
Fixpoint tokens (skip : nat) (s : string) : option (list token) :=
  match s with
  | "" => Some []
  | String c s' =>
      match skip with
      | S skip => tokens skip s'
      | O =>
          if Ascii.eqb c "\" then
            match s' with
            | String d s'' =>
                if Ascii.eqb d "x" then
                  match s'' with
                  | String h (String l _) =>
                      match hex h, hex l with
                      | Some h, Some l => before (Lit (ascii_of_N (16 * h + l))) (tokens 3 s')
                      | _, _ => None
                      end
                  | _ => None
                  end
                else if word d then None else before (Lit d) (tokens 1 s')
            | "" => None
            end
          else if String.prefix ".*" s then before Dots (tokens 1 s')
          else if String.prefix "[^:/.?&;]*" s then before Segment (tokens 9 s')
          else if Ascii.eqb c "^" then option_map (cons TCaret) (tokens 0 s')
          else if Ascii.eqb c "$" then option_map (cons TDollar) (tokens 0 s')
          else if Ascii.eqb c "|" then option_map (cons TBar) (tokens 0 s')
          else if contains_char c "()[]{}+?*." then None
          else before (Lit c) (tokens 0 s')
      end
  end.

(** An alternative, with the assertions it starts and ends with. *)
Record alternative := Alternative { a_start : bool; a_items : list item; a_end : bool }.

(** The rest of an alternative after its first assertion, and the following
    ones. *)
Fixpoint alternatives (start : bool) (acc : list item) (l : list token) : option (list alternative) :=
  match l with
  | [] => Some [Alternative start (rev acc) false]
  | [TDollar] => Some [Alternative start (rev acc) true]
  | TDollar :: TBar :: TCaret :: l => option_map (cons (Alternative start (rev acc) true)) (alternatives true [] l)
  | TDollar :: TBar :: l => option_map (cons (Alternative start (rev acc) true)) (alternatives false [] l)
  | TBar :: TCaret :: l => option_map (cons (Alternative start (rev acc) false)) (alternatives true [] l)
  | TBar :: l => option_map (cons (Alternative start (rev acc) false)) (alternatives false [] l)
  | TItem i :: l => alternatives start (i :: acc) l
  | _ => None
  end.

Definition parse (source : string) : option (list alternative) :=
  match tokens 0 source with
  | Some (TCaret :: l) => alternatives true [] l
  | Some l => alternatives false [] l
  | None => None
  end.

(** *** Running it *)

(** The class of a repeated item takes the first character of the input. *)
Definition takes (i : item) (s : string) : bool :=
  match i, s with
  | Lit _, _ | _, "" => false
  | Dots, _ => negb (Location.at_line_end s)
  | Segment, String c _ => negb (contains_char c ":/.?&;")
  end.

Fixpoint run (l : list item) (k : string -> bool) (s : string) : bool :=
  match l with
  | [] => k s
  | Lit c :: l =>
      match s with
      | String d s => Ascii.eqb c d && run l k s
      | "" => false
      end
  | i :: l =>
      (fix star (s : string) : bool :=
         run l k s || match s with "" => false | String _ s' => takes i s && star s' end) s
  end.

(** The input from here on, or from a later position. *)
Fixpoint anywhere (f : string -> bool) (s : string) : bool :=
  f s || match s with "" => false | String _ s => anywhere f s end.

Definition match_alternative (a : alternative) (s : string) : bool :=
  let here := run (a_items a) (fun rest => negb (a_end a) || String.eqb rest "") in
  if a_start a then here s else anywhere here s.

Section Exec.
(** What the engine does with a text that is not read here. *)
Context (engine : string -> string -> bool).

(** [!!re.exec(s)]. *)
Definition exec (source s : string) : bool :=
  match parse source with
  | Some l => existsb (fun a => match_alternative a s) l
  | None => engine source s
  end.
End Exec.

(** *** What a pattern means *)

(** The items the code makes of a pattern: of the runs of stars, the first pair
    is [.*], then the first star left is [[^:/.?&;]*], and the others are
    themselves. *)
Fixpoint first_pair (s : string) : list item :=
  match s with
  | String c1 (String c2 s2 as s1) =>
      if Ascii.eqb c1 "*" && Ascii.eqb c2 "*" then Dots :: map Lit (String.list_ascii_of_string s2)
      else Lit c1 :: first_pair s1
  | _ => map Lit (String.list_ascii_of_string s)
  end.

Fixpoint first_star (l : list item) : list item :=
  match l with
  | [] => []
  | i :: l => if bool_decide (i = Lit "*") then Segment :: l else i :: first_star l
  end.

Definition made (s : string) : list item := first_star (first_pair s).

(** The items the documentation gives it: every pair, and every star left. *)
Fixpoint documented (s : string) : list item :=
  match s with
  | String c1 s1 =>
      if Ascii.eqb c1 "*" then
        match s1 with
        | String c2 s2 => if Ascii.eqb c2 "*" then Dots :: documented s2 else Segment :: documented s1
        | "" => [Segment]
        end
      else Lit c1 :: documented s1
  | "" => []
  end.

(** The input a list of items reads, up to a rest. *)
Inductive reads : list item -> string -> string -> Prop :=
| reads_nil s : reads [] s s
| reads_lit c l s r : reads l s r -> reads (Lit c :: l) (String c s) r
| reads_none i l s r : i = Dots \/ i = Segment -> reads l s r -> reads (i :: l) s r
| reads_one i l c s r : takes i (String c s) = true -> reads (i :: l) s r -> reads (i :: l) (String c s) r.

(** No line terminator is anywhere in it. *)
Fixpoint one_line (s : string) : bool :=
  negb (Location.at_line_end s) && match s with "" => true | String _ s => one_line s end.

(** The text of a list of items. *)
Fixpoint render (l : list item) (rest : string) : string :=
  match l with
  | [] => rest
  | Lit c :: l => escape_char c (render l rest)
  | Dots :: l => ".*" +:+ render l rest
  | Segment :: l => "[^:/.?&;]*" +:+ render l rest
  end.

Abbreviation lits s := (map Lit (String.list_ascii_of_string s)).

Lemma escape_render s : escapeForRegexp s = render (lits s) "".
Proof. induction s as [|c s IH]; [done|]. simpl. by rewrite IH. Qed.

Lemma replace_first_skip pat rep c s :
  String.prefix pat (String c s) = false -> replace_first pat rep (String c s) = String c (replace_first pat rep s).
Proof. intros H. cbn [replace_first]. by rewrite H. Qed.

Lemma prefix_app pat s : String.prefix pat (pat +:+ s) = true.
Proof. induction pat as [|c pat IH]; simpl; [by destruct s|by destruct (ascii_dec c c)]. Qed.

Lemma substring_skip pat s n :
  (String.length (pat +:+ s) <= n)%nat -> String.substring (String.length pat) n (pat +:+ s) = s.
Proof.
  revert n. induction pat as [|c pat IH]; intros n Hn; [by apply substring_all|].
  simpl in *. apply IH. lia.
Qed.

Lemma replace_first_here pat rep s : replace_first pat rep (pat +:+ s) = rep +:+ s.
Proof.
  assert (E : forall t, replace_first pat rep t =
    if String.prefix pat t then rep +:+ String.substring (String.length pat) (String.length t) t
    else match t with "" => "" | String c t => String c (replace_first pat rep t) end) by (by intros []).
  rewrite E, prefix_app, substring_skip; done.
Qed.

(** The text of an item, in front of anything, starts with a star never, and
    with an escaped star only when it is a star. *)
Lemma escape_char_star c s : String.prefix "*" (escape_char c s) = false.
Proof. destruct c as [[] [] [] [] [] [] [] []]; reflexivity. Qed.

Lemma render_star l : String.prefix "*" (render l "") = false.
Proof. destruct l as [|[c| |] l]; [done|apply escape_char_star|done|done]. Qed.

(** Replacing in the text of a character that is not a star moves past it. *)
Lemma replace_past_char c rep pat s :
  c <> "*"%char -> String.prefix "*" s = false ->
  replace_first (String "\" (String "*" pat)) rep (escape_char c s) =
  escape_char c (replace_first (String "\" (String "*" pat)) rep s).
Proof.
  intros Hc Hs.
  assert (Hp : forall t, String.prefix "*" t = false -> String.prefix (String "*" pat) t = false).
  { intros [|d t]; [done|]. cbn [String.prefix].
    destruct (ascii_dec "*" d); [by destruct t|done]. }
  apply Hp in Hs. clear Hp. revert Hc.
  destruct c as [[] [] [] [] [] [] [] []]; intros Hc; try (by contradict Hc);
    cbn -[replace_first]; rewrite ?replace_first_skip; simpl; rewrite ?Hs; reflexivity.
Qed.

Lemma replace_star l : replace_first "\*" "[^:/.?&;]*" (render l "") = render (first_star l) "".
Proof.
  induction l as [|i l IH]; [done|]. cbn [first_star]. case_bool_decide as Hi.
  - subst i. change (render (Lit "*" :: l) "") with ("\*" +:+ render l ""). by rewrite replace_first_here.
  - destruct i as [c| |]; cbn [render].
    + rewrite replace_past_char; [by rewrite IH|congruence|apply render_star].
    + simpl. by rewrite <- IH.
    + simpl. by rewrite <- IH.
Qed.

Lemma replace_pair s : replace_first "\*\*" ".*" (render (lits s) "") = render (first_pair s) "".
Proof.
  induction s as [|c1 s IH]; [done|].
  destruct (decide (c1 = "*"%char)) as [->|Hc].
  - destruct s as [|c2 s]; [done|]. destruct (decide (c2 = "*"%char)) as [->|Hc2].
    + change (render (lits (String "*" (String "*" s))) "") with ("\*\*" +:+ render (lits s) "").
      by rewrite replace_first_here.
    + assert (Hp : String.prefix "\*" (render (lits (String c2 s)) "") = false).
      { cbn [String.list_ascii_of_string map render]. pose proof (render_star (lits s)) as Hs. revert Hc2 Hs.
        generalize (render (lits s) ""). intros t Hc2 Hs. destruct t as [|d t];
        destruct c2 as [[] [] [] [] [] [] [] []]; try (by contradict Hc2); try done;
        revert Hs; simpl; by destruct (ascii_dec "*" d). }
      change (render (lits (String "*" (String c2 s))) "") with
        (String "\" (String "*" (render (lits (String c2 s)) ""))).
      replace (first_pair (String "*" (String c2 s))) with (Lit "*" :: first_pair (String c2 s))
        by (cbn [first_pair]; by rewrite (proj2 (Ascii.eqb_neq c2 "*") Hc2), andb_false_r).
      rewrite !replace_first_skip, IH; [done|by destruct (render _ _)|].
      revert Hp. generalize (render (lits (String c2 s)) ""). intros t Hp. simpl. simpl in Hp. by rewrite Hp.
  - replace (first_pair (String c1 s)) with (Lit c1 :: first_pair s)
      by (destruct s as [|c2 s]; [done|]; cbn [first_pair]; by rewrite (proj2 (Ascii.eqb_neq c1 "*") Hc)).
    cbn [String.list_ascii_of_string map render]. rewrite replace_past_char; [by rewrite IH|done|apply render_star].
Qed.

(** *** Reading the text back *)

Lemma tokens_char c rest : tokens 0 (escape_char c rest) = before (Lit c) (tokens 0 rest).
Proof. destruct c as [[] [] [] [] [] [] [] []]; reflexivity. Qed.

Lemma tokens_dots rest : tokens 0 (".*" +:+ rest) = before Dots (tokens 0 rest).
Proof. by destruct rest. Qed.

Lemma tokens_segment rest : tokens 0 ("[^:/.?&;]*" +:+ rest) = before Segment (tokens 0 rest).
Proof. by destruct rest. Qed.

Lemma tokens_render l rest : tokens 0 (render l rest) = option_map (app (map TItem l)) (tokens 0 rest).
Proof.
  induction l as [|[c| |] l IH]; cbn [render]; rewrite ?tokens_char, ?tokens_dots, ?tokens_segment, ?IH;
    by destruct (tokens 0 rest).
Qed.

Lemma render_app l a b : render l a +:+ b = render l (a +:+ b).
Proof.
  induction l as [|[c| |] l IH]; [done| | |]; cbn [render]; rewrite <- ?IH; [|done|done].
  unfold escape_char. by repeat case_match.
Qed.

Lemma alternatives_items start acc l :
  alternatives start acc (map TItem l ++ [TDollar]) = Some [Alternative start (rev acc ++ l) true].
Proof.
  revert acc. induction l as [|i l IH]; intros acc; simpl; [by rewrite app_nil_r|].
  rewrite IH. simpl. by rewrite <- app_assoc.
Qed.

Lemma adjust_string s :
  String.eqb s "self" = false -> has_substring "***" s = false ->
  exists source, adjustMatcher (PString s) = Ok (Expr source) /\ parse source = Some [Alternative true (made s) true].
Proof.
  intros H1 H2. eexists. cbn [adjustMatcher]. rewrite H1, H2. split; [reflexivity|].
  rewrite escape_render, replace_pair, replace_star, render_app. unfold parse.
  fold (made s).
  change (tokens 0 ("^" +:+ render (made s) ("" +:+ "$"))) with (option_map (cons TCaret) (tokens 0 (render (made s) "$"))).
  rewrite tokens_render. simpl. by rewrite alternatives_items.
Qed.

(** *** The language of a list of items *)

Lemma run_reads l k s : run l k s = true <-> exists r, reads l s r /\ k r = true.
Proof.
  assert (Hstar : forall i l, i = Dots \/ i = Segment ->
    (forall s, run l k s = true <-> exists r, reads l s r /\ k r = true) ->
    forall s, (fix star (s : string) : bool :=
       run l k s || match s with "" => false | String _ s' => takes i s && star s' end) s = true <->
      exists r, reads (i :: l) s r /\ k r = true).
  { clear s. intros i l' Hi IH. induction s as [|c s IHs].
    - rewrite orb_false_r, IH. split; intros (r & H & Hk); exists r; split; try done.
      + by apply reads_none.
      + by inversion H; subst.
    - rewrite orb_true_iff, andb_true_iff, IH, IHs. split.
      + intros [(r & H & Hk)|(Ht & r & H & Hk)]; exists r; split; try done; [by apply reads_none|by apply reads_one].
      + intros (r & H & Hk). inversion H; subst; [by destruct Hi|by left; eauto|by right; eauto]. }
  revert s. induction l as [|i l IH]; intros s.
  - simpl. split; [intros H; exists s; split; [constructor|done]|].
    intros (r & H & Hk). by inversion H; subst.
  - destruct i as [c| |]; cbn [run].
    + destruct s as [|d s]; [split; [done|intros (r & H & _)]|].
      * inversion H as [| |? ? ? ? [H1|H1]|]; discriminate.
      * rewrite andb_true_iff, Ascii.eqb_eq, IH. split.
        -- intros (-> & r & H & Hk). exists r. split; [by constructor|done].
        -- intros (r & H & Hk). inversion H as [|? ? ? ? H'|? ? ? ? [H1|H1]|]; subst; try done. by split; [|exists r].
    + by apply Hstar; [left|].
    + by apply Hstar; [right|].
Qed.

(** The whole input. *)
Definition recognises (l : list item) (s : string) : bool := run l (fun r => String.eqb r "") s.

Lemma recognises_reads l s : recognises l s = true <-> reads l s "".
Proof.
  unfold recognises. rewrite run_reads. split; [|by exists ""].
  intros (r & H & Hr). by apply String.eqb_eq in Hr as ->.
Qed.

Lemma recognises_lits p s : recognises (lits p) s = String.eqb s p.
Proof.
  unfold recognises. revert s. induction p as [|c p IH]; intros [|d s]; [done|done|done|].
  cbn [String.list_ascii_of_string map run String.eqb]. by rewrite IH, Ascii.eqb_sym.
Qed.

(** One list reads no more than another, on one line. *)
Inductive narrower : list item -> list item -> Prop :=
| narrower_nil : narrower [] []
| narrower_same i l l' : narrower l l' -> narrower (i :: l) (i :: l')
| narrower_star l l' : narrower l l' -> narrower (Lit "*" :: l) (Segment :: l')
| narrower_pair l l' : narrower l l' -> narrower (Lit "*" :: Lit "*" :: l) (Dots :: l')
| narrower_half l l' : narrower l l' -> narrower (Segment :: Lit "*" :: l) (Dots :: l').

Lemma reads_one_line l s r : reads l s r -> one_line s = true -> one_line r = true.
Proof.
  induction 1; simpl; try done; rewrite ?andb_true_iff; naive_solver.
Qed.

Lemma takes_dots c s : one_line (String c s) = true -> takes Dots (String c s) = true /\ one_line s = true.
Proof. cbn [one_line takes]. by rewrite andb_true_iff. Qed.

Lemma narrower_reads l l' : narrower l l' -> forall s r, one_line s = true -> reads l s r -> reads l' s r.
Proof.
  induction 1 as [|i l l' Hn IH|l l' Hn IH|l l' Hn IH|l l' Hn IH]; intros s r Hs Hr.
  - done.
  - remember (i :: l) as il eqn:E. induction Hr; try discriminate E; injection E as E1 E2; subst.
    + constructor. apply IH; [|done]. revert Hs. cbn [one_line]. by rewrite andb_true_iff; intros [].
    + by apply reads_none; [|apply IH].
    + apply reads_one; [done|]. apply IHHr; [|done]. revert Hs. cbn [one_line]. by rewrite andb_true_iff; intros [].
  - inversion Hr as [|? ? ? ? H|? ? ? ? [H1|H1]|]; subst; try done. apply takes_dots in Hs as [_ Hs].
    apply reads_one; [done|]. apply reads_none; [by right|]. by apply IH.
  - inversion Hr as [|? ? ? ? H|? ? ? ? [H1|H1]|]; subst; try done.
    inversion H as [|? ? ? ? H'|? ? ? ? [H1|H1]|]; subst; try done.
    apply takes_dots in Hs as [Ht Hs]. apply reads_one; [done|]. apply takes_dots in Hs as [Ht' Hs].
    apply reads_one; [done|]. apply reads_none; [by left|]. by apply IH.
  - remember (Segment :: Lit "*" :: l) as il eqn:E. induction Hr as [|? ? ? ? Hr|? ? ? ? ? Hr|]; try discriminate E; injection E as E1 E2; subst.
    + inversion Hr as [|? ? ? ? K|? ? ? ? [H1|H1]|]; subst; try done. apply takes_dots in Hs as [Ht Hs].
      apply reads_one; [done|]. apply reads_none; [by left|]. by apply IH.
    + apply takes_dots in Hs as [Ht Hs]. apply reads_one; [done|]. by apply IHHr.
Qed.

(** *** What the code makes and what is documented *)

Fixpoint count (i : item) (l : list item) : nat :=
  match l with
  | [] => 0
  | j :: l => (if bool_decide (i = j) then 1 else 0) + count i l
  end.

(** The strings by their first wildcard. *)
Inductive star_view : string -> Prop :=
| view_nil : star_view ""
| view_char c s : c <> "*"%char -> star_view s -> star_view (String c s)
| view_single s : (forall s', s <> String "*" s') -> star_view s -> star_view (String "*" s)
| view_pair s : star_view s -> star_view (String "*" s) -> star_view (String "*" (String "*" s)).

Lemma star_view_all s : star_view s.
Proof.
  remember (String.length s) as n eqn:Hn. revert s Hn.
  induction (lt_wf n) as [n _ IH]. intros s ->. destruct s as [|c s]; [constructor|].
  destruct (decide (c = "*"%char)) as [->|Hc]; [|apply view_char; [done|]; apply (IH (String.length s)); [simpl; lia|done]].
  destruct s as [|d s]; [apply view_single; [done|constructor]|].
  destruct (decide (d = "*"%char)) as [->|Hd].
  - apply view_pair; eapply IH; try reflexivity; simpl; lia.
  - apply view_single; [congruence|]. eapply IH; try reflexivity; simpl; lia.
Qed.

Lemma documented_char c s : c <> "*"%char -> documented (String c s) = Lit c :: documented s.
Proof. intros Hc. cbn [documented]. by rewrite (proj2 (Ascii.eqb_neq c "*") Hc). Qed.

Lemma documented_single s : (forall s', s <> String "*" s') -> documented (String "*" s) = Segment :: documented s.
Proof.
  intros Hs. destruct s as [|d s]; [done|]. assert (Hd : d <> "*"%char) by (intros ->; by apply (Hs s)).
  cbn [documented]. by rewrite (proj2 (Ascii.eqb_neq d "*") Hd).
Qed.

Lemma first_pair_char c s : c <> "*"%char -> first_pair (String c s) = Lit c :: first_pair s.
Proof. intros Hc. destruct s as [|d s]; [done|]. cbn [first_pair]. by rewrite (proj2 (Ascii.eqb_neq c "*") Hc). Qed.

Lemma first_pair_single s : (forall s', s <> String "*" s') -> first_pair (String "*" s) = Lit "*" :: first_pair s.
Proof.
  intros Hs. destruct s as [|d s]; [done|]. assert (Hd : d <> "*"%char) by (intros ->; by apply (Hs s)).
  cbn [first_pair]. by rewrite (proj2 (Ascii.eqb_neq d "*") Hd), andb_false_r.
Qed.

Lemma first_star_char c l : c <> "*"%char -> first_star (Lit c :: l) = Lit c :: first_star l.
Proof. intros Hc. cbn [first_star]. by rewrite bool_decide_false by congruence. Qed.

Lemma made_narrower s :
  narrower (lits s) (documented s) /\ narrower (first_star (lits s)) (documented s) /\
  narrower (first_pair s) (documented s) /\ narrower (made s) (documented s).
Proof.
  unfold made. induction (star_view_all s) as [|c s Hc _ IH|s Hs _ IH|s _ IH _ _].
  - repeat split; constructor.
  - destruct IH as (HA & HB & HC & HD). rewrite documented_char, first_pair_char by done.
    cbn [String.list_ascii_of_string map]. rewrite !first_star_char by done. repeat split; by apply narrower_same.
  - destruct IH as (HA & HB & HC & HD). rewrite documented_single, first_pair_single by done.
    repeat split; [by apply narrower_star|by apply narrower_same|by apply narrower_star|by apply narrower_same].
  - destruct IH as (HA & HB & HC & HD).
    repeat split; [by apply narrower_pair|by apply narrower_half|by apply narrower_same|by apply narrower_same].
Qed.

(** With one wildcard of each kind at most, the two agree. *)
Lemma made_documented s :
  let n := count Dots (documented s) in let m := count Segment (documented s) in
  ((n <= 0)%nat -> (m <= 0)%nat -> lits s = documented s) /\
  ((n <= 0)%nat -> (m <= 1)%nat -> first_star (lits s) = documented s) /\
  ((n <= 1)%nat -> (m <= 0)%nat -> first_pair s = documented s) /\
  ((n <= 1)%nat -> (m <= 1)%nat -> made s = documented s).
Proof.
  unfold made. cbv zeta. induction (star_view_all s) as [|c s Hc _ IH|s Hs _ IH|s _ IH _ _].
  - done.
  - destruct IH as (HA & HB & HC & HD). rewrite documented_char, first_pair_char by done.
    cbn [String.list_ascii_of_string map count]. rewrite !first_star_char by done.
    simpl. repeat split; intros; f_equal; auto.
  - destruct IH as (HA & HB & HC & HD). rewrite documented_single, first_pair_single by done.
    cbn [String.list_ascii_of_string map count]. simpl. repeat split; intros; try lia; f_equal; [apply HA|apply HC]; lia.
  - destruct IH as (HA & HB & HC & HD). change (documented (String "*" (String "*" s))) with (Dots :: documented s).
    cbn [count]. simpl. repeat split; intros; try lia; f_equal; [apply HA|apply HB]; lia.
Qed.

Lemma exec_string engine s source url :
  adjustMatcher (PString s) = Ok (Expr source) -> exec engine source url = recognises (made s) url.
Proof.
  intros H. pose proof H as H'. cbn [adjustMatcher] in H'.
  destruct (String.eqb s "self") eqn:Hs; [done|]. destruct (has_substring "***" s) eqn:Hw; [done|].
  destruct (adjust_string s Hs Hw) as (src & E & Hp). rewrite E in H. injection H as <-.
  unfold exec. rewrite Hp. simpl. rewrite orb_false_r. reflexivity.
Qed.

Lemma contains_first_star s : contains_char "*" s = false -> documented s = lits s /\ made s = lits s.
Proof.
  intros H. assert (E : documented s = lits s).
  { induction s as [|c s IH]; [done|]. cbn [contains_char] in H. apply orb_false_iff in H as [Hc H].
    apply Ascii.eqb_neq in Hc. rewrite documented_char by done. cbn. by rewrite IH. }
  split; [done|]. destruct (made_documented s) as (_ & _ & _ & HD). rewrite <- E. apply HD; rewrite E; clear; induction s; simpl; lia.
Qed.

(** A pattern given as a string becomes a regular expression that accepts a
    URL exactly when the pattern does, with every other character standing for
    itself whatever it means to the engine: the pattern's first pair of stars is any
    characters and the first star left is any characters but [:/.?&;], the other
    stars being themselves.  So a pattern with no star accepts itself only, one
    with at most one wildcard of each kind means what is documented, and no
    pattern accepts a one-line URL its documentation does not.  Three stars in a row
    are refused. *)
Theorem string_matcher_exact engine (s : string) (Hself : s <> "self") :
  (has_substring "***" s = true -> adjustMatcher (PString s) = Err (Iwcard s)) /\
  (has_substring "***" s = false -> exists source, adjustMatcher (PString s) = Ok (Expr source) /\
    (forall url, exec engine source url = true <-> reads (made s) url "") /\
    (contains_char "*" s = false -> forall url, exec engine source url = true <-> url = s) /\
    ((count Dots (documented s) <= 1)%nat -> (count Segment (documented s) <= 1)%nat ->
      forall url, exec engine source url = true <-> reads (documented s) url "") /\
    (forall url, one_line url = true -> exec engine source url = true -> reads (documented s) url "")).
Proof.
  apply String.eqb_neq in Hself. split; [intros H; cbn [adjustMatcher]; by rewrite Hself, H|].
  intros H. destruct (adjust_string s Hself H) as (source & E & _). exists source. split; [done|].
  assert (Hx : forall url, exec engine source url = recognises (made s) url) by (intros url; by apply exec_string).
  repeat split; setoid_rewrite Hx.
  - apply recognises_reads.
  - apply recognises_reads.
  - rewrite (proj2 (contains_first_star s H0)), recognises_lits. apply String.eqb_eq.
  - rewrite (proj2 (contains_first_star s H0)), recognises_lits. apply String.eqb_eq.
  - intros H2. rewrite <- (proj2 (proj2 (proj2 (made_documented s))) H0 H1). by apply recognises_reads.
  - intros H2. apply recognises_reads. by rewrite (proj2 (proj2 (proj2 (made_documented s))) H0 H1).
  - intros url Hl Hr. apply recognises_reads in Hr. by apply (narrower_reads (made s)); [apply made_narrower| |].
Qed.

Lemma string_matcher_exact_witness :
  exists source, adjustMatcher (PString "http://srv*.x.com/**") = Ok (Expr source) /\
    (exec (fun _ _ => false) source "http://srv1.x.com/a/b" = true /\
     exec (fun _ _ => false) source "http://srv.evil.x.com/a" = false) /\
    (exec (fun _ _ => false) source "http://srv1.x.com/a/b" = true ->
      reads (documented "http://srv*.x.com/**") "http://srv1.x.com/a/b" "").
Proof.
  assert (Hs : "http://srv*.x.com/**" <> "self") by discriminate.
  destruct (string_matcher_exact (fun _ _ => false) _ Hs) as [_ H].
  destruct (H eq_refl) as (source & E & _ & _ & _ & Hn). exists source. split; [exact E|]. split.
  - vm_compute in E. injection E as <-. split; vm_compute; reflexivity.
  - apply Hn. reflexivity.
Defined.

(** The second pair of stars is not a wildcard: a forbidden pattern with two
    misses what its documentation names. *)
Example second_pair_is_literal :
  exists source, adjustMatcher (PString "http://**.evil.com/**") = Ok (Expr source) /\
    exec (fun _ _ => false) source "http://www.evil.com/a/b" = false /\
    recognises (documented "http://**.evil.com/**") "http://www.evil.com/a/b" = true.
Proof. eexists. split; [reflexivity|]. split; vm_compute; reflexivity. Qed.

(** The assertions put around a regular expression's text bind closer than its
    alternatives: each is half anchored. *)
Example alternatives_half_anchored :
  exists source, adjustMatcher (PRegExp "http:\/\/a\.com\/.*|http:\/\/b\.com\/" "") = Ok (Expr source) /\
    exec (fun _ _ => false) source "http://evil.org/?http://b.com/" = true.
Proof. eexists. split; [reflexivity|]. vm_compute; reflexivity. Qed.

End Patterns.

(** ** Values and the policy *)

Module Sce.
Import Patterns.

(** angular.js 13271-13279; the type names are the values. *)
Inductive context := HTML | CSS | URL | RESOURCE_URL | JS.

#[global] Instance context_eq_dec : EqDecision context.
Proof. solve_decision. Defined.

Definition type_name (c : context) : string :=
  match c with
  | HTML => "html"
  | CSS => "css"
  | URL => "url"
  | RESOURCE_URL => "resourceUrl"
  | JS => "js"
  end.

(** [SCE_CONTEXTS], in order. *)
Definition SCE_CONTEXTS : list (string * context) :=
  [("HTML", HTML); ("CSS", CSS); ("URL", URL); ("RESOURCE_URL", RESOURCE_URL); ("JS", JS)].

(** The constructors: the base, and those of [byType]. *)
Inductive constructor := Base | Of (c : context).

#[global] Instance constructor_eq_dec : EqDecision constructor.
Proof. solve_decision. Defined.

(** angular.js 13510-13535: what each constructor's prototype is an instance
    of. *)
Definition generateHolderType (k : constructor) : option constructor :=
  match k with
  | Base => None
  | Of RESOURCE_URL => Some (Of URL)
  | Of _ => Some Base
  end.

(** A value: of the page, or an object [new Constructor(s)]. *)
Inductive sval := Plain (v : jsval) | Holder (c : context) (s : string).

#[global] Instance sval_eq_dec : EqDecision sval.
Proof. solve_decision. Defined.

(** [new k instanceof k']: along the prototypes, of which there are three. *)
Fixpoint along (fuel : nat) (k k' : constructor) : bool :=
  bool_decide (k = k') ||
  match fuel, generateHolderType k with
  | S fuel, Some p => along fuel p k'
  | _, _ => false
  end.

Definition instanceof (v : sval) (k : constructor) : bool :=
  match v with Holder c _ => along 2 (Of c) k | Plain _ => false end.

(** [byType.hasOwnProperty(type) ? byType[type] : null]. *)
Definition byType (type : string) : option context :=
  snd <$> list_find (fun c => type_name c = type) [HTML; CSS; URL; JS; RESOURCE_URL].

(** [v === null || v === undefined || v === '']. *)
Definition is_nothing (v : sval) : bool :=
  match v with
  | Plain JNull | Plain JUndef => true
  | Plain (JStr s) => String.eqb s ""
  | _ => false
  end.

Inductive sce_error := Icontext (type : string) (v : sval) | Itype (type : string) | Insecurl (url : string) | Unsafe | Iequirks.

(** angular.js 13554-13572 *)
Definition trustAs (type : string) (v : sval) : result sce_error sval :=
  match byType type with
  | None => Err (Icontext type v)
  | Some c =>
      if is_nothing v then Ok v
      else match v with
           | Plain (JStr s) => Ok (Holder c s)
           | _ => Err (Itype type)
           end
  end.

(** angular.js 13592-13598 *)
Definition valueOf (v : sval) : sval :=
  match v with
  | Holder _ s => if instanceof v Base then Plain (JStr s) else v
  | Plain _ => v
  end.

Section Delegate.
(** The anchor element of the page: its parts and its [href] once a URL is set;
    the parts of the page's own URL; how an object prints; what the engine does
    with a regular expression [Patterns] does not read. *)
Context (urlParsingNode : string -> Location.anchor) (node_href : string -> string) (msie : bool).
Context (originUrl : Location.parsed) (obj_str : nat -> string) (engine : string -> string -> bool).

(** [v.toString()]. *)
Definition toString (v : sval) : string :=
  match v with Plain v => prim_str obj_str v | Holder _ s => s end.

(** [urlResolve(url)], with its [href]. *)
Definition resolved (url : string) : Location.parsed * string :=
  (Location.urlResolve urlParsingNode node_href msie url, node_href (if msie then node_href url else url)).

(** angular.js 13479-13486 *)
Definition matchUrl (m : matcher) (parsedUrl : Location.parsed * string) : bool :=
  match m with
  | Self => Location.urlIsSameOrigin urlParsingNode node_href msie originUrl (inr parsedUrl.1)
  | Expr source => exec engine source parsedUrl.2
  end.

(** The provider's two lists. *)
Record policy := Policy { resourceUrlWhitelist : list matcher; resourceUrlBlacklist : list matcher }.

(** angular.js 13402-13403 *)
Definition default_policy : policy := Policy [Self] [].

(** angular.js 13427-13432: a pattern that is refused leaves the list. *)
Definition set_whitelist (value : list pattern) (p : policy) : result failure unit * policy :=
  match adjustMatchers value with
  | Ok l => (Ok tt, Policy l (resourceUrlBlacklist p))
  | Err e => (Err e, p)
  end.

(** angular.js 13461-13466 *)
Definition set_blacklist (value : list pattern) (p : policy) : result failure unit * policy :=
  match adjustMatchers value with
  | Ok l => (Ok tt, Policy (resourceUrlWhitelist p) l)
  | Err e => (Err e, p)
  end.

(** The loops of angular.js 13492-13505: they stop at the first that matches. *)
Fixpoint one_matches (l : list matcher) (parsedUrl : Location.parsed * string) : bool :=
  match l with
  | [] => false
  | m :: l => if matchUrl m parsedUrl then true else one_matches l parsedUrl
  end.

(** angular.js 13488-13508 *)
Definition isResourceUrlAllowedByPolicy (p : policy) (url : sval) : bool :=
  let parsedUrl := resolved (toString url) in
  let allowed := one_matches (resourceUrlWhitelist p) parsedUrl in
  if allowed then
    if one_matches (resourceUrlBlacklist p) parsedUrl then false else allowed
  else allowed.

(** angular.js 13615-13638; [$sanitize] is of another module and may be
    missing. *)
Definition getTrusted (p : policy) (sanitize : option (sval -> result sce_error sval)) (type : string) (v : sval)
    : result sce_error sval :=
  if is_nothing v then Ok v
  else
    let unwrapped := match byType type, v with
                     | Some c, Holder _ s => if instanceof v (Of c) then Some s else None
                     | _, _ => None
                     end in
    match unwrapped with
    | Some s => Ok (Plain (JStr s))
    | None =>
        if String.eqb type "resourceUrl" then
          if isResourceUrlAllowedByPolicy p v then Ok v else Err (Insecurl (toString v))
        else if String.eqb type "html" then
          match sanitize with Some f => f v | None => Err Unsafe end
        else Err Unsafe
    end.

(** *** [$sce] *)

(** angular.js 13942-13947 *)
Definition set_enabled (value : jsval) : bool := truthy value.

(** angular.js 14000-14005: [$get] refuses a document mode below 8. *)
Definition sce_get (enabled : bool) (documentMode : option Z) : result sce_error bool :=
  match documentMode with
  | Some m => if enabled && (m <? 8) then Err Iequirks else Ok enabled
  | None => Ok enabled
  end.

(** angular.js 14023-14030 *)
Definition sce_trustAs (enabled : bool) (type : string) (v : sval) : result sce_error sval :=
  if enabled then trustAs type v else Ok v.

Definition sce_getTrusted (enabled : bool) (p : policy) (sanitize : option (sval -> result sce_error sval))
    (type : string) (v : sval) : result sce_error sval :=
  if enabled then getTrusted p sanitize type v else Ok v.

Definition sce_valueOf (enabled : bool) (v : sval) : sval := if enabled then valueOf v else v.

(** What [$parse] answers: its marks, and the evaluation, which changes the
    scope and may throw. *)
Record parsed_expr (St : Type) := ParsedExpr {
  pe_literal : bool;
  pe_constant : bool;
  pe_eval : St -> result sce_error sval * St
}.
Arguments pe_literal {St}. Arguments pe_constant {St}. Arguments pe_eval {St}.

(** angular.js 14051-14060 *)
Definition parseAs {St} (enabled : bool) (p : policy) (sanitize : option (sval -> result sce_error sval))
    (type : string) (parsed : parsed_expr St) (s : St) : result sce_error sval * St :=
  if pe_literal parsed && pe_constant parsed then pe_eval parsed s
  else match pe_eval parsed s with
       | (Ok v, s) => (sce_getTrusted enabled p sanitize type v, s)
       | (Err e, s) => (Err e, s)
       end.

End Delegate.

(** angular.js 14309-14320: the methods made for each context. *)
Definition method_names : list (string * context) :=
  flat_map (fun '(name, c) =>
    let lName := lowercase name in
    [(Names.camelCase ("parse_as_" +:+ lName), c);
     (Names.camelCase ("get_trusted_" +:+ lName), c);
     (Names.camelCase ("trust_as_" +:+ lName), c)]) SCE_CONTEXTS.

Example method_names_are :
  map fst method_names =
  ["parseAsHtml"; "getTrustedHtml"; "trustAsHtml"; "parseAsCss"; "getTrustedCss"; "trustAsCss";
   "parseAsUrl"; "getTrustedUrl"; "trustAsUrl";
   "parseAsResourceUrl"; "getTrustedResourceUrl"; "trustAsResourceUrl"; "parseAsJs"; "getTrustedJs"; "trustAsJs"].
Proof. reflexivity. Qed.

(** *** What is trusted *)

Lemma byType_name type c : byType type = Some c <-> type = type_name c.
Proof.
  unfold byType. split.
  - intros H. apply fmap_Some in H as ([j c'] & H & ->). by apply list_find_Some in H as (_ & <- & _).
  - intros ->. by destruct c.
Qed.

(** The contexts a value trusted in one is trusted in. *)
Definition serves (c c' : context) : Prop := c = c' \/ c = RESOURCE_URL /\ c' = URL.

Lemma instanceof_serves c s c' : instanceof (Holder c s) (Of c') = true <-> serves c c'.
Proof.
  unfold serves. destruct c, c'; (split; [intros H; try discriminate H; by auto|]); by intros [H|[H1 H2]].
Qed.

Lemma trustAs_holder type v c s :
  trustAs type v = Ok (Holder c s) <->
  (type = type_name c /\ v = Plain (JStr s) /\ s <> "") .
Proof.
  unfold trustAs. split.
  - destruct (byType type) as [c'|] eqn:Hc; [|done]. apply byType_name in Hc as ->.
    destruct v as [v|c2 s2]; [|done]. destruct (is_nothing (Plain v)) eqn:Hn; [done|].
    destruct v; try done. intros [= -> ->]. repeat split; try done. intros ->. discriminate Hn.
  - intros (-> & -> & Hs). rewrite (proj2 (byType_name (type_name c) c) eq_refl). cbn [is_nothing].
    apply String.eqb_neq in Hs. by rewrite Hs.
Qed.

Section Facts.
Context (urlParsingNode : string -> Location.anchor) (node_href : string -> string) (msie : bool).
Context (originUrl : Location.parsed) (obj_str : nat -> string) (engine : string -> string -> bool).

Abbreviation resolved := (resolved urlParsingNode node_href msie).
Abbreviation matchUrl := (matchUrl urlParsingNode node_href msie originUrl engine).
Abbreviation one_matches := (one_matches urlParsingNode node_href msie originUrl engine).
Abbreviation allowed := (isResourceUrlAllowedByPolicy urlParsingNode node_href msie originUrl obj_str engine).
Abbreviation getTrusted := (getTrusted urlParsingNode node_href msie originUrl obj_str engine).
Abbreviation toString := (toString obj_str).

Lemma one_matches_exists l u : one_matches l u = existsb (fun m => matchUrl m u) l.
Proof. induction l as [|m l IH]; [done|]. cbn [NgSce.Sce.one_matches existsb]. rewrite IH. by destruct (matchUrl m u). Qed.

Lemma allowed_spec p v :
  allowed p v = existsb (fun m => matchUrl m (resolved (toString v))) (resourceUrlWhitelist p) &&
                negb (existsb (fun m => matchUrl m (resolved (toString v))) (resourceUrlBlacklist p)).
Proof.
  unfold isResourceUrlAllowedByPolicy. rewrite !one_matches_exists. by repeat destruct (existsb _ _).
Qed.

(** What a configured pattern says of a URL. *)
Definition accepts (pat : pattern) (u : Location.parsed * string) : bool :=
  match pat with
  | PString s =>
      if String.eqb s "self" then Location.urlIsSameOrigin urlParsingNode node_href msie originUrl (inr u.1)
      else recognises (made s) u.2
  | PRegExp source _ => exec engine ("^" +:+ source +:+ "$") u.2
  | POther => false
  end.

Lemma accepts_adjusted pat m u : adjustMatcher pat = Ok m -> matchUrl m u = accepts pat u.
Proof.
  destruct pat as [s|source flags|]; intros H; [|by injection H as <-|done].
  destruct m as [|source].
  - cbn [adjustMatcher] in H. cbn [accepts]. destruct (String.eqb s "self"); [done|]. by destruct (has_substring "***" s).
  - cbn [accepts matchUrl]. cbn [NgSce.Sce.matchUrl]. rewrite (exec_string engine s source u.2 H).
    cbn [adjustMatcher] in H. by destruct (String.eqb s "self").
Qed.

Lemma adjustMatchers_forall pats ms : adjustMatchers pats = Ok ms -> Forall2 (fun p m => adjustMatcher p = Ok m) pats ms.
Proof.
  revert ms. induction pats as [|p pats IH]; intros ms H; cbn in H; [by injection H as <-|].
  apply result_bind_ok in H as (m & Hm & H). apply result_bind_ok in H as (ms' & Hms & H).
  injection H as <-. constructor; auto.
Qed.

Lemma accepts_adjusted_all pats ms u :
  adjustMatchers pats = Ok ms -> existsb (fun m => matchUrl m u) ms = existsb (fun p => accepts p u) pats.
Proof.
  intros H. apply adjustMatchers_forall in H. induction H as [|p m pats ms Hp H IH]; [done|].
  cbn [existsb]. by rewrite IH, (accepts_adjusted p m u Hp).
Qed.

(** C24: once the two lists are configured, a resource may come from a URL exactly
    when a pattern of the first accepts it and none of the second does: the
    second wins.  A list with a pattern that is refused is not installed at all, and with
    the lists of the start the URLs of the page's own origin, and no other, are
    allowed. *)
Theorem resource_urls_exact whites blacks p1 p2 p3 (v : sval) r1 r2
    (H1 : set_whitelist whites p1 = (r1, p2)) (H2 : set_blacklist blacks p2 = (r2, p3)) :
  (r1 = Ok tt -> r2 = Ok tt ->
    (allowed p3 v = true <->
     (exists p, p ∈ whites /\ accepts p (resolved (toString v)) = true) /\
     (forall p, p ∈ blacks -> accepts p (resolved (toString v)) = false))) /\
  (forall e, r1 = Err e -> p2 = p1) /\ (forall e, r2 = Err e -> p3 = p2) /\
  allowed default_policy v =
    Location.urlIsSameOrigin urlParsingNode node_href msie originUrl (inr (resolved (toString v)).1).
Proof.
  unfold set_whitelist in H1. unfold set_blacklist in H2. repeat split.
  4, 5: intros e ->; by repeat case_match; simplify_eq.
  4: rewrite allowed_spec; cbn [resourceUrlWhitelist resourceUrlBlacklist default_policy existsb]; by rewrite orb_false_r, andb_true_r.
  all: destruct (adjustMatchers whites) as [ws|] eqn:Hw; [|by simplify_eq]; destruct (adjustMatchers blacks) as [bs|] eqn:Hb; [|by simplify_eq];
    simplify_eq; rewrite allowed_spec in *; cbn [resourceUrlWhitelist resourceUrlBlacklist] in *;
    rewrite (accepts_adjusted_all _ _ _ Hw), (accepts_adjusted_all _ _ _ Hb) in *.
  - apply andb_true_iff in H3 as [H3 _]. apply existsb_exists in H3 as (p & Hp & Ha). exists p. by rewrite list_elem_of_In.
  - apply andb_true_iff in H3 as [_ H3]. intros p Hp. apply negb_true_iff in H3. apply list_elem_of_In in Hp.
    destruct (accepts p _) eqn:Ha; [|done]. rewrite <- H3. symmetry. apply existsb_exists. eauto.
  - intros [(p & Hp & Ha) Hf]. apply andb_true_iff. split.
    + apply existsb_exists. exists p. by rewrite <- list_elem_of_In.
    + apply negb_true_iff. destruct (existsb _ blacks) eqn:E; [|done]. apply existsb_exists in E as (q & Hq & Hqa).
      apply list_elem_of_In in Hq. by rewrite (Hf q Hq) in Hqa.
Qed.

(** C25: nothing reaches a context but what was trusted for it.  Asked for a value
    of a context, the delegate answers: the empty values as they are; the string
    itself of a value trusted in that context, or of one trusted as a resource's URL
    when a URL is asked; for a resource, a URL the policy allows; for HTML, what
    the sanitizer makes of it; and it throws otherwise.  Only [trustAs] makes a
    trusted value, of a non-empty string, for the context it was asked, and what it
    made is got back. *)
Theorem trusted_values p sanitize type (v : sval) :
  (forall w, getTrusted p sanitize type v = Ok w <->
    (is_nothing v = true /\ w = v) \/
    (exists c c' s, v = Holder c s /\ type = type_name c' /\ serves c c' /\ w = Plain (JStr s)) \/
    (is_nothing v = false /\ type = "resourceUrl" /\ (forall s, v <> Holder RESOURCE_URL s) /\ allowed p v = true /\ w = v) \/
    (is_nothing v = false /\ type = "html" /\ (forall s, v <> Holder HTML s) /\
      exists f, sanitize = Some f /\ f v = Ok w)) /\
  (forall c s, trustAs type v = Ok (Holder c s) <-> type = type_name c /\ v = Plain (JStr s) /\ s <> "") /\
  (forall c s, trustAs type v = Ok (Holder c s) -> getTrusted p sanitize type (Holder c s) = Ok v).
Proof.
  split; [|split; [intros c s; apply trustAs_holder|]].
  - intros w. unfold NgSce.Sce.getTrusted. destruct (is_nothing v) eqn:Hn.
    { split; [intros [= <-]; by left|]. intros [[_ ->]|[(c & c' & s & -> & _)|[(? & _)|(? & _)]]]; done. }
    assert (Hun : forall s, (match byType type, v with
        | Some c, Holder _ s => if instanceof v (Of c) then Some s else None | _, _ => None end) = Some s <->
        exists c c', v = Holder c s /\ type = type_name c' /\ serves c c').
    { intros s. split.
      - destruct (byType type) as [c'|] eqn:Hc; [|done]. destruct v as [|c s']; [done|].
        destruct (instanceof _ _) eqn:Hi; [|done]. intros [= ->]. exists c, c'.
        repeat split; [by apply byType_name|by apply (instanceof_serves c s)].
      - intros (c & c' & -> & -> & Hs). rewrite (proj2 (byType_name (type_name c') c') eq_refl).
        by rewrite (proj2 (instanceof_serves c s c') Hs). }
    destruct (match byType type, v with
        | Some c, Holder _ s => if instanceof v (Of c) then Some s else None | _, _ => None end) as [s|] eqn:E.
    + destruct (proj1 (Hun s) eq_refl) as (c & c' & -> & -> & Hs). split.
      * intros [= <-]. right; left. by exists c, c', s.
      * intros [[? _]|[(? & ? & ? & [= <- <-] & _ & _ & ->)|[(_ & Ht & Hne & _)|(_ & Ht & Hne & _)]]]; try done;
          destruct c', c; try discriminate Ht; try (destruct Hs as [Hs|[Hs1 Hs2]]; discriminate);
          by destruct (Hne s).
    + split.
      * destruct (String.eqb type "resourceUrl") eqn:Hr; [|destruct (String.eqb type "html") eqn:Hh; [|done]].
        -- apply String.eqb_eq in Hr as ->. destruct (allowed p v) eqn:Ha; [|done]. intros [= <-].
           right; right; left. repeat split; try done. intros s ->. discriminate E.
        -- apply String.eqb_eq in Hh as ->. destruct sanitize as [f|]; [|done]. intros Hf.
           right; right; right. repeat split; try done; [intros s ->; discriminate E|by exists f].
      * intros [[? _]|[(c & c' & s & Hv & Ht & Hs & ->)|[(_ & -> & Hne & -> & ->)|(_ & -> & Hne & f & -> & Hf)]]]; try done.
        discriminate (proj2 (Hun s)); by exists c, c'.
  - intros c s H. apply trustAs_holder in H as (-> & -> & Hs). unfold NgSce.Sce.getTrusted. cbn [is_nothing].
    rewrite (proj2 (byType_name (type_name c) c) eq_refl), (proj2 (instanceof_serves c s c)); [done|by left].
Qed.

End Facts.

(** A page of [a.com], and what an anchor of it says of a URL. *)
Definition demo_anchor (url : string) : Location.anchor :=
  if String.prefix "http://a.com" url then Location.Anchor "http:" "a.com" "a.com" "" "/" "" ""
  else Location.Anchor "http:" "b.com" "b.com" "" "/" "" "".

Definition demo_origin : Location.parsed := Location.urlResolve demo_anchor (fun s => s) false "http://a.com/".

Lemma resource_urls_exact_witness :
  let p := (set_blacklist [PString "http://a.com/click**"] (set_whitelist [PString "self"; PString "http://b.com/*"] default_policy).2).2 in
  let ok := isResourceUrlAllowedByPolicy demo_anchor (fun s => s) false demo_origin (fun _ => "") (fun _ _ => false) p in
  (ok (Plain (JStr "http://a.com/x")) = true /\ ok (Plain (JStr "http://b.com/x")) = true /\
   ok (Plain (JStr "http://b.com/x/y")) = false /\ ok (Plain (JStr "http://a.com/click?u=x")) = false) /\
  (ok (Plain (JStr "http://a.com/x")) = true <->
   (exists q, q ∈ [PString "self"; PString "http://b.com/*"] /\
      accepts demo_anchor (fun s => s) false demo_origin (fun _ _ => false) q
        (resolved demo_anchor (fun s => s) false "http://a.com/x") = true) /\
   (forall q, q ∈ [PString "http://a.com/click**"] ->
      accepts demo_anchor (fun s => s) false demo_origin (fun _ _ => false) q
        (resolved demo_anchor (fun s => s) false "http://a.com/x") = false)).
Proof.
  intros p ok. split; [repeat split; vm_compute; reflexivity|].
  apply (resource_urls_exact demo_anchor (fun s => s) false demo_origin (fun _ => "") (fun _ _ => false)
    [PString "self"; PString "http://b.com/*"] [PString "http://a.com/click**"] default_policy
    (set_whitelist [PString "self"; PString "http://b.com/*"] default_policy).2 p
    (Plain (JStr "http://a.com/x")) (Ok tt) (Ok tt)); vm_compute; reflexivity.
Defined.

Lemma trusted_values_witness :
  let get := getTrusted demo_anchor (fun s => s) false demo_origin (fun _ => "") (fun _ _ => false) default_policy None in
  trustAs "resourceUrl" (Plain (JStr "http://b.com/t.html")) = Ok (Holder RESOURCE_URL "http://b.com/t.html") /\
  get "resourceUrl" (Holder RESOURCE_URL "http://b.com/t.html") = Ok (Plain (JStr "http://b.com/t.html")) /\
  get "resourceUrl" (Plain (JStr "http://b.com/t.html")) = Err (Insecurl "http://b.com/t.html") /\
  get "js" (Holder RESOURCE_URL "http://b.com/t.html") = Err Unsafe.
Proof.
  intros get. split; [vm_compute; reflexivity|]. split.
  - apply (proj2 (proj2 (trusted_values demo_anchor (fun s => s) false demo_origin (fun _ => "") (fun _ _ => false) default_policy None
      "resourceUrl" (Plain (JStr "http://b.com/t.html"))))). vm_compute. reflexivity.
  - split; vm_compute; reflexivity.
Defined.

End Sce.

(** ** Links and images *)

Module Sanitize.

(** A whitelist is the test of its regular expression. *)
Record whitelists := Whitelists { aHref : string -> bool; imgSrc : string -> bool }.

Definition one_of (words : list string) (s : string) : bool := existsb (fun w => String.prefix w s) words.

(** angular.js 13201-13202 *)
Definition default_whitelists : whitelists := Whitelists
  (fun s => one_of ["http:"; "https:"; "ftp:"; "mailto:"; "tel:"; "file:"] (trim_start s))
  (fun s => one_of ["http:"; "https:"; "ftp:"; "file:"; "data:image/"] (trim_start s)).

(** angular.js 13220-13226 and 13245-13251 *)
Definition aHrefSanitizationWhitelist (regexp : option (string -> bool)) (w : whitelists) : whitelists :=
  match regexp with Some r => Whitelists r (imgSrc w) | None => w end.
Definition imgSrcSanitizationWhitelist (regexp : option (string -> bool)) (w : whitelists) : whitelists :=
  match regexp with Some r => Whitelists (aHref w) r | None => w end.

Section Uri.
Context (node_href : string -> string) (msie : option Z).

(** angular.js 13254-13265 *)
Definition sanitizeUri (w : whitelists) (uri : string) (isImage : bool) : string :=
  let regex := if isImage then imgSrc w else aHref w in
  if match msie with None => true | Some v => 8 <=? v end then
    let normalizedVal := node_href (match msie with None => uri | Some _ => node_href uri end) in
    if negb (String.eqb normalizedVal "") && negb (regex normalizedVal) then "unsafe:" +:+ normalizedVal else uri
  else uri.

End Uri.
Lemma prefix_trans a b : String.prefix a b = true -> exists c, b = a +:+ c.
Proof.
  revert b. induction a as [|x a IH]; intros b; [by exists b|]. destruct b as [|y b]; [done|]. cbn [String.prefix].
  destruct (ascii_dec x y) as [->|]; [|done]. intros H. apply IH in H as [c ->]. by exists c.
Qed.

(** A URL bound to a link or an image is given back as it is or marked: it is
    given back exactly when the browser reads nothing in it or reads a URL that
    the list accepts, and is replaced otherwise by what the browser reads, after
    [unsafe:].  With the lists of the start a URL the browser reads as a script's, or
    as data that is no image, is marked, blanks in front or not. *)
Theorem links_are_safe (node_href : string -> string) (msie : option Z) (w : whitelists) (uri : string) (isImage : bool)
    (Hmsie : forall v, msie = Some v -> 8 <= v) :
  let href := node_href (match msie with None => uri | Some _ => node_href uri end) in
  let listed := (if isImage then imgSrc w else aHref w) href in
  (sanitizeUri node_href msie w uri isImage = if String.eqb href "" || listed then uri else "unsafe:" +:+ href) /\
  (w = default_whitelists -> String.prefix "javascript:" (trim_start href) = true \/
      String.prefix "data:text/" (trim_start href) = true ->
    sanitizeUri node_href msie w uri isImage = "unsafe:" +:+ href).
Proof.
  intros href listed.
  assert (Hv : match msie with None => true | Some v => 8 <=? v end = true).
  { destruct msie as [v|]; [apply Z.leb_le; by apply Hmsie|done]. }
  assert (E : sanitizeUri node_href msie w uri isImage = if String.eqb href "" || listed then uri else "unsafe:" +:+ href).
  { unfold sanitizeUri. rewrite Hv. fold href. fold listed. by destruct (String.eqb href ""), listed. }
  split; [exact E|]. intros -> Hbad. rewrite E.
  assert (Hne : String.eqb href "" = false).
  { apply String.eqb_neq. intros ->. by destruct Hbad. }
  assert (Hl : listed = false).
  { unfold listed. destruct Hbad as [H|H]; apply prefix_trans in H as [c H];
      destruct isImage; cbn; rewrite H; reflexivity. }
  by rewrite Hne, Hl.
Qed.

Lemma links_are_safe_witness :
  sanitizeUri (fun s => s) None default_whitelists " javascript:alert(1)" false = "unsafe: javascript:alert(1)" /\
  sanitizeUri (fun s => s) None default_whitelists "http://a.com/" false = "http://a.com/".
Proof.
  split.
  - refine (proj2 (links_are_safe (fun s => s) None default_whitelists " javascript:alert(1)" false _) eq_refl _);
      [discriminate|by left].
  - vm_compute. reflexivity.
Defined.

End Sanitize.
