(* ===== verification/UiPaging.v ===== *)
(** * UiPaging: the page links of a long list

    [uibPaging] and the controller of [uibPagination] (ui-bootstrap.js 4264-4350
    and 4395-4501): how many pages there are, which one is shown, and the links
    made for them.

    A number is an integer below [2^53] or, where [parseInt] or a missing
    attribute can give one, not a number ([None]); the ceiling of the quotient of
    two such integers, computed on doubles, is that of their exact quotient.  The
    control is its view value, which [$setViewValue] assigns at once. *)

From Stdlib Require Import Sorted.
From S2P Require Import Prelude Text Js NgUrl.

(** ** The links *)

Module Pages.

(** angular.js 4416-4422: an ellipsis is a link too. *)
Record link := makePage { number : Z; text : string; active : bool }.

#[global] Instance link_eq_dec : EqDecision link.
Proof. solve_decision. Defined.

(** The attributes the controller evaluates once, and [maxSize], which is
    watched. *)
Record options := Options {
  maxSize : option Z;
  rotate : bool;
  forceEllipses : bool;
  boundaryLinkNumbers : bool
}.

Definition ceil_div (a b : Z) : Z := - ((- a) / b).

Section Labels.
Context (pageLabel : Z -> string).

(** ui-bootstrap.js 4429 *)
Definition isMaxSized (o : options) (totalPages : Z) : bool :=
  match maxSize o with Some m => m <? totalPages | None => false end.

(** ui-bootstrap.js 4428-4450: the first and last page; a division by zero makes
    both NaN. *)
Definition page_range (o : options) (currentPage totalPages : Z) : option (Z * Z) :=
  match maxSize o with
  | Some m =>
      if m <? totalPages then
        if rotate o then
          let startPage := Z.max (currentPage - m / 2) 1 in
          let endPage := startPage + m - 1 in
          if totalPages <? endPage then Some (totalPages - m + 1, totalPages) else Some (startPage, endPage)
        else if m =? 0 then None
        else
          let startPage := (ceil_div currentPage m - 1) * m + 1 in
          Some (startPage, Z.min (startPage + m - 1) totalPages)
      else Some (1, totalPages)
  | None => Some (1, totalPages)
  end.

(** ui-bootstrap.js 4460-4474 *)
Definition before_range (o : options) (startPage : Z) (pages : list link) : list link :=
  if 1 <? startPage then
    let pages :=
      if negb (boundaryLinkNumbers o) || (3 <? startPage) then makePage (startPage - 1) "..." false :: pages
      else pages in
    if boundaryLinkNumbers o then
      let pages := if startPage =? 3 then makePage 2 "2" false :: pages else pages in
      makePage 1 "1" false :: pages
    else pages
  else pages.

(** ui-bootstrap.js 4476-4490 *)
Definition after_range (o : options) (endPage totalPages : Z) (pages : list link) : list link :=
  if endPage <? totalPages then
    let pages :=
      if negb (boundaryLinkNumbers o) || (endPage <? totalPages - 2)
      then pages ++ [makePage (endPage + 1) "..." false] else pages in
    if boundaryLinkNumbers o then
      let pages := if endPage =? totalPages - 2
                   then pages ++ [makePage (totalPages - 1) (pretty (totalPages - 1)) false] else pages in
      pages ++ [makePage totalPages (pretty totalPages) false]
    else pages
  else pages.

(** ui-bootstrap.js 4424-4493 *)
Definition getPages (o : options) (currentPage totalPages : Z) : list link :=
  match page_range o currentPage totalPages with
  | None => []
  | Some (startPage, endPage) =>
      let pages := map (fun number => makePage number (pageLabel number) (number =? currentPage))
                     (seqZ startPage (endPage - startPage + 1)) in
      if isMaxSized o totalPages && match maxSize o with Some m => 0 <? m | None => false end &&
         (negb (rotate o) || forceEllipses o || boundaryLinkNumbers o)
      then after_range o endPage totalPages (before_range o startPage pages)
      else pages
  end.

(** *** The range *)

Lemma ceil_div_bounds a b : 0 < b -> a <= b * ceil_div a b < a + b.
Proof.
  intros Hb. unfold ceil_div. pose proof (Z.div_mod (- a) b ltac:(lia)). pose proof (Z.mod_pos_bound (- a) b Hb). nia.
Qed.

(** What is around the range does not depend on it. *)
Lemma before_range_app o s l : before_range o s l = before_range o s [] ++ l.
Proof. unfold before_range. by destruct (1 <? s), (boundaryLinkNumbers o), (3 <? s), (s =? 3). Qed.

Lemma after_range_app o e t l : after_range o e t l = l ++ after_range o e t [].
Proof.
  unfold after_range. destruct (e <? t), (boundaryLinkNumbers o), (e <? t - 2), (e =? t - 2); simpl;
    rewrite ?app_nil_r, <- ?app_assoc; reflexivity.
Qed.

Definition ascending (l : list link) : Prop := StronglySorted Z.lt (map number l).

(** Lists of links, each before a page, within two, or after. *)
Definition within (a b : Z) (l : list link) : Prop := Forall (fun k => a <= number k <= b) l.

Lemma ascending_app a b c l1 l2 :
  ascending l1 -> ascending l2 -> within a (b - 1) l1 -> within b c l2 -> ascending (l1 ++ l2).
Proof.
  unfold ascending, within. intros H1 H2 H3 H4. rewrite map_app. induction l1 as [|k l1 IH]; [done|].
  simpl in *. apply StronglySorted_inv in H1 as [H1 Hk]. apply Forall_cons in H3 as [H3 H3'].
  constructor; [by apply IH|]. apply Forall_app. split; [done|]. apply Forall_map.
  eapply Forall_impl; [exact H4|]. simpl. lia.
Qed.

Definition window (currentPage s e : Z) : list link :=
  map (fun number => makePage number (pageLabel number) (number =? currentPage)) (seqZ s (e - s + 1)).

Lemma window_within cur s e : within s e (window cur s e).
Proof. apply Forall_map, Forall_forall. intros n Hn. apply elem_of_seqZ in Hn. simpl. lia. Qed.

Lemma seqZ_sorted s n : StronglySorted Z.lt (seqZ s n).
Proof.
  destruct (Z_lt_le_dec n 0); [rewrite seqZ_nil by lia; constructor|].
  revert s. pattern n. apply natlike_ind; [| |done]; [intros s; rewrite seqZ_nil by lia; constructor|].
  intros k Hk IH s. rewrite seqZ_cons by lia. constructor; [by rewrite Z.pred_succ|].
  apply Forall_forall. intros x Hx. apply elem_of_seqZ in Hx. lia.
Qed.

Lemma window_ascending cur s e : ascending (window cur s e).
Proof.
  unfold ascending, window. rewrite map_map. simpl. rewrite map_id. apply seqZ_sorted.
Qed.

Lemma window_active cur s e : s <= cur <= e -> filter (fun k => active k = true) (window cur s e) = [makePage cur (pageLabel cur) true].
Proof.
  intros H. unfold window. replace (e - s + 1) with ((cur - s) + (1 + (e - cur))) by lia.
  rewrite !seqZ_app by lia. rewrite !map_app, !filter_app.
  replace (s + (cur - s)) with cur by lia. rewrite (seqZ_cons cur 1), (seqZ_nil _ (Z.pred 1)) by lia. simpl.
  rewrite Z.eqb_refl, (filter_drop _ (map _ (seqZ s _))), (filter_drop _ (map _ (seqZ (cur + 1) _))); [done| |];
    apply Forall_map, Forall_forall; intros n Hn; apply elem_of_seqZ in Hn; simpl;
    rewrite (proj2 (Z.eqb_neq n cur)) by lia; done.
Qed.

Lemma window_head cur s e : s <= e -> head (window cur s e) = Some (makePage s (pageLabel s) (s =? cur)).
Proof. intros H. unfold window. by rewrite seqZ_cons by lia. Qed.

Lemma window_last cur s e : s <= e -> last (window cur s e) = Some (makePage e (pageLabel e) (e =? cur)).
Proof.
  intros H. unfold window. rewrite seqZ_app by lia. rewrite map_app, (seqZ_cons _ 1), (seqZ_nil _ (Z.pred 1)) by lia. simpl.
  rewrite last_snoc. by replace (s + (e - s)) with e by lia.
Qed.

(** The facts of a list of at most two links. *)
Ltac link_facts :=
  repeat split; repeat first [apply Forall_nil | apply Forall_cons; split | apply SSorted_nil | apply SSorted_cons];
  simpl; first [done | lia | intros; first [done | lia]].

Lemma front_shape o s :
  1 <= s -> ascending (before_range o s []) /\ within 1 (s - 1) (before_range o s []) /\
  Forall (fun k => active k = false) (before_range o s []) /\
  (boundaryLinkNumbers o = true -> 1 < s -> number <$> head (before_range o s []) = Some 1) /\
  (1 < s -> before_range o s [] <> []).
Proof.
  intros H. unfold before_range, ascending, within.
  destruct (Z.ltb_spec 1 s), (boundaryLinkNumbers o), (Z.ltb_spec 3 s), (Z.eqb_spec s 3); simpl; link_facts.
Qed.

Lemma back_shape o e t :
  e <= t -> ascending (after_range o e t []) /\ within (e + 1) t (after_range o e t []) /\
  Forall (fun k => active k = false) (after_range o e t []) /\
  (boundaryLinkNumbers o = true -> e < t -> number <$> last (after_range o e t []) = Some t) /\
  (e < t -> after_range o e t [] <> []).
Proof.
  intros H. unfold after_range, ascending, within.
  destruct (Z.ltb_spec e t), (boundaryLinkNumbers o), (Z.ltb_spec e (t - 2)), (Z.eqb_spec e (t - 2)); simpl; link_facts.
Qed.

Lemma range_shape o cur total m :
  1 <= cur <= total -> maxSize o = Some m -> 0 < m < total ->
  exists s e, page_range o cur total = Some (s, e) /\ 1 <= s /\ s <= cur <= e /\ e <= total /\
    (if rotate o then e - s + 1 = m else (s - 1) mod m = 0 /\ e = Z.min (s + m - 1) total).
Proof.
  intros Hc Hm Hlt. unfold page_range. rewrite Hm, (proj2 (Z.ltb_lt m total)) by lia.
  pose proof (Z.div_mod m 2 ltac:(lia)). pose proof (Z.mod_pos_bound m 2 ltac:(lia)).
  destruct (rotate o).
  - destruct (total <? _) eqn:E; [apply Z.ltb_lt in E|apply Z.ltb_ge in E]; eexists _, _; (split; [reflexivity|lia]).
  - rewrite (proj2 (Z.eqb_neq m 0)) by lia. pose proof (ceil_div_bounds cur m ltac:(lia)) as Hb.
    eexists _, _. split; [reflexivity|]. assert (1 <= ceil_div cur m) by nia.
    split; [nia|]. split; [lia|]. split; [lia|]. split; [|done].
    replace (_ + 1 - 1) with ((ceil_div cur m - 1) * m) by lia. apply Z.mod_mul. lia.
Qed.

Lemma getPages_none o cur total m : maxSize o = Some m -> m <= 0 < total -> getPages o cur total = [].
Proof.
  intros Hm Hle. unfold getPages, page_range, isMaxSized. rewrite Hm, (proj2 (Z.ltb_lt m total)), (proj2 (Z.ltb_ge 0 m)) by lia.
  destruct (rotate o).
  - destruct (total <? _); rewrite seqZ_nil; try done; lia.
  - destruct (Z.eqb_spec m 0) as [->|]; [done|]. simpl. rewrite seqZ_nil; [done|lia].
Qed.

(** The links around the range are made when it does not start and end the
    list. *)
Definition surrounded (o : options) (total : Z) : bool :=
  isMaxSized o total && (negb (rotate o) || forceEllipses o || boundaryLinkNumbers o).

Lemma getPages_shape o cur total :
  1 <= cur <= total -> (forall m, maxSize o = Some m -> 0 < m) ->
  exists s e, page_range o cur total = Some (s, e) /\ 1 <= s /\ s <= cur <= e /\ e <= total /\
    getPages o cur total = (if surrounded o total then before_range o s [] else []) ++ window cur s e ++
                           (if surrounded o total then after_range o e total [] else []).
Proof.
  intros Hc Hm. assert (Hr : exists s e, page_range o cur total = Some (s, e) /\ 1 <= s /\ s <= cur <= e /\ e <= total).
  { unfold page_range. destruct (maxSize o) as [m|] eqn:Hs; [|by eexists _, _; split; [reflexivity|lia]].
    destruct (Z.ltb_spec m total) as [Hlt|]; [|by eexists _, _; split; [reflexivity|lia]].
    destruct (range_shape o cur total m Hc Hs) as (s & e & E & H); [by split; [apply Hm|]|].
    unfold page_range in E. rewrite Hs, (proj2 (Z.ltb_lt m total) Hlt) in E. exists s, e. split; [exact E|]. tauto. }
  destruct Hr as (s & e & E & H). exists s, e. split; [done|]. repeat (split; [tauto|]).
  unfold getPages. rewrite E. fold (window cur s e).
  assert (Ht : isMaxSized o total && match maxSize o with Some m => 0 <? m | None => false end = isMaxSized o total).
  { unfold isMaxSized. destruct (maxSize o) as [m|]; [|done]. rewrite (proj2 (Z.ltb_lt 0 m)) by (by apply Hm). apply andb_true_r. }
  rewrite Ht. fold (surrounded o total). destruct (surrounded o total).
  - by rewrite before_range_app, after_range_app, <- app_assoc.
  - by rewrite app_nil_r.
Qed.

End Labels.

(** C37: the links of a page of a list.  With a positive limit, or none, they are a
    run of pages of the list around the page shown, in order, perhaps with links on either side:
    numbers only grow and stay within the list, and of all the links the one of the page
    shown, and it alone, is active.  When there are more pages than the limit the run
    has exactly that length if it follows the page, and else is the
    block of that length the page is in; when there are not, it is the whole list and
    nothing more.  With numbered boundaries the first link is of page 1 and the last of the
    last page.  With a limit of zero or less no link is made. *)
Theorem page_links_exact (pageLabel : Z -> string) (o : options) (cur total : Z) (Hcur : 1 <= cur <= total) :
  let l := getPages pageLabel o cur total in
  (forall m, maxSize o = Some m -> m <= 0 -> l = []) /\
  ((forall m, maxSize o = Some m -> 0 < m) ->
    ascending l /\ within 1 total l /\ filter (fun k => active k = true) l = [makePage cur (pageLabel cur) true] /\
    (isMaxSized o total = true -> boundaryLinkNumbers o = true ->
      number <$> head l = Some 1 /\ number <$> last l = Some total) /\
    (exists s e front back, l = front ++ window pageLabel cur s e ++ back /\ s <= cur <= e /\
      (isMaxSized o total = false -> front = [] /\ s = 1 /\ e = total /\ back = []) /\
      (forall m, maxSize o = Some m -> m < total ->
        if rotate o then e - s + 1 = m else (s - 1) mod m = 0 /\ e = Z.min (s + m - 1) total) /\
      (surrounded o total = true -> (1 < s -> front <> []) /\ (e < total -> back <> [])))).
Proof.
  intros l. split; [intros m Hm Hle; apply (getPages_none _ o cur total m Hm); lia|]. intros Hm.
  destruct (getPages_shape pageLabel o cur total Hcur Hm) as (s & e & E & Hs & Hse & He & Hl).
  destruct (front_shape o s Hs) as (Hf1 & Hf2 & Hf3 & Hf4 & Hf5).
  destruct (back_shape o e total He) as (Hb1 & Hb2 & Hb3 & Hb4 & Hb5).
  fold l in Hl. set (front := if surrounded o total then before_range o s [] else []) in *.
  set (back := if surrounded o total then after_range o e total [] else []) in *.
  assert (Hfr : ascending front /\ within 1 (s - 1) front /\ Forall (fun k => active k = false) front)
    by (unfold front, ascending, within; destruct (surrounded o total); repeat split; done || constructor).
  assert (Hbk : ascending back /\ within (e + 1) total back /\ Forall (fun k => active k = false) back)
    by (unfold back, ascending, within; destruct (surrounded o total); repeat split; done || constructor).
  destruct Hfr as (Ha1 & Ha2 & Ha3). destruct Hbk as (Hc1 & Hc2 & Hc3).
  assert (Hw : within s total (window pageLabel cur s e ++ back)).
  { apply Forall_app. split; [eapply Forall_impl; [apply window_within|]|eapply Forall_impl; [exact Hc2|]]; simpl; lia. }
  rewrite Hl. repeat split.
  - apply (ascending_app 1 s total); try done. apply (ascending_app s (e + 1) total); try done; [apply window_ascending|].
    eapply Forall_impl; [apply window_within|]. simpl. lia.
  - apply Forall_app. split; [eapply Forall_impl; [exact Ha2|]|eapply Forall_impl; [exact Hw|]]; simpl; lia.
  - rewrite !filter_app, window_active by done.
    rewrite (filter_drop _ front) by (eapply Forall_impl; [exact Ha3|]; simpl; congruence).
    by rewrite (filter_drop _ back) by (eapply Forall_impl; [exact Hc3|]; simpl; congruence).
  - assert (Hsu : surrounded o total = true) by (unfold surrounded; rewrite H, H0; by rewrite !orb_true_r).
    unfold front. rewrite Hsu. destruct (Z.eq_dec s 1) as [->|].
    + simpl. by rewrite head_app, window_head by lia.
    + specialize (Hf4 H0 ltac:(lia)). by destruct (before_range o s []).
  - assert (Hsu : surrounded o total = true) by (unfold surrounded; rewrite H, H0; by rewrite !orb_true_r).
    unfold back. rewrite Hsu. destruct (Z.eq_dec e total) as [->|].
    + unfold after_range. rewrite Z.ltb_irrefl, app_nil_r, last_app. by rewrite window_last by lia.
    + specialize (Hb4 H0 ltac:(lia)). rewrite app_assoc. rewrite last_app. by destruct (last (after_range o e total [])).
  - exists s, e, front, back. split; [done|]. split; [done|]. split; [|split].
    + intros Hi. unfold front, back, surrounded. rewrite Hi. unfold isMaxSized in Hi. unfold page_range in E.
      destruct (maxSize o) as [m|]; [rewrite Hi in E|]; by injection E as <- <-.
    + intros m Hmm Hlt. destruct (range_shape o cur total m Hcur Hmm) as (s' & e' & E' & _ & _ & _ & H); [by split; [apply Hm|]|].
      rewrite E in E'. injection E' as <- <-. exact H.
    + intros Hsu. unfold front, back. rewrite Hsu. split; [exact Hf5|exact Hb5].
Qed.
Lemma page_links_exact_witness :
  map number (getPages pretty (Options (Some 5) true false true) 7 20) = [1; 4; 5; 6; 7; 8; 9; 10; 20] /\
  filter (fun k => active k = true) (getPages pretty (Options (Some 5) true false true) 7 20) = [makePage 7 "7" true].
Proof.
  split; [vm_compute; reflexivity|]. refine (proj1 (proj2 (proj2 (proj2 (page_links_exact pretty (Options (Some 5) true false true) 7 20 _) _)))); [lia|].
  by intros m [= <-].
Defined.

End Pages.

(** ** The controller *)

Module Paging.
Import Pages.

(** [parseInt(s, 10)]. *)
Definition parse_string (s : string) : option Z :=
  match trim_start s with
  | String c s' =>
      if Ascii.eqb c "-" then Z.opp <$> Location.parse_digits None s'
      else if Ascii.eqb c "+" then Location.parse_digits None s'
      else Location.parse_digits None (String c s')
  | "" => None
  end.

Section Controller.
Context (pageLabel : Z -> string) (obj_str : nat -> string).

(** [parseInt(v, 10)]: an integer is printed and read back. *)
Definition parseInt (v : jsval) : option Z :=
  match v with
  | JNum n => Some n
  | _ => parse_string (prim_str obj_str v)
  end.

(** The scope and the controller; what is not yet set is [None]. *)
Record paging := Paging {
  page : option Z;
  totalPages : option Z;
  totalItems : option Z;
  itemsPerPage : option Z;
  viewValue : jsval;
  opts : options;
  pages : list link;
  ngDisabled : bool;
  numPages : option Z
}.

Definition set_page (p : option Z) (s : paging) : paging :=
  Paging p (totalPages s) (totalItems s) (itemsPerPage s) (viewValue s) (opts s) (pages s) (ngDisabled s) (numPages s).
Definition set_view (v : jsval) (s : paging) : paging :=
  Paging (page s) (totalPages s) (totalItems s) (itemsPerPage s) v (opts s) (pages s) (ngDisabled s) (numPages s).
Definition set_pages (l : list link) (s : paging) : paging :=
  Paging (page s) (totalPages s) (totalItems s) (itemsPerPage s) (viewValue s) (opts s) l (ngDisabled s) (numPages s).

(** ui-bootstrap.js 4297-4300 *)
Definition calculateTotalPages (totalItems itemsPerPage : option Z) : Z :=
  match itemsPerPage with
  | Some i =>
      if i <? 1 then 1
      else match totalItems with Some t => Z.max (ceil_div t i) 1 | None => 1 end
  | None => 1
  end.

(** ui-bootstrap.js 4302-4304: [|| 1] also replaces 0. *)
Definition read_page (v : jsval) : Z :=
  match parseInt v with
  | Some n => if n =? 0 then 1 else n
  | None => 1
  end.

(** ui-bootstrap.js 4302-4304, then 4496-4501 *)
Definition render (s : paging) : paging :=
  let p := read_page (viewValue s) in
  let s := set_page (Some p) s in
  match totalPages s with
  | Some t => if (0 <? p) && (p <=? t) then set_pages (getPages pageLabel (opts s) p t) s else s
  | None => s
  end.

(** ui-bootstrap.js 4306-4319 *)
Definition selectPage (p : Z) (evt : bool) (s : paging) : paging :=
  let clickAllowed := negb (ngDisabled s) || negb evt in
  if clickAllowed && negb (bool_decide (page s = Some p)) && (0 <? p) &&
     match totalPages s with Some t => p <=? t | None => false end
  then render (set_view (JNum p) s)
  else s.

(** ui-bootstrap.js 4325-4331 *)
Definition noPrevious (s : paging) : bool := bool_decide (page s = Some 1).
Definition noNext (s : paging) : bool := bool_decide (page s = totalPages s).

(** ui-bootstrap.js 4333-4341 *)
Definition updatePage (s : paging) : paging :=
  let s := Paging (page s) (totalPages s) (totalItems s) (itemsPerPage s) (viewValue s) (opts s) (pages s) (ngDisabled s)
             (totalPages s) in
  match page s, totalPages s with
  | Some p, Some t => if t <? p then selectPage t false s else render s
  | _, _ => render s
  end.

Definition recount (s : paging) : paging :=
  updatePage (Paging (page s) (Some (calculateTotalPages (totalItems s) (itemsPerPage s))) (totalItems s) (itemsPerPage s)
    (viewValue s) (opts s) (pages s) (ngDisabled s) (numPages s)).

(** ui-bootstrap.js 4280-4284 *)
Definition itemsPerPage_listener (value : jsval) (s : paging) : paging :=
  recount (Paging (page s) (totalPages s) (totalItems s) (parseInt value) (viewValue s) (opts s) (pages s) (ngDisabled s)
    (numPages s)).

(** ui-bootstrap.js 4289-4294 *)
Definition totalItems_listener (newTotal oldTotal : option Z) (s : paging) : paging :=
  let s := Paging (page s) (totalPages s) newTotal (itemsPerPage s) (viewValue s) (opts s) (pages s) (ngDisabled s)
             (numPages s) in
  if bool_decide (is_Some newTotal) || negb (bool_decide (newTotal = oldTotal)) then recount s else s.

(** ui-bootstrap.js 4409-4412 *)
Definition maxSize_listener (value : jsval) (s : paging) : paging :=
  render (Paging (page s) (totalPages s) (totalItems s) (itemsPerPage s) (viewValue s)
    (Options (parseInt value) (rotate (opts s)) (forceEllipses (opts s)) (boundaryLinkNumbers (opts s)))
    (pages s) (ngDisabled s) (numPages s)).

(** What happens to a list of pages: its watches, a click on a link, the model
    changed by the page, the attribute [ng-disabled]. *)
Inductive event :=
| ItemsPerPage (value : jsval)
| TotalItems (newTotal : option Z)
| MaxSize (value : jsval)
| Click (p : Z)
| Model (v : jsval)
| Disabled (b : bool).

Definition step (e : event) (s : paging) : paging :=
  match e with
  | ItemsPerPage v => itemsPerPage_listener v s
  | TotalItems n => totalItems_listener n (totalItems s) s
  | MaxSize v => maxSize_listener v s
  | Click p => selectPage p true s
  | Model v => render (set_view v s)
  | Disabled b => Paging (page s) (totalPages s) (totalItems s) (itemsPerPage s) (viewValue s) (opts s) (pages s) b (numPages s)
  end.

(** ui-bootstrap.js 4271-4287: the watch of the total calls its listener
    when it starts. *)
Definition init (o : options) (total itemsPerPage : option Z) (v : jsval) : paging :=
  let s := Paging None None total itemsPerPage v o [] false None in
  totalItems_listener total total s.

Definition exec (es : list event) (s : paging) : paging := fold_left (fun s e => step e s) es s.

(** *** What holds of it at any time *)

Record in_step (s : paging) : Prop := InStep {
  is_total : forall t, totalPages s = Some t -> t = calculateTotalPages (totalItems s) (itemsPerPage s);
  is_page : forall p, page s = Some p -> p = read_page (viewValue s);
  is_pages : forall p t, page s = Some p -> totalPages s = Some t -> 1 <= p <= t -> pages s = getPages pageLabel (opts s) p t
}.

Lemma total_positive a b : 1 <= calculateTotalPages a b.
Proof. unfold calculateTotalPages. repeat case_match; lia. Qed.

Lemma render_in_step s :
  (forall t, totalPages s = Some t -> t = calculateTotalPages (totalItems s) (itemsPerPage s)) -> in_step (render s).
Proof.
  intros Ht. unfold render. cbn [set_page totalPages]. destruct (totalPages s) as [t|] eqn:E.
  - destruct (0 <? read_page (viewValue s)) eqn:H1, (read_page (viewValue s) <=? t) eqn:H2; simpl;
      (constructor; simpl; [intros t'; rewrite ?E; intros [= <-]; by apply Ht|by intros ? [= <-]|]);
      intros p t' [= <-]; rewrite E; intros [= <-] Hp; first [done|apply Z.ltb_ge in H1; lia|apply Z.leb_gt in H2; lia].
  - constructor; simpl; [by rewrite E|by intros ? [= <-]|by rewrite E].
Qed.

Lemma render_page s : page (render s) = Some (read_page (viewValue s)).
Proof. unfold render. by repeat case_match. Qed.

Lemma read_page_num n : n <> 0 -> read_page (JNum n) = n.
Proof. intros H. unfold read_page. simpl. by rewrite (proj2 (Z.eqb_neq n 0) H). Qed.

(** Selecting goes to a page of the list other than the one shown, when the list
    is not disabled or no click asks. *)
Definition selectable (p : Z) (evt : bool) (s : paging) : Prop :=
  (ngDisabled s = false \/ evt = false) /\ page s <> Some p /\ exists t, totalPages s = Some t /\ 1 <= p <= t.

Lemma select_spec p evt s :
  (selectable p evt s /\ selectPage p evt s = render (set_view (JNum p) s)) \/
  (~ selectable p evt s /\ selectPage p evt s = s).
Proof.
  unfold selectPage, selectable. destruct (negb (ngDisabled s) || negb evt) eqn:H1; simpl.
  - assert (ngDisabled s = false \/ evt = false) by (by destruct (ngDisabled s), evt; auto).
    case_bool_decide as H2; simpl; [right; split; [by intros (_ & ? & _)|done]|].
    destruct (Z.ltb_spec 0 p); simpl; [|right; split; [intros (_ & _ & t & _ & Hp); lia|done]].
    destruct (totalPages s) as [t|] eqn:Ht; [|right; split; [by intros (_ & _ & t & ? & _)|done]].
    destruct (Z.leb_spec p t); [left|right]; (split; [|done]).
    + repeat split; try done. exists t. split; [done|lia].
    + intros (_ & _ & t' & [= <-] & Hp). lia.
  - right. split; [|done]. intros ([H|H] & _); rewrite H in H1; [done|by destruct (ngDisabled s)].
Qed.

Lemma select_in_step p evt s : in_step s -> in_step (selectPage p evt s).
Proof.
  intros Hs. destruct (select_spec p evt s) as [[_ ->]|[_ ->]]; [|done]. by apply render_in_step, Hs.
Qed.

(** Counting the pages again shows the page the control holds, or the last one
    if it is beyond it and was shown. *)
Lemma recount_spec s :
  let t := calculateTotalPages (totalItems s) (itemsPerPage s) in
  in_step (recount s) /\ totalPages (recount s) = Some t /\ numPages (recount s) = Some t /\
  (forall p, page s = Some p -> p = read_page (viewValue s) -> page (recount s) = Some (Z.min p t)).
Proof.
  intros t. unfold recount, updatePage. cbn [page totalPages totalItems itemsPerPage viewValue opts pages ngDisabled numPages].
  fold t. set (s' := Paging _ _ _ _ _ _ _ _ _).
  assert (Hr : forall v, in_step (render (set_view v s')) /\ totalPages (render (set_view v s')) = Some t /\
    numPages (render (set_view v s')) = Some t).
  { intros v. split; [apply render_in_step; by intros t' [= <-]|]. unfold render. cbn. by destruct (_ && _). }
  assert (Hv : s' = set_view (viewValue s) s') by done.
  assert (Hm : in_step (render s') /\ totalPages (render s') = Some t /\ numPages (render s') = Some t)
    by (rewrite Hv; apply Hr).
  destruct (page s) as [p|] eqn:Hp; [|split; [apply Hm|]; split; [apply Hm|]; split; [apply Hm|done]].
  pose proof (total_positive (totalItems s) (itemsPerPage s)) as Ht. fold t in Ht.
  destruct (Z.ltb_spec t p) as [Hlt|Hle].
  - destruct (select_spec t false s') as [[_ ->]|[H _]].
    + split; [apply Hr|]. split; [apply Hr|]. split; [apply Hr|]. intros p' [= <-] _.
      rewrite render_page. cbn [set_view viewValue]. rewrite read_page_num by lia. f_equal. lia.
    + destruct H. split; [by right|]. split; [subst s'; cbn; rewrite ?Hp; intros [= ->]; lia|]. exists t. split; [done|lia].
  - split; [apply Hm|]. split; [apply Hm|]. split; [apply Hm|]. intros p' [= <-] Hpv.
    rewrite render_page. cbn [viewValue]. change (viewValue s') with (viewValue s). rewrite <- Hpv. f_equal. lia.
Qed.

Lemma render_keeps s : totalItems (render s) = totalItems s /\ itemsPerPage (render s) = itemsPerPage s.
Proof. unfold render. by repeat case_match. Qed.

Lemma recount_keeps s : totalItems (recount s) = totalItems s /\ itemsPerPage (recount s) = itemsPerPage s.
Proof.
  unfold recount, updatePage, selectPage. repeat case_match; rewrite ?(proj1 (render_keeps _)), ?(proj2 (render_keeps _)); by simplify_eq.
Qed.

Lemma step_in_step e s : in_step s -> in_step (step e s).
Proof.
  intros Hs. destruct e as [v|n|v|p|v|b]; cbn [step].
  - apply recount_spec.
  - unfold totalItems_listener. destruct (_ || _) eqn:E; [apply recount_spec|].
    apply orb_false_iff in E as [_ E]. apply negb_false_iff, bool_decide_eq_true in E as ->. by destruct s.
  - apply render_in_step. cbn. apply Hs.
  - by apply select_in_step.
  - apply render_in_step. cbn. apply Hs.
  - destruct Hs as [H1 H2 H3]. by constructor.
Qed.

Lemma exec_in_step es s : in_step s -> in_step (exec es s).
Proof. revert s. induction es as [|e es IH]; intros s Hs; [done|]. by apply IH, step_in_step. Qed.

Lemma init_in_step o total ipp v : in_step (init o total ipp v).
Proof. by apply (step_in_step (TotalItems total) (Paging None None total ipp v o [] false None)). Qed.

(** C36: whatever happens to a list of pages - its total, the size of a page, the
    number of links and its model change, links are clicked - the number of pages stays
    the one of the total, the page shown the one the control holds, and the links those
    of that page whenever it is one of the list.  A click shows the page asked when the list
    is not disabled, it is a page of the list and not the one shown, and does nothing otherwise;
    and when the total or the size changes, a page beyond the last becomes the
    last. *)
Theorem paging_exact (o : options) (total ipp : option Z) (v : jsval) (es : list event) :
  let s := exec es (init o total ipp v) in
  in_step s /\
  (forall p, selectable p true s ->
    let s' := step (Click p) s in
    page s' = Some p /\ viewValue s' = JNum p /\ exists t, totalPages s = Some t /\ pages s' = getPages pageLabel (opts s) p t) /\
  (forall p, ~ selectable p true s -> step (Click p) s = s) /\
  (forall e p, page s = Some p -> (exists w, e = ItemsPerPage w) \/ (exists n, e = TotalItems (Some n)) ->
    let s' := step e s in
    let t := calculateTotalPages (totalItems s') (itemsPerPage s') in
    1 <= t /\ totalPages s' = Some t /\ numPages s' = Some t /\ page s' = Some (Z.min p t)).
Proof.
  intros s. assert (Hs : in_step s) by apply exec_in_step, init_in_step. split; [done|]. split; [|split].
  - intros p Hp s'. subst s'. cbn [step]. destruct (select_spec p true s) as [[_ ->]|[H _]]; [|done].
    destruct Hp as (_ & _ & t & Ht & Hp). unfold render. cbn [set_view set_page viewValue totalPages]. rewrite Ht.
    rewrite read_page_num by lia. rewrite (proj2 (Z.ltb_lt 0 p)), (proj2 (Z.leb_le p t)) by lia. simpl.
    split; [done|]. split; [done|]. by exists t.
  - intros p Hp. cbn [step]. by destruct (select_spec p true s) as [[H _]|[_ ->]].
  - intros e p Hp He s' t.
    assert (Hr : exists s0, s' = recount s0 /\ page s0 = page s /\ viewValue s0 = viewValue s /\
      totalItems s' = totalItems s0 /\ itemsPerPage s' = itemsPerPage s0).
    { destruct He as [[w ->]|[n ->]]; subst s'; cbn [step].
      - unfold itemsPerPage_listener. eexists. split; [reflexivity|]. split; [done|]. split; [done|]. apply recount_keeps.
      - unfold totalItems_listener. rewrite bool_decide_true by done. simpl. eexists. split; [reflexivity|].
        split; [done|]. split; [done|]. apply recount_keeps. }
    destruct Hr as (s0 & E & Hp0 & Hv0 & H1 & H2). subst t. rewrite H1, H2.
    destruct (recount_spec s0) as (_ & Ht & Hn & Hpg). rewrite E. repeat split; [apply total_positive|done|done|].
    apply Hpg; [by rewrite Hp0|]. rewrite Hv0. by apply Hs.
Qed.

End Controller.
Lemma paging_exact_witness :
  let o := Options (Some 3) true false false in
  let s := exec pretty (fun _ => "") [Model (JStr "2"); Click 4] (init pretty (fun _ => "") o (Some 45) (Some 10) JUndef) in
  map number (pages s) = [3; 4; 5] /\ page (step pretty (fun _ => "") (TotalItems (Some 25)) s) = Some (Z.min 4 3).
Proof.
  intros o s. split; [vm_compute; reflexivity|].
  refine (proj2 (proj2 (proj2 (proj2 (proj2 (proj2 (paging_exact pretty (fun _ => "") o (Some 45) (Some 10) JUndef [Model (JStr "2"); Click 4])))
    (TotalItems (Some 25)) 4 _ _)))); [vm_compute; reflexivity|right; by exists 25].
Defined.

(** A model beyond the last page is shown with the links of the page before it,
    and no way forward is barred, until the total or the size changes. *)
Example stale_links :
  let o := Options None true false false in
  let s := exec pretty (fun _ => "") [Model (JNum 9)] (init pretty (fun _ => "") o (Some 30) (Some 10) JUndef) in
  page s = Some 9 /\ totalPages s = Some 3 /\ noNext s = false /\
  map number (filter (fun k => active k = true) (pages s)) = [1].
Proof. vm_compute. by repeat split. Qed.

End Paging.

