(* ===== verification/UiTabs.v ===== *)
(** * UiTabs: sets of tabs and accordions

    The controllers of [uibTabset] and [uibAccordion] with the scopes of [uibTab]
    and [uibAccordionGroup] (ui-bootstrap.js 5506-5586, 5614-5678 and 116-207).

    The index of a tab is an integer.  What the page runs when a tab is selected
    or deselected is recorded in order, and not run. *)

From Stdlib Require Import Sorted.
From S2P Require Import Prelude Js.

#[local] Set Warnings "-clear-no-such-hyp".

(** ** Tabs *)

Module Tabs.

(** The scope of a tab: its bound index, its flag, whether it is disabled. *)
Record scope := Scope { s_index : Z; s_active : bool; s_disabled : bool }.

(** ui-bootstrap.js 5534-5537: the index is copied when the tab is added. *)
Record entry := Entry { tab : nat; index : Z }.

#[global] Instance entry_eq_dec : EqDecision entry.
Proof. solve_decision. Defined.

Inductive call := OnSelect (t : nat) | OnDeselect (t : nat).

(** The controller, the scopes of the tabs, and the calls made.  [active] and
    [oldIndex] are [None] when they are not numbers. *)
Record tabset := Tabset {
  tabs : list entry;
  active : option Z;
  oldIndex : option Z;
  destroyed : bool;
  scopes : gmap nat scope;
  calls : list call
}.

Definition set_tabs (l : list entry) (s : tabset) : tabset :=
  Tabset l (active s) (oldIndex s) (destroyed s) (scopes s) (calls s).
Definition set_active (a : option Z) (s : tabset) : tabset :=
  Tabset (tabs s) a (oldIndex s) (destroyed s) (scopes s) (calls s).
Definition set_indices (a o : option Z) (s : tabset) : tabset :=
  Tabset (tabs s) a o (destroyed s) (scopes s) (calls s).
Definition set_scopes (m : gmap nat scope) (s : tabset) : tabset :=
  Tabset (tabs s) (active s) (oldIndex s) (destroyed s) m (calls s).

(** A call, then the tab's flag. *)
Definition flag (c : call) (t : nat) (b : bool) (s : tabset) : tabset :=
  Tabset (tabs s) (active s) (oldIndex s) (destroyed s)
    (alter (fun sc => Scope (s_index sc) b (s_disabled sc)) t (scopes s)) (calls s ++ [c]).

(** ui-bootstrap.js 5579-5585 *)
Fixpoint find_from (i : nat) (index_ : Z) (l : list entry) : option nat :=
  match l with
  | [] => None
  | e :: l => if index e =? index_ then Some i else find_from (S i) index_ l
  end.
Definition findTabIndex (index_ : option Z) (l : list entry) : option nat :=
  match index_ with Some i => find_from 0 i l | None => None end.

(** ui-bootstrap.js 5511-5531: a position that is not a number, or is out of the
    list, selects nothing. *)
Definition select (position : option nat) (s : tabset) : tabset :=
  if destroyed s then s
  else
    let s := match findTabIndex (oldIndex s) (tabs s) ≫= (fun i => tabs s !! i) with
             | Some previous => flag (OnDeselect (tab previous)) (tab previous) false s
             | None => s
             end in
    match position ≫= (fun i => tabs s !! i) with
    | Some selected => set_indices (Some (index selected)) (Some (index selected)) (flag (OnSelect (tab selected)) (tab selected) true s)
    | None => match oldIndex s with Some _ => set_indices None None s | None => s end
    end.

(** ui-bootstrap.js 5538-5548 *)
Definition by_index (t1 t2 : entry) : Z :=
  if index t2 <? index t1 then 1 else if index t1 <? index t2 then -1 else 0.

(** ui-bootstrap.js 5533-5554 *)
Definition addTab (t : nat) (s : tabset) : tabset :=
  match scopes s !! t with
  | None => s
  | Some sc =>
      let s := set_tabs (array_sort by_index (tabs s ++ [Entry t (s_index sc)])) s in
      if bool_decide (active s = Some (s_index sc)) ||
         bool_decide (active s = None) && (length (tabs s) =? 1)%nat
      then select (findTabIndex (Some (s_index sc)) (tabs s)) s
      else s
  end.

(** [splice(index, 1)]: [undefined] is read as 0. *)
Definition splice_at (position : option nat) (l : list entry) : list entry := delete (default 0%nat position) l.

(** ui-bootstrap.js 5556-5566: [index + 1 % length] is [index + (1 % length)]. *)
Definition removeTab (t : nat) (s : tabset) : tabset :=
  match scopes s !! t with
  | None => s
  | Some sc =>
      let index := findTabIndex (Some (s_index sc)) (tabs s) in
      let n := length (tabs s) in
      let s := if bool_decide (active s = Some (s_index sc)) then
                 let newActiveTabIndex :=
                   i ← index;
                   if (S i =? n)%nat then match i with O => None | S i => Some i end
                   else Some (i + 1 mod n)%nat in
                 select newActiveTabIndex s
               else s in
      set_tabs (splice_at index (tabs s)) s
  end.

(** ui-bootstrap.js 5568-5572 *)
Definition active_listener (val : option Z) (s : tabset) : tabset :=
  match val with
  | Some v => if negb (bool_decide (oldIndex s = Some v)) then select (findTabIndex val (tabs s)) s else s
  | None => s
  end.

(** ui-bootstrap.js 5642-5648: the index of a tab without the attribute. *)
Definition next_index (l : list entry) : Z :=
  match l with
  | [] => 0
  | e :: l => foldl (fun m e => Z.max m (index e)) (index e) l + 1
  end.

(** ui-bootstrap.js 5634-5668 *)
Definition link_tab (t : nat) (attr : option Z) (s : tabset) : tabset :=
  let i := match attr with Some i => i | None => next_index (tabs s) end in
  addTab t (set_scopes (<[t := Scope i false false]> (scopes s)) s).

(** ui-bootstrap.js 5657-5662 *)
Fixpoint position_of (i : nat) (t : nat) (l : list entry) : option nat :=
  match l with
  | [] => None
  | e :: l => if (tab e =? t)%nat then Some i else position_of (S i) t l
  end.

(** ui-bootstrap.js 5654-5666 *)
Definition click (t : nat) (s : tabset) : tabset :=
  match scopes s !! t with
  | Some sc => if s_disabled sc then s else select (position_of 0 t (tabs s)) s
  | None => s
  end.

(** What happens to a set of tabs. *)
Inductive event :=
| Link (t : nat) (attr : option Z)
| Remove (t : nat)
| Click (t : nat)
| SetActive (v : option Z)
| SetIndex (t : nat) (i : Z)
| Disable (t : nat) (b : bool)
| Destroy.

Definition step (e : event) (s : tabset) : tabset :=
  match e with
  | Link t attr => link_tab t attr s
  | Remove t => removeTab t s
  | Click t => click t s
  | SetActive v => active_listener v (set_active v s)
  | SetIndex t i => set_scopes (alter (fun sc => Scope i (s_active sc) (s_disabled sc)) t (scopes s)) s
  | Disable t b => set_scopes (alter (fun sc => Scope (s_index sc) (s_active sc) b) t (scopes s)) s
  | Destroy => Tabset (tabs s) (active s) (oldIndex s) true (scopes s) (calls s)
  end.

Definition start (bound : option Z) : tabset := Tabset [] bound None false ∅ [].

Definition exec (es : list event) (s : tabset) : tabset := fold_left (fun s e => step e s) es s.

(** *** One tab is active *)

Definition flagged (s : tabset) (t : nat) : bool :=
  match scopes s !! t with Some sc => s_active sc | None => false end.

(** The list is in the order of the indices, which are distinct and the bound
    ones. *)
Record well_formed (s : tabset) : Prop := WellFormed {
  wf_sorted : StronglySorted (fun a b => index a < index b) (tabs s);
  wf_tabs : NoDup (tab <$> tabs s);
  wf_live : forall e, e ∈ tabs s -> exists sc, scopes s !! tab e = Some sc /\ s_index sc = index e
}.

(** The tab of [oldIndex] is there and is the only one with its flag. *)
Record marked (s : tabset) : Prop := Marked {
  sel_flags : forall e, e ∈ tabs s -> flagged s (tab e) = bool_decide (oldIndex s = Some (index e));
  sel_there : forall i, oldIndex s = Some i -> exists e, e ∈ tabs s /\ index e = i;
  sel_live : destroyed s = false
}.

(** It is also the one of the controller's [active]; when there is none, no tab
    has the index the controller was given. *)
Record selection (s : tabset) : Prop := Selection {
  sel_marked : marked s;
  sel_some : forall i, oldIndex s = Some i -> active s = Some i;
  sel_none : oldIndex s = None -> forall e, e ∈ tabs s -> active s <> Some (index e)
}.

Lemma sorted_lookup (l : list entry) i j a b :
  StronglySorted (fun a b => index a < index b) l -> l !! i = Some a -> l !! j = Some b -> index a = index b -> i = j.
Proof.
  intros Hl. revert i j. induction Hl as [|x l Hl IH Hx]; intros i j Ha Hb E; [done|].
  rewrite Forall_forall in Hx. destruct i as [|i], j as [|j]; simpl in *; simplify_eq.
  - done.
  - apply list_elem_of_lookup_2, Hx in Hb. lia.
  - apply list_elem_of_lookup_2, Hx in Ha. lia.
  - f_equal. by apply IH.
Qed.

Lemma same_index s a b : well_formed s -> a ∈ tabs s -> b ∈ tabs s -> index a = index b -> a = b.
Proof.
  intros Hs (i & Ha)%list_elem_of_lookup (j & Hb)%list_elem_of_lookup E.
  rewrite (sorted_lookup _ _ _ _ _ (wf_sorted s Hs) Ha Hb E) in Ha. congruence.
Qed.

Lemma same_tab s a b : well_formed s -> a ∈ tabs s -> b ∈ tabs s -> tab a = tab b -> a = b.
Proof.
  intros Hs (i & Ha)%list_elem_of_lookup (j & Hb)%list_elem_of_lookup E.
  assert (Hij : i = j).
  { apply (NoDup_lookup (tab <$> tabs s) i j (tab a) (wf_tabs s Hs)); rewrite list_lookup_fmap; [by rewrite Ha|by rewrite Hb, E]. }
  subst. congruence.
Qed.

Lemma find_from_some k i l p : find_from k i l = Some p -> exists q e, p = (k + q)%nat /\ l !! q = Some e /\ index e = i.
Proof.
  revert k. induction l as [|e l IH]; intros k H; [done|]. cbn in H. destruct (Z.eqb_spec (index e) i).
  - injection H as <-. exists 0%nat, e. split; [lia|done].
  - apply IH in H as (q & e' & -> & H & E). exists (S q), e'. split; [lia|done].
Qed.

Lemma find_from_none k i l : find_from k i l = None -> forall e, e ∈ l -> index e <> i.
Proof.
  revert k. induction l as [|x l IH]; intros k H e; [by intros ?%not_elem_of_nil|]. cbn in H.
  destruct (Z.eqb_spec (index x) i); [done|]. intros [->|He]%elem_of_cons; [done|by apply (IH (S k))].
Qed.

Lemma find_index s e p : well_formed s -> tabs s !! p = Some e -> findTabIndex (Some (index e)) (tabs s) = Some p.
Proof.
  intros Hs Hp. cbn. destruct (find_from 0 (index e) (tabs s)) as [q|] eqn:E.
  - apply find_from_some in E as (q' & e' & -> & Hq & E). f_equal.
    by apply (sorted_lookup (tabs s) q' p e' e (wf_sorted s Hs)).
  - apply list_elem_of_lookup_2 in Hp. by apply (find_from_none _ _ _ E e) in Hp.
Qed.

Lemma flagged_flag c t b s t' :
  is_Some (scopes s !! t) -> flagged (flag c t b s) t' = if decide (t = t') then b else flagged s t'.
Proof.
  intros [sc Hsc]. unfold flagged, flag. cbn. destruct (decide (t = t')) as [->|Hne].
  - rewrite lookup_alter_eq. by rewrite Hsc.
  - by rewrite lookup_alter_ne.
Qed.

Lemma well_formed_flag c t b s : well_formed s -> well_formed (flag c t b s).
Proof.
  intros [H1 H2 H3]. constructor; cbn; try done. intros e He. destruct (H3 e He) as (sc & Hsc & E).
  destruct (decide (t = tab e)) as [->|Hne].
  - rewrite lookup_alter_eq, Hsc. by eexists.
  - rewrite lookup_alter_ne by done. by exists sc.
Qed.

(** The tab of an index. *)
Definition tab_at (i : option Z) (s : tabset) : option nat :=
  tab <$> (findTabIndex i (tabs s) ≫= (fun p => tabs s !! p)).

Definition deselect_calls (s : tabset) : list call :=
  match tab_at (oldIndex s) s with Some t => [OnDeselect t] | None => [] end.

(** The tab that is left: the one with the index. *)
Definition deselected (s : tabset) : tabset :=
  match findTabIndex (oldIndex s) (tabs s) ≫= (fun i => tabs s !! i) with
  | Some previous => flag (OnDeselect (tab previous)) (tab previous) false s
  | None => s
  end.

Lemma deselected_spec s :
  well_formed s -> marked s ->
  well_formed (deselected s) /\ tabs (deselected s) = tabs s /\ oldIndex (deselected s) = oldIndex s /\
  active (deselected s) = active s /\ destroyed (deselected s) = false /\
  (forall e, e ∈ tabs s -> flagged (deselected s) (tab e) = false) /\ calls (deselected s) = calls s ++ deselect_calls s.
Proof.
  intros Hs [H1 H2 H4]. unfold deselected, deselect_calls, tab_at.
  destruct (oldIndex s) as [i|] eqn:Ho.
  - destruct (H2 i eq_refl) as (e & He & <-). pose proof He as (p & Hp)%list_elem_of_lookup.
    rewrite (find_index s e p Hs Hp). cbn. rewrite Hp. cbn. split; [by apply well_formed_flag|].
    repeat (split; [done|]). split; [|done]. intros e' He'.
    destruct (wf_live s Hs e He) as (sc & Hsc & _). rewrite flagged_flag by (by exists sc).
    destruct (decide (tab e = tab e')) as [|Hne]; [done|]. rewrite H1 by done. apply bool_decide_false.
    intros [= E]. apply Hne. f_equal. by apply (same_index s).
  - cbn. rewrite app_nil_r. do 6 (split; [done|]). done.
Qed.

Lemma select_unfold p s :
  destroyed s = false ->
  select p s = match p ≫= (fun i => tabs s !! i) with
               | Some selected => set_indices (Some (index selected)) (Some (index selected))
                                    (flag (OnSelect (tab selected)) (tab selected) true (deselected s))
               | None => match oldIndex s with Some _ => set_indices None None (deselected s) | None => deselected s end
               end.
Proof.
  intros Hd. unfold select. rewrite Hd. fold (deselected s).
  assert (Ht : tabs (deselected s) = tabs s) by (unfold deselected; by case_match).
  assert (Ho : oldIndex (deselected s) = oldIndex s) by (unfold deselected; by case_match). by rewrite Ht, Ho.
Qed.

(** Selecting a tab of the list. *)
Lemma select_some s p e :
  well_formed s -> marked s -> tabs s !! p = Some e ->
  let s' := select (Some p) s in
  well_formed s' /\ selection s' /\ tabs s' = tabs s /\ oldIndex s' = Some (index e) /\
  calls s' = calls s ++ deselect_calls s ++ [OnSelect (tab e)].
Proof.
  intros Hs Hsel Hp s'. subst s'. rewrite select_unfold by apply Hsel. cbn [mbind option_bind]. rewrite Hp.
  destruct (deselected_spec s Hs Hsel) as (Hw & Ht & Ho & Ha & Hd & Hf & Hc).
  pose proof Hp as He%list_elem_of_lookup_2.
  assert (Hsc : is_Some (scopes (deselected s) !! tab e)).
  { rewrite <- Ht in He. destruct (wf_live _ Hw e He) as (sc & E & _). by exists sc. }
  split; [|split; [|split; [|split]]]; try done.
  - destruct (well_formed_flag (OnSelect (tab e)) (tab e) true _ Hw) as [K1 K2 K3]. by constructor.
  - constructor; cbn; [|done|done]. constructor; cbn; [| |done].
    + intros e' He'. rewrite Ht in He'.
      change (flagged (set_indices (Some (index e)) (Some (index e)) (flag (OnSelect (tab e)) (tab e) true (deselected s))) (tab e'))
        with (flagged (flag (OnSelect (tab e)) (tab e) true (deselected s)) (tab e')).
      rewrite flagged_flag by done. destruct (decide (tab e = tab e')) as [E|Hne].
      * apply (same_tab s) in E as ->; [by rewrite bool_decide_true|done..].
      * rewrite Hf by done. symmetry. apply bool_decide_false. intros [= E]. apply Hne. f_equal. by apply (same_index s).
    + intros i [= <-]. rewrite Ht. by exists e.
  - cbn. by rewrite Hc, <- app_assoc.
Qed.

(** Selecting nothing. *)
Lemma select_none s p :
  well_formed s -> marked s -> p ≫= (fun i => tabs s !! i) = None ->
  let s' := select p s in
  well_formed s' /\ tabs s' = tabs s /\ oldIndex s' = None /\ (forall e, e ∈ tabs s -> flagged s' (tab e) = false) /\
  destroyed s' = false /\ (active s' = match oldIndex s with Some _ => None | None => active s end) /\
  calls s' = calls s ++ deselect_calls s.
Proof.
  intros Hs Hsel Hp s'. subst s'. rewrite select_unfold by apply Hsel. rewrite Hp.
  destruct (deselected_spec s Hs Hsel) as (Hw & Ht & Ho & Ha & Hd & Hf & Hc).
  destruct (oldIndex s) as [i|] eqn:E; [|done]. destruct Hw as [K1 K2 K3].
  split; [by constructor|]. done.
Qed.

(** *** Each operation *)

Lemma by_index_coherent : coherent (fun _ => True) by_index.
Proof.
  unfold by_index. constructor; intros; repeat case_match; rewrite ?Z.ltb_lt, ?Z.ltb_ge in *; lia.
Qed.

Lemma sort_strict (l : list entry) : NoDup (index <$> l) -> StronglySorted (fun a b => index a < index b) (array_sort by_index l).
Proof.
  intros Hnd. assert (Hs : StronglySorted (in_order by_index) (array_sort by_index l)).
  { apply (sort_sorted (fun _ => True)); [apply by_index_coherent|by apply Forall_forall]. }
  rewrite <- (sort_perm by_index l) in Hnd. induction Hs as [|x k Hs IH Hx]; [constructor|].
  apply NoDup_cons in Hnd as [Hn Hnd]. constructor; [by apply IH|]. rewrite Forall_forall in *. intros y Hy.
  assert (index x <> index y) by (intros E; apply Hn; rewrite E; apply list_elem_of_fmap; by exists y).
  specialize (Hx y Hy). unfold in_order, by_index in Hx. repeat case_match; rewrite ?Z.ltb_lt, ?Z.ltb_ge in *; lia.
Qed.

Lemma sorted_NoDup (l : list entry) : StronglySorted (fun a b => index a < index b) l -> NoDup (index <$> l).
Proof.
  induction 1 as [|x l Hl IH Hx]; [constructor|]. cbn. constructor; [|done].
  intros (y & E & Hy)%list_elem_of_fmap. rewrite Forall_forall in Hx. specialize (Hx y Hy). lia.
Qed.

Lemma next_index_above l e : e ∈ l -> index e < next_index l.
Proof.
  assert (H : forall l m e, e ∈ l \/ index e <= m -> index e <= foldl (fun m e => Z.max m (index e)) m l).
  { clear. induction l as [|x l IH]; intros m e H; cbn; [by destruct H as [?%not_elem_of_nil|]|].
    apply IH. destruct H as [[->|H]%elem_of_cons|H]; [right; lia|by left|right; lia]. }
  intros He. destruct l as [|x l]; [by apply not_elem_of_nil in He|]. cbn.
  specialize (H l (index x) e). apply elem_of_cons in He as [->|He]; [specialize (H (or_intror (Z.le_refl _))); lia|].
  specialize (H (or_introl He)). lia.
Qed.

(** Putting a tab in the list. *)
Lemma insert_well_formed s t sc l :
  well_formed s -> scopes s !! t = Some sc -> t ∉ tab <$> tabs s -> s_index sc ∉ index <$> tabs s ->
  l = array_sort by_index (tabs s ++ [Entry t (s_index sc)]) ->
  well_formed (set_tabs l s) /\ (forall e, e ∈ l <-> e ∈ tabs s \/ e = Entry t (s_index sc)).
Proof.
  intros Hs Hsc Ht Hi ->. set (n := Entry t (s_index sc)). set (l := array_sort _ _).
  assert (Hp : l ≡ₚ n :: tabs s) by (unfold l; rewrite sort_perm; apply Permutation_app_comm).
  assert (He : forall e, e ∈ l <-> e ∈ tabs s \/ e = n) by (intros e; rewrite Hp, elem_of_cons; tauto).
  split; [|done]. constructor; cbn.
  - apply sort_strict. rewrite fmap_app. cbn. rewrite Permutation_app_comm. cbn. constructor; [done|].
    by apply sorted_NoDup, Hs.
  - rewrite Hp. cbn. constructor; [done|apply Hs].
  - intros e H. apply He in H as [H| ->]; [by apply Hs|]. by exists sc.
Qed.

Lemma add_spec t s sc :
  well_formed s -> selection s -> scopes s !! t = Some sc -> s_active sc = false ->
  t ∉ tab <$> tabs s -> s_index sc ∉ index <$> tabs s ->
  well_formed (addTab t s) /\ selection (addTab t s).
Proof.
  intros Hs Hsel Hsc Hact Ht Hi. unfold addTab. rewrite Hsc.
  set (l := array_sort _ _). set (s1 := set_tabs l s).
  destruct (insert_well_formed s t sc l Hs Hsc Ht Hi eq_refl) as [Hw He]. fold s1 in Hw.
  assert (Hold : oldIndex s <> Some (s_index sc)).
  { intros E. destruct (sel_there s (sel_marked s Hsel) _ E) as (e & Hin & Heq).
    apply Hi. rewrite <- Heq. apply list_elem_of_fmap. by exists e. }
  assert (Hm : marked s1).
  { constructor; cbn.
    - intros e H. apply He in H as [H| ->]; [by apply Hsel|]. cbn. rewrite bool_decide_false by done.
      unfold flagged. cbn. by rewrite Hsc.
    - intros i E. destruct (sel_there s (sel_marked s Hsel) i E) as (e & H & <-). exists e. by rewrite He; auto.
    - apply Hsel. }
  destruct (bool_decide (active s1 = _) || _) eqn:Hc.
  - assert (Hn : Entry t (s_index sc) ∈ tabs s1) by (apply He; by right).
    apply list_elem_of_lookup in Hn as (p & Hp). pose proof (find_index s1 _ p Hw Hp) as Hf. cbn [index] in Hf. rewrite Hf.
    by destruct (select_some s1 p _ Hw Hm Hp) as (? & ? & _).
  - split; [done|]. apply orb_false_iff in Hc as [Hc _]. apply bool_decide_eq_false in Hc.
    constructor; [done|apply Hsel|]. cbn. intros E e H. apply He in H as [H| ->]; [by apply Hsel|done].
Qed.

Lemma link_spec t attr s :
  well_formed s -> selection s -> t ∉ tab <$> tabs s -> (forall i, attr = Some i -> i ∉ index <$> tabs s) ->
  well_formed (link_tab t attr s) /\ selection (link_tab t attr s).
Proof.
  intros Hs Hsel Ht Hi. unfold link_tab. set (i := match attr with Some i => i | None => _ end).
  set (s1 := set_scopes _ s).
  assert (Hne : forall e, e ∈ tabs s -> scopes s1 !! tab e = scopes s !! tab e).
  { intros e He. cbn. rewrite lookup_insert_ne; [done|]. intros ->. apply Ht, list_elem_of_fmap. by exists e. }
  apply (add_spec t s1 (Scope i false false)).
  - destruct Hs as [H1 H2 H3]. constructor; try done. intros e He. rewrite Hne by done. by apply H3.
  - destruct Hsel as [[H1 H2 H3] H4 H5]. constructor; [|done|done]. constructor; [|done|done].
    intros e He. unfold flagged. rewrite Hne by done. by apply H1.
  - cbn. by rewrite lookup_insert_eq.
  - done.
  - done.
  - cbn. destruct attr as [j|]; [by apply Hi|]. intros (e & E & He)%list_elem_of_fmap.
    apply next_index_above in He. subst i. lia.
Qed.

Lemma sublist_well_formed s l : well_formed s -> sublist l (tabs s) -> well_formed (set_tabs l s).
Proof.
  intros [H1 H2 H3] Hl. constructor; cbn.
  - clear H2 H3. revert H1. generalize (tabs s), Hl. clear. intros k Hl. induction Hl as [|x l k Hl IH|x l k Hl IH]; intros H; [done| |].
    + apply StronglySorted_inv in H as [H Hx]. constructor; [by apply IH|].
      rewrite Forall_forall in *. intros y Hy. apply Hx. by eapply elem_of_sublist.
    + apply StronglySorted_inv in H as [H _]. by apply IH.
  - eapply sublist_NoDup; [exact H2|by apply fmap_sublist].
  - intros e He. apply H3. by eapply elem_of_sublist.
Qed.

(** The neighbour that is selected when a tab goes. *)
Definition neighbour (l1 l2 : list entry) : option entry := match head l2 with Some e => Some e | None => last l1 end.

(** Taking a tab that is not selected out of the list. *)
Lemma drop_spec s l1 e l2 :
  well_formed s -> selection s -> tabs s = l1 ++ e :: l2 -> oldIndex s <> Some (index e) ->
  well_formed (set_tabs (l1 ++ l2) s) /\ selection (set_tabs (l1 ++ l2) s).
Proof.
  intros Hs [[H1 H2 H3] H4 H5] Ht Ho.
  assert (Hin : forall x, x ∈ l1 ++ l2 -> x ∈ tabs s) by (intros x; rewrite Ht, !elem_of_app, elem_of_cons; tauto).
  split; [apply sublist_well_formed; [done|rewrite Ht; apply sublist_app; [done|by apply sublist_cons]]|].
  constructor; [constructor| |]; cbn; try done.
  - intros x Hx. by apply H1, Hin.
  - intros i E. destruct (H2 i E) as (x & Hx & Hi). exists x. split; [|done].
    rewrite Ht in Hx. apply elem_of_app in Hx as [Hx|[->|Hx]%elem_of_cons]; [apply elem_of_app; by left|congruence|apply elem_of_app; by right].
  - intros E x Hx. by apply H5, Hin.
Qed.

(** The position of the neighbour. *)
Lemma neighbour_position (l1 l2 : list entry) e :
  let i := length l1 in let n := length (l1 ++ e :: l2) in
  (if (S i =? n)%nat then match i with O => None | S i => Some i end else Some (i + 1 mod n)%nat)
    ≫= (fun p => (l1 ++ e :: l2) !! p) = neighbour l1 l2.
Proof.
  intros i n. subst i n. rewrite length_app. cbn [length]. unfold neighbour. destruct l2 as [|x l2]; cbn [length head].
  - rewrite (proj2 (Nat.eqb_eq _ _)) by lia. destruct l1 as [|y l1 _] using rev_ind; [done|].
    rewrite length_app, Nat.add_comm. cbn. rewrite last_snoc, <- app_assoc, lookup_app_r, Nat.sub_diag by lia. done.
  - rewrite (proj2 (Nat.eqb_neq _ _)) by lia. rewrite Nat.mod_small by lia. cbn [mbind option_bind].
    rewrite lookup_app_r by lia. by replace (length l1 + 1 - length l1)%nat with 1%nat by lia.
Qed.

Definition select_calls (o : option entry) : list call := match o with Some e => [OnSelect (tab e)] | None => [] end.

Lemma remove_spec s l1 e l2 :
  well_formed s -> selection s -> tabs s = l1 ++ e :: l2 ->
  let s' := removeTab (tab e) s in
  well_formed s' /\ selection s' /\ tabs s' = l1 ++ l2 /\
  if bool_decide (oldIndex s = Some (index e))
  then oldIndex s' = index <$> neighbour l1 l2 /\ calls s' = calls s ++ deselect_calls s ++ select_calls (neighbour l1 l2)
  else s' = set_tabs (l1 ++ l2) s.
Proof.
  intros Hs Hsel Ht s'. subst s'. assert (He : e ∈ tabs s) by (rewrite Ht, elem_of_app, elem_of_cons; auto).
  destruct (wf_live s Hs e He) as (sc & Hsc & Hi). unfold removeTab. rewrite Hsc, Hi.
  assert (Hp : tabs s !! length l1 = Some e) by (by rewrite Ht, list_lookup_middle).
  rewrite (find_index s e _ Hs Hp). set (P := _ ≫= _).
  assert (Hcut : forall s1, tabs s1 = tabs s -> set_tabs (splice_at (Some (length l1)) (tabs s1)) s1 = set_tabs (l1 ++ l2) s1).
  { intros s1 E. unfold splice_at. cbn. by rewrite E, Ht, delete_middle. }
  destruct (decide (oldIndex s = Some (index e))) as [Ho|Ho].
  - rewrite (bool_decide_true (oldIndex s = _)), (bool_decide_true (active s = _)) by (done || by apply (sel_some s Hsel)).
    assert (HP : P ≫= (fun p => tabs s !! p) = neighbour l1 l2).
    { subst P. rewrite Ht. cbn [mbind option_bind]. apply neighbour_position. }
    destruct (neighbour l1 l2) as [e2|] eqn:Hn.
    + destruct P as [p|]; [|done]. cbn [mbind option_bind] in HP.
      destruct (select_some s p e2 Hs (sel_marked s Hsel) HP) as (Hw & Hse & Hts & Hos & Hcs).
      rewrite (Hcut _ Hts). assert (Hne : oldIndex (select (Some p) s) <> Some (index e)).
      { rewrite Hos. intros [= E]. pose proof HP as Hin%list_elem_of_lookup_2. apply (same_index s) in E as ->; [|done..].
        pose proof (sorted_lookup _ _ _ _ _ (wf_sorted s Hs) HP Hp eq_refl) as ->.
        revert Hn. unfold neighbour. pose proof (wf_tabs s Hs) as Hnd. rewrite Ht, fmap_app in Hnd. cbn in Hnd.
        apply NoDup_app in Hnd as (_ & Hd & [Hd2 _]%NoDup_cons).
        destruct l2 as [|x l2]; cbn.
        - intros Hl. apply last_Some_elem_of in Hl. apply (Hd (tab e)); [by apply list_elem_of_fmap_2|by left].
        - intros [= ->]. apply Hd2. by left. }
      destruct (drop_spec _ l1 e l2 Hw Hse (eq_trans Hts Ht) Hne) as [? ?]. do 4 (split; [done|]). exact Hcs.
    + destruct (select_none s P Hs (sel_marked s Hsel) HP) as (Hw & Hts & Hos & _ & Hds & _ & Hcs).
      rewrite (Hcut _ Hts). assert (E : l1 = [] /\ l2 = []).
      { revert Hn. unfold neighbour. destruct l2; [|done]. cbn. intros ->%last_None. done. }
      assert (Ho' : forall i, oldIndex (set_tabs (l1 ++ l2) (select P s)) <> Some i) by (intros i; change (oldIndex (select P s) <> Some i); by rewrite Hos).
      destruct E as [-> ->]. split; [|split; [|split; [done|split; [exact Hos|cbn; by rewrite app_nil_r]]]].
      * apply sublist_well_formed; [done|apply sublist_nil_l].
      * constructor; [constructor| |]; [|by intros i ?%Ho'|exact Hds|by intros i ?%Ho'|]; intros; by set_solver.
  - rewrite (bool_decide_false (oldIndex s = _)) by done. rewrite (bool_decide_false (active s = _)).
    + rewrite (Hcut s eq_refl). destruct (drop_spec s l1 e l2 Hs Hsel Ht Ho) as [? ?]. do 3 (split; [done|]). done.
    + intros Ha. destruct (oldIndex s) as [i|] eqn:E; [|by apply (sel_none s Hsel E e He)].
      pose proof (sel_some s Hsel i E). congruence.
Qed.

Lemma position_of_tab k t l : t ∈ tab <$> l -> exists q e, position_of k t l = Some (k + q)%nat /\ l !! q = Some e /\ tab e = t.
Proof.
  revert k. induction l as [|x l IH]; intros k H; [by apply not_elem_of_nil in H|]. cbn in *.
  destruct (Nat.eqb_spec (tab x) t) as [E|Hne]; [exists 0%nat, x; split; [f_equal; lia|done]|].
  apply elem_of_cons in H as [H|H]; [by destruct Hne|]. destruct (IH (S k) H) as (q & e & -> & Hq & E).
  exists (S q), e. split; [f_equal; lia|done].
Qed.

Lemma click_spec s e :
  well_formed s -> selection s -> e ∈ tabs s ->
  (exists sc, scopes s !! tab e = Some sc /\ s_disabled sc = false) ->
  let s' := click (tab e) s in
  well_formed s' /\ selection s' /\ tabs s' = tabs s /\ oldIndex s' = Some (index e) /\
  calls s' = calls s ++ deselect_calls s ++ [OnSelect (tab e)].
Proof.
  intros Hs Hsel He (sc & Hsc & Hd). unfold click. rewrite Hsc, Hd.
  destruct (position_of_tab 0 (tab e) (tabs s)) as (q & e' & -> & Hq & E); [apply list_elem_of_fmap; by exists e|].
  pose proof Hq as He'%list_elem_of_lookup_2. apply (same_tab s) in E as ->; [|done..].
  apply select_some; [done|apply Hsel|done].
Qed.

Lemma set_active_spec s v :
  well_formed s -> selection s ->
  let s' := active_listener (Some v) (set_active (Some v) s) in
  well_formed s' /\ selection s' /\ tabs s' = tabs s.
Proof.
  intros Hs Hsel. cbn. set (s1 := set_active (Some v) s).
  assert (Hw : well_formed s1) by (destruct Hs; by constructor).
  assert (Hm : marked s1) by (destruct (sel_marked s Hsel); by constructor).
  case_bool_decide as Ho; cbn.
  - split; [done|]. split; [|done]. constructor; cbn in *; [done| |]; rewrite Ho; [by intros i [= <-]|done].
  - destruct (find_from 0 v (tabs s)) as [p|] eqn:Hf.
    + apply find_from_some in Hf as (q & e & -> & Hq & <-).
      destruct (select_some s1 q e Hw Hm Hq) as (? & ? & ? & _). done.
    + pose proof (find_from_none _ _ _ Hf) as Hn.
      destruct (select_none s1 None Hw Hm eq_refl) as (H1 & H2 & H3 & H4 & H5 & H6 & _).
      split; [done|]. split; [|done]. constructor; [constructor| |].
      * intros e He. rewrite H2 in He. rewrite H4 by done. by rewrite H3.
      * by rewrite H3.
      * done.
      * by rewrite H3.
      * intros _ e He. rewrite H2 in He. rewrite H6. cbn. destruct (oldIndex s); [done|]. intros [= ->]. by apply (Hn e).
Qed.

Lemma disable_spec s t b : well_formed s -> selection s -> well_formed (step (Disable t b) s) /\ selection (step (Disable t b) s).
Proof.
  intros Hs Hsel. cbn [step].
  assert (Hl : forall t', exists f, (forall sc, s_index (f sc) = s_index sc /\ s_active (f sc) = s_active sc) /\
    alter (fun sc => Scope (s_index sc) (s_active sc) b) t (scopes s) !! t' = f <$> scopes s !! t').
  { intros t'. destruct (decide (t = t')) as [->|Hne]; [rewrite lookup_alter_eq; by exists (fun sc => Scope (s_index sc) (s_active sc) b)|].
    rewrite lookup_alter_ne by done. exists id. split; [done|]. by rewrite option_fmap_id. }
  split.
  - destruct Hs as [H1 H2 H3]. constructor; try done. intros e He. destruct (H3 e He) as (sc & E & Hi).
    destruct (Hl (tab e)) as (f & Hf & E'). exists (f sc). cbn. rewrite E', E. split; [done|]. by rewrite (proj1 (Hf sc)).
  - destruct Hsel as [[H1 H2 H3] H4 H5]. constructor; [|done|done]. constructor; [|done|done].
    intros e He. etransitivity; [|exact (H1 e He)]. unfold flagged. cbn. destruct (Hl (tab e)) as (f & Hf & ->).
    destruct (scopes s !! tab e) as [sc|]; [|done]. apply Hf.
Qed.

(** *** Every history *)

(** What a page does with tabs: it adds them with distinct indices, uses those
    there are, and changes [active] to a number; the indices stay. *)
Definition allowed (e : event) (s : tabset) : Prop :=
  match e with
  | Link t attr => (t ∉ (tab <$> tabs s)) /\ (forall i, attr = Some i -> i ∉ (index <$> tabs s))
  | Remove t | Click t => t ∈ (tab <$> tabs s)
  | SetActive v => is_Some v
  | Disable _ _ => True
  | SetIndex _ _ | Destroy => False
  end.

Inductive reachable (bound : option Z) : tabset -> Prop :=
| reach_start : reachable bound (start bound)
| reach_step e s : reachable bound s -> allowed e s -> reachable bound (step e s).

Lemma reachable_ok bound s : reachable bound s -> well_formed s /\ selection s.
Proof.
  induction 1 as [|e s Hr [Hs Hsel] Ha].
  - split; constructor; cbn; try constructor; intros; set_solver.
  - destruct e as [t attr|t|t|v|t i|t b|]; cbn [step allowed] in *; try done.
    + destruct Ha. by apply link_spec.
    + apply list_elem_of_fmap in Ha as (e & -> & (l1 & l2 & E)%list_elem_of_split).
      by destruct (remove_spec s l1 e l2 Hs Hsel E) as (? & ? & _).
    + apply list_elem_of_fmap in Ha as (e & -> & He). destruct (wf_live s Hs e He) as (sc & Hsc & _).
      destruct (s_disabled sc) eqn:Hd.
      * unfold click. by rewrite Hsc, Hd.
      * destruct (click_spec s e Hs Hsel He) as (? & ? & _); [by exists sc|done].
    + destruct Ha as [v' ->]. by destruct (set_active_spec s v' Hs Hsel) as (? & ? & _).
    + by apply disable_spec.
Qed.

(** C34: take a set of tabs whose indices, integers, stay and whose callbacks leave the set alone, and a page that adds tabs not yet there
    with indices not yet taken (or without, when the next is chosen), removes and clicks those there are, disables
    them, and sets [active] to numbers only, as long as the set is not destroyed.  Then, after
    anything of this, one tab at most has the active
    flag: the one whose index the controller holds, in [active] and in its record of the
    last; when it holds none, no tab has the flag nor the index the page asked for.
    The list stays in the order of the indices.  A click on a tab that is not disabled
    makes it that tab, the tab left being told before the tab chosen.  When the active tab is removed,
    the next tab replaces it, or the one before it when it was the last, both told in that order;
    when another is removed, it leaves the list and nothing else changes. *)
Theorem tabs_exact bound (s : tabset) (Hr : reachable bound s) :
  StronglySorted (fun a b => index a < index b) (tabs s) /\ selection s /\
  (forall e sc, e ∈ tabs s -> scopes s !! tab e = Some sc -> s_disabled sc = false ->
    let s' := step (Click (tab e)) s in
    active s' = Some (index e) /\ oldIndex s' = Some (index e) /\ tabs s' = tabs s /\
    (forall e', e' ∈ tabs s -> flagged s' (tab e') = bool_decide (e' = e)) /\
    calls s' = calls s ++ deselect_calls s ++ [OnSelect (tab e)]) /\
  (forall l1 e l2, tabs s = l1 ++ e :: l2 ->
    let s' := step (Remove (tab e)) s in
    tabs s' = l1 ++ l2 /\
    if bool_decide (oldIndex s = Some (index e))
    then oldIndex s' = index <$> neighbour l1 l2 /\ calls s' = calls s ++ deselect_calls s ++ select_calls (neighbour l1 l2)
    else s' = set_tabs (l1 ++ l2) s).
Proof.
  apply reachable_ok in Hr as [Hs Hsel]. split; [apply Hs|]. split; [done|]. split.
  - intros e sc He Hsc Hd s'. destruct (click_spec s e Hs Hsel He) as (Hw & Hse & Ht & Ho & Hc); [by exists sc|].
    split; [by apply (sel_some _ Hse)|]. do 2 (split; [done|]). split; [|done].
    intros e' He'. subst s'. cbn [step]. rewrite (sel_flags _ (sel_marked _ Hse)) by (by rewrite Ht). rewrite Ho.
    apply bool_decide_ext. split; [intros [= E]; by apply (same_index s)|by intros ->].
  - intros l1 e l2 E. by destruct (remove_spec s l1 e l2 Hs Hsel E) as (_ & _ & ? & ?).
Qed.

Definition demo : tabset := exec [Link 1 None; Link 2 None; Link 3 None; Click 2] (start None).

Lemma demo_reachable : reachable None demo.
Proof.
  unfold demo, exec, fold_left. repeat (apply reach_step; [|cbn [allowed]; first [split; [|done]|idtac]; apply (bool_decide_eq_true_1 _); vm_compute; reflexivity]).
  apply reach_start.
Defined.

Lemma tabs_exact_witness :
  calls demo = [OnSelect 1; OnDeselect 1; OnSelect 2] /\ oldIndex (step (Remove 2) demo) = Some 2.
Proof.
  split; [vm_compute; reflexivity|].
  exact (proj1 (proj2 (proj2 (proj2 (proj2 (tabs_exact None demo demo_reachable))) [Entry 1 0] (Entry 2 1) [Entry 3 2] eq_refl))).
Defined.

(** A tab whose bound index changes is no longer found by it: removing it takes the
    first tab of the list away, which stays flagged. *)
Example index_change_removes_other :
  tab <$> tabs (exec [Link 1 None; Link 2 None; SetIndex 2 7; Remove 2] (start None)) = [2]%nat.
Proof. reflexivity. Qed.

(** Setting [active] to nothing leaves the flag where it was. *)
Example nothing_active_still_flagged :
  let s := exec [Link 1 None; SetActive None] (start None) in active s = None /\ flagged s 1 = true.
Proof. by split. Qed.

End Tabs.

(** ** Accordions *)

Module Accordion.

(** The scope of a group: [isOpen] and what the watch last saw of it, whether it
    is disabled, and whether its element has the class of an open group. *)
Record group := Group { isOpen : jsval; seen : option jsval; isDisabled : bool; openClass : bool }.

#[global] Instance group_eq_dec : EqDecision group.
Proof. solve_decision. Defined.

(** The controller's groups, in the order they were added. *)
Record accordion := Acc { groups : list nat; scopes : gmap nat group }.

Definition set_open (v : jsval) (g : group) : group := Group v (seen g) (isDisabled g) (openClass g).

(** ui-bootstrap.js 125-129 *)
Definition close_all_but (open_ : nat) (l : list nat) (m : gmap nat group) : gmap nat group :=
  fold_left (fun m x => if (x =? open_)%nat then m else alter (set_open (JBool false)) x m) l m.

(** ui-bootstrap.js 121-131; [closeOthers] is the attribute's value, or the
    default. *)
Definition closeOthers (closeOthers_ : bool) (open_ : nat) (a : accordion) : accordion :=
  if closeOthers_ then Acc (groups a) (close_all_but open_ (groups a) (scopes a)) else a.

(** ui-bootstrap.js 134-141, with the scope the group is linked with. *)
Definition addGroup (x : nat) (v : jsval) (a : accordion) : accordion :=
  Acc (groups a ++ [x]) (<[x := Group v None false false]> (scopes a)).

Fixpoint splice_first (x : nat) (l : list nat) : list nat :=
  match l with
  | [] => []
  | y :: l => if (y =? x)%nat then l else y :: splice_first x l
  end.

(** ui-bootstrap.js 144-149: when the scope is destroyed, its watch goes too. *)
Definition removeGroup (x : nat) (a : accordion) : accordion := Acc (splice_first x (groups a)) (delete x (scopes a)).

(** ui-bootstrap.js 196-202; [key] is the key pressed, if any. *)
Definition toggleOpen (x : nat) (key : option Z) (a : accordion) : accordion :=
  Acc (groups a) (alter (fun g =>
    if isDisabled g then g
    else match key with
         | None | Some 32 => set_open (JBool (negb (truthy (isOpen g)))) g
         | Some _ => g
         end) x (scopes a)).

(** ui-bootstrap.js 189-194: the watch of one group, and whether it was dirty. *)
Definition visit (closeOthers_ : bool) (x : nat) (a : accordion) : accordion * bool :=
  match scopes a !! x with
  | None => (a, false)
  | Some g =>
      if bool_decide (seen g = Some (isOpen g)) then (a, false)
      else
        let a := Acc (groups a) (<[x := Group (isOpen g) (Some (isOpen g)) (isDisabled g) (truthy (isOpen g))]> (scopes a)) in
        (if truthy (isOpen g) then closeOthers closeOthers_ x a else a, true)
  end.

(** A pass of the digest over the groups' watches, in the order of the scopes. *)
Fixpoint pass (closeOthers_ : bool) (l : list nat) (a : accordion) : accordion * bool :=
  match l with
  | [] => (a, false)
  | x :: l =>
      let '(a, d) := visit closeOthers_ x a in
      let '(a, d') := pass closeOthers_ l a in
      (a, d || d')
  end.

(** The digest: passes until one is clean, ten dirty ones at most. *)
Fixpoint digest (ttl : nat) (closeOthers_ : bool) (a : accordion) : option accordion :=
  let '(a', d) := pass closeOthers_ (groups a) a in
  if d then match ttl with O => None | S ttl => digest ttl closeOthers_ a' end else Some a'.

(** *** One digest *)

(** The watch of a group has seen it; the class follows what it saw. *)
Definition settle (g : group) : group := Group (isOpen g) (Some (isOpen g)) (isDisabled g) (truthy (isOpen g)).

Definition class_follows (m : gmap nat group) : Prop :=
  forall x g v, m !! x = Some g -> seen g = Some v -> openClass g = truthy v.

(** A group that was opened since its watch last looked. *)
Definition opening (g : group) : bool := negb (bool_decide (seen g = Some (isOpen g))) && truthy (isOpen g).

Definition quiet (m : gmap nat group) (l : list nat) : Prop := forall x g, x ∈ l -> m !! x = Some g -> opening g = false.

Definition settle_all (l : list nat) (m : gmap nat group) : gmap nat group := fold_left (fun m x => alter settle x m) l m.

Lemma settle_all_lookup l m x :
  settle_all l m !! x = if bool_decide (x ∈ l) then settle <$> m !! x else m !! x.
Proof.
  revert m. induction l as [|y l IH]; intros m; [done|]. cbn. fold (settle_all l (alter settle y m)). rewrite IH.
  destruct (decide (y = x)) as [->|Hne].
  - rewrite lookup_alter_eq, (bool_decide_true (x ∈ x :: l)) by (by left). case_bool_decide; [|done]. by destruct (m !! x).
  - rewrite lookup_alter_ne by done. rewrite (bool_decide_ext (x ∈ y :: l) (x ∈ l)); [done|]. rewrite elem_of_cons. naive_solver.
Qed.

Lemma close_lookup k l m x :
  close_all_but k l m !! x = if bool_decide (x ∈ l /\ x <> k) then set_open (JBool false) <$> m !! x else m !! x.
Proof.
  revert m. induction l as [|y l IH]; intros m; [done|]. cbn. fold (close_all_but k l (if (y =? k)%nat then m else alter (set_open (JBool false)) y m)).
  rewrite IH. destruct (Nat.eqb_spec y k) as [->|Hk].
  - rewrite (bool_decide_ext (x ∈ k :: l /\ x <> k) (x ∈ l /\ x <> k)); [done|]. rewrite elem_of_cons. naive_solver.
  - destruct (decide (y = x)) as [->|Hne].
    + rewrite lookup_alter_eq, (bool_decide_true (x ∈ x :: l /\ _)) by (split; [by left|done]).
      case_bool_decide; [|done]. by destruct (m !! x).
    + rewrite lookup_alter_ne by done. rewrite (bool_decide_ext (x ∈ y :: l /\ x <> k) (x ∈ l /\ x <> k)); [done|].
      rewrite elem_of_cons. naive_solver.
Qed.

Lemma class_settle_all l m : class_follows m -> class_follows (settle_all l m).
Proof.
  intros H x g v. rewrite settle_all_lookup. case_bool_decide; [|apply H].
  destruct (m !! x) as [g'|]; [|done]. cbn. intros [= <-] [= <-]. done.
Qed.

Lemma settle_seen g : (forall v, seen g = Some v -> openClass g = truthy v) -> seen g = Some (isOpen g) -> settle g = g.
Proof. intros H E. unfold settle. rewrite <- (H _ E), <- E. by destruct g. Qed.

(** A visit that closes nothing. *)
Lemma visit_quiet c x a :
  class_follows (scopes a) -> c = false \/ quiet (scopes a) [x] ->
  exists d, visit c x a = (Acc (groups a) (alter settle x (scopes a)), d) /\ (d = false -> alter settle x (scopes a) = scopes a).
Proof.
  intros Hcl Hq. unfold visit. destruct (scopes a !! x) as [g|] eqn:E.
  - assert (Ha : alter settle x (scopes a) = <[x := settle g]> (scopes a)) by (by apply alter_alt_Some).
    case_bool_decide as Hs.
    + exists false. assert (Hsame : alter settle x (scopes a) = scopes a).
      { apply alter_id. intros g' E'. rewrite E in E'. injection E' as <-. apply settle_seen; [intros v; by apply (Hcl x)|done]. }
      rewrite Hsame. by destruct a.
    + exists true. split; [|done]. rewrite Ha. unfold closeOthers, settle. destruct (truthy (isOpen g)) eqn:Ht; [|done].
      destruct Hq as [->|Hq]; [done|]. specialize (Hq x g ltac:(by left) E). unfold opening in Hq.
      rewrite Ht, (bool_decide_false _ Hs) in Hq. done.
  - exists false. assert (Hsame : alter settle x (scopes a) = scopes a) by (apply alter_id; by rewrite E).
    rewrite Hsame. by destruct a.
Qed.

Lemma group_quiet g : opening (settle g) = false.
Proof. unfold opening, settle. cbn. by rewrite bool_decide_true. Qed.

Lemma quiet_settle_all l k m : quiet m l -> quiet (settle_all k m) l.
Proof.
  intros Hq x g Hx. rewrite settle_all_lookup. case_bool_decide; [|by apply Hq].
  destruct (m !! x) as [g'|]; [|done]. intros [= <-]. apply group_quiet.
Qed.

(** A pass that closes nothing settles its groups, and is clean when it changes
    nothing. *)
Lemma pass_quiet c l a :
  class_follows (scopes a) -> c = false \/ quiet (scopes a) l ->
  exists d, pass c l a = (Acc (groups a) (settle_all l (scopes a)), d) /\ (d = false -> settle_all l (scopes a) = scopes a).
Proof.
  revert a. induction l as [|x l IH]; intros a Hcl Hq; [exists false; by destruct a|].
  destruct (visit_quiet c x a Hcl) as (d & Hv & Hd).
  { destruct Hq as [->|Hq]; [by left|right]. intros y g ->%list_elem_of_singleton. apply Hq. by left. }
  destruct (IH (Acc (groups a) (alter settle x (scopes a)))) as (d' & Hp & Hd').
  - apply (class_settle_all [x]); done.
  - destruct Hq as [->|Hq]; [by left|right]. apply (quiet_settle_all l [x]). intros y g Hy. apply Hq. by right.
  - exists (d || d'). cbn [pass]. rewrite Hv, Hp. split; [done|].
    intros [-> ->]%orb_false_iff. cbn. rewrite <- (Hd eq_refl) at 2. by apply Hd'.
Qed.

Lemma settle_all_settled l m : class_follows m -> settle_all l (settle_all l m) = settle_all l m.
Proof.
  intros H. apply map_eq. intros x. rewrite !settle_all_lookup. case_bool_decide; [|done]. by destruct (m !! x).
Qed.

(** A clean pass finds nothing to do. *)
Lemma pass_settled c l a :
  (forall x g, x ∈ l -> scopes a !! x = Some g -> seen g = Some (isOpen g)) -> pass c l a = (a, false).
Proof.
  intros H. induction l as [|x l IH]; [done|]. cbn. unfold visit. destruct (scopes a !! x) as [g|] eqn:E.
  - rewrite bool_decide_true by (apply (H x); [by left|done]). rewrite IH; [done|]. intros y g' Hy. apply H. by right.
  - rewrite IH; [done|]. intros y g' Hy. apply H. by right.
Qed.

Lemma digest_quiet c n a :
  class_follows (scopes a) -> c = false \/ quiet (scopes a) (groups a) ->
  digest (S n) c a = Some (Acc (groups a) (settle_all (groups a) (scopes a))).
Proof.
  intros Hcl Hq. destruct (pass_quiet c (groups a) a Hcl Hq) as (d & Hp & Hd). cbn [digest]. rewrite Hp.
  destruct d; [|done]. assert (H : pass c (groups a) (Acc (groups a) (settle_all (groups a) (scopes a))) =
    (Acc (groups a) (settle_all (groups a) (scopes a)), false)).
  { apply pass_settled. intros x g Hx. cbn. rewrite settle_all_lookup, bool_decide_true by done.
    destruct (scopes a !! x); [|done]. by intros [= <-]. }
  destruct n; cbn [digest groups]; by rewrite H.
Qed.

(** What [find] finds is the first. *)
Lemma find_split {A} (f : A -> bool) l x :
  find f l = Some x -> exists l1 l2, l = l1 ++ x :: l2 /\ Forall (fun y => f y = false) l1 /\ f x = true.
Proof.
  induction l as [|y l IH]; [done|]. cbn. destruct (f y) eqn:E.
  - intros [= ->]. by exists [], l.
  - intros H. destruct (IH H) as (l1 & l2 & -> & Hl & Hx). exists (y :: l1), l2. split; [done|]. split; [by constructor|done].
Qed.

(** A pass in which a group is opened: the first such one closes the others. *)
Lemma pass_concat c l1 l2 a :
  pass c (l1 ++ l2) a = let '(a, d) := pass c l1 a in let '(a, d') := pass c l2 a in (a, d || d').
Proof.
  revert a. induction l1 as [|x l1 IH]; intros a; cbn.
  - by destruct (pass c l2 a).
  - destruct (visit c x a) as [a1 d1]. rewrite IH. destruct (pass c l1 a1) as [a2 d2]. destruct (pass c l2 a2). by rewrite orb_assoc.
Qed.

Lemma class_close k l m : class_follows m -> class_follows (close_all_but k l m).
Proof.
  intros H x g v. rewrite close_lookup. case_bool_decide; [|apply H].
  destruct (m !! x) as [g'|] eqn:E; [|done]. cbn. intros [= <-]. exact (H x g' v E).
Qed.

Lemma closed_quiet g : opening (set_open (JBool false) g) = false.
Proof. unfold opening. cbn. apply andb_false_r. Qed.

Lemma pass_opening l1 k l2 a g :
  class_follows (scopes a) -> groups a = l1 ++ k :: l2 -> quiet (scopes a) l1 -> scopes a !! k = Some g -> opening g = true ->
  exists m, pass true (l1 ++ k :: l2) a = (Acc (groups a) m, true) /\ class_follows m /\ quiet m (groups a) /\
    forall x, settle <$> m !! x =
      if decide (x = k) then Some (settle g)
      else if bool_decide (x ∈ groups a) then (fun g => settle (set_open (JBool false) g)) <$> scopes a !! x
      else settle <$> scopes a !! x.
Proof.
  intros Hcl Hl Hq Hk Hop. rewrite pass_concat.
  destruct (pass_quiet true l1 a Hcl (or_intror Hq)) as (d1 & -> & _).
  assert (Hk1 : k ∉ l1) by (intros Hin; by rewrite (Hq k g Hin Hk) in Hop).
  set (m1 := settle_all l1 (scopes a)). assert (E1 : m1 !! k = Some g) by (unfold m1; by rewrite settle_all_lookup, bool_decide_false).
  cbn [pass]. unfold visit at 1. cbn [scopes groups]. rewrite E1. unfold opening in Hop. apply andb_true_iff in Hop as [Hs Ht].
  apply negb_true_iff in Hs. rewrite Hs, Ht. cbn [closeOthers groups scopes].
  set (g' := Group _ _ _ _). assert (Hg' : g' = settle g) by (unfold settle; by rewrite Ht).
  set (m2 := close_all_but k (groups a) (<[k := g']> m1)).
  assert (Hm2 : forall x, m2 !! x = if decide (x = k) then Some (settle g)
      else if bool_decide (x ∈ groups a) then set_open (JBool false) <$> m1 !! x else m1 !! x).
  { intros x. unfold m2. rewrite close_lookup. destruct (decide (x = k)) as [->|Hne].
    - rewrite bool_decide_false by tauto. by rewrite lookup_insert_eq, Hg'.
    - rewrite lookup_insert_ne by done. by rewrite (bool_decide_ext (x ∈ groups a /\ x <> k) (x ∈ groups a)) by tauto. }
  assert (Hc2 : class_follows m2).
  { apply class_close. intros x h v. destruct (decide (k = x)) as [->|Hne].
    - rewrite lookup_insert_eq, Hg'. intros [= <-] [= <-]. done.
    - rewrite lookup_insert_ne by done. by apply class_settle_all. }
  assert (Hq2 : quiet m2 (groups a)).
  { intros x h Hx. rewrite Hm2, (bool_decide_true (x ∈ groups a)) by done. destruct (decide (x = k)); [intros [= <-]; apply group_quiet|].
    destruct (m1 !! x); [|done]. intros [= <-]. apply closed_quiet. }
  destruct (pass_quiet true l2 (Acc (groups a) m2) Hc2) as (d2 & -> & _).
  { right. intros x h Hx. apply Hq2. rewrite Hl. apply elem_of_app. right. by right. }
  cbn [groups scopes]. exists (settle_all l2 m2). rewrite orb_true_r. split; [done|]. split; [by apply class_settle_all|].
  split; [by apply quiet_settle_all|]. intros x.
  assert (Hs2 : settle <$> settle_all l2 m2 !! x = settle <$> m2 !! x).
  { rewrite settle_all_lookup. destruct (bool_decide (x ∈ l2)); [by destruct (m2 !! x)|done]. }
  rewrite Hs2, Hm2. destruct (decide (x = k)); [done|]. unfold m1. rewrite settle_all_lookup.
  destruct (bool_decide (x ∈ groups a)) eqn:Hx, (bool_decide (x ∈ l1)) eqn:Hx1; by destruct (scopes a !! x).
Qed.

(** The group a digest leaves open: the first opened of the list. *)
Definition first_opening (a : accordion) : option nat :=
  find (fun x => match scopes a !! x with Some g => opening g | None => false end) (groups a).

(** One digest after the page changed the groups as it liked, two dirty passes
    at most being needed: with [closeOthers], if groups were opened the first of
    them, in the order of the groups, is the one open at the end and all the others are closed;
    if none was, or without [closeOthers], the groups are open as the page left them.
    The class of each element follows. *)
Theorem accordion_exact (close : bool) (a : accordion) n (Hcl : class_follows (scopes a)) :
  exists a', digest (S (S n)) close a = Some a' /\ groups a' = groups a /\
  forall x g, x ∈ groups a -> scopes a !! x = Some g ->
    scopes a' !! x = Some (match (if close then first_opening a else None) with
                           | Some k => if decide (x = k) then settle g else settle (set_open (JBool false) g)
                           | None => settle g
                           end).
Proof.
  assert (Hquiet : close = false \/ quiet (scopes a) (groups a) -> (if close then first_opening a else None) = None ->
    exists a', digest (S (S n)) close a = Some a' /\ groups a' = groups a /\
      forall x g, x ∈ groups a -> scopes a !! x = Some g -> scopes a' !! x = Some (settle g)).
  { intros Hq _. rewrite (digest_quiet close (S n) a Hcl Hq). eexists. split; [reflexivity|]. split; [done|].
    intros x g Hx E. cbn. by rewrite settle_all_lookup, bool_decide_true, E. }
  destruct (if close then first_opening a else None) as [k|] eqn:Hf.
  - destruct close; [|done]. unfold first_opening in Hf. clear Hquiet.
    apply find_split in Hf as (l1 & l2 & Hl & Hq & Hk). destruct (scopes a !! k) as [g|] eqn:Hg; [|done].
    destruct (pass_opening l1 k l2 a g Hcl Hl) as (m & Hp & Hm & Hqm & Hx); [|done|done|].
    { intros x h Hin E. rewrite Forall_forall in Hq. specialize (Hq x Hin). by rewrite E in Hq. }
    change (digest (S (S n)) true a) with (let '(a', d) := pass true (groups a) a in if d then digest (S n) true a' else Some a').
    rewrite <- Hl in Hp. rewrite Hp. rewrite (digest_quiet true n (Acc (groups a) m) Hm) by (by right). eexists. split; [reflexivity|]. split; [done|].
    intros x h Hin E. cbn [scopes groups]. rewrite settle_all_lookup, bool_decide_true, Hx by done.
    destruct (decide (x = k)) as [->|]; [congruence|]. by rewrite bool_decide_true, E.
  - apply Hquiet; [|done]. destruct close; [right|by left]. unfold first_opening in Hf. intros x g Hin E.
    pose proof (find_none _ _ Hf x) as H. rewrite <- list_elem_of_In in H. specialize (H Hin). cbn in H. by rewrite E in H.
Qed.

Lemma accordion_exact_witness :
  let a := Acc [1; 2; 3]%nat (<[1%nat := Group (JBool true) (Some (JBool true)) false true]>
             (<[2%nat := Group (JBool true) None false false]> (<[3%nat := Group (JBool true) None false false]> ∅))) in
  exists a', digest 10 true a = Some a' /\
    scopes a' !! 1%nat = Some (Group (JBool false) (Some (JBool false)) false false) /\
    scopes a' !! 2%nat = Some (Group (JBool true) (Some (JBool true)) false true).
Proof.
  intros a. assert (Hc : class_follows (scopes a)).
  { intros x g v. unfold a. cbn [scopes]. rewrite !lookup_insert_Some, lookup_empty.
    intros [[_ <-]|[_ [[_ <-]|[_ [[_ <-]|[_ ?]]]]]]; try done; by intros [= <-]. }
  destruct (accordion_exact true a 8 Hc) as (a' & Hd & _ & Hx). exists a'. split; [exact Hd|].
  split.
  - refine (eq_trans (Hx 1%nat _ _ eq_refl) _); [by left|vm_compute; reflexivity].
  - refine (eq_trans (Hx 2%nat _ _ eq_refl) _); [by right; left|vm_compute; reflexivity].
Defined.

End Accordion.
