(* ===== verification/NgDom.v ===== *)
(** * NgDom: the data and the listeners of nodes_of

    The part of jqLite that hangs data and listeners on nodes_of (angular.js
    2218-2235, 2395-2485, 2820-2961 and 3072-3103): the expando number of an
    element, the cache of stores it leads to, the object of lists of listeners
    that a store and the handler given to the browser share, and taking all of it
    away from a subtree.

    An element is a number.  What an application's listener does is recorded and
    not run; the listeners jqLite makes itself (those of [one], and those behind
    [mouseenter] and [mouseleave]) are run. *)

From S2P Require Import Prelude Text Js.

#[local] Set Warnings "-clear-no-such-hyp,-register-all".

(** A listener: the application's, the one [one] adds in front of it (two made of
    the same types and listener do the same), and the one that calls [handle] with
    another type when the pointer comes from outside. *)
Inductive listener := User (f : nat) | OneOf (types : string) (f : nat) | Across (handle : nat) (type : string).

#[global] Instance listener_eq_dec : EqDecision listener.
Proof. solve_decision. Defined.

(** The lists by type: an object, with its keys in order. *)
Abbreviation events_object := (list (string * list listener)).

(** A store of [jqCache]: the events object, the handler, which is its object, and the
    data. *)
Record store := Store { st_events : option nat; st_handle : option nat; st_data : option (list (string * jsval)) }.

Definition empty_store : store := Store None None None.

(** What was called: a listener on an element, for an event type. *)
Record called := Called { c_elem : nat; c_type : string; c_fn : nat }.

#[global] Instance called_eq_dec : EqDecision called.
Proof. solve_decision. Defined.

(** The expando of each element, [jqCache], [jqId], the events objects, what
    the browser has been given for each element, and the calls. *)
Record dom := Dom {
  ng339 : gmap nat nat;
  jqCache : gmap nat store;
  jqId : nat;
  objects : gmap nat events_object;
  next_object : nat;
  natives : gmap nat (list (string * nat));
  log : list called
}.

Definition set_cache (m : gmap nat store) (d : dom) : dom :=
  Dom (ng339 d) m (jqId d) (objects d) (next_object d) (natives d) (log d).
Definition set_objects (m : gmap nat events_object) (d : dom) : dom :=
  Dom (ng339 d) (jqCache d) (jqId d) m (next_object d) (natives d) (log d).
Definition set_natives (m : gmap nat (list (string * nat))) (d : dom) : dom :=
  Dom (ng339 d) (jqCache d) (jqId d) (objects d) (next_object d) m (log d).
Definition set_log (l : list called) (d : dom) : dom :=
  Dom (ng339 d) (jqCache d) (jqId d) (objects d) (next_object d) (natives d) l.

(** ** Objects of lists *)

Fixpoint ev_get (t : string) (o : events_object) : option (list listener) :=
  match o with
  | [] => None
  | (t', l) :: o => if String.eqb t' t then Some l else ev_get t o
  end.

Fixpoint ev_set (t : string) (l : list listener) (o : events_object) : events_object :=
  match o with
  | [] => [(t, l)]
  | (t', l') :: o => if String.eqb t' t then (t, l) :: o else (t', l') :: ev_set t l o
  end.

Definition ev_delete (t : string) (o : events_object) : events_object :=
  List.filter (fun p => negb (String.eqb p.1 t)) o.

Definition object (i : nat) (d : dom) : events_object := default [] (objects d !! i).

(** ** Stores *)

(** angular.js 2446-2448 *)
Definition expandoStore (e : nat) (d : dom) : option store := ng339 d !! e ≫= (fun i => jqCache d !! i).

(** angular.js 2446-2459, setting: [f] changes the store. *)
Definition set_store (e : nat) (f : store -> store) (d : dom) : dom :=
  match expandoStore e d with
  | Some s => set_cache (match ng339 d !! e with Some i => <[i := f s]> (jqCache d) | None => jqCache d end) d
  | None =>
      let i := S (jqId d) in
      Dom (<[e := i]> (ng339 d)) (<[i := f empty_store]> (jqCache d)) i (objects d) (next_object d) (natives d) (log d)
  end.

(** A new object [{}]. *)
Definition new_events (d : dom) : nat * dom :=
  (next_object d, Dom (ng339 d) (jqCache d) (jqId d) (<[next_object d := []]> (objects d)) (S (next_object d)) (natives d) (log d)).

(** ** Listeners *)

(** [addEventListener]: a listener already there for the type is not added
    again. *)
Definition addEventListenerFn (e : nat) (type : string) (handle : nat) (d : dom) : dom :=
  let l := default [] (natives d !! e) in
  if bool_decide ((type, handle) ∈ l) then d else set_natives (<[e := l ++ [(type, handle)]]> (natives d)) d.

(** [removeEventListener]; [None] is a value that is not a listener, which is what
    [jqLiteOff] passes, the list of listeners or nothing. *)
Definition removeEventListenerFn (e : nat) (type : string) (handle : option nat) (d : dom) : dom :=
  match handle with
  | Some h => set_natives (alter (List.filter (fun p => negb (bool_decide (p = (type, h))))) e (natives d)) d
  | None => d
  end.

(** angular.js 2889-2893: the object and the handler of the element, made if
    they are missing. *)
Definition ensure_events (e : nat) (d : dom) : nat * dom :=
  match expandoStore e d ≫= st_events with
  | Some o => (o, d)
  | None => let '(o, d) := new_events d in (o, set_store e (fun s => Store (Some o) (st_handle s) (st_data s)) d)
  end.

Definition ensure_handle (e o : nat) (d : dom) : nat * dom :=
  match expandoStore e d ≫= st_handle with
  | Some h => (h, d)
  | None => (o, set_store e (fun s => Store (st_events s) (Some o) (st_data s)) d)
  end.

Definition ev_update (o : nat) (f : events_object -> events_object) (d : dom) : dom :=
  set_objects (alter f o (objects d)) d.

(** [eventFns.push(fn)], after the list was made. *)
Definition push (type : string) (fn : listener) (o : nat) (d : dom) : dom :=
  ev_update o (fun ev => ev_set type (default [] (ev_get type ev) ++ [fn]) ev) d.

(** angular.js 2896-2944 for a type other than the two of the pointer. *)
Definition on_plain (e o h : nat) (type : string) (fn : listener) (d : dom) : dom :=
  let d := match ev_get type (object o d) with
           | Some _ => d
           | None => ev_update o (ev_set type []) (addEventListenerFn e type h d)
           end in
  push type fn o d.

(** [eventmap] *)
Definition pointer_type (type : string) : option string :=
  if String.eqb type "mouseenter" then Some "mouseover"
  else if String.eqb type "mouseleave" then Some "mouseout"
  else None.

(** angular.js 2896-2944 *)
Definition on_type (e o h : nat) (type : string) (fn : listener) (d : dom) : dom :=
  match pointer_type type, ev_get type (object o d) with
  | Some over, None =>
      push type fn o (on_plain e o h over (Across h type) (ev_update o (ev_set type []) d))
  | _, _ => on_plain e o h type fn d
  end.

(** angular.js 2886-2946 *)
Definition onFn (e : nat) (types : string) (fn : listener) (d : dom) : dom :=
  let '(o, d) := ensure_events e d in
  let '(h, d) := ensure_handle e o d in
  fold_left (fun d type => on_type e o h type fn d) (split_char " " types) d.

(** angular.js 2402-2425; a store with a handler has an object of events. *)
Definition jqLiteOff (e : nat) (types : option string) (fn : option listener) (d : dom) : dom :=
  match expandoStore e d with
  | Some (Store (Some o) (Some _) _) =>
      match types with
      | None =>
          fold_left (fun d type => ev_update o (ev_delete type) (removeEventListenerFn e type None d))
            (map fst (object o d)) d
      | Some types =>
          fold_left (fun d type =>
            match fn with
            | None => ev_update o (ev_delete type) (removeEventListenerFn e type None d)
            | Some fn =>
                ev_update o (fun ev => match ev_get type ev with
                                       | Some l => ev_set type (array_remove fn l) ev
                                       | None => ev
                                       end) d
            end) (split_char " " types) d
      end
  | _ => d
  end.

(** angular.js 2950-2961 *)
Definition one (e : nat) (types : string) (f : nat) (d : dom) : dom :=
  onFn e types (User f) (onFn e types (OneOf types f) d).

(** A listener called on an element; [outside] is whether the pointer comes from
    outside of the element.  A listener of the pointer calls those of its type. *)
Definition call_plain (e : nat) (type : string) (fn : listener) (d : dom) : dom :=
  match fn with
  | User f => set_log (log d ++ [Called e type f]) d
  | OneOf types f => jqLiteOff e (Some types) (Some fn) (jqLiteOff e (Some types) (Some (User f)) d)
  | Across _ _ => d
  end.

(** angular.js 2852-2856: a copy of the list is gone through. *)
Definition handler_plain (e h : nat) (type : string) (d : dom) : dom :=
  fold_left (fun d fn => call_plain e type fn d) (default [] (ev_get type (object h d))) d.

Definition call (e : nat) (type : string) (outside : bool) (fn : listener) (d : dom) : dom :=
  match fn with
  | Across h type' => if outside then handler_plain e h type' d else d
  | _ => call_plain e type fn d
  end.

(** angular.js 2821-2871: what the browser calls. *)
Definition eventHandler (e h : nat) (type : string) (outside : bool) (d : dom) : dom :=
  fold_left (fun d fn => call e type outside fn d) (default [] (ev_get type (object h d))) d.

(** The browser fires an event: the handlers it has for the type, in order. *)
Definition fire (e : nat) (type : string) (outside : bool) (d : dom) : dom :=
  fold_left (fun d p => if String.eqb p.1 type then eventHandler e p.2 type outside d else d)
    (default [] (natives d !! e)) d.

(** angular.js 3072-3103 *)
Definition triggerHandler (e : nat) (type : string) (d : dom) : dom :=
  match expandoStore e d ≫= st_events with
  | Some o => fold_left (fun d fn => call e type true fn d) (default [] (ev_get type (object o d))) d
  | None => d
  end.

(** ** Data *)

(** A property read of [undefined]. *)
Inductive dom_error := NoData.

(** angular.js 2437-2440: the element's [$destroy] listeners are called, and all
    are taken away. *)
Definition remove_listeners (e : nat) (s : store) (d : dom) : dom :=
  match st_handle s with
  | Some h =>
      let d := match st_events s with
               | Some o => if bool_decide (is_Some (ev_get "$destroy" (object o d)))
                           then eventHandler e h "$destroy" true d else d
               | None => d
               end in
      jqLiteOff e None None d
  | None => d
  end.

(** angular.js 2427-2444: an empty name is as none. *)
Definition jqLiteRemoveData (e : nat) (name : option string) (d : dom) : result dom_error unit * dom :=
  match expandoStore e d, ng339 d !! e with
  | Some s, Some i =>
      match name with
      | Some (String _ _ as name) =>
          match st_data s with
          | Some ps => (Ok tt, set_cache (<[i := Store (st_events s) (st_handle s) (Some (prop_del ps name))]> (jqCache d)) d)
          | None => (Err NoData, d)
          end
      | _ =>
          let d := remove_listeners e s d in
          (Ok tt, Dom (delete e (ng339 d)) (delete i (jqCache d)) (jqId d) (objects d) (next_object d) (natives d) (log d))
      end
  | _, _ => (Ok tt, d)
  end.

(** angular.js 2461-2485 with a key that is not an object: setting a value that is
    not [undefined], and getting. *)
Definition data_set (e : nat) (key : string) (v : jsval) (d : dom) : dom :=
  set_store e (fun s => Store (st_events s) (st_handle s) (Some (prop_set (default [] (st_data s)) key v))) d.

(** The element's own value. *)
Definition data_own (e : nat) (key : string) (d : dom) : jsval :=
  match expandoStore e d ≫= st_data with
  | Some ps => prop_get ps key
  | None => JUndef
  end.

(** The data of an element is an object: a key it has no value for is looked up in
    [Object.prototype]. *)
Definition data_get (object_proto : string -> jsval) (e : nat) (key : string) (d : dom) : jsval :=
  match expandoStore e d ≫= st_data with
  | Some ps => if prop_has ps key then prop_get ps key else object_proto key
  | None => JUndef
  end.

(** [data()]: the object itself, made if it is missing. *)
Definition data_all (e : nat) (d : dom) : dom :=
  match expandoStore e d ≫= st_data with
  | Some _ => d
  | None => set_store e (fun s => Store (st_events s) (st_handle s) (Some [])) d
  end.

(** A subtree of the page. *)
Inductive tree := Node (e : nat) (children : list tree).

(** angular.js 2395-2400: the element first, then its children. *)
Fixpoint jqLiteDealoc (t : tree) (d : dom) : dom :=
  match t with
  | Node e children =>
      fold_left (fun d t => jqLiteDealoc t d) children (jqLiteRemoveData e None d).2
  end.

(** ** What a page does *)

Inductive op :=
| On (e : nat) (types : string) (f : nat)
| One (e : nat) (types : string) (f : nat)
| Off (e : nat) (types : option string) (f : option nat)
| Fire (e : nat) (type : string)
| Trigger (e : nat) (type : string)
| DataSet (e : nat) (key : string) (v : jsval)
| DataAll (e : nat)
| RemoveData (e : nat) (name : option string)
| Dealoc (t : tree).

Definition step (o : op) (d : dom) : dom :=
  match o with
  | On e types f => onFn e types (User f) d
  | One e types f => one e types f d
  | Off e types f => jqLiteOff e types (User <$> f) d
  | Fire e type => fire e type true d
  | Trigger e type => triggerHandler e type d
  | DataSet e key v => data_set e key v d
  | DataAll e => data_all e d
  | RemoveData e name => (jqLiteRemoveData e name d).2
  | Dealoc t => jqLiteDealoc t d
  end.

Definition exec (ops : list op) (d : dom) : dom := fold_left (fun d o => step o d) ops d.

Definition start : dom := Dom ∅ ∅ 1 ∅ 0 ∅ [].

(** ** What it means

    Each element has a list of listeners for each type, and values by key: no
    store, no number, no handler. *)

Module Spec.

Record state := State { on : nat -> string -> list listener; data : nat -> string -> jsval; calls : list called }.

Definition upd {A} (m : nat -> string -> A) (e : nat) (t : string) (v : A) : nat -> string -> A :=
  fun e' t' => if decide (e' = e /\ t' = t) then v else m e' t'.

Definition upd_all {A} (m : nat -> string -> A) (e : nat) (v : A) : nat -> string -> A :=
  fun e' t' => if decide (e' = e) then v else m e' t'.

Definition each (types : string) (f : string -> state -> state) (s : state) : state :=
  fold_left (fun s t => f t s) (split_char " " types) s.

Definition set_list (e : nat) (t : string) (l : list listener) (s : state) : state :=
  State (upd (on s) e t l) (data s) (calls s).

Definition add (e : nat) (types : string) (fn : listener) : state -> state :=
  each types (fun t s => set_list e t (on s e t ++ [fn]) s).

Definition drop (e : nat) (types : string) (fn : listener) : state -> state :=
  each types (fun t s => set_list e t (array_remove fn (on s e t)) s).

Definition drop_all (e : nat) (types : option string) (s : state) : state :=
  match types with
  | Some types => each types (fun t s => set_list e t [] s) s
  | None => State (upd_all (on s) e []) (data s) (calls s)
  end.

Definition call_one (e : nat) (t : string) (fn : listener) (s : state) : state :=
  match fn with
  | User f => State (on s) (data s) (calls s ++ [Called e t f])
  | OneOf types f => drop e types fn (drop e types (User f) s)
  | Across _ _ => s
  end.

(** The listeners of the moment the event is fired, each once, in order. *)
Definition call_all (e : nat) (t : string) (s : state) : state :=
  fold_left (fun s fn => call_one e t fn s) (on s e t) s.

Definition forget (e : nat) (s : state) : state :=
  let s := call_all e "$destroy" s in State (upd_all (on s) e []) (upd_all (data s) e JUndef) (calls s).

Fixpoint nodes_of (t : tree) : list nat :=
  match t with Node e ts => e :: flat_map nodes_of ts end.

Definition step (o : op) (s : state) : state :=
  match o with
  | On e types f => add e types (User f) s
  | One e types f => add e types (User f) (add e types (OneOf types f) s)
  | Off e None _ => drop_all e None s
  | Off e types None => drop_all e types s
  | Off e (Some types) (Some f) => drop e types (User f) s
  | Fire e t | Trigger e t => call_all e t s
  | DataSet e k v => State (on s) (upd (data s) e k v) (calls s)
  | DataAll _ => s
  | RemoveData e (Some (String _ _ as k)) => State (on s) (upd (data s) e k JUndef) (calls s)
  | RemoveData e _ => forget e s
  | Dealoc t => fold_left (fun s e => forget e s) (nodes_of t) s
  end.

Definition start : state := State (fun _ _ => []) (fun _ _ => JUndef) [].

Definition exec (ops : list op) (s : state) : state := fold_left (fun s o => step o s) ops s.

End Spec.

(** ** Lemmas *)

Lemma ev_get_set t t' l o : ev_get t' (ev_set t l o) = if String.eqb t t' then Some l else ev_get t' o.
Proof.
  induction o as [|[t1 l1] o IH]; simpl; [done|]. destruct (String.eqb_spec t1 t) as [->|Hne]; simpl.
  - by destruct (String.eqb t t').
  - rewrite IH. destruct (String.eqb_spec t1 t') as [->|]; [|done]. by rewrite (proj2 (String.eqb_neq t t')) by done.
Qed.

Lemma ev_get_delete t t' o : ev_get t' (ev_delete t o) = if String.eqb t t' then None else ev_get t' o.
Proof.
  induction o as [|[t1 l1] o IH]; simpl; [by destruct (String.eqb t t')|].
  destruct (String.eqb_spec t1 t) as [->|Hne]; simpl; rewrite IH.
  - by destruct (String.eqb t t').
  - destruct (String.eqb_spec t1 t') as [->|]; [|done]. by rewrite (proj2 (String.eqb_neq t t')) by done.
Qed.

Lemma object_update o o' f d :
  is_Some (objects d !! o) -> object o' (ev_update o f d) = if decide (o' = o) then f (object o d) else object o' d.
Proof.
  intros [ev Ho]. unfold object, ev_update. cbn. destruct (decide (o' = o)) as [->|Hne].
  - rewrite lookup_alter_eq. by rewrite Ho.
  - by rewrite lookup_alter_ne.
Qed.

(** *** Stores *)

(** Each number is of one element, and each store of the cache of an element. *)
Record numbered (d : dom) : Prop := Numbered {
  nb_one : forall e e' i, ng339 d !! e = Some i -> ng339 d !! e' = Some i -> e = e';
  nb_low : forall e i, ng339 d !! e = Some i -> (i <= jqId d)%nat;
  nb_store : forall e i, ng339 d !! e = Some i -> is_Some (jqCache d !! i);
  nb_kept : forall i, is_Some (jqCache d !! i) -> exists e, ng339 d !! e = Some i
}.

Lemma set_store_spec e f d :
  numbered d ->
  numbered (set_store e f d) /\
  forall e', expandoStore e' (set_store e f d) =
    if decide (e' = e) then Some (f (default empty_store (expandoStore e d))) else expandoStore e' d.
Proof.
  intros [H1 H2 H3 H4]. unfold set_store, expandoStore. destruct (ng339 d !! e) as [i|] eqn:Hi; cbn.
  - destruct (H3 e i Hi) as [s Hs]. rewrite Hs. split.
    + constructor; cbn; try done.
      * intros e' j Hj. destruct (decide (i = j)) as [->|]; [rewrite lookup_insert_eq; by eexists|].
        rewrite lookup_insert_ne by done. by apply (H3 e').
      * intros j. destruct (decide (i = j)) as [->|]; [by exists e|]. rewrite lookup_insert_ne by done. apply H4.
    + intros e'. cbn. destruct (decide (e' = e)) as [->|Hne]; [rewrite Hi; cbn; by rewrite lookup_insert_eq|].
      destruct (ng339 d !! e') as [j|] eqn:Hj; [|done]. cbn. rewrite lookup_insert_ne; [done|].
      intros ->. apply Hne. by apply (H1 e' e j).
  - assert (Hfresh : forall e', ng339 d !! e' <> Some (S (jqId d))) by (intros e' H; apply H2 in H; lia).
    split.
    + constructor; cbn.
      * intros e1 e2 i. destruct (decide (e = e1)) as [<-|], (decide (e = e2)) as [<-|]; try done;
          rewrite ?lookup_insert_eq, ?lookup_insert_ne by done; [intros [= <-] H; by destruct (Hfresh e2)|
          intros H [= <-]; by destruct (Hfresh e1)|by apply H1].
      * intros e' i. destruct (decide (e = e')) as [<-|]; [rewrite lookup_insert_eq; intros [= <-]; lia|].
        rewrite lookup_insert_ne by done. intros H. apply H2 in H. lia.
      * intros e' i. destruct (decide (e = e')) as [<-|].
        -- rewrite lookup_insert_eq. intros [= <-]. rewrite lookup_insert_eq. by eexists.
        -- rewrite lookup_insert_ne by done. intros H. rewrite lookup_insert_ne; [by apply (H3 e')|]. intros <-. by apply (Hfresh e').
      * intros i. destruct (decide (S (jqId d) = i)) as [<-|]; [exists e; by rewrite lookup_insert_eq|].
        rewrite lookup_insert_ne by done. intros H. destruct (H4 i H) as [e' He']. exists e'.
        rewrite lookup_insert_ne; [done|]. intros ->. congruence.
    + intros e'. cbn. destruct (decide (e' = e)) as [->|Hne].
      * rewrite lookup_insert_eq. cbn. by rewrite lookup_insert_eq.
      * rewrite (lookup_insert_ne _ e e') by done. destruct (ng339 d !! e') as [j|] eqn:Hj; [|done]. cbn.
        rewrite lookup_insert_ne; [done|]. intros <-. by apply (Hfresh e').
Qed.

(** *** The invariant *)

(** The events object of an element, and what the browser has for it. *)
Definition own (e : nat) (d : dom) : option nat := expandoStore e d ≫= st_events.
Definition listened (e : nat) (d : dom) : list (string * nat) := default [] (natives d !! e).

Definition is_across (fn : listener) : bool := match fn with Across _ _ => true | _ => false end.

(** An element has both the object and its handler or none; objects are not
    shared; the browser has the handler of an element for each type of its object, once; and
    the handlers it has besides are of empty objects. *)
Record inv (d : dom) : Prop := Inv {
  inv_nb : numbered d;
  inv_same : forall e s, expandoStore e d = Some s -> st_events s = st_handle s;
  inv_own : forall e e' o, own e d = Some o -> own e' d = Some o -> e = e';
  inv_obj : forall e o, own e d = Some o -> is_Some (objects d !! o);
  inv_new : forall o, is_Some (objects d !! o) -> (o < next_object d)%nat;
  inv_nd : forall e, NoDup (listened e d);
  inv_key : forall e o t, own e d = Some o -> is_Some (ev_get t (object o d)) -> (t, o) ∈ listened e d;
  inv_stale : forall e t h, (t, h) ∈ listened e d -> own e d <> Some h -> forall t', ev_get t' (object h d) = None;
  inv_here : forall e e' t h, (t, h) ∈ listened e d -> own e' d = Some h -> e' = e;
  inv_low : forall e t h, (t, h) ∈ listened e d -> (h < next_object d)%nat;
  inv_plain : forall o t l fn, ev_get t (object o d) = Some l -> fn ∈ l -> is_across fn = false;
  inv_data : forall e s ps, expandoStore e d = Some s -> st_data s = Some ps -> NoDup ps.*1
}.

(** The listeners of an element, through its store. *)
Definition list_of (e : nat) (t : string) (d : dom) : list listener :=
  match own e d with Some o => default [] (ev_get t (object o d)) | None => [] end.

(** A state of the specification. *)
Record agree (d : dom) (s : Spec.state) : Prop := Agree {
  ag_on : forall e t, Spec.on s e t = list_of e t d;
  ag_data : forall e k, Spec.data s e k = data_own e k d;
  ag_calls : Spec.calls s = log d
}.

Lemma set_store_fields e f d :
  objects (set_store e f d) = objects d /\ next_object (set_store e f d) = next_object d /\
  natives (set_store e f d) = natives d /\ log (set_store e f d) = log d.
Proof. unfold set_store. by destruct (expandoStore e d). Qed.

Lemma start_inv : inv start.
Proof.
  constructor; try (intros; discriminate); try (by intros ? [? H]); try (by constructor; [..|intros ? [? H]]).
  all: try (intros ? ? ? H; by apply not_elem_of_nil in H).
  intros e. constructor.
Qed.

(** Changing the object of an element. *)
Lemma update_spec e o f d s :
  inv d -> agree d s -> own e d = Some o ->
  (forall t, is_Some (ev_get t (f (object o d))) -> (t, o) ∈ listened e d) ->
  (forall t l fn, ev_get t (f (object o d)) = Some l -> fn ∈ l -> is_across fn = false) ->
  inv (ev_update o f d) /\
  (forall s', (forall e' t, Spec.on s' e' t = if decide (e' = e) then default [] (ev_get t (f (object o d))) else Spec.on s e' t) ->
    Spec.data s' = Spec.data s -> Spec.calls s' = Spec.calls s -> agree (ev_update o f d) s').
Proof.
  intros Hd [A1 A2 A3] Ho Hk Hp.
  assert (Hobj : forall o', object o' (ev_update o f d) = if decide (o' = o) then f (object o d) else object o' d)
    by (intros o'; by apply object_update, (inv_obj d Hd e)).
  split.
  - destruct Hd. constructor; try done.
    + by destruct inv_nb0.
    + intros e' o' H. cbn. destruct (decide (o = o')) as [<-|Hne]; [rewrite lookup_alter_eq|rewrite lookup_alter_ne by done];
        destruct (inv_obj0 e' _ H) as [ev ->]; by eexists.
    + intros o' [ev H]. apply inv_new0. cbn in H. destruct (decide (o = o')) as [<-|Hne].
      * rewrite lookup_alter_eq in H. destruct (objects d !! o); [by eexists|done].
      * rewrite lookup_alter_ne in H by done. by eexists.
    + intros e' o' t H. change (own e' d = Some o') in H. rewrite Hobj. destruct (decide (o' = o)) as [->|]; [|by apply inv_key0].
      intros Hs. rewrite (inv_own0 e' e o H Ho). by apply Hk.
    + intros e' t h H Hne t'. rewrite Hobj. destruct (decide (h = o)) as [->|]; [|by apply (inv_stale0 e' t)].
      destruct Hne. by rewrite <- (inv_here0 e' e t o H Ho).
    + intros o' t l fn. rewrite Hobj. destruct (decide (o' = o)) as [->|]; [by apply Hp|by apply inv_plain0].
  - intros s' H1 H2 H3. constructor; [|by rewrite H2|by rewrite H3]. intros e' t. rewrite H1. unfold list_of.
    change (own e' (ev_update o f d)) with (own e' d). destruct (decide (e' = e)) as [->|Hne].
    + rewrite Ho, Hobj. by rewrite decide_True.
    + rewrite A1. unfold list_of. destruct (own e' d) as [o'|] eqn:E; [|done]. rewrite Hobj, decide_False; [done|].
      intros ->. apply Hne. by apply (inv_own d Hd e' e o).
Qed.

(** Giving the browser the handler of an element. *)
Lemma listen_spec e o t d s :
  inv d -> agree d s -> own e d = Some o ->
  inv (addEventListenerFn e t o d) /\ agree (addEventListenerFn e t o d) s /\ (t, o) ∈ listened e (addEventListenerFn e t o d) /\
  object o (addEventListenerFn e t o d) = object o d /\ own e (addEventListenerFn e t o d) = Some o.
Proof.
  intros Hd Ha Ho. unfold addEventListenerFn. fold (listened e d). case_bool_decide as Hin; [done|].
  set (d' := set_natives _ d).
  assert (Hl : forall e', listened e' d' = if decide (e' = e) then listened e d ++ [(t, o)] else listened e' d).
  { intros e'. unfold listened, d'. cbn. destruct (decide (e' = e)) as [->|]; [by rewrite lookup_insert_eq|by rewrite lookup_insert_ne]. }
  split; [|split; [by destruct Ha|split; [rewrite Hl, decide_True by done; apply elem_of_app; right; by left|done]]].
  assert (Hin' : forall e' p, p ∈ listened e' d' -> p ∈ listened e' d \/ e' = e /\ p = (t, o)).
  { intros e' p. rewrite Hl. destruct (decide (e' = e)) as [->|]; [|by left].
    intros [H|H%list_elem_of_singleton]%elem_of_app; [by left|by right]. }
  destruct Hd. constructor; try done.
  - by destruct inv_nb0.
  - intros e'. rewrite Hl. destruct (decide (e' = e)) as [->|]; [|done]. apply NoDup_app. split; [done|]. split; [|apply NoDup_singleton].
    intros p Hp ->%list_elem_of_singleton. done.
  - intros e' o' t' H Hs. rewrite Hl. destruct (decide (e' = e)) as [->|]; [|by apply inv_key0]. apply elem_of_app. left. by apply inv_key0.
  - intros e' t' h H Hne. apply Hin' in H as [H|[-> [= -> ->]]]; [by apply (inv_stale0 e' t')|done].
  - intros e1 e2 t' h H H2. apply Hin' in H as [H|[-> [= -> ->]]]; [by apply (inv_here0 e1 e2 t' h)|by apply (inv_own0 e2 e o)].
  - intros e' t' h H. apply Hin' in H as [H|[-> [= -> ->]]]; [by apply (inv_low0 e' t')|]. by apply inv_new0, (inv_obj0 e).
Qed.

(** The object and the handler of an element. *)
Lemma ensure_spec e d s :
  inv d -> agree d s ->
  exists o d', ensure_events e d = (o, (ensure_events e d).2) /\ ensure_handle e o (ensure_events e d).2 = (o, d') /\
    inv d' /\ agree d' s /\ own e d' = Some o.
Proof.
  intros Hd Ha. unfold ensure_events. fold (own e d). destruct (own e d) as [o|] eqn:Ho.
  - exists o, d. split; [done|]. split; [|done]. unfold ensure_handle. cbn [snd].
    unfold own in Ho. destruct (expandoStore e d) as [st|] eqn:E; [|done]. cbn in *.
    by rewrite <- (inv_same d Hd e st E), Ho.
  - cbn [new_events snd]. set (o := next_object d). set (d0 := Dom _ _ _ _ _ _ _).
    set (d1 := set_store e _ d0). exists o.
    assert (H0 : numbered d0) by (destruct (inv_nb d Hd); by constructor).
    assert (He0 : forall e', expandoStore e' d0 = expandoStore e' d) by done.
    destruct (set_store_spec e (fun s => Store (Some o) (st_handle s) (st_data s)) d0 H0) as [H1 E1]. fold d1 in H1, E1.
    assert (Hh : ensure_handle e o d1 = (o, set_store e (fun s => Store (st_events s) (Some o) (st_data s)) d1)).
    { unfold ensure_handle. rewrite E1, decide_True by done. cbn. rewrite He0.
      assert (Hnone : st_handle (default empty_store (expandoStore e d)) = None).
      { unfold own in Ho. destruct (expandoStore e d) as [st|] eqn:E; [|done]. cbn in *. by rewrite <- (inv_same d Hd e st E). }
      by rewrite Hnone. }
    eexists. split; [done|]. split; [exact Hh|].
    destruct (set_store_spec e (fun s => Store (st_events s) (Some o) (st_data s)) d1 H1) as [H2 E2].
    set (d2 := set_store e _ d1) in *. set (st0 := default empty_store (expandoStore e d)).
    assert (E : forall e', expandoStore e' d2 = if decide (e' = e) then Some (Store (Some o) (Some o) (st_data st0)) else expandoStore e' d).
    { intros e'. rewrite E2. destruct (decide (e' = e)) as [->|Hne]; [|by rewrite E1, decide_False].
      rewrite E1, decide_True by done. done. }
    destruct (set_store_fields e (fun s => Store (Some o) (st_handle s) (st_data s)) d0) as (F1 & F2 & F3 & F4). fold d1 in F1, F2, F3, F4.
    destruct (set_store_fields e (fun s => Store (st_events s) (Some o) (st_data s)) d1) as (G1 & G2 & G3 & G4). fold d2 in G1, G2, G3, G4.
    rewrite F1 in G1. rewrite F2 in G2. rewrite F3 in G3. rewrite F4 in G4. clear F1 F2 F3 F4. cbn in G1, G2, G3, G4. fold o in G1, G2.
    assert (Hown : forall e', own e' d2 = if decide (e' = e) then Some o else own e' d).
    { intros e'. unfold own. rewrite E. by destruct (decide (e' = e)). }
    assert (Hobj : forall o', object o' d2 = if decide (o' = o) then [] else object o' d).
    { intros o'. unfold object. rewrite G1. destruct (decide (o' = o)) as [->|]; [by rewrite lookup_insert_eq|by rewrite lookup_insert_ne]. }
    assert (Hls : forall e', listened e' d2 = listened e' d) by (intros e'; unfold listened; by rewrite G3).
    assert (Hfresh : forall e', own e' d <> Some o).
    { intros e' H. pose proof (inv_new d Hd o (inv_obj d Hd e' o H)). subst o. lia. }
    split; [|split; [|by rewrite Hown, decide_True]].
    + destruct Hd. constructor; try done.
      * intros e' st. rewrite E. destruct (decide (e' = e)); [by intros [= <-]|by apply inv_same0].
      * intros e1 e2 o'. rewrite !Hown. destruct (decide (e1 = e)) as [->|], (decide (e2 = e)) as [->|]; try done.
        -- intros [= <-] H. by destruct (Hfresh e2).
        -- intros H [= <-]. by destruct (Hfresh e1).
        -- by apply inv_own0.
      * intros e' o'. rewrite Hown, G1. destruct (decide (e' = e)); [intros [= <-]; rewrite lookup_insert_eq; by eexists|].
        intros H. rewrite lookup_insert_ne; [by apply (inv_obj0 e')|]. intros <-. by apply (Hfresh e').
      * intros o'. rewrite G1, G2. destruct (decide (o = o')) as [<-|]; [lia|]. rewrite lookup_insert_ne by done. intros H. apply inv_new0 in H. lia.
      * intros e'. by rewrite Hls.
      * intros e' o' t. rewrite Hown, Hobj, Hls. destruct (decide (e' = e)) as [->|].
        -- intros [= <-]. rewrite decide_True by done. by intros [? ?].
        -- intros H. rewrite decide_False; [by apply inv_key0|]. intros ->. by apply (Hfresh e').
      * intros e' t h. rewrite Hown, Hls. intros H Hne t'. rewrite Hobj. destruct (decide (h = o)); [done|].
        apply (inv_stale0 e' t h H). destruct (decide (e' = e)) as [->|]; [by rewrite Ho|done].
      * intros e1 e2 t h. rewrite Hown, Hls. intros H. destruct (decide (e2 = e)); [|by apply (inv_here0 e1 e2 t)].
        intros [= <-]. apply inv_low0 in H. subst o. lia.
      * intros e' t h. rewrite Hls, G2. intros H. apply inv_low0 in H. lia.
      * intros o' t l fn. rewrite Hobj. destruct (decide (o' = o)); [done|by apply inv_plain0].
      * intros e' st ps. rewrite E. destruct (decide (e' = e)) as [->|]; [|by apply inv_data0].
        intros [= <-]. cbn. unfold st0. destruct (expandoStore e d) as [st|] eqn:Es; [by apply (inv_data0 e)|done].
    + destruct Ha as [A1 A2 A3]. constructor.
      * intros e' t. rewrite A1. unfold list_of. rewrite Hown. destruct (decide (e' = e)) as [->|].
        -- by rewrite Ho, Hobj, decide_True.
        -- destruct (own e' d) as [o'|] eqn:Eo; [|done]. rewrite Hobj, decide_False; [done|]. intros ->. by apply (Hfresh e').
      * intros e' k. rewrite A2. unfold data_own. rewrite E. destruct (decide (e' = e)) as [->|]; [|done]. cbn. unfold st0.
        by destruct (expandoStore e d).
      * by rewrite A3, G4.
Qed.

(** *** Each operation *)

(** What listeners leave alone. *)
Record frame (d0 d : dom) : Prop := Frame {
  fr_num : ng339 d = ng339 d0;
  fr_cache : jqCache d = jqCache d0;
  fr_nat : natives d = natives d0
}.

Lemma dom_frame_refl d : frame d d.
Proof. done. Qed.

Lemma frame_trans d1 d2 d3 : frame d1 d2 -> frame d2 d3 -> frame d1 d3.
Proof. intros [? ? ?] [? ? ?]. constructor; congruence. Qed.

Lemma frame_own e d0 d : frame d0 d -> own e d = own e d0.
Proof. intros [H1 H2 _]. unfold own, expandoStore. by rewrite H1, H2. Qed.

Lemma frame_listened e d0 d : frame d0 d -> listened e d = listened e d0.
Proof. intros [_ _ H]. unfold listened. by rewrite H. Qed.

Lemma set_list_on e t l s e' t' :
  Spec.on (Spec.set_list e t l s) e' t' = if decide (e' = e /\ t' = t) then l else Spec.on s e' t'.
Proof. done. Qed.

(** Changing one list of an object. *)
Lemma update_list e o t l f d s :
  inv d -> agree d s -> own e d = Some o ->
  (forall t', default [] (ev_get t' (f (object o d))) = if String.eqb t t' then l else default [] (ev_get t' (object o d))) ->
  (forall t', is_Some (ev_get t' (f (object o d))) -> (t', o) ∈ listened e d) ->
  (forall fn, fn ∈ l -> is_across fn = false) ->
  inv (ev_update o f d) /\ agree (ev_update o f d) (Spec.set_list e t l s) /\ frame d (ev_update o f d).
Proof.
  intros Hd Ha Ho Hf Hk Hl. destruct (update_spec e o f d s Hd Ha Ho Hk) as [H1 H2].
  - intros t' l' fn E Hfn. specialize (Hf t'). rewrite E in Hf. cbn in Hf. destruct (String.eqb_spec t t') as [->|].
    + apply Hl. by rewrite <- Hf.
    + destruct (ev_get t' (object o d)) as [l2|] eqn:E2; cbn in Hf; subst l'; [by apply (inv_plain d Hd o t' l2)|by apply not_elem_of_nil in Hfn].
  - split; [done|]. split; [|done]. apply H2; [|done|done]. intros e' t'. rewrite set_list_on.
    destruct (decide (e' = e)) as [->|Hne].
    + rewrite Hf. destruct (String.eqb_spec t t') as [->|Hn]; [by rewrite decide_True|]. rewrite decide_False by naive_solver.
      rewrite (ag_on d s Ha). unfold list_of. by rewrite Ho.
    + by rewrite decide_False by naive_solver.
Qed.

Lemma agree_list e o t d s : agree d s -> own e d = Some o -> Spec.on s e t = default [] (ev_get t (object o d)).
Proof. intros Ha Ho. rewrite (ag_on d s Ha). unfold list_of. by rewrite Ho. Qed.

Lemma list_plain e t d s fn : inv d -> agree d s -> fn ∈ Spec.on s e t -> is_across fn = false.
Proof.
  intros Hd Ha. rewrite (ag_on d s Ha). unfold list_of. destruct (own e d) as [o|]; [|by intros ?%not_elem_of_nil].
  destruct (ev_get t (object o d)) as [l|] eqn:E; cbn; [by apply (inv_plain d Hd o t l)|by intros ?%not_elem_of_nil].
Qed.

(** Setting a list to what it is. *)
Lemma agree_same e t l d s : agree d s -> l = Spec.on s e t -> agree d (Spec.set_list e t l s).
Proof.
  intros [A1 A2 A3] ->. constructor; [|done|done]. intros e' t'. rewrite set_list_on, <- A1.
  destruct (decide _) as [[-> ->]|]; done.
Qed.

Lemma agree_set_list e t l l' d s : agree d (Spec.set_list e t l' (Spec.set_list e t l s)) -> agree d (Spec.set_list e t l' s).
Proof.
  intros [A1 A2 A3]. constructor; [|done|done]. intros e' t'. rewrite <- A1, !set_list_on. by destruct (decide _).
Qed.

Lemma push_spec e o t fn d s :
  inv d -> agree d s -> own e d = Some o -> is_across fn = false -> is_Some (ev_get t (object o d)) ->
  inv (push t fn o d) /\ agree (push t fn o d) (Spec.set_list e t (Spec.on s e t ++ [fn]) s) /\ frame d (push t fn o d).
Proof.
  intros Hd Ha Ho Hfn Ht. unfold push. rewrite (agree_list e o t d s Ha Ho). apply update_list; try done.
  - intros t'. rewrite ev_get_set. by destruct (String.eqb_spec t t') as [->|].
  - intros t'. rewrite ev_get_set. destruct (String.eqb_spec t t') as [->|]; intros H; by apply (inv_key d Hd).
  - intros fn' [H| ->%list_elem_of_singleton]%elem_of_app; [|done]. rewrite <- (agree_list e o t d s Ha Ho) in H.
    by apply (list_plain e t d s).
Qed.

Lemma on_plain_spec e o t fn d s :
  inv d -> agree d s -> own e d = Some o -> is_across fn = false ->
  inv (on_plain e o o t fn d) /\ agree (on_plain e o o t fn d) (Spec.set_list e t (Spec.on s e t ++ [fn]) s) /\
  own e (on_plain e o o t fn d) = Some o.
Proof.
  intros Hd Ha Ho Hfn. unfold on_plain. destruct (ev_get t (object o d)) as [l|] eqn:E.
  - destruct (push_spec e o t fn d s Hd Ha Ho Hfn ltac:(by eexists)) as (H1 & H2 & H3). by rewrite (frame_own e _ _ H3).
  - destruct (listen_spec e o t d s Hd Ha Ho) as (L1 & L2 & L3 & L4 & L5). set (d1 := addEventListenerFn e t o d) in *.
    destruct (update_list e o t [] (ev_set t []) d1 s L1 L2 L5) as (U1 & U2 & U3).
    + intros t'. rewrite ev_get_set, L4. by destruct (String.eqb t t').
    + intros t'. rewrite ev_get_set. destruct (String.eqb_spec t t') as [->|]; [done|]. by apply (inv_key d1 L1).
    + intros fn' H. by apply not_elem_of_nil in H.
    + set (d2 := ev_update o (ev_set t []) d1) in *.
      assert (Ho2 : own e d2 = Some o) by (by rewrite (frame_own e _ _ U3)).
      assert (A2 : agree d2 s).
      { assert (Hn : Spec.on s e t = []) by (rewrite (agree_list e o t d s Ha Ho); by rewrite E).
        destruct U2 as [B1 B2 B3]. constructor; [|done|done]. intros e' t'. rewrite <- B1, set_list_on.
        by destruct (decide _) as [[-> ->]|]. }
      destruct (push_spec e o t fn d2 s U1 A2 Ho2 Hfn) as (H1 & H2 & H3).
      * unfold d2. rewrite object_update, decide_True by (done || by apply (inv_obj d1 L1 e)). rewrite ev_get_set, String.eqb_refl. by eexists.
      * by rewrite (frame_own e _ _ H3).
Qed.

(** Types in turn. *)
Lemma each_spec (P : dom -> Prop) (f : dom -> string -> dom) (g : string -> Spec.state -> Spec.state) types d s :
  (forall t d s, t ∈ split_char " " types -> P d -> agree d s -> P (f d t) /\ agree (f d t) (g t s)) ->
  P d -> agree d s ->
  P (fold_left f (split_char " " types) d) /\ agree (fold_left f (split_char " " types) d) (Spec.each types g s).
Proof.
  unfold Spec.each. revert d s. induction (split_char " " types) as [|t l IH]; intros d s Hs Hd Ha; [done|]. cbn.
  destruct (Hs t d s ltac:(by left) Hd Ha) as [H1 H2]. apply IH; [|done|done]. intros t' d' s' Ht'. apply Hs. by right.
Qed.

(** The types of the pointer are not among them, nor a name the object of the lists
    inherits, nor [forEach], for which [forEach] would call the list of its listeners. *)
Definition plain_name (t : string) : bool :=
  negb (bool_decide (is_Some (pointer_type t)) || object_name t || String.eqb t "forEach").

Definition plain_types (types : string) : bool := forallb plain_name (split_char " " types).

Lemma plain_type types t : plain_types types = true -> t ∈ split_char " " types -> pointer_type t = None.
Proof.
  unfold plain_types. rewrite forallb_forall. intros H Ht. apply list_elem_of_In in Ht. specialize (H t Ht).
  unfold plain_name in H. apply negb_true_iff, orb_false_iff in H as [[H%bool_decide_eq_false _]%orb_false_iff _].
  destruct (pointer_type t); [|done]. destruct H. by eexists.
Qed.

Lemma on_spec e types fn d s :
  inv d -> agree d s -> is_across fn = false -> plain_types types = true ->
  inv (onFn e types fn d) /\ agree (onFn e types fn d) (Spec.add e types fn s).
Proof.
  intros Hd Ha Hfn Hp. destruct (ensure_spec e d s Hd Ha) as (o & d' & E1 & E2 & H1 & H2 & H3).
  unfold onFn. rewrite E1, E2.
  destruct (each_spec (fun d => inv d /\ own e d = Some o) (fun d type => on_type e o o type fn d)
    (fun t s => Spec.set_list e t (Spec.on s e t ++ [fn]) s) types d' s) as [[? ?] ?]; [|done|done|done].
  intros t d1 s1 Ht [Hi Ho] Ha1. unfold on_type. rewrite (plain_type types t Hp Ht).
  destruct (on_plain_spec e o t fn d1 s1 Hi Ha1 Ho Hfn) as (? & ? & ?).
  by destruct (ev_get t (object o d1)).
Qed.

(** *** Taking listeners away *)

Lemma array_remove_in (fn fn' : listener) l : fn' ∈ array_remove fn l -> fn' ∈ l.
Proof.
  unfold array_remove. destruct (list_find _ l) as [[i x]|]; [|done]. intros H.
  eapply elem_of_sublist; [exact H|apply sublist_delete].
Qed.

(** A store with an object has its handler. *)
Lemma own_store e o d : inv d -> own e d = Some o -> exists ps, expandoStore e d = Some (Store (Some o) (Some o) ps).
Proof.
  intros Hd. unfold own. destruct (expandoStore e d) as [[ev h ps]|] eqn:E; [|done]. cbn. intros ->.
  pose proof (inv_same d Hd e _ E) as H. cbn in H. subst. by exists ps.
Qed.

Lemma no_own e d : own e d = None -> forall types fn, jqLiteOff e types fn d = d.
Proof.
  intros Ho types fn. unfold jqLiteOff. unfold own in Ho. destruct (expandoStore e d) as [[ev h ps]|]; [|done]. cbn in Ho. by subst.
Qed.

Lemma drop_listener_spec e types fn d s :
  inv d -> agree d s ->
  inv (jqLiteOff e (Some types) (Some fn) d) /\ agree (jqLiteOff e (Some types) (Some fn) d) (Spec.drop e types fn s) /\
  frame d (jqLiteOff e (Some types) (Some fn) d).
Proof.
  intros Hd Ha. destruct (own e d) as [o|] eqn:Ho.
  - destruct (own_store e o d Hd Ho) as [ps E]. unfold jqLiteOff. rewrite E.
    edestruct (each_spec (fun d' => inv d' /\ frame d d') (fun d type => ev_update o (fun ev => match ev_get type ev with
        | Some l => ev_set type (array_remove fn l) ev | None => ev end) d)
      (fun t s => Spec.set_list e t (array_remove fn (Spec.on s e t)) s) types d s) as [[? ?] ?]; [|done|done|done].
    intros t d1 s1 _ [Hi Hf] Ha1. assert (Ho1 : own e d1 = Some o) by (by rewrite (frame_own e _ _ Hf)).
    rewrite (agree_list e o t d1 s1 Ha1 Ho1).
    set (f := fun ev : list (string * list listener) => match ev_get t ev with
        | Some l => ev_set t (array_remove fn l) ev | None => ev end).
    destruct (update_list e o t (array_remove fn (default [] (ev_get t (object o d1)))) f d1 s1 Hi Ha1 Ho1) as (U1 & U2 & U3);
      [| | |split; [split; [exact U1|by eapply frame_trans]|exact U2]].
    + intros t'. unfold f. destruct (ev_get t (object o d1)) as [l|] eqn:E1; cbn; [rewrite ev_get_set; by destruct (String.eqb t t')|].
      destruct (String.eqb_spec t t') as [->|]; [|done]. by rewrite E1.
    + intros t'. unfold f. destruct (ev_get t (object o d1)) as [l|] eqn:E1; [rewrite ev_get_set|by apply (inv_key d1 Hi)].
      destruct (String.eqb_spec t t') as [->|]; [|by apply (inv_key d1 Hi)]. intros _. apply (inv_key d1 Hi); [done|by eexists].
    + intros fn' H%array_remove_in. rewrite <- (agree_list e o t d1 s1 Ha1 Ho1) in H. by apply (list_plain e t d1 s1).
  - rewrite no_own by done. split; [done|]. split; [|done].
    destruct (each_spec (fun d' => d' = d) (fun d _ => d) (fun t s => Spec.set_list e t (array_remove fn (Spec.on s e t)) s) types d s) as [H1 H2]; try done.
    + intros t d1 s1 _ -> Ha1. split; [done|]. apply agree_same; [done|]. rewrite (ag_on d s1 Ha1). unfold list_of. by rewrite Ho.
    + unfold Spec.drop. by rewrite H1 in H2.
Qed.

Lemma clear_spec e types d s :
  inv d -> agree d s ->
  inv (jqLiteOff e (Some types) None d) /\ agree (jqLiteOff e (Some types) None d) (Spec.drop_all e (Some types) s).
Proof.
  intros Hd Ha. destruct (own e d) as [o|] eqn:Ho.
  - destruct (own_store e o d Hd Ho) as [ps E]. unfold jqLiteOff. rewrite E. cbn [removeEventListenerFn].
    edestruct (each_spec (fun d' => inv d' /\ frame d d') (fun d type => ev_update o (ev_delete type) d)
      (fun t s => Spec.set_list e t [] s) types d s) as [[? ?] ?]; [|done|done|done].
    intros t d1 s1 _ [Hi Hf] Ha1. assert (Ho1 : own e d1 = Some o) by (by rewrite (frame_own e _ _ Hf)).
    destruct (update_list e o t [] (ev_delete t) d1 s1 Hi Ha1 Ho1) as (U1 & U2 & U3);
      [| | |split; [split; [exact U1|by eapply frame_trans]|exact U2]].
    + intros t'. rewrite ev_get_delete. by destruct (String.eqb t t').
    + intros t'. rewrite ev_get_delete. destruct (String.eqb t t'); [by intros [? ?]|by apply (inv_key d1 Hi)].
    + intros fn H. by apply not_elem_of_nil in H.
  - rewrite no_own by done. split; [done|].
    destruct (each_spec (fun d' => d' = d) (fun d _ => d) (fun t s => Spec.set_list e t [] s) types d s) as [H1 H2]; try done.
    + intros t d1 s1 _ -> Ha1. split; [done|]. apply agree_same; [done|]. rewrite (ag_on d s1 Ha1). unfold list_of. by rewrite Ho.
    + cbn. by rewrite H1 in H2.
Qed.

(** *** Calling listeners *)

Lemma call_spec e t fn d s :
  inv d -> agree d s -> is_across fn = false ->
  inv (call e t true fn d) /\ agree (call e t true fn d) (Spec.call_one e t fn s) /\ frame d (call e t true fn d).
Proof.
  intros Hd Ha Hfn. destruct fn as [f|types f|]; [| |done]; cbn [call call_plain Spec.call_one].
  - split; [|split; [|done]].
    + destruct Hd. constructor; try done. by destruct inv_nb0.
    + destruct Ha as [A1 A2 A3]. constructor; [done|done|]. cbn. by rewrite A3.
  - destruct (drop_listener_spec e types (User f) d s Hd Ha) as (H1 & H2 & H3).
    destruct (drop_listener_spec e types (OneOf types f) _ _ H1 H2) as (H4 & H5 & H6). split; [done|]. split; [done|]. by eapply frame_trans.
Qed.

Lemma calls_spec e t l d s :
  inv d -> agree d s -> (forall fn, fn ∈ l -> is_across fn = false) ->
  let d' := fold_left (fun d fn => call e t true fn d) l d in
  inv d' /\ agree d' (fold_left (fun s fn => Spec.call_one e t fn s) l s) /\ frame d d'.
Proof.
  intros Hd Ha Hl. cbn zeta. revert d s Hd Ha. induction l as [|fn l IH]; intros d s Hd Ha; [done|]. cbn [fold_left].
  destruct (call_spec e t fn d s Hd Ha ltac:(apply Hl; by left)) as (H1 & H2 & H3).
  destruct (IH ltac:(intros fn' H; apply Hl; by right) _ _ H1 H2) as (H4 & H5 & H6).
  split; [done|]. split; [done|]. by eapply frame_trans.
Qed.

(** The handler of an element delivers to its listeners. *)
Lemma handler_spec e o t d s :
  inv d -> agree d s -> own e d = Some o ->
  let d' := eventHandler e o t true d in inv d' /\ agree d' (Spec.call_all e t s) /\ frame d d'.
Proof.
  intros Hd Ha Ho. unfold eventHandler, Spec.call_all. rewrite (agree_list e o t d s Ha Ho).
  apply calls_spec; [done|done|]. intros fn. rewrite <- (agree_list e o t d s Ha Ho). by apply (list_plain e t d s).
Qed.

(** A handler whose object is not the element's any more calls nothing. *)
Lemma stale_handlers e t l d :
  inv d -> (forall p, p ∈ l -> p ∈ listened e d /\ (p.1 = t -> own e d <> Some p.2)) ->
  fold_left (fun d p => if String.eqb p.1 t then eventHandler e p.2 t true d else d) l d = d.
Proof.
  intros Hd. induction l as [|[t' h] l IH]; intros Hl; [done|]. cbn [fold_left fst snd].
  assert (Hx : (if String.eqb t' t then eventHandler e h t true d else d) = d).
  { destruct (String.eqb_spec t' t) as [->|]; [|done]. destruct (Hl (t, h) ltac:(by left)) as [H1 H2]. unfold eventHandler.
    by rewrite (inv_stale d Hd e t h H1 (H2 eq_refl)). }
  rewrite Hx. apply IH. intros p Hp. apply Hl. by right.
Qed.

Lemma deliver_nothing e t s : Spec.on s e t = [] -> Spec.call_all e t s = s.
Proof. unfold Spec.call_all. by intros ->. Qed.

Lemma fire_spec e t d s :
  inv d -> agree d s -> inv (fire e t true d) /\ agree (fire e t true d) (Spec.call_all e t s).
Proof.
  intros Hd Ha. unfold fire. fold (listened e d).
  destruct (own e d) as [o|] eqn:Ho; [destruct (decide ((t, o) ∈ listened e d)) as [Hin|Hin]|].
  - pose proof Hin as (l1 & l2 & E)%list_elem_of_split. pose proof (inv_nd d Hd e) as Hnd. rewrite E in Hnd |- *.
    apply NoDup_app in Hnd as (_ & Hn1 & [Hn2 _]%NoDup_cons).
    rewrite fold_left_app. cbn [fold_left fst snd]. rewrite String.eqb_refl.
    rewrite (stale_handlers e t l1 d Hd).
    + destruct (handler_spec e o t d s Hd Ha Ho) as (H1 & H2 & H3). set (d' := eventHandler e o t true d) in *.
      rewrite (stale_handlers e t l2 d' H1); [done|]. intros [t' h] Hp. rewrite (frame_listened e _ _ H3), (frame_own e _ _ H3), Ho, E.
      split; [apply elem_of_app; right; by right|]. cbn. intros -> [= <-]. done.
    + intros [t' h] Hp. rewrite E, Ho. split; [apply elem_of_app; by left|]. cbn. intros -> [= <-]. apply (Hn1 _ Hp). by left.
  - rewrite stale_handlers; [|done|].
    + split; [done|]. rewrite deliver_nothing; [done|]. rewrite (agree_list e o t d s Ha Ho).
      destruct (ev_get t (object o d)) eqn:E; [|done]. destruct Hin. apply (inv_key d Hd); [done|by eexists].
    + intros [t' h] Hp. split; [done|]. cbn. intros -> E. rewrite Ho in E. by injection E as <-.
  - rewrite stale_handlers; [|done|].
    + split; [done|]. rewrite deliver_nothing; [done|]. rewrite (ag_on d s Ha). unfold list_of. by rewrite Ho.
    + intros [t' h] Hp. rewrite Ho. done.
Qed.

Lemma trigger_spec e t d s :
  inv d -> agree d s -> inv (triggerHandler e t d) /\ agree (triggerHandler e t d) (Spec.call_all e t s).
Proof.
  intros Hd Ha. unfold triggerHandler. fold (own e d). destruct (own e d) as [o|] eqn:Ho.
  - destruct (handler_spec e o t d s Hd Ha Ho) as (H1 & H2 & _). done.
  - split; [done|]. rewrite deliver_nothing; [done|]. rewrite (ag_on d s Ha). unfold list_of. by rewrite Ho.
Qed.

(** *** Data *)

(** Changing the data of a store. *)
Lemma store_data_spec e g d s D :
  inv d -> agree d s ->
  (forall ps, NoDup ps.*1 -> NoDup (g ps).*1) ->
  (forall k, prop_get (g (default [] (expandoStore e d ≫= st_data))) k = D e k) ->
  (forall e' k, e' <> e -> D e' k = Spec.data s e' k) ->
  let d' := set_store e (fun s => Store (st_events s) (st_handle s) (Some (g (default [] (st_data s))))) d in
  inv d' /\ agree d' (Spec.State (Spec.on s) D (Spec.calls s)).
Proof.
  intros Hd Ha Hg HD HD'. set (f := fun s => _). cbn zeta. set (d' := set_store e f d).
  destruct (set_store_spec e f d (inv_nb d Hd)) as [Hn E]. fold d' in Hn, E.
  destruct (set_store_fields e f d) as (F1 & F2 & F3 & F4). fold d' in F1, F2, F3, F4.
  assert (Hown : forall e', own e' d' = own e' d).
  { intros e'. unfold own. rewrite E. destruct (decide (e' = e)) as [->|]; [|done]. cbn. by destruct (expandoStore e d). }
  assert (Hobj : forall o, object o d' = object o d) by (intros o; unfold object; by rewrite F1).
  assert (Hl : forall e', listened e' d' = listened e' d) by (intros e'; unfold listened; by rewrite F3).
  split.
  - destruct Hd. constructor; try done; rewrite ?F1, ?F2; try setoid_rewrite Hown; try setoid_rewrite Hobj; try setoid_rewrite Hl; try done.
    + intros e' st. rewrite E. destruct (decide (e' = e)) as [->|]; [|apply inv_same0]. intros [= <-]. cbn.
      destruct (expandoStore e d) as [st|] eqn:Es; [by apply (inv_same0 e)|done].
    + intros e' st ps. rewrite E. destruct (decide (e' = e)) as [->|]; [|apply inv_data0]. intros [= <-] [= <-]. apply Hg.
      destruct (expandoStore e d) as [[ev h [ps|]]|] eqn:Es; cbn; [by apply (inv_data0 e _ ps Es)|constructor|constructor].
  - destruct Ha as [A1 A2 A3]. constructor; cbn; [| |by rewrite F4].
    + intros e' t. rewrite A1. unfold list_of. rewrite Hown. destruct (own e' d); [|done]. by rewrite Hobj.
    + intros e' k. unfold data_own. rewrite E. destruct (decide (e' = e)) as [->|Hne]; [|by rewrite HD', A2].
      cbn. rewrite <- HD. f_equal. f_equal. by destruct (expandoStore e d).
Qed.

Lemma prop_del_sublist ps k : sublist (prop_del ps k) ps.
Proof.
  induction ps as [|[k' v] ps IH]; [done|]. simpl. destruct (String.eqb k' k); [by apply sublist_cons|by apply sublist_skip].
Qed.

Lemma prop_del_NoDup ps k : NoDup ps.*1 -> NoDup (prop_del ps k).*1.
Proof. intros H. eapply sublist_NoDup; [exact H|]. apply fmap_sublist, prop_del_sublist. Qed.

Lemma remove_name_spec e name d s :
  inv d -> agree d s -> name <> "" ->
  inv (jqLiteRemoveData e (Some name) d).2 /\
  agree (jqLiteRemoveData e (Some name) d).2 (Spec.State (Spec.on s) (Spec.upd (Spec.data s) e name JUndef) (Spec.calls s)).
Proof.
  intros Hd Ha Hne. unfold jqLiteRemoveData. destruct name as [|c name]; [done|].
  assert (Hnothing : data_own e (String c name) d = JUndef ->
    agree d (Spec.State (Spec.on s) (Spec.upd (Spec.data s) e (String c name) JUndef) (Spec.calls s))).
  { intros H. destruct Ha as [A1 A2 A3]. constructor; [done| |done]. intros e' k. cbn. unfold Spec.upd. rewrite A2.
    by destruct (decide _) as [[-> ->]|]. }
  destruct (expandoStore e d) as [st|] eqn:E.
  - assert (Hi : exists i, ng339 d !! e = Some i) by (unfold expandoStore in E; destruct (ng339 d !! e) as [i|]; [by exists i|done]).
    destruct Hi as [i Hi]. rewrite Hi. destruct (st_data st) as [ps|] eqn:Eps.
    + pose proof (store_data_spec e (fun ps => prop_del ps (String c name)) d s (Spec.upd (Spec.data s) e (String c name) JUndef) Hd Ha) as H.
      unfold set_store in H. rewrite E, Hi in H. cbn [snd]. rewrite Eps in H. cbn [default] in H. apply H.
      * intros qs. apply prop_del_NoDup.
      * intros k. cbn. rewrite Eps. cbn. unfold Spec.upd. destruct (decide (String c name = k)) as [<-|Hk].
        -- rewrite decide_True by done. apply prop_get_del_eq. by apply (inv_data d Hd e st).
        -- rewrite decide_False by naive_solver. rewrite (ag_data d s Ha). unfold data_own. rewrite E. cbn. rewrite Eps.
           by apply prop_get_del_ne.
      * intros e' k Hn. unfold Spec.upd. by rewrite decide_False by naive_solver.
    + split; [done|]. apply Hnothing. unfold data_own. rewrite E. cbn. by rewrite Eps.
  - split; [done|]. apply Hnothing. unfold data_own. by rewrite E.
Qed.

(** *** Taking everything away *)

Lemma ev_get_in t o : is_Some (ev_get t o) -> t ∈ map fst o.
Proof.
  induction o as [|[t' l] o IH]; [by intros [? ?]|]. simpl. destruct (String.eqb_spec t' t) as [->|]; [intros _; by left|].
  intros H. right. by apply IH.
Qed.

Lemma delete_keys e o ks d s :
  inv d -> agree d s -> own e d = Some o ->
  let d' := fold_left (fun d type => ev_update o (ev_delete type) d) ks d in
  inv d' /\ frame d d' /\ (forall t, ev_get t (object o d') = if bool_decide (t ∈ ks) then None else ev_get t (object o d)) /\
  (forall s', (forall e' t, Spec.on s' e' t = if decide (e' = e) then (if bool_decide (t ∈ ks) then [] else Spec.on s e t) else Spec.on s e' t) ->
     Spec.data s' = Spec.data s -> Spec.calls s' = Spec.calls s -> agree d' s').
Proof.
  intros Hd Ha Ho. cbn zeta. revert d s Hd Ha Ho. induction ks as [|k ks IH]; intros d s Hd Ha Ho; cbn [fold_left].
  - split; [done|]. split; [done|]. split; [done|]. intros s' H1 H2 H3. destruct Ha as [A1 A2 A3].
    constructor; [|by rewrite H2|by rewrite H3]. intros e' t. rewrite H1, <- A1. by destruct (decide (e' = e)) as [->|].
  - destruct (update_list e o k [] (ev_delete k) d s Hd Ha Ho) as (U1 & U2 & U3).
    + intros t. rewrite ev_get_delete. by destruct (String.eqb k t).
    + intros t. rewrite ev_get_delete. destruct (String.eqb k t); [by intros [? ?]|by apply (inv_key d Hd)].
    + intros fn H. by apply not_elem_of_nil in H.
    + destruct (IH _ _ U1 U2) as (I1 & I2 & I3 & I4); [by rewrite (frame_own e _ _ U3)|].
      assert (Hob : object o (ev_update o (ev_delete k) d) = ev_delete k (object o d))
        by (rewrite object_update, decide_True; [done..|by apply (inv_obj d Hd e)]).
      assert (Hin : forall t, bool_decide (t ∈ k :: ks) = bool_decide (t ∈ ks) || String.eqb k t).
      { intros t. rewrite (bool_decide_ext (t ∈ k :: ks) (t ∈ ks \/ t = k)) by (rewrite elem_of_cons; tauto).
        destruct (String.eqb_spec k t) as [->|]; [rewrite orb_true_r; apply bool_decide_true; auto|].
        rewrite orb_false_r. apply bool_decide_ext. naive_solver. }
      split; [done|]. split; [by eapply frame_trans|]. split.
      * intros t. rewrite I3, Hob, ev_get_delete, Hin. by destruct (bool_decide (t ∈ ks)), (String.eqb k t).
      * intros s' H1 H2 H3. apply I4; [|done|done]. intros e' t. rewrite H1, !set_list_on, Hin.
        destruct (decide (e' = e)) as [->|Hne]; [|by rewrite decide_False by naive_solver].
        destruct (String.eqb_spec k t) as [->|Hk].
        -- rewrite orb_true_r. rewrite decide_True by done. by destruct (bool_decide (t ∈ ks)).
        -- rewrite orb_false_r. by rewrite decide_False by naive_solver.
Qed.

Lemma off_all_spec e o d s :
  inv d -> agree d s -> own e d = Some o ->
  let d' := jqLiteOff e None None d in
  inv d' /\ agree d' (Spec.drop_all e None s) /\ frame d d' /\ forall t, ev_get t (object o d') = None.
Proof.
  intros Hd Ha Ho. destruct (own_store e o d Hd Ho) as [ps E]. unfold jqLiteOff. rewrite E. cbn [removeEventListenerFn].
  destruct (delete_keys e o (map fst (object o d)) d s Hd Ha Ho) as (I1 & I2 & I3 & I4).
  assert (Hk : forall t, bool_decide (t ∈ map fst (object o d)) = false -> ev_get t (object o d) = None).
  { intros t Hn. apply bool_decide_eq_false in Hn. destruct (ev_get t (object o d)) eqn:Et; [|done]. destruct Hn. apply ev_get_in. by eexists. }
  split; [done|]. split; [|split; [done|]].
  - apply I4; [|done|done]. intros e' t. cbn. unfold Spec.upd_all. destruct (decide (e' = e)) as [->|]; [|done].
    destruct (bool_decide _) eqn:Hb; [done|]. rewrite (agree_list e o t d s Ha Ho). by rewrite (Hk t Hb).
  - intros t. rewrite I3. destruct (bool_decide _) eqn:Hb; [done|]. by apply Hk.
Qed.

Lemma remove_listeners_spec e st d s :
  inv d -> agree d s -> expandoStore e d = Some st ->
  let d' := remove_listeners e st d in
  inv d' /\ agree d' (Spec.drop_all e None (Spec.call_all e "$destroy" s)) /\ frame d d' /\
  forall o t, own e d = Some o -> ev_get t (object o d') = None.
Proof.
  intros Hd Ha E. unfold remove_listeners. pose proof (inv_same d Hd e st E) as Hsame. rewrite <- Hsame.
  assert (Hown : own e d = st_events st) by (unfold own; by rewrite E).
  destruct (st_events st) as [o|] eqn:Eo.
  - assert (H0 : exists d0, (if bool_decide (is_Some (ev_get "$destroy" (object o d))) then eventHandler e o "$destroy" true d else d) = d0 /\
      inv d0 /\ agree d0 (Spec.call_all e "$destroy" s) /\ frame d d0).
    { case_bool_decide as Hb; eexists; (split; [reflexivity|]).
      - by apply (handler_spec e o "$destroy" d s).
      - split; [done|]. rewrite deliver_nothing; [done|]. rewrite (agree_list e o _ d s Ha Hown).
        destruct (ev_get "$destroy" (object o d)); [|done]. destruct Hb. by eexists. }
    destruct H0 as (d0 & -> & H1 & H2 & H3).
    destruct (off_all_spec e o d0 _ H1 H2) as (H4 & H5 & H6 & H7); [by rewrite (frame_own e _ _ H3)|].
    split; [done|]. split; [done|]. split; [by eapply frame_trans|]. intros o' t. rewrite Hown. by intros [= <-].
  - assert (Hn : forall t, Spec.on s e t = []) by (intros t; rewrite (ag_on d s Ha); unfold list_of; by rewrite Hown).
    split; [done|]. split; [|split; [done|by intros o t; rewrite Hown]]. rewrite deliver_nothing by apply Hn.
    destruct Ha as [A1 A2 A3]. constructor; [|done|done]. intros e' t. rewrite <- A1. cbn. unfold Spec.upd_all.
    by destruct (decide (e' = e)) as [->|].
Qed.

(** Dropping the store of an element whose object is empty. *)
Lemma delete_store_spec e i d s :
  inv d -> agree d s -> ng339 d !! e = Some i -> (forall o t, own e d = Some o -> ev_get t (object o d) = None) ->
  let d' := Dom (delete e (ng339 d)) (delete i (jqCache d)) (jqId d) (objects d) (next_object d) (natives d) (log d) in
  inv d' /\ expandoStore e d' = None /\
  agree d' (Spec.State (Spec.upd_all (Spec.on s) e []) (Spec.upd_all (Spec.data s) e JUndef) (Spec.calls s)).
Proof.
  intros Hd Ha Hi Hempty d'. destruct (inv_nb d Hd) as [N1 N2 N3 N4].
  assert (E : forall e', expandoStore e' d' = if decide (e' = e) then None else expandoStore e' d).
  { intros e'. unfold expandoStore, d'. cbn. destruct (decide (e' = e)) as [->|Hne]; [by rewrite lookup_delete_eq|].
    rewrite lookup_delete_ne by done. destruct (ng339 d !! e') as [j|] eqn:Ej; [|done]. cbn. rewrite lookup_delete_ne; [done|].
    intros ->. apply Hne. by apply (N1 e' e j). }
  assert (Hown : forall e', own e' d' = if decide (e' = e) then None else own e' d) by (intros e'; unfold own; rewrite E; by destruct (decide (e' = e))).
  assert (Hsub : forall e' o, own e' d' = Some o -> own e' d = Some o /\ e' <> e) by (intros e' o; rewrite Hown; by destruct (decide (e' = e))).
  split; [|split; [by rewrite E, decide_True|]].
  - destruct Hd. constructor; try done.
    + constructor; cbn.
      * intros e1 e2 j (_ & H1)%lookup_delete_Some (_ & H2)%lookup_delete_Some. by apply (N1 e1 e2 j).
      * intros e' j (_ & H)%lookup_delete_Some. by apply (N2 e').
      * intros e' j (Hne & H)%lookup_delete_Some. rewrite lookup_delete_ne; [by apply (N3 e')|]. intros ->. apply Hne. by apply (N1 e e' j).
      * intros j Hj. destruct (decide (i = j)) as [<-|Hne]; [rewrite lookup_delete_eq in Hj; by destruct Hj|].
        rewrite lookup_delete_ne in Hj by done. destruct (N4 j Hj) as [e' He']. exists e'. rewrite lookup_delete_ne; [done|]. intros ->. congruence.
    + intros e' st. rewrite E. destruct (decide (e' = e)); [done|apply inv_same0].
    + intros e1 e2 o [H1 _]%Hsub [H2 _]%Hsub. by apply (inv_own0 e1 e2 o).
    + intros e' o [H _]%Hsub. by apply (inv_obj0 e').
    + intros e' o t [H _]%Hsub. by apply inv_key0.
    + intros e' t h H Hne t'. destruct (decide (own e' d = Some h)) as [Ho|Ho]; [|by apply (inv_stale0 e' t)].
      rewrite Hown in Hne. destruct (decide (e' = e)) as [->|]; [by apply Hempty|done].
    + intros e1 e2 t h H [H2 _]%Hsub. by apply (inv_here0 e1 e2 t h).
    + intros e' st ps. rewrite E. destruct (decide (e' = e)); [done|apply inv_data0].
  - destruct Ha as [A1 A2 A3]. constructor; [| |done]; intros e' t; cbn; unfold Spec.upd_all.
    + rewrite A1. unfold list_of. rewrite Hown. by destruct (decide (e' = e)).
    + rewrite A2. unfold data_own. rewrite E. by destruct (decide (e' = e)).
Qed.

Lemma agree_ext d s s' :
  agree d s -> (forall e t, Spec.on s' e t = Spec.on s e t) -> (forall e k, Spec.data s' e k = Spec.data s e k) ->
  Spec.calls s' = Spec.calls s -> agree d s'.
Proof. intros [A1 A2 A3] H1 H2 H3. constructor; intros; rewrite ?H1, ?H2, ?H3; done. Qed.

Lemma forget_spec e d s :
  inv d -> agree d s ->
  let d' := (jqLiteRemoveData e None d).2 in inv d' /\ agree d' (Spec.forget e s) /\ expandoStore e d' = None /\
  (forall e', expandoStore e' d = None -> expandoStore e' d' = None).
Proof.
  intros Hd Ha. unfold jqLiteRemoveData. destruct (expandoStore e d) as [st|] eqn:E.
  - assert (Hi : exists i, ng339 d !! e = Some i) by (unfold expandoStore in E; destruct (ng339 d !! e) as [i|]; [by exists i|done]).
    destruct Hi as [i Hi]. rewrite Hi. cbn [snd]. destruct (remove_listeners_spec e st d s Hd Ha E) as (H1 & H2 & H3 & H4).
    set (d1 := remove_listeners e st d) in *.
    destruct (delete_store_spec e i d1 _ H1 H2) as (H5 & H6 & H7).
    + by rewrite (fr_num _ _ H3).
    + intros o t. rewrite (frame_own e _ _ H3). apply H4.
    + split; [done|]. split; [|split; [done|]].
      * eapply agree_ext; [exact H7| |done|done]. intros e' t. cbn. unfold Spec.upd_all. by destruct (decide (e' = e)).
      * intros e' H'. unfold expandoStore in H' |- *. cbn. rewrite (fr_num _ _ H3), (fr_cache _ _ H3).
        destruct (decide (e = e')) as [<-|Hne]; [by rewrite lookup_delete_eq|]. rewrite lookup_delete_ne by done.
        destruct (ng339 d !! e') as [j|]; [|done]. cbn in *. destruct (decide (i = j)) as [<-|]; [by rewrite lookup_delete_eq|].
        by rewrite lookup_delete_ne.
  - cbn [snd]. split; [done|]. split; [|done].
    assert (Ho : own e d = None) by (unfold own; by rewrite E).
    assert (Hn : forall t, Spec.on s e t = []) by (intros t; rewrite (ag_on d s Ha); unfold list_of; by rewrite Ho).
    unfold Spec.forget. rewrite deliver_nothing by apply Hn. destruct Ha as [A1 A2 A3].
    constructor; [| |done]; intros e' t; cbn; unfold Spec.upd_all; destruct (decide (e' = e)) as [->|]; try done.
    + by rewrite <- A1, Hn.
    + unfold data_own. by rewrite E.
Qed.

(** Subtrees. *)
Lemma tree_ind' (P : tree -> Prop) : (forall e ts, Forall P ts -> P (Node e ts)) -> forall t, P t.
Proof.
  intros H. fix IH 1. intros [e ts]. apply H. induction ts as [|t ts IHts]; constructor; [apply IH|exact IHts].
Qed.

Lemma dealoc_fold t d : jqLiteDealoc t d = fold_left (fun d e => (jqLiteRemoveData e None d).2) (Spec.nodes_of t) d.
Proof.
  revert d. induction t as [e ts IH] using tree_ind'. intros d. cbn [jqLiteDealoc Spec.nodes_of fold_left].
  generalize (jqLiteRemoveData e None d).2. induction IH as [|t ts Ht _ IHts]; intros d'; [done|]. cbn [fold_left flat_map].
  by rewrite fold_left_app, Ht, IHts.
Qed.

Lemma dealoc_spec t d s :
  inv d -> agree d s ->
  inv (jqLiteDealoc t d) /\ agree (jqLiteDealoc t d) (fold_left (fun s e => Spec.forget e s) (Spec.nodes_of t) s) /\
  (forall e, e ∈ Spec.nodes_of t -> expandoStore e (jqLiteDealoc t d) = None).
Proof.
  rewrite dealoc_fold. intros Hd Ha.
  assert (H : forall l d s, inv d -> agree d s ->
    inv (fold_left (fun d e => (jqLiteRemoveData e None d).2) l d) /\
    agree (fold_left (fun d e => (jqLiteRemoveData e None d).2) l d) (fold_left (fun s e => Spec.forget e s) l s) /\
    (forall e, e ∈ l \/ expandoStore e d = None -> expandoStore e (fold_left (fun d e => (jqLiteRemoveData e None d).2) l d) = None)).
  { clear. induction l as [|e l IH]; intros d s Hd Ha; [split; [done|]; split; [done|]; intros e [?%not_elem_of_nil|]; done|].
    cbn [fold_left]. destruct (forget_spec e d s Hd Ha) as (H1 & H2 & H3 & H4). destruct (IH _ _ H1 H2) as (H5 & H6 & H7).
    split; [done|]. split; [done|]. intros e' [[->|H]%elem_of_cons|H]; apply H7; [by right|by left|right; by apply H4]. }
  destruct (H (Spec.nodes_of t) d s Hd Ha) as (H1 & H2 & H3). split; [done|]. split; [done|]. intros e He. apply H3. by left.
Qed.

(** *** Every history *)

Definition allowed (o : op) : Prop :=
  match o with
  | On _ types _ | One _ types _ => plain_types types = true
  | DataSet _ k v => v <> JUndef /\ k <> "__proto__"
  | _ => True
  end.

Lemma step_spec o d s :
  inv d -> agree d s -> allowed o -> inv (step o d) /\ agree (step o d) (Spec.step o s).
Proof.
  intros Hd Ha Hok. destruct o as [e types f|e types f|e types f|e t|e t|e k v|e|e name|t]; cbn [step Spec.step allowed] in *.
  - by apply on_spec.
  - destruct (on_spec e types (OneOf types f) d s Hd Ha eq_refl Hok) as [H1 H2]. by apply on_spec.
  - destruct types as [types|].
    + destruct f as [f|]; cbn [fmap option_fmap option_map].
      * by destruct (drop_listener_spec e types (User f) d s Hd Ha) as (? & ? & _).
      * by apply clear_spec.
    + assert (H : inv (jqLiteOff e None (User <$> f) d) /\ agree (jqLiteOff e None (User <$> f) d) (Spec.drop_all e None s)).
      { assert (Hf : forall fn, jqLiteOff e None fn d = jqLiteOff e None None d)
          by (intros fn; unfold jqLiteOff; by destruct (expandoStore e d) as [[[o|] [h|] ps]|]).
        rewrite Hf. destruct (own e d) as [o|] eqn:Ho.
        - by destruct (off_all_spec e o d s Hd Ha Ho) as (? & ? & _).
        - rewrite no_own by done. split; [done|]. eapply agree_ext; [exact Ha| |done|done]. intros e' t. cbn. unfold Spec.upd_all.
          destruct (decide (e' = e)) as [->|]; [|done]. rewrite (ag_on d s Ha). unfold list_of. by rewrite Ho. }
      by destruct f.
  - by apply fire_spec.
  - by apply trigger_spec.
  - apply (store_data_spec e (fun ps => prop_set ps k v) d s (Spec.upd (Spec.data s) e k v) Hd Ha).
    + intros ps. apply prop_set_NoDup.
    + intros k'. unfold Spec.upd. destruct (decide (k = k')) as [<-|Hk].
      * rewrite decide_True by done. apply prop_get_set_eq.
      * rewrite decide_False by naive_solver. rewrite prop_get_set_ne by done. rewrite (ag_data d s Ha). unfold data_own.
        by destruct (expandoStore e d ≫= st_data).
    + intros e' k' Hne. unfold Spec.upd. by rewrite decide_False by naive_solver.
  - unfold data_all. destruct (expandoStore e d ≫= st_data) as [ps|] eqn:E; [done|].
    pose proof (store_data_spec e (fun ps => ps) d s (Spec.data s) Hd Ha) as H. cbn zeta in H.
    destruct H as [H1 H2]; [done| |done|].
    + intros k. rewrite (ag_data d s Ha). unfold data_own. by destruct (expandoStore e d ≫= st_data).
    + assert (Hset : set_store e (fun s => Store (st_events s) (st_handle s) (Some [])) d =
                     set_store e (fun s => Store (st_events s) (st_handle s) (Some (default [] (st_data s)))) d).
      { unfold set_store. destruct (expandoStore e d) as [st|] eqn:Es; [|done]. destruct (ng339 d !! e); [|done].
        cbn in E. by rewrite E. }
      rewrite Hset. split; [done|]. eapply agree_ext; [exact H2|done..].
  - destruct name as [[|c name]|].
    + destruct (forget_spec e d s Hd Ha) as (H1 & H2 & _).
      assert (Hn : jqLiteRemoveData e (Some "") d = jqLiteRemoveData e None d) by (unfold jqLiteRemoveData; by destruct (expandoStore e d), (ng339 d !! e)).
      by rewrite Hn.
    + by apply remove_name_spec.
    + by destruct (forget_spec e d s Hd Ha) as (H1 & H2 & _).
  - by destruct (dealoc_spec t d s Hd Ha) as (H1 & H2 & _).
Qed.

Lemma exec_spec ops d s : inv d -> agree d s -> Forall allowed ops -> inv (exec ops d) /\ agree (exec ops d) (Spec.exec ops s).
Proof.
  revert d s. induction ops as [|o ops IH]; intros d s Hd Ha Hok; [done|]. apply Forall_cons in Hok as [Ho Hok].
  destruct (step_spec o d s Hd Ha Ho) as [H1 H2]. by apply (IH (step o d) (Spec.step o s)).
Qed.

Lemma data_get_own proto e k d : proto k = JUndef -> data_get proto e k d = data_own e k d.
Proof.
  intros Hp. unfold data_get, data_own. destruct (expandoStore e d ≫= st_data) as [ps|]; [|done].
  induction ps as [|[k' v] ps IH]; [done|]. cbn. by destruct (String.eqb k' k).
Qed.

(** C18: through every history of listeners and data - listeners of any types but
    [mouseenter], [mouseleave], [forEach] and the names of [Object.prototype],
    values that are defined under any key but [__proto__], listeners that do not
    change the listeners or data themselves -, the stores, their
    numbers and the shared objects amount to this: each element has its own list
    of listeners for each type and its own values by key, which are read under
    every key [Object.prototype] has nothing for; an event, fired by the browser
    or triggered, calls the listeners there were when it came, each once and in
    order, and those of [one] not again, whatever handlers the browser was given
    and never asked to take back.  When a subtree is let go its [$destroy]
    listeners are called, an element before its children, none of its elements
    has a store any more, and each store still in the cache is of an element
    outside it. *)
Theorem listeners_refine (object_proto : string -> jsval) (ops : list op) (Hok : Forall allowed ops) :
  let d := exec ops start in
  let s := Spec.exec ops Spec.start in
  (forall e t, list_of e t d = Spec.on s e t) /\
  (forall e k, object_proto k = JUndef -> data_get object_proto e k d = Spec.data s e k) /\ log d = Spec.calls s /\
  (forall t, let d' := jqLiteDealoc t d in
    log d' = Spec.calls (fold_left (fun s e => Spec.forget e s) (Spec.nodes_of t) s) /\
    (forall e, e ∈ Spec.nodes_of t -> expandoStore e d' = None) /\
    (forall i, is_Some (jqCache d' !! i) -> exists e, ng339 d' !! e = Some i /\ e ∉ Spec.nodes_of t)).
Proof.
  intros d s. assert (H : inv d /\ agree d s) by (apply exec_spec; [apply start_inv| |done]; by constructor).
  destruct H as [Hd Ha]. destruct Ha as [A1 A2 A3] eqn:EA. clear EA.
  split; [done|]. split; [intros e k Hp; by rewrite data_get_own|]. split; [done|]. intros t d'.
  destruct (dealoc_spec t d s Hd) as (H1 & H2 & H3); [by constructor|].
  split; [symmetry; apply H2|]. split; [done|]. intros i Hi. destruct (nb_kept _ (inv_nb _ H1) i Hi) as [e He]. exists e. split; [done|].
  intros Hin. specialize (H3 e Hin). unfold expandoStore in H3. rewrite He in H3. cbn in H3. destruct Hi as [st Hst].
  unfold d' in Hst. by rewrite Hst in H3.
Qed.

Lemma listeners_refine_witness :
  let ops := [On 1 "click" 7; One 1 "click keyup" 8; DataSet 1 "k" (JNum 3); On 2 "$destroy" 9; Fire 1 "click"; Fire 1 "click"] in
  log (exec ops start) = [Called 1 "click" 7; Called 1 "click" 8; Called 1 "click" 7] /\
  log (jqLiteDealoc (Node 1 [Node 2 []]) (exec ops start)) =
    [Called 1 "click" 7; Called 1 "click" 8; Called 1 "click" 7; Called 2 "$destroy" 9] /\
  expandoStore 2 (jqLiteDealoc (Node 1 [Node 2 []]) (exec ops start)) = None.
Proof.
  intros ops. assert (Hok : Forall allowed ops) by (repeat constructor; discriminate).
  destruct (listeners_refine (fun _ => JUndef) ops Hok) as (_ & _ & H3 & H4). destruct (H4 (Node 1 [Node 2 []])) as (H5 & H6 & _).
  split; [refine (eq_trans H3 _); vm_compute; reflexivity|]. split; [refine (eq_trans H5 _); vm_compute; reflexivity|].
  apply H6. vm_compute. right. left.
Defined.

(** *** What goes wrong *)

(** Listening again for the pointer entering calls the listener twice. *)
Example enter_twice :
  let ops := [On 1 "mouseenter" 5; Off 1 (Some "mouseenter") None; On 1 "mouseenter" 5; Fire 1 "mouseover"] in
  log (exec ops start) = [Called 1 "mouseenter" 5; Called 1 "mouseenter" 5].
Proof. reflexivity. Qed.

(** Removing one value of an element that has listeners and no data. *)
Example remove_name_throws : (jqLiteRemoveData 1 (Some "k") (exec [On 1 "click" 5] start)).1 = Err NoData.
Proof. reflexivity. Qed.

(** The handlers given to the browser are never taken back. *)
Example handlers_stay :
  length (listened 1 (exec [On 1 "click" 5; RemoveData 1 None; On 1 "click" 5; RemoveData 1 None] start)) = 2%nat.
Proof. reflexivity. Qed.
