(* ===== verification/NgBlocks.v ===== *)
(** * NgBlocks: classes and blocks that follow a value

    [ClassDir] is [ngClass], [ngClassOdd] and [ngClassEven] on one element
    (angular.js 18510-18624); [If], [Switch] and [Include] are the blocks of
    [ngIf], [ngSwitch] and [ngInclude] (19773-19818, 21287-21358, 19980-20059), with
    the clones they show, the scopes they make and the callbacks of [$animate], which
    are run later. *)

From S2P Require Import Prelude Text Js NgCore NgInterpolate NgDirective NgBinding.

#[local] Set Warnings "-clear-no-such-hyp".

(** ** Classes *)

Module ClassDir.
Import Classes.

(** The values of the attribute; an object is its keys with the truth of their
    values, and has none of the keys by which [forEach] goes through it in
    another way: [forEach], [hasOwnProperty] and [length]. *)
Inductive cval := VNone | VStr (s : string) | VArr (l : list string) | VObj (m : list (string * bool)).

#[global] Instance cval_eq_dec : EqDecision cval.
Proof. solve_decision. Defined.

Definition is_truthy (v : cval) : bool :=
  match v with VNone => false | VStr s => negb (String.eqb s "") | _ => true end.

Fixpoint find_key (k : string) (m : list (string * bool)) : option bool :=
  match m with [] => None | (k', b) :: m => if String.eqb k' k then Some b else find_key k m end.

(** [equals] of two such values. *)
Definition equals (a b : cval) : bool :=
  match a, b with
  | VObj m, VObj m' =>
      (length m =? length m')%nat && forallb (fun p => bool_decide (find_key p.1 m' = Some p.2)) m
  | _, _ => bool_decide (a = b)
  end.

(** angular.js 18607-18622; of no value, nothing is gone through. *)
Definition arrayClasses (v : cval) : list string :=
  match v with
  | VNone => []
  | VStr s => split_char " " s
  | VArr l => l
  | VObj m => flat_map (fun p : string * bool => if p.2 then split_char " " p.1 else []) m
  end.

(** angular.js 18593-18605 *)
Definition arrayDifference (tokens1 tokens2 : list string) : list string :=
  List.filter (fun t => negb (existsb (String.eqb t) tokens2)) tokens1.

(** The element: its [$classCounts] and its class attribute. *)
Record host := Host { counts : list (string * Z); cls : string }.

Fixpoint get_count (c : string) (m : list (string * Z)) : Z :=
  match m with [] => 0 | (c', n) :: m => if String.eqb c' c then n else get_count c m end.

Fixpoint set_count (c : string) (n : Z) (m : list (string * Z)) : list (string * Z) :=
  match m with
  | [] => [(c, n)]
  | (c', n') :: m => if String.eqb c' c then (c, n) :: m else (c', n') :: set_count c n m
  end.

(** angular.js 18551-18558; [up] is a count of 1, otherwise it is -1.  [classCounts]
    is an object literal: what it has under a name of [Object.prototype] is no
    number, nor is the text that adding to it makes, so such a name is never
    among the classes to update. *)
Fixpoint count_classes (up : bool) (classes : list string) (m : list (string * Z)) : list (string * Z) * list string :=
  match classes with
  | [] => (m, [])
  | c :: classes =>
      let '(m, hit) :=
        if object_name c then (m, [])
        else if up || negb (get_count c m =? 0) then
          let n := get_count c m + (if up then 1 else -1) in
          (set_count c n m, if n =? (if up then 1 else 0) then [c] else [])
        else (m, []) in
      let '(m, rest) := count_classes up classes m in (m, hit ++ rest)
  end.

(** angular.js 18548-18561 *)
Definition digestClassCounts (classes : list string) (up : bool) (h : host) : host * string :=
  let '(m, l) := count_classes up classes (counts h) in (Host m (cls h), join " " l).

(** [attr.$addClass] and [attr.$removeClass] (angular.js 5852-5873), through
    [$animate]. *)
Definition addClass (s : string) (h : host) : host := Host (counts h) (if String.eqb s "" then cls h else jqLiteAddClass (cls h) s).
Definition removeClass (s : string) (h : host) : host := Host (counts h) (if String.eqb s "" then cls h else jqLiteRemoveClass (cls h) s).

(** angular.js 18538-18546 *)
Definition addClasses (classes : list string) (h : host) : host :=
  let '(h, s) := digestClassCounts classes true h in addClass s h.
Definition removeClasses (classes : list string) (h : host) : host :=
  let '(h, s) := digestClassCounts classes false h in removeClass s h.

(** angular.js 18563-18576 *)
Definition updateClasses (oldClasses newClasses : list string) (h : host) : host :=
  let '(h, toRemove) := digestClassCounts (arrayDifference oldClasses newClasses) false h in
  let '(h, toAdd) := digestClassCounts (arrayDifference newClasses oldClasses) true h in
  Host (counts h)
    (if String.eqb toAdd "" then jqLiteRemoveClass (cls h) toRemove
     else if String.eqb toRemove "" then jqLiteAddClass (cls h) toAdd
     else jqLiteRemoveClass (jqLiteAddClass (cls h) toAdd) toRemove).

(** One directive: its selector, [true] being [None]; [oldVal]; what its two
    watches last saw. *)
Record dir := Dir { selector : option Z; oldVal : cval; lastVal : option cval; lastIndex : option Z }.

Definition selected (sel : option Z) (index : Z) : bool :=
  match sel with None => true | Some m => index mod 2 =? m end.

(** angular.js 18578-18589 *)
Definition ngClassWatchAction (newVal : cval) (index : Z) (d : dir) (h : host) : dir * host :=
  let h := if selected (selector d) index then
             let newClasses := if is_truthy newVal then arrayClasses newVal else [] in
             if negb (is_truthy (oldVal d)) then addClasses newClasses h
             else if negb (equals newVal (oldVal d)) then updateClasses (arrayClasses (oldVal d)) newClasses h
             else h
           else h in
  (Dir (selector d) newVal (lastVal d) (lastIndex d), h).

(** angular.js 18525-18536 *)
Definition index_watch (index old : Z) (v : cval) (d : dir) (h : host) : host :=
  match selector d with
  | None => h
  | Some sel =>
      if index mod 2 =? old mod 2 then h
      else if index mod 2 =? sel then addClasses (arrayClasses v) h
      else removeClasses (arrayClasses v) h
  end.

(** A directive's watches in a digest, in the order they were registered. *)
Definition visit (index : Z) (v : cval) (d : dir) (h : host) : dir * host :=
  let '(d, h) :=
    if match lastVal d with Some l => equals v l | None => false end then (d, h)
    else
      let '(d, h) := ngClassWatchAction v index d h in
      (Dir (selector d) (oldVal d) (Some v) (lastIndex d), h) in
  match lastIndex d with
  | Some old =>
      if index =? old then (d, h)
      else (Dir (selector d) (oldVal d) (lastVal d) (Some index), index_watch index old v d h)
  | None => (Dir (selector d) (oldVal d) (lastVal d) (Some index), index_watch index index v d h)
  end.

(** The directives of an element, each with its value. *)
Fixpoint digest (index : Z) (vals : list cval) (ds : list dir) (h : host) : list dir * host :=
  match ds, vals with
  | d :: ds, v :: vals =>
      let '(d, h) := visit index v d h in
      let '(ds, h) := digest index vals ds h in (d :: ds, h)
  | _, _ => (ds, h)
  end.

Fixpoint digests (l : list (Z * list cval)) (ds : list dir) (h : host) : list dir * host :=
  match l with
  | [] => (ds, h)
  | (index, vals) :: l => let '(ds, h) := digest index vals ds h in digests l ds h
  end.

Definition linked (sel : option Z) : dir := Dir sel VNone None None.

(** Two conditions of one class, one of which goes: the class stays when the
    other does. *)
Example doubled_class_stays :
  cls (digests [(0, [VArr ["a"; "a"]]); (0, [VArr ["a"]]); (0, [VArr []])] [linked None] (Host [] "")).2 = "a".
Proof. reflexivity. Qed.

(** The value and the parity of the row change in one digest: the class is counted
    twice and stays when the row leaves it. *)
Example moved_row_keeps_class :
  cls (digests [(1, [VStr "a"]); (0, [VStr "b"]); (1, [VStr "b"])] [linked (Some 0)] (Host [] "")).2 = "b".
Proof. reflexivity. Qed.

(** A class that object literals have as a member is never added. *)
Example inherited_class_ignored :
  cls (digests [(0, [VStr "a constructor"])] [linked None] (Host [] "")).2 = "a".
Proof. reflexivity. Qed.

(** *** Counting *)






(** The classes that are counted. *)
Definition counted (l : list string) : list string := filter (fun c => object_name c = false) l.

Lemma counted_in c l : c ∈ counted l <-> c ∈ l /\ object_name c = false.
Proof. unfold counted. rewrite list_elem_of_filter. tauto. Qed.





(** *** The class attribute *)


Lemma text_nil ws : Forall word ws -> String.eqb (text ws) "" = bool_decide (ws = []).
Proof.
  intros H. destruct ws as [|w ws]; [done|]. apply Forall_cons in H as [Hw _]. rewrite bool_decide_false by done.
  apply String.eqb_neq. by apply text_nonempty.
Qed.




(** *** The three changes *)

Definition names (base classes : list string) : Prop :=
  NoDup classes /\ Forall word classes /\ forall w, w ∈ classes -> w ∉ base.

Lemma text_empty_if (l : list string) (A : Type) (x y : A) : Forall word l -> (if String.eqb (text l) "" then x else y) = if bool_decide (l = []) then x else y.
Proof. intros H. by rewrite text_nil. Qed.

Lemma counted_names base l : names base l -> names base (counted l).
Proof.
  intros (H1 & H2 & H3). split; [by apply NoDup_filter|]. split.
  - rewrite Forall_forall in *. intros w [Hw _]%counted_in. by apply H2.
  - intros w [Hw _]%counted_in. by apply H3.
Qed.








(** *** One directive *)

(** A value whose classes are names, each once. *)
Definition good (base : list string) (v : cval) : Prop :=
  v <> VStr "" /\ names base (arrayClasses v) /\ match v with VObj m => NoDup m.*1 | _ => True end.






(** What a directive keeps on its element, for a value and an index. *)
Definition keeps (sel : option Z) (index : Z) (v : cval) : list string := if selected sel index then counted (arrayClasses v) else [].



Lemma keeps_names base sel index v : good base v -> names base (keeps sel index v).
Proof.
  intros (_ & H & _). unfold keeps. destruct (selected sel index); [by apply counted_names|].
  split; [constructor|]. split; [constructor|]. intros w Hw. by apply not_elem_of_nil in Hw.
Qed.








(** *** All of them *)












End ClassDir.

(** ** The page *)

(** The clones of blocks on the page, and the scopes made for them and not yet
    destroyed. *)
Record page := Page { shown : list nat; alive : list nat; next : nat }.

Definition enter (clone : nat) (p : page) : page := Page (shown p ++ [clone]) (alive p) (next p).

(** [element.remove()], which may come again. *)
Definition remove (clone : nat) (p : page) : page := Page (filter (fun c => c <> clone) (shown p)) (alive p) (next p).

(** angular.js 4253-4256; when the callback it is given comes is the history's
    to say. *)
Definition leave (clone : nat) (p : page) : page := remove clone p.

(** [$new()] *)
Definition new_scope (p : page) : nat * page := (next p, Page (shown p) (alive p ++ [next p]) (S (next p))).
Definition new_clone (p : page) : nat * page := (next p, Page (shown p) (alive p) (S (next p))).

(** [$destroy()] *)
Definition destroy (scope : nat) (p : page) : page := Page (shown p) (filter (fun c => c <> scope) (alive p)) (next p).

Lemma filter_last (l : list nat) c : c ∉ l -> filter (fun x => x <> c) (l ++ [c]) = l.
Proof.
  intros Hc. rewrite filter_app, filter_keep, filter_drop; [by rewrite app_nil_r| |].
  - constructor; [by intros H|constructor].
  - apply Forall_forall. by intros x Hx ->.
Qed.

Lemma filter_all (l : list nat) (xs : list nat) : fold_left (fun l x => filter (fun y => y <> x) l) xs l = filter (fun y => y ∉ xs) l.
Proof.
  revert l. induction xs as [|x xs IH]; intros l; cbn.
  - symmetry. apply filter_keep, Forall_forall. intros y _. apply not_elem_of_nil.
  - rewrite IH, list_filter_filter. apply filter_ext_in, Forall_forall. intros y _. rewrite elem_of_cons. tauto.
Qed.

(** ** A block that is there or not *)

Module If.

Record state := State { block : option nat; childScope : option nat; previousElements : option nat; at_ : page }.

(** angular.js 19782-19815; the value has been through [toBoolean]. *)
Definition ngIfWatchAction (value : bool) (s : state) : state :=
  if value then
    match childScope s with
    | Some _ => s
    | None =>
        let '(scope, p) := new_scope (at_ s) in
        let '(clone, p) := new_clone p in
        State (Some clone) (Some scope) (previousElements s) (enter clone p)
    end
  else
    let p := match previousElements s with Some e => remove e (at_ s) | None => at_ s end in
    let p := match childScope s with Some c => destroy c p | None => p end in
    match block s with
    | Some b => State None None (Some b) (leave b p)
    | None => State None None None p
    end.

(** angular.js 19809-19811 *)
Definition left (s : state) : state := State (block s) (childScope s) None (at_ s).

Inductive event := Watch (value : bool) | Left.

Definition step (s : state) (e : event) : state := match e with Watch v => ngIfWatchAction v s | Left => left s end.

Definition start : state := State None None None (Page [] [] 0).

Fixpoint last_value (es : list event) (v : bool) : bool :=
  match es with [] => v | Watch v' :: es => last_value es v' | Left :: es => last_value es v end.

Record ok (v : bool) (s : state) : Prop := Ok_ {
  ok_block : is_Some (block s) <-> v = true;
  ok_shown : shown (at_ s) = match block s with Some b => [b] | None => [] end;
  ok_alive : alive (at_ s) = match childScope s with Some c => [c] | None => [] end;
  ok_both : is_Some (block s) <-> is_Some (childScope s)
}.

Lemma if_step_ok e v s : ok v s -> ok (match e with Watch v' => v' | Left => v end) (step s e).
Proof.
  intros [H1 H2 H3 H4]. destruct s as [[b|] [c|] p [sh al n]]; cbn in *; subst; try (by destruct (proj1 H4 ltac:(by eexists))); try (by destruct (proj2 H4 ltac:(by eexists))).
  - destruct e as [[]|]; [by constructor| |by constructor].
    destruct p as [e|]; constructor; cbn; try done; try (by split; intros []);
      rewrite ?filter_cons; repeat case_decide; cbn; rewrite ?filter_cons; repeat case_decide; done || congruence.
  - destruct e as [[]|]; cbn; [| |by constructor].
    + constructor; cbn; try done; split; intros; done || by eexists.
    + destruct p; constructor; cbn; try done; split; intros; done || by destruct H.
Qed.

(** The clone is on the page exactly when the last value was true, alone, with its
    scope, and nothing else is left. *)
Theorem if_exact (es : list event) :
  let s := fold_left step es start in ok (last_value es false) s.
Proof.
  assert (H : forall es v s, ok v s -> ok (last_value es v) (fold_left step es s)).
  { clear. induction es as [|e es IH]; intros v s Hs; [done|]. cbn [fold_left].
    pose proof (if_step_ok e v s Hs) as H. destruct e as [v'|]; cbn [last_value]; by apply IH. }
  apply H. constructor; cbn; try done; split; intros; done || by destruct H0.
Qed.

End If.

(** ** One of several blocks *)

Module Switch.

(** The controller's cases: the blocks of each key, in the order they were
    linked. *)
Abbreviation cases := (list (string * list nat)).

Fixpoint find_case (k : string) (m : cases) : option (list nat) :=
  match m with [] => None | (k', l) :: m => if String.eqb k' k then Some l else find_case k m end.

Fixpoint add_case (k : string) (b : nat) (m : cases) : cases :=
  match m with
  | [] => [(k, [b])]
  | (k', l) :: m => if String.eqb k' k then (k, l ++ [b]) :: m else (k', l) :: add_case k b m
  end.

(** angular.js 21344-21356 *)
Definition ngSwitchWhen (value : string) (b : nat) (m : cases) : cases := add_case ("!" +:+ value) b m.
Definition ngSwitchDefault (b : nat) (m : cases) : cases := add_case "?" b m.

(** A clone on the page, of a block. *)
Record clone := Clone { c_id : nat; c_block : nat }.

(** A callback holds the variable [i] of its watch, which has the value it had when the
    loop ended. *)
Record state := State {
  selectedElements : list clone;
  selectedScopes : list nat;
  previousElements : list clone;
  at_ : page;
  pending : list nat
}.

Definition block_of (st : state) : list nat := map c_block (selectedElements st).

(** angular.js 21324-21333 *)
Fixpoint enter_all (blocks : list nat) (els : list clone) (scs : list nat) (p : page) : list clone * list nat * page :=
  match blocks with
  | [] => (els, scs, p)
  | b :: blocks =>
      let '(scope, p) := new_scope p in
      let '(id, p) := new_clone p in
      enter_all blocks (els ++ [Clone id b]) (scs ++ [scope]) (enter id p)
  end.

(** angular.js 21303-21335; [value] is the text of the value. *)
Definition ngSwitchWatchAction (m : cases) (value : string) (s : state) : state :=
  let p := fold_left (fun p c => remove (c_id c) p) (previousElements s) (at_ s) in
  let p := fold_left (fun p '(c, sc) => leave (c_id c) (destroy sc p)) (zip (selectedElements s) (selectedScopes s)) p in
  let k := length (selectedScopes s) in
  let pending := pending s ++ map (fun _ => k) (selectedScopes s) in
  let previous := selectedElements s in
  match (match find_case ("!" +:+ value) m with Some l => Some l | None => find_case "?" m end) with
  | Some blocks =>
      let '(els, scs, p) := enter_all blocks [] [] p in State els scs previous p pending
  | None => State [] [] previous p pending
  end.

(** angular.js 21314-21316: [previousElements.splice(i, 1)]. *)
Definition left (s : state) : state :=
  match pending s with
  | i :: pending => State (selectedElements s) (selectedScopes s) (delete i (previousElements s)) (at_ s) pending
  | [] => s
  end.

Inductive event := Watch (value : string) | Left.

Definition step (m : cases) (s : state) (e : event) : state :=
  match e with Watch v => ngSwitchWatchAction m v s | Left => left s end.

Definition start : state := State [] [] [] (Page [] [] 0) [].

(** The block or blocks of a value. *)
Definition chosen (m : cases) (value : string) : list nat :=
  match find_case ("!" +:+ value) m with Some l => l | None => default [] (find_case "?" m) end.

Fixpoint last_value (es : list event) (v : option string) : option string :=
  match es with [] => v | Watch v' :: es => last_value es (Some v') | Left :: es => last_value es v end.

Record ok (m : cases) (v : option string) (s : state) : Prop := Ok_ {
  ok_blocks : block_of s = match v with Some v => chosen m v | None => [] end;
  ok_shown : shown (at_ s) = map c_id (selectedElements s);
  ok_alive : alive (at_ s) = selectedScopes s;
  ok_pairs : length (selectedElements s) = length (selectedScopes s)
}.

Lemma enter_all_spec blocks : forall els scs p,
  let '(els', scs', p') := enter_all blocks els scs p in
  map c_block els' = map c_block els ++ blocks /\
  (shown p = map c_id els -> shown p' = map c_id els') /\ (alive p = scs -> alive p' = scs') /\
  (length els = length scs -> length els' = length scs').
Proof.
  induction blocks as [|b blocks IH]; intros els scs p; cbn; [by rewrite app_nil_r|].
  specialize (IH (els ++ [Clone (S (next p)) b]) (scs ++ [next p])
    (enter (S (next p)) (Page (shown p) (alive p ++ [next p]) (S (S (next p)))))).
  destruct (enter_all _ _ _ _) as [[els' scs'] p']. destruct IH as (H1 & H2 & H3 & H4). rewrite map_app, <- app_assoc in H1.
  split; [done|]. split; [|split].
  - intros E. apply H2. cbn. by rewrite E, map_app.
  - intros E. apply H3. cbn. by rewrite E.
  - intros E. apply H4. by rewrite !length_app, E.
Qed.

Lemma remove_all cs p : fold_left (fun p c => remove (c_id c) p) cs p =
  Page (filter (fun c => c ∉ map c_id cs) (shown p)) (alive p) (next p).
Proof.
  rewrite <- filter_all. revert p. induction cs as [|c cs IH]; intros [sh al n]; cbn; [done|]. by rewrite IH.
Qed.

Lemma leave_all els scs p : length els = length scs ->
  fold_left (fun p '(c, sc) => leave (c_id c) (destroy sc p)) (zip els scs) p =
  Page (filter (fun c => c ∉ map c_id els) (shown p)) (filter (fun c => c ∉ scs) (alive p)) (next p).
Proof.
  rewrite <- !filter_all. revert scs p. induction els as [|c els IH]; intros [|sc scs] [sh al n] H; try done.
  cbn. rewrite IH; [done|by injection H].
Qed.

Lemma filter_none (l xs : list nat) : l ⊆ xs -> filter (fun c => c ∉ xs) l = [].
Proof. intros H. apply filter_drop, Forall_forall. intros x Hx Hn. by apply Hn, H. Qed.

Lemma switch_step_ok m e v s : ok m v s -> ok m (match e with Watch v' => Some v' | Left => v end) (step m s e).
Proof.
  intros [H1 H2 H3 H4]. destruct e as [v'|]; cbn [step].
  - unfold ngSwitchWatchAction. rewrite remove_all, leave_all by done. cbn [shown alive next].
    rewrite (filter_none _ (map c_id (selectedElements s))), (filter_none _ (selectedScopes s)).
    2: by rewrite H3.
    2: { rewrite H2. intros x Hx. by apply list_elem_of_filter in Hx as [_ Hx]. }
    assert (Hch : match (match find_case ("!" +:+ v') m with Some l => Some l | None => find_case "?" m end) with
      | Some l => chosen m v' = l | None => chosen m v' = [] end).
    { unfold chosen. destruct (find_case ("!" +:+ v') m); [done|]. by destruct (find_case "?" m). }
    destruct (match find_case ("!" +:+ v') m with Some l => Some l | None => find_case "?" m end) as [blocks|].
    + pose proof (enter_all_spec blocks [] [] (Page [] [] (next (at_ s)))) as H.
      destruct (enter_all _ _ _ _) as [[els scs] p']. destruct H as (E1 & E2 & E3 & E4). constructor; cbn; [|by apply E2|by apply E3|by apply E4].
      unfold block_of. cbn. by rewrite E1, Hch.
    + by constructor.
  - unfold left. destruct (pending s); [by constructor|]. by constructor.
Qed.

(** The clones on the page are those of the blocks of the last value - of the
    default when it has none - in order, each with its scope, and nothing else is left, whenever the
    callbacks come. *)
Theorem switch_exact (m : cases) (es : list event) :
  let s := fold_left (step m) es start in ok m (last_value es None) s.
Proof.
  assert (H : forall es v s, ok m v s -> ok m (last_value es v) (fold_left (step m) es s)).
  { clear. induction es as [|e es IH]; intros v s Hs; [done|]. cbn [fold_left].
    pose proof (switch_step_ok m e v s Hs) as H. destruct e as [v'|]; cbn [last_value]; by apply IH. }
  by apply H.
Qed.

(** The callbacks of one watch take away nothing of what it left: its loop has
    ended when they read [i]. *)
Example callback_splices_nothing :
  let s := fold_left (step [("!a", [1%nat]); ("!b", [2%nat])]) [Watch "a"; Watch "b"; Left] start in
  map c_block (previousElements s) = [1%nat].
Proof. reflexivity. Qed.

End Switch.

(** ** A fetched block *)

Module Include.

(** [changeCounter], the current scope and element, the previous one, and the
    requests under way. *)
Record state := State {
  changeCounter : nat;
  currentScope : option nat;
  currentElement : option (nat * string);
  previousElement : option nat;
  template : option string;
  at_ : page;
  requests : list nat
}.

(** angular.js 19999-20015 *)
Definition cleanupLastIncludeContent (s : state) : state :=
  let p := match previousElement s with Some e => remove e (at_ s) | None => at_ s end in
  let p := match currentScope s with Some c => destroy c p | None => p end in
  match currentElement s with
  | Some (e, _) => State (changeCounter s) None None (Some e) (template s) (leave e p) (requests s)
  | None => State (changeCounter s) None None None (template s) p (requests s)
  end.

(** angular.js 20017-20055 *)
Definition ngIncludeWatchAction (src : option string) (s : state) : state :=
  let s := State (S (changeCounter s)) (currentScope s) (currentElement s) (previousElement s) (template s) (at_ s) (requests s) in
  match src with
  | Some (String _ _) => State (changeCounter s) (currentScope s) (currentElement s) (previousElement s) (template s) (at_ s)
                           (requests s ++ [changeCounter s])
  | _ =>
      let s := cleanupLastIncludeContent s in
      State (changeCounter s) (currentScope s) (currentElement s) (previousElement s) None (at_ s) (requests s)
  end.

(** angular.js 20026-20046: the response of one change; the old content goes when the
    clone is there. *)
Definition success (thisChangeId : nat) (response : string) (s : state) : state :=
  if negb (thisChangeId =? changeCounter s)%nat then s
  else
    let '(newScope, p) := new_scope (at_ s) in
    let '(clone, p) := new_clone p in
    let s := cleanupLastIncludeContent
               (State (changeCounter s) (currentScope s) (currentElement s) (previousElement s) (Some response) p (requests s)) in
    State (changeCounter s) (Some newScope) (Some (clone, response)) (previousElement s) (template s) (enter clone (at_ s)) (requests s).

(** angular.js 20047-20049 *)
Definition error (thisChangeId : nat) (s : state) : state :=
  if (thisChangeId =? changeCounter s)%nat then cleanupLastIncludeContent s else s.

Inductive event := Src (src : option string) | Success (i : nat) (response : string) | Error (i : nat) | Left.

(** An answer is of the i-th request under way, and is the last of it. *)
Definition answered (i : nat) (s : state) : state :=
  State (changeCounter s) (currentScope s) (currentElement s) (previousElement s) (template s) (at_ s) (delete i (requests s)).

Definition step (s : state) (e : event) : state :=
  match e with
  | Src src => ngIncludeWatchAction src s
  | Success i r => match (requests s !! i : option nat) with Some id => success id r (answered i s) | None => s end
  | Error i => match (requests s !! i : option nat) with Some id => error id (answered i s) | None => s end
  | Left => State (changeCounter s) (currentScope s) (currentElement s) None (template s) (at_ s) (requests s)
  end.

Definition start : state := State 0 None None None None (Page [] [] 0) [].

(** What should be shown: a list of requests, the latest being of the present
    address if there is one, and the content. *)
Record spec := Spec { sp_waiting : list bool; sp_content : option string }.

Definition spec_step (s : spec) (e : event) : spec :=
  match e with
  | Src (Some (String _ _)) => Spec (map (fun _ => false) (sp_waiting s) ++ [true]) (sp_content s)
  | Src _ => Spec (map (fun _ => false) (sp_waiting s)) None
  | Success i r => match (sp_waiting s !! i : option bool) with
                   | Some latest => Spec (delete i (sp_waiting s)) (if latest then Some r else sp_content s)
                   | None => s
                   end
  | Error i => match (sp_waiting s !! i : option bool) with
               | Some latest => Spec (delete i (sp_waiting s)) (if latest then None else sp_content s)
               | None => s
               end
  | Left => s
  end.

Ltac page_cases := cbn; unfold leave, remove, destroy; cbn; repeat (rewrite ?filter_cons; repeat case_decide; cbn); try done; try congruence.

Record agree (s : state) (sp : spec) : Prop := Agree {
  ag_wait : sp_waiting sp = map (fun id => (id =? changeCounter s)%nat) (requests s);
  ag_old : Forall (fun id => (id <= changeCounter s)%nat) (requests s);
  ag_content : sp_content sp = snd <$> currentElement s;
  ag_page : match currentElement s, currentScope s with
            | Some (e, _), Some c => shown (at_ s) = [e] /\ alive (at_ s) = [c]
            | None, None => shown (at_ s) = [] /\ alive (at_ s) = []
            | _, _ => False
            end;
  ag_fresh : Forall (fun c => (c < next (at_ s))%nat) (alive (at_ s))
}.

Lemma cleanup_rest (s : state) :
  changeCounter (cleanupLastIncludeContent s) = changeCounter s /\ requests (cleanupLastIncludeContent s) = requests s /\
  currentElement (cleanupLastIncludeContent s) = None /\ currentScope (cleanupLastIncludeContent s) = None.
Proof. unfold cleanupLastIncludeContent. by destruct (currentElement s) as [[e r]|]. Qed.

Lemma cleanup_page (s : state) sp : agree s sp -> at_ (cleanupLastIncludeContent s) = Page [] [] (next (at_ s)).
Proof.
  intros [_ _ _ H _]. destruct s as [n sc el prev tpl [sh al nx] rq]. cbn in *.
  destruct el as [[e r]|], sc as [c|], prev; try done; destruct H as [-> ->]; by page_cases.
Qed.

(** The clone is made, with its scope, before the old content goes. *)
Lemma cleanup_late (s : state) sp t : agree s sp ->
  at_ (cleanupLastIncludeContent (State (changeCounter s) (currentScope s) (currentElement s) (previousElement s) t
         (snd (new_clone (snd (new_scope (at_ s))))) (requests s))) =
  Page [] [next (at_ s)] (S (S (next (at_ s)))).
Proof.
  intros [_ _ _ H Hf]. destruct s as [n sc el prev tpl [sh al nx] rq]. cbn in *.
  destruct el as [[e r]|], sc as [c|], prev; try done; destruct H as [-> ->]; apply Forall_cons in Hf as [Hf _] || clear Hf; page_cases; done || lia.
Qed.

Lemma cleanup_spec (s : state) sp : agree s sp ->
  agree (cleanupLastIncludeContent s) (Spec (sp_waiting sp) None).
Proof.
  intros H. pose proof (cleanup_page s sp H) as Hp. destruct (cleanup_rest s) as (E1 & E2 & E3 & E4), H as [H1 H2 _ _ _].
  constructor; rewrite ?E1, ?E2, ?E3, ?E4, ?Hp; done || by constructor.
Qed.

Lemma answered_spec (s : state) sp i : agree s sp ->
  agree (answered i s) (Spec (delete i (sp_waiting sp)) (sp_content sp)).
Proof.
  intros [H1 H2 H3 H4 H5]. constructor; cbn; try done; [by rewrite H1, list_fmap_delete|by apply Forall_delete].
Qed.

(** A change of the address: the answers awaited are all of earlier addresses. *)
Lemma change_spec (s : state) sp : agree s sp ->
  agree (State (S (changeCounter s)) (currentScope s) (currentElement s) (previousElement s) (template s) (at_ s) (requests s))
        (Spec (map (fun _ => false) (sp_waiting sp)) (sp_content sp)).
Proof.
  intros [H1 H2 H3 H4 H5]. constructor; cbn; try done.
  - rewrite H1, map_map. apply map_ext_in. intros id Hid. symmetry. apply Nat.eqb_neq.
    apply list_elem_of_In in Hid. rewrite Forall_forall in H2. specialize (H2 id Hid). lia.
  - by eapply Forall_impl; [exact H2|intros id ?; cbn in *; lia].
Qed.

Lemma agree_template (s : state) sp t : agree s sp ->
  agree (State (changeCounter s) (currentScope s) (currentElement s) (previousElement s) t (at_ s) (requests s)) sp.
Proof. by intros [H1 H2 H3 H4 H5]. Qed.

Lemma asked_spec (s : state) sp : agree s sp ->
  agree (State (changeCounter s) (currentScope s) (currentElement s) (previousElement s) (template s) (at_ s) (requests s ++ [changeCounter s]))
        (Spec (sp_waiting sp ++ [true]) (sp_content sp)).
Proof.
  intros [H1 H2 H3 H4 H5]. constructor; cbn; try done; [by rewrite H1, map_app; cbn; rewrite Nat.eqb_refl|].
  apply Forall_app. split; [done|]. by constructor.
Qed.

Lemma success_spec (s : state) sp id r : agree s sp ->
  agree (success id r s) (Spec (sp_waiting sp) (if (id =? changeCounter s)%nat then Some r else sp_content sp)).
Proof.
  intros H. unfold success. destruct (id =? changeCounter s)%nat; [|by destruct sp]. cbn [negb].
  pose proof (cleanup_late s sp (Some r) H) as Hp. destruct H as [H1 H2 _ _ _]. cbn [new_scope new_clone fst snd shown alive next] in *.
  set (s1 := cleanupLastIncludeContent _) in *. destruct (cleanup_rest (State (changeCounter s) (currentScope s) (currentElement s) (previousElement s) (Some r)
    (Page (shown (at_ s)) (alive (at_ s) ++ [next (at_ s)]) (S (S (next (at_ s))))) (requests s))) as (E1 & E2 & _).
  fold s1 in E1, E2. cbn in E1, E2. constructor; cbn; rewrite ?E1, ?E2, ?Hp; try done. repeat constructor.
Qed.

Lemma include_step_ok e (s : state) sp : agree s sp -> agree (step s e) (spec_step sp e).
Proof.
  intros H. assert (Hw : forall i, sp_waiting sp !! i = (fun id => (id =? changeCounter s)%nat) <$> requests s !! i).
  { intros i. by rewrite (ag_wait s sp H), list_lookup_fmap. }
  destruct e as [src|i r|i|]; cbn [step spec_step].
  - pose proof (change_spec s sp H) as Hc. destruct src as [[|]|]; cbn [ngIncludeWatchAction].
    + apply agree_template, (cleanup_spec _ _ Hc).
    + apply (asked_spec _ _ Hc).
    + apply agree_template, (cleanup_spec _ _ Hc).
  - rewrite Hw. destruct (requests s !! i) as [id|]; [|done]. apply (success_spec _ _ id r (answered_spec s sp i H)).
  - rewrite Hw. destruct (requests s !! i) as [id|]; [|done]. cbn. unfold error. cbn [changeCounter answered].
    pose proof (answered_spec s sp i H) as Ha. destruct (id =? changeCounter s)%nat; [apply (cleanup_spec _ _ Ha)|done].
  - by destruct H.
Qed.

(** C22: ngInclude, whatever the order of changes of the address and answers: what is shown is the
    answer to the latest change when it came, nothing when it failed or the address is empty, and
    otherwise what was there; alone, with its scope, and no scope is left behind. *)
Theorem include_exact (es : list event) : agree (fold_left step es start) (fold_left spec_step es (Spec [] None)).
Proof.
  assert (H : forall es s sp, agree s sp -> agree (fold_left step es s) (fold_left spec_step es sp)).
  { clear. induction es as [|e es IH]; intros s sp H; [done|]. apply IH, include_step_ok, H. }
  apply H. by constructor.
Qed.

End Include.
