(* ===== verification/NgSelect.v ===== *)
(** * NgSelect: a select whose options follow a collection

    [ng-options] of [selectDirective] (angular.js 21616-22095): [render] compares
    the groups and options it made before, [optionGroupsCache], with those the
    collection asks for and changes the elements that differ; the change handler
    reads the user's choice back.  [Element] is the select element with the rules by
    which a browser keeps its selection; a drop-down list selects one option.

    The expressions are functions of their locals; the value of [group by] is taken
    as a text.  The page has jQuery, whose [val] writes a missing id as the empty
    value; the text of an option is its property [label], which browsers show.  A key that
    the collection has no longer when the user chooses reads as undefined.  The element option the page may have for no choice is node 0 and the
    unknown option of the controller is node 1. *)

From S2P Require Import Prelude Text Js NgCore NgEval NgRepeat.
From Stdlib Require Import Btauto.
From stdpp Require Import functions list.

#[local] Set Warnings "-clear-no-such-hyp".

(** ** The element *)

Module Element.
Section Element.
Context (multiple : bool).

Record onode := ONode { o_value : string; o_text : string; o_selected : bool }.

Inductive child := COpt (n : nat) | CGroup (g : nat).

(** The children of the select and of its groups, the labels of the groups, and
    the options, on the page or not. *)
Record select := Select {
  top : list child;
  inner : nat -> list nat;
  glabel : nat -> string;
  opts : nat -> onode
}.

Definition kids (d : select) (c : child) : list nat := match c with COpt n => [n] | CGroup g => inner d g end.
(** [select.options]: in tree order. *)
Definition options (d : select) : list nat := flat_map (kids d) (top d).

Definition attached (n : nat) (d : select) : bool := bool_decide (n ∈ options d).

Definition with_opts (f : nat -> onode) (d : select) : select := Select (top d) (inner d) (glabel d) f.

Definition put (n : nat) (o : onode) (d : select) : select := with_opts (<[n := o]> (opts d)) d.
Definition mark (n : nat) (b : bool) (d : select) : select :=
  put n (ONode (o_value (opts d n)) (o_text (opts d n)) b) d.
Definition set_text (n : nat) (t : string) (d : select) : select :=
  put n (ONode (o_value (opts d n)) t (o_selected (opts d n))) d.
Definition set_val (n : nat) (v : string) (d : select) : select :=
  put n (ONode v (o_text (opts d n)) (o_selected (opts d n))) d.

(** A drop-down list with nothing selected selects its first option. *)
Definition reset (d : select) : select :=
  if multiple || existsb (fun n => o_selected (opts d n)) (options d) then d
  else match options d with n :: _ => mark n true d | [] => d end.

Definition choose_only (p : nat -> bool) (d : select) : select :=
  with_opts (fun m => if attached m d then ONode (o_value (opts d m)) (o_text (opts d m)) (p m) else opts d m) d.

(** An option that is selected, or comes selected, deselects the others. *)
Definition exclude (n : nat) (d : select) : select :=
  if multiple then d else choose_only (fun m => bool_decide (m = n) && o_selected (opts d m)) d.

(** [option.selected = b]. *)
Definition set_selected (n : nat) (b : bool) (d : select) : select :=
  let d := mark n b d in
  if attached n d then if b then exclude n d else reset d else d.

(** The selection when the option [n] has come. *)
Definition arrived (n : nat) (d : select) : select :=
  reset (if o_selected (opts d n) then exclude n d else d).

Definition with_tree (t : list child) (i : nat -> list nat) (d : select) : select := Select t i (glabel d) (opts d).

(** [option.remove()] *)
Definition detach (n : nat) (d : select) : select :=
  if attached n d then
    reset (with_tree (List.filter (fun c => match c with COpt m => negb (m =? n)%nat | CGroup _ => true end) (top d))
             (fun g => List.filter (fun m => negb (m =? n)%nat) (inner d g)) d)
  else d.

(** [parent.append(option)], of the select or of a group. *)
Definition append (parent : option nat) (n : nat) (d : select) : select :=
  let d := detach n d in
  arrived n match parent with
            | None => with_tree (top d ++ [COpt n]) (inner d) d
            | Some g => with_tree (top d) (<[g := inner d g ++ [n]]> (inner d)) d
            end.

Definition prepend (n : nat) (d : select) : select :=
  let d := detach n d in arrived n (with_tree (COpt n :: top d) (inner d) d).

Fixpoint insert_after (last n : nat) (l : list nat) : list nat :=
  match l with [] => [] | m :: l => if (m =? last)%nat then m :: n :: l else m :: insert_after last n l end.
Fixpoint top_after (last n : nat) (l : list child) : list child :=
  match l with
  | [] => []
  | COpt m :: l => if (m =? last)%nat then COpt m :: COpt n :: l else COpt m :: top_after last n l
  | CGroup g :: l => CGroup g :: top_after last n l
  end.

(** [last.after(option)] *)
Definition after (last n : nat) (d : select) : select :=
  let d := detach n d in
  arrived n (with_tree (top_after last n (top d)) (fun g => insert_after last n (inner d g)) d).

Definition set_glabel (g : nat) (s : string) (d : select) : select :=
  Select (top d) (inner d) (<[g := s]> (glabel d)) (opts d).

Definition append_group (g : nat) (d : select) : select := with_tree (top d ++ [CGroup g]) (<[g := []]> (inner d)) d.

Definition detach_group (g : nat) (d : select) : select :=
  reset (with_tree (List.filter (fun c => match c with CGroup g' => negb (g' =? g)%nat | COpt _ => true end) (top d)) (inner d) d).

(** [select.value = v]: the first option of that value, or none. *)
Definition set_value (v : string) (d : select) : select :=
  let first := List.find (fun n => String.eqb (o_value (opts d n)) v) (options d) in
  choose_only (fun m => bool_decide (Some m = first)) d.

(** [select.value] *)
Definition value (d : select) : string :=
  match List.find (fun n => o_selected (opts d n)) (options d) with Some n => o_value (opts d n) | None => "" end.

Definition top_options (d : select) : list nat := omap (fun c => match c with COpt n => Some n | CGroup _ => None end) (top d).
Definition top_groups (d : select) : list nat := omap (fun c => match c with CGroup g => Some g | COpt _ => None end) (top d).

(** *** The tree *)

Lemma options_in d n : n ∈ options d <-> n ∈ top_options d \/ exists g, g ∈ top_groups d /\ n ∈ inner d g.
Proof.
  unfold options, top_options, top_groups, kids. induction (top d) as [|[m|g] l IH]; cbn.
  - split; [by intros ?%not_elem_of_nil|intros [?%not_elem_of_nil|(g & ?%not_elem_of_nil & _)]; done].
  - rewrite !elem_of_cons, IH. tauto.
  - rewrite elem_of_app, IH. split; [intros [H|[H|(g' & H & H')]]|intros [H|(g' & H & H')]].
    + right. exists g. split; [by left|done].
    + by left.
    + right. exists g'. split; [by right|done].
    + by right; left.
    + apply elem_of_cons in H as [->|H]; [by left|right; right; by exists g'].
Qed.

(** What a change of the selection leaves as it is. *)
Record same_tree (d d' : select) : Prop := Same {
  st_top : top d' = top d;
  st_inner : inner d' = inner d;
  st_glabel : glabel d' = glabel d;
  st_value n : o_value (opts d' n) = o_value (opts d n);
  st_text n : o_text (opts d' n) = o_text (opts d n)
}.

#[global] Instance same_tree_preorder : PreOrder same_tree.
Proof.
  split; [by constructor|]. intros d1 d2 d3 [A1 A2 A3 A4 A5] [B1 B2 B3 B4 B5].
  constructor; first [congruence|intros n; by rewrite ?B4, ?B5].
Qed.

Lemma same_options d d' : same_tree d d' -> options d' = options d.
Proof. intros [H1 H2 _ _ _]. unfold options, kids. by rewrite H1, H2. Qed.

Lemma mark_tree n b d : same_tree d (mark n b d).
Proof. constructor; try done; intros m; cbn; destruct (decide (m = n)) as [->|]; by rewrite ?fn_lookup_insert, ?fn_lookup_insert_ne. Qed.

Lemma choose_only_tree p d : same_tree d (choose_only p d).
Proof. constructor; try done; intros m; cbn; by destruct (attached m d). Qed.

Lemma exclude_tree n d : same_tree d (exclude n d).
Proof. unfold exclude. destruct multiple; [done|apply choose_only_tree]. Qed.

Lemma reset_tree d : same_tree d (reset d).
Proof. unfold reset. destruct (_ || _); [done|]. destruct (options d); [done|apply mark_tree]. Qed.

Lemma set_selected_tree n b d : same_tree d (set_selected n b d).
Proof.
  unfold set_selected. pose proof (mark_tree n b d) as H. destruct (attached n (mark n b d)), b; try done; (etrans; [exact H|]);
    [apply exclude_tree|apply reset_tree].
Qed.

Lemma arrived_tree n d : same_tree d (arrived n d).
Proof. unfold arrived. etrans; [|apply reset_tree]. destruct (o_selected _); [apply exclude_tree|done]. Qed.

(** *** The selection *)

Definition sel (d : select) (n : nat) : bool := o_selected (opts d n).

(** A drop-down list selects one option at most. *)
Definition single (d : select) : Prop :=
  multiple = false -> forall m n, m ∈ options d -> n ∈ options d -> sel d m = true -> sel d n = true -> m = n.

Definition only (f : nat) (d : select) : Prop := f ∈ options d /\ forall m, m ∈ options d -> sel d m = bool_decide (m = f).

Lemma only_single f d : only f d -> single d.
Proof. intros [_ H] _ m n Hm Hn. rewrite (H m Hm), (H n Hn). by intros ->%bool_decide_eq_true ->%bool_decide_eq_true. Qed.

Lemma single_only f d : multiple = false -> single d -> f ∈ options d -> sel d f = true -> only f d.
Proof.
  intros Hm Hs Hf Hsel. split; [done|]. intros m Hin. case_bool_decide as E; [by subst|].
  destruct (sel d m) eqn:Em; [|done]. destruct E. by apply (Hs Hm).
Qed.

Lemma sel_mark n b d m : sel (mark n b d) m = if bool_decide (m = n) then b else sel d m.
Proof. unfold sel. cbn. case_bool_decide; subst; [by rewrite fn_lookup_insert|by rewrite fn_lookup_insert_ne]. Qed.

Lemma sel_choose p d m : m ∈ options d -> sel (choose_only p d) m = p m.
Proof. intros H. unfold sel. cbn. unfold attached. by rewrite bool_decide_true. Qed.

Lemma exclude_only n d : multiple = false -> n ∈ options d -> sel d n = true -> only n (exclude n d).
Proof.
  intros Hm Hn Hsel. unfold only, exclude. rewrite Hm. rewrite (same_options d) by apply choose_only_tree. split; [done|].
  intros m H. rewrite sel_choose by done. case_bool_decide; [by subst|done].
Qed.

Lemma reset_single d : single d -> single (reset d).
Proof.
  intros H. unfold reset. destruct (multiple || _) eqn:E; [done|]. apply orb_false_iff in E as [Hm E].
  destruct (options d) as [|n l] eqn:El; [done|]. apply (only_single n). unfold only. rewrite (same_options d), El by apply mark_tree. split; [left|].
  intros m Hin. rewrite sel_mark. case_bool_decide as E'; [done|]. destruct (sel d m) eqn:Es; [|done].
  rewrite <- E. symmetry. apply existsb_exists. exists m. split; [by apply list_elem_of_In|done].
Qed.

Lemma reset_id f d : f ∈ options d -> sel d f = true -> reset d = d.
Proof.
  intros Hf Hs. unfold reset. destruct (multiple || _) eqn:E; [done|]. apply orb_false_iff in E as [_ E].
  assert (existsb (fun n => o_selected (opts d n)) (options d) = true) as E'; [|congruence].
  apply existsb_exists. exists f. split; [by apply list_elem_of_In|done].
Qed.

Lemma only_reset f d : only f d -> only f (reset d).
Proof. intros H. destruct (H) as [H1 H2]. rewrite (reset_id f); [done|done|]. rewrite H2 by done. by rewrite bool_decide_true. Qed.

(** The marks of some options, as the last of them asked: of a drop-down list the
    last that is to be selected. *)
Definition wanted (fl : list (nat * bool)) : option nat := list.last (omap (fun p : nat * bool => if p.2 then Some p.1 else None) fl).

Definition right (fl : list (nat * bool)) (d : select) : Prop :=
  if multiple then Forall (fun p => sel d p.1 = p.2) fl
  else match wanted fl with Some f => only f d | None => True end.

Lemma wanted_snoc fl n b : wanted (fl ++ [(n, b)]) = if b then Some n else wanted fl.
Proof. unfold wanted. rewrite omap_app. cbn. destruct b; [apply last_snoc|by rewrite app_nil_r]. Qed.

Lemma wanted_cons n b fl : wanted ((n, b) :: fl) = match wanted fl with Some f => Some f | None => if b then Some n else None end.
Proof.
  unfold wanted. destruct b; cbn.
  - by rewrite last_cons.
  - by destruct (list.last _).
Qed.

Lemma wanted_in fl f : wanted fl = Some f -> f ∈ fl.*1.
Proof.
  intros H. unfold wanted in H. apply last_Some in H as [l H].
  assert (Hf : f ∈ omap (fun p : nat * bool => if p.2 then Some p.1 else None) fl) by (rewrite H; apply elem_of_app; right; by left).
  apply list_elem_of_omap in Hf as ([n []] & Hin & [= <-]). apply list_elem_of_fmap. by exists (n, true).
Qed.

Lemma wanted_out fl f d : (forall m, m ∈ fl.*1 -> m ∈ options d) -> wanted fl = Some f -> f ∈ options d.
Proof. intros H Hf. by apply H, wanted_in. Qed.

Lemma single_sel d d' : (forall m, m ∈ options d' -> sel d' m = sel d m) -> (forall m, m ∈ options d' -> m ∈ options d) -> single d -> single d'.
Proof. intros Hs Ho H Hm m n Hin Hin'. rewrite !Hs by done. apply (H Hm); by apply Ho. Qed.

Lemma right_sel fl d d' : (forall m, m ∈ options d' -> sel d' m = sel d m) -> (forall m, m ∈ options d' -> m ∈ options d) ->
  (forall m, m ∈ fl.*1 -> m ∈ options d') -> right fl d -> right fl d'.
Proof.
  intros Hs Ho Hf. unfold right. destruct multiple.
  - rewrite !Forall_forall. intros H [m b] Hin. rewrite Hs; [by apply H|]. apply Hf, list_elem_of_fmap. by exists (m, b).
  - destruct (wanted fl) as [f|] eqn:E; [|done]. intros [_ H]. split; [by apply Hf, wanted_in|]. intros m Hm. rewrite Hs by done. by apply H, Ho.
Qed.

Lemma right_reset fl d : right fl d -> right fl (reset d).
Proof.
  unfold right. pose proof only_reset as H. unfold reset in *. destruct multiple; [done|]. destruct (wanted fl) as [f|]; [apply H|done].
Qed.

Lemma exclude_many n d : multiple = true -> exclude n d = d.
Proof. unfold exclude. by intros ->. Qed.
Lemma reset_many d : multiple = true -> reset d = d.
Proof. unfold reset. by intros ->. Qed.

Lemma right_snoc fl n b d : right (fl ++ [(n, b)]) d <->
  if multiple then right fl d /\ sel d n = b else if b then only n d else right fl d.
Proof.
  unfold right. destruct multiple; [by rewrite Forall_app, Forall_singleton|]. rewrite wanted_snoc. by destruct b.
Qed.

(** The mark is already the one asked. *)
Lemma right_same fl n d : n ∈ options d -> single d -> right fl d -> right (fl ++ [(n, sel d n)]) d.
Proof.
  intros Hn Hs Hr. apply right_snoc. destruct multiple eqn:Em; [done|]. destruct (sel d n) eqn:E; [|done]. by apply single_only.
Qed.

(** [option.selected = b] of an option that was not dealt with yet. *)
Lemma set_selected_right fl n b d : n ∈ options d -> n ∉ fl.*1 -> (forall m, m ∈ fl.*1 -> m ∈ options d) ->
  single d -> right fl d -> right (fl ++ [(n, b)]) (set_selected n b d) /\ single (set_selected n b d).
Proof.
  intros Hn Hout Hfl Hs Hr.
  assert (Ho : options (mark n b d) = options d) by apply same_options, mark_tree.
  assert (Ha : attached n (mark n b d) = true) by (unfold attached; by rewrite Ho, bool_decide_true).
  unfold set_selected. rewrite Ha. destruct multiple eqn:Em.
  - rewrite exclude_many, reset_many by done. assert (Hone : single (mark n b d)) by (intros H; congruence).
    split; [|by destruct b]. apply right_snoc. rewrite Em.
    assert (Hr' : right fl (mark n b d)).
    { unfold right in *. rewrite Em in *. rewrite Forall_forall in *. intros [m c] Hin. specialize (Hr _ Hin). rewrite sel_mark. cbn in Hr |- *.
      rewrite bool_decide_false; [done|]. intros ->. apply Hout.
      apply list_elem_of_fmap. exists (n, c). done. }
    assert (sel (mark n b d) n = b) by (by rewrite sel_mark, bool_decide_true). by destruct b.
  - rewrite right_snoc, Em. destruct b.
    + assert (H : only n (exclude n (mark n true d))).
      { apply exclude_only; [done|by rewrite Ho|]. by rewrite sel_mark, bool_decide_true. }
      split; [done|by eapply only_single].
    + assert (Hsub : forall m, m ∈ options d -> sel (mark n false d) m = true -> sel d m = true).
      { intros m _. rewrite sel_mark. by case_bool_decide. }
      split.
      * apply right_reset. unfold right in *. rewrite Em in *. destruct (wanted fl) as [f|] eqn:E; [|done]. destruct Hr as [H1 H2]. split; [by rewrite Ho|].
        intros m. rewrite Ho, sel_mark. intros Hm. case_bool_decide as En; [|by apply H2]. subst. symmetry. apply bool_decide_eq_false.
        intros ->. by apply Hout, wanted_in.
      * apply reset_single. intros _ m1 m2. rewrite Ho. intros H1 H2 S1%Hsub S2%Hsub; [by apply (Hs Em)|done|done].
Qed.

(** An option comes. *)
Lemma arrived_right fl n d d' : (forall m, sel d' m = sel d m) -> (forall m, m ∈ options d' <-> m = n \/ m ∈ options d) -> n ∉ options d ->
  (forall m, m ∈ fl.*1 -> m ∈ options d) -> single d -> right fl d ->
  right (fl ++ [(n, sel d n)]) (arrived n d') /\ single (arrived n d').
Proof.
  intros Hsel Ho Hn Hfl Hs Hr. unfold arrived. change (o_selected (opts d' n)) with (sel d' n). rewrite Hsel.
  destruct multiple eqn:Em.
  - rewrite exclude_many, reset_many by done. replace (if sel d n then d' else d') with d' by (by destruct (sel d n)).
    split; [|intros H; congruence]. apply right_snoc. rewrite Em. split; [|apply Hsel].
    unfold right in *. rewrite Em in *. eapply Forall_impl; [exact Hr|]. intros [m b]. cbn. by rewrite Hsel.
  - rewrite right_snoc, Em. destruct (sel d n) eqn:En.
    + assert (H : only n (reset (exclude n d'))).
      { apply only_reset, exclude_only; [done|apply Ho; by left|by rewrite Hsel]. }
      split; [done|by eapply only_single].
    + split.
      * apply right_reset. unfold right in *. rewrite Em in *. destruct (wanted fl) as [f|] eqn:E; [|done]. destruct Hr as [H1 H2].
        split; [apply Ho; by right|]. intros m Hm. rewrite Hsel. apply Ho in Hm as [->|Hm]; [|by apply H2].
        rewrite En. symmetry. apply bool_decide_eq_false. by intros ->.
      * apply reset_single. intros _ m1 m2 H1 H2. rewrite !Hsel. intros S1 S2.
        apply Ho in H1 as [->|H1]; [congruence|]. apply Ho in H2 as [->|H2]; [congruence|]. by apply (Hs Em).
Qed.

(** Options go that were not dealt with. *)
Lemma gone_right fl d d' : (forall m, m ∈ options d' -> sel d' m = sel d m) -> (forall m, m ∈ options d' -> m ∈ options d) -> (forall m, m ∈ fl.*1 -> m ∈ options d') ->
  single d -> right fl d -> right fl (reset d') /\ single (reset d').
Proof. intros H1 H2 H3 Hs Hr. split; [apply right_reset; by eapply right_sel|apply reset_single; by eapply single_sel]. Qed.

(** *** Moving options *)

(** The options a parent has: the select's own, or a group's. *)
Definition kids_of (d : select) (par : option nat) : list nat :=
  match par with None => top_options d | Some g => inner d g end.
Definition parents (d : select) : list (option nat) := None :: map Some (top_groups d).

Lemma options_kids d n : n ∈ options d <-> exists par, par ∈ parents d /\ n ∈ kids_of d par.
Proof.
  rewrite options_in. unfold parents. split.
  - intros [H|(g & H & H')]; [exists None; split; [left|done]|]. exists (Some g). split; [right; by apply list_elem_of_fmap_2|done].
  - intros (par & [->|H]%elem_of_cons & H'); [by left|right]. apply list_elem_of_fmap in H as (g & -> & H). by exists g.
Qed.

(** The trees [d] and [d'], but for the options of [par]. *)
Record moved (par : option nat) (ns : list nat) (d d' : select) : Prop := Moved {
  mv_groups : top_groups d' = top_groups d;
  mv_kids : kids_of d' par = ns;
  mv_rest par' : par' ∈ parents d -> par' <> par -> kids_of d' par' = kids_of d par';
  mv_glabel : glabel d' = glabel d;
  mv_value m : o_value (opts d' m) = o_value (opts d m);
  mv_text m : o_text (opts d' m) = o_text (opts d m)
}.

Lemma moved_tree par ns d d1 d2 : moved par ns d d1 -> same_tree d1 d2 -> moved par ns d d2.
Proof.
  intros [H1 H2 H3 H4 H5 H6] [S1 S2 S3 S4 S5].
  assert (Hk : forall q, kids_of d2 q = kids_of d1 q) by (intros [g|]; unfold kids_of, top_options; by rewrite ?S1, ?S2).
  constructor; [unfold top_groups in *; by rewrite S1|by rewrite Hk|intros q Hq Hne; rewrite Hk; by apply H3|congruence|..]; intros m; by rewrite ?S4, ?S5.
Qed.

Lemma moved_parents par ns d d' : moved par ns d d' -> parents d' = parents d.
Proof. intros H. unfold parents. by rewrite (mv_groups _ _ _ _ H). Qed.

Lemma moved_options par ns d d' m : moved par ns d d' -> par ∈ parents d ->
  m ∈ options d' <-> m ∈ ns \/ exists q, q ∈ parents d /\ q <> par /\ m ∈ kids_of d q.
Proof.
  intros H Hp. rewrite options_kids, (moved_parents _ _ _ _ H). split.
  - intros (q & Hq & Hm). destruct (decide (q = par)) as [->|Hne].
    + left. by rewrite <- (mv_kids _ _ _ _ H).
    + right. exists q. rewrite <- (mv_rest _ _ _ _ H) by done. done.
  - intros [Hm|(q & Hq & Hne & Hm)].
    + exists par. by rewrite (mv_kids _ _ _ _ H).
    + exists q. by rewrite (mv_rest _ _ _ _ H).
Qed.

Lemma detach_away n d : n ∉ options d -> detach n d = d.
Proof. intros H. unfold detach, attached. by rewrite bool_decide_false. Qed.

Lemma top_options_snoc t i g o c : top_options (Select (t ++ [c]) i g o) = top_options (Select t i g o) ++ match c with COpt n => [n] | CGroup _ => [] end.
Proof. unfold top_options. cbn. rewrite omap_app. by destruct c. Qed.
Lemma top_groups_snoc t i g o c : top_groups (Select (t ++ [c]) i g o) = top_groups (Select t i g o) ++ match c with COpt _ => [] | CGroup g => [g] end.
Proof. unfold top_groups. cbn. rewrite omap_app. by destruct c. Qed.

(** Where [append] and [after] put an option, before the selection follows. *)
Definition appended (par : option nat) (n : nat) (d : select) : select :=
  match par with
  | None => with_tree (top d ++ [COpt n]) (inner d) d
  | Some g => with_tree (top d) (<[g := inner d g ++ [n]]> (inner d)) d
  end.
Definition put_after (l n : nat) (d : select) : select := with_tree (top_after l n (top d)) (fun g => insert_after l n (inner d g)) d.

Lemma append_eq par n d : n ∉ options d -> append par n d = arrived n (appended par n d).
Proof. intros H. unfold append. by rewrite detach_away. Qed.
Lemma after_eq l n d : n ∉ options d -> after l n d = arrived n (put_after l n d).
Proof. intros H. unfold after. by rewrite detach_away. Qed.

Lemma appended_moved par n d : moved par (kids_of d par ++ [n]) d (appended par n d).
Proof.
  destruct d as [t i g o]. constructor; try by destruct par.
  - destruct par; [done|]. unfold appended, with_tree. by rewrite top_groups_snoc, app_nil_r.
  - destruct par; cbn; [by rewrite fn_lookup_insert|]. apply (top_options_snoc t i g o).
  - intros [q|] _ Hne; destruct par as [p|]; try done. cbn. rewrite fn_lookup_insert_ne; [done|congruence].
Qed.

Lemma insert_after_out l n ns : l ∉ ns -> insert_after l n ns = ns.
Proof.
  induction ns as [|m ns IH]; cbn; [done|]. rewrite not_elem_of_cons. intros [H1 H2].
  destruct (Nat.eqb_spec m l); [by subst|by rewrite IH].
Qed.

Lemma insert_after_last l n ns : l ∉ ns -> insert_after l n (ns ++ [l]) = ns ++ [l; n].
Proof.
  induction ns as [|m ns IH]; cbn; [by rewrite Nat.eqb_refl|]. rewrite not_elem_of_cons. intros [H1 H2].
  destruct (Nat.eqb_spec m l); [by subst|by rewrite IH].
Qed.

Lemma top_after_options l n t : omap (fun c => match c with COpt m => Some m | CGroup _ => None end) (top_after l n t) =
  insert_after l n (omap (fun c => match c with COpt m => Some m | CGroup _ => None end) t).
Proof. induction t as [|[m|g] t IH]; cbn; [done| |done]. destruct (m =? l)%nat; cbn; by rewrite ?IH. Qed.
Lemma top_after_groups l n t : omap (fun c => match c with COpt _ => None | CGroup g => Some g end) (top_after l n t) =
  omap (fun c => match c with COpt _ => None | CGroup g => Some g end) t.
Proof. induction t as [|[m|g] t IH]; cbn; [done| |by rewrite IH]. destruct (m =? l)%nat; cbn; by rewrite ?IH. Qed.

Lemma put_after_moved par l n ns d : kids_of d par = ns ++ [l] -> l ∉ ns ->
  (forall q, q ∈ parents d -> q <> par -> l ∉ kids_of d q) -> moved par (kids_of d par ++ [n]) d (put_after l n d).
Proof.
  intros Hk Hl Hrest.
  assert (Hq : forall q, kids_of (put_after l n d) q = insert_after l n (kids_of d q)).
  { intros [q|]; [done|]. apply top_after_options. }
  constructor; try done.
  - apply top_after_groups.
  - rewrite Hq, Hk, insert_after_last, <- app_assoc; done.
  - intros q Hin Hne. by rewrite Hq, insert_after_out by (by apply Hrest).
Qed.

Definition removed (n : nat) (d : select) : select :=
  with_tree (List.filter (fun c => match c with COpt m => negb (m =? n)%nat | CGroup _ => true end) (top d))
    (fun g => List.filter (fun m => negb (m =? n)%nat) (inner d g)) d.

Lemma detach_eq n d : n ∈ options d -> detach n d = reset (removed n d).
Proof. intros H. unfold detach, attached. by rewrite bool_decide_true. Qed.

Lemma filter_away n (ns : list nat) : n ∉ ns -> List.filter (fun m => negb (m =? n)%nat) ns = ns.
Proof.
  induction ns as [|m ns IH]; cbn; [done|]. rewrite not_elem_of_cons. intros [H1 H2].
  destruct (Nat.eqb_spec m n); [by subst|cbn; by rewrite IH].
Qed.

Lemma removed_kids n d q : kids_of (removed n d) q = List.filter (fun m => negb (m =? n)%nat) (kids_of d q).
Proof.
  destruct q as [g|]; [done|]. cbn. unfold top_options. cbn.
  induction (top d) as [|[m|g] t IH]; cbn; [done| |done]. destruct (m =? n)%nat; cbn; by rewrite IH.
Qed.

Lemma removed_groups n d : top_groups (removed n d) = top_groups d.
Proof.
  unfold top_groups. cbn. induction (top d) as [|[m|g] t IH]; cbn; [done| |by rewrite IH]. destruct (m =? n)%nat; by cbn; rewrite IH.
Qed.

Lemma removed_moved par n ns d : kids_of d par = ns ++ [n] -> n ∉ ns ->
  (forall q, q ∈ parents d -> q <> par -> n ∉ kids_of d q) -> moved par ns d (removed n d).
Proof.
  intros Hk Hn Hrest. constructor; try done.
  - apply removed_groups.
  - rewrite removed_kids, Hk, List.filter_app, filter_away by done. cbn. by rewrite Nat.eqb_refl, app_nil_r.
  - intros q Hin Hne. by rewrite removed_kids, filter_away by (by apply Hrest).
Qed.

End Element.
End Element.

(** ** The directive *)

Module Options.
Import Element.

(** [locals]: what is set under [keyName] and [valueName]. *)
Record locals := Locals { l_key : option string; l_value : option jsval }.

(** What is asked of an option: angular.js 21976-21981. *)
Record opt := Opt { id : jsval; label : jsval; selected : bool }.

(** [existingOption] and [existingOptions], whose first is [existingParent]; the
    select itself is no group. *)
Record entry := Entry { e_node : nat; e_label : jsval; e_id : jsval; e_selected : bool }.
Record group := Group { g_elem : option nat; g_label : option string; g_options : list entry }.

(** What one option or group is done to: the element and the controller's [optionsMap]; the next element to be made. *)
Record page := Page { dom : select; optionsMap : list string; next : nat }.
Record state := State { optionGroupsCache : list group; on : page }.

Definition with_dom (f : select -> select) (p : page) : page := Page (f (dom p)) (optionsMap p) (next p).

(** What the directive reads when it runs: the expressions, the collection, the
    model, what [forEach] would read of it, and the controller's [$viewValue]. *)
Record scope := Scope {
  displayFn : locals -> jsval;
  groupByFn : locals -> jsval;
  valueFn : locals -> jsval;
  trackFn : locals -> jsval;
  values : collection;
  modelValue : jsval;
  modelItems : collection;
  viewValue : jsval
}.

Section Options.
Context (multiple nullOption keyName track : bool) (obj_str : nat -> string).
(** [hashKey] of a value; objects keep the key they were once given. *)
Context (hashKey : jsval -> string).

Definition str (v : jsval) : string := prim_str obj_str v.

(** The text [val] makes of an id (jquery.js 7578-7583). *)
Definition val_text (v : jsval) : string := match v with JUndef | JNull => "" | _ => str v end.

(** *** The controller *)

Definition unknownOption : nat := 1.

(** angular.js 21643-21651; what is thrown, and the page. *)
Definition addOption (view value : jsval) (p : page) : option string * page :=
  if strict_eq value (JStr "hasOwnProperty") then (Some "badname", p)
  else
    let p := Page (dom p) (if bool_decide (str value ∈ optionsMap p) || String.eqb (str value) "__proto__" then optionsMap p else str value :: optionsMap p) (next p) in
    (None, if loose_eq obj_str view value then with_dom (fun d => detach multiple unknownOption (set_value (str value) d)) p else p).

(** angular.js 21664-21670 *)
Definition renderUnknownOption (val : jsval) (p : page) : page :=
  let unknownVal := "? " +:+ hashKey val +:+ " ?" in
  with_dom (fun d => set_selected multiple unknownOption true (set_value unknownVal
                       (prepend multiple unknownOption (set_val unknownOption unknownVal d)))) p.

(** angular.js 21654-21661, 21673-21675 *)
Definition removeOption (view value : jsval) (p : page) : page :=
  if bool_decide (str value ∈ optionsMap p) then
    let p := Page (dom p) (List.filter (fun k => negb (String.eqb k (str value))) (optionsMap p)) (next p) in
    if loose_eq obj_str view value then renderUnknownOption value p else p
  else p.

(** *** What is to be shown (angular.js 21900-21991) *)

(** What a collection has of its own, a text its characters. *)
Definition own_props (vs : collection) : list (string * jsval) :=
  match vs with
  | CArray es => obj_props (OArray es)
  | CObject ps => ps
  | CPrim (JStr s) => obj_props (OArray (map (fun c => JStr (String c "")) (String.list_ascii_of_string s)))
  | CPrim _ => []
  end.

(** [values[0]], [values[1]] ... while the index is less than [values.length]. *)
Definition elements (vs : collection) : list jsval :=
  match vs with
  | CArray es => es
  | CObject ps =>
      let n := match to_number obj_str (prop_get ps "length") with Some n => Z.to_nat n | None => 0%nat end in
      map (fun i => prop_get ps (pretty (N.of_nat i))) (seq 0 n)
  | CPrim (JStr s) => map (fun c => JStr (String c "")) (String.list_ascii_of_string s)
  | CPrim _ => []
  end.

(** The items [for] goes through, with their locals and their ids when there is no
    [track by]; [sortedKeys] throws when [hasOwnProperty] is not the method. *)
Definition items (vs : collection) : option (list (locals * jsval)) :=
  if keyName then
    let ps := own_props vs in
    if prop_has ps "hasOwnProperty" then None
    else Some (map (fun k => (Locals (Some k) (Some (prop_get ps k)), JStr k))
                (List.filter (fun k => negb (String.prefix "$" k)) (Basics.sortedKeys ps)))
  else Some (imap (fun i v => (Locals None (Some v), JNum (Z.of_nat i))) (elements vs)).

Definition put_all (kvs : list (jsval * jsval)) : list (string * jsval) :=
  fold_left (fun m '(k, v) => prop_set m (hashKey k) v) kvs [].

(** angular.js 21900-21916; [HashMap] puts each element with its index. *)
Definition getSelectedSet (sc : scope) : list (string * jsval) :=
  match modelItems sc with
  | CArray es =>
      put_all (if track then map (fun v => (trackFn sc (Locals None (Some v)), v)) es
               else imap (fun i v => (v, JNum (Z.of_nat i))) es)
  | CObject ps => put_all (map (fun p : string * jsval => (p.2, JStr p.1)) ps)
  | CPrim _ => []
  end.

(** angular.js 21958-21971: is the item selected, and what is left of
    [selectedSet], or whether something was. *)
Definition is_selected (sc : scope) (l : locals) (set : list (string * jsval)) (any : bool) : bool * list (string * jsval) * bool :=
  if multiple then
    let k := hashKey (if track then trackFn sc l else valueFn sc l) in
    (negb (bool_decide (prop_get set k = JUndef)), prop_del set k, any)
  else
    let b := if track then strict_eq (trackFn sc (Locals None (Some (modelValue sc)))) (trackFn sc l)
             else strict_eq (modelValue sc) (valueFn sc l) in
    (b, set, any || b).

(** [optionGroups] and [optionGroupNames]: the groups in the order of their
    names; a name that [optionGroups] inherits is taken for a group. *)
Fixpoint push_group (name : string) (o : opt) (gs : list (string * list opt)) : option (list (string * list opt)) :=
  match gs with
  | [] => if object_name name then None else Some [(name, [o])]
  | (name', os) :: gs =>
      if String.eqb name' name then Some ((name', os ++ [o]) :: gs)
      else (fun gs => (name', os) :: gs) <$> push_group name o gs
  end.

Definition group_name (sc : scope) (l : locals) : string := let v := groupByFn sc l in if truthy v then str v else "".

Definition opt_of (sc : scope) (l : locals) (i : jsval) (b : bool) : opt :=
  let lab := displayFn sc l in
  Opt (if track then trackFn sc l else i) (if bool_decide (lab = JUndef) then JStr "" else lab) b.

(** angular.js 21942-21982 *)
Fixpoint collect (sc : scope) (ls : list (locals * jsval)) (set : list (string * jsval)) (any : bool)
    (gs : list (string * list opt)) : option (list (string * list opt) * bool) :=
  match ls with
  | [] => Some (gs, any)
  | (l, i) :: ls =>
      let '(b, set, any) := is_selected sc l set any in
      match push_group (group_name sc l) (opt_of sc l i b) gs with
      | Some gs => collect sc ls set any gs
      | None => None
      end
  end.

Definition unshift (o : opt) (gs : list (string * list opt)) : list (string * list opt) :=
  match gs with (name, os) :: gs => (name, o :: os) :: gs | [] => [] end.

(** angular.js 21942-21991; of an inherited name [push] throws. *)
Definition optionGroups (sc : scope) : option (list (string * list opt)) :=
  match its ← items (values sc); collect sc its (getSelectedSet sc) false [("", [])] with
  | None => None
  | Some (gs, any) =>
      Some (if multiple then gs
            else if nullOption || strict_eq (modelValue sc) JNull then unshift (Opt (JStr "") (JStr "") (negb any)) gs
            else if negb any then unshift (Opt (JStr "?") (JStr "") true) gs
            else gs)
  end.

(** *** Bringing the page up to date (angular.js 21994-22090) *)

(** 22028-22034 *)
Definition relabel (o : opt) (e : entry) (p : page) : page :=
  let p := if strict_eq (e_label e) (label o) then p else with_dom (set_text (e_node e) (str (label o))) p in
  if strict_eq (e_id e) (id o) then p else with_dom (set_val (e_node e) (val_text (id o))) p.

(** 22027-22044 *)
Definition update (o : opt) (e : entry) (p : page) : entry * page :=
  let p := relabel o e p in
  let same := Bool.eqb (o_selected (opts (dom p) (e_node e))) (selected o) in
  let p := if same then p else with_dom (set_selected multiple (e_node e) (selected o)) p in
  (Entry (e_node e) (label o) (id o) (if same then e_selected e else selected o), p).

Definition is_null (o : opt) : bool := strict_eq (id o) (JStr "") && nullOption.

(** 22049-22062 *)
Definition element (o : opt) (p : page) : nat * page :=
  if is_null o then (0%nat, p)
  else (next p, Page (put (next p) (ONode (val_text (id o)) (str (label o)) (selected o)) (dom p)) (optionsMap p) (S (next p))).

(** 22071-22075; [after] of an element that is not on the page throws. *)
Definition insert (parent lastElement : option nat) (n : nat) (p : page) : option string * page :=
  match lastElement with
  | Some l => if attached l (dom p) then (None, with_dom (after multiple l n) p) else (Some "TypeError", p)
  | None => (None, with_dom (append multiple parent n) p)
  end.

(** 22081-22085: the last first. *)
Definition pop (view : jsval) (e : entry) (p : page) : page :=
  with_dom (detach multiple (e_node e)) (removeOption view (e_label e) p).

(** 22022-22085: the options of one group; an error leaves the page as it is. *)
Fixpoint sync (view : jsval) (parent : option nat) (os : list opt) (old : list entry) (last : option nat) (p : page) :
    option string * list entry * page :=
  match os with
  | [] => (None, [], fold_right (pop view) p old)
  | o :: os =>
      match old with
      | e :: old =>
          let '(e, p) := update o e p in
          let '(err, es, p) := sync view parent os old (Some (e_node e)) p in
          (err, e :: es, p)
      | [] =>
          let '(n, p) := element o p in
          let e := Entry n (label o) (id o) (selected o) in
          match addOption view (label o) p with
          | (Some err, p) => (Some err, [e], p)
          | (None, p) =>
              match insert parent last n p with
              | (Some err, p) => (Some err, [e], p)
              | (None, p) => let '(err, es, p) := sync view parent os [] (Some n) p in (err, e :: es, p)
              end
          end
      end
  end.

(** 22003-22020 *)
Definition parent_of (name : string) (old : option group) (p : page) : group * page :=
  match old with
  | None =>
      (Group (Some (next p)) None [],
       Page (append_group (next p) (set_glabel (next p) name (dom p))) (optionsMap p) (S (next p)))
  | Some g =>
      if bool_decide (g_label g = Some name) then (g, p)
      else (Group (g_elem g) (Some name) (g_options g),
            match g_elem g with Some e => with_dom (set_glabel e name) p | None => p end)
  end.

Definition pop_group (g : group) (p : page) : page :=
  match g_elem g with Some e => with_dom (detach_group multiple e) p | None => p end.

(** 21994-22090 *)
Fixpoint sync_groups (view : jsval) (gs : list (string * list opt)) (old : list group) (p : page) :
    option string * list group * page :=
  match gs with
  | [] => (None, [], fold_right pop_group p old)
  | (name, os) :: gs =>
      let '(g, p) := parent_of name (head old) p in
      let '(err, es, p) := sync view (g_elem g) os (g_options g) None p in
      let g := Group (g_elem g) (g_label g) es in
      match err with
      | Some _ => (err, g :: tail old, p)
      | None => let '(err, cache, p) := sync_groups view gs (tail old) p in (err, g :: cache, p)
      end
  end.

(** angular.js 21919-22091; the cache is changed in place, also before an
    error. *)
Definition render (sc : scope) (s : state) : option string * state :=
  match optionGroups sc with
  | None => (Some "TypeError", s)
  | Some gs =>
      let '(err, cache, p) := sync_groups (viewValue sc) gs (optionGroupsCache s) (on s) in (err, State cache p)
  end.

(** *** The user's choice (angular.js 21823-21876) *)

(** The option is chosen, or in a list of many its mark is turned. *)
Definition choose (n : nat) (s : state) : state :=
  State (optionGroupsCache s)
    (with_dom (fun d => if attached n d then set_selected multiple n (if multiple then negb (o_selected (opts d n)) else true) d else d) (on s)).

Definition member (vs : collection) (key : string) : jsval := prop_get (own_props vs) key.

(** 21842-21845, 21861-21867: the locals the loop ends with, and whether it was
    left. *)
Fixpoint track_loop (t : locals -> jsval) (key : string) (es : list jsval) (l : locals) : locals * bool :=
  match es with
  | [] => (l, false)
  | v :: es =>
      let l := Locals (l_key l) (Some v) in
      if loose_eq obj_str (t l) (JStr key) then (l, true) else track_loop t key es l
  end.

(** 21854-21873 *)
Definition read_one (sc : scope) (s : state) : jsval :=
  let key := value (dom (on s)) in
  if String.eqb key "?" then JUndef
  else if String.eqb key "" then JNull
  else if track then
         let '(l, found) := track_loop (trackFn sc) key (elements (values sc)) (Locals None None) in if found then valueFn sc l else JUndef
       else valueFn sc (Locals (if keyName then Some key else None) (Some (member (values sc) key))).

(** 21830-21852: the locals are one object. *)
Fixpoint read_options (sc : scope) (d : select) (es : list entry) (l : locals) : list jsval :=
  match es with
  | [] => []
  | e :: es =>
      if o_selected (opts d (e_node e)) then
        let key := o_value (opts d (e_node e)) in
        let l := Locals (if keyName then Some key else l_key l) (l_value l) in
        let l := if track then (track_loop (trackFn sc) key (elements (values sc)) l).1
                 else Locals (l_key l) (Some (member (values sc) key)) in
        valueFn sc l :: read_options sc d es l
      else read_options sc d es l
  end.

Definition read_many (sc : scope) (s : state) : list jsval :=
  read_options sc (dom (on s)) (flat_map g_options (optionGroupsCache s)) (Locals None None).

(** The select after linking: emptied, with what the page gave for the option
    of no choice (21804-21820). *)
Definition linked (nullText : string) (nullSelected : bool) : state :=
  State [Group None (Some "") []]
    (Page (Select [] (fun _ => []) (fun _ => "")
             (<[0%nat := ONode "" nullText nullSelected]> (fun _ => ONode "" "" false))) [] 2).

(** What the page shows: the options of the select and those of its groups. *)
Definition look (d : select) (n : nat) : string * string * bool :=
  let o := opts d n in (o_value o, o_text o, o_selected o).

Definition shown (d : select) : list (string * list (string * string * bool)) :=
  ("", map (look d) (top_options d)) :: map (fun g => (glabel d g, map (look d) (inner d g))) (top_groups d).

(** *** The cache and the page

    [good C fl p]: the groups [C] of the cache, each with its parent on the page
    and its entries, are what the page has; the options of [fl] have the marks they
    should. *)

Context (nullText : string).

Abbreviation groups := (list (option nat * list entry)).

Definition entries (C : groups) : list entry := flat_map snd C.
Definition nodes (C : groups) : list nat := map e_node (entries C).

(** The element of an entry says what the entry says; the one for no choice keeps
    its text. *)
Definition written (d : select) (e : entry) : Prop :=
  o_value (opts d (e_node e)) = val_text (e_id e) /\
  o_text (opts d (e_node e)) = (if (e_node e =? 0)%nat then nullText else str (e_label e)) /\
  (e_node e = 0%nat -> e_label e = JStr "").

Record good (C : groups) (fl : list (nat * bool)) (p : page) : Prop := Good {
  gd_parents : C.*1 = parents (dom p);
  gd_kids : Forall (fun c => kids_of (dom p) c.1 = map e_node c.2) C;
  gd_nodup : NoDup (nodes C);
  gd_groups : NoDup (top_groups (dom p));
  gd_below : Forall (fun n => n <> unknownOption /\ (n < next p)%nat) (nodes C);
  gd_next : Forall (fun g => (g < next p)%nat) (top_groups (dom p)) /\ (2 <= next p)%nat;
  gd_written : Forall (written (dom p)) (entries C);
  gd_right : right multiple fl (dom p);
  gd_single : single multiple (dom p);
  gd_done : forall m, m ∈ fl.*1 -> m ∈ nodes C;
  gd_null : o_value (opts (dom p) 0) = "" /\ o_text (opts (dom p) 0) = nullText
}.

Lemma good_options C fl p n : good C fl p -> n ∈ options (dom p) <-> n ∈ nodes C.
Proof.
  intros H. rewrite options_kids, <- (gd_parents _ _ _ H). pose proof (gd_kids _ _ _ H) as Hk. rewrite Forall_forall in Hk.
  unfold nodes, entries. split.
  - intros (par & Hp & Hn). apply list_elem_of_fmap in Hp as ([par' es] & -> & Hp). cbn in Hn. specialize (Hk _ Hp). cbn in Hk.
    rewrite Hk in Hn. apply list_elem_of_fmap in Hn as (e & -> & He). apply list_elem_of_fmap. exists e. split; [done|].
    apply list_elem_of_In, in_flat_map. exists (par', es). split; by apply list_elem_of_In.
  - intros Hn. apply list_elem_of_fmap in Hn as (e & -> & He). apply list_elem_of_In, in_flat_map in He as ([par es] & Hp & He).
    apply list_elem_of_In in Hp. apply list_elem_of_In in He. exists par. split; [apply list_elem_of_fmap; by exists (par, es)|].
    specialize (Hk _ Hp). cbn in Hk. rewrite Hk. apply list_elem_of_fmap. by exists e.
Qed.

Lemma parents_nodup C fl p : good C fl p -> NoDup C.*1.
Proof.
  intros H. rewrite (gd_parents _ _ _ H). unfold parents. constructor.
  - by intros (g & [=] & _)%list_elem_of_fmap.
  - apply NoDup_fmap_2; [by intros ?? [=]|apply (gd_groups _ _ _ H)].
Qed.

Lemma entries_split C1 par es C2 : entries (C1 ++ (par, es) :: C2) = entries C1 ++ es ++ entries C2.
Proof. unfold entries. by rewrite flat_map_app. Qed.

Lemma nodes_split C1 par es C2 : nodes (C1 ++ (par, es) :: C2) = nodes C1 ++ map e_node es ++ nodes C2.
Proof. unfold nodes. by rewrite entries_split, !map_app. Qed.

(** The entries of one group are changed. *)
Lemma good_change C1 par es es' C2 fl fl' p p' :
  good (C1 ++ (par, es) :: C2) fl p -> moved par (map e_node es') (dom p) (dom p') -> (next p <= next p')%nat ->
  NoDup (nodes (C1 ++ (par, es') :: C2)) -> Forall (fun n => n <> unknownOption /\ (n < next p')%nat) (map e_node es') ->
  Forall (written (dom p')) es' -> right multiple fl' (dom p') -> single multiple (dom p') ->
  (forall m, m ∈ fl'.*1 -> m ∈ nodes (C1 ++ (par, es') :: C2)) -> good (C1 ++ (par, es') :: C2) fl' p'.
Proof.
  intros H Hm Hn Hnd Hb Hw Hr Hs Hd. pose proof (parents_nodup _ _ _ H) as Hpn. destruct H as [H1 H2 H3 H4 H5 [H6 H6'] H7 _ _ _ H11].
  assert (Hnew : (C1 ++ (par, es') :: C2).*1 = (C1 ++ (par, es) :: C2).*1) by (by rewrite !fmap_app).
  constructor; try done.
  - by rewrite Hnew, (moved_parents _ _ _ _ Hm).
  - rewrite Forall_app, Forall_cons in *. destruct H2 as (Ha & _ & Hc). rewrite fmap_app, fmap_cons in Hpn.
    apply NoDup_app in Hpn as (_ & Hp1 & [Hp2 _]%NoDup_cons). cbn in Hp1, Hp2.
    assert (Hin : forall c, c ∈ C1 \/ c ∈ C2 -> c.1 ∈ parents (dom p)).
    { intros c Hc'. rewrite <- H1. apply list_elem_of_fmap. exists c. split; [done|]. rewrite elem_of_app, elem_of_cons. tauto. }
    split; [|split; [apply (mv_kids _ _ _ _ Hm)|]].
    + rewrite Forall_forall in *. intros c Hc'. rewrite (mv_rest _ _ _ _ Hm); [by apply Ha|apply Hin; by left|].
      intros E. apply (Hp1 c.1); [by apply list_elem_of_fmap_2|rewrite E; left].
    + rewrite Forall_forall in *. intros c Hc'. rewrite (mv_rest _ _ _ _ Hm); [by apply Hc|apply Hin; by right|].
      intros E. apply Hp2. rewrite <- E. by apply list_elem_of_fmap_2.
  - by rewrite (mv_groups _ _ _ _ Hm).
  - rewrite nodes_split, !Forall_app in *. destruct H5 as (Ha & _ & Hc). split; [|split; [done|]]; (eapply Forall_impl; [eassumption|]); intros n [? ?]; split; [done|lia|done|lia].
  - rewrite (mv_groups _ _ _ _ Hm). split; [eapply Forall_impl; [exact H6|]; intros; cbn in *|]; lia.
  - rewrite entries_split, !Forall_app in *. destruct H7 as (Ha & _ & Hc). split; [|split; [done|]]; (eapply Forall_impl; [eassumption|]);
      intros e He; unfold written in *; by rewrite (mv_value _ _ _ _ Hm), (mv_text _ _ _ _ Hm).
  - by rewrite (mv_value _ _ _ _ Hm), (mv_text _ _ _ _ Hm).
Qed.

(** Only the selection is changed. *)
Lemma good_same C fl fl' p p' : good C fl p -> same_tree (dom p) (dom p') -> next p' = next p ->
  right multiple fl' (dom p') -> single multiple (dom p') -> (forall m, m ∈ fl'.*1 -> m ∈ nodes C) -> good C fl' p'.
Proof.
  intros [H1 H2 H3 H4 H5 H6 H7 _ _ _ H11] [S1 S2 S3 S4 S5] Hn Hr Hs Hd.
  constructor; try done; rewrite ?Hn; try done; unfold parents, top_groups in *; rewrite ?S1; try done.
  - eapply Forall_impl; [exact H2|]. intros [[g|] es]; cbn; unfold top_options; by rewrite ?S1, ?S2.
  - eapply Forall_impl; [exact H7|]. intros e. unfold written. by rewrite S4, S5.
  - by rewrite S4, S5.
Qed.

(** The element [n] is written on, on the page or not. *)
Record wrote (n : nat) (v t : string) (d d' : select) : Prop := Wrote {
  wr_top : top d' = top d;
  wr_inner : inner d' = inner d;
  wr_glabel : glabel d' = glabel d;
  wr_rest m : m <> n -> opts d' m = opts d m;
  wr_sel m : m = n -> o_selected (opts d' m) = o_selected (opts d m);
  wr_value : o_value (opts d' n) = v;
  wr_text : o_text (opts d' n) = t
}.

Lemma relabel_wrote o e p : written (dom p) e -> (e_node e = 0%nat -> label o = JStr "") ->
  next (relabel o e p) = next p /\
  wrote (e_node e) (val_text (id o)) (if (e_node e =? 0)%nat then nullText else str (label o)) (dom p) (dom (relabel o e p)).
Proof.
  intros (H1 & H2 & H3) H0. unfold relabel. destruct (strict_eq (e_label e) (label o)) eqn:E1, (strict_eq (e_id e) (id o)) eqn:E2; cbn;
    try apply strict_eq_true in E1; try apply strict_eq_true in E2; (split; [done|]); constructor; cbn; try done;
    try (intros m ->); try (intros m Hm); rewrite ?fn_lookup_insert, ?fn_lookup_insert_ne by done; cbn; rewrite ?fn_lookup_insert; try done; try congruence;
    destruct (Nat.eqb_spec (e_node e) 0) as [E|E]; try congruence; rewrite (H3 E), (H0 E) in E1; done.
Qed.

Lemma good_wrote C1 par es1 e e' es2 C2 fl p p' v t :
  good (C1 ++ (par, es1 ++ e :: es2) :: C2) fl p -> e_node e' = e_node e -> wrote (e_node e) v t (dom p) (dom p') -> next p' = next p ->
  written (dom p') e' -> (e_node e = 0%nat -> e_id e' = JStr "") -> good (C1 ++ (par, es1 ++ e' :: es2) :: C2) fl p'.
Proof.
  intros H He Hw Hn He' H0.
  assert (Hs : forall m, o_selected (opts (dom p') m) = o_selected (opts (dom p) m)).
  { intros m. destruct (decide (m = e_node e)) as [->|Hm]; [by apply (wr_sel _ _ _ _ _ Hw)|by rewrite (wr_rest _ _ _ _ _ Hw)]. }
  assert (Hnodes : nodes (C1 ++ (par, es1 ++ e' :: es2) :: C2) = nodes (C1 ++ (par, es1 ++ e :: es2) :: C2)).
  { rewrite !nodes_split, !map_app. cbn. by rewrite He. }
  assert (Ho : forall m, m ∈ options (dom p') <-> m ∈ options (dom p)).
  { intros m. unfold options, kids. by rewrite (wr_top _ _ _ _ _ Hw), (wr_inner _ _ _ _ _ Hw). }
  pose proof (fun m => good_options _ _ _ m H) as Hopt. destruct H as [H1 H2 H3 H4 H5 H6 H7 H8 H9 H10 H11].
  assert (Hk : forall q, kids_of (dom p') q = kids_of (dom p) q).
  { intros [g|]; unfold kids_of, top_options; by rewrite ?(wr_top _ _ _ _ _ Hw), ?(wr_inner _ _ _ _ _ Hw). }
  constructor; rewrite ?Hnodes, ?Hn; try done.
  - rewrite !fmap_app in *. unfold parents, top_groups in *. by rewrite (wr_top _ _ _ _ _ Hw).
  - rewrite Forall_app, Forall_cons in *. destruct H2 as (Ha & Hb & Hc). split; [|split; [cbn in *; rewrite Hk, Hb, !map_app; cbn; by rewrite He|]];
      (eapply Forall_impl; [eassumption|]); intros c; by rewrite Hk.
  - unfold top_groups in *. by rewrite (wr_top _ _ _ _ _ Hw).
  - unfold top_groups in *. by rewrite (wr_top _ _ _ _ _ Hw).
  - rewrite nodes_split, map_app in H3. cbn in H3. rewrite entries_split, !Forall_app, Forall_cons in *.
    assert (Hout : Forall (fun m => m <> e_node e) (nodes C1 ++ map e_node es1) /\ Forall (fun m => m <> e_node e) (map e_node es2 ++ nodes C2)).
    { rewrite <- app_assoc in H3. cbn in H3. rewrite (app_assoc (nodes C1)) in H3. apply NoDup_app in H3 as (_ & Hx & [Hy _]%NoDup_cons).
      split; apply Forall_forall; intros m Hm ->; [by apply (Hx _ Hm); left|done]. }
    unfold nodes in Hout. rewrite !Forall_app, !Forall_fmap in Hout.
    assert (Hrest : forall es, Forall (written (dom p)) es -> Forall (fun x => e_node x <> e_node e) es -> Forall (written (dom p')) es).
    { intros es Hes Hne. rewrite Forall_forall in *. intros x Hx. unfold written. rewrite (wr_rest _ _ _ _ _ Hw) by by apply Hne. by apply Hes. }
    destruct H7 as (Ha & (Hb & _ & Hc) & Hd), Hout as [[O1 O2] [O3 O4]]. split_and!; auto.
  - eapply right_sel; [intros m _; apply Hs| |intros m Hm; apply Ho, Hopt, H10, Hm|exact H8]. intros m. apply Ho.
  - eapply single_sel; [intros m _; apply Hs| |exact H9]. intros m. apply Ho.
  - destruct (decide (e_node e = 0%nat)) as [E|E]; [|by rewrite (wr_rest _ _ _ _ _ Hw) by done].
    destruct He' as (V & T & _). rewrite He, E, H0 in V by done. by rewrite He, E in T.
Qed.

(** An existing option is brought up to date. *)
Lemma good_update C1 par es1 e es2 C2 fl p o :
  good (C1 ++ (par, es1 ++ e :: es2) :: C2) fl p -> e_node e ∉ fl.*1 -> (e_node e = 0%nat -> label o = JStr "" /\ id o = JStr "") ->
  let '(e', p') := update o e p in
  (e_node e' = e_node e /\ e_label e' = label o /\ e_id e' = id o) /\ glabel (dom p') = glabel (dom p) /\ (next p <= next p')%nat /\
  good (C1 ++ (par, es1 ++ e' :: es2) :: C2) (fl ++ [(e_node e, selected o)]) p'.
Proof.
  intros H Hout H0. unfold update. set (same := Bool.eqb _ _).
  assert (He : written (dom p) e).
  { pose proof (gd_written _ _ _ H) as Hw. rewrite entries_split, !Forall_app, Forall_cons in Hw. tauto. }
  destruct (relabel_wrote o e p He ltac:(intros E; by apply H0)) as [Hn Hw].
  set (e' := Entry _ _ _ _). split; [done|].
  assert (H1 : good (C1 ++ (par, es1 ++ e' :: es2) :: C2) fl (relabel o e p)).
  { eapply good_wrote; [exact H|done|exact Hw|done| |intros E; by apply H0]. unfold written. cbn [e' e_node e_id e_label].
    rewrite (wr_value _ _ _ _ _ Hw), (wr_text _ _ _ _ _ Hw). split_and!; try done. intros E. by apply H0. }
  clearbody e'. subst same. set (p1 := relabel o e p) in *.
  assert (Hin : e_node e ∈ nodes (C1 ++ (par, es1 ++ e' :: es2) :: C2)).
  { assert (E : nodes (C1 ++ (par, es1 ++ e' :: es2) :: C2) = nodes (C1 ++ (par, es1 ++ e :: es2) :: C2)).
    2: { rewrite E, nodes_split, map_app. rewrite !elem_of_app. right. left. right. left. }
    pose proof (gd_kids _ _ _ H) as K. pose proof (gd_kids _ _ _ H1) as K1. rewrite Forall_app, Forall_cons in K, K1.
    rewrite !nodes_split. f_equal. f_equal. destruct K as (_ & K & _), K1 as (_ & K1 & _). cbn in K, K1. rewrite <- K, <- K1.
    destruct par; unfold kids_of, top_options; by rewrite ?(wr_inner _ _ _ _ _ Hw), ?(wr_top _ _ _ _ _ Hw). }
  assert (Hd : forall m, m ∈ (fl ++ [(e_node e, selected o)]).*1 -> m ∈ nodes (C1 ++ (par, es1 ++ e' :: es2) :: C2)).
  { intros m. rewrite fmap_app, elem_of_app. intros [Hm|Hm%list_elem_of_singleton]; [by apply (gd_done _ _ _ H1)|by subst]. }
  pose proof (fun m => good_options _ _ _ m H1) as Ho.
  destruct (Bool.eqb _ _) eqn:E.
  - apply Bool.eqb_prop in E. split; [apply (wr_glabel _ _ _ _ _ Hw)|]. split; [lia|]. eapply good_same; [exact H1|done|done| |apply H1|done].
    rewrite <- E. apply right_same; [by apply Ho|apply H1|apply H1].
  - destruct (set_selected_right multiple fl (e_node e) (selected o) (dom p1)) as [R1 R2]; [by apply Ho|done| |apply H1|apply H1|].
    { intros m Hm. by apply Ho, (gd_done _ _ _ H1). }
    pose proof (set_selected_tree multiple (e_node e) (selected o) (dom p1)) as St.
    split; [cbn; by rewrite (st_glabel _ _ St), (wr_glabel _ _ _ _ _ Hw)|]. split; [cbn; lia|]. by eapply good_same; [exact H1|exact St|..].
Qed.

Lemma good_map C fl p p' : good C fl p -> dom p' = dom p -> next p' = next p -> good C fl p'.
Proof. intros [] Hd Hn. constructor; by rewrite ?Hd, ?Hn. Qed.

(** The parents of a group's neighbours do not have its options. *)
Lemma good_apart C1 par es C2 fl p n q : good (C1 ++ (par, es) :: C2) fl p -> n ∈ map e_node es -> q ∈ parents (dom p) -> q <> par -> n ∉ kids_of (dom p) q.
Proof.
  intros H Hn Hq Hne Hin. pose proof (gd_nodup _ _ _ H) as Hnd. rewrite nodes_split in Hnd.
  rewrite <- (gd_parents _ _ _ H) in Hq. apply list_elem_of_fmap in Hq as ([q' es'] & -> & Hq). cbn in *.
  pose proof (gd_kids _ _ _ H) as Hk. rewrite Forall_forall in Hk. specialize (Hk _ Hq). cbn in Hk. rewrite Hk in Hin.
  assert (Hsub : forall C, (q', es') ∈ C -> n ∈ nodes C).
  { intros C Hc. unfold nodes. apply list_elem_of_fmap in Hin as (e & -> & He). apply list_elem_of_fmap. exists e. split; [done|].
    apply list_elem_of_In, in_flat_map. exists (q', es'). split; by apply list_elem_of_In. }
  apply NoDup_app in Hnd as (_ & H1 & (_ & H2 & _)%NoDup_app). apply elem_of_app in Hq as [Hq|[[= -> ->]|Hq]%elem_of_cons]; [|done|].
  - apply (H1 n); [by apply Hsub|apply elem_of_app; by left].
  - apply (H2 n); [done|by apply Hsub].
Qed.

Definition placed (par last : option nat) (n : nat) (d : select) : select :=
  match last with Some l => put_after l n d | None => appended par n d end.

Lemma placed_moved C1 par es C2 fl p n : good (C1 ++ (par, es) :: C2) fl p ->
  moved par (map e_node es ++ [n]) (dom p) (placed par (list.last (map e_node es)) n (dom p)).
Proof.
  intros H. pose proof (gd_kids _ _ _ H) as Hk. rewrite Forall_app, Forall_cons in Hk. destruct Hk as (_ & Hk & _). cbn in Hk. rewrite <- Hk.
  unfold placed. destruct (list.last (kids_of (dom p) par)) as [l|] eqn:E; [|apply appended_moved].
  apply last_Some in E as [ns E]. pose proof (gd_nodup _ _ _ H) as Hnd. rewrite nodes_split, <- Hk, E in Hnd.
  apply (put_after_moved par l n ns); [done| |].
  - apply NoDup_app in Hnd as (_ & _ & (Hnd & _)%NoDup_app). apply NoDup_app in Hnd as (_ & Hx & _). intros Hl. apply (Hx _ Hl). left.
  - intros q Hq Hne. eapply good_apart; [exact H| |done|done]. rewrite <- Hk, E. apply elem_of_app. right. left.
Qed.

(** An option that was made is put in its place. *)
Lemma good_arrive C1 par es C2 fl p e : let n := e_node e in
  good (C1 ++ (par, es) :: C2) fl p -> n ∉ nodes (C1 ++ (par, es) :: C2) -> n <> unknownOption -> (n < next p)%nat -> written (dom p) e ->
  exists d, insert par (list.last (map e_node es)) n p = (None, with_dom (fun _ => d) p) /\ glabel d = glabel (dom p) /\
    good (C1 ++ (par, es ++ [e]) :: C2) (fl ++ [(n, sel (dom p) n)]) (with_dom (fun _ => d) p) /\
    d = arrived multiple n (placed par (list.last (map e_node es)) n (dom p)).
Proof.
  intros n H Hn Hn1 Hlt Hw. pose proof (placed_moved _ _ _ _ _ _ n H) as Hm. pose proof (fun m => good_options _ _ _ m H) as Ho.
  set (d1 := placed par (list.last (map e_node es)) n (dom p)) in *. pose proof (arrived_tree multiple n d1) as Ht.
  assert (Hno : n ∉ options (dom p)) by (by rewrite Ho).
  assert (Hp : par ∈ parents (dom p)) by (rewrite <- (gd_parents _ _ _ H), fmap_app; apply elem_of_app; right; left).
  pose proof (gd_kids _ _ _ H) as Hk. rewrite Forall_app, Forall_cons in Hk. destruct Hk as (_ & Hk & _). cbn in Hk.
  exists (arrived multiple n d1). split; [|split; [|split; [|done]]].
  - unfold insert. destruct (list.last (map e_node es)) as [l|] eqn:E.
    + unfold attached. rewrite bool_decide_true. { unfold with_dom. by rewrite (after_eq multiple) by done. }
      apply Ho. rewrite nodes_split, !elem_of_app. right. left. apply last_Some in E as [ns ->]. apply elem_of_app. right. left.
    + unfold with_dom. by rewrite (append_eq multiple) by done.
  - by rewrite (st_glabel _ _ Ht), (mv_glabel _ _ _ _ Hm).
  - destruct (arrived_right multiple fl n (dom p) d1) as [R1 R2].
    + intros m. subst d1. unfold placed. by destruct (list.last _), par.
    + intros m. rewrite (moved_options _ _ _ _ m Hm Hp), options_kids, elem_of_app, list_elem_of_singleton. split.
      * intros [[Hx| ->]|(q & Hq & _ & Hx)]; [|by left|right; by exists q]. right. exists par. by rewrite Hk.
      * intros [->|(q & Hq & Hx)]; [by left; right|]. destruct (decide (q = par)) as [->|Hne]; [left; left; by rewrite <- Hk|right; by exists q].
    + done.
    + intros m Hx. by apply Ho, (gd_done _ _ _ H).
    + apply H.
    + apply H.
    + eapply good_change; [exact H| | | | | |exact R1|exact R2|]; cbn [with_dom dom next].
      * rewrite map_app. by eapply moved_tree.
      * done.
      * pose proof (gd_nodup _ _ _ H) as Hnd. rewrite nodes_split in Hnd, Hn |- *. rewrite map_app. cbn. rewrite <- app_assoc.
        rewrite app_assoc. cbn. rewrite <- Permutation_middle, <- app_assoc. apply NoDup_cons. by split.
      * pose proof (gd_below _ _ _ H) as Hb. rewrite nodes_split, !Forall_app in Hb. rewrite map_app, Forall_app. split; [apply Hb|]. by apply Forall_singleton.
      * pose proof (gd_written _ _ _ H) as Hb. rewrite entries_split, !Forall_app in Hb. rewrite Forall_app, Forall_singleton.
        assert (Hkeep : forall x, written (dom p) x -> written (arrived multiple n d1) x).
        { intros x. unfold written. by rewrite (st_value _ _ Ht), (st_text _ _ Ht), (mv_value _ _ _ _ Hm), (mv_text _ _ _ _ Hm). }
        split; [|by apply Hkeep]. eapply Forall_impl; [apply Hb|exact Hkeep].
      * intros m. rewrite fmap_app, elem_of_app, nodes_split, map_app, !elem_of_app. intros [Hx|Hx%list_elem_of_singleton].
        -- apply (gd_done _ _ _ H) in Hx. rewrite nodes_split, !elem_of_app in Hx. tauto.
        -- right. left. right. subst. left.
Qed.

(** Labels that the controller has nothing to do with. *)
Definition quiet (view v : jsval) : Prop := loose_eq obj_str view v = false.

Lemma addOption_quiet view v p : quiet view v -> v <> JStr "hasOwnProperty" -> exists m, addOption view v p = (None, Page (dom p) m (next p)).
Proof.
  intros Hq Hv. unfold addOption. destruct (strict_eq v _) eqn:E; [by apply strict_eq_true in E|]. rewrite Hq. by eexists.
Qed.

Lemma pop_quiet view e p : quiet view (e_label e) -> exists m, pop view e p = Page (detach multiple (e_node e) (dom p)) m (next p).
Proof. intros Hq. unfold pop, removeOption. rewrite Hq. case_bool_decide; by eexists. Qed.

Lemma good_pop C1 par es e C2 fl p view : good (C1 ++ (par, es ++ [e]) :: C2) fl p -> e_node e ∉ fl.*1 -> quiet view (e_label e) ->
  good (C1 ++ (par, es) :: C2) fl (pop view e p) /\ glabel (dom (pop view e p)) = glabel (dom p) /\ next (pop view e p) = next p.
Proof.
  intros H Hout Hq. destruct (pop_quiet view e p Hq) as [m ->]. cbn [dom next].
  pose proof (gd_kids _ _ _ H) as Hk. rewrite Forall_app, Forall_cons in Hk. destruct Hk as (_ & Hk & _). cbn in Hk. rewrite map_app in Hk.
  pose proof (gd_nodup _ _ _ H) as Hnd. rewrite nodes_split, map_app in Hnd. pose proof (fun m => good_options _ _ _ m H) as Ho.
  assert (Hp : par ∈ parents (dom p)) by (rewrite <- (gd_parents _ _ _ H), fmap_app; apply elem_of_app; right; left).
  assert (Hin : e_node e ∈ options (dom p)).
  { apply Ho. rewrite nodes_split, map_app, !elem_of_app. right. left. right. left. }
  rewrite detach_eq by done. set (d1 := removed (e_node e) (dom p)).
  assert (Hm : moved par (map e_node es) (dom p) d1).
  { apply removed_moved; [done| |].
    - apply NoDup_app in Hnd as (_ & _ & (Hnd & _)%NoDup_app). apply NoDup_app in Hnd as (_ & Hx & _). intros Hl. apply (Hx _ Hl). left.
    - intros q Hq' Hne. eapply good_apart; [exact H| |done|done]. rewrite map_app. apply elem_of_app. right. left. }
  pose proof (reset_tree multiple d1) as Ht.
  assert (Hdone : forall m, m ∈ fl.*1 -> m ∈ nodes (C1 ++ (par, es) :: C2)).
  { intros x Hx. pose proof (gd_done _ _ _ H x Hx) as Hy. rewrite nodes_split, map_app, !elem_of_app in Hy. rewrite nodes_split, !elem_of_app.
    destruct Hy as [Hy|[[Hy|Hy%list_elem_of_singleton]|Hy]]; [tauto|tauto|by subst|tauto]. }
  assert (Hsub : forall x, x ∈ options d1 <-> x ∈ options (dom p) /\ x <> e_node e).
  { intros x. unfold d1. rewrite !options_kids. change (parents (removed (e_node e) (dom p))) with (None :: map Some (top_groups (removed (e_node e) (dom p)))).
    rewrite removed_groups. split.
    - intros (q & Hq' & Hx). rewrite removed_kids in Hx. apply list_elem_of_In, filter_In in Hx as [Hx Hne]. apply list_elem_of_In in Hx.
      split; [by exists q|]. intros ->. by rewrite Nat.eqb_refl in Hne.
    - intros [(q & Hq' & Hx) Hne]. exists q. split; [done|]. rewrite removed_kids. apply list_elem_of_In, filter_In. split; [by apply list_elem_of_In|].
      by apply negb_true_iff, Nat.eqb_neq. }
  destruct (gone_right multiple fl (dom p) d1) as [R1 R2].
  { done. } { intros x Hx. by apply Hsub. }
  { intros x Hx. apply Hsub. split; [by apply Ho, (gd_done _ _ _ H)|]. by intros ->. } { apply H. } { apply H. }
  split; [|split; [by rewrite (st_glabel _ _ Ht)|done]].
  eapply good_change; [exact H| | | | | |exact R1|exact R2|exact Hdone]; cbn [dom next].
  - by eapply moved_tree.
  - done.
  - rewrite nodes_split. eapply sublist_NoDup; [exact Hnd|]. apply sublist_app; [done|]. apply sublist_app; [|done]. by apply sublist_inserts_r.
  - pose proof (gd_below _ _ _ H) as Hb. rewrite nodes_split, map_app, !Forall_app in Hb. tauto.
  - pose proof (gd_written _ _ _ H) as Hb. rewrite entries_split, !Forall_app in Hb. eapply Forall_impl; [apply Hb|].
    intros x. unfold written. by rewrite (st_value _ _ Ht), (st_text _ _ Ht).
Qed.

(** An option is made. *)
Lemma good_made C fl p o : good C fl p -> is_null o = false ->
  let '(n, p') := element o p in
  good C fl p' /\ (n ∉ nodes C) /\ n <> unknownOption /\ n <> 0%nat /\ (n < next p')%nat /\ next p' = S (next p) /\ glabel (dom p') = glabel (dom p) /\
  sel (dom p') n = selected o /\ forall b, written (dom p') (Entry n (label o) (id o) b).
Proof.
  intros H Ho. unfold element. rewrite Ho. set (o1 := ONode _ _ _). pose proof (fun m => good_options _ _ _ m H) as Hopt.
  destruct H as [H1 H2 H3 H4 H5 [H6 H6'] H7 H8 H9 H10 H11].
  assert (Hn : Forall (fun m => m <> next p) (nodes C)) by (eapply Forall_impl; [exact H5|]; cbn; intros m [? ?]; lia).
  assert (Hopts : forall m, m <> next p -> opts (put (next p) o1 (dom p)) m = opts (dom p) m).
  { intros m Hm. cbn. by rewrite fn_lookup_insert_ne. }
  assert (Hsel : forall m, m ∈ options (dom p) -> sel (put (next p) o1 (dom p)) m = sel (dom p) m).
  { intros m Hm%Hopt. rewrite Forall_forall in Hn. unfold sel. by rewrite Hopts by by apply Hn. }
  assert (Hnew : opts (put (next p) o1 (dom p)) (next p) = o1) by (cbn; by rewrite fn_lookup_insert).
  split; [|repeat match goal with |- _ /\ _ => split end; try done; cbn [next dom]; try lia].
  - constructor; cbn [dom next]; try done.
    + eapply Forall_impl; [exact H5|]. intros m [? ?]. split; [done|lia].
    + split; [|lia]. eapply Forall_impl; [exact H6|]. intros m ?. cbn in *. lia.
    + rewrite Forall_forall in H7. rewrite Forall_forall in Hn. apply Forall_forall. intros e He. unfold written. rewrite Hopts; [by apply H7|]. apply Hn. by apply list_elem_of_fmap_2.
    + eapply right_sel; [exact Hsel|done| |exact H8]. intros m Hm. by apply Hopt, H10.
    + eapply single_sel; [exact Hsel|done|exact H9].
    + by rewrite Hopts by lia.
  - intros Hin. rewrite Forall_forall in Hn. by apply (Hn _ Hin).
  - unfold unknownOption. lia.
  - unfold sel. by rewrite Hnew.
  - intros b. unfold written. cbn [e_node e_id e_label]. rewrite Hnew. split; [done|]. destruct (Nat.eqb_spec (next p) 0); [lia|]. done.
Qed.

(** What the options asked are to be, and what was shown before. *)
Record fair (view : jsval) (o : opt) : Prop := Fair {
  fr_null : is_null o = false;
  fr_quiet : quiet view (label o);
  fr_name : label o <> JStr "hasOwnProperty"
}.
Definition plain (view : jsval) (e : entry) : Prop := quiet view (e_label e) /\ e_node e <> 0%nat.
Definition as_asked (e : entry) (o : opt) : Prop := e_label e = label o /\ e_id e = id o /\ (e_node e =? 0)%nat = is_null o.

Lemma pops view old : forall C1 par es C2 fl p, good (C1 ++ (par, es ++ old) :: C2) fl p ->
  Forall (fun e => e_node e ∉ fl.*1) old -> Forall (fun e => quiet view (e_label e)) old ->
  let p' := fold_right (pop view) p old in
  good (C1 ++ (par, es) :: C2) fl p' /\ glabel (dom p') = glabel (dom p) /\ next p' = next p.
Proof.
  induction old as [|e old IH] using rev_ind; intros C1 par es C2 fl p H Hf Hq; cbn; [by rewrite app_nil_r in H|].
  rewrite Forall_app, Forall_singleton in Hf, Hq. rewrite app_assoc in H. rewrite fold_right_app. cbn.
  destruct (good_pop _ _ _ _ _ _ _ view H) as (H1 & H2 & H3); [apply Hf|apply Hq|].
  destruct (IH _ _ _ _ _ _ H1) as (I1 & I2 & I3); [apply Hf|apply Hq|]. split; [done|]. by rewrite I2, I3.
Qed.

Lemma sync_spec view par os : forall C1 es C2 old fl p, good (C1 ++ (par, es ++ old) :: C2) fl p ->
  Forall (fun e => e_node e ∉ fl.*1) old -> Forall (fair view) os -> Forall (plain view) old ->
  let '(err, es', p') := sync view par os old (list.last (map e_node es)) p in
  err = None /\ Forall2 as_asked es' os /\ glabel (dom p') = glabel (dom p) /\ (next p <= next p')%nat /\
  good (C1 ++ (par, es ++ es') :: C2) (fl ++ zip (map e_node es') (map selected os)) p'.
Proof.
  induction os as [|o os IH]; intros C1 es C2 old fl p H Hf Hos Hold.
  - cbn [sync]. destruct (pops view old _ _ _ _ _ _ H Hf) as (H1 & H2 & H3); [by eapply Forall_impl; [exact Hold|intros e [? _]]|].
    cbn. rewrite !app_nil_r. split; [done|]. split; [constructor|]. split; [done|]. split; [lia|done].
  - apply Forall_cons in Hos as [Ho Hos]. destruct old as [|e old]; cbn [sync].
    + rewrite app_nil_r in H. pose proof (good_made _ _ _ o H (fr_null _ _ Ho)) as Hm. destruct (element o p) as [n p1].
      destruct Hm as (M1 & M2 & M3 & M4 & M5 & M6 & M7 & M8 & M9).
      destruct (addOption_quiet view (label o) p1 (fr_quiet _ _ Ho) (fr_name _ _ Ho)) as [m ->]. set (p2 := Page _ _ _).
      assert (H2 : good (C1 ++ (par, es) :: C2) fl p2) by (by eapply good_map).
      destruct (good_arrive C1 par es C2 fl p2 (Entry n (label o) (id o) (selected o))) as (d & D1 & D2 & D3 & _); try done.
      cbn [e_node] in D1. rewrite D1. cbn [e_node] in D3. change (sel (dom p2) n) with (sel (dom p1) n) in D3. rewrite M8 in D3.
      set (p3 := with_dom (fun _ => d) p2) in *. rewrite <- (app_nil_r (es ++ [_])) in D3.
      specialize (IH _ _ _ _ _ _ D3). rewrite (map_app e_node es) in IH. cbn [map e_node] in IH. rewrite last_snoc in IH.
      destruct (sync view par os [] (Some n) p3) as [[err es'] p']. destruct IH as (I1 & I2 & I3 & I4 & I5); [constructor|done|constructor|].
      split; [done|]. split.
      { constructor; [|done]. unfold as_asked. cbn [e_label e_id e_node]. by rewrite (fr_null _ _ Ho), (proj2 (Nat.eqb_neq n 0)). }
      split; [rewrite I3; etrans; [exact D2|exact M7]|]. split; [cbn in I4; lia|].
      by rewrite <- !app_assoc in I5.
    + apply Forall_cons in Hf as [He Hf]. apply Forall_cons in Hold as [[Hq He0] Hold].
      pose proof (good_update C1 par es e old C2 fl p o H He ltac:(done)) as Hu. destruct (update o e p) as [e' p1].
      destruct Hu as ((U1 & U2 & U3) & U4 & U5 & U6). replace (es ++ e' :: old) with ((es ++ [e']) ++ old) in U6 by (by rewrite <- app_assoc). specialize (IH _ _ _ _ _ _ U6). rewrite (map_app e_node es) in IH. cbn [map e_node] in IH. rewrite last_snoc in IH.
      destruct (sync view par os old _ p1) as [[err es'] p']. destruct IH as (I1 & I2 & I3 & I4 & I5); [|done|done|].
      { pose proof (gd_nodup _ _ _ H) as Hnd. rewrite nodes_split, map_app in Hnd.
        apply NoDup_app in Hnd as (_ & _ & (Hnd & _)%NoDup_app). apply NoDup_app in Hnd as (_ & _ & [Hnd _]%NoDup_cons).
        rewrite Forall_forall in Hf. apply Forall_forall. intros x Hx. rewrite fmap_app, not_elem_of_app. split; [by apply Hf|]. cbn. rewrite list_elem_of_singleton.
        intros E. apply Hnd. rewrite <- E. by apply list_elem_of_fmap_2. }
      split; [done|]. split; [constructor; [unfold as_asked; by rewrite U1, (fr_null _ _ Ho), (proj2 (Nat.eqb_neq _ 0) He0)|done]|]. split; [congruence|]. split; [lia|].
      rewrite <- !app_assoc in I5. cbn. by rewrite U1.
Qed.

Lemma reset_some d : multiple = false -> options d <> [] -> exists m, m ∈ options d /\ sel (reset multiple d) m = true.
Proof.
  intros Hm Hd. unfold reset. rewrite Hm. cbn. destruct (existsb _ _) eqn:E.
  - apply existsb_exists in E as (m & Hin & Hs). exists m. split; [by apply list_elem_of_In|done].
  - destruct (options d) as [|n l]; [done|]. exists n. split; [left|]. rewrite sel_mark. by rewrite bool_decide_true.
Qed.

(** The first group, when the page has an option for no choice. *)
Lemma sync_null view C2 old os b p : multiple = false -> nullOption = true -> good ((None, old) :: C2) [] p ->
  quiet view (JStr "") -> Forall (fair view) os ->
  (old = [] /\ C2 = [] \/ exists e old', old = e :: old' /\ e_node e = 0%nat /\ Forall (plain view) old') ->
  let o := Opt (JStr "") (JStr "") b in
  let '(err, es', p') := sync view None (o :: os) old None p in
  err = None /\ Forall2 as_asked es' (o :: os) /\ glabel (dom p') = glabel (dom p) /\ (next p <= next p')%nat /\
  good ((None, es') :: C2) (zip (map e_node es') (map selected (o :: os))) p'.
Proof.
  intros Hm Hn H Hq Hos Hold o. assert (Hnull : is_null o = true) by (unfold is_null; by rewrite Hn).
  assert (Hgo : forall e p1, e_node e = 0%nat -> e_label e = JStr "" -> e_id e = JStr "" -> glabel (dom p1) = glabel (dom p) -> (next p <= next p1)%nat ->
    forall old', good ([] ++ (None, [e] ++ old') :: C2) [(0%nat, b)] p1 -> Forall (plain view) old' ->
    let '(err, es', p') := sync view None os old' (Some 0%nat) p1 in
    err = None /\ Forall2 as_asked (e :: es') (o :: os) /\ glabel (dom p') = glabel (dom p) /\ (next p <= next p')%nat /\
    good ((None, e :: es') :: C2) (zip (map e_node (e :: es')) (map selected (o :: os))) p').
  { intros e p1 E1 E2 E3 Hl Hx old' H1 Hp. pose proof (sync_spec view None os [] [e] C2 old' [(0%nat, b)] p1 H1) as Hs.
    cbn [map list.last] in Hs. rewrite E1 in Hs. destruct (sync view None os old' (Some 0%nat) p1) as [[err es'] p'].
    destruct Hs as (S1 & S2 & S3 & S4 & S5); [|done|done|].
    { eapply Forall_impl; [exact Hp|]. intros x [_ Hx0]. cbn. by rewrite list_elem_of_singleton. }
    split; [done|]. split; [constructor; [|done]; unfold as_asked; by rewrite E1, E2, E3, Hnull|]. split; [congruence|]. split; [lia|].
    cbn in S5 |- *. by rewrite E1. }
  destruct Hold as [[-> ->]|(e & old' & -> & He & Hp)]; cbn [sync].
  - assert (element o p = (0%nat, p)) as -> by (unfold element; by rewrite Hnull).
    destruct (addOption_quiet view (label o) p Hq ltac:(done)) as [m ->]. set (p2 := Page _ _ _).
    assert (H2 : good ((None, []) :: []) [] p2) by (by eapply good_map).
    set (e := Entry 0 (label o) (id o) (selected o)).
    destruct (good_arrive [] None [] [] [] p2 e) as (d & D1 & D2 & D3 & D4); try done.
    { cbn. apply not_elem_of_nil. } { pose proof (gd_next _ _ _ H2) as [_ ?]. cbn in *. lia. }
    { unfold written. cbn. destruct (gd_null _ _ _ H2) as [N1 N2]. split_and!; done. }
    cbn [e_node e map list.last] in D1, D3, D4. cbn [list.last] in D1. rewrite D1. set (p3 := with_dom (fun _ => d) p2) in *.
    specialize (Hgo e p3 eq_refl eq_refl eq_refl D2 ltac:(cbn; lia) []). destruct (sync view None os [] (Some 0%nat) p3) as [[err es'] p'].
    apply Hgo; [|constructor]. eapply good_same; [exact D3|done|done| |apply D3|].
    2: { intros x Hx%list_elem_of_singleton. cbn in Hx. subst. left. }
    pose proof (gd_right _ _ _ D3) as Hr. pose proof (fun m => good_options _ _ _ m D3) as Ho. unfold right in Hr |- *. rewrite Hm in Hr |- *.
    destruct b; [|exact I]. destruct (sel (dom p2) 0) eqn:Es; [exact Hr|]. clear Hr. change (only 0 (dom p3)).
    destruct (reset_some (appended None 0 (dom p2)) Hm) as (m0 & Hm0 & Hs0).
    { intros E. assert (0%nat ∈ options (appended None 0 (dom p2))) as Hin; [|rewrite E in Hin; by apply not_elem_of_nil in Hin].
      apply options_in. left. unfold top_options. cbn. rewrite omap_app. apply elem_of_app. right. left. }
    assert (Hd : d = reset multiple (appended None 0 (dom p2))).
    { rewrite D4. unfold placed. cbn [list.last]. unfold arrived. change (o_selected (opts (appended None 0 (dom p2)) 0)) with (sel (dom p2) 0). by rewrite Es. }
    assert (Hall : forall x, x ∈ options d -> x = 0%nat) by (intros x Hx%Ho; by apply list_elem_of_singleton in Hx).
    assert (Hm0' : m0 = 0%nat).
    { apply Hall. by rewrite Hd, (same_options _ _ (reset_tree multiple _)). }
    subst m0. apply (single_only multiple); [done|apply D3|apply Ho; left|by rewrite <- Hd in Hs0].
  - pose proof (good_update [] None [] e old' C2 [] p o H) as Hu. destruct (update o e p) as [e' p1].
    destruct Hu as ((U1 & U2 & U3) & U4 & U5 & U6); [apply not_elem_of_nil|done|]. cbn [app] in U6. rewrite He in U1, U6.
    specialize (Hgo e' p1 U1 U2 U3 U4 U5 old' U6 Hp). rewrite U1.
    by destruct (sync view None os old' (Some 0%nat) p1) as [[err es'] p'].
Qed.

(** *** The groups *)

Lemma parents_snoc C (c : option nat * list entry) d : C <> [] -> (C ++ [c]).*1 = parents d ->
  exists g gs, c.1 = Some g /\ top_groups d = gs ++ [g] /\ C.*1 = None :: map Some gs.
Proof.
  intros Hne H. rewrite fmap_app in H. unfold parents in H. destruct C as [|c0 C]; [done|]. cbn in H. injection H as H0 H.
  assert (Hl : exists gs g, top_groups d = gs ++ [g]).
  { destruct (top_groups d) as [|g gs _] using rev_ind; [|by exists gs, g]. by destruct C. }
  destruct Hl as (gs & g & E). rewrite E, map_app in H. cbn in H. apply app_inj_tail in H as [H1 H2].
  exists g, gs. split; [done|]. split; [done|]. cbn. by rewrite H0, H1.
Qed.

Lemma filter_groups g t : let f c := match c with CGroup g' => negb (g' =? g)%nat | COpt _ => true end in
  omap (fun c => match c with CGroup g => Some g | COpt _ => None end) (List.filter f t) =
  List.filter (fun m => negb (m =? g)%nat) (omap (fun c => match c with CGroup g => Some g | COpt _ => None end) t) /\
  omap (fun c => match c with COpt n => Some n | CGroup _ => None end) (List.filter f t) =
  omap (fun c => match c with COpt n => Some n | CGroup _ => None end) t.
Proof.
  intros f. induction t as [|[n|g'] t [IH1 IH2]]; cbn; [done|by rewrite IH1, IH2|]. destruct (g' =? g)%nat; cbn; by rewrite IH1, IH2.
Qed.

Lemma entries_snoc C (c : option nat * list entry) : entries (C ++ [c]) = entries C ++ c.2.
Proof. unfold entries. rewrite flat_map_app. cbn. by rewrite app_nil_r. Qed.

Lemma nodes_snoc C (c : option nat * list entry) : nodes (C ++ [c]) = nodes C ++ map e_node c.2.
Proof. unfold nodes. by rewrite entries_snoc, map_app. Qed.

(** The last group goes. *)
Lemma good_pop_group C g fl p : C <> [] -> good (C ++ [(g_elem g, g_options g)]) fl p -> (forall m, m ∈ fl.*1 -> m ∈ nodes C) ->
  good C fl (pop_group g p) /\ glabel (dom (pop_group g p)) = glabel (dom p) /\ next (pop_group g p) = next p.
Proof.
  intros Hne H Hfl. destruct (parents_snoc _ _ _ Hne (gd_parents _ _ _ H)) as (n & gs & Hg & Ht & Hp). cbn in Hg.
  unfold pop_group. rewrite Hg. cbn [with_dom dom next]. unfold detach_group. set (d1 := with_tree _ _ _).
  pose proof (filter_groups n (top (dom p))) as [F1 F2]. pose proof (reset_tree multiple d1) as St.
  assert (Hnd : NoDup (gs ++ [n])) by (rewrite <- Ht; apply H).
  assert (T1 : top_groups d1 = gs).
  { unfold top_groups. etrans; [exact F1|]. fold (top_groups (dom p)). rewrite Ht, List.filter_app. cbn. rewrite Nat.eqb_refl. cbn. rewrite app_nil_r.
    apply filter_away. apply NoDup_app in Hnd as (_ & Hx & _). intros Hin. apply (Hx _ Hin). left. }
  assert (T2 : forall q, kids_of d1 q = kids_of (dom p) q) by (intros [q|]; [done|exact F2]).
  assert (Hsub : forall x, x ∈ options d1 -> x ∈ options (dom p)).
  { intros x. rewrite !options_kids. intros (q & Hq & Hx). exists q. rewrite T2 in Hx. split; [|done]. unfold parents in *. rewrite T1 in Hq. rewrite Ht, map_app.
    apply elem_of_cons in Hq as [->|Hq]; [left|right]. apply elem_of_app. by left. }
  assert (Hkids : Forall (fun c => kids_of (dom p) c.1 = map e_node c.2) C).
  { pose proof (gd_kids _ _ _ H) as Hk. rewrite Forall_app in Hk. apply Hk. }
  assert (Hopt : forall x, x ∈ nodes C -> x ∈ options d1).
  { intros x Hx. apply options_kids. unfold nodes, entries in Hx. apply list_elem_of_fmap in Hx as (e & -> & He). apply list_elem_of_In, in_flat_map in He as (c & Hc & He).
    apply list_elem_of_In in Hc. apply list_elem_of_In in He. exists c.1. split.
    - unfold parents. rewrite T1, <- Hp. by apply list_elem_of_fmap_2.
    - rewrite Forall_forall in Hkids. rewrite T2, (Hkids _ Hc). by apply list_elem_of_fmap_2. }
  destruct (gone_right multiple fl (dom p) d1) as [R1 R2]; [done|done|intros m Hm; by apply Hopt, Hfl|apply H|apply H|].
  split; [|split; [by rewrite (st_glabel _ _ St)|done]].
  destruct H as [H1 H2 H3 H4 H5 [H6 H6'] H7 H8 H9 H10 H11]. rewrite nodes_snoc in H3, H5. rewrite entries_snoc in H7.
  apply NoDup_app in Hnd as (Hnd & _). rewrite Ht, Forall_app in H6. rewrite Forall_app in H5. rewrite Forall_app in H7.
  apply (good_same C fl fl (with_dom (fun _ => d1) p)); try done. constructor; cbn [with_dom dom next]; rewrite ?T1; try done; try tauto.
  - unfold parents. by rewrite T1.
  - eapply Forall_impl; [exact Hkids|]. intros c. by rewrite T2.
  - by apply NoDup_app in H3 as (H3 & _).
  - eapply right_sel; [| |intros m Hm; by apply Hopt, Hfl|exact H8]; [done|done].
  - eapply single_sel; [| |exact H9]; [done|done].
Qed.

(** A group is made. *)
Lemma good_new_group C fl p name : C <> [] -> good C fl p ->
  let '(g, p') := parent_of name None p in
  exists n, g = Group (Some n) None [] /\ good (C ++ [(Some n, [])]) fl p' /\ (next p <= next p')%nat /\ glabel (dom p') n = name /\
    forall e, Some e ∈ C.*1 -> glabel (dom p') e = glabel (dom p) e.
Proof.
  intros Hne H. cbn. exists (next p). split; [done|]. pose proof (fun m => good_options _ _ _ m H) as Ho.
  destruct H as [H1 H2 H3 H4 H5 [H6 H6'] H7 H8 H9 H10 H11]. set (d1 := append_group _ _).
  assert (T1 : top_groups d1 = top_groups (dom p) ++ [next p]) by apply top_groups_snoc with (g := glabel (set_glabel (next p) name (dom p))).
  assert (T2 : forall q, q <> Some (next p) -> kids_of d1 q = kids_of (dom p) q).
  { intros [q|] Hq; [cbn; apply fn_lookup_insert_ne; congruence|]. cbn. unfold top_options. cbn. rewrite omap_app. cbn. by rewrite app_nil_r. }
  assert (T3 : kids_of d1 (Some (next p)) = []) by (cbn; by rewrite fn_lookup_insert).
  assert (Hfresh : forall c, c ∈ C -> c.1 <> Some (next p)).
  { intros c Hc E. assert (Hin : Some (next p) ∈ parents (dom p)) by (rewrite <- H1, <- E; by apply list_elem_of_fmap_2).
    apply elem_of_cons in Hin as [|Hin]; [done|]. apply list_elem_of_fmap in Hin as (g & [= <-] & Hg). rewrite Forall_forall in H6. specialize (H6 _ Hg). cbn in H6. lia. }
  assert (Hsub : forall x, x ∈ options d1 -> x ∈ options (dom p)).
  { intros x. rewrite !options_kids. intros (q & Hq & Hx). destruct (decide (q = Some (next p))) as [->|Hq']; [rewrite T3 in Hx; by apply not_elem_of_nil in Hx|].
    exists q. rewrite T2 in Hx by done. split; [|done]. unfold parents in *. rewrite T1, map_app in Hq.
    apply elem_of_cons in Hq as [->|Hq]; [left|right]. apply elem_of_app in Hq as [Hq|Hq%list_elem_of_singleton]; done. }
  assert (Hopt : forall x, x ∈ options (dom p) -> x ∈ options d1).
  { intros x. rewrite !options_kids. intros (q & Hq & Hx). exists q. assert (Hq' : q <> Some (next p)).
    { rewrite <- H1 in Hq. apply list_elem_of_fmap in Hq as (c & -> & Hc). by apply Hfresh. }
    rewrite T2 by done. split; [|done]. unfold parents in *. rewrite T1, map_app. apply elem_of_cons in Hq as [->|Hq]; [left|right; apply elem_of_app; by left]. }
  split; [|split; [lia|split; [by rewrite fn_lookup_insert|]]].
  - constructor; cbn [dom next].
    + rewrite fmap_app, H1. unfold parents. rewrite T1, map_app. done.
    + apply Forall_app. split; [|by apply Forall_singleton]. rewrite Forall_forall in H2. apply Forall_forall. intros c Hc. rewrite T2; [by apply H2|by apply Hfresh].
    + rewrite nodes_snoc. cbn. by rewrite app_nil_r.
    + rewrite T1. apply NoDup_app. split; [done|]. split; [|apply NoDup_singleton]. rewrite Forall_forall in H6. intros x Hx Hx'%list_elem_of_singleton. specialize (H6 _ Hx). cbn in H6. lia.
    + rewrite nodes_snoc. cbn. rewrite app_nil_r. eapply Forall_impl; [exact H5|]. intros m [? ?]. split; [done|lia].
    + split; [|lia]. rewrite T1. apply Forall_app. split; [|apply Forall_singleton; lia]. eapply Forall_impl; [exact H6|]. intros; cbn in *; lia.
    + rewrite entries_snoc. cbn. by rewrite app_nil_r.
    + eapply right_sel; [| |intros m Hm; by apply Hopt, Ho, H10|exact H8]; [done|done].
    + eapply single_sel; [| |exact H9]; [done|done].
    + intros m Hm. rewrite nodes_snoc. apply elem_of_app. left. by apply H10.
    + done.
  - intros e He. apply list_elem_of_fmap in He as (c & Ec & Hc). specialize (Hfresh _ Hc). rewrite <- Ec in Hfresh. cbn. apply fn_lookup_insert_ne. congruence.
Qed.

Lemma good_glabel C fl p g name : good C fl p -> good C fl (with_dom (set_glabel g name) p).
Proof. intros []. by constructor. Qed.

Definition ghost (g : group) : option nat * list entry := (g_elem g, g_options g).

(** The page has the label the cache says, and a group that was asked for. *)
Definition labelled (p : page) (g : group) : Prop :=
  exists e, g_elem g = Some e /\ forall l, g_label g = Some l -> glabel (dom p) e = l.
Definition group_asked (p : page) (g : group) (a : string * list opt) : Prop :=
  (exists e, g_elem g = Some e /\ glabel (dom p) e = a.1 /\ forall l, g_label g = Some l -> l = a.1) /\ Forall2 as_asked (g_options g) a.2.

Lemma pop_groups old : forall C fl p, C <> [] -> good (C ++ map ghost old) fl p -> (forall m, m ∈ fl.*1 -> m ∈ nodes C) ->
  let p' := fold_right pop_group p old in good C fl p' /\ glabel (dom p') = glabel (dom p) /\ next p' = next p.
Proof.
  induction old as [|g old IH] using rev_ind; intros C fl p Hne H Hfl; cbn; [by rewrite app_nil_r in H|].
  rewrite map_app, app_assoc in H. rewrite fold_right_app. cbn.
  destruct (good_pop_group (C ++ map ghost old) g fl p) as (H1 & H2 & H3); [by destruct C|done| |].
  { intros m Hm. unfold nodes, entries. rewrite flat_map_app, map_app. apply elem_of_app. left. by apply Hfl. }
  destruct (IH C fl _ Hne H1 Hfl) as (I1 & I2 & I3). by rewrite I2, I3.
Qed.

(** The parent of the next group, made or found. *)
Lemma parent_spec C1 old fl p name : C1 <> [] -> good (C1 ++ map ghost old) fl p -> Forall (labelled p) old ->
  let '(g, p') := parent_of name (head old) p in
  exists e, g_elem g = Some e /\ g_options g = default [] (g_options <$> head old) /\ glabel (dom p') e = name /\
    (forall l, g_label g = Some l -> l = name) /\ good (C1 ++ ghost g :: map ghost (tail old)) fl p' /\ (next p <= next p')%nat /\
    (forall x, Some x ∈ C1.*1 -> glabel (dom p') x = glabel (dom p) x) /\ Forall (labelled p') (tail old).
Proof.
  intros Hne H Hl. destruct old as [|g old].
  - cbn [head]. rewrite app_nil_r in H. pose proof (good_new_group C1 fl p name Hne H) as Hn. destruct (parent_of name None p) as [g p'].
    destruct Hn as (n & -> & N1 & N2 & N3 & N4). exists n. split_and!; done.
  - apply Forall_cons in Hl as [(e & He & Hlab) Hl]. cbn [head parent_of tail map] in *.
    assert (Hout : (Some e ∉ C1.*1) /\ Forall (fun g => g_elem g <> Some e) old).
    { pose proof (parents_nodup _ _ _ H) as Hnd. rewrite fmap_app in Hnd. apply NoDup_app in Hnd as (_ & Hx & [Hy _]%NoDup_cons). cbn in *. rewrite He in Hx, Hy. split.
      - intros Hin. apply (Hx _ Hin). left.
      - apply Forall_forall. intros g' Hg' E. apply Hy. rewrite <- E. apply list_elem_of_fmap. exists (ghost g'). split; [done|]. by apply list_elem_of_fmap_2. }
    case_bool_decide as E.
    + exists e. split_and!; try done; [by apply Hlab|]. intros l. rewrite E. by intros [= <-].
    + rewrite He. exists e. cbn [g_elem g_options g_label dom with_dom]. split_and!; try done.
      * cbn. by rewrite fn_lookup_insert.
      * by intros l [= ->].
      * unfold ghost at 1. cbn [g_elem g_options]. rewrite <- He. by apply good_glabel.
      * intros x Hx. cbn. apply fn_lookup_insert_ne. intros ->. by apply Hout.
      * rewrite Forall_forall in Hl. destruct Hout as [_ Hout]. rewrite Forall_forall in Hout. apply Forall_forall. intros g' Hg'. destruct (Hl _ Hg') as (e' & E1 & E2).
        exists e'. split; [done|]. intros l Hll. cbn. rewrite fn_lookup_insert_ne; [by apply E2|]. intros ->. by apply (Hout _ Hg').
Qed.

Lemma sync_groups_spec view gs : forall C1 old fl p, C1 <> [] -> good (C1 ++ map ghost old) fl p -> (forall m, m ∈ fl.*1 -> m ∈ nodes C1) ->
  Forall (fun a => Forall (fair view) a.2) gs -> Forall (fun g => Forall (plain view) (g_options g)) old -> Forall (labelled p) old ->
  let '(err, cache, p') := sync_groups view gs old p in
  err = None /\ Forall2 (group_asked p') cache gs /\ (next p <= next p')%nat /\
  good (C1 ++ map ghost cache) (fl ++ zip (nodes (map ghost cache)) (map selected (flat_map snd gs))) p' /\
  forall e, Some e ∈ C1.*1 -> glabel (dom p') e = glabel (dom p) e.
Proof.
  induction gs as [|[name os] gs IH]; intros C1 old fl p Hne H Hfl Hgs Hold Hlab; cbn [sync_groups].
  - destruct (pop_groups old C1 fl p Hne H Hfl) as (H1 & H2 & H3). cbn. rewrite !app_nil_r. split; [done|]. split; [constructor|]. split; [lia|]. split; [done|]. intros e _. by rewrite H2.
  - apply Forall_cons in Hgs as [Hos Hgs]. cbn in Hos. pose proof (parent_spec C1 old fl p name Hne H Hlab) as Hp.
    destruct (parent_of name (head old) p) as [g p1]. destruct Hp as (e & P1 & P2 & P3 & P4 & P5 & P6 & P7 & P8).
    assert (Hpl : Forall (plain view) (g_options g)).
    { rewrite P2. destruct old as [|g0 old]; [constructor|]. cbn. by apply Forall_cons in Hold as [? _]. }
    pose proof (sync_spec view (g_elem g) os C1 [] (map ghost (tail old)) (g_options g) fl p1 P5) as Hs. cbn [map list.last] in Hs.
    destruct (sync view (g_elem g) os (g_options g) None p1) as [[err es] p2]. destruct Hs as (-> & S2 & S3 & S4 & S5); [|done|done|].
    { pose proof (gd_nodup _ _ _ P5) as Hnd. unfold ghost at 1 in Hnd. rewrite nodes_split in Hnd. apply NoDup_app in Hnd as (_ & Hx & _).
      apply Forall_forall. intros x Hin Hin'. apply (Hx _ (Hfl _ Hin')). apply elem_of_app. left. by apply list_elem_of_fmap_2. }
    cbn [app] in S5. set (g' := Group (g_elem g) (g_label g) es). change (g_elem g, es) with (ghost g') in S5. rewrite cons_middle, app_assoc in S5.
    assert (Hlen : length (map e_node es) = length (map selected os)) by (rewrite !length_map; by eapply Forall2_length).
    specialize (IH (C1 ++ [ghost g']) (tail old) (fl ++ zip (map e_node es) (map selected os)) p2).
    destruct (sync_groups view gs (tail old) p2) as [[err cache] p3]. destruct IH as (-> & I2 & I3 & I4 & I5); [by destruct C1|done| |done| | |].
    { intros m. rewrite fmap_app, elem_of_app, nodes_snoc, elem_of_app. intros [Hm|Hm]; [left; by apply Hfl|right].
      rewrite fst_zip in Hm; [done|lia]. }
    { destruct old; [done|]. by apply Forall_cons in Hold as [_ ?]. }
    { eapply Forall_impl; [exact P8|]. intros x (e' & E1 & E2). exists e'. split; [done|]. by rewrite S3. }
    assert (Hin : Some e ∈ (C1 ++ [ghost g']).*1) by (rewrite fmap_app, elem_of_app; right; cbn; rewrite P1; left).
    split; [done|]. split; [|split; [lia|split]].
    + constructor; [|done]. split; [|exact S2]. exists e. cbn. rewrite (I5 e Hin), S3. done.
    + rewrite <- !app_assoc in I4. cbn [map flat_map snd]. unfold nodes at 1. cbn [entries flat_map]. unfold nodes, entries in I4.
      rewrite !map_app, zip_with_app by (rewrite !length_map; by eapply Forall2_length). exact I4.
    + intros x Hx. rewrite I5 by (rewrite fmap_app, elem_of_app; by left). rewrite S3. by apply P7.
Qed.

(** *** A scope the controller leaves alone

    The groups have names of their own, no option has the id of no choice, and no
    label, of [L], is the text of the controller's value. *)
Context (L : jsval -> Prop).

Record asks (o : opt) : Prop := Asks { as_null : is_null o = false; as_label : L (label o); as_name : label o <> JStr "hasOwnProperty" }.

Record fair_scope (sc : scope) : Prop := FairScope {
  fs_items : exists its, items (values sc) = Some its /\
    forall l i, (l, i) ∈ its -> object_name (group_name sc l) = false /\ forall b, asks (opt_of sc l i b);
  fs_none : L (JStr "");
  fs_view v : L v -> quiet (viewValue sc) v
}.

Definition asked_all (gs : list (string * list opt)) : Prop := Forall (fun a => Forall asks a.2) gs.
Definition flags (gs : list (string * list opt)) : list bool := map selected (flat_map snd gs).

Lemma push_group_spec name o gs : object_name name = false -> exists gs', push_group name o gs = Some gs' /\
  (asks o -> asked_all gs -> asked_all gs') /\ existsb (fun b => b) (flags gs') = existsb (fun b => b) (flags gs) || selected o /\
  (gs <> [] -> fst <$> head gs' = fst <$> head gs).
Proof.
  intros Hi. unfold flags. induction gs as [|[name' os] gs (gs' & H1 & H2 & H3 & H4)]; cbn.
  - rewrite Hi. exists [(name, [o])]. split; [done|]. split; [|split; [cbn; by rewrite orb_false_r|done]].
    intros Ho _. constructor; [|constructor]. by apply Forall_singleton.
  - destruct (String.eqb name' name).
    + eexists. split; [done|]. split; [|split; [|done]].
      * intros Ho [Hos Hgs]%Forall_cons. constructor; [|done]. apply Forall_app. split; [done|by apply Forall_singleton].
      * cbn. rewrite !map_app, !existsb_app. cbn. rewrite orb_false_r. btauto.
    + rewrite H1. eexists. split; [done|]. split; [|split; [|done]].
      * intros Ho [Hos Hgs]%Forall_cons. constructor; [done|by apply H2].
      * cbn. rewrite !map_app, !existsb_app, H3. by rewrite orb_assoc.
Qed.

Lemma collect_spec sc ls : (forall l i, (l, i) ∈ ls -> object_name (group_name sc l) = false) ->
  (forall l i b, (l, i) ∈ ls -> asks (opt_of sc l i b)) -> forall set any gs, gs <> [] -> asked_all gs ->
  exists gs' any', collect sc ls set any gs = Some (gs', any') /\ asked_all gs' /\ fst <$> head gs' = fst <$> head gs /\
    (multiple = false -> any = existsb (fun b => b) (flags gs) -> any' = existsb (fun b => b) (flags gs')).
Proof.
  induction ls as [|[l i] ls IH]; intros Hg Hi set any gs Hne Hgs; cbn [collect]; [by exists gs, any|].
  destruct (is_selected sc l set any) as [[b set'] any'] eqn:E.
  destruct (push_group_spec (group_name sc l) (opt_of sc l i b) gs) as (gs' & -> & G2 & G3 & G4); [apply (Hg l i); left|].
  destruct (IH ltac:(intros l' i' H; apply (Hg l' i'); by right) ltac:(intros l' i' b' H; apply Hi; by right) set' any' gs') as (gs'' & any'' & I1 & I2 & I3 & I4).
  { specialize (G4 Hne). destruct gs, gs'; done. }
  { apply G2; [apply Hi; left|done]. }
  exists gs'', any''. split; [done|]. split; [done|]. split; [rewrite I3; by apply G4|]. intros Hm Ha. apply I4; [done|].
  rewrite G3, <- Ha. unfold is_selected in E. rewrite Hm in E. by injection E as <- <- <-.
Qed.

Definition first_null : bool := nullOption && negb multiple.

Lemma optionGroups_spec sc : fair_scope sc -> exists gs, optionGroups sc = Some gs /\
  (exists os gs', gs = ("", os) :: gs' /\ asked_all gs' /\
     if first_null then exists b os', os = Opt (JStr "") (JStr "") b :: os' /\ Forall asks os' else Forall asks os) /\
  (multiple = false -> existsb (fun b => b) (flags gs) = true).
Proof.
  intros [(its & Hits & F) F3 F4]. unfold optionGroups. rewrite Hits. cbn [mbind option_bind].
  destruct (collect_spec sc its (fun l i Hin => proj1 (F l i Hin)) (fun l i b Hin => proj2 (F l i Hin) b) (getSelectedSet sc) false [("", [])]) as (gs & any & -> & C2 & C3 & C4); [done|by constructor|].
  destruct gs as [|[name os] gs]; [done|]. cbn in C3. injection C3 as ->. apply Forall_cons in C2 as [Cos Cgs]. cbn in Cos.
  unfold first_null. destruct multiple eqn:Em.
  - eexists. split; [done|]. split; [|done]. rewrite andb_false_r. by exists os, gs.
  - specialize (C4 eq_refl eq_refl). destruct nullOption eqn:En; cbn [orb andb negb].
    + eexists. split; [done|]. split; [by exists (Opt (JStr "") (JStr "") (negb any) :: os), gs; split; [done|split; [done|by eexists _, _]]|].
      intros _. unfold flags in *. cbn in *. rewrite <- C4. by destruct any.
    + assert (Hfr : forall s b, asks (Opt (JStr s) (JStr "") b)).
      { intros s b. constructor; [|done|done]. unfold is_null. by rewrite En, andb_false_r. }
      destruct (strict_eq _ _); [|destruct any]; cbn [negb].
      * eexists. split; [done|]. split; [exists (Opt (JStr "") (JStr "") (negb any) :: os), gs; split; [done|split; [done|by constructor]]|].
        intros _. unfold flags in *. cbn in *. rewrite <- C4. by destruct any.
      * eexists. split; [done|]. split; [by exists os, gs|]. done.
      * eexists. split; [done|]. split; [exists (Opt (JStr "?") (JStr "") true :: os), gs; split; [done|split; [done|by constructor]]|]. done.
Qed.

(** *** Between two renders *)

Definition shy (e : entry) : Prop := L (e_label e).
Definition not_null (e : entry) : Prop := e_node e <> 0%nat.

Record ready (s : state) (es : list entry) (rest : list group) : Prop := Ready {
  rd_cache : optionGroupsCache s = Group None (Some "") es :: rest;
  rd_good : good ((None, es) :: map ghost rest) [] (on s);
  rd_labels : Forall (labelled (on s)) rest;
  rd_shy : Forall shy es /\ Forall (fun g => Forall shy (g_options g)) rest;
  rd_rest : Forall (fun g => Forall not_null (g_options g)) rest;
  rd_first : if first_null then es = [] /\ rest = [] \/ exists e es', es = e :: es' /\ e_node e = 0%nat /\ Forall not_null es'
             else Forall not_null es
}.

Lemma good_forget C fl p : good C fl p -> good C [] p.
Proof.
  intros []. constructor; try done; [|by intros m ?%not_elem_of_nil]. unfold right. destruct multiple; [constructor|done].
Qed.

Lemma linked_ready sel0 : ready (linked nullText sel0) [] [].
Proof.
  split; [done| |constructor|split; constructor|constructor|destruct first_null; [by left|constructor]].
  constructor; cbn; try done; try (by repeat constructor).
  - unfold right. destruct multiple; [constructor|done].
  - intros _ m n ?%not_elem_of_nil. done.
Qed.

Lemma as_asked_shy es os : Forall2 as_asked es os -> Forall asks os -> Forall shy es /\ Forall not_null es.
Proof.
  induction 1 as [|e o es os (H1 & H2 & H3) _ IH]; [by split; constructor|]. intros [[A1 A2 A3] Hos]%Forall_cons. destruct (IH Hos) as [I1 I2].
  split; constructor; try done; unfold shy, not_null; [by rewrite H1|]. rewrite A1 in H3. by apply Nat.eqb_neq in H3.
Qed.

Lemma asks_fair view os : (forall v, L v -> quiet view v) -> Forall asks os -> Forall (fair view) os.
Proof. intros Hv H. eapply Forall_impl; [exact H|]. intros o [A1 A2 A3]. constructor; [done|by apply Hv|done]. Qed.

Lemma plain_shy view es : (forall v, L v -> quiet view v) -> Forall shy es -> Forall not_null es -> Forall (plain view) es.
Proof. intros Hv H1 H2. rewrite Forall_forall in H1. rewrite Forall_forall in H2. apply Forall_forall. intros e He. split; [by apply Hv, H1|by apply H2]. Qed.

(** After a render the cache is what was asked, and the page is the cache. *)
Lemma render_ready sc s es rest : ready s es rest -> fair_scope sc -> exists gs es' rest' os gs',
  optionGroups sc = Some gs /\ gs = ("", os) :: gs' /\ (render sc s).1 = None /\ ready (render sc s).2 es' rest' /\
  Forall2 as_asked es' os /\ Forall2 (group_asked (on (render sc s).2)) rest' gs' /\
  good ((None, es') :: map ghost rest') (zip (nodes ((None, es') :: map ghost rest')) (flags gs)) (on (render sc s).2) /\
  (multiple = false -> existsb (fun b => b) (flags gs) = true).
Proof.
  intros [R1 R2 R3 [R4 R4'] R5 R6] Hf. destruct (optionGroups_spec sc Hf) as (gs & Hgs & (os & gs' & -> & G1 & G2) & G3). pose proof (fs_view _ Hf) as Hv.
  unfold render. rewrite Hgs, R1. cbn [sync_groups head tail parent_of g_label g_elem g_options]. rewrite bool_decide_true by done. cbn [g_elem g_options g_label].
  assert (Hs : let '(err, es', p') := sync (viewValue sc) None os es None (on s) in
    err = None /\ Forall2 as_asked es' os /\ glabel (dom p') = glabel (dom (on s)) /\ (next (on s) <= next p')%nat /\
    good ((None, es') :: map ghost rest) (zip (map e_node es') (map selected os)) p').
  { unfold first_null in *. destruct (nullOption && negb multiple) eqn:E.
    - apply andb_true_iff in E as [En Em%negb_true_iff]. destruct G2 as (b & os' & -> & G2).
      apply sync_null; [done|done|done|apply Hv, (fs_none _ Hf)|by apply asks_fair|].
      destruct R6 as [[-> ->]|(e & es' & -> & E0 & R6)]; [by left|right]. exists e, es'. split; [done|]. split; [done|].
      apply Forall_cons in R4 as [_ R4]. by apply plain_shy.
    - pose proof (sync_spec (viewValue sc) None os [] [] (map ghost rest) es [] (on s) R2) as H. cbn [map list.last app] in H. apply H; [|by apply asks_fair|by apply plain_shy].
      apply Forall_forall. intros; apply not_elem_of_nil. }
  destruct (sync (viewValue sc) None os es None (on s)) as [[err es'] p1]. destruct Hs as (-> & S2 & S3 & S4 & S5).
  pose proof (sync_groups_spec (viewValue sc) gs' [(None, es')] rest (zip (map e_node es') (map selected os)) p1) as Hg.
  destruct (sync_groups (viewValue sc) gs' rest p1) as [[err rest'] p2]. destruct Hg as (-> & H2 & H3 & H4 & H5); [done|done| | | | |].
  { intros m Hm. rewrite fst_zip in Hm by (rewrite !length_map; by rewrite (Forall2_length _ _ _ S2)). unfold nodes, entries. cbn. by rewrite app_nil_r. }
  { eapply Forall_impl; [exact G1|]. intros a. by apply asks_fair. }
  { rewrite Forall_forall in R4'. rewrite Forall_forall in R5. apply Forall_forall. intros g Hin. apply plain_shy; [done|by apply R4'|by apply R5]. }
  { eapply Forall_impl; [exact R3|]. intros x (e' & E1 & E2). exists e'. split; [done|]. by rewrite S3. }
  assert (Hrest : Forall (fun g => Forall shy (g_options g) /\ Forall not_null (g_options g)) rest').
  { clear -H2 G1. induction H2 as [|g a rest' gs' [_ Ha] _ IH]; [constructor|]. apply Forall_cons in G1 as [Ga G1]. constructor; [|by apply IH]. by eapply as_asked_shy. }
  exists (("", os) :: gs'), es', rest', os, gs'. split; [done|]. split; [done|]. split; [done|]. cbn [snd on].
  assert (Hz : good ((None, es') :: map ghost rest') (zip (nodes ((None, es') :: map ghost rest')) (flags (("", os) :: gs'))) p2).
  { unfold flags. cbn [flat_map snd]. unfold nodes at 1. cbn [entries flat_map snd]. rewrite !map_app, zip_with_app by (rewrite !length_map; by rewrite (Forall2_length _ _ _ S2)). exact H4. }
  split; [|done]. constructor; try done.
  - by eapply good_forget.
  - clear -H2. induction H2 as [|g a rest' gs' [(e & E1 & E2 & E3) _] _ IH]; constructor; [|done]. exists e. split; [done|]. intros l Hl. etrans; [exact E2|symmetry; by apply E3].
  - split; [|by eapply Forall_impl; [exact Hrest|intros ? [? _]]].
    unfold first_null in *. destruct (nullOption && negb multiple); [|by eapply as_asked_shy].
    destruct G2 as (b & os' & -> & G2). inversion S2 as [|e o es2 os2 (A1 & A2 & A3) S2' E1 E2]; subst. constructor; [|by eapply as_asked_shy].
    unfold shy. rewrite A1. apply (fs_none _ Hf).
  - by eapply Forall_impl; [exact Hrest|intros ? [_ ?]].
  - unfold first_null in *. destruct (nullOption && negb multiple) eqn:En; [|by eapply as_asked_shy]. right.
    destruct G2 as (b & os' & -> & G2). inversion S2 as [|e o es2 os2 (A1 & A2 & A3) S2' E1 E2]; subst. exists e, es2. split; [done|].
    split; [|by eapply as_asked_shy]. apply andb_true_iff in En as [En _]. unfold is_null in A3. cbn in A3. rewrite En in A3. by apply Nat.eqb_eq in A3.
Qed.

(** *** What the page shows *)

(** Of a drop-down list the last option that is to be selected is. *)
Fixpoint last_only (l : list bool) : list bool :=
  match l with [] => [] | b :: l => (b && negb (existsb (fun b => b) l)) :: last_only l end.

Lemma last_only_none l : existsb (fun b => b) l = false -> last_only l = map (fun _ => false) l.
Proof. induction l as [|b l IH]; cbn; [done|]. intros [-> H]%orb_false_iff. by rewrite IH. Qed.

Lemma wanted_none ns bs : length ns = length bs -> wanted (zip ns bs) = None <-> existsb (fun b => b) bs = false.
Proof.
  revert bs. induction ns as [|n ns IH] using rev_ind; intros bs Hl; [by destruct bs|].
  destruct bs as [|b bs _] using rev_ind; [rewrite length_app in Hl; cbn in Hl; lia|]. rewrite !length_app in Hl. cbn in Hl.
  rewrite zip_with_app by lia. cbn [zip_with]. rewrite wanted_snoc, existsb_app. cbn. rewrite orb_false_r, orb_false_iff. destruct b; [split; [done|by intros [_ ?]]|].
  rewrite IH by lia. tauto.
Qed.

Lemma last_only_spec ns bs f : NoDup ns -> length ns = length bs -> wanted (zip ns bs) = Some f -> map (fun m => bool_decide (m = f)) ns = last_only bs.
Proof.
  revert bs. induction ns as [|n ns IH]; intros bs Hnd Hl Hw; [by destruct bs|]. destruct bs as [|b bs]; [done|]. cbn in Hl.
  apply NoDup_cons in Hnd as [Hn Hnd]. cbn [map last_only]. cbn [zip_with] in Hw. rewrite wanted_cons in Hw.
  pose proof (wanted_none ns bs ltac:(lia)) as Hnone. pose proof (wanted_in (zip ns bs)) as Hin. rewrite fst_zip in Hin by lia.
  destruct (existsb (fun b => b) bs) eqn:E.
  - destruct (wanted (zip ns bs)) as [f'|] eqn:Ew; [injection Hw as ->|discriminate (proj1 Hnone eq_refl)].
    rewrite (IH bs) by (done || lia). rewrite andb_false_r. f_equal. apply bool_decide_eq_false. intros ->. by apply Hn, Hin.
  - rewrite (proj2 Hnone eq_refl) in Hw. destruct b; [injection Hw as <-|done]. rewrite bool_decide_true by done. cbn. f_equal.
    rewrite last_only_none by done. clear -Hn Hl. revert bs Hl. induction ns as [|m ns IH]; intros [|b bs] Hl; try done. cbn in *.
    apply not_elem_of_cons in Hn as [H1 H2]. rewrite bool_decide_false by done. f_equal. apply IH; [done|lia].
Qed.

Definition texts (d : select) : list (string * list (string * string)) := map (fun p => (p.1, map fst p.2)) (shown d).
Definition selection (d : select) : list bool := flat_map (fun p => map snd p.2) (shown d).

(** The value and the text of an option that is asked for. *)
Definition said (o : opt) : string * string := (val_text (id o), if is_null o then nullText else str (label o)).

Lemma texts_asked p es os : Forall (written (dom p)) es -> Forall2 as_asked es os -> map fst (map (look (dom p)) (map e_node es)) = map said os.
Proof.
  intros Hw H. induction H as [|e o es os (H1 & H2 & H3) _ IH]; [done|]. apply Forall_cons in Hw as [(W1 & W2 & _) Hw]. cbn [map]. rewrite (IH Hw).
  unfold said, look. cbn. by rewrite W1, W2, H1, H2, H3.
Qed.

Lemma shows es rest os gs' p : good ((None, es) :: map ghost rest) (zip (nodes ((None, es) :: map ghost rest)) (flags (("", os) :: gs'))) p ->
  Forall2 as_asked es os -> Forall2 (group_asked p) rest gs' -> (multiple = false -> existsb (fun b => b) (flags (("", os) :: gs')) = true) ->
  texts (dom p) = map (fun a => (a.1, map said a.2)) (("", os) :: gs') /\
  selection (dom p) = if multiple then flags (("", os) :: gs') else last_only (flags (("", os) :: gs')).
Proof.
  intros H Hes Hrest Hany. pose proof (gd_parents _ _ _ H) as Hp. pose proof (gd_kids _ _ _ H) as Hk. pose proof (gd_written _ _ _ H) as Hw.
  apply Forall_cons in Hk as [Hk0 Hk]. cbn in Hk0. cbn [entries flat_map snd] in Hw. apply Forall_app in Hw as [Hw0 Hw].
  assert (Hg : map Some (top_groups (dom p)) = map g_elem rest).
  { cbn in Hp. injection Hp as Hp. rewrite <- Hp. clear. induction rest as [|g rest IH]; cbn; [done|by rewrite IH]. }
  assert (Hsh : shown (dom p) = ("", map (look (dom p)) (map e_node es)) ::
    zip_with (fun g (a : string * list opt) => (a.1, map (look (dom p)) (map e_node (g_options g)))) rest gs').
  { unfold shown. rewrite Hk0. f_equal. clear -Hg Hrest Hk. revert Hg. generalize (top_groups (dom p)). intros tg. revert tg.
    induction Hrest as [|g a rest gs' [(e & E1 & E2 & _) _] _ IH]; intros [|t tg] Hg; try done. cbn in Hg |- *. injection Hg as Ht Hg.
    apply Forall_cons in Hk as [Hk0 Hk]. cbn in Hk0. rewrite (IH Hk tg Hg). rewrite E1 in Ht. injection Ht as ->. rewrite E1 in Hk0. cbn in Hk0. by rewrite Hk0, E2. }
  split.
  - unfold texts. rewrite Hsh. cbn [map fst snd]. rewrite (texts_asked p es os) by done. f_equal. clear -Hrest Hw.
    induction Hrest as [|g a rest gs' [_ Ha] _ IH]; [done|]. cbn [map flat_map snd] in Hw. apply Forall_app in Hw as [Hw0 Hw]. cbn [zip_with map fst snd].
    rewrite (texts_asked p (g_options g) a.2 Hw0 Ha). by rewrite (IH Hw).
  - assert (Hsel : selection (dom p) = map (sel (dom p)) (nodes ((None, es) :: map ghost rest))).
    { unfold selection. rewrite Hsh. cbn [flat_map snd]. unfold nodes. cbn [entries flat_map snd]. rewrite !map_app, !map_map. f_equal. clear -Hrest.
      induction Hrest as [|g a rest gs' _ _ IH]; [done|]. cbn. rewrite !map_app, !map_map, IH. by f_equal. }
    rewrite Hsel. set (ns := nodes _) in *. set (bs := flags _) in *.
    assert (Hlen : length ns = length bs).
    { unfold ns, bs, nodes, flags. cbn [entries flat_map snd]. rewrite !length_map, !length_app, (Forall2_length _ _ _ Hes). f_equal. clear -Hrest.
      induction Hrest as [|g a rest gs' [_ Ha] _ IH]; [done|]. cbn. rewrite !length_app, (Forall2_length _ _ _ Ha). by f_equal. }
    pose proof (gd_right _ _ _ H) as Hr. pose proof (gd_nodup _ _ _ H) as Hnd. fold ns in Hnd. unfold right in Hr. destruct multiple eqn:Em.
    + clear -Hr Hlen. clearbody ns bs. revert bs Hr Hlen. induction ns as [|n ns IH]; intros [|b bs] Hr Hlen; try done. cbn in *.
      apply Forall_cons in Hr as [Hb Hr]. cbn in Hb. rewrite Hb. f_equal. apply IH; [done|lia].
    + destruct (wanted (zip ns bs)) as [f|] eqn:Ew.
      * rewrite <- (last_only_spec ns bs f) by done. apply map_ext_in. intros m Hm%list_elem_of_In. apply Hr. by apply (good_options _ _ _ m H).
      * apply wanted_none in Ew; [|done]. by rewrite Hany in Ew.
Qed.

(** *** Histories *)

(** A render, or a choice of the user. *)
Inductive event := Render (sc : scope) | Choose (n : nat).

Definition step (s : state) (e : event) : state :=
  match e with Render sc => (render sc s).2 | Choose n => choose n s end.

Lemma choose_ready n s es rest : ready s es rest -> ready (choose n s) es rest.
Proof.
  intros [R1 R2 R3 R4 R5 R6]. unfold choose. destruct (attached n (dom (on s))) eqn:Ea.
  - unfold attached in Ea. apply bool_decide_eq_true in Ea. set (b := if multiple then negb (o_selected (opts (dom (on s)) n)) else true).
    destruct (set_selected_right multiple [] n b (dom (on s)) Ea) as [_ Hs]; [apply not_elem_of_nil|by intros m ?%not_elem_of_nil|apply R2|apply R2|].
    pose proof (set_selected_tree multiple n b (dom (on s))) as St.
    constructor; try done; cbn [on].
    + eapply good_same; [exact R2| | | | |]; cbn [with_dom dom next]; unfold attached; rewrite ?bool_decide_true by done; try done.
      * unfold right. destruct multiple; [constructor|done].
      * by intros m ?%not_elem_of_nil.
    + eapply Forall_impl; [exact R3|]. intros g (e & E1 & E2). exists e. split; [done|]. intros l Hl. cbn. unfold attached. rewrite bool_decide_true by done.
      fold b. rewrite (st_glabel _ _ St). by apply E2.
  - assert (on s = with_dom (fun d => if attached n d then set_selected multiple n (if multiple then negb (o_selected (opts d n)) else true) d else d) (on s)) as <-.
    { unfold with_dom. rewrite Ea. by destruct (on s). }
    by constructor.
Qed.

Lemma history_ready es : forall s e0 r0, ready s e0 r0 -> (forall sc, Render sc ∈ es -> fair_scope sc) ->
  exists e1 r1, ready (fold_left step es s) e1 r1.
Proof.
  induction es as [|[sc|n] es IH]; intros s e0 r0 H Hf; [by exists e0, r0| |]; cbn [fold_left step].
  - destruct (render_ready sc s e0 r0 H (Hf sc ltac:(left))) as (gs & e1 & r1 & os & gs' & _ & _ & _ & H1 & _).
    apply (IH _ e1 r1 H1). intros sc' Hin. apply Hf. by right.
  - apply (IH _ e0 r0); [by apply choose_ready|]. intros sc' Hin. apply Hf. by right.
Qed.

End Options.

(** A scope is fair, by evaluation. *)
Definition fair_check (nullOption keyName track : bool) (obj_str : nat -> string) (labels : list jsval) (sc : scope) : bool :=
  match items keyName obj_str (values sc) with
  | Some its => forallb (fun p : locals * jsval => let o := opt_of track sc p.1 p.2 false in
      negb (object_name (group_name obj_str sc p.1)) && negb (is_null nullOption o) && bool_decide (label o ∈ labels) &&
      bool_decide (label o <> JStr "hasOwnProperty")) its
  | None => false
  end &&
  bool_decide (JStr "" ∈ labels) && forallb (fun v => negb (loose_eq obj_str (viewValue sc) v)) labels.

Lemma fair_by nullOption keyName track obj_str labels sc : fair_check nullOption keyName track obj_str labels sc = true ->
  fair_scope nullOption keyName track obj_str (fun v => v ∈ labels) sc.
Proof.
  intros [[H1 H2]%andb_true_iff H3]%andb_true_iff. destruct (items _ _ _) as [its|] eqn:Hits; [|done].
  rewrite forallb_forall in H1. rewrite forallb_forall in H3. constructor.
  - exists its. split; [done|]. intros l i Hin%list_elem_of_In. specialize (H1 _ Hin). cbn in H1.
    apply andb_true_iff in H1 as [[[H0 Hi1]%andb_true_iff Hi2]%andb_true_iff Hi3].
    apply bool_decide_eq_true in Hi2, Hi3. apply negb_true_iff in H0, Hi1. split; [done|]. intros b. by constructor.
  - by apply bool_decide_eq_true in H2.
  - intros v Hv%list_elem_of_In. by apply negb_true_iff, H3.
Qed.

(** C35: the options of [ng-options], through every history of renders and choices that keeps to this: no
    label shown in it, nor the empty text, ever equals by [==] the value the controller has at a render;
    no label is the text [hasOwnProperty]; no name of a group is one of [Object.prototype]; no id is the empty
    text if the page has an option of its own for no choice; and, when the expression has keys, the collection has no
    property [hasOwnProperty] of its own.  Then a render ends without an error, the select and its groups show the options that were asked
    for, in their order, each with its label and its id as the value, nothing for a missing id,
    and those are selected that were to be, in a drop-down list the last.  (Examples own_label, label_deselects
    and inherited_group have what happens otherwise.) *)
Theorem options_exact (multiple nullOption keyName track : bool) (obj_str : nat -> string) (hashKey : jsval -> string)
    (nullText : string) (nullSelected : bool) (L : jsval -> Prop) (es : list event) (sc : scope)
    (Hfair : forall sc', Render sc' ∈ es ++ [Render sc] -> fair_scope nullOption keyName track obj_str L sc') :
  let s := fold_left (step multiple nullOption keyName track obj_str hashKey) es (linked nullText nullSelected) in
  let '(err, s') := render multiple nullOption keyName track obj_str hashKey sc s in
  exists gs, optionGroups multiple nullOption keyName track obj_str hashKey sc = Some gs /\ err = None /\
    texts (dom (on s')) = map (fun g => (g.1, map (said nullOption obj_str nullText) g.2)) gs /\
    selection (dom (on s')) = if multiple then flags gs else last_only (flags gs).
Proof.
  intros s. destruct (history_ready multiple nullOption keyName track obj_str hashKey nullText L es (linked nullText nullSelected) [] []) as (e1 & r1 & H).
  { apply linked_ready. } { intros sc' Hin. apply Hfair, elem_of_app. by left. }
  destruct (render_ready multiple nullOption keyName track obj_str hashKey nullText L sc _ e1 r1 H) as (gs & e2 & r2 & os & gs' & H1 & -> & H3 & H4 & H5 & H6 & H7 & H8).
  { apply Hfair, elem_of_app. right. left. }
  fold s in H3, H4, H6, H7. destruct (render _ _ _ _ _ _ sc s) as [err s']. exists (("", os) :: gs'). split; [done|]. split; [done|].
  by eapply shows.
Qed.

(** *** Reading the choice back *)

Section Read.
Context (keyName track : bool) (obj_str : nat -> string).

Lemma value_only n d : only n d -> value d = o_value (opts d n).
Proof.
  intros [Hn H]. unfold value. destruct (List.find _ _) as [m|] eqn:E.
  - apply List.find_some in E as [Hm Hs]. apply list_elem_of_In in Hm. pose proof (H m Hm) as Hs'. unfold sel in Hs'. rewrite Hs in Hs'.
    symmetry in Hs'. by apply bool_decide_eq_true in Hs' as ->.
  - apply list_elem_of_In in Hn. apply (List.find_none _ _ E) in Hn as Hs. apply list_elem_of_In in Hn. pose proof (H n Hn) as Hs'. unfold sel in Hs'. rewrite Hs in Hs'.
    symmetry in Hs'. by apply bool_decide_eq_false in Hs'.
Qed.

Lemma pretty_nat j : pretty (Z.of_nat j) = pretty (N.of_nat j).
Proof. by destruct j. Qed.

Lemma array_member es j v : es !! j = Some v -> prop_get (obj_props (OArray es)) (pretty (Z.of_nat j)) = v.
Proof.
  rewrite pretty_nat. cbn [obj_props].
  assert (H : forall k, es !! j = Some v -> prop_get (imap (fun i v => (pretty (N.of_nat (k + i)), v)) es) (pretty (N.of_nat (k + j))) = v).
  { revert j. induction es as [|e es IH]; intros j k Hj; [by rewrite lookup_nil in Hj|]. destruct j as [|j].
    - injection Hj as ->. cbn. by rewrite String.eqb_refl.
    - cbn in Hj |- *. destruct (String.eqb_spec (pretty (N.of_nat (k + 0))) (pretty (N.of_nat (k + S j)))) as [E|_]; [apply (inj pretty) in E; lia|].
      rewrite (imap_ext _ (fun i v => (pretty (N.of_nat (S k + i)), v))); [|intros i x _; cbn; do 3 f_equal; lia].
      replace (k + S j)%nat with (S k + j)%nat by lia. by apply IH. }
  exact (H 0%nat).
Qed.

Lemma seq_member ps n j v : map (fun i => prop_get ps (pretty (N.of_nat i))) (seq 0 n) !! j = Some v ->
  prop_get ps (pretty (Z.of_nat j)) = v.
Proof.
  intros (i & E & Hi)%list_lookup_fmap_Some. apply lookup_seq in Hi as [-> _]. rewrite pretty_nat. by rewrite E.
Qed.

(** The locals of an item are found again by its id. *)
Lemma items_member vs its l i : items keyName obj_str vs = Some its -> (l, i) ∈ its ->
  l = Locals (if keyName then Some (str obj_str i) else None) (Some (member vs (str obj_str i))).
Proof.
  unfold items. destruct keyName.
  - destruct (prop_has _ _); [done|]. intros [= <-]. by intros (k & [= -> ->] & _)%list_elem_of_fmap.
  - intros [= <-]. intros (j & v & [= -> ->] & Hj)%elem_of_lookup_imap. cbn [str prim_str]. unfold member. do 2 f_equal. symmetry.
    destruct vs as [p|es|ps]; [destruct p; try done| |]; cbn [own_props elements] in *; [by eapply array_member..|by eapply seq_member].
Qed.

Lemma track_first t key pre v post l : (forall v', v' ∈ pre -> loose_eq obj_str (t (Locals (l_key l) (Some v'))) (JStr key) = false) ->
  loose_eq obj_str (t (Locals (l_key l) (Some v))) (JStr key) = true ->
  track_loop obj_str t key (pre ++ v :: post) l = (Locals (l_key l) (Some v), true).
Proof.
  revert l. induction pre as [|v' pre IH]; intros l Hpre Hv; cbn [app track_loop]; [by rewrite Hv|].
  rewrite (Hpre v') by left. apply (IH (Locals (l_key l) (Some v'))); [|done]. intros w Hw. apply Hpre. by right.
Qed.

End Read.

(** The choice of an option in a drop-down list, after any such history: the
    model gets the value of the item whose id the option has or, with [track by], of the first item
    whose id equals it. *)
Theorem choice_exact (nullOption keyName track : bool) (obj_str : nat -> string) (hashKey : jsval -> string)
    (nullText : string) (nullSelected : bool) (L : jsval -> Prop) (es : list event) (sc : scope) (n : nat) (l : locals)
    (Hfair : forall sc', Render sc' ∈ es -> fair_scope nullOption keyName track obj_str L sc') :
  let s := fold_left (step false nullOption keyName track obj_str hashKey) es (linked nullText nullSelected) in
  let key := o_value (opts (dom (on s)) n) in
  n ∈ options (dom (on s)) -> key <> "?" -> key <> "" ->
  (if track then
     exists pre v post, elements obj_str (values sc) = pre ++ v :: post /\ l = Locals None (Some v) /\ loose_eq obj_str (trackFn sc l) (JStr key) = true /\
       forall v', v' ∈ pre -> loose_eq obj_str (trackFn sc (Locals None (Some v'))) (JStr key) = false
   else exists its i, items keyName obj_str (values sc) = Some its /\ (l, i) ∈ its /\ str obj_str i = key) ->
  read_one keyName track obj_str sc (choose false n s) = valueFn sc l.
Proof.
  intros s key Hn Hq He Hitem. destruct (history_ready false nullOption keyName track obj_str hashKey nullText L es (linked nullText nullSelected) [] []) as (e1 & r1 & H).
  { apply linked_ready. } { done. }
  fold s in H. pose proof (rd_good _ _ _ _ _ _ _ _ H) as Hg.
  assert (Hval : value (dom (on (choose false n s))) = key).
  { unfold choose. cbn [on with_dom dom]. unfold attached. rewrite bool_decide_true by done.
    destruct (set_selected_right false [] n true (dom (on s)) Hn) as [Hr _]; [apply not_elem_of_nil|by intros m ?%not_elem_of_nil|apply Hg|apply Hg|].
    rewrite (value_only n) by exact Hr. apply (st_value _ _ (set_selected_tree false n true (dom (on s)))). }
  unfold read_one. rewrite Hval, (proj2 (String.eqb_neq _ _) Hq), (proj2 (String.eqb_neq _ _) He). destruct track.
  - destruct Hitem as (pre & v & post & -> & -> & Hv & Hpre). by rewrite track_first.
  - destruct Hitem as (its & i & Hits & Hi & Hk). rewrite (items_member keyName obj_str _ _ _ _ Hits Hi). by rewrite Hk.
Qed.

End Options.

(** ** Examples *)

Module Examples.
Import Element Options.

Definition key (v : jsval) : string := match v with JStr s => "string:" +:+ s | _ => prim_str (fun _ => "object:1") v end.
Definition item (l : locals) : jsval := default JUndef (l_value l).
Definition text (v : jsval) : string := prim_str (fun _ => "[object Object]") v.

(** The colours of a list, one of which is the model. *)
Definition colours (l : list string) (model : jsval) : scope :=
  Scope item (fun _ => JUndef) item item (CArray (map JStr l)) model (CPrim model) model.

Definition draw := render false false false false (fun _ => "[object Object]") key.
Definition draws (scs : list scope) : state := fold_left (fun s sc => (draw sc s).2) scs (linked "" false).
Definition seen (s : state) := shown (dom (on s)).

Example three : seen (draws [colours ["red"; "blue"; "pink"] (JStr "blue")]) =
  [("", [("0", "red", false); ("1", "blue", true); ("2", "pink", false)])].
Proof. vm_compute. reflexivity. Qed.

(** A colour is taken from the list: that of the model moves up, its old place is
    removed as if the colour had gone, and the unknown option comes and is selected. *)
Example moved_option_unknown :
  seen (draws [colours ["red"; "blue"] (JStr "blue"); colours ["blue"] (JStr "blue")]) =
  [("", [("? string:blue ?", "", true); ("0", "blue", false)])].
Proof. vm_compute. reflexivity. Qed.

(** The items [x], [y], [z] with values and labels of their own. *)
Definition per (a b c : string) (l : locals) : jsval :=
  match item l with JStr "x" => JStr a | JStr "y" => JStr b | _ => JStr c end.

(** The label of one option is the value of another, which is the model: when it is
    made it deselects that one, and the first option is shown. *)
Example label_deselects :
  seen (draws [Scope (per "none" "A" "B") (fun _ => JUndef) (per "N" "B" "A") item (CArray [JStr "x"; JStr "y"; JStr "z"])
                 (JStr "B") (CPrim (JStr "B")) (JStr "B")]) =
  [("", [("0", "none", true); ("1", "A", false); ("2", "B", false)])].
Proof. vm_compute. reflexivity. Qed.

(** A list of objects, each with a name and a group. *)
Definition name_of (l : locals) : jsval :=
  match item l with JRef 1 => JStr "tea" | JRef 2 => JStr "milk" | JRef _ => JStr "bread" | _ => JUndef end.
Definition shelf (l : locals) : jsval := match item l with JRef 3 => JStr "bakery" | JRef _ => JStr "drinks" | _ => JUndef end.
Definition goods (l : list nat) (model : jsval) : scope :=
  Scope name_of shelf item item (CArray (map JRef l)) model (CPrim model) model.

(** A group with the name of an inherited property. *)
Example inherited_group :
  (draw (Scope name_of (fun _ => JStr "constructor") item item (CArray [JRef 1]) JUndef (CPrim JUndef) JUndef) (linked "" false)).1 = Some "TypeError".
Proof. vm_compute. reflexivity. Qed.

(** The option for a null model comes after the groups, not before them. *)
Example null_after_groups :
  top (dom (on (draws [goods [1; 3] (JRef 1); goods [1; 3] JNull])))%nat = [CGroup 2; CGroup 4; COpt 6].
Proof. vm_compute. reflexivity. Qed.

(** A label that is the name of a method: the option is in the cache and not on
    the page, and the next render throws when it comes to the option after it. *)
Example own_label :
  let '(err, s) := draw (colours ["a"; "hasOwnProperty"; "b"] JUndef) (linked "" false) in
  err = Some "badname" /\ (draw (colours ["a"; "c"; "b"] JUndef) s).1 = Some "TypeError".
Proof. vm_compute. done. Qed.

(** A text is shown by its letters, and an object by what it has below its length;
    with keys both are shown by the keys they have. *)
Example letters_and_lengths :
  let sc vs := Scope (fun l => default JUndef (l_value l)) (fun _ => JUndef) item item vs (JNum 7) (CPrim (JNum 7)) (JNum 7) in
  let show keys vs := flat_map (fun g => map fst g.2)
    (seen (render false false keys false (fun _ => "[object Object]") key (sc vs) (linked "" false)).2) in
  let thing := CObject [("length", JNum 2); ("0", JStr "x"); ("b", JStr "y")] in
  show false (CPrim (JStr "ab")) = [("?", ""); ("0", "a"); ("1", "b")] /\ show true (CPrim (JStr "ab")) = show false (CPrim (JStr "ab")) /\
  show false thing = [("?", ""); ("0", "x"); ("1", "")] /\ show true thing = [("?", ""); ("0", "x"); ("b", "y"); ("length", "2")].
Proof. vm_compute. done. Qed.

(** With [track by], an item without the property it is told by. *)
Example missing_id :
  let sc := Scope name_of (fun _ => JUndef) item (fun _ => JUndef) (CArray [JRef 1]) (JRef 1) (CPrim (JRef 1)) (JRef 1) in
  seen (render false false false true (fun _ => "[object Object]") key sc (linked "" false)).2 = [("", [("", "tea", true)])].
Proof. vm_compute. reflexivity. Qed.

Definition labels : list jsval := map JStr [""; "tea"; "milk"; "bread"].

Lemma options_exact_witness :
  let es := [Render (goods [1; 2; 3] (JRef 2)); Choose 4; Render (goods [3; 1] JNull)]%nat in
  let s := fold_left (step false true false false (fun _ => "[object Object]") key) es (linked "choose one" true) in
  exists s', render false true false false (fun _ => "[object Object]") key (goods [2; 3; 1] (JRef 3))%nat s = (None, s') /\
    texts (dom (on s')) = [("", [("", "choose one")]); ("drinks", [("0", "milk"); ("2", "tea")]); ("bakery", [("1", "bread")])] /\
    selection (dom (on s')) = [false; false; false; true].
Proof.
  intros es s. pose proof (options_exact false true false false (fun _ => "[object Object]") key "choose one" true (fun v => v ∈ labels) es
    (goods [2; 3; 1] (JRef 3))%nat) as H. cbv zeta in H. fold s in H. clearbody s.
  destruct (render _ _ _ _ _ _ _ s) as [err s']. destruct H as (gs & Hgs & -> & H1 & H2).
  - intros sc' Hin. apply fair_by. apply elem_of_app in Hin. destruct Hin as [Hin|Hin].
    + repeat (apply elem_of_cons in Hin as [Hin|Hin]; [first [discriminate Hin|injection Hin as ->; vm_compute; reflexivity]|]). by apply not_elem_of_nil in Hin.
    + apply list_elem_of_singleton in Hin. injection Hin as ->. vm_compute. reflexivity.
  - exists s'. split; [reflexivity|]. vm_compute in Hgs. injection Hgs as <-. split; [exact H1|exact H2].
Defined.

Lemma choice_exact_witness :
  let es := [Render (goods [1; 2; 3] (JRef 2))]%nat in
  let s := fold_left (step false true false false (fun _ => "[object Object]") key) es (linked "choose one" true) in
  o_value (opts (dom (on s)) 3) = "0" /\ read_one false false (fun _ => "[object Object]") (goods [1; 2; 3] (JRef 2))%nat (choose false 3 s) = JRef 1.
Proof.
  intros es s. split; [vm_compute; reflexivity|].
  refine (choice_exact true false false (fun _ => "[object Object]") key "choose one" true (fun v => v ∈ labels) es (goods [1; 2; 3] (JRef 2))%nat 3
    (Locals None (Some (JRef 1))) _ _ _ _ _).
  - intros sc' Hin. apply fair_by. apply list_elem_of_singleton in Hin. injection Hin as ->. vm_compute. reflexivity.
  - apply (bool_decide_eq_true_1 _). vm_compute. reflexivity.
  - vm_compute. discriminate.
  - vm_compute. discriminate.
  - eexists _, (JNum 0). split; [reflexivity|]. split; [left|vm_compute; reflexivity].
Defined.

End Examples.
