(* ===== verification/JqCallbacks.v ===== *)
(** * JqCallbacks: lists of callbacks and deferred objects of jQuery

    [jQuery.Callbacks] (jquery.js 3139-3331) and [jQuery.Deferred] (3336-3427,
    without [then]), which is three lists of callbacks.  A callback may use any list
    while lists are being fired; the calls under way are a stack of frames, and
    [machine_step] does one step of the one at the top.  A callback is a program, the
    commands it gives and how it ends; one that throws empties the stack. *)

From S2P Require Import Prelude.
From stdpp Require Import functions list.

#[local] Set Warnings "-clear-no-such-hyp,-register-all".

#[local] Open Scope Z_scope.

(** ** Lists of callbacks *)

Section Callbacks.
Context {A : Type}.

Record options := Options { once : bool; keeps_memory : bool; unique : bool; stopOnFalse : bool }.

(** A callback of the application, or one of those a deferred gives its lists:
    the function that sets the state, [disable] and [lock] of a list. *)
Inductive fn := User (n : nat) | SetState (s : string) | DisableOf (k : nat) | LockOf (k : nat).

#[global] Instance fn_eq_dec : EqDecision fn.
Proof. solve_decision. Defined.

(** The closure of a list (3147-3166): [memory] when it is truthy, [list] unless it
    is the empty string. *)
Record callbacks := Callbacks {
  firing : bool;
  memory : option A;
  fired : bool;
  locked : bool;
  list_ : option (list fn);
  queue : list A;
  firingIndex : Z
}.

Definition created : callbacks := Callbacks false None false false (Some []) [] (-1).

(** An argument of [add]: a function, an array of such arguments, anything
    else. *)
Inductive arg := AFn (f : fn) | AList (l : list arg) | AOther.

Inductive cmd :=
| Add (k : nat) (args : list arg)
| Remove (k : nat) (fs : list fn)
| Empty (k : nat)
| Disable (k : nat)
| Lock (k : nat)
| FireWith (k : nat) (a : A)
| Throw.

(** What has happened, oldest first. *)
Inductive happened := Added (k : nat) (f : fn) | Fired (k : nat) (a : A) | Called (k : nat) (f : fn) (a : A).

Record world := World { lists : nat -> callbacks; state : string; trace : list happened }.

Definition get (k : nat) (w : world) : callbacks := lists w k.
Definition set (k : nat) (c : callbacks) (w : world) : world := World (<[k := c]> (lists w)) (state w) (trace w).
Definition note (e : list happened) (w : world) : world := World (lists w) (state w) (trace w ++ e).

Context (opts : nat -> options).

(** 3226-3238: the functions of the arguments, arrays gone through. *)
Fixpoint functions_of (a : arg) : list fn :=
  match a with
  | AFn f => [f]
  | AList l => flat_map functions_of l
  | AOther => []
  end.

Fixpoint push_all (uniq : bool) (fs : list fn) (l : list fn) : list fn :=
  match fs with
  | [] => l
  | f :: fs => push_all uniq fs (if negb uniq || negb (bool_decide (f ∈ l)) then l ++ [f] else l)
  end.

(** The functions that are pushed. *)
Fixpoint pushed (uniq : bool) (fs : list fn) (l : list fn) : list fn :=
  match fs with
  | [] => []
  | f :: fs => if negb uniq || negb (bool_decide (f ∈ l)) then f :: pushed uniq fs (l ++ [f]) else pushed uniq fs l
  end.

(** 3172-3176: [fire] begins. *)
Definition begin_fire (k : nat) (c : callbacks) : callbacks :=
  Callbacks true (memory c) true (once (opts k)) (list_ c) (queue c) (firingIndex c).

(** 3217-3245; whether [fire] is called. *)
Definition add (k : nat) (args : list arg) (c : callbacks) : callbacks * list happened * bool :=
  match list_ c with
  | None => (c, [], false)
  | Some l =>
      let fs := flat_map functions_of args in
      let l' := push_all (unique (opts k)) fs l in
      let new := map (Added k) (pushed (unique (opts k)) fs l) in
      match memory c with
      | Some m =>
          if firing c then (Callbacks true (memory c) (fired c) (locked c) (Some l') (queue c) (firingIndex c), new, false)
          else (begin_fire k (Callbacks false (memory c) (fired c) (locked c) (Some l') (queue c ++ [m]) (Z.of_nat (length l) - 1)), new, true)
      | None => (Callbacks (firing c) None (fired c) (locked c) (Some l') (queue c) (firingIndex c), new, false)
      end
  end.

(** 3250-3258: each place of the function from [index] on. *)
Fixpoint splice_all (f : fn) (l : list fn) (index i : Z) : list fn * Z :=
  match l with
  | [] => ([], i)
  | x :: l =>
      if bool_decide (x = f) then splice_all f l index (if index <=? i then i - 1 else i)
      else let '(l, i) := splice_all f l (index + 1) i in (x :: l, i)
  end.

(** 3248-3261 *)
Definition remove (fs : list fn) (c : callbacks) : callbacks :=
  match list_ c with
  | None => c
  | Some l =>
      let '(l, i) := fold_left (fun p f => splice_all f p.1 0 p.2) fs (l, firingIndex c) in
      Callbacks (firing c) (memory c) (fired c) (locked c) (Some l) (queue c) i
  end.

(** 3265-3269 *)
Definition has (f : option fn) (c : callbacks) : bool :=
  let l := default [] (list_ c) in
  match f with Some f => bool_decide (f ∈ l) | None => negb (bool_decide (l = [])) end.

(** 3272-3277 *)
Definition empty (c : callbacks) : callbacks :=
  Callbacks (firing c) (memory c) (fired c) (locked c) (match list_ c with Some _ => Some [] | None => None end) (queue c) (firingIndex c).

(** 3282-3286 *)
Definition disable (c : callbacks) : callbacks :=
  Callbacks (firing c) None (fired c) true None [] (firingIndex c).
(** 3287-3289 *)
Definition disabled (c : callbacks) : bool := match list_ c with Some _ => false | None => true end.

(** 3294-3300 *)
Definition lock (c : callbacks) : callbacks :=
  match memory c with
  | Some _ => Callbacks (firing c) (memory c) (fired c) true (list_ c) [] (firingIndex c)
  | None => Callbacks (firing c) None (fired c) true None [] (firingIndex c)
  end.

(** 3306-3316; whether [fire] is called. *)
Definition fireWith (k : nat) (a : A) (c : callbacks) : callbacks * bool :=
  if locked c then (c, false)
  else
    let c := Callbacks (firing c) (memory c) (fired c) (locked c) (list_ c) (queue c ++ [a]) (firingIndex c) in
    if firing c then (c, false) else (begin_fire k c, true).

(** 3193-3210: [fire] ends. *)
Definition end_fire (k : nat) (c : callbacks) : callbacks :=
  let memory := if keeps_memory (opts k) then memory c else None in
  Callbacks false memory (fired c) (locked c)
    (if locked c then match memory with Some _ => Some [] | None => None end else list_ c) (queue c) (firingIndex c).

(** What is under way: the rest of some commands; [fire] of a list at the test of
    its outer loop, at that of its inner loop, or when a callback has come back. *)
Inductive frame := Cmds (cs : list cmd) | AtQueue (k : nat) | AtList (k : nat) | Back (k : nat) (f : fn).

Context (body : nat -> list cmd) (isFalse : nat -> bool).

Definition act (c : cmd) (w : world) : world * list frame :=
  match c with
  | Add k args => let '(c, new, go) := add k args (get k w) in (note new (set k c w), if go then [AtQueue k] else [])
  | Remove k fs => (set k (remove fs (get k w)) w, [])
  | Empty k => (set k (empty (get k w)) w, [])
  | Disable k => (set k (disable (get k w)) w, [])
  | Lock k => (set k (lock (get k w)) w, [])
  | FireWith k a => let '(c, go) := fireWith k a (get k w) in (note [Fired k a] (set k c w), if go then [AtQueue k] else [])
  | Throw => (w, [])
  end.

(** A call: what it does, and the commands it goes on with. *)
Definition call (f : fn) (w : world) : world * list cmd :=
  match f with
  | User n => (w, body n)
  | SetState s => (World (lists w) s (trace w), [])
  | DisableOf k => (set k (disable (get k w)) w, [])
  | LockOf k => (set k (lock (get k w)) w, [])
  end.

Definition is_false (f : fn) : bool := match f with User n => isFalse n | _ => false end.

Definition config : Type := list frame * world.

Definition machine_step (cf : config) : config :=
  let '(st, w) := cf in
  match st with
  | [] => cf
  | Cmds [] :: st => (st, w)
  | Cmds (Throw :: _) :: _ => ([], w)
  | Cmds (c :: cs) :: st => let '(w, fs) := act c w in (fs ++ Cmds cs :: st, w)
  | AtQueue k :: st =>
      let c := get k w in
      match queue c with
      | [] => (st, set k (end_fire k c) w)
      | a :: q => (AtList k :: st, set k (Callbacks (firing c) (Some a) (fired c) (locked c) (list_ c) q (firingIndex c)) w)
      end
  | AtList k :: st =>
      let c := get k w in
      let at_ i := Callbacks (firing c) (memory c) (fired c) (locked c) (list_ c) (queue c) i in
      let i := firingIndex c + 1 in
      match (if 0 <=? i then default [] (list_ c) !! Z.to_nat i else None), memory c with
      | Some f, Some a =>
          let '(w, cs) := call f (note [Called k f a] (set k (at_ i) w)) in
          (Cmds cs :: Back k f :: st, w)
      | _, _ => (AtQueue k :: st, set k (at_ (-1)) w)
      end
  | Back k f :: st =>
      let c := get k w in
      (AtList k :: st,
       if is_false f && stopOnFalse (opts k)
       then set k (Callbacks (firing c) None (fired c) (locked c) (list_ c) (queue c) (Z.of_nat (length (default [] (list_ c))))) w
       else w)
  end.

Definition run (n : nat) (cf : config) : config := Nat.iter n machine_step cf.

End Callbacks.

#[global] Arguments cmd : clear implicits.
#[global] Arguments callbacks : clear implicits.
#[global] Arguments world : clear implicits.
#[global] Arguments happened : clear implicits.
#[global] Arguments frame : clear implicits.
#[global] Arguments config : clear implicits.

(** ** Deferred objects *)

Module Deferred.
Section Deferred.
Context {A : Type} (body : nat -> list (cmd A)) (isFalse : nat -> bool).

(** The lists of [tuples] (3337-3343): [done], [fail] and [progress]. *)
Definition deferred_options (k : nat) : options :=
  match k with 0%nat | 1%nat => Options true true false false | _ => Options false true false false end.

Definition stateString (k : nat) : string := match k with 0%nat => "resolved" | _ => "rejected" end.

(** [i ^ 1] *)
Definition other (k : nat) : nat := match k with 0%nat => 1%nat | _ => 0%nat end.

(** 3399-3407: the callbacks a deferred starts with. *)
Definition built (k : nat) : list fn := [SetState (stateString k); DisableOf (other k); LockOf 2].

Definition with_built (k : nat) : callbacks A := (add deferred_options k (map AFn (built k)) created).1.1.

Definition deferred : world A :=
  World (fun k => match k with 0%nat | 1%nat => with_built k | _ => created end) "pending" [].

(** The methods, by the command each is (3396, 3410-3414, 3349-3351). *)
Definition done_ (args : list arg) : list (cmd A) := [Add 0 args].
Definition fail (args : list arg) : list (cmd A) := [Add 1 args].
Definition progress (args : list arg) : list (cmd A) := [Add 2 args].
Definition resolveWith (a : A) : list (cmd A) := [FireWith 0 a].
Definition rejectWith (a : A) : list (cmd A) := [FireWith 1 a].
Definition notifyWith (a : A) : list (cmd A) := [FireWith 2 a].
Definition always (args : list arg) : list (cmd A) := done_ args ++ fail args.

Definition is_user (f : fn) : bool := match f with User _ => true | _ => false end.

(** What code that holds a deferred can say, without an exception. *)
Definition method (c : cmd A) : bool :=
  match c with
  | Add k args => (k <? 3)%nat && forallb is_user (flat_map functions_of args)
  | FireWith k _ => (k <? 3)%nat
  | _ => false
  end.

Definition dstep : config A -> config A := machine_step deferred_options body isFalse.

(** A program's commands, each run to its end. *)
Inductive reached : list (cmd A) -> world A -> Prop :=
| reached_nil : reached [] deferred
| reached_snoc p w c n w' : reached p w -> method c = true -> run deferred_options body isFalse n ([Cmds [c]], w) = ([], w') -> reached (p ++ [c]) w'.

(** The history of a list. *)
Definition adds (k : nat) (tr : list (happened A)) : list fn :=
  omap (fun e => match e with Added j f => if bool_decide (j = k) then Some f else None | _ => None end) tr.
Definition calls (k : nat) (tr : list (happened A)) : list (fn * A) :=
  omap (fun e => match e with Called j (User n) a => if bool_decide (j = k) then Some (User n, a) else None | _ => None end) tr.
(** The first [resolveWith] or [rejectWith]. *)
Definition first_fire (tr : list (happened A)) : option (nat * A) :=
  head (omap (fun e => match e with Fired j a => if (j <? 2)%nat then Some (j, a) else None | _ => None end) tr).

(** *** The invariant *)

Definition on_list (f : frame A) : option nat :=
  match f with Cmds _ => None | AtQueue k | AtList k | Back k _ => Some k end.
Definition deep (f : frame A) : Prop :=
  match f with Cmds cs => Forall (fun c => method c = true) cs | Back k _ => True | _ => False end.
Definition top_ok (f : frame A) : Prop := match f with Cmds cs => Forall (fun c => method c = true) cs | _ => True end.

Definition pend (k : nat) (st : list (frame A)) (w : world A) : Prop :=
  get k w = Callbacks false None false false (Some (built k ++ adds k (trace w))) [] (-1) /\ calls k (trace w) = [] /\
  Forall (fun f => is_user f = true) (adds k (trace w)).
Definition dead (k : nat) (st : list (frame A)) (w : world A) : Prop :=
  exists i b, get k w = Callbacks false None b true None [] i /\ calls k (trace w) = [].

(** The frame of a list. *)
Fixpoint frame_of (k : nat) (st : list (frame A)) : option (frame A) :=
  match st with
  | [] => None
  | f :: st => if bool_decide (on_list f = Some k) then Some f else frame_of k st
  end.

(** The list that was fired: [b] is what it has of its first callbacks, [l] those
    of the application, [s] how many of the first callbacks have been called. *)
Record live (k : nat) (a : A) (st : list (frame A)) (w : world A) (b l : list fn) (s : nat) : Prop := Live {
  lv_list : list_ (get k w) = Some (b ++ l);
  lv_users : Forall (fun f => is_user f = true) l;
  lv_built : b = built k \/ b = [];
  lv_locked : locked (get k w) = true /\ fired (get k w) = true;
  lv_values : Forall (fun p => p.2 = a) (calls k (trace w));
  lv_cursor : match frame_of k st with
    | None => get k w = Callbacks false (Some a) true true (Some []) [] (-1) /\ s = 3%nat /\ adds k (trace w) = (calls k (trace w)).*1
    | Some (AtQueue _) => firing (get k w) = true /\ firingIndex (get k w) = -1 /\
        (queue (get k w) = [a] /\ adds k (trace w) = (calls k (trace w)).*1 ++ l /\ (b = built k /\ s = 0%nat \/ b = [] /\ s = 3%nat) \/
         queue (get k w) = [] /\ memory (get k w) = Some a /\ adds k (trace w) = (calls k (trace w)).*1 /\ s = 3%nat)
    | Some _ => firing (get k w) = true /\ memory (get k w) = Some a /\ queue (get k w) = [] /\
        exists e, firingIndex (get k w) = Z.of_nat e - 1 /\ (e <= length b + length l)%nat /\
          adds k (trace w) = (calls k (trace w)).*1 ++ drop (e - length b) l /\ s = (if bool_decide (b = []) then 3 else Nat.min e 3)%nat
    end;
  lv_top : (s < 3)%nat -> match st with
    | Cmds [] :: Back j _ :: _ => j = k
    | AtQueue j :: _ | AtList j :: _ | Back j _ :: _ => j = k
    | _ => False
    end;
  lv_state : state w = if (0 <? s)%nat then stateString k else "pending";
  lv_other : if (1 <? s)%nat then dead (other k) st w else pend (other k) st w
}.

Record inv (cf : config A) : Prop := Inv {
  iv_deep : match cf.1 with [] => True | f :: st => top_ok f /\ Forall deep st end;
  iv_once : NoDup (omap on_list cf.1);
  iv_three : Forall (fun k => (k < 3)%nat) (omap on_list cf.1);
  iv_firing j : (j < 3)%nat -> firing (get j cf.2) = bool_decide (j ∈ omap on_list cf.1);
  iv_progress : Forall (fun f => is_user f = true) (default [] (list_ (get 2 cf.2)));
  iv_phase : match first_fire (trace cf.2) with
    | None => state cf.2 = "pending" /\ pend 0 cf.1 cf.2 /\ pend 1 cf.1 cf.2
    | Some (k, a) => (k < 2)%nat /\ exists b l s, live k a cf.1 cf.2 b l s
    end
}.

(** *** Lemmas *)

#[local] Arguments get : simpl never.
#[local] Arguments set : simpl never.
#[local] Arguments note : simpl never.
#[local] Arguments add : simpl never.
#[local] Arguments fireWith : simpl never.
#[local] Arguments end_fire : simpl never.

Lemma get_set j k c w : get j (set k c w) = if bool_decide (j = k) then c else get (A := A) j w.
Proof. unfold get, set. cbn. case_bool_decide; subst; [by rewrite fn_lookup_insert|by rewrite fn_lookup_insert_ne]. Qed.

Lemma adds_app k t u : adds k (t ++ u) = adds k t ++ adds k u.
Proof. apply omap_app. Qed.
Lemma listed_calls_app k t u : calls k (t ++ u) = calls k t ++ calls k u.
Proof. apply omap_app. Qed.
Lemma first_fire_app t u : first_fire (t ++ u) = match first_fire t with Some p => Some p | None => first_fire u end.
Proof. unfold first_fire. rewrite omap_app. by destruct (omap _ t). Qed.

Lemma adds_added k j fs : adds k (map (Added j) fs) = if bool_decide (j = k) then fs else [].
Proof. induction fs as [|f fs IH]; cbn; [by case_bool_decide|]. unfold adds in IH. rewrite IH. by case_bool_decide. Qed.
Lemma calls_added k j fs : calls k (map (Added j) fs) = [].
Proof. by induction fs. Qed.
Lemma first_fire_added j fs : first_fire (map (Added j) fs) = None.
Proof. unfold first_fire. by induction fs. Qed.

Lemma frame_of_none k st : frame_of k st = None <-> k ∉ omap on_list st.
Proof.
  induction st as [|f st IH]; cbn; [split; [intros _; apply not_elem_of_nil|done]|].
  destruct (on_list f) as [j|] eqn:E; cbn.
  - rewrite not_elem_of_cons. case_bool_decide as Ej; [injection Ej as ->; split; [done|by intros [? _]]|]. rewrite IH. split; [|tauto]. intros H. split; [congruence|done].
  - by rewrite bool_decide_false by done.
Qed.

Lemma push_all_pushed uniq fs l : push_all uniq fs l = l ++ pushed uniq fs l.
Proof.
  revert l. induction fs as [|f fs IH]; intros l; cbn; [by rewrite app_nil_r|]. destruct (negb uniq || _); rewrite IH; [by rewrite <- app_assoc|done].
Qed.

Lemma pushed_sub uniq fs l f : f ∈ pushed uniq fs l -> f ∈ fs.
Proof.
  revert l. induction fs as [|g fs IH]; intros l; cbn; [done|]. destruct (negb uniq || _); [|intros H; right; by eapply IH].
  intros [->|H]%elem_of_cons; [left|right; by eapply IH].
Qed.

Lemma pushed_users uniq fs l : forallb is_user fs = true -> Forall (fun f => is_user f = true) (pushed uniq fs l).
Proof. rewrite forallb_forall. intros H. apply Forall_forall. intros f Hf%pushed_sub. apply H. by apply list_elem_of_In. Qed.

Definition phase (st : list (frame A)) (w : world A) : Prop :=
  match first_fire (trace w) with
  | None => state w = "pending" /\ pend 0 st w /\ pend 1 st w
  | Some (k, a) => (k < 2)%nat /\ exists b l s, live k a st w b l s
  end.

Lemma other_less k : (other k < 2)%nat.
Proof. destruct k; cbn; lia. Qed.

Lemma pend_same k st st' w w' : get k w' = get k w -> adds k (trace w') = adds k (trace w) -> calls k (trace w') = calls k (trace w) ->
  pend k st w -> pend k st' w'.
Proof. intros H1 H2 H3 (P1 & P2 & P3). split; [by rewrite H1, H2|]. by rewrite H2, H3. Qed.

Lemma dead_same k st st' w w' : get k w' = get k w -> calls k (trace w') = calls k (trace w) -> dead k st w -> dead k st' w'.
Proof. intros H1 H2 (i & b & D1 & D2). exists i, b. by rewrite H1, H2. Qed.

(** What happens elsewhere leaves the phase as it is. *)
Lemma phase_same st st' w w' : phase st w -> (forall j, (j < 2)%nat -> get j w' = get j w) -> state w' = state w ->
  (forall j, (j < 2)%nat -> adds j (trace w') = adds j (trace w) /\ calls j (trace w') = calls j (trace w)) ->
  first_fire (trace w') = first_fire (trace w) -> (forall j, (j < 2)%nat -> frame_of j st' = frame_of j st) ->
  (forall k a b l s, (k < 2)%nat -> live k a st w b l s -> (s < 3)%nat ->
    match st' with
    | Cmds [] :: Back j _ :: _ => j = k
    | AtQueue j :: _ | AtList j :: _ | Back j _ :: _ => j = k
    | _ => False
    end) -> phase st' w'.
Proof.
  unfold phase. intros H Hg Hs Ht Hf Hfr Htop. rewrite Hf. destruct (first_fire (trace w)) as [[k a]|].
  - destruct H as [Hk (b & l & s & HL)]. split; [done|]. exists b, l, s. specialize (Htop k a b l s Hk HL). destruct HL as [L1 L2 L3 L4 L5 L6 L7 L8 L9].
    destruct (Ht k Hk) as [Ha Hc]. constructor; rewrite ?(Hg k Hk), ?Ha, ?Hc, ?Hs, ?(Hfr k Hk); try done.
    pose proof (other_less k) as Ho. destruct (Ht _ Ho) as [Ha' Hc']. destruct (1 <? s)%nat; [eapply dead_same|eapply pend_same]; try exact L9; auto.
  - destruct H as (P & P0 & P1). split; [congruence|]. split; (eapply pend_same; [..|eassumption]); first [by apply Hg; lia|by apply Ht; lia].
Qed.

Lemma deep_top st : Forall deep st -> match st with [] => True | f :: st => top_ok f /\ Forall deep st end.
Proof. intros H. destruct st as [|f st]; [done|]. apply Forall_cons in H as [Hf H]. split; [|done]. by destruct f. Qed.

(** Below the top, the frame of a list is that of a callback that is called. *)
Lemma deep_frame k st f : Forall deep st -> frame_of k st = Some f -> exists g, f = Back k g.
Proof.
  induction 1 as [|x st Hx _ IH]; cbn; [done|]. case_bool_decide as E; [|done]. intros [= <-]. destruct x; try done. injection E as ->. by eexists.
Qed.

Lemma not_firing k st w : inv (st, w) -> (k < 3)%nat -> firing (get k w) = false -> k ∉ omap on_list st.
Proof. intros H Hk Hf. pose proof (iv_firing _ H k Hk) as E. cbn in E. rewrite E in Hf. by apply bool_decide_eq_false in Hf. Qed.


Lemma pop_cmds st w : inv (Cmds [] :: st, w) -> inv (st, w).
Proof.
  intros [H1 H2 H3 H4 H5 H6]. cbn in *. destruct H1 as [_ H1]. constructor; cbn; try done; [by apply deep_top|].
  eapply (phase_same (Cmds [] :: st)); try done. intros k a b l s Hk HL Hs. pose proof (lv_top _ _ _ _ _ _ _ HL Hs) as Ht.
  destruct st as [|[|j|j|j f] st]; done.
Qed.

(** A callback has come back; these lists do not stop for [false]. *)
Lemma step_back j f st w : inv (Back j f :: st, w) -> inv (dstep (Back j f :: st, w)).
Proof.
  intros [H1 H2 H3 H4 H5 H6]. cbn in *. assert (stopOnFalse (deferred_options j) = false) as -> by (by destruct j as [|[|j]]). rewrite andb_false_r.
  constructor; cbn; try done. unfold phase in H6. destruct (first_fire (trace w)) as [[k a]|]; [|done].
  destruct H6 as [Hk (b & l & s & [L1 L2 L3 L4 L5 L6 L7 L8 L9])]. split; [done|]. exists b, l, s. constructor; try done.
  cbn in L6 |- *. case_bool_decide; [exact L6|]. exact L6.
Qed.

(** A step that is about the list of progress, or changes nothing of the other
    lists. *)
Lemma phase_progress st st' w w' : phase st w -> (forall j, (j < 2)%nat -> get j w' = get j w) -> state w' = state w ->
  (forall j, (j < 2)%nat -> adds j (trace w') = adds j (trace w) /\ calls j (trace w') = calls j (trace w)) ->
  first_fire (trace w') = first_fire (trace w) -> (forall j, (j < 2)%nat -> frame_of j st' = frame_of j st) ->
  match st with Cmds (_ :: _) :: _ => True | AtQueue j :: _ | AtList j :: _ => j = 2%nat | _ => False end -> phase st' w'.
Proof.
  intros H Hg Hs Ht Hf Hfr Htop. eapply phase_same; try done. intros k a b l s Hk HL Hlt. pose proof (lv_top _ _ _ _ _ _ _ HL Hlt) as Hx.
  destruct st as [|[[|c cs]|j|j|j f] st]; try done; lia.
Qed.

Lemma less_three j : (j < 3)%nat -> j = 2%nat \/ (j < 2)%nat.
Proof. lia. Qed.

(** The frames and the flags when a list begins to fire. *)
Lemma firing_push cs c0 st w j c tr : inv (Cmds (c0 :: cs) :: st, w) -> (j < 3)%nat -> firing (get j w) = false -> firing c = true ->
  NoDup (omap on_list (AtQueue j :: Cmds cs :: st)) /\ Forall (fun k => (k < 3)%nat) (omap on_list (AtQueue j :: Cmds cs :: st)) /\
  forall i, (i < 3)%nat -> firing (get i (note tr (set j c w))) = bool_decide (i ∈ omap on_list (AtQueue j :: Cmds cs :: st)).
Proof.
  intros H Hj Hf Hc. pose proof (not_firing j _ _ H Hj Hf) as Hout. destruct H as [_ H2 H3 H4 _ _]. cbn in *.
  split; [by constructor|]. split; [by constructor|]. intros i Hi. change (get i (note tr (set j c w))) with (get i (set j c w)). rewrite get_set.
  case_bool_decide as E; [subst; rewrite Hc; symmetry; apply bool_decide_eq_true; left|]. rewrite (H4 i Hi). apply bool_decide_ext.
  rewrite elem_of_cons. tauto.
Qed.

Lemma firing_stay cs c0 st w j c tr : inv (Cmds (c0 :: cs) :: st, w) -> (j < 3)%nat -> firing c = firing (get j w) ->
  forall i, (i < 3)%nat -> firing (get i (note tr (set j c w))) = bool_decide (i ∈ omap on_list (Cmds cs :: st)).
Proof.
  intros H Hj Hc i Hi. change (get i (note tr (set j c w))) with (get i (set j c w)). rewrite get_set.
  case_bool_decide as E; [subst; rewrite Hc|]; by apply (iv_firing _ H).
Qed.

(** What [add] does, by cases. *)
Lemma add_none k args (c : callbacks A) : list_ c = None -> add deferred_options k args c = (c, [], false).
Proof. unfold add. by intros ->. Qed.

(** Does [add] fire the list, and what it leaves of it. *)
Definition goes (c : callbacks A) : bool := match memory c with Some _ => negb (firing c) | None => false end.
Definition grown (k : nat) (l fs : list fn) (c : callbacks A) : callbacks A :=
  if goes c
  then Callbacks true (memory c) true (once (deferred_options k)) (Some (l ++ fs)) (queue c ++ match memory c with Some m => [m] | None => [] end)
         (Z.of_nat (length l) - 1)
  else Callbacks (firing c) (memory c) (fired c) (locked c) (Some (l ++ fs)) (queue c) (firingIndex c).

Lemma add_some k args (c : callbacks A) l : list_ c = Some l -> exists fs, fs = pushed (unique (deferred_options k)) (flat_map functions_of args) l /\
  add deferred_options k args c = (grown k l fs c, map (Added k) fs, goes c).
Proof.
  intros Hl. eexists. split; [done|]. unfold add, grown, goes. rewrite Hl, push_all_pushed. destruct (memory c); [|done]. by destruct (firing c).
Qed.

Lemma trace_note tr w : trace (note (A := A) tr w) = trace w ++ tr.
Proof. done. Qed.
Lemma trace_set k c w : trace (set (A := A) k c w) = trace w.
Proof. done. Qed.
Lemma get_note j tr (w : world A) : get j (note tr w) = get j w.
Proof. done. Qed.

(** A command for the list of progress. *)
Lemma phase_cmds2 c0 cs st w c tr fs : phase (Cmds (c0 :: cs) :: st) w -> first_fire tr = None ->
  (forall j, (j < 2)%nat -> adds j tr = [] /\ calls j tr = []) -> fs = [] \/ fs = [AtQueue 2] ->
  phase (fs ++ Cmds cs :: st) (note tr (set 2 c w)).
Proof.
  intros H Hf Ht Hfs. eapply phase_progress; [exact H|..].
  - intros j Hj. rewrite get_note, get_set. by rewrite bool_decide_false by lia.
  - done.
  - intros j Hj. rewrite trace_note, adds_app, listed_calls_app. destruct (Ht j Hj) as [-> ->]. by rewrite !app_nil_r.
  - rewrite trace_note, first_fire_app, Hf. change (trace (set 2 c w)) with (trace w). by destruct (first_fire (trace w)).
  - intros j Hj. destruct Hfs as [->| ->]; cbn; [done|]. rewrite bool_decide_false; [done|]. intros [= E]. lia.
  - done.
Qed.

(** The command of the top was no step of a deferred that is being settled. *)
Lemma busy k a c cs st w b l s : live k a (Cmds (c :: cs) :: st) w b l s -> (3 <= s)%nat.
Proof. intros HL. destruct (le_lt_dec 3 s) as [|Hs]; [done|]. exfalso. exact (lv_top _ _ _ _ _ _ _ HL Hs). Qed.

(** The list that was settled gets longer, and is fired again if nobody is at it. *)
Lemma live_add j a args cs st w b l0 s fs : (j < 2)%nat -> live j a (Cmds (Add j args :: cs) :: st) w b l0 s -> Forall deep st ->
  Forall (fun f => is_user f = true) fs -> exists b' l',
  live j a ((if goes (get j w) then [AtQueue j] else []) ++ Cmds cs :: st) (note (map (Added j) fs) (set j (grown j (b ++ l0) fs (get j w)) w)) b' l' s.
Proof.
  intros Hj HL Hdeep Hfu. pose proof (busy _ _ _ _ _ _ _ _ _ HL) as Hs. destruct HL as [L1 L2 L3 L4 L5 L6 L7 L8 L9].
  assert (Hother : (1 <? s)%nat = true) by (apply Nat.ltb_lt; lia). rewrite Hother in L9.
  assert (Hdead : forall st' c, dead (other j) st' (note (map (Added j) fs) (set j c w))).
  { intros st' c. eapply dead_same; [..|exact L9].
    - rewrite get_note, get_set, bool_decide_false; [done|]. destruct j as [|[|j]]; cbn; lia.
    - by rewrite trace_note, listed_calls_app, calls_added, app_nil_r. }
  assert (Hadds : adds j (trace w ++ map (Added j) fs) = adds j (trace w) ++ fs) by (rewrite adds_app, adds_added, bool_decide_true; done).
  assert (Hcalls : calls j (trace w ++ map (Added j) fs) = calls j (trace w)) by (by rewrite listed_calls_app, calls_added, app_nil_r).
  cbn [frame_of on_list] in L6. rewrite bool_decide_false in L6 by done. unfold grown. destruct (frame_of j st) as [fr|] eqn:Efr.
  - destruct (deep_frame _ _ _ Hdeep Efr) as [g ->]. destruct L6 as (M1 & M2 & M3 & e & M4 & M5 & M6 & M7).
    assert (goes (get j w) = false) as -> by (unfold goes; by rewrite M2, M1). exists b, (l0 ++ fs).
    constructor; rewrite ?get_note, ?get_set, ?(bool_decide_true (j = j)) by done; cbn [list_ locked fired firing memory queue firingIndex app]; try done.
    + by rewrite app_assoc.
    + by apply Forall_app.
    + by rewrite trace_note, trace_set, Hcalls.
    + cbn [frame_of on_list]. rewrite bool_decide_false by done. rewrite Efr. split_and!; try done. exists e. rewrite trace_note, trace_set, Hadds, Hcalls, M6.
      split; [done|]. split; [rewrite length_app; lia|]. split; [|done]. rewrite <- app_assoc. f_equal. by rewrite drop_app_le by lia.
    + rewrite Hother. apply Hdead.
  - destruct L6 as (M1 & M2 & M3). rewrite M1 in L1. injection L1 as Hnil. symmetry in Hnil. apply app_eq_nil in Hnil as [-> ->].
    assert (goes (get j w) = true) as -> by (unfold goes; by rewrite M1). exists [], fs.
    constructor; rewrite ?get_note, ?get_set, ?(bool_decide_true (j = j)) by done; cbn [list_ locked fired firing memory queue firingIndex app]; try done.
    + split; [|done]. by destruct j as [|[|j]]; [| |lia].
    + by rewrite trace_note, trace_set, Hcalls.
    + cbn [frame_of on_list]. rewrite bool_decide_true by done. split; [done|]. split; [done|]. left. rewrite M1. cbn [queue memory app]. split; [done|].
      rewrite trace_note, trace_set, Hadds, Hcalls, M3. split; [done|]. by right.
    + rewrite Hother. apply Hdead.
Qed.

(** A list that is waiting gets longer. *)
Lemma pend_add i j l fs st st' w : pend i st w -> pend j st w -> list_ (get j w) = Some l -> Forall (fun f => is_user f = true) fs ->
  pend i st' (note (map (Added j) fs) (set j (grown j l fs (get j w)) w)).
Proof.
  intros (I1 & I2 & I3) (Q1 & _ & _) El Hfu. rewrite Q1 in El. cbn in El. injection El as <-. unfold grown, goes. rewrite Q1. cbn [memory]. split; [|split].
  - rewrite get_note, get_set, trace_note, trace_set, adds_app, adds_added. destruct (decide (i = j)) as [->|E].
    + rewrite !bool_decide_true by done. by rewrite app_assoc.
    + rewrite !bool_decide_false by done. by rewrite app_nil_r.
  - by rewrite trace_note, trace_set, listed_calls_app, calls_added, app_nil_r.
  - rewrite trace_note, trace_set, adds_app, adds_added. apply Forall_app. split; [done|]. destruct (bool_decide (j = i)); [exact Hfu|constructor].
Qed.

Lemma phase_add j args cs st w l fs : phase (Cmds (Add j args :: cs) :: st) w -> (j < 3)%nat -> Forall deep st ->
  list_ (get j w) = Some l -> Forall (fun f => is_user f = true) fs ->
  phase ((if goes (get j w) then [AtQueue j] else []) ++ Cmds cs :: st) (note (map (Added j) fs) (set j (grown j l fs (get j w)) w)).
Proof.
  intros H Hj Hdeep El Hfu. destruct (less_three j Hj) as [->|Hj2].
  { eapply phase_cmds2; [exact H|apply first_fire_added| |destruct (goes (get 2 w)); auto].
    intros i Hi. rewrite adds_added, calls_added, bool_decide_false by lia. done. }
  unfold phase in H |- *. rewrite trace_note, trace_set, first_fire_app. destruct (first_fire (trace w)) as [[k a]|].
  - destruct H as [Hk (b & l0 & s & HL)]. split; [done|]. destruct (decide (j = k)) as [->|Hne].
    + pose proof (lv_list _ _ _ _ _ _ _ HL) as L1. rewrite L1 in El. injection El as <-.
      destruct (live_add k a args cs st w b l0 s fs Hk HL Hdeep Hfu) as (b' & l' & H'). by exists b', l', s.
    + exfalso. assert (j = other k) as -> by (destruct k as [|[|k]], j as [|[|j]]; cbn; done || lia).
      pose proof (busy _ _ _ _ _ _ _ _ _ HL) as Hs. pose proof (lv_other _ _ _ _ _ _ _ HL) as L9. rewrite (proj2 (Nat.ltb_lt 1 s)) in L9 by lia.
      destruct L9 as (i & b' & D & _). by rewrite D in El.
  - destruct H as (P & P0 & P1). rewrite first_fire_added. assert (Hpj : pend j (Cmds (Add j args :: cs) :: st) w) by (destruct j as [|[|j]]; [done|done|lia]).
    split; [done|]. split; by eapply pend_add.
Qed.

Lemma step_add j args cs st w : inv (Cmds (Add j args :: cs) :: st, w) -> inv (dstep (Cmds (Add j args :: cs) :: st, w)).
Proof.
  intros H. pose proof H as [H1 H2 H3 H4 H5 H6]. cbn [fst snd] in *. destruct H1 as [Htop Hdeep]. cbn in Htop.
  apply Forall_cons in Htop as [Hm Hcs]. unfold method in Hm. apply andb_true_iff in Hm as [Hj%Nat.ltb_lt Hus].
  unfold dstep. cbn [machine_step act]. destruct (list_ (get j w)) as [l|] eqn:El.
  - destruct (add_some j args (get j w) l El) as (fs & Hfs & ->).
    assert (Hfu : Forall (fun f => is_user f = true) fs) by (subst; by apply pushed_users).
    pose proof (phase_add j args cs st w l fs H6 Hj Hdeep El Hfu) as Hph.
    assert (Hprog : Forall (fun f => is_user f = true) (default [] (list_ (get 2 (note (map (Added j) fs) (set j (grown j l fs (get j w)) w)))))).
    { rewrite get_note, get_set. destruct (decide (2%nat = j)) as [<-|]; [rewrite bool_decide_true by done|by rewrite bool_decide_false].
      rewrite El in H5. unfold grown. destruct (goes (get 2 w)); by apply Forall_app. }
    destruct (goes (get j w)) eqn:Ego; constructor; cbn [fst snd app]; try done;
      try (assert (Hfj : firing (get j w) = false) by (unfold goes in Ego; destruct (memory (get j w)), (firing (get j w)); done);
           assert (Hft : firing (grown j l fs (get j w)) = true) by (unfold grown; by rewrite Ego);
           by destruct (firing_push _ _ _ _ j (grown j l fs (get j w)) (map (Added j) fs) H Hj Hfj Hft) as (N1 & N2 & N3)).
    + split; [done|]. by constructor.
    + apply (firing_stay _ _ _ _ _ _ _ H Hj). unfold grown. by rewrite Ego.
  - rewrite (add_none _ _ _ El). assert (Hg : forall i, get i (note [] (set j (get j w) w)) = get i w).
    { intros i. rewrite get_note, get_set. destruct (decide (i = j)) as [->|]; [by rewrite bool_decide_true|by rewrite bool_decide_false]. }
    constructor; cbn [fst snd app]; try done.
    + by apply (firing_stay _ _ _ _ _ _ _ H).
    + by rewrite Hg.
    + eapply (phase_same (Cmds (Add j args :: cs) :: st)); try done.
      * intros i Hi. rewrite trace_note. by rewrite !app_nil_r.
      * rewrite trace_note. by rewrite app_nil_r.
      * intros k a b l s Hk HL Hs. by pose proof (lv_top _ _ _ _ _ _ _ HL Hs).
Qed.

Lemma settled_lists k a c cs st w b l s j : live k a (Cmds (c :: cs) :: st) w b l s -> (k < 2)%nat -> (j < 2)%nat -> locked (get j w) = true.
Proof.
  intros HL Hk Hj. pose proof (busy _ _ _ _ _ _ _ _ _ HL) as Hs. destruct (decide (j = k)) as [->|Hne]; [apply (lv_locked _ _ _ _ _ _ _ HL)|].
  assert (j = other k) as -> by (destruct k as [|[|k]], j as [|[|j]]; cbn; done || lia).
  pose proof (lv_other _ _ _ _ _ _ _ HL) as H. rewrite (proj2 (Nat.ltb_lt 1 s)) in H by lia. destruct H as (i & b' & -> & _). done.
Qed.

Lemma fireWith_spec j a (c : callbacks A) : fireWith deferred_options j a c =
  if locked c then (c, false)
  else if firing c then (Callbacks (firing c) (memory c) (fired c) (locked c) (list_ c) (queue c ++ [a]) (firingIndex c), false)
  else (Callbacks true (memory c) true (once (deferred_options j)) (list_ c) (queue c ++ [a]) (firingIndex c), true).
Proof. unfold fireWith. by destruct (locked c), (firing c). Qed.

Lemma phase_fire j a cs st w : phase (Cmds (FireWith j a :: cs) :: st) w -> (j < 3)%nat ->
  let '(c, go) := fireWith deferred_options j a (get j w) in
  phase ((if go then [AtQueue j] else []) ++ Cmds cs :: st) (note [Fired j a] (set j c w)).
Proof.
  intros H Hj. destruct (less_three j Hj) as [->|Hj2].
  { destruct (fireWith _ _ _ _) as [c go]. eapply phase_cmds2; [exact H|done|done|destruct go; auto]. }
  rewrite fireWith_spec. unfold phase in H |- *. destruct (first_fire (trace w)) as [[k a0]|] eqn:Eff.
  - destruct H as [Hk (b & l & s & HL)]. rewrite (settled_lists _ _ _ _ _ _ _ _ _ j HL Hk Hj2). rewrite trace_note, trace_set, first_fire_app, Eff.
    split; [done|]. exists b, l, s. pose proof (busy _ _ _ _ _ _ _ _ _ HL) as Hs. destruct HL as [L1 L2 L3 L4 L5 L6 L7 L8 L9].
    assert (Hg : forall i, get i (note [Fired j a] (set j (get j w) w)) = get i w).
    { intros i. rewrite get_note, get_set. destruct (decide (i = j)) as [->|]; [by rewrite bool_decide_true|by rewrite bool_decide_false]. }
    assert (Ht : forall i, adds i (trace w ++ [Fired j a]) = adds i (trace w) /\ calls i (trace w ++ [Fired j a]) = calls i (trace w)).
    { intros i. by rewrite adds_app, listed_calls_app, !app_nil_r. }
    destruct (Ht k) as [Ta Tc]. constructor; rewrite ?Hg, ?trace_note, ?trace_set, ?Ta, ?Tc; try done.
    destruct (1 <? s)%nat; [eapply dead_same|eapply pend_same]; try exact L9; rewrite ?Hg, ?trace_note, ?trace_set; try done; apply Ht.
  - destruct H as (P & P0 & P1).
    assert (Hp : forall i, (i < 2)%nat -> pend i (Cmds (FireWith j a :: cs) :: st) w) by (intros [|[|i]] Hi; [done|done|lia]).
    destruct (Hp j Hj2) as (Q1 & Q2 & Q3). rewrite Q1. cbn [locked firing memory fired list_ queue firingIndex app].
    rewrite trace_note, trace_set, first_fire_app, Eff. unfold first_fire. cbn [omap list_omap head]. rewrite (proj2 (Nat.ltb_lt j 2)) by done. cbn [head].
    split; [done|]. exists (built j), (adds j (trace w)), 0%nat. set (c := Callbacks _ _ _ _ _ _ _).
    assert (Ht : forall i, adds i (trace w ++ [Fired j a]) = adds i (trace w) /\ calls i (trace w ++ [Fired j a]) = calls i (trace w)).
    { intros i. by rewrite adds_app, listed_calls_app, !app_nil_r. }
    destruct (Ht j) as [Ta Tc].
    constructor; rewrite ?get_note, ?get_set, ?(bool_decide_true (j = j)), ?trace_note, ?trace_set, ?Ta, ?Tc by done; cbn [c locked firing memory fired list_ queue firingIndex]; try done.
    + by left.
    + split; [|done]. by destruct j as [|[|j]]; [| |lia].
    + rewrite Q2. constructor.
    + cbn [frame_of on_list]. rewrite bool_decide_true by done. split; [done|]. split; [done|]. left. rewrite Q2. cbn [fmap list_fmap app]. auto.
    + cbn [Nat.ltb Nat.leb]. eapply pend_same; [..|apply (Hp (other j) (other_less j))]; rewrite ?trace_note, ?trace_set; try apply Ht.
      rewrite get_note, get_set, bool_decide_false; [done|]. destruct j as [|[|j]]; cbn; lia.
Qed.

Lemma step_fire j a cs st w : inv (Cmds (FireWith j a :: cs) :: st, w) -> inv (dstep (Cmds (FireWith j a :: cs) :: st, w)).
Proof.
  intros H. pose proof H as [H1 H2 H3 H4 H5 H6]. cbn [fst snd] in *. destruct H1 as [Htop Hdeep]. cbn in Htop.
  apply Forall_cons in Htop as [Hm Hcs]. unfold method in Hm. apply Nat.ltb_lt in Hm as Hj.
  pose proof (phase_fire j a cs st w H6 Hj) as Hph. unfold dstep. cbn [machine_step act].
  rewrite fireWith_spec in *. destruct (locked (get j w)) eqn:El; [|destruct (firing (get j w)) eqn:Ef].
  - constructor; cbn [fst snd app]; try done; [by apply (firing_stay _ _ _ _ _ _ _ H)|].
    rewrite get_note, get_set. destruct (decide (2%nat = j)) as [<-|]; [by rewrite bool_decide_true|by rewrite bool_decide_false].
  - constructor; cbn [fst snd app]; try done; [by apply (firing_stay _ _ _ _ _ _ _ H)|].
    rewrite get_note, get_set. destruct (decide (2%nat = j)) as [<-|]; [by rewrite bool_decide_true|by rewrite bool_decide_false].
  - destruct (firing_push _ _ _ _ j (Callbacks true (memory (get j w)) true (once (deferred_options j)) (list_ (get j w)) (queue (get j w) ++ [a]) (firingIndex (get j w)))
      [Fired j a] H Hj Ef eq_refl) as (N1 & N2 & N3). constructor; cbn [fst snd app]; try done.
    + split; [done|]. by constructor.
    + rewrite get_note, get_set. destruct (decide (2%nat = j)) as [<-|]; [by rewrite bool_decide_true|by rewrite bool_decide_false].
Qed.

Lemma get_set_same j c w : get j (set j c w) = c :> callbacks A.
Proof. by rewrite get_set, bool_decide_true. Qed.
Lemma get_set_other i j c w : i <> j -> get i (set j c w) = get i w :> callbacks A.
Proof. intros H. by rewrite get_set, bool_decide_false. Qed.

(** Only the list that was fired is fired. *)
Lemma firing_settled j st w : inv (st, w) -> (j < 2)%nat -> j ∈ omap on_list st -> exists a b l s, live j a st w b l s /\ first_fire (trace w) = Some (j, a).
Proof.
  intros H Hj Hin. assert (Hf : firing (get j w) = true).
  { pose proof (iv_firing _ H j ltac:(lia)) as E. cbn in E. rewrite E. by apply bool_decide_eq_true. }
  pose proof (iv_phase _ H) as Hp. cbn [fst snd] in Hp. destruct (first_fire (trace w)) as [[k a]|].
  - destruct Hp as [Hk (b & l & s & HL)]. destruct (decide (j = k)) as [->|Hne]; [by exists a, b, l, s|]. exfalso.
    assert (j = other k) as -> by (destruct k as [|[|k]], j as [|[|j]]; cbn; done || lia). pose proof (lv_other _ _ _ _ _ _ _ HL) as Ho.
    destruct (1 <? s)%nat; [destruct Ho as (i & b' & E & _)|destruct Ho as (E & _)]; by rewrite E in Hf.
  - destruct Hp as (_ & P0 & P1). destruct j as [|[|j]]; [destruct P0 as [E _]|destruct P1 as [E _]|lia]; by rewrite E in Hf.
Qed.

(** A change of the settled list that leaves its neighbour. *)
Lemma other_kept j st st' w c s : (j < 2)%nat -> (if (1 <? s)%nat then dead (other j) st w else pend (other j) st w) ->
  if (1 <? s)%nat then dead (other j) st' (set j c w) else pend (other j) st' (set j c w).
Proof.
  intros Hj H. assert (E : get (other j) (set j c w) = get (other j) w) by (apply get_set_other; destruct j as [|[|j]]; cbn; lia).
  destruct (1 <? s)%nat; [by eapply dead_same; [..|exact H]|by eapply pend_same; [..|exact H]].
Qed.

Lemma step_queue j st w : inv (AtQueue j :: st, w) -> inv (dstep (AtQueue j :: st, w)).
Proof.
  intros H. pose proof H as [H1 H2 H3 H4 H5 H6]. cbn [fst snd omap list_omap on_list] in *. destruct H1 as [_ Hdeep].
  apply Forall_cons in H3 as [Hj H3]. apply NoDup_cons in H2 as [Hout H2]. fold (omap on_list st) in *.
  unfold dstep. cbn [machine_step]. destruct (queue (get j w)) as [|a q] eqn:Eq.
  - constructor; cbn [fst snd]; try done.
    + by apply deep_top.
    + intros i Hi. destruct (decide (i = j)) as [->|Hne]; [rewrite get_set_same; symmetry; by apply bool_decide_eq_false|].
      rewrite get_set_other by done. rewrite (H4 i Hi). apply bool_decide_ext. rewrite elem_of_cons. tauto.
    + destruct (decide (2%nat = j)) as [<-|Hne]; [|by rewrite get_set_other]. rewrite get_set_same. unfold end_fire. cbn. destruct (locked (get 2 w)); [|exact H5].
      destruct (memory (get 2 w)); constructor.
    + destruct (less_three j Hj) as [->|Hj2].
      * eapply (phase_progress (AtQueue 2 :: st)); try done.
        -- intros i Hi. apply get_set_other. lia.
        -- intros i Hi. cbn. rewrite bool_decide_false; [done|]. intros [= E]. lia.
      * destruct (firing_settled j _ _ H Hj2 ltac:(left)) as (a & b & l & s & [L1 L2 L3 L4 L5 L6 L7 L8 L9] & Hff). rewrite trace_set, Hff. split; [done|].
        cbn [frame_of on_list] in L6. rewrite bool_decide_true in L6 by done. destruct L6 as (M1 & M2 & [(M3 & _)|(M3 & M4 & M5 & ->)]); [congruence|].
        exists [], [], 3%nat. assert (Hnone : frame_of j st = None) by by apply frame_of_none.
        assert (Hend : end_fire deferred_options j (get j w) = Callbacks false (Some a) true true (Some []) [] (-1)).
        { unfold end_fire. destruct L4 as [E1 E2]. rewrite E1, E2, M4, M2, M3. by destruct j as [|[|j]]; [| |lia]. }
        rewrite Hend. constructor; rewrite ?get_set_same, ?trace_set, ?Hnone; try done; [by right|lia|].
        by eapply (other_kept j _ _ _ _ 3).
  - set (c := Callbacks _ _ _ _ _ _ _). constructor; cbn [fst snd]; try done.
    + by constructor.
    + by constructor.
    + intros i Hi. destruct (decide (i = j)) as [->|Hne]; [rewrite get_set_same; by apply H4|]. rewrite get_set_other by done. by apply H4.
    + destruct (decide (2%nat = j)) as [<-|Hne]; [by rewrite get_set_same|by rewrite get_set_other].
    + destruct (less_three j Hj) as [->|Hj2].
      * eapply (phase_progress (AtQueue 2 :: st)); try done.
        -- intros i Hi. apply get_set_other. lia.
        -- intros i Hi. cbn. rewrite bool_decide_false; [done|]. intros [= E]. lia.
      * destruct (firing_settled j _ _ H Hj2 ltac:(left)) as (a0 & b & l & s & [L1 L2 L3 L4 L5 L6 L7 L8 L9] & Hff). rewrite trace_set, Hff. split; [done|].
        cbn [frame_of on_list] in L6. rewrite bool_decide_true in L6 by done. destruct L6 as (M1 & M2 & [(M3 & M4 & M5)|(M3 & _)]); [|congruence].
        rewrite Eq in M3. injection M3 as -> ->. exists b, l, s.
        constructor; rewrite ?get_set_same, ?trace_set; try done; [|by eapply other_kept].
        cbn [frame_of on_list]. rewrite bool_decide_true by done. split_and!; try done. exists 0%nat. cbn [firingIndex c]. split; [done|]. split; [lia|].
        rewrite drop_0. split; [done|]. destruct M5 as [[-> ->]|[-> ->]]; done.
Qed.

(** A callback is called. *)
Lemma call_inv j f cs st w w' : inv (AtList j :: st, w) -> Forall (fun c => method c = true) cs ->
  (forall i, (i < 3)%nat -> firing (get i w') = firing (get i w)) -> Forall (fun f => is_user f = true) (default [] (list_ (get 2 w'))) ->
  phase (Cmds cs :: Back j f :: st) w' -> inv (Cmds cs :: Back j f :: st, w').
Proof.
  intros [[_ H1] H2 H3 H4 _ _] Hcs Hf Hp Hph. constructor; try done.
  - cbn. split; [done|]. by constructor.
  - intros i Hi. cbn [fst snd]. rewrite Hf by done. by apply H4.
Qed.

Lemma lookup_end {B} (b l : list B) e : (e <= length b + length l)%nat -> (b ++ l) !! e = None -> e = (length b + length l)%nat.
Proof. intros He H%lookup_ge_None. rewrite length_app in H. lia. Qed.

(** What a deferred's own callbacks do, in their order. *)
Lemma phase_built j a st w l e f : (j < 2)%nat -> live j a (AtList j :: st) w (built j) l e -> firingIndex (get j w) = Z.of_nat e - 1 ->
  first_fire (trace w) = Some (j, a) -> built j !! e = Some f ->
  let at_ := Callbacks (firing (get j w)) (memory (get j w)) (fired (get j w)) (locked (get j w)) (list_ (get j w)) (queue (get j w)) (Z.of_nat e) in
  let '(w', cs) := call body f (note [Called j f a] (set j at_ w)) in
  cs = [] /\ phase (Cmds cs :: Back j f :: st) w' /\ (forall i, (i < 3)%nat -> firing (get i w') = firing (get i w)) /\
  (Forall (fun f => is_user f = true) (default [] (list_ (get 2 w))) -> Forall (fun f => is_user f = true) (default [] (list_ (get 2 w')))).
Proof.
  intros Hj [L1 L2 L3 L4 L5 L6 L7 L8 L9] Hidx Hff Hf at_. cbn [frame_of on_list] in L6. rewrite bool_decide_true in L6 by done.
  destruct L6 as (M1 & M2 & M3 & e' & M4 & M5 & M6 & M7). assert (e' = e) as -> by lia.
  assert (Hnc : forall u, adds u (trace w ++ [Called j f a]) = adds u (trace w) /\ calls u (trace w ++ [Called j f a]) = calls u (trace w)).
  { intros u. rewrite adds_app, listed_calls_app. cbn. destruct e as [|[|[|e]]]; try done; injection Hf as <-; by rewrite !app_nil_r. }
  destruct (Hnc j) as [Na Nc].
  assert (Hphase : forall w', get j w' = at_ -> trace w' = trace w ++ [Called j f a] -> state w' = stateString j ->
    (if (1 <? S e)%nat then dead (other j) (Cmds [] :: Back j f :: st) w' else pend (other j) (Cmds [] :: Back j f :: st) w') -> phase (Cmds [] :: Back j f :: st) w').
  { intros w' G T S O. unfold phase. rewrite T, first_fire_app, Hff. split; [done|]. exists (built j), l, (Datatypes.S e).
    constructor; rewrite ?G, ?T, ?Na, ?Nc; cbn [at_ firing memory fired locked list_ queue firingIndex]; try done.
    cbn [frame_of on_list]. rewrite bool_decide_false, bool_decide_true by done. split_and!; try done. exists (Datatypes.S e).
    assert (He : (e < 3)%nat) by (apply lookup_lt_Some in Hf; cbn in Hf; lia).
    split; [lia|]. split; [cbn in M5 |- *; lia|]. split; [rewrite M6; f_equal; f_equal; cbn; lia|]. rewrite bool_decide_false by done. lia. }
  assert (Ho : forall c, get (other j) (note [Called j f a] (set j c w)) = get (other j) w).
  { intros c. rewrite get_note. apply get_set_other. destruct j as [|[|j]]; cbn; lia. }
  assert (Hfire : forall i, firing (get i (note [Called j f a] (set j at_ w))) = firing (get i w)).
  { intros i. rewrite get_note, get_set. destruct (decide (i = j)) as [->|]; [by rewrite bool_decide_true|by rewrite bool_decide_false]. }
  assert (H2j : get 2 (note [Called j f a] (set j at_ w)) = get 2 w) by (rewrite get_note; apply get_set_other; lia).
  destruct e as [|[|[|e]]]; try done; injection Hf as <-; cbn [call].
  - split; [done|]. split; [|split; [intros i _; exact (Hfire i)|intros Hp; exact (eq_ind_r (fun c => Forall _ (default [] (list_ c))) Hp H2j)]].
    apply Hphase; try done; [exact (get_set_same j at_ w)|].
    eapply pend_same; [..|exact L9]; [apply Ho|apply Hnc|apply Hnc].
  - cbn in L9. destruct L9 as (P1 & P2 & _). split; [done|]. set (w1 := note _ _) in *.
    assert (Hne : j <> other j) by (destruct j as [|[|j]]; cbn; lia). split; [|split].
    + apply Hphase; try done.
      * rewrite get_set_other by done. unfold w1. by rewrite get_note, get_set_same.
      * cbn. unfold dead. rewrite get_set_same. unfold w1. rewrite Ho, P1. exists (-1), false. split; [done|]. rewrite trace_set. rewrite trace_note, trace_set. by rewrite (proj2 (Hnc _)).
    + intros i Hi. destruct (decide (i = other j)) as [->|]; [rewrite get_set_same; cbn; unfold w1; by rewrite Ho|]. by rewrite get_set_other.
    + rewrite get_set_other by (destruct j as [|[|j]]; cbn; lia). by rewrite H2j.
  - cbn in L9. split; [done|]. set (w1 := note _ _) in *. split; [|split].
    + apply Hphase; try done.
      * rewrite get_set_other by lia. unfold w1. by rewrite get_note, get_set_same.
      * eapply dead_same; [..|exact L9]; [rewrite get_set_other by (destruct j as [|[|j]]; cbn; lia); apply Ho|apply Hnc].
    + intros i Hi. destruct (decide (i = 2%nat)) as [->|]; [rewrite get_set_same; rewrite H2j; unfold lock; by destruct (memory (get 2 w))|]. by rewrite get_set_other.
    + rewrite get_set_same, H2j. unfold lock. destruct (memory (get 2 w)); [done|]. constructor.
Qed.

(** The callbacks of the application only use the methods. *)
Context (body_ok : forall n, Forall (fun c => method c = true) (body n)).

(** The next callback is one of the application. *)
Lemma phase_called j a st w b l s e n : (j < 2)%nat -> live j a (AtList j :: st) w b l s -> firingIndex (get j w) = Z.of_nat e - 1 ->
  first_fire (trace w) = Some (j, a) -> (b ++ l) !! e = Some (User n) ->
  phase (Cmds (body n) :: Back j (User n) :: st) (note [Called j (User n) a]
    (set j (Callbacks (firing (get j w)) (memory (get j w)) (fired (get j w)) (locked (get j w)) (list_ (get j w)) (queue (get j w)) (Z.of_nat e)) w)).
Proof.
  intros Hj [L1 L2 L3 L4 L5 L6 L7 L8 L9] Hidx Hff Hf. cbn [frame_of on_list] in L6. rewrite bool_decide_true in L6 by done.
  destruct L6 as (M1 & M2 & M3 & e' & M4 & M5 & M6 & M7). assert (e' = e) as -> by lia.
  assert (Hb : (length b <= e)%nat).
  { destruct L3 as [-> | ->]; [|cbn; lia]. destruct e as [|[|[|e]]]; try done. cbn. lia. }
  assert (Hs : s = 3%nat).
  { rewrite M7. destruct L3 as [-> | ->]; [|done]. cbn in Hb. rewrite bool_decide_false by done. lia. }
  rewrite lookup_app_r in Hf by done. pose proof (drop_S _ _ _ Hf) as Hdrop.
  unfold phase. rewrite trace_note, trace_set, first_fire_app, Hff. split; [done|]. exists b, l, s.
  assert (Na : adds j (trace w ++ [Called j (User n) a]) = adds j (trace w)) by (rewrite adds_app; cbn; by rewrite app_nil_r).
  assert (Nc : calls j (trace w ++ [Called j (User n) a]) = calls j (trace w) ++ [(User n, a)]) by (rewrite listed_calls_app; cbn; by rewrite bool_decide_true).
  constructor; rewrite ?get_note, ?get_set_same, ?trace_note, ?trace_set, ?Na, ?Nc; cbn [firing memory fired locked list_ queue firingIndex]; try done.
  - apply Forall_app. split; [done|]. by apply Forall_singleton.
  - cbn [frame_of on_list]. rewrite bool_decide_false, bool_decide_true by done. split_and!; try done. exists (S e).
    assert (He : (e < length b + length l)%nat) by (apply lookup_lt_Some in Hf; lia). split; [lia|]. split; [lia|]. split.
    + rewrite M6, fmap_app, <- app_assoc, Hdrop. cbn. replace (S e - length b)%nat with (S (e - length b)) by lia. done.
    + rewrite Hs. case_bool_decide; [done|]. destruct L3 as [-> | ->]; [cbn in Hb; lia|done].
  - lia.
  - apply (other_kept j _ (AtList j :: st) w (Callbacks (firing (get j w)) (memory (get j w)) (fired (get j w)) (locked (get j w))
      (list_ (get j w)) (queue (get j w)) (Z.of_nat e)) s Hj) in L9.
    destruct (1 <? s)%nat; [eapply dead_same|eapply pend_same]; try exact L9;
      rewrite ?trace_note, ?trace_set, ?adds_app, ?listed_calls_app; cbn; rewrite ?bool_decide_false, ?app_nil_r by (destruct j as [|[|j]]; cbn; lia); done.
Qed.

(** The end of the list. *)
Lemma phase_ended j a st w b l s e : (j < 2)%nat -> live j a (AtList j :: st) w b l s -> firingIndex (get j w) = Z.of_nat e - 1 ->
  first_fire (trace w) = Some (j, a) -> (b ++ l) !! e = None ->
  phase (AtQueue j :: st)
    (set j (Callbacks (firing (get j w)) (memory (get j w)) (fired (get j w)) (locked (get j w)) (list_ (get j w)) (queue (get j w)) (-1)) w).
Proof.
  intros Hj [L1 L2 L3 L4 L5 L6 L7 L8 L9] Hidx Hff Hf. cbn [frame_of on_list] in L6. rewrite bool_decide_true in L6 by done.
  destruct L6 as (M1 & M2 & M3 & e' & M4 & M5 & M6 & M7). assert (e' = e) as -> by lia. pose proof (lookup_end _ _ _ M5 Hf) as He.
  unfold phase. rewrite trace_set, Hff. split; [done|]. exists b, l, s.
  constructor; rewrite ?get_set_same, ?trace_set; cbn [firing memory fired locked list_ queue firingIndex]; try done.
  - cbn [frame_of on_list]. rewrite bool_decide_true by done. split; [done|]. split; [done|]. right. split; [done|]. split; [done|]. split.
    + rewrite M6, drop_ge, app_nil_r by lia. done.
    + rewrite M7. destruct L3 as [-> | ->]; [|done]. rewrite bool_decide_false by done. cbn in He. lia.
  - by eapply other_kept.
Qed.

Lemma step_list j st w : inv (AtList j :: st, w) -> inv (dstep (AtList j :: st, w)).
Proof.
  intros H. pose proof H as [H1 H2 H3 H4 H5 H6]. cbn [fst snd] in *. assert (Hj : (j < 3)%nat) by (by apply Forall_cons in H3 as [Hj _]).
  unfold dstep. cbn [machine_step]. set (at_ := fun i => Callbacks (firing (get j w)) (memory (get j w)) (fired (get j w)) (locked (get j w)) (list_ (get j w)) (queue (get j w)) i).
  set (found := if 0 <=? firingIndex (get j w) + 1 then default [] (list_ (get j w)) !! Z.to_nat (firingIndex (get j w) + 1) else None).
  assert (Hend : (forall a b l s e, live j a (AtList j :: st) w b l s -> (j < 2)%nat -> firingIndex (get j w) = Z.of_nat e - 1 -> first_fire (trace w) = Some (j, a) ->
      (b ++ l) !! e = None) -> inv (AtQueue j :: st, set j (at_ (-1)) w)).
  { intros Hnone. constructor; cbn [fst snd]; try done.
    - intros i Hi. rewrite get_set. destruct (decide (i = j)) as [->|]; [rewrite bool_decide_true by done; by apply H4|]. rewrite bool_decide_false by done. by apply H4.
    - destruct (decide (2%nat = j)) as [<-|]; [by rewrite get_set_same|by rewrite get_set_other].
    - destruct (less_three j Hj) as [->|Hj2].
      + eapply (phase_progress (AtList 2 :: st)); try done; [intros i Hi; apply get_set_other; lia|].
        intros i Hi. cbn. by rewrite !bool_decide_false by (intros [= E]; lia).
      + destruct (firing_settled j _ _ H Hj2 ltac:(left)) as (a & b & l & s & HL & Hff). pose proof (lv_cursor _ _ _ _ _ _ _ HL) as L6.
        cbn [frame_of on_list] in L6. rewrite bool_decide_true in L6 by done. destruct L6 as (_ & _ & _ & e & M4 & _). by eapply phase_ended; eauto. }
  destruct found as [f|] eqn:Efound.
  - destruct (memory (get j w)) as [a|] eqn:Em.
    + (* a call *)
      assert (Hl : exists l0, list_ (get j w) = Some l0 /\ exists e, firingIndex (get j w) + 1 = Z.of_nat e /\ l0 !! e = Some f).
      { unfold found in Efound. destruct (0 <=? firingIndex (get j w) + 1) eqn:E0; [|done]. apply Z.leb_le in E0.
        destruct (list_ (get j w)) as [l0|]; [|by rewrite (lookup_nil (A := fn)) in Efound || (cbn in Efound; discriminate)]. exists l0. split; [done|]. exists (Z.to_nat (firingIndex (get j w) + 1)). split; [lia|done]. }
      destruct Hl as (l0 & Hl0 & e & He & Hf). rewrite He. fold (at_ (Z.of_nat e)).
      assert (Hfire : forall i, (i < 3)%nat -> firing (get i (note [Called j f a] (set j (at_ (Z.of_nat e)) w))) = firing (get i w)).
      { intros i _. rewrite get_note, get_set. destruct (decide (i = j)) as [->|]; [by rewrite bool_decide_true|by rewrite bool_decide_false]. }
      assert (Hprog : Forall (fun f => is_user f = true) (default [] (list_ (get 2 (note [Called j f a] (set j (at_ (Z.of_nat e)) w)))))).
      { rewrite get_note. destruct (decide (2%nat = j)) as [<-|]; [by rewrite get_set_same|by rewrite get_set_other]. }
      destruct (less_three j Hj) as [->|Hj2].
      * rewrite Hl0 in H5. cbn in H5. rewrite Forall_lookup in H5. pose proof (H5 _ _ Hf) as Hu. destruct f as [n| | |]; try done. cbn [call].
        apply (call_inv 2 (User n) (body n) st w); [done|apply body_ok|exact Hfire|exact Hprog|].
        eapply (phase_progress (AtList 2 :: st)); try done; [intros i Hi; rewrite get_note; apply get_set_other; lia| | |].
        -- intros i Hi. rewrite trace_note, trace_set, adds_app, listed_calls_app. cbn. by rewrite bool_decide_false, !app_nil_r by lia.
        -- rewrite trace_note, trace_set, first_fire_app. by destruct (first_fire (trace w)).
        -- intros i Hi. cbn. by rewrite !bool_decide_false by (done || intros [= E]; lia).
      * destruct (firing_settled j _ _ H Hj2 ltac:(left)) as (a' & b & l & s & HL & Hff). pose proof HL as [L1 L2 L3 L4 L5 L6 L7 L8 L9].
        cbn [frame_of on_list] in L6. rewrite bool_decide_true in L6 by done. destruct L6 as (_ & M2 & _ & e' & M4 & M5 & _ & M7).
        assert (a' = a) as -> by congruence. assert (Hidx : firingIndex (get j w) = Z.of_nat e - 1) by lia. assert (e' = e) as -> by lia.
        rewrite L1 in Hl0. injection Hl0 as <-. destruct (decide (e < length b)%nat) as [Hlt|Hge].
        -- destruct L3 as [-> | ->]; [|cbn in Hlt; lia]. rewrite lookup_app_l in Hf by done.
           assert (s = e) as -> by (rewrite M7, bool_decide_false by done; cbn in Hlt; lia).
           pose proof (phase_built j a st w l e f Hj2 HL Hidx Hff Hf) as Hb. cbv zeta in Hb. unfold at_. rewrite Em in Hb.
           destruct (call body f _) as [w' cs]. destruct Hb as (-> & B1 & B2 & B3).
           apply (call_inv j f [] st w); [done|constructor|exact B2|by apply B3|exact B1].
        -- rewrite lookup_app_r in Hf by lia. pose proof L2 as Hu. rewrite Forall_lookup in Hu. specialize (Hu _ _ Hf). destruct f as [n| | |]; try done.
           cbn [call]. apply (call_inv j (User n) (body n) st w); [done|apply body_ok|exact Hfire|exact Hprog|].
           unfold at_. rewrite <- Em. eapply phase_called; try done. by rewrite lookup_app_r by lia.
    + apply Hend. intros a b l s e HL Hj2 _ _. pose proof (lv_cursor _ _ _ _ _ _ _ HL) as L6. cbn [frame_of on_list] in L6.
      rewrite bool_decide_true in L6 by done. destruct L6 as (_ & M2 & _). congruence.
  - assert (Hgo : inv (AtQueue j :: st, set j (at_ (-1)) w)); [|destruct (memory (get j w)); exact Hgo].
    apply Hend. intros a b l s e HL _ Hidx _. unfold found in Efound. rewrite Hidx, (lv_list _ _ _ _ _ _ _ HL) in Efound.
    replace (0 <=? Z.of_nat e - 1 + 1) with true in Efound by (symmetry; apply Z.leb_le; lia). cbn in Efound.
    by replace (Z.to_nat (Z.of_nat e - 1 + 1)) with e in Efound by lia.
Qed.

Lemma deferred_inv_step cf : inv cf -> inv (dstep cf).
Proof.
  destruct cf as [[|[[|c cs]|j|j|j f] st] w]; intros H.
  - exact H.
  - exact (pop_cmds st w H).
  - pose proof (iv_deep _ H) as [Ht _]. apply Forall_cons in Ht as [Hc _]. destruct c; try done; [by apply step_add|by apply step_fire].
  - by apply step_queue.
  - by apply step_list.
  - by apply step_back.
Qed.

Lemma inv_run n cf : inv cf -> inv (run deferred_options body isFalse n cf).
Proof. intros H. induction n as [|n IH]; [done|]. by apply deferred_inv_step. Qed.

Lemma inv_deferred : inv ([], deferred).
Proof.
  split; cbn [fst snd]; [exact I|apply NoDup_nil_2|apply Forall_nil_2| |apply Forall_nil_2|].
  - intros j Hj. rewrite bool_decide_false by apply not_elem_of_nil. by destruct j as [|[|[|j]]]; [| | |lia].
  - split; [done|]. split; (split; [done|]); (split; [done|constructor]).
Qed.

Lemma deferred_inv_start c w : inv ([], w) -> method c = true -> inv ([Cmds [c]], w).
Proof.
  intros [H1 H2 H3 H4 H5 H6] Hc. constructor; cbn [fst snd]; try done.
  - split; [by constructor|constructor].
  - eapply (phase_same []); try done. intros k a b l s Hk HL Hs. destruct (lv_top _ _ _ _ _ _ _ HL Hs).
Qed.

Lemma reached_inv p w : reached p w -> inv ([], w).
Proof.
  induction 1 as [|p w c n w' _ IH Hc Hrun]; [apply inv_deferred|]. rewrite <- Hrun. by apply inv_run, deferred_inv_start.
Qed.

(** *** Every command ends

    When callbacks only add callbacks of smaller numbers.  What is left to do
    weighs less after each step. *)

Definition below (n : nat) (c : cmd A) : bool :=
  match c with
  | Add k args => (k <? 3)%nat && forallb (fun f => match f with User m => (m <? n)%nat | _ => false end) (flat_map functions_of args)
  | _ => false
  end.

Fixpoint weight (d n : nat) : nat :=
  match d with
  | O => 0
  | S d => 3 + list_sum (map (fun c => match c with
      | Add _ args => 4 + list_sum (map (fun f => match f with User m => weight d m | _ => 3 end) (flat_map functions_of args))
      | _ => 4
      end) (body n))
  end%nat.

Definition fn_weight (f : fn) : nat := match f with User n => weight (S n) n | _ => 3%nat end.
Definition cmd_weight (c : cmd A) : nat :=
  match c with Add _ args => 4 + list_sum (map fn_weight (flat_map functions_of args)) | _ => 4 end%nat.

Context (body_below : forall n, Forall (fun c => below n c = true) (body n)).

Lemma list_sum_ext {B} (f g : B -> nat) l : (forall x, x ∈ l -> f x = g x) -> list_sum (map f l) = list_sum (map g l).
Proof. intros H. f_equal. apply map_ext_in. intros x Hx. by apply H, list_elem_of_In. Qed.

Lemma weight_enough n : forall d, (n < d)%nat -> weight d n = weight (S n) n.
Proof.
  induction n as [n IH] using lt_wf_ind. intros [|d] Hd; [lia|]. cbn [weight]. f_equal. apply list_sum_ext. intros c Hc.
  pose proof (body_below n) as Hb. rewrite Forall_forall in Hb. specialize (Hb c Hc). destruct c; try done. f_equal. apply list_sum_ext. intros f Hf.
  unfold below in Hb. apply andb_true_iff in Hb as [_ Hb]. rewrite forallb_forall in Hb. apply list_elem_of_In in Hf. specialize (Hb f Hf).
  destruct f as [m| | |]; try done. apply Nat.ltb_lt in Hb. rewrite (IH m) by lia. symmetry. apply IH; lia.
Qed.

Lemma user_weight n : fn_weight (User n) = (3 + list_sum (map cmd_weight (body n)))%nat.
Proof.
  cbn [fn_weight weight]. f_equal. apply list_sum_ext. intros c Hc. pose proof (body_below n) as Hb. rewrite Forall_forall in Hb. specialize (Hb c Hc).
  destruct c; try done. cbn [cmd_weight]. f_equal. apply list_sum_ext. intros f Hf.
  unfold below in Hb. apply andb_true_iff in Hb as [_ Hb]. rewrite forallb_forall in Hb. apply list_elem_of_In in Hf. specialize (Hb f Hf).
  destruct f as [m| | |]; try done. apply Nat.ltb_lt in Hb. apply weight_enough. lia.
Qed.

(** The callbacks a list that is being fired has still to call. *)
Definition remaining (c : callbacks A) : nat := list_sum (map fn_weight (drop (Z.to_nat (firingIndex c + 1)) (default [] (list_ c)))).

Definition frame_weight (w : world A) (f : frame A) : nat :=
  match f with
  | Cmds cs => 1 + list_sum (map cmd_weight cs)
  | AtQueue k => match queue (get k w) with [] => 1 | _ => 3 + remaining (get k w) end
  | AtList k => 2 + remaining (get k w)
  | Back k _ => 3 + remaining (get k w)
  end.

Definition to_do (cf : config A) : nat := list_sum (map (frame_weight cf.2) cf.1).

(** Commands that only add, and queues that are empty but for a list that is
    about to be fired. *)
Definition adding (f : frame A) : Prop :=
  match f with Cmds cs => Forall (fun c => exists n, below n c = true) cs | _ => True end.
Record busy_with_adds (cf : config A) : Prop := BusyAdds {
  ba_adding : Forall adding cf.1;
  ba_queue j : (j < 3)%nat -> queue (get j cf.2) = [] \/ head cf.1 = Some (AtQueue j) /\ length (queue (get j cf.2)) = 1%nat
}.

Definition weigh (w : world A) (st : list (frame A)) : nat := list_sum (map (frame_weight w) st).

Lemma cmds_same w' w cs : frame_weight w' (Cmds cs) = frame_weight w (Cmds cs).
Proof. done. Qed.

Lemma to_do_eq st w : to_do (st, w) = weigh w st.
Proof. done. Qed.

Lemma weigh_cons w f st : weigh w (f :: st) = (frame_weight w f + weigh w st)%nat.
Proof. done. Qed.

Lemma weigh_le w w' st : (forall f, f ∈ st -> (frame_weight w' f <= frame_weight w f)%nat) -> (weigh w' st <= weigh w st)%nat.
Proof.
  induction st as [|f st IH]; intros H; [done|]. rewrite !weigh_cons. pose proof (H f ltac:(left)). pose proof (IH ltac:(intros g Hg; apply H; by right)). lia.
Qed.

Lemma frame_same w w' f : (forall j, on_list f = Some j -> get j w' = get j w) -> frame_weight w' f = frame_weight w f.
Proof. intros H. destruct f; cbn; [done|by rewrite (H k)..]. Qed.

Lemma weigh_same w w' st : (forall j, j ∈ omap on_list st -> get j w' = get j w) -> weigh w' st = weigh w st.
Proof.
  intros H. unfold weigh. apply list_sum_ext. intros f Hf. apply frame_same. intros j Hj. apply H, list_elem_of_omap. by exists f.
Qed.

(** One list gets [d] heavier; it has one frame. *)
Lemma weigh_add w w' st k d : NoDup (omap on_list st) -> (forall j, j <> k -> get j w' = get j w) -> queue (get k w') = queue (get k w) ->
  (remaining (get k w') <= remaining (get k w) + d)%nat -> (weigh w' st <= weigh w st + d)%nat.
Proof.
  intros Hnd Ho Hq Hr. induction st as [|f st IH]; [cbn; lia|]. rewrite !weigh_cons. cbn in Hnd. destruct (on_list f) as [j|] eqn:E.
  - apply NoDup_cons in Hnd as [Hout Hnd]. fold (omap on_list st) in *. destruct (decide (j = k)) as [->|Hne].
    + rewrite (weigh_same w w' st) by (intros j Hj; apply Ho; by intros ->).
      assert (frame_weight w' f <= frame_weight w f + d)%nat; [|lia]. destruct f; try done; injection E as ->; cbn; rewrite ?Hq; try lia. destruct (queue (get k w)); lia.
    + rewrite (frame_same w w' f) by (intros i Hi; rewrite E in Hi; injection Hi as <-; by apply Ho). specialize (IH Hnd). lia.
  - fold (omap on_list st) in Hnd. rewrite (frame_same w w' f) by (intros i Hi; congruence). specialize (IH Hnd). lia.
Qed.

Lemma sum_app_map l l' : list_sum (map fn_weight (l ++ l')) = (list_sum (map fn_weight l) + list_sum (map fn_weight l'))%nat.
Proof. by rewrite map_app, list_sum_app. Qed.

Lemma pushed_weight uniq fs l : (list_sum (map fn_weight (pushed uniq fs l)) <= list_sum (map fn_weight fs))%nat.
Proof.
  revert l. induction fs as [|f fs IH]; intros l; cbn [pushed map list_sum foldr]; [done|]. destruct (negb uniq || _).
  - cbn [map]. pose proof (IH (l ++ [f])). change (fn_weight f + list_sum (map fn_weight (pushed uniq fs (l ++ [f]))) <= fn_weight f + list_sum (map fn_weight fs))%nat. lia.
  - pose proof (IH l). change (list_sum (map fn_weight (pushed uniq fs l)) <= fn_weight f + list_sum (map fn_weight fs))%nat. lia.
Qed.

Lemma drop_weight n (l fs : list fn) : (list_sum (map fn_weight (drop n (l ++ fs))) <= list_sum (map fn_weight (drop n l)) + list_sum (map fn_weight fs))%nat.
Proof.
  destruct (le_lt_dec n (length l)).
  - rewrite drop_app_le by done. by rewrite sum_app_map.
  - rewrite drop_app_ge by lia. rewrite (drop_ge l) by lia. cbn. rewrite <- (take_drop (n - length l) fs) at 2. rewrite sum_app_map. lia.
Qed.

Lemma remaining_call (c : callbacks A) e f : list_ c = Some (default [] (list_ c)) -> firingIndex c + 1 = Z.of_nat e -> default [] (list_ c) !! e = Some f ->
  remaining c = (fn_weight f + remaining (Callbacks (firing c) (memory c) (fired c) (locked c) (list_ c) (queue c) (Z.of_nat e)))%nat.
Proof.
  intros Hl He Hf. unfold remaining. cbn [firingIndex list_]. rewrite He, Nat2Z.id. rewrite (drop_S _ _ _ Hf). cbn [map list_sum foldr].
  by replace (Z.to_nat (Z.of_nat e + 1)) with (S e) by lia.
Qed.

Lemma cmds_weight w c cs : frame_weight w (Cmds (c :: cs)) = (cmd_weight c + frame_weight w (Cmds cs))%nat.
Proof. cbn [frame_weight map]. change (list_sum (cmd_weight c :: map cmd_weight cs)) with (cmd_weight c + list_sum (map cmd_weight cs))%nat. lia. Qed.

Lemma not_firing_idle k w : inv ([], w) -> (k < 3)%nat -> firing (get k w) = false.
Proof. intros H Hk. pose proof (iv_firing _ H k Hk) as E. cbn in E. rewrite E. apply bool_decide_eq_false, not_elem_of_nil. Qed.

(** A command that adds makes what is left to do lighter. *)
Lemma lighter_add k args cs st w n : inv (Cmds (Add k args :: cs) :: st, w) -> busy_with_adds (Cmds (Add k args :: cs) :: st, w) ->
  below n (Add k args) = true ->
  busy_with_adds (dstep (Cmds (Add k args :: cs) :: st, w)) /\ (to_do (dstep (Cmds (Add k args :: cs) :: st, w)) < to_do (Cmds (Add k args :: cs) :: st, w))%nat.
Proof.
  intros H [B1 B2] Hb. cbn [fst snd head] in *. apply Forall_cons in B1 as [B1 B1']. apply Forall_cons in B1 as [_ B1].
  assert (Hq : forall j, (j < 3)%nat -> queue (get j w) = []) by (intros j Hj; destruct (B2 j Hj) as [|[E _]]; done).
  assert (Hk : (k < 3)%nat) by (apply andb_true_iff in Hb as [Hk _]; by apply Nat.ltb_lt).
  pose proof (iv_once _ H) as Hnd. cbn [fst omap list_omap on_list] in Hnd. fold (omap on_list st) in Hnd.
  unfold dstep. cbn [machine_step act]. rewrite (to_do_eq (Cmds (Add k args :: cs) :: st)), weigh_cons, cmds_weight. cbn [cmd_weight].
  assert (Hset : forall tr c, weigh (note tr (set k c w)) st = weigh (set k c w) st) by (intros; by apply weigh_same).
  destruct (list_ (get k w)) as [l|] eqn:El.
  - destruct (add_some k args (get k w) l El) as (fs & Hfs & ->).
    pose proof (pushed_weight (unique (deferred_options k)) (flat_map functions_of args) l) as Hp. rewrite <- Hfs in Hp. unfold grown. destruct (goes (get k w)) eqn:Ego; unfold goes in Ego; cbn [fst snd].
    + set (c := Callbacks _ _ _ _ _ _ _). split.
      * split; cbn [fst snd app head]; [by repeat constructor|]. intros j Hj. rewrite get_note. destruct (decide (j = k)) as [->|Hne].
        -- right. split; [done|]. rewrite get_set_same. cbn. rewrite Hq by done. by destruct (memory (get k w)).
        -- left. rewrite get_set_other by done. by apply Hq.
      * assert (Hout : k ∉ omap on_list st) by (apply (not_firing k _ _ H Hk); by destruct (memory (get k w)), (firing (get k w))).
        cbn [app]. rewrite to_do_eq, !weigh_cons, Hset.
        rewrite (weigh_same w (set k c w) st) by (intros j Hj; apply get_set_other; by intros ->).
        assert (frame_weight (note (map (Added k) fs) (set k c w)) (AtQueue k) <= 3 + list_sum (map fn_weight fs))%nat; [|rewrite (cmds_same _ w cs); lia].
        cbn [frame_weight]. rewrite get_note, get_set_same. unfold remaining. cbn [c queue firingIndex list_ default from_option id].
        replace (Z.to_nat (Z.of_nat (length l) - 1 + 1)) with (length l) by lia. rewrite drop_app_length. destruct (queue (get k w) ++ _); lia.
    + set (c := Callbacks _ _ _ _ _ _ _). split.
      * split; cbn [fst snd app head]; [by repeat constructor|]. intros j Hj. left. rewrite get_note. destruct (decide (j = k)) as [->|Hne];
          [rewrite get_set_same; cbn; by apply Hq|rewrite get_set_other by done; by apply Hq].
      * cbn [app]. rewrite to_do_eq, weigh_cons, Hset.
        pose proof (weigh_add w (set k c w) st k (list_sum (map fn_weight fs)) Hnd) as Hw.
        assert (weigh (set k c w) st <= weigh w st + list_sum (map fn_weight fs))%nat; [|rewrite (cmds_same _ w cs); lia].
        apply Hw; [intros j Hj; by apply get_set_other|by rewrite get_set_same|]. rewrite get_set_same. unfold remaining. cbn [c firingIndex list_ default from_option id].
        rewrite El. apply drop_weight.
  - rewrite (add_none _ _ _ El). cbn [fst snd app]. assert (Hg : forall j, get j (note [] (set k (get k w) w)) = get j w).
    { intros j. rewrite get_note. destruct (decide (j = k)) as [->|]; [by rewrite get_set_same|by rewrite get_set_other]. }
    split.
    + split; cbn [fst snd head]; [by repeat constructor|]. intros j Hj. left. rewrite Hg. by apply Hq.
    + rewrite to_do_eq, weigh_cons, (weigh_same w _ st) by (intros; apply Hg). rewrite (cmds_same _ w cs). lia.
Qed.

(** A call weighs what its callback weighs. *)
Lemma call_lighter f w : exists g, (forall j, get j (call body f w).1 = g j (get j w)) /\
  (forall j c, queue (g j c) = queue c \/ queue (g j c) = []) /\ (forall j c, (remaining (g j c) <= remaining c)%nat) /\
  Forall (fun c => exists n, below n c = true) (call body f w).2 /\ (1 + list_sum (map cmd_weight (call body f w).2) + 3 <= fn_weight f + 1)%nat.
Proof.
  assert (Hset : forall k (h : callbacks A -> callbacks A), (forall c, queue (h c) = []) -> (forall c, remaining (h c) <= remaining c)%nat -> exists g,
    (forall j, get j (set k (h (get k w)) w) = g j (get j w)) /\ (forall j c, queue (g j c) = queue c \/ queue (g j c) = []) /\
    (forall j c, (remaining (g j c) <= remaining c)%nat)).
  { intros k h Hq Hr. exists (fun j c => if bool_decide (j = k) then h c else c). split; [|split]; intros j *.
    - rewrite get_set. destruct (decide (j = k)) as [->|]; [by rewrite !bool_decide_true|by rewrite !bool_decide_false].
    - case_bool_decide; auto.
    - case_bool_decide; auto. }
  destruct f as [n|s|k|k]; cbn [call fst snd].
  - exists (fun _ c => c). split_and!; auto.
    + eapply Forall_impl; [apply body_below|]. intros c Hc. by exists n.
    + rewrite user_weight. lia.
  - exists (fun _ c => c). split_and!; auto; cbn; lia.
  - destruct (Hset k disable) as (g & G1 & G2 & G3); [done|intros c; unfold remaining; cbn; rewrite drop_nil; cbn; lia|]. exists g. split_and!; auto; cbn; lia.
  - destruct (Hset k lock) as (g & G1 & G2 & G3).
    + intros c. unfold lock. by destruct (memory c).
    + intros c. unfold lock, remaining. destruct (memory c); cbn; [lia|]. rewrite drop_nil. cbn. lia.
    + exists g. split_and!; auto; cbn; lia.
Qed.

Lemma frame_lighter w w' f g : (forall j, get j w' = g j (get j w)) -> (forall j c, queue (g j c) = queue c \/ queue (g j c) = []) ->
  (forall j c, (remaining (g j c) <= remaining c)%nat) -> (frame_weight w' f <= frame_weight w f)%nat.
Proof.
  intros H1 H2 H3. destruct f as [cs|k|k|k f]; cbn [frame_weight]; rewrite ?H1; [done| |specialize (H3 k (get k w)); lia|specialize (H3 k (get k w)); lia].
  specialize (H3 k (get k w)). destruct (H2 k (get k w)) as [-> | ->]; destruct (queue (get k w)); lia.
Qed.

Lemma lighter cf : inv cf -> busy_with_adds cf -> cf.1 <> [] -> busy_with_adds (dstep cf) /\ (to_do (dstep cf) < to_do cf)%nat.
Proof.
  destruct cf as [[|fr st] w]; intros H B Hne; [done|]. clear Hne. pose proof B as [B1 B2]. cbn [fst snd head] in *.
  apply Forall_cons in B1 as [Bf B1].
  assert (Hk3 : forall k, on_list fr = Some k -> (k < 3)%nat).
  { intros k Hk. pose proof (iv_three _ H) as H3. cbn in H3. rewrite Hk in H3. by apply Forall_cons in H3 as [? _]. }
  assert (Hout : forall k, on_list fr = Some k -> k ∉ omap on_list st).
  { intros k Hk. pose proof (iv_once _ H) as H3. cbn in H3. rewrite Hk in H3. by apply NoDup_cons in H3 as [? _]. }
  assert (Hrest : forall k c, on_list fr = Some k -> weigh (set k c w) st = weigh w st).
  { intros k c Hk. apply weigh_same. intros j Hj. apply get_set_other. intros ->. by apply (Hout k). }
  destruct fr as [[|c cs]|k|k|k f].
  - split; [|rewrite to_do_eq, weigh_cons; unfold dstep; cbn [machine_step]; rewrite to_do_eq; cbn [frame_weight]; lia].
    split; [done|]. intros j Hj. destruct (B2 j Hj) as [E|[E _]]; [by left|done].
  - apply Forall_cons in Bf as [[n Hn] _] . destruct c; try done. by eapply lighter_add.
  - specialize (Hk3 k eq_refl). unfold dstep. cbn [machine_step]. rewrite (to_do_eq (AtQueue k :: st)), weigh_cons. cbn [frame_weight].
    assert (Hq : forall j, (j < 3)%nat -> j <> k -> queue (get j w) = []) by (intros j Hj Hne; destruct (B2 j Hj) as [|[[= ->] _]]; done).
    destruct (queue (get k w)) as [|a q] eqn:Eq; rewrite to_do_eq.
    + rewrite Hrest by done. split; [|lia]. split; [done|]. cbn [fst snd]. intros j Hj. left. destruct (decide (j = k)) as [->|];
        [by rewrite get_set_same|rewrite get_set_other by done; by apply Hq].
    + rewrite weigh_cons, Hrest by done. assert (q = []) as ->.
      { destruct (B2 k Hk3) as [E|[_ E]]; [by rewrite E in Eq|]. rewrite Eq in E. by destruct q. }
      split; [|cbn [frame_weight]; rewrite get_set_same; unfold remaining; cbn [firingIndex list_]; lia].
      split; cbn [fst snd]; [by constructor|]. intros j Hj. left. destruct (decide (j = k)) as [->|]; [by rewrite get_set_same|rewrite get_set_other by done; by apply Hq].
  - specialize (Hk3 k eq_refl). unfold dstep. cbn [machine_step]. rewrite (to_do_eq (AtList k :: st)), weigh_cons. cbn [frame_weight].
    assert (Hq : forall j, (j < 3)%nat -> queue (get j w) = []) by (intros j Hj; destruct (B2 j Hj) as [|[[=] _]]; done).
    set (found := if 0 <=? firingIndex (get k w) + 1 then default [] (list_ (get k w)) !! Z.to_nat (firingIndex (get k w) + 1) else None).
    assert (Hend : forall i, busy_with_adds (AtQueue k :: st, set k (Callbacks (firing (get k w)) (memory (get k w)) (fired (get k w)) (locked (get k w)) (list_ (get k w)) (queue (get k w)) i) w) /\
      (to_do (AtQueue k :: st, set k (Callbacks (firing (get k w)) (memory (get k w)) (fired (get k w)) (locked (get k w)) (list_ (get k w)) (queue (get k w)) i) w) <
       2 + remaining (get k w) + weigh w st)%nat).
    { intros i. rewrite to_do_eq, weigh_cons, Hrest by done. cbn [frame_weight]. rewrite get_set_same. cbn [queue]. rewrite (Hq k Hk3). split; [|lia].
      split; cbn [fst snd]; [by constructor|]. intros j Hj. left. destruct (decide (j = k)) as [->|]; [by rewrite get_set_same|rewrite get_set_other by done; by apply Hq]. }
    destruct found as [f|] eqn:Ef; [|destruct (memory (get k w)); apply Hend].
    destruct (memory (get k w)) as [a|] eqn:Em; [|apply Hend].
    set (w1 := note _ _). destruct (call_lighter f w1) as (g & G1 & G2 & G3 & G4 & G5). destruct (call body f w1) as [w2 cs]. cbn [fst snd] in *.
    assert (Hl : list_ (get k w) = Some (default [] (list_ (get k w)))).
    { unfold found in Ef. destruct (list_ (get k w)); [done|]. cbn in Ef. by destruct (0 <=? _). }
    assert (He : 0 <= firingIndex (get k w) + 1 /\ default [] (list_ (get k w)) !! Z.to_nat (firingIndex (get k w) + 1) = Some f).
    { unfold found in Ef. destruct (0 <=? _) eqn:E; [|done]. split; [by apply Z.leb_le|done]. }
    destruct He as [He Hf]. pose proof (remaining_call (get k w) _ f Hl (eq_sym (Z2Nat.id _ He)) Hf) as Hrem. rewrite Z2Nat.id in Hrem by done. rewrite Em in Hrem.
    rewrite to_do_eq, !weigh_cons. split.
    + split; cbn [fst snd]; [by repeat constructor|]. intros j Hj. left. rewrite G1. destruct (G2 j (get j w1)) as [-> | ->]; [|done]. unfold w1. rewrite get_note.
      destruct (decide (j = k)) as [->|]; [rewrite get_set_same; cbn; by apply Hq|rewrite get_set_other by done; by apply Hq].
    + assert (Hst : (weigh w2 st <= weigh w1 st)%nat) by (apply weigh_le; intros x _; by eapply frame_lighter).
      assert (Hst1 : weigh w1 st = weigh w st) by (apply (Hrest k); done). cbn [frame_weight]. pose proof (G3 k (get k w1)) as Hr. rewrite <- G1 in Hr.
      unfold w1 in Hr. rewrite get_note, get_set_same in Hr. lia.
  - specialize (Hk3 k eq_refl). unfold dstep. cbn [machine_step]. assert (stopOnFalse (deferred_options k) = false) as -> by (by destruct k as [|[|k]]).
    rewrite andb_false_r, !to_do_eq, !weigh_cons. cbn [frame_weight]. split; [|lia]. split; cbn [fst snd]; [by constructor|].
    intros j Hj. destruct (B2 j Hj) as [|[[=] _]]; by left.
Qed.

Lemma ends cf : inv cf -> busy_with_adds cf -> exists n w, run deferred_options body isFalse n cf = ([], w).
Proof.
  remember (to_do cf) as m eqn:Em. revert cf Em. induction m as [m IH] using lt_wf_ind. intros [st w] -> H B. destruct st as [|f st]; [by exists 0%nat, w|].
  destruct (lighter _ H B ltac:(done)) as [B' Hlt]. destruct (IH _ Hlt (dstep (f :: st, w)) eq_refl (deferred_inv_step _ H) B') as (n & w' & Hn).
  exists (S n), w'. unfold run in *. by rewrite Nat.iter_succ_r.
Qed.

(** A list that is not being fired has nothing in its queue. *)
Definition idle_empty (cf : config A) : Prop := forall j, (j < 3)%nat -> j ∉ omap on_list cf.1 -> queue (get j cf.2) = [].

Lemma idle_step cf : inv cf -> idle_empty cf -> idle_empty (dstep cf).
Proof.
  destruct cf as [[|fr st] w]; intros H Q; [exact Q|]. unfold idle_empty in *. cbn [fst snd] in Q.
  destruct fr as [[|c cs]|k|k|k f]; unfold dstep; cbn [machine_step].
  - exact Q.
  - pose proof (iv_deep _ H) as [Ht _]. apply Forall_cons in Ht as [Hc _]. destruct c as [k args| | | | |k a|]; try done; cbn [act].
    + destruct (list_ (get k w)) as [l|] eqn:El; [|rewrite (add_none _ _ _ El)].
      * destruct (add_some k args (get k w) l El) as (fs & _ & ->). unfold grown. destruct (goes (get k w)); cbn [fst snd app].
        -- intros j Hj [Hjk Hout]%not_elem_of_cons. rewrite get_note, get_set_other by done. by apply Q.
        -- intros j Hj Hout. rewrite get_note. destruct (decide (j = k)) as [->|]; [rewrite get_set_same; by apply Q|rewrite get_set_other by done; by apply Q].
      * cbn [fst snd app]. intros j Hj Hout. rewrite get_note. destruct (decide (j = k)) as [->|]; [rewrite get_set_same; by apply Q|rewrite get_set_other by done; by apply Q].
    + rewrite fireWith_spec. destruct (locked (get k w)); [|destruct (firing (get k w)) eqn:Ef]; cbn [fst snd app]; intros j Hj Hout.
      * rewrite get_note. destruct (decide (j = k)) as [->|]; [rewrite get_set_same; by apply Q|rewrite get_set_other by done; by apply Q].
      * rewrite get_note, get_set_other; [by apply Q|]. intros ->. pose proof (iv_firing _ H k Hj) as E. cbn [fst snd] in E. rewrite Ef in E. symmetry in E.
        apply bool_decide_eq_true in E. by apply Hout.
      * apply not_elem_of_cons in Hout as [Hjk Hout]. rewrite get_note, get_set_other by done. by apply Q.
  - destruct (queue (get k w)) as [|a q] eqn:Eq; cbn [fst snd]; intros j Hj Hout.
    + destruct (decide (j = k)) as [->|]; [by rewrite get_set_same|]. rewrite get_set_other by done. apply Q; [done|]. by apply not_elem_of_cons.
    + apply not_elem_of_cons in Hout as [Hjk Hout]. rewrite get_set_other by done. apply Q; [done|]. by apply not_elem_of_cons.
  - set (found := if 0 <=? firingIndex (get k w) + 1 then default [] (list_ (get k w)) !! Z.to_nat (firingIndex (get k w) + 1) else None).
    assert (Hend : forall i, idle_empty (AtQueue k :: st, set k (Callbacks (firing (get k w)) (memory (get k w)) (fired (get k w)) (locked (get k w)) (list_ (get k w)) (queue (get k w)) i) w)).
    { intros i j Hj Hout. cbn [fst snd] in *. pose proof Hout as [Hjk _]%not_elem_of_cons. rewrite get_set_other by done. by apply Q. }
    destruct found as [f|]; [|destruct (memory (get k w)); apply Hend]. destruct (memory (get k w)) as [a|]; [|apply Hend].
    set (w1 := note _ _). destruct (call_lighter f w1) as (g & G1 & G2 & _). destruct (call body f w1) as [w2 cs]. cbn [fst snd] in *. intros j Hj Hout.
    rewrite G1. destruct (G2 j (get j w1)) as [-> | ->]; [|done]. pose proof Hout as [Hjk _]%not_elem_of_cons. unfold w1. rewrite get_note, get_set_other by done. by apply Q.
  - assert (stopOnFalse (deferred_options k) = false) as -> by (by destruct k as [|[|k]]). rewrite andb_false_r. exact Q.
Qed.

Lemma reached_empty p w : reached p w -> idle_empty ([], w).
Proof.
  induction 1 as [|p w c n w' Hr IH Hc Hrun]; [by intros [|[|[|j]]] Hj; [| | |lia]|]. rewrite <- Hrun.
  assert (Hi : inv ([Cmds [c]], w)) by (apply deferred_inv_start; [by eapply reached_inv|done]).
  assert (Hq : idle_empty ([Cmds [c]], w)) by exact IH. clear Hrun. induction n as [|n IHn]; [exact Hq|]. cbn. apply idle_step; [by apply inv_run|exact IHn].
Qed.

(** Every command of the application ends, when its callbacks only add callbacks
    of smaller numbers. *)
Theorem commands_end p w c : reached p w -> method c = true -> (match c with Add _ _ => exists n, below n c = true | _ => True end) ->
  exists n w', run deferred_options body isFalse n ([Cmds [c]], w) = ([], w').
Proof.
  intros Hr Hc Hb. pose proof (reached_inv p w Hr) as H. pose proof (deferred_inv_start c w H Hc) as Hi.
  assert (Hq : forall j, (j < 3)%nat -> queue (get j w) = []) by (intros j Hj; apply (reached_empty p w Hr j Hj), not_elem_of_nil). destruct c as [k args| | | | |k a|]; try done.
  - apply ends; [done|]. split; cbn [fst snd]; [by repeat constructor|]. intros j Hj. left. by apply Hq.
  - destruct (ends (dstep ([Cmds [FireWith k a]], w)) (deferred_inv_step _ Hi)) as (n & w' & Hn).
    + unfold dstep. cbn [machine_step act]. rewrite fireWith_spec. unfold method in Hc. apply Nat.ltb_lt in Hc.
      destruct (locked (get k w)); [|rewrite (not_firing_idle k w H Hc)]; cbn [app].
      * split; cbn [fst snd]; [by repeat constructor|]. intros j Hj. left. rewrite get_note. destruct (decide (j = k)) as [->|];
          [rewrite get_set_same; by apply Hq|rewrite get_set_other by done; by apply Hq].
      * split; cbn [fst snd head]; [by repeat constructor|]. intros j Hj. rewrite get_note. destruct (decide (j = k)) as [->|].
        -- right. rewrite get_set_same. cbn. by rewrite Hq.
        -- left. rewrite get_set_other by done. by apply Hq.
    + exists (S n), w'. unfold run in *. by rewrite Nat.iter_succ_r.
Qed.

End Deferred.


End Deferred.

(** ** Examples *)

Module DeferredExamples.
Import Deferred.

Definition never (n : nat) : bool := false.

Fixpoint play (body : nat -> list (cmd nat)) (fuel : nat) (p : list (cmd nat)) (w : world nat) : world nat :=
  match p with [] => w | c :: p => play body fuel p (run deferred_options body never fuel ([Cmds [c]], w)).2 end.

(** A callback throws: the list is taken to be firing for ever, and none of its
    callbacks is called again. *)
Example thrown_list_is_stuck :
  let w := play (fun n => match n with 3 => [Throw] | _ => [] end)%nat 100 [Add 2 [AFn (User 3)]; Add 2 [AFn (User 4)]; FireWith 2 7; Add 2 [AFn (User 5)]; FireWith 2 8]%nat deferred in
  calls 2 (trace w) = [(User 3, 7)]%nat /\ firing (get 2 w) = true /\ queue (get 2 w) = [8]%nat.
Proof. vm_compute. done. Qed.

(** Of a list that keeps its memory, a callback added later is called with it, and
    one that is removed while the list is fired is not skipped over. *)
Example remembered :
  let w := play (fun n => match n with 1 => [Remove 2 [User 1]] | _ => [] end)%nat 100
             [Add 2 [AFn (User 1); AList [AFn (User 2); AOther]]; FireWith 2 7; Add 2 [AFn (User 4)]]%nat deferred in
  calls 2 (trace w) = [(User 1, 7); (User 2, 7); (User 4, 7)]%nat.
Proof. vm_compute. done. Qed.




End DeferredExamples.
